(* ===== verification/_CoqProject ===== *)
-Q . S2P
Prelude.v
Collapse.v
Num.v
FloatSum.v
Packer.v
PackerOptimal.v
Formatter.v
TokenBudget.v
AuthBreaker.v
RateLimit.v
Idempotency.v
PyText.v
Wire.v
AuthCodec.v
RefreshCodec.v
Pricing.v
BudgetLedger.v
Redaction.v
Permissions.v
Gateway.v
AuditQueue.v
MemoryStore.v
PiiGuard.v
ReadRank.v
MemoryRead.v
ModelClients.v
MemorySearch.v
HotCache.v
Lineage.v
Capture.v
CreateMemory.v
WritePipeline.v
WriteEffects.v
Extraction.v
ExtractionRuns.v
Retrieval.v
Candidates.v
Assemble.v
AssembleFit.v
ContextServer.v
OrgDeletion.v
OrgErasure.v
SessionToken.v
Pagination.v
Users.v
Agents.v
OperatorSession.v
SessionGuards.v
EventHub.v
EmbedService.v
EmbedStartup.v
ModelPolicy.v
DeletionEvidence.v
OrgControls.v
Fingerprint.v
Enqueue.v
McpTools.v
