(* ===== verification/Prelude.v ===== *)
(** * Verification of the IBEX Harness core (Python services)

    IBEX puts a memory between language-model agents and their providers.  A Go
    proxy (not modelled) forwards the requests of agents; the Python services
    around it are the subject of this library:

    - the _context_ service ([services/context]) assembles the text injected in
      front of a request: it retrieves the tenant's directive and memories in
      parallel, scores them, packs them into the model's token budget and
      formats them;
    - the _memory_ service ([services/memory]) writes memories through PII
      detection, deduplication, embedding and conflict judging into a store with
      revisions, supersession and an outbox, and serves search, lineage, feedback
      and the hot set;
    - the _embedder_ ([services/embedder]) turns texts into vectors through a model
      server or a hosted provider, behind a cache;
    - the _worker_ ([services/worker]) takes extraction jobs over HTTP, extracts
      memories from completed sessions under a budget reservation ledger, redacts
      captured payloads and runs the organization deletion saga;
    - the management _API_ ([services/api]) holds the operator sessions, the
      step-up checks, users, agents, policies, holds, the operator event stream,
      the deletion evidence and the requests that start a deletion;
    - the _MCP_ servers ([services/mcp-operator], [services/mcp-memory]) expose
      tools, behind the gateway pipeline of [packages/mcp_gateway], a circuit
      breaker for the Auth service, a rate limiter ([packages/mcp_runtime]) and
      the wire codec of the Auth service ([packages/authclient]).  The memory
      service and the worker share an idempotency ledger
      ([packages/ibex_idempotency]).

    ** Files

    Shared:
    - [Prelude]: exceptions as values ([result], [let*]), tactics, hints, the
      lemmas on lists, stable sorting ([PyOrder]) and integers all files use.
    - [Num]: Python's [float] behind [FloatOps], with the laws [FloatOrder] and
      [ExactSum]; instances: IEEE doubles and exact integers.  [FloatSum] proves
      from the bits that adding non-negative doubles rounds monotonically
      ([RoundedSum]).
    - [PyText]: [str] as code points, UTF-8, [uuid.UUID]; the Unicode database
      is the class [UnicodeDB].
    - [Collapse]: insertion-ordered dicts and the suppression of conflicts that
      search and assembly share.

    Context service:
    - [Packer]: [packer.py], [estimate.py]; [PackerOptimal] proves the knapsack
      against the recurrence [opt] and against every selection that fits, for
      the rounded sums of the program's doubles.
    - [Formatter]: [formatter.py]; a reader of the produced text is the
      specification of its escaping.
    - [TokenBudget]: [budget.py] and the catalog lookups.
    - [Retrieval]: [retrieval.py] and its two clients; what a service replies and
      which branch is late is the record [World].
    - [Candidates]: [scoring.py], [pipeline.py], [conflict.py].
    - [Assemble]: [assemble.py], composed of the files above; [AssembleFit] holds
      the theorems about it.
    - [ContextServer]: [grpc_auth.py], [principal.py], [server.py].

    Memory service and embedder:
    - [MemoryStore]: [lifecycle.py] and the persistence modules, over tables with
      the triggers of the migrations.
    - [PiiGuard]: the guard on reads; [ReadRank]: fusion, scores and ranking;
      [MemoryRead]: search, each statement on its own snapshot; [MemorySearch] holds
      the theorems about it.  [ModelClients]: the clients of the embedder and the
      reranker; [HotCache]: the hot set in Redis and the feedback ledger; [Lineage]:
      the walk over the relationship graph.
    - [CreateMemory]: the handler of [POST /v1/memories] over store and ledger;
      [WritePipeline]: the pipeline as a program over the services it calls, with
      its stages; [WriteEffects] holds the theorems about it.
    - [EmbedService]: validation, clients, backends, cache and endpoint of the
      embedder; [EmbedStartup]: its settings, geometry and startup checks.

    Worker:
    - [Pricing], [BudgetLedger]: [budget_pricing.py], [budget_ledger.py].
    - [Extraction]: [extraction/], the batch as a program over its services;
      [ExtractionRuns] holds the theorems on repeated runs.
    - [Enqueue]: [enqueue_http.py], requests of several servers over one ledger and
      one queue.
    - [Capture]: the capture redaction task.
    - [OrgDeletion]: [org_deletion.py], its receipts and stores, and the deletion
      request and suspension of [organizations.py]; [OrgErasure] holds the theorems
      about it.

    API:
    - [SessionToken]: [session_stub.py], over the interface [Jwt];
      [OperatorSession]: [session_refresh.py], [operator_session_auth.py],
      [step_up.py], [authz.py], [csrf.py], [routers/session.py], over the
      interface [AuthService]; [SessionGuards] holds the theorems about them.
    - [Pagination]: keyset pages and their cursors; [Users], [Agents]: the two
      resource services; [ModelPolicy]: model policies and their pattern grammar;
      [OrgControls]: capture policies, legal holds and rate limits;
      [DeletionEvidence]: the read model of deletions and its audit check;
      [EventHub]: the server-sent operator events.

    MCP servers and packages:
    - [AuthBreaker]: both [auth_breaker.py]; the classes [SettleLaws] and
      [SettleDecides] say what the invariants need of a settlement handler.
    - [RateLimit]: [ratelimit.py] with its Lua script over a Redis store.
    - [Idempotency]: [ledger.py], [sessions.py] over the ledger table;
      [Fingerprint]: [fingerprint.py].
    - [Wire], [AuthCodec], [RefreshCodec]: the protobuf codecs; a message decoder
      is a [FieldDecoder] with a law per field.
    - [Redaction], [Permissions], [Gateway], [AuditQueue]: the files of
      [mcp_gateway] and [permissions.py].
    - [McpTools]: the tools of the memory MCP server, its memory client and its
      agent verifier.

    ** How code is represented

    A Python function is a Rocq function of its arguments and of the state it
    reads; a call that can raise returns [result E A], with the exceptions of
    the component as [E].  A database is a record of tables; a transaction is a
    function on it that returns the old tables when it raises.  Where the code
    awaits, a component is a step relation or a program over the calls it makes,
    whose steps are the code between two awaits or the transactions of a function,
    so that the theorems about it hold for every interleaving.  Clock readings,
    random identifiers, the replies of other services and the faults of drivers and
    commits are arguments.  Integers are unbounded as in Python, and are masked
    where the code masks them (varints, permission bits, column widths).

    What is not in the repository is a parameter: [UnicodeDB] (character tables),
    the classes for NumPy, the mathematical library, the text of floats
    ([FloatRepr]), pydantic's coercions ([Pydantic]), JSON codecs, the recogniser and
    classifier models, SHA-256 and HMAC, and JSON Web Tokens.  Their laws state what
    their documentation says, and an instance in the file's examples satisfies them.

    ** What the theorems show

    - Context: a pack fits its budget, and the knapsack's selection has the largest
      running sum of scores (added as doubles, in index order) of all that fit; only
      a holder of the service token is answered, and only for the tenant its
      principal asserts; the assembled prompt fits the model's window, holds only
      memories of that tenant and at most one side of a conflict, and accounts for
      every candidate; stored text cannot forge the markup; assembly terminates.
    - Writing memories: only text cleared of PII reaches the embedder and the index;
      an embedding is filed only on the row whose text it is, unchanged since; only
      a predecessor, unchanged since it was judged, is superseded; stale writers do
      not commit; an answered request is replayed.
    - Reading memories: a page holds only live memories of the tenant the caller may
      see, shows one side of a standing conflict, and the reranker sees no text with
      PII; lineage lists the nearest edges; the hot set keeps the best.
    - Embeddings: the cache never changes an answer, and what is served has the
      promised dimension and norm.
    - Extraction: the pointer of a session follows the writes, a completed batch
      reruns to nothing, a budget hold is closed by one attempt that the provider's
      reply decides, which the ledger may refuse; a positive answer of the
      enqueue endpoint names a task queued for exactly that request.
    - Sessions: accepted tokens are genuine and of one kind; an operator action
      needs a live session, its permission and a fresh proof for that action;
      CSRF protection covers every cookie session; logout ends a session.
    - Administration: an organization keeps an owner; pages list every stable row
      once; the pattern scanner decides its grammar; the capture mode follows one
      rule; the audit check names the first break; an event stream shows each event
      of its organization after its cursor, in order.
    - Deletion: a job that reports success has erased the organization from
      every store, a legal hold stops it, other organizations are untouched, and
      a run without faults succeeds, while a deletion that stops after its purge
      cannot be requested again; archived payloads and their links agree, unless a
      commit's answer is lost or a rerun fails.
    - Ledgers: reservations stay within a hard cap; one owner settles an idempotency
      key; the fingerprint's text identifies the request.
    - Gateways and tools: results only within the caller's grant, one audit event
      per call, none lost silently; a memory tool acts only for its caller and an
      agent confirmed active; one probe at a time through the breaker; exactly
      [limit] calls per window; decoders contained on arbitrary bytes and inverse
      to the encoders.

    Some theorems state behaviour the code probably does not intend:
    - memory: [refill_shows_both_sides], [reworded_retry_loses_memory],
      [invalid_labels_leak_claim], [undated_memory_supersedes],
      [subjects_match_inside_words], [unreadable_embedding_is_internal_error],
      [past_end_is_internal_error], [huge_component_escapes],
      [superscript_delay_escapes];
    - embedder: [accepted_vector_never_hits], [flat_reply_is_internal_error];
    - worker: [exceeded_claim_keeps_stale_row], [rejected_call_keeps_hold],
      [failed_rerun_destroys_archive], [lost_commit_destroys_archive],
      [stranded_deletion_is_final], [overtaken_request_stays_pending],
      [cleared_hold_leaves_deletion_blocked];
    - API: [undecodable_cookie_escapes_logout], [rename_can_remove_last_owner],
      [null_name_patch_fails], [lagging_client_misses_event],
      [superscript_event_id_escapes], [stale_patch_restores_capture];
    - context: [one_bad_similarity_fails_assembly];
    - MCP: [memory_breaker_wedges], [padded_rewrite_conflicts].

    ** Fuel

    A loop that is not structural takes fuel, and the lemmas about it show that
    what its caller passes is enough: the field loops of the codecs, UTF-8
    decoding, [remove_all], the glob translation, the PEM key loader and the
    pattern scanner get the length of their input and consume at least one element
    per round; batches of documents get the number of documents; the varint writer
    gets a round per seven bits; the repair loop of the packer and the drop loop of
    assembly get the number of selected memories and remove one per round; walks
    over pages get one round more than there are rows.  Bounds of the code itself
    are kept as they are: retries of a commit or a revocation, attempts of a client
    and the depth of a lineage walk.

    ** Not modelled

    The Go services and packages and the console: other languages.  Of the Python
    code: framework wiring (FastAPI routers and schemas, gRPC and MCP transports,
    FastMCP and Celery registration, channels and connection pools), logging and
    metrics, generated tables, the providers that call language models, billing
    reconciliation over ClickHouse, operational scripts, evaluations and benchmarks.
    Read models that only select rows and map them (operator traces, directives,
    sessions and memories, usage queries, repositories of the operator tools) are
    left out, with the exception of the deletion evidence.  Cancellation of a request
    while it awaits is modelled for the breaker and the audit queue only. *)

From Stdlib Require Export ZArith Lia String Ascii.
From stdpp Require Export base strings gmap sorting list.

#[global] Open Scope Z_scope.
#[global] Open Scope list_scope.

(** ** Exceptions as values

    A Python call either returns or raises.  The components instantiate the
    error type with their own exception hierarchy. *)

Inductive result (E A : Type) : Type :=
| Ok (a : A)
| Raise (e : E).
Arguments Ok {E A} a.
Arguments Raise {E A} e.

Declare Scope py_scope.
Delimit Scope py_scope with py.
#[global] Open Scope py_scope.

Definition rbind {E A B : Type} (m : result E A) (k : A -> result E B) : result E B :=
  match m with
  | Ok a => k a
  | Raise e => Raise e
  end.

Notation "'let*' x ':=' m 'in' k" :=
  (rbind m (fun x => k))
    (at level 10, x name, m at level 100, k at level 200) : py_scope.
Notation "'let*' ' p ':=' m 'in' k" :=
  (rbind m (fun p => k))
    (at level 10, p pattern, m at level 100, k at level 200) : py_scope.
Notation "'raise_if' b 'with' e ';;' k" :=
  (if b then Raise e else k)
    (at level 10, b at level 100, e at level 9, k at level 200) : py_scope.

#[global] Instance result_eq_dec {E A : Type} `{EqDecision E} `{EqDecision A} :
  EqDecision (result E A).
Proof. solve_decision. Defined.

Definition is_ok {E A : Type} (m : result E A) : bool :=
  match m with Ok _ => true | Raise _ => false end.

Lemma rbind_Ok {E A B : Type} (m : result E A) (k : A -> result E B) (b : B) :
  rbind m k = Ok b <-> exists a, m = Ok a /\ k a = Ok b.
Proof.
  destruct m as [a|e]; cbn; split.
  - eauto.
  - by intros (a' & [= ->] & H).
  - done.
  - by intros (a' & ? & _).
Qed.

(** [for x in l: acc = f(acc, x)] where the body may raise. *)
Fixpoint rfold {E A B : Type} (f : B -> A -> result E B) (acc : B) (l : list A) : result E B :=
  match l with
  | [] => Ok acc
  | x :: l => let* acc' := f acc x in rfold f acc' l
  end.

(** [[f(x) for x in l]] where [f] may raise: the first exception wins. *)
Fixpoint rmap {E A B : Type} (f : A -> result E B) (l : list A) : result E (list B) :=
  match l with
  | [] => Ok []
  | x :: l => let* y := f x in let* ys := rmap f l in Ok (y :: ys)
  end.

Lemma rmap_Ok {E A B : Type} (f : A -> result E B) (l : list A) (ys : list B) :
  rmap f l = Ok ys <-> Forall2 (fun x y => f x = Ok y) l ys.
Proof.
  revert ys; induction l as [|x l IH]; intros ys; cbn.
  - split; [intros [= <-]; constructor | inversion 1; done].
  - rewrite rbind_Ok. split.
    + intros (y & Hy & (ys' & Hys & [= <-])%rbind_Ok). constructor; [done|]. by apply IH.
    + inversion 1 as [|? y ? ys' Hy Hys]; subst. exists y. split; [done|].
      apply rbind_Ok. exists ys'. split; [by apply IH|done].
Qed.

Lemma rmap_total {E A B : Type} (f : A -> result E B) (l : list A) :
  (forall x, x ∈ l -> is_ok (f x) = true) -> exists ys, rmap f l = Ok ys.
Proof.
  induction l as [|x l IH]; intros H; cbn; [eauto|].
  destruct (f x) as [y|e] eqn:E'; [|specialize (H x); rewrite E' in H; by discriminate H; left].
  destruct IH as [ys ->]; [intros; apply H; by right|]. cbn. eauto.
Qed.

(** ** Tactics *)

(** Case analysis on the first [if] or [match] scrutinee of the goal or a
    hypothesis. *)
Ltac case_if :=
  match goal with
  | |- context [if ?b then _ else _] => destruct b eqn:?
  | H : context [if ?b then _ else _] |- _ => destruct b eqn:?
  end.

(** Break a hypothesis [rbind m k = Ok b] into its steps. *)
Ltac inv_bind :=
  repeat match goal with
  | H : rbind _ _ = Ok _ |- _ =>
      apply rbind_Ok in H; destruct H as (? & ? & H)
  | H : Ok _ = Ok _ |- _ => injection H as H; subst
  | H : Ok _ = Raise _ |- _ => discriminate H
  | H : Raise _ = Ok _ |- _ => discriminate H
  | H : Raise _ = Raise _ |- _ => injection H as H; subst
  end.

(** Turn boolean tests into propositions. *)
Ltac bools :=
  repeat match goal with
  | H : (_ && _)%bool = true |- _ => apply andb_prop in H; destruct H
  | H : (_ || _)%bool = false |- _ => apply orb_false_elim in H; destruct H
  | H : negb _ = true |- _ => apply negb_true_iff in H
  | H : negb _ = false |- _ => apply negb_false_iff in H
  | H : bool_decide _ = true |- _ => apply bool_decide_eq_true in H
  | H : bool_decide _ = false |- _ => apply bool_decide_eq_false in H
  | H : (_ <=? _) = true |- _ => apply Z.leb_le in H
  | H : (_ <=? _) = false |- _ => apply Z.leb_gt in H
  | H : (_ <? _) = true |- _ => apply Z.ltb_lt in H
  | H : (_ <? _) = false |- _ => apply Z.ltb_ge in H
  | H : (_ =? _) = true |- _ => apply Z.eqb_eq in H
  | H : (_ =? _) = false |- _ => apply Z.eqb_neq in H
  | H : (_ =? _)%string = true |- _ => apply String.eqb_eq in H
  | H : (_ =? _)%string = false |- _ => apply String.eqb_neq in H
  end.

Create HintDb ibex discriminated.
Create Rewrite HintDb ibex.

(** ** Integer sums over lists *)

Definition sumZ {A : Type} (f : A -> Z) (l : list A) : Z :=
  foldr (fun x acc => f x + acc) 0 l.

Section SumZ.
Context {A : Type}.
Implicit Types (f g : A -> Z) (l : list A).

Lemma sumZ_nil f : sumZ f [] = 0.
Proof. done. Qed.

Lemma sumZ_cons f x l : sumZ f (x :: l) = f x + sumZ f l.
Proof. done. Qed.

Lemma sumZ_app f l k : sumZ f (l ++ k) = sumZ f l + sumZ f k.
Proof. induction l as [|x l IH]; cbn; [done|]. unfold sumZ in *. lia. Qed.

Lemma sumZ_snoc f l x : sumZ f (l ++ [x]) = sumZ f l + f x.
Proof. rewrite sumZ_app. cbn. lia. Qed.

Lemma sumZ_perm f l k : l ≡ₚ k -> sumZ f l = sumZ f k.
Proof. induction 1; cbn in *; unfold sumZ in *; lia. Qed.

Lemma sumZ_nonneg f l : (forall x, x ∈ l -> 0 <= f x) -> 0 <= sumZ f l.
Proof.
  induction l as [|x l IH]; intros H; cbn; [lia|].
  assert (0 <= f x) by (apply H; left).
  assert (0 <= sumZ f l) by (apply IH; intros y Hy; apply H; by right).
  unfold sumZ in *. lia.
Qed.

Lemma sumZ_le f g l : (forall x, x ∈ l -> f x <= g x) -> sumZ f l <= sumZ g l.
Proof.
  induction l as [|x l IH]; intros H; cbn; [lia|].
  assert (f x <= g x) by (apply H; left).
  assert (sumZ f l <= sumZ g l) by (apply IH; intros y Hy; apply H; by right).
  unfold sumZ in *. lia.
Qed.

Lemma sumZ_ext f g l : (forall x, x ∈ l -> f x = g x) -> sumZ f l = sumZ g l.
Proof.
  intros H. apply Z.le_antisymm; apply sumZ_le; intros x Hx; rewrite (H x Hx); lia.
Qed.

Lemma sumZ_filter_le f (p : A -> bool) l :
  (forall x, x ∈ l -> 0 <= f x) -> sumZ f (List.filter p l) <= sumZ f l.
Proof.
  induction l as [|x l IH]; intros H; cbn; [lia|].
  assert (0 <= f x) by (apply H; left).
  assert (sumZ f (List.filter p l) <= sumZ f l)
    by (apply IH; intros y Hy; apply H; by right).
  destruct (p x); cbn; unfold sumZ in *; lia.
Qed.
End SumZ.

Lemma sumZ_fmap {A B : Type} (f : B -> Z) (g : A -> B) (l : list A) :
  sumZ f (g <$> l) = sumZ (fun x => f (g x)) l.
Proof. induction l as [|x l IH]; cbn in *; unfold sumZ in *; lia. Qed.

#[export] Hint Rewrite @sumZ_app @sumZ_snoc @sumZ_cons @sumZ_nil : ibex.

(** ** Python's [sorted]

    [py_sorted ltb] is the stable sort by the strict comparison [ltb] of the
    keys.  On a strict weak order every stable sort returns this list. *)

Fixpoint sort_insert {A : Type} (ltb : A -> A -> bool) (x : A) (l : list A) : list A :=
  match l with
  | [] => [x]
  | y :: l' => if ltb y x then y :: sort_insert ltb x l' else x :: l
  end.

Definition py_sorted {A : Type} (ltb : A -> A -> bool) (l : list A) : list A :=
  foldr (sort_insert ltb) [] l.

(** The order laws a comparison obeys on the values satisfying [ok]. *)
Class PyOrder {A : Type} (ltb : A -> A -> bool) (ok : A -> Prop) : Prop := {
  po_asym : forall a b, ok a -> ok b -> ltb a b = true -> ltb b a = false;
  po_neg_trans : forall a b c, ok a -> ok b -> ok c ->
    ltb b a = false -> ltb c b = false -> ltb c a = false;
}.

(** [a <= b] in the sense of the comparison: [b < a] does not hold. *)
Definition leb_of {A : Type} (ltb : A -> A -> bool) (a b : A) : Prop := ltb b a = false.

Section Sorting.
Context {A : Type} (ltb : A -> A -> bool).

Lemma sort_insert_perm x l : sort_insert ltb x l ≡ₚ x :: l.
Proof.
  induction l as [|y l IH]; cbn; [done|]. destruct (ltb y x); [|done].
  rewrite IH. by rewrite Permutation_swap.
Qed.

Lemma py_sorted_perm l : py_sorted ltb l ≡ₚ l.
Proof.
  induction l as [|x l IH]; cbn; [done|]. by rewrite sort_insert_perm, IH.
Qed.

Lemma py_sorted_length l : length (py_sorted ltb l) = length l.
Proof. apply Permutation_length, py_sorted_perm. Qed.

Lemma py_sorted_elem x l : x ∈ py_sorted ltb l <-> x ∈ l.
Proof. by rewrite py_sorted_perm. Qed.

Context {ok : A -> Prop} `{!PyOrder ltb ok}.

Lemma po_irrefl a : ok a -> ltb a a = false.
Proof. intros Ha. destruct (ltb a a) eqn:E; [|done]. by rewrite <- E, (po_asym a a). Qed.

Lemma sort_insert_sorted x l :
  ok x -> Forall ok l -> StronglySorted (leb_of ltb) l ->
  StronglySorted (leb_of ltb) (sort_insert ltb x l).
Proof.
  intros Hx Hok Hl. induction Hl as [|y l Hl IH Hy]; cbn.
  { repeat constructor. }
  apply Forall_cons in Hok as [Hyok Hok].
  destruct (ltb y x) eqn:E.
  - constructor; [by apply IH|]. rewrite sort_insert_perm. constructor; [|done].
    by apply po_asym.
  - constructor; [by constructor|]. constructor; [done|].
    rewrite Forall_forall in Hy, Hok |- *. intros z Hz.
    apply (po_neg_trans x y z); [done|done|by apply Hok|done|by apply Hy].
Qed.

Lemma py_sorted_sorted l :
  Forall ok l -> StronglySorted (leb_of ltb) (py_sorted ltb l).
Proof.
  induction l as [|x l IH]; intros Hok; cbn; [constructor|].
  apply Forall_cons in Hok as [Hx Hl].
  assert (Forall ok (py_sorted ltb l)) by (by rewrite py_sorted_perm).
  apply sort_insert_sorted; [done|done|by apply IH].
Qed.

(** Sorting forgets the input order as soon as distinct elements have
    distinct keys. *)
Lemma py_sorted_canonical l k :
  Forall ok l -> l ≡ₚ k ->
  (forall x y, x ∈ l -> y ∈ l -> ltb x y = false -> ltb y x = false -> x = y) ->
  py_sorted ltb l = py_sorted ltb k.
Proof.
  intros Hok Hp Hinj. apply (StronglySorted_unique_strong (leb_of ltb)).
  - intros x y Hx Hy H1 H2. rewrite py_sorted_elem in Hx, Hy. rewrite <- Hp in Hy. auto.
  - by apply py_sorted_sorted.
  - apply py_sorted_sorted. by rewrite <- Hp.
  - by rewrite !py_sorted_perm.
Qed.

Lemma sort_insert_below x l :
  Forall (fun y => ltb y x = false) l -> sort_insert ltb x l = x :: l.
Proof. destruct 1 as [|y l Hy _]; cbn; [done|]. by rewrite Hy. Qed.

(** Sorting a sorted list is the identity. *)
Lemma py_sorted_id l : StronglySorted (leb_of ltb) l -> py_sorted ltb l = l.
Proof.
  induction 1 as [|x l Hl IH Hx]; [done|].
  change (sort_insert ltb x (py_sorted ltb l) = x :: l). rewrite IH.
  by apply sort_insert_below.
Qed.
End Sorting.

(** Comparison of Python tuples [(a, b)]: the first unequal component decides. *)
Definition pair_ltb {A B : Type} (eqA : A -> A -> bool) (ltA : A -> A -> bool)
    (ltB : B -> B -> bool) (p q : A * B) : bool :=
  if eqA p.1 q.1 then ltB p.2 q.2 else ltA p.1 q.1.

#[global] Instance pair_ltb_order {A B : Type} (eqA ltA : A -> A -> bool) (ltB : B -> B -> bool)
    (okA : A -> Prop) (okB : B -> Prop) `{!PyOrder ltA okA, !PyOrder ltB okB}
    (Heq : forall a b, okA a -> okA b -> eqA a b = (negb (ltA a b) && negb (ltA b a))%bool) :
  PyOrder (pair_ltb eqA ltA ltB) (fun p => okA p.1 /\ okB p.2).
Proof.
  unfold pair_ltb. split.
  - intros [a b] [a' b'] [Ha Hb] [Ha' Hb']; cbn in *.
    rewrite !Heq by done.
    destruct (ltA a a') eqn:E1, (ltA a' a) eqn:E2; cbn; try done.
    + intros _. by rewrite <- E2, (po_asym a a').
    + apply po_asym; done.
  - intros [a b] [a' b'] [a'' b''] [Ha Hb] [Ha' Hb'] [Ha'' Hb'']; cbn in *.
    rewrite !Heq by done.
    destruct (ltA a' a) eqn:E1, (ltA a a') eqn:E2, (ltA a'' a') eqn:E3, (ltA a' a'') eqn:E4;
      cbn; try done.
    all: try (assert (ltA a'' a' = false) by (by apply po_asym); congruence).
    all: try (assert (ltA a' a = false) by (by apply po_asym); congruence).
    all: intros Hb1 Hb2.
    all: assert (ltA a'' a = false) as -> by (by apply (po_neg_trans a a' a'')).
    all: cbn; try rewrite andb_true_r.
    all: destruct (ltA a a'') eqn:E5; cbn; try done.
    all: try (by apply (po_neg_trans b b' b'')).
    all: exfalso.
    + assert (ltA a a' = false); [|congruence]. by apply (po_neg_trans a' a'' a).
    + assert (ltA a a' = false); [|congruence]. by apply (po_neg_trans a' a'' a).
    + assert (ltA a' a'' = false); [|congruence]. by apply (po_neg_trans a'' a a').
Qed.

(** Pulling a comparison back along a key function. *)
Definition key_ltb {A B : Type} (key : A -> B) (ltb : B -> B -> bool) (x y : A) : bool :=
  ltb (key x) (key y).

#[global] Instance key_ltb_order {A B : Type} (key : A -> B) (ltb : B -> B -> bool)
    (ok : B -> Prop) `{!PyOrder ltb ok} :
  PyOrder (key_ltb key ltb) (fun x => ok (key x)).
Proof.
  unfold key_ltb. split; intros.
  - by apply po_asym.
  - eapply (po_neg_trans (key a) (key b)); done.
Qed.

#[global] Instance Zltb_order : PyOrder Z.ltb (fun _ => True).
Proof. split; intros; rewrite ?Z.ltb_lt, ?Z.ltb_ge in *; lia. Qed.

(** Python compares strings by code point, as [String.ltb] does. *)
Definition str_ltb (s t : string) : bool := String.ltb s t.

Lemma str_ltb_leb s t : str_ltb s t = negb (String.leb t s).
Proof.
  unfold str_ltb, String.ltb, String.leb. rewrite (String.compare_antisym t s).
  by destruct (String.compare s t).
Qed.

#[global] Instance str_ltb_order : PyOrder str_ltb (fun _ => True).
Proof.
  split; intros *; rewrite !str_ltb_leb, ?negb_true_iff, ?negb_false_iff.
  - intros _ _ Hba. destruct (String.leb_total a b) as [H|H]; [done|congruence].
  - intros _ _ _ H1 H2. apply Is_true_true_1. apply Is_true_true_2 in H1, H2.
    exact (transitivity (R := String.le) H1 H2).
Qed.

Lemma str_ltb_antisym s t : str_ltb s t = false -> str_ltb t s = false -> s = t.
Proof.
  rewrite !str_ltb_leb, !negb_false_iff. intros. by apply String.leb_antisym.
Qed.

(** ** Texts

    Where a component only measures, strips or joins texts, a text is a
    [string] of Latin-1 characters. *)

(** [str.isspace] of a character. *)
Definition latin1_space (c : ascii) : bool :=
  let n := Z.of_nat (nat_of_ascii c) in
  ((9 <=? n) && (n <=? 13) || (28 <=? n) && (n <=? 32) || (n =? 133) || (n =? 160))%bool.

Fixpoint str_lstrip (s : string) : string :=
  match s with
  | EmptyString => EmptyString
  | String c s' => if latin1_space c then str_lstrip s' else s
  end.

Fixpoint str_rstrip (s : string) : string :=
  match s with
  | EmptyString => EmptyString
  | String c s' =>
      match str_rstrip s' with
      | EmptyString => if latin1_space c then EmptyString else String c EmptyString
      | r => String c r
      end
  end.

(** [s.strip()] *)
Definition str_strip (s : string) : string := str_rstrip (str_lstrip s).

(** [sep.join(parts)] *)
Definition str_join (sep : string) (parts : list string) : string := String.concat sep parts.

Lemma str_length_app s t : String.length (s +:+ t) = (String.length s + String.length t)%nat.
Proof. induction s as [|c s IH]; [done|]. exact (f_equal S IH). Qed.

Lemma str_lstrip_length s : (String.length (str_lstrip s) <= String.length s)%nat.
Proof. induction s as [|c s IH]; cbn; [done|]. destruct (latin1_space c); cbn; lia. Qed.

Lemma str_rstrip_length s : (String.length (str_rstrip s) <= String.length s)%nat.
Proof.
  induction s as [|c s IH]; cbn; [done|]. destruct (str_rstrip s); cbn in *; [|lia].
  destruct (latin1_space c); cbn; lia.
Qed.

Lemma str_strip_length s : (String.length (str_strip s) <= String.length s)%nat.
Proof. pose proof (str_lstrip_length s). pose proof (str_rstrip_length (str_lstrip s)). unfold str_strip. lia. Qed.

Lemma str_app_nil_r s : s +:+ "" = s.
Proof. induction s as [|c s IH]; [done|]. exact (f_equal (String c) IH). Qed.

Lemma str_app_assoc s t u : (s +:+ t) +:+ u = s +:+ (t +:+ u).
Proof. induction s as [|c s IH]; [done|]. exact (f_equal (String c) IH). Qed.

Lemma str_join_cons sep x y l : str_join sep (x :: y :: l) = x +:+ sep +:+ str_join sep (y :: l).
Proof. done. Qed.

(** The length of a join: the parts and one separator between neighbours. *)
Lemma str_join_length sep l :
  Z.of_nat (String.length (str_join sep l))
  = sumZ (fun s => Z.of_nat (String.length s)) l
    + Z.of_nat (String.length sep) * Z.max 0 (Z.of_nat (length l) - 1).
Proof.
  induction l as [|x [|y l] IH]; [cbn; lia|cbn; unfold sumZ; cbn; lia|].
  rewrite str_join_cons, !str_length_app. rewrite sumZ_cons. cbn [length] in *. lia.
Qed.
