(* ===== verification/Collapse.v ===== *)
(** * Insertion-ordered dicts and conflict suppression

    Two pieces the context and the memory service both have: [dict] with text
    keys in insertion order, and the loop that keeps the first side of every
    pending conflict ([services/context/app/conflict.py],
    [services/memory/app/read/conflicts.py]). *)

From S2P Require Import Prelude.

(** ** Dicts *)

(** [d[k] = v] on a dict: an existing key keeps its place. *)
Fixpoint od_set {V : Type} (k : string) (v : V) (d : list (string * V)) : list (string * V) :=
  match d with
  | [] => [(k, v)]
  | (k', v') :: d => if String.eqb k' k then (k', v) :: d else (k', v') :: od_set k v d
  end.

Fixpoint od_get {V : Type} (k : string) (d : list (string * V)) : option V :=
  match d with
  | [] => None
  | (k', v) :: d => if String.eqb k' k then Some v else od_get k d
  end.

Lemma od_get_set {V : Type} k (v : V) k' d :
  od_get k' (od_set k v d) = if String.eqb k k' then Some v else od_get k' d.
Proof.
  induction d as [|[a b] d IH]; cbn; [done|]. destruct (String.eqb a k) eqn:E; cbn.
  - apply String.eqb_eq in E as ->. by destruct (String.eqb k k').
  - rewrite IH. destruct (String.eqb a k') eqn:E'; [|done]. apply String.eqb_eq in E' as ->.
    by rewrite String.eqb_sym, E.
Qed.

Lemma od_set_keys {V : Type} k (v : V) d :
  (od_set k v d).*1 = match od_get k d with Some _ => d.*1 | None => d.*1 ++ [k] end.
Proof.
  induction d as [|[a b] d IH]; cbn; [done|]. destruct (String.eqb a k) eqn:E; cbn; [done|].
  rewrite IH. by destruct (od_get k d).
Qed.

Lemma od_get_None {V : Type} k (d : list (string * V)) : od_get k d = None -> k ∉ d.*1.
Proof.
  induction d as [|[a b] d IH]; cbn; [set_solver|]. destruct (String.eqb a k) eqn:E; [done|].
  apply String.eqb_neq in E. intros H%IH. set_solver.
Qed.

Lemma od_get_elem {V : Type} k (v : V) d : NoDup d.*1 -> (k, v) ∈ d -> od_get k d = Some v.
Proof.
  induction d as [|[a b] d IH]; cbn; [set_solver|]. intros [Ha Hnd]%NoDup_cons [[= <- <-]|Hin]%elem_of_cons.
  - by rewrite String.eqb_refl.
  - destruct (String.eqb a k) eqn:E; [|by apply IH]. apply String.eqb_eq in E as ->.
    exfalso. apply Ha, list_elem_of_fmap. by exists (k, v).
Qed.

(** ** One side of every conflict

    [groups_of] gives the ids of the pending escalations of an item. *)

Section Collapse.
Context {A : Type} (groups_of : A -> list string).

Fixpoint collapse_loop (ordered : list A) (kept : list A) (kept_groups : gset string) : list A :=
  match ordered with
  | [] => kept
  | h :: ordered =>
      let groups := list_to_set (groups_of h) : gset string in
      if (negb (bool_decide (groups_of h = [])) && negb (bool_decide (kept_groups ## groups)))%bool
      then collapse_loop ordered kept kept_groups
      else collapse_loop ordered (kept ++ [h]) (kept_groups ∪ groups)
  end.

(** Two hits carry a common pending escalation. *)
Definition share_conflict (h h' : A) : Prop :=
  exists g, g ∈ groups_of h /\ g ∈ groups_of h'.

(** The groups the loop has marked are those of the kept hits. *)
Definition groups_marked (kept : list A) (kg : gset string) : Prop :=
  forall g, g ∈ kg <-> exists k, k ∈ kept /\ g ∈ groups_of k.

(** Whether the loop skips a hit. *)
Lemma collapse_skips kept kg h : groups_marked kept kg ->
  (negb (bool_decide (groups_of h = []))
   && negb (bool_decide (kg ## (list_to_set (groups_of h) : gset string))))%bool = true
  <-> exists k, k ∈ kept /\ share_conflict k h.
Proof.
  intros Hkg. rewrite andb_true_iff, !negb_true_iff, !bool_decide_eq_false. split.
  - intros [_ Hnd].
    destruct (set_choose_or_empty (kg ∩ list_to_set (groups_of h))) as [[g Hg]|He]; [|set_solver].
    apply elem_of_intersection in Hg as [Hg1 Hg2%elem_of_list_to_set].
    apply Hkg in Hg1 as (k & Hk & Hg1). exists k. split; [done|]. by exists g.
  - intros (k & Hk & g & Hg1 & Hg2). split; [by intros E; rewrite E in Hg2; apply elem_of_nil in Hg2|].
    intros Hdis. apply (Hdis g); [apply Hkg; eauto|by apply elem_of_list_to_set].
Qed.

(** The kept hits have no conflict among them; every other hit conflicts with a
    kept one that came before it. *)
Record collapsed_by (done kept : list A) : Prop := {
  co_sub : exists rest, kept ++ rest ≡ₚ done;
  co_free : forall i j h h', kept !! i = Some h -> kept !! j = Some h' -> i <> j -> ~ share_conflict h h';
  co_beaten : forall i d, done !! i = Some d -> d ∈ kept \/
    exists j k, (j < i)%nat /\ done !! j = Some k /\ k ∈ kept /\ share_conflict k d;
}.

Lemma share_conflict_sym h h' : share_conflict h h' -> share_conflict h' h.
Proof. intros (g & H1 & H2). by exists g. Qed.

Lemma collapsed_skip done kept h k : collapsed_by done kept -> k ∈ kept -> share_conflict k h ->
  collapsed_by (done ++ [h]) kept.
Proof.
  intros [[rest Hsub] Hfree Hbeat] Hk Hc. split; [|done|].
  - exists (rest ++ [h]). by rewrite app_assoc, Hsub.
  - intros i d [Hi|[Hi Hd]]%lookup_app_Some.
    + destruct (Hbeat i d Hi) as [?|(j & k' & ? & Hj & ?)]; [by left|right].
      exists j, k'. split; [done|]. by rewrite lookup_app_l by (by eapply lookup_lt_Some).
    + apply list_lookup_singleton_Some in Hd as [? <-]. right.
      assert (k ∈ done) as [j Hj]%list_elem_of_lookup by (rewrite <- Hsub; set_solver).
      pose proof (lookup_lt_Some _ _ _ Hj). exists j, k. split; [lia|]. by rewrite lookup_app_l by done.
Qed.

Lemma collapsed_keep done kept h : collapsed_by done kept -> (forall k, k ∈ kept -> ~ share_conflict k h) ->
  collapsed_by (done ++ [h]) (kept ++ [h]).
Proof.
  intros [[rest Hsub] Hfree Hbeat] Hno. split.
  - exists rest. by rewrite <- Hsub, <- !app_assoc, (Permutation_app_comm [h] rest).
  - intros i j a b [Ha|[Hi Ha]]%lookup_app_Some [Hb|[Hj Hb]]%lookup_app_Some Hij.
    + by apply (Hfree i j).
    + apply list_lookup_singleton_Some in Hb as [? <-]. by apply Hno, (list_elem_of_lookup_2 _ i).
    + apply list_lookup_singleton_Some in Ha as [? <-]. intros ?%share_conflict_sym.
      by apply (Hno b); [apply (list_elem_of_lookup_2 _ j)|].
    + apply list_lookup_singleton_Some in Ha as [? _], Hb as [? _]. lia.
  - intros i d [Hi|[Hi Hd]]%lookup_app_Some.
    + destruct (Hbeat i d Hi) as [?|(j & k' & ? & Hj & ? & ?)]; [left; set_solver|right].
      exists j, k'. split_and!; [done| |set_solver|done]. by rewrite lookup_app_l by (by eapply lookup_lt_Some).
    + apply list_lookup_singleton_Some in Hd as [? <-]. left. set_solver.
Qed.

Lemma collapse_loop_spec ordered : forall done kept kg, groups_marked kept kg -> collapsed_by done kept ->
  collapsed_by (done ++ ordered) (collapse_loop ordered kept kg).
Proof.
  induction ordered as [|h ordered IH]; intros done kept kg Hkg Hc; [by rewrite app_nil_r|].
  rewrite cons_middle, app_assoc. cbn [collapse_loop]. cbn zeta.
  pose proof (collapse_skips kept kg h Hkg) as Hskip. case_if.
  - destruct (proj1 Hskip eq_refl) as (k & Hk & Hck). apply IH; [done|]. by apply (collapsed_skip _ _ _ k).
  - apply IH.
    + intros g. rewrite elem_of_union, (Hkg g), elem_of_list_to_set. set_solver.
    + apply collapsed_keep; [done|]. intros k Hk Hck.
      assert (false = true); [|done]. apply Hskip. eauto.
Qed.

Lemma collapse_collapsed l : collapsed_by l (collapse_loop l [] ∅).
Proof.
  apply (collapse_loop_spec l [] []); [intros g; set_solver|]. split; [by exists []|done|done].
Qed.

Lemma collapse_no_pair l x y : x ∈ collapse_loop l [] ∅ -> y ∈ collapse_loop l [] ∅ -> x <> y -> ~ share_conflict x y.
Proof.
  intros [i Hi]%list_elem_of_lookup [j Hj]%list_elem_of_lookup Hne.
  apply (co_free _ _ (collapse_collapsed l) i j); [done|done|congruence].
Qed.

(** The kept items stay in their order. *)
Lemma collapse_sublist l : forall kept kg, exists l', sublist l' l /\ collapse_loop l kept kg = kept ++ l'.
Proof.
  induction l as [|h l IH]; intros kept kg; cbn [collapse_loop]; cbn zeta.
  - exists []. by rewrite app_nil_r.
  - destruct (negb _ && negb _)%bool; [destruct (IH kept kg) as (l' & Hl' & ->); exists l'; split; [by constructor|done]|].
    destruct (IH (kept ++ [h]) (kg ∪ list_to_set (groups_of h))) as (l' & Hl' & ->).
    exists (h :: l'). split; [by constructor|by rewrite <- app_assoc].
Qed.
End Collapse.
