(* ===== verification/Num.v ===== *)
(** * Numbers: Python's [float] behind an interface

    The services compare and add [float] scores.  The components are written
    against [FloatOps], the operations they use; what a theorem needs of the
    arithmetic is stated by [FloatOrder] (comparison of numbers that are not
    NaN is a total preorder) or by [ExactSum] (sums are exact and ordered).

    [binary64] is the IEEE 754 double format of the running program, on the
    Standard Library's executable [spec_float]; it satisfies [FloatOps] and
    [FloatOrder].  [Z] is the exact instance that also satisfies [ExactSum]
    (scores counted in a fixed unit). *)

From Stdlib Require Import SpecFloat.
From S2P Require Import Prelude.

Class FloatOps (F : Type) := {
  f_zero : F;
  f_add : F -> F -> F;
  f_opp : F -> F;
  f_eqb : F -> F -> bool;
  f_ltb : F -> F -> bool;
  (** [sum(xs)] over floats. *)
  f_sum : list F -> F;
}.

#[global] Instance FloatOps_inhabited {F : Type} `{FloatOps F} : Inhabited F | 100 :=
  populate f_zero.

(** [f_num x]: [x] is not NaN. *)
Class FloatOrder (F : Type) {ops : FloatOps F} := {
  f_num : F -> Prop;
  f_num_opp : forall x, f_num x -> f_num (f_opp x);
  f_ltb_order :: PyOrder f_ltb f_num;
  f_eqb_spec : forall x y, f_num x -> f_num y ->
    f_eqb x y = (negb (f_ltb x y) && negb (f_ltb y x))%bool;
  f_ltb_opp : forall x y, f_ltb (f_opp x) (f_opp y) = f_ltb y x;
}.

(** Exact, translation-invariant arithmetic: an idealisation that rounding
    breaks; what doubles keep of it is [RoundedSum] of [FloatSum]. *)
Class ExactSum (F : Type) {ops : FloatOps F} {ord : FloatOrder F} : Prop := {
  es_num : forall x : F, f_num x;
  es_sum_nil : f_sum [] = f_zero;
  es_sum_cons : forall x l, f_sum (x :: l) = f_add x (f_sum l);
  es_add_comm : forall x y, f_add x y = f_add y x;
  es_add_assoc : forall x y z, f_add x (f_add y z) = f_add (f_add x y) z;
  es_add_0_l : forall x, f_add f_zero x = x;
  es_ltb_add : forall x y z, f_ltb (f_add x z) (f_add y z) = f_ltb x y;
  es_ltb_eq : forall x y, f_ltb x y = false -> f_ltb y x = false -> x = y;
}.

(** ** Lemmas every instance inherits *)

Section Exact.
Context {F : Type} `{ExactSum F}.
Implicit Types x y z : F.

Definition f_le x y : Prop := f_ltb y x = false.

Lemma f_le_refl x : f_le x x.
Proof. apply (po_irrefl f_ltb (ok := f_num)), es_num. Qed.

Lemma f_le_trans x y z : f_le x y -> f_le y z -> f_le x z.
Proof. unfold f_le. intros. eapply (po_neg_trans (ok := f_num) x y z); auto using es_num. Qed.

Lemma f_lt_le x y : f_ltb x y = true -> f_le x y.
Proof. intros. by apply (po_asym (ok := f_num)); auto using es_num. Qed.

Lemma f_add_le x y z : f_le x y -> f_le (f_add x z) (f_add y z).
Proof. unfold f_le. by rewrite es_ltb_add. Qed.

Lemma f_add_0_r x : f_add x f_zero = x.
Proof. by rewrite es_add_comm, es_add_0_l. Qed.

Lemma f_sum_app l k : f_sum (l ++ k) = f_add (f_sum l) (f_sum k).
Proof.
  induction l as [|x l IH]; cbn.
  - by rewrite es_sum_nil, es_add_0_l.
  - by rewrite !es_sum_cons, IH, es_add_assoc.
Qed.

Lemma f_sum_perm l k : l ≡ₚ k -> f_sum l = f_sum k.
Proof.
  induction 1; rewrite ?es_sum_cons; [done|congruence| |congruence].
  by rewrite !es_add_assoc, (es_add_comm y x).
Qed.
End Exact.

#[export] Hint Resolve f_le_refl f_le_trans f_lt_le f_add_le : ibex.

(** ** IEEE 754 binary64 *)

Definition binary64 : Type := spec_float.

Definition b64_add : binary64 -> binary64 -> binary64 := SFadd 53 1024.
Definition b64_sub : binary64 -> binary64 -> binary64 := SFsub 53 1024.
Definition b64_mul : binary64 -> binary64 -> binary64 := SFmul 53 1024.
Definition b64_div : binary64 -> binary64 -> binary64 := SFdiv 53 1024.
Definition b64_is_finite (x : binary64) : bool :=
  match x with S754_zero _ | S754_finite _ _ _ => true | _ => false end.

(** [float(z)] of an integer, rounded to nearest even. *)
Definition b64_of_Z (z : Z) : binary64 := binary_normalize 53 1024 z 0 false.

(** [m * 2^e] for an exactly representable literal. *)
Definition b64_lit (m : positive) (e : Z) : binary64 := S754_finite false m e.

(** [int(x)]: truncation towards zero of a finite double. *)
Definition b64_trunc (x : binary64) : option Z :=
  match x with
  | S754_zero _ => Some 0
  | S754_finite s m e =>
      let a := if 0 <=? e then Z.shiftl (Zpos m) e else Z.shiftr (Zpos m) (- e) in
      Some (if s then - a else a)
  | _ => None
  end.

(** CPython's [sum] of floats keeps a running compensation (Neumaier):
    [(hi, lo)] after each item, and [lo] is added at the end if it is a
    nonzero finite number. *)
Definition b64_cs_add (acc : binary64 * binary64) (x : binary64) : binary64 * binary64 :=
  let '(hi, lo) := acc in
  let t := b64_add hi x in
  if SFleb (SFabs x) (SFabs hi)
  then (t, b64_add lo (b64_add (b64_sub hi t) x))
  else (t, b64_add lo (b64_add (b64_sub x t) hi)).

Definition b64_cs_result (acc : binary64 * binary64) : binary64 :=
  let '(hi, lo) := acc in
  if (negb (SFeqb lo (S754_zero false)) && b64_is_finite lo)%bool then b64_add hi lo else hi.

(** The first float is added to the integer start value 0. *)
Definition b64_sum (l : list binary64) : binary64 :=
  match l with
  | [] => S754_zero false
  | x :: l => b64_cs_result
                (foldl b64_cs_add (b64_add (S754_zero false) x, S754_zero false) l)
  end.

#[global] Instance binary64_ops : FloatOps binary64 := {
  f_zero := S754_zero false;
  f_add := b64_add;
  f_opp := SFopp;
  f_eqb := SFeqb;
  f_ltb := SFltb;
  f_sum := b64_sum;
}.

(** The comparison of doubles is the lexicographic order of a rank: class and
    sign first, then the exponent, then the mantissa. *)
Definition b64_rank (x : binary64) : Z * (Z * Z) :=
  match x with
  | S754_infinity true => (-2, (0, 0))
  | S754_finite true m e => (-1, (- e, - Zpos m))
  | S754_zero _ => (0, (0, 0))
  | S754_finite false m e => (1, (e, Zpos m))
  | S754_infinity false => (2, (0, 0))
  | S754_nan => (3, (0, 0))
  end.

Definition rank_ltb : Z * (Z * Z) -> Z * (Z * Z) -> bool :=
  pair_ltb Z.eqb Z.ltb (pair_ltb Z.eqb Z.ltb Z.ltb).

Lemma Zeqb_ltb a b : (a =? b) = (negb (a <? b) && negb (b <? a))%bool.
Proof. lia. Qed.

Lemma rank_ltb_order : PyOrder rank_ltb (fun _ => True).
Proof.
  pose proof (pair_ltb_order Z.eqb Z.ltb Z.ltb (fun _ => True) (fun _ => True)
                (fun a b _ _ => Zeqb_ltb a b)) as H.
  pose proof (pair_ltb_order Z.eqb Z.ltb (pair_ltb Z.eqb Z.ltb Z.ltb) (fun _ => True) _
                (fun a b _ _ => Zeqb_ltb a b)) as H'.
  split; intros.
  - by apply (po_asym (PyOrder := H')).
  - by eapply (po_neg_trans (PyOrder := H') a b c).
Qed.

Lemma SFcompare_rank x y : x <> S754_nan -> y <> S754_nan ->
  SFcompare x y = Some (if rank_ltb (b64_rank x) (b64_rank y) then Lt
                        else if rank_ltb (b64_rank y) (b64_rank x) then Gt else Eq).
Proof.
  intros Hx Hy. unfold rank_ltb, pair_ltb.
  destruct x as [sx|[]| |[] mx ex], y as [sy|[]| |[] my ey]; cbn in *; try done.
  all: f_equal; destruct (Z.compare_spec ex ey) as [->|H|H].
  all: repeat (case_if; bools; cbn in *); try lia; try done.
  all: try (destruct (Pos.compare_cont Eq mx my) eqn:E; cbn;
            change (Pos.compare mx my = Eq) in E || change (Pos.compare mx my = Lt) in E
            || change (Pos.compare mx my = Gt) in E;
            rewrite ?Pos.compare_eq_iff, ?Pos.compare_lt_iff, ?Pos.compare_gt_iff in E; subst; lia || done).
Qed.

Lemma SFltb_rank x y : x <> S754_nan -> y <> S754_nan ->
  SFltb x y = rank_ltb (b64_rank x) (b64_rank y).
Proof.
  intros Hx Hy. unfold SFltb. rewrite SFcompare_rank by done.
  destruct (rank_ltb _ _); [done|]. by destruct (rank_ltb _ _).
Qed.

#[global] Instance SFltb_order : PyOrder SFltb (fun x : binary64 => x <> S754_nan).
Proof.
  destruct rank_ltb_order as [Ha Ht].
  split; intros *; intros; rewrite SFltb_rank in *; eauto.
Qed.

Lemma SFeqb_ltb (x y : binary64) : x <> S754_nan -> y <> S754_nan ->
  SFeqb x y = (negb (SFltb x y) && negb (SFltb y x))%bool.
Proof.
  intros Hx Hy. rewrite !SFltb_rank by done. unfold SFeqb. rewrite SFcompare_rank by done.
  by destruct (rank_ltb (b64_rank x) (b64_rank y)), (rank_ltb (b64_rank y) (b64_rank x)).
Qed.

Lemma SFltb_opp (x y : binary64) : SFltb (SFopp x) (SFopp y) = SFltb y x.
Proof.
  unfold SFltb. destruct x as [sx|[]| |[] mx ex], y as [sy|[]| |[] my ey]; cbn; try done.
  all: rewrite ?(Z.compare_antisym ex ey).
  all: assert (Pos.compare_cont Eq my mx = CompOpp (Pos.compare_cont Eq mx my)) as ->
    by apply Pos.compare_antisym.
  all: by destruct (Z.compare ex ey), (Pos.compare_cont Eq mx my).
Qed.

#[global] Instance binary64_order : FloatOrder binary64 := {
  f_num := fun x => x <> S754_nan;
  f_num_opp := fun x H => ltac:(by destruct x);
  f_ltb_order := SFltb_order;
  f_eqb_spec := SFeqb_ltb;
  f_ltb_opp := SFltb_opp;
}.

(** ** Non-negative doubles *)

Lemma shr_1_nonneg r : 0 <= shr_m r -> 0 <= shr_m (shr_1 r).
Proof. destruct r as [[|[p|p|]|p] ? ?]; cbn; lia. Qed.

Lemma iter_shr_nonneg p : forall r, 0 <= shr_m r -> 0 <= shr_m (SpecFloat.iter_pos shr_1 p r).
Proof. induction p as [p IH|p IH|]; cbn; intros r Hr; auto using shr_1_nonneg. Qed.

Lemma shr_nonneg r e n : 0 <= shr_m r -> 0 <= shr_m (shr r e n).1.
Proof. intros Hr. destruct n; cbn; auto using iter_shr_nonneg. Qed.

Lemma shr_fexp_nonneg prec emax m e l : 0 <= m -> 0 <= shr_m (shr_fexp prec emax m e l).1.
Proof. intros Hm. apply shr_nonneg. by destruct l as [|[]]. Qed.

Lemma round_nearest_even_nonneg m l : 0 <= m -> 0 <= round_nearest_even m l.
Proof. intros Hm. unfold round_nearest_even. destruct l as [|[]]; try lia. destruct (Z.even m); lia. Qed.

(** Rounding a non-negative significand gives a number of the same sign. *)
Lemma binary_round_aux_num prec emax s m e l : 0 <= m ->
  match binary_round_aux prec emax s m e l with
  | S754_zero s' | S754_infinity s' | S754_finite s' _ _ => s' = s
  | S754_nan => False
  end.
Proof.
  intros Hm. unfold binary_round_aux.
  pose proof (shr_fexp_nonneg prec emax m e l Hm) as H1. destruct (shr_fexp prec emax m e l) as [r1 e1]. cbn in H1.
  pose proof (shr_fexp_nonneg prec emax (round_nearest_even (shr_m r1) (loc_of_shr_record r1)) e1 loc_Exact
                (round_nearest_even_nonneg _ _ H1)) as H2.
  destruct (shr_fexp prec emax _ e1 loc_Exact) as [r2 e2]. cbn in H2.
  destruct (shr_m r2) as [|p|p]; cbn in *; [done| |lia]. by destruct (_ <=? _).
Qed.

(** A double that is not NaN and has no negative sign, zeros aside. *)
Definition nonneg_num (x : binary64) : Prop :=
  match x with
  | S754_zero _ => True
  | S754_infinity s => s = false
  | S754_finite s _ _ => s = false
  | S754_nan => False
  end.

Lemma b64_mul_nonneg x y : b64_is_finite x = true -> b64_is_finite y = true ->
  nonneg_num x -> nonneg_num y -> nonneg_num (b64_mul x y).
Proof.
  destruct x as [| | |sx mx ex], y as [| | |sy my ey]; try done. cbn [nonneg_num]. intros _ _ -> ->.
  unfold b64_mul. cbn [SFmul xorb].
  pose proof (binary_round_aux_num 53 1024 false (Zpos (mx * my)) (ex + ey) loc_Exact) as H.
  destruct (binary_round_aux _ _ _ _ _ _); cbn in *; auto; apply H; lia.
Qed.

Lemma binary_normalize_num m e s : 0 <= m -> nonneg_num (binary_normalize 53 1024 m e s).
Proof.
  intros Hm. destruct m as [|p|p]; [done| |lia]. unfold binary_normalize, binary_round.
  destruct (shl_align p e _) as [mz ez].
  pose proof (binary_round_aux_num 53 1024 false (Zpos mz) ez loc_Exact) as H.
  destruct (binary_round_aux _ _ _ _ _ _); cbn in *; auto; apply H; lia.
Qed.

Lemma b64_add_nonneg x y : nonneg_num x -> nonneg_num y -> nonneg_num (b64_add x y).
Proof.
  destruct x as [sx|sx| |sx mx ex], y as [sy|sy| |sy my ey]; cbn [nonneg_num]; try done; intros; subst; try done.
  - unfold b64_add; cbn. by destruct sx, sy.
  - cbn [b64_add SFadd]. apply binary_normalize_num. cbn. lia.
Qed.

Lemma nonneg_num_num x : nonneg_num x -> f_num x.
Proof. by destruct x. Qed.

(** ** Exact scores in a fixed unit *)

#[global] Instance Z_ops : FloatOps Z := {
  f_zero := 0;
  f_add := Z.add;
  f_opp := Z.opp;
  f_eqb := Z.eqb;
  f_ltb := Z.ltb;
  f_sum := sumZ id;
}.

Lemma Zltb_opp x y : (- x <? - y) = (y <? x).
Proof. lia. Qed.

#[global] Instance Z_order : FloatOrder Z := {
  f_num := fun _ => True;
  f_num_opp := fun _ H => H;
  f_ltb_order := Zltb_order;
  f_eqb_spec := fun x y _ _ => Zeqb_ltb x y;
  f_ltb_opp := Zltb_opp;
}.

#[global] Instance Z_exact : ExactSum Z.
Proof. split; cbn; intros; try done; unfold sumZ, id in *; cbn; lia. Qed.
