(* ===== verification/FloatSum.v ===== *)
(** * Adding non-negative doubles

    Scores, costs and weights are non-negative doubles, and adding them rounds.
    What survives the rounding is proved here from the bits of [SFadd]: every
    double is a whole number of units of 2^-1074 ([units]), the sum of two
    doubles is the nearest representable number of units ([round_units], ties
    to even, [overflow] for infinity), and so the addition of non-negative
    doubles is monotone.  [RoundedSum] is that interface: the packer's knapsack
    is proved optimal for its own running sums against it. *)

From Stdlib Require Import SpecFloat.
From S2P Require Import Prelude Num.

(** ** Sums that round *)

(** What remains of arithmetic when sums round: on the operands [f_pos] admits,
    addition is closed and monotone. *)
Class RoundedSum (F : Type) {ops : FloatOps F} {ord : FloatOrder F} := {
  f_pos : F -> Prop;
  f_pos_num : forall x, f_pos x -> f_num x;
  f_pos_zero : f_pos f_zero;
  f_pos_add : forall x y, f_pos x -> f_pos y -> f_pos (f_add x y);
  f_add_mono : forall x y z, f_pos x -> f_pos y -> f_pos z ->
    f_ltb y x = false -> f_ltb (f_add y z) (f_add x z) = false;
}.

(** The sum a loop accumulates: one rounded addition per item, in order. *)
Definition f_running {F : Type} `{FloatOps F} (l : list F) : F := foldl f_add f_zero l.

Lemma f_running_snoc {F : Type} `{FloatOps F} (l : list F) (x : F) :
  f_running (l ++ [x]) = f_add (f_running l) x.
Proof. unfold f_running. by rewrite foldl_app. Qed.

(** ** Shifting with a guard and a sticky bit *)

(** [rec] is [n] shifted right by [k], with what was shifted out in its two
    bits: the guard bit says at least half, the sticky bit says neither nothing
    nor exactly half. *)
Definition shifted (n k : Z) (rec : shr_record) : Prop :=
  exists r, n = shr_m rec * 2 ^ k + r /\ 0 <= r < 2 ^ k /\ 0 <= shr_m rec
    /\ (if shr_r rec then 2 ^ k <= 2 * r else 2 * r < 2 ^ k)
    /\ (if shr_s rec then r <> 0 /\ 2 * r <> 2 ^ k else r = 0 \/ 2 * r = 2 ^ k).

Lemma shifted_0 n : 0 <= n -> shifted n 0 {| shr_m := n; shr_r := false; shr_s := false |}.
Proof. intros Hn. exists 0. cbn. lia. Qed.

Lemma shr_1_halves m r s : 0 <= m ->
  shr_1 {| shr_m := m; shr_r := r; shr_s := s |}
  = {| shr_m := m / 2; shr_r := Z.odd m; shr_s := (r || s)%bool |}.
Proof.
  intros Hm. destruct m as [|[p|p|]|p]; try lia; cbn [shr_1]; try reflexivity; f_equal.
  - change (Zpos p~1) with (2 * Zpos p + 1). apply (Z.div_unique_pos _ _ _ 1); lia.
  - change (Zpos p~0) with (2 * Zpos p). apply (Z.div_unique_pos _ _ _ 0); lia.
Qed.

Lemma shifted_S n k rec : 0 <= k -> shifted n k rec -> shifted n (k + 1) (shr_1 rec).
Proof.
  intros Hk (r & Hn & Hr & Hm & Hg & Hs). destruct rec as [m g s]. cbn [shr_m shr_r shr_s] in *.
  rewrite shr_1_halves by done. unfold shifted. cbn [shr_m shr_r shr_s].
  assert (2 ^ (k + 1) = 2 * 2 ^ k) as -> by (rewrite Z.add_1_r, Z.pow_succ_r; lia).
  pose proof (Z.div_mod m 2 ltac:(lia)) as Hdm. rewrite Zmod_odd in Hdm.
  pose proof (Z.div_pos m 2 Hm ltac:(lia)).
  exists (r + (if Z.odd m then 2 ^ k else 0)).
  destruct (Z.odd m); destruct g, s; cbn [orb]; split_and!; try nia.
Qed.

Lemma shifted_iter n p : forall k rec, 0 <= k -> shifted n k rec ->
  shifted n (k + Zpos p) (SpecFloat.iter_pos shr_1 p rec).
Proof.
  induction p as [p IH|p IH|]; intros k rec Hk Hs; cbn [SpecFloat.iter_pos].
  - replace (k + Zpos p~1) with (k + 1 + Zpos p + Zpos p) by lia.
    apply IH, IH, shifted_S; try done; lia.
  - replace (k + Zpos p~0) with (k + Zpos p + Zpos p) by lia. apply IH, IH; done || lia.
  - by apply shifted_S.
Qed.

(** ** Rounding to nearest, ties to even *)

Definition rne (n k : Z) : Z :=
  let q := n / 2 ^ k in
  let r := n mod 2 ^ k in
  if 2 * r <? 2 ^ k then q
  else if 2 ^ k <? 2 * r then q + 1
  else if Z.even q then q else q + 1.

Lemma shifted_rounds n k rec : 0 <= k -> shifted n k rec ->
  round_nearest_even (shr_m rec) (loc_of_shr_record rec) = rne n k.
Proof.
  intros Hk (r & Hn & Hr & Hm & Hg & Hs). destruct rec as [m g s]. cbn [shr_m shr_r shr_s] in *.
  assert (n / 2 ^ k = m) as Hq by (symmetry; apply (Z.div_unique_pos _ _ _ r); lia).
  assert (n mod 2 ^ k = r) as Hr' by (symmetry; apply (Z.mod_unique_pos _ _ m); lia).
  unfold rne. rewrite Hq, Hr'.
  destruct g, s; cbn [loc_of_shr_record round_nearest_even];
    destruct (Z.ltb_spec (2 * r) (2 ^ k)); destruct (Z.ltb_spec (2 ^ k) (2 * r)); try lia; done.
Qed.

Lemma rne_bounds n k : 0 <= k -> 0 <= n -> n / 2 ^ k <= rne n k <= n / 2 ^ k + 1.
Proof. intros Hk Hn. unfold rne. repeat case_match; lia. Qed.

Lemma rne_mono n n' k : 0 <= k -> n <= n' -> rne n k <= rne n' k.
Proof.
  intros Hk Hle. pose proof (Z.pow_pos_nonneg 2 k ltac:(lia) Hk) as Hp.
  pose proof (Z.div_le_mono n n' _ Hp Hle) as Hd.
  pose proof (Z.div_mod n (2 ^ k) ltac:(lia)). pose proof (Z.div_mod n' (2 ^ k) ltac:(lia)).
  pose proof (Z.mod_pos_bound n (2 ^ k) Hp). pose proof (Z.mod_pos_bound n' (2 ^ k) Hp).
  unfold rne. destruct (Z.eq_dec (n / 2 ^ k) (n' / 2 ^ k)) as [E|E].
  - rewrite <- E in *.
    destruct (Z.ltb_spec (2 * (n mod 2 ^ k)) (2 ^ k)); destruct (Z.ltb_spec (2 * (n' mod 2 ^ k)) (2 ^ k));
      destruct (Z.ltb_spec (2 ^ k) (2 * (n mod 2 ^ k))); destruct (Z.ltb_spec (2 ^ k) (2 * (n' mod 2 ^ k)));
      destruct (Z.even (n / 2 ^ k)); lia.
  - repeat case_match; lia.
Qed.

Lemma rne_exact m k : 0 <= k -> rne (m * 2 ^ k) k = m.
Proof.
  intros Hk. pose proof (Z.pow_pos_nonneg 2 k ltac:(lia) Hk). unfold rne.
  rewrite Z.div_mul, Z.mod_mul by lia. by replace (2 * 0 <? 2 ^ k) with true by lia.
Qed.

Lemma rne_scale n k j : 0 <= k -> 0 <= j -> rne (n * 2 ^ j) (k + j) = rne n k.
Proof.
  intros Hk Hj. pose proof (Z.pow_pos_nonneg 2 k ltac:(lia) Hk).
  pose proof (Z.pow_pos_nonneg 2 j ltac:(lia) Hj). unfold rne.
  rewrite Z.pow_add_r, Z.div_mul_cancel_r, Z.mul_mod_distr_r by lia.
  assert ((2 * (n mod 2 ^ k * 2 ^ j) <? 2 ^ k * 2 ^ j) = (2 * (n mod 2 ^ k) <? 2 ^ k)) as ->
    by (destruct (Z.ltb_spec (2 * (n mod 2 ^ k)) (2 ^ k)); [apply Z.ltb_lt|apply Z.ltb_ge]; nia).
  assert ((2 ^ k * 2 ^ j <? 2 * (n mod 2 ^ k * 2 ^ j)) = (2 ^ k <? 2 * (n mod 2 ^ k))) as ->
    by (destruct (Z.ltb_spec (2 ^ k) (2 * (n mod 2 ^ k))); [apply Z.ltb_lt|apply Z.ltb_ge]; nia).
  done.
Qed.

(** ** The unit grid *)

(** The number of low bits a 53-bit significand cannot hold. *)
Definition excess (n : Z) : Z := Z.max 0 (Z.log2 n + 1 - 53).

(** The nearest number of units a double can hold, the exponent unbounded. *)
Definition round_units (n : Z) : Z := rne n (excess n) * 2 ^ excess n.

(** Infinity, in units: the first power of two beyond the largest double. *)
Definition overflow : Z := 2 ^ 2098.

(** The value of a non-negative double in units of 2^-1074. *)
Definition units (x : binary64) : Z :=
  match x with
  | S754_finite _ m e => Zpos m * 2 ^ (e + 1074)
  | S754_infinity _ => overflow
  | _ => 0
  end.

(** A double as the hardware stores it: not NaN, not negative, and with a
    significand in its canonical range. *)
Definition double_ok (x : binary64) : Prop := nonneg_num x /\ valid_binary 53 1024 x = true.

#[global] Instance nonneg_num_dec x : Decision (nonneg_num x).
Proof. destruct x; cbn; apply _. Defined.

#[global] Instance double_ok_dec x : Decision (double_ok x).
Proof. unfold double_ok. apply _. Defined.

Lemma pow2_pos k : 0 <= k -> 0 < 2 ^ k.
Proof. intros. apply Z.pow_pos_nonneg; lia. Qed.

Lemma pow2_le a b : 0 <= a -> a <= b -> 2 ^ a <= 2 ^ b.
Proof. intros. apply Z.pow_le_mono_r; lia. Qed.

Lemma digits2_log2 p : Zpos (digits2_pos p) = Z.log2 (Zpos p) + 1.
Proof.
  induction p as [p IH|p IH|]; cbn [digits2_pos]; [| |done]; rewrite Pos2Z.inj_succ, IH.
  - change (Zpos p~1) with (2 * Zpos p + 1). rewrite Z.log2_succ_double; lia.
  - change (Zpos p~0) with (2 * Zpos p). rewrite Z.log2_double; lia.
Qed.

Lemma log2_bounds p : 2 ^ Z.log2 (Zpos p) <= Zpos p < 2 ^ (Z.log2 (Zpos p) + 1).
Proof. rewrite Z.add_1_r. apply Z.log2_spec. lia. Qed.

Lemma log2_shift p k : 0 <= k -> Z.log2 (Zpos p * 2 ^ k) = Z.log2 (Zpos p) + k.
Proof. intros. rewrite Z.log2_mul_pow2; lia. Qed.

(** Canonical significands: 53 bits, or fewer at the smallest exponent. *)
Lemma bounded_spec m e : bounded 53 1024 m e = true <->
  (Z.log2 (Zpos m) = 52 /\ -1074 <= e \/ Z.log2 (Zpos m) < 52 /\ e = -1074) /\ e <= 971.
Proof.
  unfold bounded, canonical_mantissa, fexp, emin. rewrite digits2_log2.
  rewrite andb_true_iff, Z.eqb_eq, Z.leb_le. lia.
Qed.

Lemma rne_large n : 0 < n -> 0 < excess n -> 2 ^ 52 <= rne n (excess n) <= 2 ^ 53.
Proof.
  intros Hn Hk. destruct n as [|p|p]; try lia. unfold excess in *.
  set (k := Z.max 0 _) in *. pose proof (log2_bounds p) as Hb.
  replace (Z.log2 (Zpos p)) with (52 + k) in Hb by lia.
  pose proof (pow2_pos k ltac:(lia)) as Hp.
  rewrite Z.pow_add_r in Hb by lia. replace (52 + k + 1) with (53 + k) in Hb by lia.
  rewrite Z.pow_add_r in Hb by lia.
  pose proof (Z.div_le_lower_bound (Zpos p) (2 ^ k) (2 ^ 52) Hp ltac:(lia)).
  pose proof (Z.div_lt_upper_bound (Zpos p) (2 ^ k) (2 ^ 53) Hp ltac:(lia)).
  pose proof (rne_bounds (Zpos p) k ltac:(lia) ltac:(lia)). lia.
Qed.

Lemma rne_small n : 0 < n -> excess n = 0 -> rne n (excess n) = n /\ n < 2 ^ 53.
Proof.
  intros Hn Hk. split.
  - rewrite Hk. rewrite <- (Z.mul_1_r n) at 1. by apply (rne_exact n 0).
  - apply Z.log2_lt_pow2; [done|]. unfold excess in Hk. lia.
Qed.

(** Rounding stays between the powers of two around its argument. *)
Lemma round_units_bounds n : 0 < n -> 2 ^ Z.log2 n <= round_units n <= 2 ^ (Z.log2 n + 1).
Proof.
  intros Hn. unfold round_units. pose proof (Z.log2_nonneg n).
  destruct (Z.eq_dec (excess n) 0) as [E|E].
  - destruct (rne_small n Hn E) as [-> _]. rewrite E, Z.mul_1_r.
    pose proof (Z.log2_spec n Hn). rewrite Z.add_1_r. lia.
  - assert (0 < excess n) by (unfold excess in *; lia).
    pose proof (rne_large n Hn ltac:(lia)) as Hr. pose proof (pow2_pos (excess n) ltac:(lia)).
    replace (Z.log2 n) with (52 + excess n) by (unfold excess in *; lia).
    replace (52 + excess n + 1) with (53 + excess n) by lia.
    rewrite !Z.pow_add_r by lia. nia.
Qed.

Lemma round_units_0 : round_units 0 = 0.
Proof. reflexivity. Qed.

Lemma round_units_mono n n' : 0 <= n -> n <= n' -> round_units n <= round_units n'.
Proof.
  intros Hn Hle. destruct (Z.eq_dec n 0) as [->|].
  { rewrite round_units_0. destruct (Z.eq_dec n' 0) as [->|]; [done|].
    pose proof (round_units_bounds n' ltac:(lia)).
    pose proof (pow2_pos (Z.log2 n') (Z.log2_nonneg _)). lia. }
  pose proof (Z.log2_le_mono n n' Hle) as Hl.
  destruct (Z.eq_dec (Z.log2 n) (Z.log2 n')) as [E|E].
  - unfold round_units. assert (excess n = excess n') as -> by (unfold excess; lia).
    assert (0 <= excess n') by (unfold excess; lia).
    apply Z.mul_le_mono_nonneg_r; [pose proof (pow2_pos (excess n')); lia|by apply rne_mono].
  - pose proof (round_units_bounds n ltac:(lia)). pose proof (round_units_bounds n' ltac:(lia)).
    pose proof (pow2_le (Z.log2 n + 1) (Z.log2 n') ltac:(pose proof (Z.log2_nonneg n); lia) ltac:(lia)).
    lia.
Qed.

(** ** Doubles on the grid *)

Lemma units_finite m e : bounded 53 1024 m e = true ->
  0 < Zpos m * 2 ^ (e + 1074) < overflow.
Proof.
  intros Hb%bounded_spec. pose proof (log2_bounds m) as Hm.
  pose proof (pow2_pos (e + 1074) ltac:(lia)).
  pose proof (pow2_le (Z.log2 (Zpos m) + 1) 53 ltac:(pose proof (Z.log2_nonneg (Zpos m)); lia) ltac:(lia)).
  pose proof (pow2_le (e + 1074) 2045 ltac:(lia) ltac:(lia)).
  assert (overflow = 2 ^ 53 * 2 ^ 2045) as -> by (unfold overflow; rewrite <- Z.pow_add_r; lia).
  split; [lia|]. apply Z.lt_le_trans with (2 ^ 53 * 2 ^ (e + 1074)).
  - apply Z.mul_lt_mono_pos_r; lia.
  - apply Z.mul_le_mono_nonneg_l; lia.
Qed.

Lemma units_nonneg x : 0 <= units x.
Proof.
  destruct x as [| | |s m e]; cbn [units]; try done.
  destruct (Z.le_gt_cases 0 (e + 1074)); [pose proof (pow2_pos (e + 1074)); lia|].
  rewrite Z.pow_neg_r; lia.
Qed.

(** A double is already rounded. *)
Lemma round_units_exact m e : bounded 53 1024 m e = true ->
  round_units (Zpos m * 2 ^ (e + 1074)) = Zpos m * 2 ^ (e + 1074).
Proof.
  intros Hb%bounded_spec. unfold round_units, excess. rewrite log2_shift by lia.
  replace (Z.max 0 _) with (e + 1074) by lia. by rewrite rne_exact by lia.
Qed.

Lemma units_lt_exponent m1 e1 m2 e2 : bounded 53 1024 m1 e1 = true -> bounded 53 1024 m2 e2 = true ->
  e1 < e2 -> Zpos m1 * 2 ^ (e1 + 1074) < Zpos m2 * 2 ^ (e2 + 1074).
Proof.
  intros H1%bounded_spec H2%bounded_spec Hlt.
  pose proof (log2_bounds m1) as B1. pose proof (log2_bounds m2) as B2.
  replace (Z.log2 (Zpos m2)) with 52 in B2 by lia.
  pose proof (pow2_le (Z.log2 (Zpos m1) + 1) 53 ltac:(pose proof (Z.log2_nonneg (Zpos m1)); lia) ltac:(lia)).
  pose proof (pow2_pos (e1 + 1074) ltac:(lia)). pose proof (pow2_pos (e2 + 1074) ltac:(lia)).
  pose proof (pow2_le (e1 + 1074 + 1) (e2 + 1074) ltac:(lia) ltac:(lia)) as Hp.
  rewrite Z.pow_add_r in Hp by lia.
  apply Z.lt_le_trans with (2 ^ 53 * 2 ^ (e1 + 1074)); [apply Z.mul_lt_mono_pos_r; lia|].
  apply Z.le_trans with (2 ^ 52 * 2 ^ (e2 + 1074)); [lia|]. apply Z.mul_le_mono_nonneg_r; lia.
Qed.

(** Comparing doubles compares their units. *)
Lemma ltb_units x y : double_ok x -> double_ok y -> SFltb x y = (units x <? units y).
Proof.
  intros [Hx Vx] [Hy Vy]. unfold SFltb.
  destruct x as [sx|sx| |sx m1 e1], y as [sy|sy| |sy m2 e2]; cbn [nonneg_num valid_binary] in *;
    subst; try done; cbn [SFcompare units].
  5: { pose proof (pow2_pos (e1 + 1074) ltac:(apply bounded_spec in Vx; lia)).
    destruct (Z.compare_spec e1 e2) as [<-|Hlt|Hgt].
    + change (Pos.compare_cont Eq m1 m2) with (Pos.compare m1 m2).
      destruct (Pos.compare_spec m1 m2) as [Hm|Hm|Hm];
        destruct (Z.ltb_spec (Zpos m1 * 2 ^ (e1 + 1074)) (Zpos m2 * 2 ^ (e1 + 1074))); try done; nia.
    + pose proof (units_lt_exponent m1 e1 m2 e2 Vx Vy Hlt).
      by destruct (Z.ltb_spec (Zpos m1 * 2 ^ (e1 + 1074)) (Zpos m2 * 2 ^ (e2 + 1074))); try lia.
    + pose proof (units_lt_exponent m2 e2 m1 e1 Vy Vx Hgt).
      by destruct (Z.ltb_spec (Zpos m1 * 2 ^ (e1 + 1074)) (Zpos m2 * 2 ^ (e2 + 1074))); try lia. }
  all: repeat match goal with H : bounded _ _ ?m ?e = true |- _ =>
      pose proof (units_finite m e H); clear H end;
    match goal with |- _ = (?a <? ?b) => by destruct (Z.ltb_spec a b); try lia end.
Qed.

Lemma SFleb_ltb x y : x <> S754_nan -> y <> S754_nan -> SFleb x y = negb (SFltb y x).
Proof.
  intros Hx Hy. unfold SFleb, SFltb. rewrite !SFcompare_rank by done.
  destruct (rank_ltb (b64_rank x) (b64_rank y)) eqn:E1, (rank_ltb (b64_rank y) (b64_rank x)) eqn:E2; try done.
  pose proof (po_asym (PyOrder := rank_ltb_order) _ _ I I E1). congruence.
Qed.

(** ** Normalization rounds *)

Lemma iter_xO m d : Zpos (Pos.iter xO m d) = Zpos m * 2 ^ Zpos d.
Proof.
  induction d as [|d IH] using Pos.peano_ind; [cbn; lia|].
  rewrite Pos.iter_succ, Pos2Z.inj_succ, Z.pow_succ_r by lia.
  rewrite Pos2Z.inj_xO, IH. ring.
Qed.

Lemma shl_align_units m e e' : -1074 <= e -> -1074 <= e' ->
  let '(mz, ez) := shl_align m e e' in
  ez = Z.min e e' /\ Zpos mz * 2 ^ (ez + 1074) = Zpos m * 2 ^ (e + 1074).
Proof.
  intros He He'. unfold shl_align. destruct (e' - e) as [|d|d] eqn:E; [lia|lia|].
  split; [lia|].
  rewrite iter_xO, <- Z.mul_assoc, <- Z.pow_add_r by lia. do 2 f_equal. lia.
Qed.

(** Shifting out the bits beyond the format and rounding. *)
Lemma shr_fexp_rounds m e : -1074 <= e -> 0 < m -> e <= fexp 53 1024 (Zdigits2 m + e) ->
  let '(rec, e') := shr_fexp 53 1024 m e loc_Exact in
  e' + 1074 = excess (m * 2 ^ (e + 1074))
  /\ round_nearest_even (shr_m rec) (loc_of_shr_record rec)
     = rne (m * 2 ^ (e + 1074)) (e' + 1074).
Proof.
  intros He Hm Hle. destruct m as [|p|p]; try lia.
  unfold shr_fexp. cbn [shr_record_of_loc].
  cbn [Zdigits2] in *. rewrite digits2_log2 in *. unfold fexp, emin in *.
  set (e' := Z.max _ _) in *.
  assert (e' + 1074 = excess (Zpos p * 2 ^ (e + 1074))) as Hx.
  { unfold excess. rewrite log2_shift by lia. lia. }
  assert (shifted (Zpos p) (e' - e) (shr {| shr_m := Zpos p; shr_r := false; shr_s := false |} e (e' - e)).1
          /\ (shr {| shr_m := Zpos p; shr_r := false; shr_s := false |} e (e' - e)).2 = e') as [Hs He'].
  { destruct (e' - e) as [|d|d] eqn:E; cbn [shr fst snd]; [|split; [|lia]|lia].
    - split; [apply shifted_0; lia|lia].
    - apply (shifted_iter (Zpos p) d 0); [lia|apply shifted_0; lia]. }
  destruct (shr _ _ _) as [rec e'']. cbn [fst snd] in *. subst e''. split; [done|].
  rewrite (shifted_rounds (Zpos p) (e' - e)) by (done || lia).
  replace (e' + 1074) with ((e' - e) + (e + 1074)) by lia. symmetry. apply rne_scale; lia.
Qed.

Definition canonical (m : positive) (e : Z) : Prop :=
  Z.log2 (Zpos m) = 52 /\ -1074 <= e \/ Z.log2 (Zpos m) < 52 /\ e = -1074.

(** After rounding, one more shift brings a carried significand back. *)
Lemma renormalize p e : Zpos p <= 2 ^ 53 -> -1074 <= e -> (e = -1074 \/ 2 ^ 52 <= Zpos p) ->
  let '(rec, e') := shr_fexp 53 1024 (Zpos p) e loc_Exact in
  exists m, shr_m rec = Zpos m /\ canonical m e'
    /\ Zpos m * 2 ^ (e' + 1074) = Zpos p * 2 ^ (e + 1074).
Proof.
  intros Hp He Hn. unfold shr_fexp, fexp, emin. cbn [shr_record_of_loc Zdigits2].
  rewrite digits2_log2. destruct (Z.eq_dec (Zpos p) (2 ^ 53)) as [E|E].
  - rewrite E. change (Z.log2 (2 ^ 53)) with 53. replace (_ - e) with 1 by lia.
    cbn [shr SpecFloat.iter_pos]. exists (2 ^ 52)%positive. split; [reflexivity|]. split; [left; split; [reflexivity|lia]|].
    replace (e + 1 + 1074) with (1 + (e + 1074)) by lia.
    rewrite Z.pow_add_r, Z.mul_assoc by lia. reflexivity.
  - assert (Z.log2 (Zpos p) < 53) by (apply Z.log2_lt_pow2; lia).
    assert (e = -1074 \/ Z.log2 (Zpos p) = 52) as Hc.
    { destruct Hn as [->|Hn]; [by left|right]. pose proof (Z.log2_le_pow2 (Zpos p) 52 ltac:(lia)). lia. }
    destruct (_ - e) as [|d|d] eqn:Ed; [|lia|]; exists p; unfold canonical; cbn [shr shr_m]; (split; [done|]); (split; [lia|done]).
Qed.

Lemma canonical_units m e : canonical m e ->
  if e <=? 971 then bounded 53 1024 m e = true else overflow <= Zpos m * 2 ^ (e + 1074).
Proof.
  intros Hc. destruct (Z.leb_spec e 971) as [He|He]; [by apply bounded_spec|].
  destruct Hc as [[Hm Hl]|[_ ->]]; [|lia]. pose proof (log2_bounds m) as [Hb _]. rewrite Hm in Hb.
  pose proof (pow2_le 2046 (e + 1074) ltac:(lia) ltac:(lia)).
  assert (overflow = 2 ^ 52 * 2 ^ 2046) as -> by (unfold overflow; rewrite <- Z.pow_add_r; lia).
  apply Z.mul_le_mono_nonneg; lia.
Qed.

Lemma binary_normalize_units m e : 0 < m -> -1074 <= e ->
  let x := binary_normalize 53 1024 m e false in
  double_ok x /\ units x = Z.min (round_units (m * 2 ^ (e + 1074))) overflow.
Proof.
  intros Hm He. destruct m as [|p|p]; try lia. cbn [binary_normalize]. unfold binary_round.
  rewrite digits2_log2.
  pose proof (shl_align_units p e (fexp 53 1024 (Z.log2 (Zpos p) + 1 + e)) He
                ltac:(unfold fexp, emin; lia)) as Hal.
  destruct (shl_align _ _ _) as [mz ez]. destruct Hal as [Hez Hn]. rewrite <- Hn.
  assert (-1074 <= ez) by (unfold fexp, emin in *; lia).
  assert (Z.log2 (Zpos mz) + (ez + 1074) = Z.log2 (Zpos p) + (e + 1074)) as Hlog
    by (rewrite <- !log2_shift, Hn by lia; done).
  set (n := Zpos mz * 2 ^ (ez + 1074)) in *.
  assert (0 < n) as Hpos by (pose proof (pow2_pos (ez + 1074) ltac:(lia)); lia).
  pose proof (shr_fexp_rounds (Zpos mz) ez ltac:(lia) ltac:(lia)
                ltac:(cbn [Zdigits2]; rewrite digits2_log2; unfold fexp, emin in *; lia)) as Hr.
  unfold binary_round_aux. destruct (shr_fexp _ _ _ _ _) as [rec e']. destruct Hr as [Hx ->].
  fold n in Hx |- *. rewrite Hx. assert (0 <= excess n) by (unfold excess; lia).
  assert (exists r, rne n (excess n) = Zpos r /\ Zpos r <= 2 ^ 53 /\ (e' = -1074 \/ 2 ^ 52 <= Zpos r))
    as (r & Er & Hr1 & Hr2).
  { destruct (Z.eq_dec (excess n) 0) as [E|E].
    - destruct (rne_small n Hpos E) as [-> Hlt]. destruct n as [|r|r]; try lia. exists r. lia.
    - pose proof (rne_large n Hpos ltac:(lia)). destruct (rne n (excess n)) as [|r|r]; try lia.
      exists r. lia. }
  unfold round_units. rewrite Er. pose proof (renormalize r e' Hr1 ltac:(lia) Hr2) as Hn2.
  destruct (shr_fexp _ _ _ _ _) as [rec2 e2]. destruct Hn2 as (m2 & -> & Hc & Hu).
  rewrite <- Hx, <- Hu. pose proof (canonical_units m2 e2 Hc) as Hcu.
  change (1024 - 53) with 971. destruct (e2 <=? 971).
  - split; [done|]. pose proof (units_finite m2 e2 Hcu). cbn [units]. lia.
  - split; [done|]. cbn [units]. lia.
Qed.

(** ** Addition *)

(** Infinity absorbs. *)
Lemma round_units_overflow n : overflow <= n -> Z.min (round_units n) overflow = overflow.
Proof.
  intros Hn. pose proof (round_units_bounds overflow (pow2_pos 2098 ltac:(lia))) as [Hb _].
  unfold overflow in Hb at 1. rewrite Z.log2_pow2 in Hb by lia. fold overflow in Hb.
  pose proof (pow2_pos 2098 ltac:(lia)) as Hp. fold overflow in Hp.
  pose proof (round_units_mono overflow n ltac:(lia) Hn). lia.
Qed.

(** Adding doubles adds their units and rounds. *)
Lemma add_units x y : double_ok x -> double_ok y ->
  double_ok (b64_add x y) /\ units (b64_add x y) = Z.min (round_units (units x + units y)) overflow.
Proof.
  intros [Hx Vx] [Hy Vy]. pose proof (units_nonneg x) as Px. pose proof (units_nonneg y) as Py.
  pose proof (units_nonneg (S754_infinity false)) as Pi. unfold b64_add.
  destruct x as [sx|sx| |sx m1 e1], y as [sy|sy| |sy m2 e2]; cbn [nonneg_num valid_binary] in *;
    subst; try contradiction; cbn [SFadd cond_Zopp].
  2,4-6,8: split; [done|]; rewrite round_units_overflow; [done|cbn [units] in *; lia].
  - split; [by destruct sx, sy|]. cbn [units]. rewrite Z.add_0_r, round_units_0.
    pose proof (pow2_pos 2098 ltac:(lia)) as Hp. fold overflow in Hp.
    rewrite Z.min_l by lia. by destruct sx, sy.
  - pose proof (units_finite m2 e2 Vy). split; [done|]. cbn [units].
    rewrite Z.add_0_l, round_units_exact by done. lia.
  - pose proof (units_finite m1 e1 Vx). split; [done|]. cbn [units].
    rewrite Z.add_0_r, round_units_exact by done. lia.
  - pose proof Vx as Bx%bounded_spec. pose proof Vy as By%bounded_spec.
    pose proof (shl_align_units m1 e1 (Z.min e1 e2) ltac:(lia) ltac:(lia)) as H1.
    pose proof (shl_align_units m2 e2 (Z.min e1 e2) ltac:(lia) ltac:(lia)) as H2.
    destruct (shl_align m1 _ _) as [a1 z1], (shl_align m2 _ _) as [a2 z2]. cbn [fst units].
    destruct H1 as [-> H1], H2 as [-> H2].
    pose proof (binary_normalize_units (Zpos a1 + Zpos a2) (Z.min e1 e2) ltac:(lia) ltac:(lia)) as Hb.
    rewrite Z.mul_add_distr_r in Hb. rewrite <- H1, <- H2.
    replace (Z.min e1 (Z.min e1 e2)) with (Z.min e1 e2) by lia.
    replace (Z.min e2 (Z.min e1 e2)) with (Z.min e1 e2) by lia. exact Hb.
Qed.

Lemma b64_add_mono x y z : double_ok x -> double_ok y -> double_ok z ->
  SFltb y x = false -> SFltb (b64_add y z) (b64_add x z) = false.
Proof.
  intros Hx Hy Hz Hle. destruct (add_units x z Hx Hz) as [Hxz Ex], (add_units y z Hy Hz) as [Hyz Ey].
  rewrite ltb_units in Hle |- * by done. rewrite Ex, Ey. apply Z.ltb_ge in Hle. apply Z.ltb_ge.
  pose proof (units_nonneg x). pose proof (units_nonneg z).
  pose proof (round_units_mono (units x + units z) (units y + units z) ltac:(lia) ltac:(lia)). lia.
Qed.

(** The program's doubles: sums of non-negative scores round, and round
    monotonically. *)
#[global] Instance binary64_rounded : RoundedSum binary64 := {
  f_pos := double_ok;
  f_pos_num := fun x H => nonneg_num_num x (proj1 H);
  f_pos_zero := conj I eq_refl;
  f_pos_add := fun x y Hx Hy => proj1 (add_units x y Hx Hy);
  f_add_mono := b64_add_mono;
}.
