(* ===== verification/Packer.v ===== *)
(** * Context packer: [services/context/app/packer.py], [estimate.py], [scoring.py]

    Selects a subset of scored memories under a token budget: a bucketed 0/1
    knapsack followed by an exact-token repair, or a greedy pass with a
    consecutive-skip limit when the table would be too large.

    Scores are [float]s behind [FloatOps]; every definition runs on doubles
    and on exact integers alike.  Python's index lists are [list nat]; a read
    [xs[i]] is [xs !!! i], and the theorems show the indices are in range. *)

From Stdlib Require Import SpecFloat.
From S2P Require Import Prelude Num.

(** ** Token estimates ([estimate.py], [capability_catalog.py]) *)

Record TokenizerFamilyPolicy := {
  estimate_kind : string;
  safety_buffer_fraction : binary64;
}.

Definition ESTIMATE_CHARS_DIV_4 : string := "chars_div_4".
Definition ESTIMATE_RUNES_DIV_3_5 : string := "runes_div_3_5".

Inductive PackError :=
| ValueError
| RuntimeError.

#[global] Instance PackError_eq_dec : EqDecision PackError.
Proof. solve_decision. Defined.

(** [len(text)] *)
Definition str_len (s : string) : Z := Z.of_nat (String.length s).

(** [math.ceil(len(text) / 4)]; the division by 4 is exact in a double. *)
Definition estimate_chars_div_4 (text : string) : Z :=
  if str_len text =? 0 then 0 else (str_len text + 3) / 4.

Definition estimate_runes_div_3_5 (text : string) : Z :=
  if str_len text =? 0 then 0 else (str_len text * 2 + 6) / 7.

Definition estimate_tokens (text : string) (policy : TokenizerFamilyPolicy)
    : result PackError (Z * string) :=
  let kind := estimate_kind policy in
  if String.eqb kind ESTIMATE_RUNES_DIV_3_5 then Ok (estimate_runes_div_3_5 text, kind)
  else if String.eqb kind ESTIMATE_CHARS_DIV_4 then Ok (estimate_chars_div_4 text, kind)
  else Raise ValueError.

(** ** Data *)

Record MemoryHit (F : Type) := {
  hit_memory_id : string;
  hit_org_id : string;
  hit_agent_id : string;
  hit_content : string;
  hit_category : string;
  hit_confidence : F;
  hit_similarity : F;
  hit_rank : Z;
  hit_source : string;
  hit_conflict_groups : list string;
}.
Arguments hit_memory_id {F}. Arguments hit_org_id {F}. Arguments hit_agent_id {F}.
Arguments hit_content {F}. Arguments hit_category {F}. Arguments hit_confidence {F}.
Arguments hit_similarity {F}. Arguments hit_rank {F}. Arguments hit_source {F}.
Arguments hit_conflict_groups {F}.

Record ScoredMemory (F : Type) := {
  hit : MemoryHit F;
  composite_score : F;
}.
Arguments hit {F}. Arguments composite_score {F}.

#[global] Instance MemoryHit_inhabited {F : Type} `{FloatOps F} : Inhabited (MemoryHit F) :=
  populate {| hit_memory_id := ""; hit_org_id := ""; hit_agent_id := ""; hit_content := "";
              hit_category := ""; hit_confidence := f_zero; hit_similarity := f_zero;
              hit_rank := 0; hit_source := ""; hit_conflict_groups := [] |}.
#[global] Instance ScoredMemory_inhabited {F : Type} `{FloatOps F} : Inhabited (ScoredMemory F) :=
  populate {| hit := inhabitant; composite_score := f_zero |}.

Definition memory_id {F : Type} (m : ScoredMemory F) : string := hit_memory_id (hit m).
Definition content {F : Type} (m : ScoredMemory F) : string := hit_content (hit m).
Definition category {F : Type} (m : ScoredMemory F) : string := hit_category (hit m).

Inductive PackPath := path_dp | path_greedy.

Record PackedMemories (F : Type) := {
  memories : list (ScoredMemory F);
  total_tokens : Z;
  total_score : F;
  skipped_count : Z;
  was_budget_reached : bool;
  path : PackPath;
  candidates_evaluated : Z;
  budget_excluded_ids : gset string;
  token_estimates : gmap string Z;
}.
Arguments memories {F}. Arguments total_tokens {F}. Arguments total_score {F}.
Arguments skipped_count {F}. Arguments was_budget_reached {F}. Arguments path {F}.
Arguments candidates_evaluated {F}. Arguments budget_excluded_ids {F}.
Arguments token_estimates {F}.

Record ContextPacker := {
  pk_policy : TokenizerFamilyPolicy;
  pk_bucket_size : Z;
  pk_dp_cell_ceiling : Z;
  pk_max_consecutive_skips : Z;
}.

Definition BUCKET_SIZE : Z := 16.
Definition DEFAULT_DP_CELL_CEILING : Z := 70 * 6251.
Definition DEFAULT_MAX_CONSECUTIVE_SKIPS : Z := 5.

(** [ContextPacker.__init__] *)
Definition context_packer (policy : TokenizerFamilyPolicy)
    (bucket_size dp_cell_ceiling max_consecutive_skips : Z) : result PackError ContextPacker :=
  if bucket_size <? 1 then Raise ValueError
  else if dp_cell_ceiling <? 1 then Raise ValueError
  else if max_consecutive_skips <? 0 then Raise ValueError
  else Ok {| pk_policy := policy;
             pk_bucket_size := bucket_size;
             pk_dp_cell_ceiling := dp_cell_ceiling;
             pk_max_consecutive_skips := max_consecutive_skips |}.

Definition bucket_weight (token_count bucket_size : Z) : Z :=
  if token_count <=? 0 then 0 else Z.max 1 (token_count / bucket_size).

(** [d[k] = v] for every pair in order: the last write of a key stays. *)
Definition dict_of {V : Type} (kvs : list (string * V)) : gmap string V :=
  foldl (fun d kv => <[kv.1 := kv.2]> d) ∅ kvs.

(** [min(range(len(l)), key=...)]: the first index of a least element. *)
Fixpoint argmin_from {A : Type} (ltb : A -> A -> bool) (best : A) (ibest i : nat) (l : list A)
    : nat :=
  match l with
  | [] => ibest
  | x :: l => if ltb x best then argmin_from ltb x i (S i) l
              else argmin_from ltb best ibest (S i) l
  end.

Definition argmin {A : Type} (ltb : A -> A -> bool) (l : list A) : nat :=
  match l with
  | [] => 0%nat
  | x :: l => argmin_from ltb x 0 1 l
  end.

(** Lexicographic [<] of tuples of strings. *)
Fixpoint strs_ltb (s t : list string) : bool :=
  match s, t with
  | _, [] => false
  | [], _ :: _ => true
  | a :: s, b :: t => if String.eqb a b then strs_ltb s t else str_ltb a b
  end.

Section Packer.
  Context {F : Type} `{FloatOps F}.
  Implicit Types (candidates scored : list (ScoredMemory F)) (tokens : list Z)
    (values : list F) (chosen selected : list nat).

(** The sort key [(-item.composite_score, item.memory_id)]. *)
Definition score_key (m : ScoredMemory F) : F * string :=
  (f_opp (composite_score m), memory_id m).

Definition score_ltb : ScoredMemory F -> ScoredMemory F -> bool :=
  key_ltb score_key (pair_ltb f_eqb f_ltb str_ltb).

Definition sum_at (tokens : list Z) (chosen : list nat) : Z :=
  sumZ (fun i => tokens !!! i) chosen.

Definition value_at (values : list F) (chosen : list nat) : F :=
  f_sum ((fun i => values !!! i) <$> chosen).

(** ** The knapsack table ([_dp_row], [_dp_backtrack], [_dp_select]) *)

Definition dp_row (prev : list F) (weight : Z) (value : F) (buckets : Z)
    : list F * list bool :=
  let keep_row := replicate (Z.to_nat (buckets + 1)) false in
  if weight =? 0 then
    let better := (fun p => f_ltb p (f_add p value)) <$> prev in
    (zip_with (fun (b : bool) p => if b then f_add p value else p) better prev, better)
  else if buckets <? weight then (prev, keep_row)
  else
    let w := Z.to_nat weight in
    let take_ := (fun p => f_add p value) <$> take (Z.to_nat (buckets + 1 - weight)) prev in
    let skip_ := drop w prev in
    let better := zip_with (fun t s => f_ltb s t) take_ skip_ in
    (take w prev ++ zip_with (fun (b : bool) (ts : F * F) => if b then ts.1 else ts.2)
                             better (zip take_ skip_),
     take w keep_row ++ better).

(** The loop of [_dp_select]: the last row and the keep rows in item order. *)
Fixpoint dp_rows (prev : list F) (items : list (Z * F)) (buckets : Z) : list F * list (list bool) :=
  match items with
  | [] => (prev, [])
  | (w, v) :: items =>
      let '(curr, keep_row) := dp_row prev w v buckets in
      let '(last, rows) := dp_rows curr items buckets in
      (last, keep_row :: rows)
  end.

(** [for i in range(len(weights), 0, -1)]: [n] counts down, row [keep[i]] is
    [rows[i-1]] because [keep[0]] is never read. *)
Fixpoint dp_backtrack_loop (rows : list (list bool)) (weights : list Z) (n : nat)
    (capacity : Z) (selected : list nat) : list nat :=
  match n with
  | O => selected
  | S i =>
      if negb ((rows !!! i) !!! Z.to_nat capacity)
      then dp_backtrack_loop rows weights i capacity selected
      else dp_backtrack_loop rows weights i (capacity - weights !!! i) (selected ++ [i])
  end.

Definition dp_backtrack (rows : list (list bool)) (weights : list Z) (buckets : Z) : list nat :=
  rev (dp_backtrack_loop rows weights (length weights) buckets []).

Definition dp_select (weights : list Z) (values : list F) (buckets : Z) : list nat :=
  let '(_, rows) :=
    dp_rows (replicate (Z.to_nat (buckets + 1)) f_zero) (zip weights values) buckets in
  dp_backtrack rows weights buckets.

(** ** Exact-budget repair *)

(** [while chosen and sum(...) > token_budget: chosen.pop(drop_at)]; each
    iteration removes one element, so [length chosen] iterations suffice. *)
Fixpoint drop_loop (candidates : list (ScoredMemory F)) (tokens : list Z) (values : list F)
    (token_budget : Z) (fuel : nat) (chosen : list nat) (dropped : bool) : list nat * bool :=
  match fuel with
  | O => (chosen, dropped)
  | S fuel =>
      if (negb (bool_decide (chosen = [])) && (token_budget <? sum_at tokens chosen))%bool then
        let drop_at :=
          argmin (key_ltb (fun i => (values !!! i, memory_id (candidates !!! i)))
                          (pair_ltb f_eqb f_ltb str_ltb)) chosen in
        drop_loop candidates tokens values token_budget fuel (delete drop_at chosen) true
      else (chosen, dropped)
  end.

Definition drop_over_budget candidates tokens values (token_budget : Z) selected
    : list nat * bool :=
  drop_loop candidates tokens values token_budget (length selected) selected false.

(** The order in which [_greedy_refill] visits the candidates. *)
Definition refill_order candidates values : list nat :=
  py_sorted (key_ltb (fun i => (f_opp (values !!! i), memory_id (candidates !!! i)))
                     (pair_ltb f_eqb f_ltb str_ltb))
            (seq 0 (length candidates)).

Fixpoint refill_loop (tokens : list Z) (token_budget : Z) (exclude : list nat)
    (order : list nat) (out : list nat) (used : Z) : list nat :=
  match order with
  | [] => out
  | idx :: order =>
      if (bool_decide (idx ∈ out) || bool_decide (idx ∈ exclude))%bool then
        refill_loop tokens token_budget exclude order out used
      else
        let cost := tokens !!! idx in
        if cost <=? token_budget - used
        then refill_loop tokens token_budget exclude order (out ++ [idx]) (used + cost)
        else refill_loop tokens token_budget exclude order out used
  end.

Definition greedy_refill candidates tokens values (token_budget : Z) (exclude : list nat) chosen
    : list nat :=
  refill_loop tokens token_budget exclude (refill_order candidates values) chosen
    (sum_at tokens chosen).

Definition should_local_improve candidates tokens (token_budget : Z) chosen : bool :=
  match chosen with
  | [] => false
  | i0 :: rest =>
      let used := sum_at tokens chosen in
      let residual := token_budget - used in
      let max_chosen := foldl (fun m i => Z.max m (tokens !!! i)) (tokens !!! i0) rest in
      let room := residual + max_chosen in
      if room <=? 0 then false
      else existsb (fun i => (negb (bool_decide (i ∈ chosen))
                              && (0 <? tokens !!! i) && (tokens !!! i <=? room))%bool)
                   (seq 0 (length candidates))
  end.

(** [tuple(sorted(candidates[i].memory_id for i in selected))] *)
Definition selection_tie_key selected candidates : list string :=
  py_sorted str_ltb ((fun i => memory_id (candidates !!! i)) <$> selected).

Definition is_better_selection (trial : list nat) (trial_value : F) (best : list nat)
    (best_value : F) candidates : bool :=
  if f_ltb best_value trial_value then true
  else if f_ltb trial_value best_value then false
  else strs_ltb (selection_tie_key trial candidates) (selection_tie_key best candidates).

(** One iteration of [for drop_idx in best]: the loop runs over the list that
    [best] named on entry, the trial is built from the current [best]. *)
Definition improve_step candidates tokens values (token_budget : Z)
    (st : list nat * F) (drop_idx : nat) : list nat * F :=
  let '(best, best_value) := st in
  let trial := List.filter (fun i => negb (Nat.eqb i drop_idx)) best in
  let trial := greedy_refill candidates tokens values token_budget [drop_idx] trial in
  let trial_value := value_at values trial in
  if is_better_selection trial trial_value best best_value candidates
  then (trial, trial_value) else st.

Definition local_improve_selection candidates tokens values (token_budget : Z) chosen : list nat :=
  (foldl (improve_step candidates tokens values token_budget)
         (chosen, value_at values chosen) chosen).1.

Definition repair_exact_budget candidates tokens values (token_budget : Z) selected : list nat :=
  let '(chosen, dropped) := drop_over_budget candidates tokens values token_budget selected in
  let chosen := greedy_refill candidates tokens values token_budget [] chosen in
  if (dropped || should_local_improve candidates tokens token_budget chosen)%bool
  then local_improve_selection candidates tokens values token_budget chosen
  else chosen.

(** ** The greedy pass *)

Definition greedy_order candidates : list nat :=
  py_sorted (key_ltb (fun i => score_key (candidates !!! i)) (pair_ltb f_eqb f_ltb str_ltb))
            (seq 0 (length candidates)).

Fixpoint greedy_loop (max_skips : Z) (tokens : list Z) (token_budget : Z) (order : list nat)
    (selected examined : list nat) (used skips : Z) : list nat * list nat :=
  match order with
  | [] => (selected, examined)
  | idx :: order =>
      let examined := examined ++ [idx] in
      let cost := tokens !!! idx in
      if cost <=? token_budget - used then
        greedy_loop max_skips tokens token_budget order (selected ++ [idx]) examined
                    (used + cost) 0
      else if max_skips <? skips + 1 then (selected, examined)
      else greedy_loop max_skips tokens token_budget order selected examined used (skips + 1)
  end.

Definition greedy_select (p : ContextPacker) candidates tokens (token_budget : Z)
    : list nat * list nat :=
  greedy_loop (pk_max_consecutive_skips p) tokens token_budget (greedy_order candidates) [] [] 0 0.

(** ** Entry points *)

Definition tokens_of (p : ContextPacker) (item : ScoredMemory F) : result PackError Z :=
  let* r := estimate_tokens (content item) (pk_policy p) in Ok r.1.

Definition empty_pack (path_ : PackPath) (skipped evaluated : Z) (reached : bool)
    (excluded : gset string) (estimates : gmap string Z) : PackedMemories F :=
  {| memories := []; total_tokens := 0; total_score := f_zero; skipped_count := skipped;
     was_budget_reached := reached; path := path_; candidates_evaluated := evaluated;
     budget_excluded_ids := excluded; token_estimates := estimates |}.

Definition pack_empty_or_zero_budget (p : ContextPacker) candidates (token_budget : Z)
    (path_ : PackPath) : result PackError (option (PackedMemories F)) :=
  let n := Z.of_nat (length candidates) in
  if n =? 0 then Ok (Some (empty_pack path_ 0 0 false ∅ ∅))
  else if 0 <? token_budget then Ok None
  else
    let* ts := rmap (tokens_of p) candidates in
    Ok (Some (empty_pack path_ n n true
                (list_to_set (memory_id <$> candidates))
                (dict_of (zip (memory_id <$> candidates) ts)))).

Definition select_under_budget (p : ContextPacker) candidates tokens (weights : list Z) values
    (buckets token_budget : Z) : list nat * PackPath * option (list nat) :=
  let cells := Z.of_nat (length candidates) * (buckets + 1) in
  if pk_dp_cell_ceiling p <? cells then
    let '(selected, examined) := greedy_select p candidates tokens token_budget in
    (selected, path_greedy, Some examined)
  else
    let selected := dp_select weights values buckets in
    (repair_exact_budget candidates tokens values token_budget selected, path_dp, None).

(** [_budget_excluded_ids] *)
Definition budget_excluded candidates selected (examined : option (list nat)) : gset string :=
  let indices := match examined with
                 | None => seq 0 (length candidates)
                 | Some e => e
                 end in
  list_to_set ((fun i => memory_id (candidates !!! i))
               <$> List.filter (fun i => negb (bool_decide (i ∈ selected))) indices).

(** [_finalize]; [raw] are the estimates recorded for metrics. *)
Definition finalize candidates selected tokens (token_budget : Z) (path_ : PackPath)
    (examined : option (list nat)) (raw : list Z) : result PackError (PackedMemories F) :=
  let packed := py_sorted score_ltb ((fun i => candidates !!! i) <$> selected) in
  let total := sum_at tokens selected in
  let skipped := Z.of_nat (length candidates) - Z.of_nat (length packed) in
  if token_budget <? total then Raise RuntimeError
  else Ok {| memories := packed;
             total_tokens := total;
             total_score := f_sum (composite_score <$> packed);
             skipped_count := skipped;
             was_budget_reached := 0 <? skipped;
             path := path_;
             candidates_evaluated := Z.of_nat (length candidates);
             budget_excluded_ids := budget_excluded candidates selected examined;
             token_estimates := dict_of (zip (memory_id <$> candidates) raw) |}.

(** The charged cost of an item: [cost_by_id] where it has the id. *)
Definition pack_cost (cost_by_id : option (gmap string Z)) (item : ScoredMemory F) (raw : Z) : Z :=
  match cost_by_id with
  | Some costs => match costs !! memory_id item with Some c => c | None => raw end
  | None => raw
  end.

Definition pack (p : ContextPacker) scored (token_budget : Z)
    (cost_by_id : option (gmap string Z)) : result PackError (PackedMemories F) :=
  let candidates := py_sorted score_ltb scored in
  let* early := pack_empty_or_zero_budget p candidates token_budget path_dp in
  match early with
  | Some packed => Ok packed
  | None =>
      let* raw_tokens := rmap (tokens_of p) candidates in
      let pack_tokens := zip_with (pack_cost cost_by_id) candidates raw_tokens in
      let buckets := Z.max 1 (token_budget / pk_bucket_size p) in
      let weights := (fun t => bucket_weight t (pk_bucket_size p)) <$> pack_tokens in
      let values := composite_score <$> candidates in
      let '(selected, path_, examined) :=
        select_under_budget p candidates pack_tokens weights values buckets token_budget in
      finalize candidates selected pack_tokens token_budget path_ examined raw_tokens
  end.

Definition pack_greedy_only (p : ContextPacker) scored (token_budget : Z)
    : result PackError (PackedMemories F) :=
  let* early := pack_empty_or_zero_budget p scored token_budget path_greedy in
  match early with
  | Some packed => Ok packed
  | None =>
      let* tokens := rmap (tokens_of p) scored in
      let '(selected, examined) := greedy_select p scored tokens token_budget in
      finalize scored selected tokens token_budget path_greedy (Some examined) tokens
  end.

End Packer.

(** ** Selections

    What every stage hands to the next: distinct candidate indices whose
    charged tokens fit the budget. *)

Record valid_selection (n : nat) (tokens : list Z) (budget : Z) (sel : list nat) : Prop := {
  vs_nodup : NoDup sel;
  vs_range : Forall (fun i => (i < n)%nat) sel;
  vs_budget : sum_at tokens sel <= budget;
}.

Lemma argmin_from_lt {A : Type} (ltb : A -> A -> bool) (l : list A) :
  forall best ibest i, (ibest < i)%nat -> (argmin_from ltb best ibest i l < i + length l)%nat.
Proof.
  induction l as [|x l IH]; intros best ibest i Hi; cbn; [lia|].
  destruct (ltb x best).
  - specialize (IH x i (S i)). lia.
  - specialize (IH best ibest (S i)). lia.
Qed.

Lemma argmin_lt {A : Type} (ltb : A -> A -> bool) (l : list A) :
  l <> [] -> (argmin ltb l < length l)%nat.
Proof.
  destruct l as [|x l]; [done|]. intros _.
  pose proof (argmin_from_lt ltb l x 0 1). cbn. lia.
Qed.

Lemma elem_of_seq0 i n : i ∈ seq 0 n <-> (i < n)%nat.
Proof. rewrite elem_of_seq. lia. Qed.

Lemma Forall_seq0 (n : nat) : Forall (fun i => (i < n)%nat) (seq 0 n).
Proof. apply Forall_forall. intros i Hi. by apply elem_of_seq0. Qed.

Lemma sum_at_app tokens l k : sum_at tokens (l ++ k) = sum_at tokens l + sum_at tokens k.
Proof. apply sumZ_app. Qed.

Lemma sum_at_perm tokens l k : l ≡ₚ k -> sum_at tokens l = sum_at tokens k.
Proof. apply sumZ_perm. Qed.

Lemma lookup_total_nonneg (tokens : list Z) :
  Forall (Z.le 0) tokens -> forall i, 0 <= tokens !!! i.
Proof.
  intros Ht i. rewrite list_lookup_total_alt.
  destruct (tokens !! i) as [t|] eqn:E; cbn; [|lia].
  by eapply Forall_lookup_1.
Qed.

Section Selections.
Context {F : Type} `{FloatOps F}.
Implicit Types (candidates scored : list (ScoredMemory F)) (tokens : list Z) (values : list F).

Lemma refill_loop_spec tokens budget exclude n order : forall out used,
  Forall (fun i => (i < n)%nat) order ->
  valid_selection n tokens budget out -> used = sum_at tokens out ->
  valid_selection n tokens budget (refill_loop tokens budget exclude order out used)
  /\ exists ext, refill_loop tokens budget exclude order out used = out ++ ext
                 /\ forall i, i ∈ ext -> i ∉ exclude.
Proof.
  induction order as [|idx order IH]; intros out used Hord Hv ->; cbn.
  { split; [done|]. exists []. split; [by rewrite app_nil_r|]. intros i []%elem_of_nil. }
  apply Forall_cons in Hord as [Hidx Hord].
  repeat case_bool_decide; cbn; [by apply IH..|].
  destruct (tokens !!! idx <=? budget - sum_at tokens out) eqn:E; [|by apply IH].
  bools. destruct Hv as [Hnd Hr Hb].
  destruct (IH (out ++ [idx]) (sum_at tokens out + tokens !!! idx)) as (Hv' & ext & Hext & Hex).
  - done.
  - split.
    + apply NoDup_app. split; [done|]. split; [|apply NoDup_singleton].
      intros x Hx ->%list_elem_of_singleton. done.
    + apply Forall_app. auto.
    + rewrite sum_at_app. cbn. lia.
  - rewrite sum_at_app. cbn. lia.
  - split; [done|]. exists (idx :: ext). rewrite Hext, <- app_assoc. split; [done|].
    intros i [->|Hi]%elem_of_cons; [done|by apply Hex].
Qed.

Lemma refill_order_range candidates values :
  Forall (fun i => (i < length candidates)%nat) (refill_order candidates values).
Proof. unfold refill_order. rewrite py_sorted_perm. apply Forall_seq0. Qed.

Lemma greedy_refill_spec candidates tokens values budget exclude chosen :
  valid_selection (length candidates) tokens budget chosen ->
  valid_selection (length candidates) tokens budget
    (greedy_refill candidates tokens values budget exclude chosen)
  /\ exists ext, greedy_refill candidates tokens values budget exclude chosen = chosen ++ ext
                 /\ forall i, i ∈ ext -> i ∉ exclude.
Proof. intros. apply refill_loop_spec; auto using refill_order_range. Qed.

Lemma drop_loop_spec candidates tokens values budget n :
  forall fuel chosen dropped, 0 <= budget -> (length chosen <= fuel)%nat ->
  NoDup chosen -> Forall (fun i => (i < n)%nat) chosen ->
  let r := drop_loop candidates tokens values budget fuel chosen dropped in
  valid_selection n tokens budget r.1
  /\ (r.2 = dropped /\ r.1 = chosen \/ r.2 = true /\ budget < sum_at tokens chosen).
Proof.
  induction fuel as [|fuel IH]; intros chosen dropped Hb Hlen Hnd Hr; cbn.
  { destruct chosen; [|cbn in Hlen; lia]. split; [split; [constructor|done|done]|auto]. }
  case_bool_decide as Hc; cbn.
  { subst. split; [split; [constructor|done|done]|auto]. }
  destruct (budget <? sum_at tokens chosen) eqn:E; cbn; bools; [|split; [by split|auto]].
  match goal with |- context [argmin ?f chosen] =>
    pose proof (argmin_lt f chosen Hc) as Hlt; set (d := argmin f chosen) in * end.
  destruct (lookup_lt_is_Some_2 chosen d Hlt) as [x Hx].
  pose proof (delete_Permutation _ _ _ Hx) as Hp.
  rewrite Hp in Hnd, Hr. apply NoDup_cons in Hnd as [_ Hnd]. apply Forall_cons in Hr as [_ Hr].
  destruct (IH (delete d chosen) true) as [Hv Hd]; [done| |done..|].
  - apply Permutation_length in Hp. cbn in Hp. lia.
  - split; [done|]. right. split; [|done]. by destruct Hd as [[-> _]|[-> _]].
Qed.

Lemma filter_neq_valid n tokens budget sel d :
  Forall (Z.le 0) tokens -> valid_selection n tokens budget sel ->
  valid_selection n tokens budget (List.filter (fun i => negb (Nat.eqb i d)) sel).
Proof.
  intros Ht [Hnd Hr Hb]. split.
  - apply NoDup_ListNoDup, List.NoDup_filter. by apply NoDup_ListNoDup.
  - rewrite Forall_forall in Hr |- *. intros i Hi%list_elem_of_In%List.filter_In.
    apply Hr, list_elem_of_In, Hi.
  - etrans; [|exact Hb]. apply sumZ_filter_le. intros. by apply lookup_total_nonneg.
Qed.

Lemma improve_step_valid candidates tokens values budget st d :
  Forall (Z.le 0) tokens ->
  valid_selection (length candidates) tokens budget st.1 ->
  valid_selection (length candidates) tokens budget
    (improve_step candidates tokens values budget st d).1.
Proof.
  intros Ht Hv. unfold improve_step. destruct st as [best bv]; cbn in *.
  case_if; cbn; [|done]. by apply greedy_refill_spec, filter_neq_valid.
Qed.

Lemma improve_fold_valid candidates tokens values budget l : forall st,
  Forall (Z.le 0) tokens ->
  valid_selection (length candidates) tokens budget st.1 ->
  valid_selection (length candidates) tokens budget
    (foldl (improve_step candidates tokens values budget) st l).1.
Proof.
  induction l as [|d l IH]; intros st Ht Hst; cbn; [done|].
  apply IH; [done|]. by apply improve_step_valid.
Qed.

Lemma local_improve_valid candidates tokens values budget chosen :
  Forall (Z.le 0) tokens ->
  valid_selection (length candidates) tokens budget chosen ->
  valid_selection (length candidates) tokens budget
    (local_improve_selection candidates tokens values budget chosen).
Proof. intros. by apply improve_fold_valid. Qed.

Lemma repair_valid candidates tokens values budget selected :
  0 <= budget -> Forall (Z.le 0) tokens -> NoDup selected ->
  Forall (fun i => (i < length candidates)%nat) selected ->
  valid_selection (length candidates) tokens budget
    (repair_exact_budget candidates tokens values budget selected).
Proof.
  intros Hb Ht Hnd Hr. unfold repair_exact_budget, drop_over_budget.
  pose proof (drop_loop_spec candidates tokens values budget (length candidates)
                (length selected) selected false Hb (le_n _) Hnd Hr) as [Hv _].
  destruct (drop_loop _ _ _ _ _ _ _) as [chosen dropped]; cbn in *.
  pose proof (proj1 (greedy_refill_spec candidates tokens values budget [] chosen Hv)) as Hv'.
  case_if; [by apply local_improve_valid|done].
Qed.

Lemma backtrack_loop_spec rows weights n : forall capacity sel,
  NoDup sel -> Forall (fun i => (n <= i)%nat) sel ->
  exists ext, dp_backtrack_loop rows weights n capacity sel = sel ++ ext
    /\ Forall (fun i => (i < n)%nat) ext /\ NoDup (sel ++ ext).
Proof.
  induction n as [|i IH]; intros capacity sel Hnd Hge; cbn.
  { exists []. rewrite app_nil_r. auto. }
  destruct (negb _).
  - destruct (IH capacity sel) as (ext & He & Hr & Hn); [done| |].
    { eapply Forall_impl; [exact Hge|]. cbn. lia. }
    exists ext. split_and!; [done| |done]. eapply Forall_impl; [exact Hr|]. cbn. lia.
  - destruct (IH (capacity - weights !!! i) (sel ++ [i])) as (ext & He & Hr & Hn).
    { apply NoDup_app. split_and!; [done| |apply NoDup_singleton].
      intros x Hx ->%list_elem_of_singleton. rewrite Forall_forall in Hge.
      specialize (Hge _ Hx). cbn in Hge. lia. }
    { apply Forall_app. split; [|by constructor].
      eapply Forall_impl; [exact Hge|]. cbn. lia. }
    exists (i :: ext). rewrite <- app_assoc in He, Hn. split_and!; [done| |done].
    constructor; [lia|]. eapply Forall_impl; [exact Hr|]. cbn. lia.
Qed.

Lemma dp_select_range weights values buckets :
  NoDup (dp_select weights values buckets)
  /\ Forall (fun i => (i < length weights)%nat) (dp_select weights values buckets).
Proof.
  unfold dp_select, dp_backtrack. destruct (dp_rows _ _ _) as [last rows].
  destruct (backtrack_loop_spec rows weights (length weights) buckets [])
    as (ext & -> & Hr & Hn); [constructor|constructor|]. cbn in *.
  rewrite <- Permutation_rev. done.
Qed.

Lemma greedy_loop_spec max_skips tokens budget n order :
  forall sel exd used skips,
  NoDup order -> Forall (fun i => (i < n)%nat) order ->
  (forall i, i ∈ order -> i ∉ sel) ->
  valid_selection n tokens budget sel -> used = sum_at tokens sel ->
  valid_selection n tokens budget
    (greedy_loop max_skips tokens budget order sel exd used skips).1.
Proof.
  induction order as [|idx order IH]; intros sel exd used skips Hnd Hr Hdis Hv ->; cbn; [done|].
  apply NoDup_cons in Hnd as [Hni Hnd]. apply Forall_cons in Hr as [Hi Hr].
  destruct (tokens !!! idx <=? budget - sum_at tokens sel) eqn:E; bools.
  - apply IH; [done|done| | |].
    + intros i Hi' [Hs| ->%list_elem_of_singleton]%elem_of_app; [|done].
      eapply Hdis; [|exact Hs]. by right.
    + destruct Hv as [Hn1 Hr1 Hb1]. split.
      * apply NoDup_app. split_and!; [done| |apply NoDup_singleton].
        intros x Hx ->%list_elem_of_singleton. eapply Hdis; [left|done].
      * apply Forall_app. auto.
      * rewrite sum_at_app. cbn. lia.
    + rewrite sum_at_app. cbn. lia.
  - case_if; [done|]. apply IH; [done|done| |done|done].
    intros i Hi'. apply Hdis. by right.
Qed.

Lemma greedy_select_valid p candidates tokens budget :
  0 <= budget ->
  valid_selection (length candidates) tokens budget
    (greedy_select p candidates tokens budget).1.
Proof.
  intros Hb. apply greedy_loop_spec; unfold greedy_order.
  - rewrite py_sorted_perm. apply NoDup_seq.
  - rewrite py_sorted_perm. apply Forall_seq0.
  - intros i _. set_solver.
  - split; [constructor|constructor|done].
  - done.
Qed.
End Selections.

(** ** The packer's contract *)

Definition supported_policy (policy : TokenizerFamilyPolicy) : bool :=
  (String.eqb (estimate_kind policy) ESTIMATE_RUNES_DIV_3_5
   || String.eqb (estimate_kind policy) ESTIMATE_CHARS_DIV_4)%bool.

(** The token estimate of an item under a supported policy. *)
Definition raw_estimate {F : Type} (p : ContextPacker) (m : ScoredMemory F) : Z :=
  match tokens_of p m with Ok t => t | Raise _ => 0 end.

(** What packing charges for an item. *)
Definition charge {F : Type} (p : ContextPacker) (costs : option (gmap string Z))
    (m : ScoredMemory F) : Z := pack_cost costs m (raw_estimate p m).

Definition costs_nonneg (costs : option (gmap string Z)) : Prop :=
  match costs with Some m => map_Forall (fun _ c => 0 <= c) m | None => True end.

Lemma dict_of_snoc {V : Type} (kvs : list (string * V)) kv : dict_of (kvs ++ [kv]) = <[kv.1 := kv.2]> (dict_of kvs).
Proof. unfold dict_of. by rewrite foldl_app. Qed.

(** A dict built key by key holds what was written, and nothing else. *)
Lemma dict_of_Some {V : Type} (kvs : list (string * V)) k v : dict_of kvs !! k = Some v -> (k, v) ∈ kvs.
Proof.
  induction kvs as [|[k' v'] kvs IH] using rev_ind; [done|]. rewrite dict_of_snoc. cbn.
  intros [[<- <-]|[_ H]]%lookup_insert_Some; [set_solver|]. apply IH in H. set_solver.
Qed.

Lemma dict_of_is_Some {V : Type} (kvs : list (string * V)) k : k ∈ kvs.*1 -> is_Some (dict_of kvs !! k).
Proof.
  induction kvs as [|[k' v'] kvs IH] using rev_ind; [set_solver|]. rewrite dict_of_snoc, fmap_app. cbn.
  intros [H|H]%elem_of_app; destruct (decide (k' = k)) as [->|Hk].
  - rewrite lookup_insert_eq. eauto.
  - rewrite lookup_insert_ne by done. by apply IH.
  - rewrite lookup_insert_eq. eauto.
  - set_solver.
Qed.

Lemma str_len_nonneg s : 0 <= str_len s.
Proof. unfold str_len. lia. Qed.

Lemma fmap_lookup_seq {A : Type} `{Inhabited A} (l : list A) :
  (fun i => l !!! i) <$> seq 0 (length l) = l.
Proof.
  apply list_eq. intros i. rewrite list_lookup_fmap.
  destruct (decide (i < length l)%nat) as [Hi|Hi].
  - rewrite lookup_seq_lt by lia. cbn. symmetry. by apply list_lookup_lookup_total_lt.
  - rewrite lookup_seq_ge by lia. cbn. symmetry. apply lookup_ge_None. lia.
Qed.

(** Distinct in-range indices pick a sub-multiset of the list. *)
Lemma select_submultiset {A : Type} `{Inhabited A} (l : list A) (sel : list nat) :
  NoDup sel -> Forall (fun i => (i < length l)%nat) sel ->
  exists rest, ((fun i => l !!! i) <$> sel) ++ rest ≡ₚ l.
Proof.
  intros Hnd Hr.
  assert (sel ⊆+ seq 0 (length l)) as [k Hk]%submseteq_Permutation.
  { apply NoDup_submseteq; [done|]. intros i Hi. apply elem_of_seq0.
    rewrite Forall_forall in Hr. by apply Hr. }
  exists ((fun i => l !!! i) <$> k).
  rewrite <- fmap_app, <- Hk. by rewrite fmap_lookup_seq.
Qed.

Section Contract.
Context {F : Type} `{FloatOps F}.
Implicit Types (candidates scored : list (ScoredMemory F)) (p : ContextPacker)
  (costs : option (gmap string Z)).

Lemma tokens_of_supported p (m : ScoredMemory F) :
  supported_policy (pk_policy p) = true -> tokens_of p m = Ok (raw_estimate p m).
Proof.
  unfold raw_estimate, tokens_of, estimate_tokens, supported_policy.
  destruct (String.eqb _ _), (String.eqb _ _); done.
Qed.

Lemma raw_estimate_nonneg p (m : ScoredMemory F) : 0 <= raw_estimate p m.
Proof.
  unfold raw_estimate, tokens_of, estimate_tokens, estimate_chars_div_4, estimate_runes_div_3_5.
  pose proof (str_len_nonneg (content m)).
  repeat case_if; cbn; try lia; apply Z.div_pos; lia.
Qed.

Lemma charge_nonneg p costs (m : ScoredMemory F) : costs_nonneg costs -> 0 <= charge p costs m.
Proof.
  unfold charge, pack_cost. pose proof (raw_estimate_nonneg p m).
  destruct costs as [cs|]; [|done]. intros Hc.
  destruct (cs !! memory_id m) as [c|] eqn:E; [|done]. exact (Hc _ _ E).
Qed.

Lemma rmap_tokens p (l : list (ScoredMemory F)) :
  supported_policy (pk_policy p) = true ->
  rmap (tokens_of p) l = Ok (raw_estimate p <$> l).
Proof.
  intros Hs. induction l as [|m l IH]; cbn; [done|].
  by rewrite tokens_of_supported, IH by done.
Qed.

Lemma pack_tokens_charge p costs (l : list (ScoredMemory F)) :
  zip_with (pack_cost costs) l (raw_estimate p <$> l) = charge p costs <$> l.
Proof. induction l as [|m l IH]; cbn; [done|]. by rewrite IH. Qed.

(** The body of [pack] once the budget and the candidate list are usable. *)
Definition pack_selected p candidates (token_budget : Z) costs
    : list nat * PackPath * option (list nat) :=
  let pack_tokens := charge p costs <$> candidates in
  select_under_budget p candidates pack_tokens
    ((fun t => bucket_weight t (pk_bucket_size p)) <$> pack_tokens)
    (composite_score <$> candidates)
    (Z.max 1 (token_budget / pk_bucket_size p)) token_budget.

Lemma pack_unfold p scored token_budget costs :
  supported_policy (pk_policy p) = true -> 0 < token_budget -> scored <> [] ->
  let candidates := py_sorted score_ltb scored in
  let s := pack_selected p candidates token_budget costs in
  pack p scored token_budget costs
  = finalize candidates s.1.1 (charge p costs <$> candidates) token_budget s.1.2 s.2
      (raw_estimate p <$> candidates).
Proof.
  intros Hs Hb Hne candidates s. unfold pack, pack_empty_or_zero_budget.
  fold candidates. assert (length candidates = length scored) as Hlen by apply py_sorted_length.
  assert ((Z.of_nat (length candidates) =? 0) = false) as ->.
  { apply Z.eqb_neq. destruct scored; [done|]. cbn in *. lia. }
  assert ((0 <? token_budget) = true) as -> by lia. cbn.
  rewrite rmap_tokens by done. cbn. rewrite pack_tokens_charge.
  unfold s, pack_selected. by destruct (select_under_budget _ _ _ _ _ _ _) as [[sel pa] ex].
Qed.

Lemma pack_selected_valid p candidates token_budget costs :
  costs_nonneg costs -> 0 < token_budget ->
  valid_selection (length candidates) (charge p costs <$> candidates) token_budget
    (pack_selected p candidates token_budget costs).1.1.
Proof.
  intros Hc Hb. unfold pack_selected, select_under_budget.
  assert (Forall (Z.le 0) (charge p costs <$> candidates)) as Ht.
  { apply Forall_fmap, Forall_forall. intros m _. by apply charge_nonneg. }
  case_if.
  - pose proof (greedy_select_valid p candidates (charge p costs <$> candidates) token_budget)
      as Hv. destruct (greedy_select _ _ _ _). cbn in *. apply Hv. lia.
  - cbn. match goal with |- context [dp_select ?w ?v ?b] =>
      destruct (dp_select_range w v b) as [Hnd Hr] end.
    apply repair_valid; [lia|done|done|]. by rewrite !length_fmap in Hr.
Qed.

Lemma sum_at_charge p costs candidates sel :
  Forall (fun i => (i < length candidates)%nat) sel ->
  sum_at (charge p costs <$> candidates) sel
  = sumZ (charge p costs) ((fun i => candidates !!! i) <$> sel).
Proof.
  intros Hr. rewrite sumZ_fmap. apply sumZ_ext. intros i Hi.
  rewrite Forall_forall in Hr. specialize (Hr i Hi). cbn in Hr.
  by apply list_lookup_total_fmap.
Qed.

Lemma finalize_spec p costs candidates sel token_budget path_ examined raw :
  valid_selection (length candidates) (charge p costs <$> candidates) token_budget sel ->
  exists r rest,
    finalize candidates sel (charge p costs <$> candidates) token_budget path_ examined raw = Ok r
    /\ memories r ++ rest ≡ₚ candidates
    /\ memories r = py_sorted score_ltb ((fun i => candidates !!! i) <$> sel)
    /\ total_tokens r = sumZ (charge p costs) (memories r)
    /\ total_tokens r <= token_budget
    /\ skipped_count r = Z.of_nat (length rest)
    /\ candidates_evaluated r = Z.of_nat (length candidates)
    /\ was_budget_reached r = (0 <? skipped_count r).
Proof.
  intros [Hnd Hr Hb]. unfold finalize.
  destruct (token_budget <? _) eqn:E; bools; [lia|].
  destruct (select_submultiset candidates sel Hnd Hr) as [rest Hrest].
  eexists _, rest. split; [reflexivity|]. cbn.
  pose proof (py_sorted_perm score_ltb ((fun i => candidates !!! i) <$> sel)) as Hp.
  split_and!; [by rewrite Hp|done| |done| |done|done].
  - rewrite sum_at_charge by done. by symmetry; apply sumZ_perm.
  - pose proof (Permutation_length Hrest) as Hl. rewrite length_app, length_fmap in Hl.
    rewrite py_sorted_length, length_fmap. lia.
Qed.
End Contract.

Section Maximality.
Context {F : Type} `{FloatOps F}.
Implicit Types (candidates scored : list (ScoredMemory F)) (tokens : list Z) (values : list F).

(** Nothing left out by [sel] fits in what remains of the budget. *)
Definition maximal_selection (n : nat) (tokens : list Z) (budget : Z) (sel : list nat) : Prop :=
  forall i, (i < n)%nat -> i ∉ sel -> budget - sum_at tokens sel < tokens !!! i.

Lemma refill_loop_mono tokens budget exclude order : forall out used i,
  i ∈ out -> i ∈ refill_loop tokens budget exclude order out used.
Proof.
  induction order as [|j order IH]; intros out used i Hin; cbn; [done|].
  repeat case_if; apply IH; rewrite ?elem_of_app; auto.
Qed.

Lemma refill_loop_maximal tokens budget exclude order :
  Forall (Z.le 0) tokens -> forall out used, used = sum_at tokens out ->
  sum_at tokens out <= sum_at tokens (refill_loop tokens budget exclude order out used)
  /\ forall i, i ∈ order -> i ∉ exclude ->
       i ∉ refill_loop tokens budget exclude order out used ->
       budget - sum_at tokens (refill_loop tokens budget exclude order out used) < tokens !!! i.
Proof.
  intros Ht. induction order as [|idx order IH]; intros out used ->; cbn [refill_loop].
  { split; [done|]. intros i []%elem_of_nil. }
  pose proof (lookup_total_nonneg tokens Ht idx) as Hpos.
  case_bool_decide as Hin; cbn [orb].
  { destruct (IH out _ eq_refl) as [Hle Hmax]. split; [done|].
    intros i [->|Hi]%elem_of_cons Hex Hr; [|by apply Hmax].
    destruct Hr. by apply refill_loop_mono. }
  case_bool_decide as Hexc.
  { destruct (IH out _ eq_refl) as [Hle Hmax]. split; [done|].
    intros i [->|Hi]%elem_of_cons Hex Hr; [done|by apply Hmax]. }
  destruct (tokens !!! idx <=? budget - sum_at tokens out) eqn:E; bools.
  - assert (sum_at tokens out + tokens !!! idx = sum_at tokens (out ++ [idx])) as Hs
      by (rewrite sum_at_app; cbn; lia).
    destruct (IH (out ++ [idx]) _ Hs) as [Hle Hmax]. split; [lia|].
    intros i [->|Hi]%elem_of_cons Hex Hr; [|by apply Hmax].
    destruct Hr. apply refill_loop_mono. rewrite elem_of_app. right. by left.
  - destruct (IH out _ eq_refl) as [Hle Hmax]. split; [done|].
    intros i [->|Hi]%elem_of_cons Hex Hr; [lia|by apply Hmax].
Qed.

Lemma greedy_refill_maximal candidates tokens values budget exclude chosen :
  Forall (Z.le 0) tokens ->
  sum_at tokens chosen
    <= sum_at tokens (greedy_refill candidates tokens values budget exclude chosen)
  /\ forall i, (i < length candidates)%nat -> i ∉ exclude ->
       i ∉ greedy_refill candidates tokens values budget exclude chosen ->
       budget - sum_at tokens (greedy_refill candidates tokens values budget exclude chosen)
       < tokens !!! i.
Proof.
  intros Ht. unfold greedy_refill.
  destruct (refill_loop_maximal tokens budget exclude (refill_order candidates values) Ht
              chosen _ eq_refl) as [Hle Hmax].
  split; [done|]. intros i Hi. apply Hmax. unfold refill_order.
  by rewrite py_sorted_elem, elem_of_seq0.
Qed.

(** The selection of every index. *)
Lemma full_selection n sel : NoDup sel -> Forall (fun i => (i < n)%nat) sel ->
  (forall i, (i < n)%nat -> i ∈ sel) -> sel ≡ₚ seq 0 n.
Proof.
  intros Hnd Hr Hall. apply NoDup_Permutation; [done|apply NoDup_seq|].
  intros i. rewrite elem_of_seq0. rewrite Forall_forall in Hr. split; [apply Hr|apply Hall].
Qed.

(** What a selection leaves out costs no more than the total minus its cost. *)
Lemma sum_at_seq_split tokens n sel i :
  Forall (Z.le 0) tokens -> NoDup sel -> Forall (fun j => (j < n)%nat) sel ->
  (i < n)%nat -> i ∉ sel -> sum_at tokens sel + tokens !!! i <= sum_at tokens (seq 0 n).
Proof.
  intros Ht Hnd Hr Hi Hni.
  assert (i :: sel ⊆+ seq 0 n) as [k Hk]%submseteq_Permutation.
  { apply NoDup_submseteq; [by constructor|]. intros j [->|Hj]%elem_of_cons.
    - by apply elem_of_seq0.
    - rewrite Forall_forall in Hr. by apply elem_of_seq0, Hr. }
  rewrite (sum_at_perm _ _ _ Hk), sum_at_app.
  assert (0 <= sum_at tokens k) by (apply sumZ_nonneg; intros; by apply lookup_total_nonneg).
  change (sum_at tokens (i :: sel)) with (tokens !!! i + sum_at tokens sel). lia.
Qed.

Lemma repair_full candidates tokens values budget selected :
  Forall (Z.le 0) tokens -> NoDup selected ->
  Forall (fun i => (i < length candidates)%nat) selected ->
  sum_at tokens (seq 0 (length candidates)) <= budget ->
  repair_exact_budget candidates tokens values budget selected ≡ₚ seq 0 (length candidates).
Proof.
  intros Ht Hnd Hr Hall.
  assert (0 <= budget) as Hb.
  { etrans; [|exact Hall]. apply sumZ_nonneg. intros. by apply lookup_total_nonneg. }
  assert (forall sel, valid_selection (length candidates) tokens budget sel ->
            sum_at tokens sel <= budget) as Hfit by by intros sel [].
  unfold repair_exact_budget, drop_over_budget.
  pose proof (drop_loop_spec candidates tokens values budget (length candidates)
                (length selected) selected false Hb (le_n _) Hnd Hr) as [Hv Hd].
  destruct (drop_loop _ _ _ _ _ _ _) as [chosen dropped]; cbn in *.
  assert (sum_at tokens selected <= budget) as Hsel.
  { etrans; [|exact Hall]. unfold sum_at.
    assert (selected ⊆+ seq 0 (length candidates)) as [k Hk]%submseteq_Permutation.
    { apply NoDup_submseteq; [done|]. intros j Hj. apply elem_of_seq0.
      rewrite Forall_forall in Hr. by apply Hr. }
    rewrite (sumZ_perm _ _ _ Hk), sumZ_app.
    assert (0 <= sumZ (fun i => tokens !!! i) k); [|lia].
    apply sumZ_nonneg. intros. by apply lookup_total_nonneg. }
  destruct Hd as [[-> ->]|[_ Hd]]; [|lia]. cbn.
  pose proof (greedy_refill_spec candidates tokens values budget [] selected Hv) as [Hv' _].
  destruct (greedy_refill_maximal candidates tokens values budget [] selected Ht) as [_ Hmax].
  set (r := greedy_refill _ _ _ _ _ _) in *.
  assert (r ≡ₚ seq 0 (length candidates)) as Hp.
  { destruct Hv' as [Hn' Hr' Hb']. apply full_selection; [done|done|].
    intros i Hi. destruct (decide (i ∈ r)) as [?|Hni]; [done|exfalso].
    pose proof (sum_at_seq_split tokens _ r i Ht Hn' Hr' Hi Hni).
    specialize (Hmax i Hi (not_elem_of_nil _) Hni). lia. }
  replace (should_local_improve candidates tokens budget r) with false; [done|].
  symmetry. unfold should_local_improve. destruct r as [|i0 r'] eqn:Er; [done|].
  case_if; [done|]. apply not_true_iff_false. intros (i & Hi & Hc)%existsb_exists.
  apply andb_prop in Hc as [[Hc _]%andb_prop _]. bools.
  apply Hc. rewrite Hp. by apply list_elem_of_In.
Qed.
End Maximality.

Lemma greedy_loop_full max_skips tokens budget order :
  Forall (Z.le 0) tokens -> forall sel exd used skips,
  used = sum_at tokens sel -> sum_at tokens (sel ++ order) <= budget ->
  (greedy_loop max_skips tokens budget order sel exd used skips).1 = sel ++ order.
Proof.
  intros Ht. induction order as [|idx order IH]; intros sel exd used skips -> Hb;
    cbn [greedy_loop].
  { by rewrite app_nil_r. }
  assert (0 <= sum_at tokens order) by (apply sumZ_nonneg; intros; by apply lookup_total_nonneg).
  assert (sum_at tokens (sel ++ idx :: order)
          = sum_at tokens sel + (tokens !!! idx + sum_at tokens order)) as Hs
    by (by rewrite sum_at_app).
  destruct (_ <=? _) eqn:E; bools; [|lia].
  rewrite (IH (sel ++ [idx])), <- app_assoc; [done| |].
  - rewrite sum_at_app. cbn. lia.
  - by rewrite <- app_assoc.
Qed.

Section Theorems.
Context {F : Type} `{FloatOps F}.
Implicit Types (candidates scored : list (ScoredMemory F)) (p : ContextPacker)
  (costs : option (gmap string Z)).

Lemma pack_zero_budget p scored budget costs :
  supported_policy (pk_policy p) = true -> budget <= 0 -> scored <> [] ->
  pack p scored budget costs =
    let candidates := py_sorted score_ltb scored in
    Ok (empty_pack path_dp (Z.of_nat (length scored)) (Z.of_nat (length scored)) true
          (list_to_set (memory_id <$> candidates))
          (dict_of (zip (memory_id <$> candidates) (raw_estimate p <$> candidates)))).
Proof.
  intros Hs Hb Hne. unfold pack, pack_empty_or_zero_budget. cbn zeta.
  rewrite py_sorted_length.
  assert ((Z.of_nat (length scored) =? 0) = false) as ->.
  { apply Z.eqb_neq. destruct scored; [done|]. cbn. lia. }
  assert ((0 <? budget) = false) as -> by lia.
  by rewrite rmap_tokens.
Qed.

(** What a pack holds: a selection of the candidates and their raw estimates. *)
Lemma pack_facts p scored budget costs :
  supported_policy (pk_policy p) = true -> costs_nonneg costs ->
  exists r rest,
    pack p scored budget costs = Ok r /\ memories r ++ rest ≡ₚ scored
    /\ (budget <= 0 -> memories r = [])
    /\ total_tokens r = sumZ (charge p costs) (memories r)
    /\ token_estimates r = dict_of ((fun m => (memory_id m, raw_estimate p m)) <$> py_sorted score_ltb scored).
Proof.
  intros Hs Hc. destruct (decide (scored = [])) as [->|Hne]; [by eexists _, []|].
  assert (zip (memory_id <$> py_sorted score_ltb scored) (raw_estimate p <$> py_sorted score_ltb scored)
          = (fun m => (memory_id m, raw_estimate p m)) <$> py_sorted score_ltb scored) as Hz.
  { generalize (py_sorted score_ltb scored). intros l. induction l as [|m l IH]; cbn; [done|]. by rewrite IH. }
  destruct (decide (0 < budget)) as [Hb|Hb].
  - rewrite pack_unfold by done. set (candidates := py_sorted score_ltb scored) in *.
    destruct (finalize_spec p costs candidates _ budget
                (pack_selected p candidates budget costs).1.2
                (pack_selected p candidates budget costs).2 (raw_estimate p <$> candidates)
                (pack_selected_valid p candidates budget costs Hc Hb)) as (r & rest & Hr & Hm & _ & Ht & _).
    exists r, rest. split; [done|]. split; [by rewrite Hm; apply py_sorted_perm|]. split; [lia|]. split; [done|].
    unfold finalize in Hr. case_if; [done|]. injection Hr as <-. cbn. by rewrite Hz.
  - rewrite pack_zero_budget by (done || lia). eexists _, scored. split; [reflexivity|]. cbn. by rewrite Hz.
Qed.

(** C1: with a supported tokenizer policy and non-negative costs, [pack]
    always returns (the [internal packer bug] check never fires) a sub-multiset
    of the candidates whose charged tokens are exactly [total_tokens] and
    never exceed the budget, with [skipped_count], [candidates_evaluated] and
    [was_budget_reached] accounting for every candidate. *)
Theorem pack_within_budget p scored budget costs :
  supported_policy (pk_policy p) = true -> costs_nonneg costs ->
  exists r rest,
    pack p scored budget costs = Ok r
    /\ memories r ++ rest ≡ₚ scored
    /\ total_tokens r = sumZ (charge p costs) (memories r)
    /\ total_tokens r <= Z.max 0 budget
    /\ skipped_count r = Z.of_nat (length rest)
    /\ candidates_evaluated r = Z.of_nat (length scored)
    /\ was_budget_reached r = (0 <? skipped_count r).
Proof.
  intros Hs Hc. destruct (decide (scored = [])) as [->|Hne].
  { eexists _, []. split; [reflexivity|]. cbn. split_and!; done || lia. }
  destruct (decide (0 < budget)) as [Hb|Hb].
  - rewrite pack_unfold by done. set (candidates := py_sorted score_ltb scored).
    destruct (finalize_spec p costs candidates _ budget
                (pack_selected p candidates budget costs).1.2
                (pack_selected p candidates budget costs).2 (raw_estimate p <$> candidates)
                (pack_selected_valid p candidates budget costs Hc Hb))
      as (r & rest & Hr & Hm & _ & Ht & Hle & Hsk & Hev & Hwas).
    exists r, rest. split_and!; try done; try lia.
    + by rewrite Hm; apply py_sorted_perm.
    + by rewrite Hev; unfold candidates; rewrite py_sorted_length.
  - rewrite pack_zero_budget by (done || lia). eexists _, scored.
    split; [reflexivity|]. cbn. split_and!; try done; try lia.
    symmetry. apply Z.ltb_lt. destruct scored; [done|]. cbn [length]. lia.
Qed.

(** A positive budget that covers the charged cost of every candidate
    packs every candidate and does not report [was_budget_reached], whichever
    path ran. *)
Theorem pack_all_fit p scored budget costs :
  supported_policy (pk_policy p) = true -> costs_nonneg costs -> 0 < budget ->
  sumZ (charge p costs) scored <= budget ->
  exists r, pack p scored budget costs = Ok r
    /\ memories r ≡ₚ scored /\ was_budget_reached r = false
    /\ total_tokens r = sumZ (charge p costs) scored.
Proof.
  intros Hs Hc Hb Hall. destruct (decide (scored = [])) as [->|Hne].
  { eexists. split; [reflexivity|]. done. }
  rewrite pack_unfold by done. set (candidates := py_sorted score_ltb scored).
  pose proof (pack_selected_valid p candidates budget costs Hc Hb) as Hv.
  assert (candidates ≡ₚ scored) as Hp by apply py_sorted_perm.
  assert (Forall (Z.le 0) (charge p costs <$> candidates)) as Ht.
  { apply Forall_fmap, Forall_forall. intros m _. by apply charge_nonneg. }
  assert (sum_at (charge p costs <$> candidates) (seq 0 (length candidates)) <= budget) as Hsum.
  { rewrite sum_at_charge by apply Forall_seq0. rewrite fmap_lookup_seq.
    by rewrite (sumZ_perm _ _ _ Hp). }
  assert ((pack_selected p candidates budget costs).1.1 ≡ₚ seq 0 (length candidates)) as Hfull.
  { unfold pack_selected, select_under_budget. case_if.
    - unfold greedy_select. cbn zeta.
      pose proof (greedy_loop_full (pk_max_consecutive_skips p) (charge p costs <$> candidates)
                    budget (greedy_order candidates) Ht [] [] 0 0 eq_refl) as Hg.
      destruct (greedy_loop _ _ _ _ _ _ _ _); cbn [fst app] in *. rewrite Hg.
      + apply py_sorted_perm.
      + by rewrite (sum_at_perm _ (greedy_order candidates) _ (py_sorted_perm _ _)).
    - cbn. match goal with |- context [dp_select ?w ?v ?b] =>
        destruct (dp_select_range w v b) as [Hnd Hr] end.
      rewrite !length_fmap in Hr. by apply repair_full. }
  destruct (finalize_spec p costs candidates _ budget
                (pack_selected p candidates budget costs).1.2
                (pack_selected p candidates budget costs).2 (raw_estimate p <$> candidates) Hv)
      as (r & rest & Hr & Hm & Hmem & Htot & Hle & Hsk & Hev & Hwas).
  exists r.
  assert (memories r ≡ₚ scored) as Hms.
  { rewrite Hmem, py_sorted_perm, Hfull, fmap_lookup_seq. done. }
  assert (rest = []) as ->.
  { apply length_zero_iff_nil. apply Permutation_length in Hm, Hms, Hp.
    rewrite length_app in Hm. lia. }
  split_and!; [done|done| |].
  - by rewrite Hwas, Hsk.
  - rewrite Htot. by apply sumZ_perm.
Qed.
End Theorems.

Section Ordering.
Context {F : Type} `{FloatOrder F}.
Implicit Types (scored : list (ScoredMemory F)) (m : ScoredMemory F).

Definition score_ok m : Prop := f_num (f_opp (composite_score m)) /\ True.

#[local] Instance score_ltb_order : PyOrder score_ltb score_ok.
Proof.
  exact (key_ltb_order score_key _ _
           (PyOrder0 := pair_ltb_order f_eqb f_ltb str_ltb f_num (fun _ => True) f_eqb_spec)).
Qed.

Lemma score_ltb_antisym m m' : f_num (composite_score m) -> f_num (composite_score m') ->
  score_ltb m m' = false -> score_ltb m' m = false -> memory_id m = memory_id m'.
Proof.
  intros Hm%f_num_opp Hm'%f_num_opp. unfold score_ltb, key_ltb, pair_ltb, score_key; cbn.
  rewrite !f_eqb_spec by done.
  destruct (f_ltb (f_opp (composite_score m)) (f_opp (composite_score m'))),
    (f_ltb (f_opp (composite_score m')) (f_opp (composite_score m))); cbn; try done.
  apply str_ltb_antisym.
Qed.

Lemma scores_ok scored : Forall (fun m => f_num (composite_score m)) scored ->
  Forall score_ok scored.
Proof.
  intros Hl. eapply Forall_impl; [exact Hl|]. intros m Hm. split; [by apply f_num_opp|done].
Qed.

Lemma ids_inj scored m m' : NoDup (memory_id <$> scored) -> m ∈ scored -> m' ∈ scored ->
  memory_id m = memory_id m' -> m = m'.
Proof.
  intros Hnd [i Hi]%list_elem_of_lookup [j Hj]%list_elem_of_lookup Heq.
  assert (i = j) as ->; [|congruence].
  eapply NoDup_lookup; [exact Hnd| |]; rewrite list_lookup_fmap, ?Hi, ?Hj; cbn; by rewrite ?Heq.
Qed.

(** Packing does not depend on the order in which the caller lists the
    candidates: for distinct ids and scores that are not NaN, permuted inputs
    give the same result, field for field. *)
Theorem pack_input_order_irrelevant p scored scored' budget costs :
  NoDup (memory_id <$> scored) -> Forall (fun m => f_num (composite_score m)) scored ->
  scored ≡ₚ scored' ->
  pack p scored budget costs = pack p scored' budget costs.
Proof.
  intros Hnd Hnum Hp. unfold pack.
  rewrite (py_sorted_canonical (ok := score_ok) score_ltb scored scored'); [done| |done|].
  - by apply scores_ok.
  - intros m m' Hm Hm' H1 H2. apply (ids_inj scored); [done..|].
    rewrite Forall_forall in Hnum. apply score_ltb_antisym; auto.
Qed.

(** The packed memories come out by descending score, equal scores by
    ascending [memory_id]. *)
Theorem pack_output_sorted p scored budget costs r :
  Forall (fun m => f_num (composite_score m)) scored ->
  supported_policy (pk_policy p) = true -> costs_nonneg costs ->
  pack p scored budget costs = Ok r ->
  StronglySorted (leb_of score_ltb) (memories r).
Proof.
  intros Hnum Hs Hc Hr.
  destruct (decide (scored = [])) as [->|Hne].
  { cbn in Hr. injection Hr as <-. constructor. }
  destruct (decide (0 < budget)) as [Hb|Hb].
  - rewrite pack_unfold in Hr by done. set (candidates := py_sorted score_ltb scored) in *.
    destruct (finalize_spec p costs candidates _ budget
                (pack_selected p candidates budget costs).1.2
                (pack_selected p candidates budget costs).2 (raw_estimate p <$> candidates)
                (pack_selected_valid p candidates budget costs Hc Hb))
      as (r' & rest & Hr' & Hm & Hmem & _).
    rewrite Hr in Hr'. injection Hr' as <-. rewrite Hmem.
    apply (py_sorted_sorted _ (ok := score_ok)).
    assert (Forall score_ok (memories r ++ rest)) as Hall.
    { rewrite Hm. unfold candidates. rewrite py_sorted_perm. by apply scores_ok. }
    apply Forall_app in Hall as [Hall _]. by rewrite Hmem, py_sorted_perm in Hall.
  - rewrite pack_zero_budget in Hr by (done || lia). injection Hr as <-. constructor.
Qed.
End Ordering.

(** ** Concrete packs *)

Module PackerSample.

Definition sample_memory (id : string) (chars : nat) (score : Z) : ScoredMemory Z :=
  {| hit := {| hit_memory_id := id; hit_org_id := "org-1"; hit_agent_id := "agent-1";
               hit_content := String.concat "" (replicate chars "x"); hit_category := "factual";
               hit_confidence := 1; hit_similarity := 1; hit_rank := 1; hit_source := "hot";
               hit_conflict_groups := [] |};
     composite_score := score |}.

Definition sample_policy : TokenizerFamilyPolicy :=
  {| estimate_kind := ESTIMATE_CHARS_DIV_4; safety_buffer_fraction := S754_zero false |}.

Definition sample_packer (bucket_size : Z) : ContextPacker :=
  {| pk_policy := sample_policy; pk_bucket_size := bucket_size;
     pk_dp_cell_ceiling := DEFAULT_DP_CELL_CEILING;
     pk_max_consecutive_skips := DEFAULT_MAX_CONSECUTIVE_SKIPS |}.

(** 16 tokens worth 10 against two items of 9 tokens worth 6, under 18 tokens. *)
Definition stranding : list (ScoredMemory Z) :=
  [sample_memory "a" 64 10; sample_memory "b" 36 6; sample_memory "c" 36 6].

Definition pack_ids (r : result PackError (PackedMemories Z)) : option (list string * Z * Z) :=
  match r with
  | Ok r => Some (memory_id <$> memories r, total_tokens r, total_score r)
  | Raise _ => None
  end.

(** The repair recovers the better pair that the floor buckets hide. *)
Example stranding_repaired :
  pack_ids (pack (sample_packer BUCKET_SIZE) stranding 18 None) = Some (["b"; "c"], 18, 12).
Proof. vm_compute. reflexivity. Qed.

Lemma pack_within_budget_witness :
  exists r rest, pack (sample_packer 16) stranding 18 None = Ok r
    /\ memories r ++ rest ≡ₚ stranding /\ total_tokens r <= 18.
Proof.
  destruct (pack_within_budget (sample_packer 16) stranding 18 None eq_refl I)
    as (r & rest & Hr & Hm & _ & Hle & _).
  exists r, rest. auto.
Defined.

Lemma pack_all_fit_witness :
  exists r, pack (sample_packer 16) stranding 40 None = Ok r
    /\ memories r ≡ₚ stranding /\ was_budget_reached r = false.
Proof.
  destruct (pack_all_fit (sample_packer 16) stranding 40 None eq_refl I ltac:(lia)
              ltac:(vm_compute; discriminate)) as (r & Hr & Hm & Hw & _).
  exists r. auto.
Defined.

Lemma pack_input_order_irrelevant_witness :
  pack (sample_packer 16) stranding 18 None = pack (sample_packer 16) (rev stranding) 18 None.
Proof.
  apply pack_input_order_irrelevant.
  - apply (bool_decide_unpack _). vm_compute. exact I.
  - repeat constructor.
  - apply Permutation_rev.
Defined.

Lemma pack_output_sorted_witness :
  exists r, pack (sample_packer 16) stranding 40 None = Ok r
    /\ StronglySorted (leb_of score_ltb) (memories r).
Proof.
  destruct (pack (sample_packer 16) stranding 40 None) as [r|e] eqn:E;
    [|vm_compute in E; discriminate].
  exists r. split; [reflexivity|].
  apply (pack_output_sorted (sample_packer 16) stranding 40 None r);
    [repeat constructor|reflexivity|exact I|exact E].
Defined.

(** An item of score 0 that fits is dropped by the local improvement (the
    tie-break prefers the shorter id list) and reported as budget-excluded. *)
Definition zero_score : list (ScoredMemory Z) :=
  [sample_memory "a" 64 10; sample_memory "b" 4 0; sample_memory "c" 60 10].

Example zero_score_dropped :
  match pack (sample_packer BUCKET_SIZE) zero_score 30 None with
  | Ok r => (memory_id <$> memories r, total_tokens r, bool_decide ("b" ∈ budget_excluded_ids r))
            = (["a"], 16, true)
  | Raise _ => False
  end.
Proof. vm_compute. reflexivity. Qed.

End PackerSample.
