(* ===== verification/PackerOptimal.v ===== *)
(** * The packer's knapsack against its specification

    [dp_select] (the table and the backtracking of [packer.py]) refines the
    textbook recurrence [opt]/[choose].  On the program's doubles sums round:
    what the table maximises is the running sum of the values in index order,
    and [dp_select_optimal] shows no selection that fits has a larger one
    ([RoundedSum]: rounded addition is still monotone).  Totals that differ by
    less than the rounding are the same to the code ([dp_select_absorbs]).

    Under [ExactSum], arithmetic without rounding, the order of the items does
    not matter: the repair stage then never loses value and, for positive
    scores, leaves out only what does not fit.  The lemmas of [PackOptimal] are
    about that idealisation of the scores, not about doubles. *)

From Stdlib Require Import SpecFloat.
From S2P Require Import Prelude Num FloatSum Packer.

(** ** The recurrence *)

Section Recurrence.
Context {F : Type} `{FloatOps F}.
Variables (w : nat -> Z) (v : nat -> F).

(** The best value from the first [n] items in capacity [c]. *)
Fixpoint opt (n : nat) (c : Z) : F :=
  match n with
  | O => f_zero
  | S i => if ((w i <=? c) && f_ltb (opt i c) (f_add (opt i (c - w i)) (v i)))%bool
           then f_add (opt i (c - w i)) (v i) else opt i c
  end.

Definition takes (i : nat) (c : Z) : bool :=
  ((w i <=? c) && f_ltb (opt i c) (f_add (opt i (c - w i)) (v i)))%bool.

(** The items that realise it, last first. *)
Fixpoint choose (n : nat) (c : Z) : list nat :=
  match n with
  | O => []
  | S i => if takes i c then i :: choose i (c - w i) else choose i c
  end.

Definition table_row (n : nat) (buckets : Z) : list F :=
  (fun c => opt n (Z.of_nat c)) <$> seq 0 (Z.to_nat (buckets + 1)).

Definition keep_row (i : nat) (buckets : Z) : list bool :=
  (fun c => takes i (Z.of_nat c)) <$> seq 0 (Z.to_nat (buckets + 1)).

Lemma lookup_row {A : Type} (f : nat -> A) (n j : nat) :
  (f <$> seq 0 n) !! j = if decide (j < n)%nat then Some (f j) else None.
Proof.
  rewrite list_lookup_fmap. case_decide.
  - by rewrite lookup_seq_lt.
  - rewrite lookup_seq_ge; [done|lia].
Qed.

Lemma takes_small i c : c < w i -> takes i c = false.
Proof. intros. unfold takes. by replace (w i <=? c) with false by lia. Qed.

Lemma takes_fits i c : w i <= c ->
  takes i c = f_ltb (opt i c) (f_add (opt i (c - w i)) (v i)).
Proof. intros. unfold takes. by replace (w i <=? c) with true by lia. Qed.

Lemma opt_S i c : opt (S i) c = if takes i c then f_add (opt i (c - w i)) (v i) else opt i c.
Proof. done. Qed.

(** One numpy row update computes the next row of the recurrence. *)
Lemma dp_row_spec i buckets : 0 <= w i -> 0 <= buckets ->
  dp_row (table_row i buckets) (w i) (v i) buckets
  = (table_row (S i) buckets, keep_row i buckets).
Proof.
  intros Hw Hb. unfold dp_row, table_row, keep_row.
  set (n := Z.to_nat (buckets + 1)).
  destruct (w i =? 0) eqn:E0; [|destruct (buckets <? w i) eqn:E1]; bools.
  - f_equal; apply list_eq; intros j; rewrite ?lookup_zip_with, ?list_lookup_fmap;
      destruct (seq 0 n !! j) as [c|]; cbn [fmap option_fmap option_map mbind option_bind]; try done.
    all: rewrite ?opt_S, takes_fits by lia; by rewrite E0, Z.sub_0_r.
  - f_equal; apply list_eq; intros j; rewrite !lookup_row || rewrite lookup_row.
    + case_decide; [|done]. rewrite opt_S, takes_small by lia. done.
    + case_decide.
      * rewrite lookup_replicate_2 by done. by rewrite takes_small by lia.
      * apply lookup_replicate_None. lia.
  - set (k := Z.to_nat (w i)).
    assert (Z.to_nat (buckets + 1 - w i) = n - k)%nat as -> by lia.
    set (skipl := drop k ((fun c => opt i (Z.of_nat c)) <$> seq 0 n)).
    set (takel := (fun p => f_add p (v i))
                  <$> take (n - k) ((fun c => opt i (Z.of_nat c)) <$> seq 0 n)).
    assert (forall j, skipl !! j = if decide (k + j < n)%nat
                                   then Some (opt i (Z.of_nat (k + j))) else None) as Hskip.
    { intros j. unfold skipl. by rewrite lookup_drop, lookup_row. }
    assert (forall j, takel !! j = if decide (k + j < n)%nat
               then Some (f_add (opt i (Z.of_nat (k + j) - w i)) (v i)) else None) as Htake.
    { intros j. unfold takel. rewrite list_lookup_fmap. case_decide.
      - rewrite lookup_take_lt, lookup_row by lia. rewrite decide_True by lia. cbn.
        do 3 f_equal. lia.
      - by rewrite lookup_take_ge by lia. }
    f_equal; apply list_eq; intros j; rewrite lookup_row;
      (destruct (decide (j < k)%nat) as [Hj|Hj];
       [rewrite lookup_app_l by (rewrite length_take, ?length_fmap, ?length_replicate, ?length_seq; lia)
       |rewrite lookup_app_r by (rewrite length_take, ?length_fmap, ?length_replicate, ?length_seq; lia);
        rewrite length_take, ?length_fmap, ?length_replicate, ?length_seq;
        replace (j - k `min` n)%nat with (j - k)%nat by lia;
        rewrite !lookup_zip_with, Htake, Hskip]).
    + rewrite lookup_take_lt, lookup_row by lia. case_decide; [|done].
      by rewrite opt_S, takes_small by lia.
    + replace (k + (j - k))%nat with j by lia. case_decide; [|done]. cbn [mbind option_bind].
      rewrite opt_S, takes_fits by lia. cbn. by case_if.
    + rewrite lookup_take_lt by lia. case_decide; [|lia].
      rewrite lookup_replicate_2 by done. by rewrite takes_small by lia.
    + replace (k + (j - k))%nat with j by lia. case_decide; [|done]. cbn [mbind option_bind].
      by rewrite takes_fits by lia.
Qed.
End Recurrence.

(** ** The code refines the recurrence *)

Section Refinement.
Context {F : Type} `{FloatOps F}.
Variables (weights : list Z) (values : list F) (buckets : Z).
Hypothesis Hlen : length weights = length values.
Hypothesis Hw : Forall (Z.le 0) weights.
Hypothesis Hb : 0 <= buckets.

Definition w_at (i : nat) : Z := weights !!! i.
Definition v_at (i : nat) : F := values !!! i.

Lemma w_at_nonneg i : 0 <= w_at i.
Proof. by apply lookup_total_nonneg. Qed.

Lemma zip_drop i : (i < length weights)%nat ->
  drop i (zip weights values) = (w_at i, v_at i) :: drop (S i) (zip weights values).
Proof.
  intros Hi. apply drop_S. apply lookup_zip_with_Some. exists (w_at i), (v_at i).
  split_and!; [done|apply list_lookup_lookup_total_lt..]; lia.
Qed.

Lemma dp_rows_spec k : forall i, (i + k = length weights)%nat ->
  dp_rows (table_row w_at v_at i buckets) (drop i (zip weights values)) buckets
  = (table_row w_at v_at (length weights) buckets,
     (fun j => keep_row w_at v_at j buckets) <$> seq i k).
Proof.
  induction k as [|k IH]; intros i Hi.
  - rewrite drop_ge by (rewrite length_zip_with; lia). cbn. by replace (length weights) with i by lia.
  - rewrite zip_drop by lia. cbn [dp_rows].
    rewrite dp_row_spec by (done || apply w_at_nonneg).
    rewrite IH by lia. done.
Qed.

Lemma table_row_0 : table_row w_at v_at 0 buckets = replicate (Z.to_nat (buckets + 1)) f_zero.
Proof.
  unfold table_row. cbn. rewrite <- (length_seq (Z.to_nat (buckets + 1)) 0) at 2.
  by rewrite <- const_fmap with (f := fun _ : nat => f_zero).
Qed.

Lemma backtrack_choose rows : (forall i, (i < length weights)%nat ->
    rows !!! i = keep_row w_at v_at i buckets) ->
  forall n c sel, (n <= length weights)%nat -> 0 <= c <= buckets ->
  dp_backtrack_loop rows weights n c sel = sel ++ choose w_at v_at n c.
Proof.
  intros Hrows. induction n as [|i IH]; intros c sel Hn Hc; cbn [dp_backtrack_loop choose].
  { by rewrite app_nil_r. }
  rewrite Hrows by lia.
  assert (keep_row w_at v_at i buckets !!! Z.to_nat c = takes w_at v_at i c) as ->.
  { apply list_lookup_total_correct. unfold keep_row. rewrite lookup_row, decide_True by lia.
    by rewrite Z2Nat.id by lia. }
  destruct (takes w_at v_at i c) eqn:E; cbn.
  - unfold takes in E. bools. pose proof (w_at_nonneg i).
    rewrite IH, <- app_assoc by (unfold w_at in *; lia). done.
  - apply IH; lia.
Qed.

(** The bucketed knapsack returns the choice of the recurrence, in ascending
    index order. *)
Lemma dp_select_choose :
  dp_select weights values buckets = rev (choose w_at v_at (length weights) buckets).
Proof.
  unfold dp_select, dp_backtrack. rewrite <- table_row_0.
  change (zip weights values) with (drop 0 (zip weights values)).
  rewrite (dp_rows_spec (length weights) 0) by lia.
  rewrite backtrack_choose; [done| |lia|lia].
  intros i Hi. apply list_lookup_total_correct. by rewrite lookup_row, decide_True.
Qed.
End Refinement.

(** ** Optimality of the running sums *)

Section ChooseFits.
Context {F : Type} `{FloatOps F}.
Variables (w : nat -> Z) (v : nat -> F).

Lemma choose_range n : forall c, Forall (fun i => (i < n)%nat) (choose w v n c).
Proof.
  induction n as [|n IH]; intros c; cbn; [constructor|].
  case_if; [constructor; [lia|]|]; (eapply Forall_impl; [apply IH|]; cbn; lia).
Qed.

Lemma choose_weight n : forall c, 0 <= c -> sumZ w (choose w v n c) <= c.
Proof.
  induction n as [|n IH]; intros c Hc; cbn; [done|].
  destruct (takes w v n c) eqn:E; [|by apply IH].
  unfold takes in E. bools. cbn. specialize (IH (c - w n)). unfold sumZ in *. lia.
Qed.

(** The recurrence adds the chosen values one by one, in index order. *)
Lemma choose_running n : forall c, f_running (v <$> rev (choose w v n c)) = opt w v n c.
Proof.
  induction n as [|n IH]; intros c; [done|]. rewrite opt_S. cbn [choose].
  destruct (takes w v n c); [|apply IH]. cbn [rev].
  rewrite fmap_app. cbn. by rewrite f_running_snoc, IH.
Qed.
End ChooseFits.

(** Indices in increasing order: a set of candidates as the loops visit it. *)
Definition ascending (sel : list nat) : Prop := StronglySorted lt sel.

Lemma ascending_snoc sel i : ascending sel -> Forall (fun j => (j < i)%nat) sel ->
  ascending (sel ++ [i]).
Proof.
  intros Hs Hf. apply StronglySorted_app. split_and!; [|done|repeat constructor].
  intros j k Hj Hk. apply list_elem_of_singleton in Hk as ->. rewrite Forall_forall in Hf. auto.
Qed.

(** Below [S n], an ascending selection ends in [n] or stays below [n]. *)
Lemma ascending_last sel n : ascending sel -> Forall (fun j => (j < S n)%nat) sel ->
  Forall (fun j => (j < n)%nat) sel
  \/ exists sel', sel = sel' ++ [n] /\ ascending sel' /\ Forall (fun j => (j < n)%nat) sel'.
Proof.
  induction sel as [|x sel _] using rev_ind; intros Hs Hf; [by left|].
  apply StronglySorted_app in Hs as (Hlt & Hs & _).
  apply Forall_app in Hf as [Hf Hx]. rewrite Forall_singleton in Hx.
  assert (Forall (fun j => (j < x)%nat) sel) as Hb.
  { apply Forall_forall. intros j Hj. apply (Hlt j x Hj). by apply list_elem_of_singleton. }
  destruct (decide (x = n)) as [->|].
  - right. eauto.
  - left. apply Forall_app. split; [|apply Forall_singleton; lia].
    eapply Forall_impl; [exact Hb|]. cbn. lia.
Qed.

Lemma choose_ascending {F : Type} `{FloatOps F} (w : nat -> Z) (v : nat -> F) n : forall c,
  ascending (rev (choose w v n c)).
Proof.
  induction n as [|n IH]; intros c; cbn [choose]; [constructor|].
  destruct (takes w v n c); [|apply IH]. cbn [rev]. apply ascending_snoc; [apply IH|].
  apply Forall_rev, choose_range.
Qed.

Section Rounded.
Context {F : Type} `{RoundedSum F}.
Variables (w : nat -> Z) (v : nat -> F).
Hypothesis Hv : forall i, f_pos (v i).

Lemma opt_pos n : forall c, f_pos (opt w v n c).
Proof.
  induction n as [|n IH]; intros c; [apply f_pos_zero|]. rewrite opt_S.
  destruct (takes w v n c); [apply f_pos_add|]; auto.
Qed.

Lemma running_pos sel : f_pos (f_running (v <$> sel)).
Proof.
  induction sel as [|i sel IH] using rev_ind; [apply f_pos_zero|].
  rewrite fmap_app. cbn. rewrite f_running_snoc. by apply f_pos_add.
Qed.

Lemma pos_le_refl x : f_pos x -> f_le x x.
Proof. intros. by apply (po_irrefl f_ltb (ok := f_num)), f_pos_num. Qed.

Lemma pos_le_trans x y z : f_pos x -> f_pos y -> f_pos z -> f_le x y -> f_le y z -> f_le x z.
Proof. intros. apply (po_neg_trans (ok := f_num) x y z); try done; by apply f_pos_num. Qed.

Lemma pos_lt_le x y : f_pos x -> f_pos y -> f_ltb x y = true -> f_le x y.
Proof. intros. apply (po_asym (ok := f_num)); try done; by apply f_pos_num. Qed.

Lemma opt_skip n c : f_le (opt w v n c) (opt w v (S n) c).
Proof.
  pose proof (opt_pos n). pose proof (opt_pos (S n) c) as Hs. rewrite opt_S in *.
  unfold takes in *. destruct (w n <=? c); cbn in *; [|by apply pos_le_refl].
  destruct (f_ltb _ _) eqn:E; [by apply pos_lt_le|by apply pos_le_refl].
Qed.

Lemma opt_take n c : w n <= c -> f_le (f_add (opt w v n (c - w n)) (v n)) (opt w v (S n) c).
Proof.
  intros Hn. rewrite opt_S, takes_fits by done. pose proof (opt_pos n).
  destruct (f_ltb _ _) eqn:E; [apply pos_le_refl, f_pos_add; auto|exact E].
Qed.

(** No ascending selection of the first [n] items that fits [c] has a running
    sum above [opt n c]. *)
Lemma opt_bounds_running n : (forall i, 0 <= w i) -> forall c sel, 0 <= c ->
  ascending sel -> Forall (fun i => (i < n)%nat) sel -> sumZ w sel <= c ->
  f_le (f_running (v <$> sel)) (opt w v n c).
Proof.
  intros Hw. induction n as [|n IH]; intros c sel Hc Ha Hr Hs.
  { destruct sel as [|i sel]; [apply pos_le_refl, f_pos_zero|].
    apply Forall_cons in Hr as [Hi _]. lia. }
  pose proof (opt_pos n) as Hn. pose proof (opt_pos (S n) c) as HSn.
  destruct (ascending_last sel n Ha Hr) as [Hr'|(sel' & -> & Ha' & Hr')].
  - apply (pos_le_trans _ (opt w v n c)); auto using running_pos, opt_skip.
  - rewrite fmap_app. cbn. rewrite f_running_snoc.
    assert (sumZ w (sel' ++ [n]) = sumZ w sel' + w n) as Hsum
      by (rewrite sumZ_app; unfold sumZ; cbn; lia).
    assert (0 <= sumZ w sel') by (apply sumZ_nonneg; auto).
    apply (pos_le_trans _ (f_add (opt w v n (c - w n)) (v n)));
      auto using running_pos, f_pos_add; [|apply opt_take; lia].
    apply f_add_mono; auto using running_pos. apply IH; [lia|done|done|lia].
Qed.
End Rounded.

Lemma lookup_total_score (values : list binary64) i :
  Forall double_ok values -> double_ok (values !!! i).
Proof.
  intros Hv. destruct (values !!! i) eqn:E; rewrite <- E; clear E;
  rewrite list_lookup_total_alt; destruct (values !! i) as [x|] eqn:E; cbn;
    try (rewrite Forall_lookup in Hv; eauto); done.
Qed.

(** C2: on the program's doubles, for non-negative scores, the knapsack table
    and its backtracking are optimal for the sum the code computes.  The
    selection is in increasing index order and fits the bucket capacity, and no
    selection that fits has a larger running sum, where the running sum of a
    selection adds its scores one by one in index order, each addition rounded
    to a double.  (Rounded totals are what the code compares; two selections
    whose running sums round to the same double are equal to it.) *)
Theorem dp_select_optimal weights (values : list binary64) buckets :
  length weights = length values -> Forall (Z.le 0) weights -> 0 <= buckets ->
  Forall double_ok values ->
  let running sel := f_running (v_at values <$> sel) in
  let chosen := dp_select weights values buckets in
  valid_selection (length weights) weights buckets chosen /\ ascending chosen
  /\ forall sel, valid_selection (length weights) weights buckets sel -> ascending sel ->
       SFleb (running sel) (running chosen) = true.
Proof.
  intros Hlen Hw Hb Hs. cbn zeta. rewrite dp_select_choose by done.
  assert (forall i, 0 <= w_at weights i) as Hw' by (intros i; by apply lookup_total_nonneg).
  assert (forall i, double_ok (v_at values i)) as Hv' by (intros i; by apply lookup_total_score).
  set (sel := choose _ _ _ _).
  assert (rev sel ≡ₚ sel) as Hp by (symmetry; apply Permutation_rev).
  split_and!; [split| |].
  - unfold sel. rewrite <- (dp_select_choose weights values buckets) by done. apply dp_select_range.
  - rewrite Hp. apply choose_range.
  - rewrite (sum_at_perm _ _ _ Hp). by apply (choose_weight (w_at weights)).
  - apply choose_ascending.
  - intros sel' [Hnd Hr Hsum] Ha. unfold sel. rewrite choose_running.
    pose proof (f_pos_num _ (running_pos (v_at values) Hv' sel')).
    pose proof (f_pos_num _ (opt_pos (w_at weights) (v_at values) Hv' (length weights) buckets)).
    rewrite SFleb_ltb by done. apply negb_true_iff.
    exact (opt_bounds_running (w_at weights) (v_at values) Hv' _ Hw' buckets sel' Hb Ha Hr Hsum).
Qed.

(** ** Optimality with exact sums *)

Section Optimal.
Context {F : Type} `{ExactSum F}.
Variables (w : nat -> Z) (v : nat -> F).

Lemma choose_value n : forall c, f_sum (v <$> choose w v n c) = opt w v n c.
Proof.
  induction n as [|n IH]; intros c; cbn; [apply es_sum_nil|].
  change (if (_ && _)%bool then ?a else ?b) with (if takes w v n c then a else b).
  destruct (takes w v n c); cbn; rewrite ?es_sum_cons, IH; [apply es_add_comm|done].
Qed.

Lemma opt_S_ge n c : f_le (opt w v n c) (opt w v (S n) c).
Proof.
  rewrite opt_S. unfold takes. destruct (w n <=? c); cbn; [|apply f_le_refl].
  destruct (f_ltb _ _) eqn:E; [by apply f_lt_le|apply f_le_refl].
Qed.

Lemma opt_S_take n c : w n <= c -> f_le (f_add (opt w v n (c - w n)) (v n)) (opt w v (S n) c).
Proof.
  intros Hn. rewrite opt_S, takes_fits by done.
  destruct (f_ltb _ _) eqn:E; [apply f_le_refl|exact E].
Qed.

(** No selection of the first [n] items that fits [c] beats [opt n c]. *)
Lemma opt_upper n : (forall i, 0 <= w i) -> forall c sel, 0 <= c ->
  NoDup sel -> Forall (fun i => (i < n)%nat) sel -> sumZ w sel <= c ->
  f_le (f_sum (v <$> sel)) (opt w v n c).
Proof.
  intros Hw. induction n as [|n IH]; intros c sel Hc Hnd Hr Hs.
  { destruct sel as [|i sel]; [cbn; rewrite es_sum_nil; apply f_le_refl|].
    apply Forall_cons in Hr as [Hi _]. lia. }
  destruct (decide (n ∈ sel)) as [Hin|Hni].
  - apply elem_of_Permutation in Hin as [sel' Hp].
    rewrite Hp in Hnd, Hr. apply NoDup_cons in Hnd as [Hni Hnd].
    apply Forall_cons in Hr as [_ Hr].
    rewrite (sumZ_perm _ _ _ Hp), sumZ_cons in Hs.
    assert (f_sum (v <$> sel) = f_add (f_sum (v <$> sel')) (v n)) as ->.
    { rewrite es_add_comm, <- es_sum_cons. apply f_sum_perm. by rewrite Hp. }
    assert (0 <= sumZ w sel') by (apply sumZ_nonneg; auto).
    eapply f_le_trans; [|apply opt_S_take; lia]. apply f_add_le, IH; [lia|done| |lia].
    rewrite Forall_forall in Hr |- *. intros i Hi. specialize (Hr i Hi). cbn in Hr.
    assert (i <> n) by congruence. lia.
  - eapply f_le_trans; [|apply opt_S_ge]. apply IH; try done.
    rewrite Forall_forall in Hr |- *. intros i Hi. specialize (Hr i Hi). cbn in Hr.
    assert (i <> n) by congruence. lia.
Qed.
End Optimal.

Section PackOptimal.
Context {F : Type} `{ExactSum F}.
Implicit Types (candidates scored : list (ScoredMemory F)) (values : list F).

(** With exact sums the selection's total is the largest of all. *)
Lemma dp_select_exact weights values buckets :
  length weights = length values -> Forall (Z.le 0) weights -> 0 <= buckets ->
  valid_selection (length weights) weights buckets (dp_select weights values buckets)
  /\ forall sel, valid_selection (length weights) weights buckets sel ->
       f_le (value_at values sel) (value_at values (dp_select weights values buckets)).
Proof.
  intros Hlen Hw Hb.
  assert (forall i, 0 <= w_at weights i) as Hw' by (intros i; by apply lookup_total_nonneg).
  rewrite dp_select_choose by done.
  set (sel := choose _ _ _ _).
  assert (rev sel ≡ₚ sel) as Hp by (symmetry; apply Permutation_rev).
  split.
  - split.
    + unfold sel. rewrite <- (dp_select_choose weights values buckets) by done. apply dp_select_range.
    + rewrite Hp. apply choose_range.
    + rewrite (sum_at_perm _ _ _ Hp). by apply (choose_weight (w_at weights)).
  - intros sel' [Hnd Hr Hs].
    assert (value_at values (rev sel) = opt (w_at weights) (v_at values) (length weights) buckets)
      as ->.
    { rewrite <- choose_value. unfold value_at. apply f_sum_perm. by rewrite Hp. }
    by apply opt_upper.
Qed.

(** *** The repair stage *)

Lemma value_at_perm values l k : l ≡ₚ k -> value_at values l = value_at values k.
Proof. intros Hp. unfold value_at. apply f_sum_perm. by rewrite Hp. Qed.

Lemma value_at_app_ge values l k :
  Forall (fun x => f_le f_zero x) values -> (forall i, i ∈ k -> (i < length values)%nat) ->
  f_le (value_at values l) (value_at values (l ++ k)).
Proof.
  intros Hv. revert l. induction k as [|i k IH]; intros l Hk.
  { rewrite app_nil_r. apply f_le_refl. }
  replace (l ++ i :: k) with ((l ++ [i]) ++ k) by (by rewrite <- app_assoc).
  eapply f_le_trans; [|apply IH; intros j Hj; apply Hk; by right].
  unfold value_at. rewrite fmap_app, f_sum_app. cbn. rewrite es_sum_cons, es_sum_nil, f_add_0_r.
  rewrite es_add_comm, <- (es_add_0_l (f_sum _)) at 1. apply f_add_le.
  rewrite Forall_lookup in Hv. eapply Hv, list_lookup_lookup_total_lt, Hk. by left.
Qed.

Lemma improve_step_value candidates tokens values budget best d :
  let st := improve_step candidates tokens values budget (best, value_at values best) d in
  st.2 = value_at values st.1 /\ f_le (value_at values best) (value_at values st.1).
Proof.
  unfold improve_step, is_better_selection. cbn zeta.
  match goal with |- context [greedy_refill ?c ?t ?v ?b ?e ?l] =>
    set (trial := greedy_refill c t v b e l) end.
  destruct (f_ltb (value_at values best) (value_at values trial)) eqn:E1;
    [split; [done|by apply f_lt_le]|].
  destruct (f_ltb (value_at values trial) (value_at values best)) eqn:E2;
    [split; [done|apply f_le_refl]|].
  destruct (strs_ltb _ _); (split; [done|]); [exact E2|apply f_le_refl].
Qed.

Lemma improve_fold_value candidates tokens values budget l : forall best,
  let st := foldl (improve_step candidates tokens values budget) (best, value_at values best) l in
  f_le (value_at values best) (value_at values st.1).
Proof.
  induction l as [|d l IH]; intros best; cbn [foldl]; [apply f_le_refl|].
  destruct (improve_step_value candidates tokens values budget best d) as [Hs Hle].
  destruct (improve_step _ _ _ _ _ _) as [b bv]; cbn [fst snd] in *. subst bv.
  eapply f_le_trans; [exact Hle|apply IH].
Qed.

(** Repair never loses value on a selection that already fits. *)
Lemma repair_value candidates tokens values budget selected :
  length values = length candidates -> Forall (fun x => f_le f_zero x) values ->
  valid_selection (length candidates) tokens budget selected -> 0 <= budget ->
  f_le (value_at values selected)
       (value_at values (repair_exact_budget candidates tokens values budget selected)).
Proof.
  intros Hlen Hv Hsel Hb. destruct Hsel as [Hnd Hr Hs].
  unfold repair_exact_budget, drop_over_budget.
  pose proof (drop_loop_spec candidates tokens values budget (length candidates)
                (length selected) selected false Hb (le_n _) Hnd Hr) as [Hvs Hd].
  destruct (drop_loop _ _ _ _ _ _ _) as [chosen dropped]; cbn in *.
  destruct Hd as [[-> ->]|[_ Hd]]; [|lia]. cbn.
  pose proof (greedy_refill_spec candidates tokens values budget [] selected Hvs)
    as [[Hn' Hr' _] (ext & He & _)].
  assert (f_le (value_at values selected)
            (value_at values (greedy_refill candidates tokens values budget [] selected))) as Hle.
  { rewrite He. apply value_at_app_ge; [done|]. intros i Hi. rewrite Hlen.
    rewrite He, Forall_app in Hr'. destruct Hr' as [_ Hr']. rewrite Forall_forall in Hr'. auto. }
  case_if; [|done]. eapply f_le_trans; [exact Hle|]. apply improve_fold_value.
Qed.

Lemma strs_ltb_irrefl l : strs_ltb l l = false.
Proof. induction l as [|a l IH]; cbn; [done|]. by rewrite String.eqb_refl. Qed.

Lemma filter_neq_id (d : nat) l : d ∉ l -> List.filter (fun i => negb (Nat.eqb i d)) l = l.
Proof.
  induction l as [|i l IH]; cbn; [done|]. rewrite not_elem_of_cons. intros [Hne Hl].
  destruct (Nat.eqb_spec i d); [congruence|]. cbn. by rewrite IH.
Qed.

Lemma filter_neq_perm (d : nat) l : NoDup l -> d ∈ l ->
  l ≡ₚ d :: List.filter (fun i => negb (Nat.eqb i d)) l.
Proof.
  induction l as [|i l IH]; intros Hnd Hd; [by apply elem_of_nil in Hd|].
  apply NoDup_cons in Hnd as [Hi Hnd]. cbn.
  destruct (Nat.eqb_spec i d) as [->|Hne]; cbn; [by rewrite filter_neq_id|].
  apply elem_of_cons in Hd as [->|Hd]; [done|]. rewrite (IH Hnd Hd) at 1.
  by rewrite Permutation_swap.
Qed.

Definition all_positive (values : list F) : Prop :=
  Forall (fun x => f_ltb f_zero x = true) values.

Lemma f_lt_add_l x y : f_ltb f_zero x = true -> f_ltb y (f_add x y) = true.
Proof. intros Hx. by rewrite <- (es_add_0_l y) at 1; rewrite es_ltb_add. Qed.

(** A maximal selection cannot grow. *)
Lemma refill_maximal_id candidates tokens values budget exclude best :
  Forall (Z.le 0) tokens ->
  valid_selection (length candidates) tokens budget best ->
  maximal_selection (length candidates) tokens budget best ->
  greedy_refill candidates tokens values budget exclude best = best.
Proof.
  intros Ht Hv Hmax.
  destruct (greedy_refill_spec candidates tokens values budget exclude best Hv)
    as [[Hnd Hr Hs] (ext & He & _)].
  rewrite He in *. destruct ext as [|j ext]; [by rewrite app_nil_r|exfalso].
  apply NoDup_app in Hnd as (_ & Hdis & _). apply Forall_app in Hr as [_ Hr].
  apply Forall_cons in Hr as [Hj _].
  assert (j ∉ best) as Hjb by (intros Hin; eapply Hdis; [exact Hin|by left]).
  specialize (Hmax j Hj Hjb).
  rewrite sum_at_app in Hs.
  change (sum_at tokens (j :: ext)) with (tokens !!! j + sum_at tokens ext) in Hs.
  assert (0 <= sum_at tokens ext) by (apply sumZ_nonneg; intros; by apply lookup_total_nonneg).
  lia.
Qed.

Lemma improve_step_maximal candidates tokens values budget best d :
  Forall (Z.le 0) tokens -> length values = length candidates -> all_positive values ->
  valid_selection (length candidates) tokens budget best ->
  maximal_selection (length candidates) tokens budget best ->
  maximal_selection (length candidates) tokens budget
    (improve_step candidates tokens values budget (best, value_at values best) d).1.
Proof.
  intros Ht Hlen Hpos Hv Hmax. unfold improve_step. cbn zeta.
  destruct (is_better_selection _ _ _ _ _) eqn:Hbet; cbn [fst]; [|done].
  destruct (decide (d ∈ best)) as [Hd|Hd].
  2:{ rewrite (filter_neq_id d best Hd) in *.
      by rewrite (refill_maximal_id candidates tokens values budget [d] best Ht Hv Hmax). }
  pose proof (filter_neq_perm d best (vs_nodup _ _ _ _ Hv) Hd) as Hp.
  set (rest := List.filter _ best) in *.
  assert (valid_selection (length candidates) tokens budget rest) as Hvr
    by (by apply filter_neq_valid).
  destruct (greedy_refill_spec candidates tokens values budget [d] rest Hvr)
    as [[Hnd Hr Hs] (ext & He & Hex)].
  destruct (greedy_refill_maximal candidates tokens values budget [d] rest Ht) as [_ Hm].
  assert (sum_at tokens best = tokens !!! d + sum_at tokens rest) as Hsum
    by (by rewrite (sum_at_perm _ _ _ Hp)).
  assert (d < length candidates)%nat as Hdn.
  { pose proof (vs_range _ _ _ _ Hv) as Hall. rewrite Forall_forall in Hall. by apply Hall. }
  rewrite He in *. destruct ext as [|j ext].
  { exfalso. rewrite app_nil_r in *. revert Hbet. unfold is_better_selection.
    assert (f_ltb (value_at values rest) (value_at values best) = true) as Hlt.
    { rewrite (value_at_perm _ _ _ Hp). unfold value_at. cbn. rewrite es_sum_cons.
      apply f_lt_add_l. unfold all_positive in Hpos. rewrite Forall_lookup in Hpos.
      eapply Hpos, list_lookup_lookup_total_lt. lia. }
    by rewrite Hlt, (f_lt_le _ _ Hlt). }
  intros i Hi Hni. destruct (decide (i = d)) as [->|Hne].
  2:{ apply Hm; [done| |done]. by intros ->%list_elem_of_singleton. }
  apply NoDup_app in Hnd as (_ & Hdis & _). apply Forall_app in Hr as [_ Hr].
  apply Forall_cons in Hr as [Hj _].
  assert (j ∉ best) as Hjb.
  { rewrite Hp. intros [->|Hin]%elem_of_cons.
    - apply (Hex d); by left.
    - eapply Hdis; [exact Hin|by left]. }
  specialize (Hmax j Hj Hjb). rewrite sum_at_app.
  change (sum_at tokens (j :: ext)) with (tokens !!! j + sum_at tokens ext).
  assert (0 <= sum_at tokens ext) by (apply sumZ_nonneg; intros; by apply lookup_total_nonneg).
  lia.
Qed.

Lemma improve_fold_maximal candidates tokens values budget l : forall best,
  Forall (Z.le 0) tokens -> length values = length candidates -> all_positive values ->
  valid_selection (length candidates) tokens budget best ->
  maximal_selection (length candidates) tokens budget best ->
  maximal_selection (length candidates) tokens budget
    (foldl (improve_step candidates tokens values budget) (best, value_at values best) l).1.
Proof.
  induction l as [|d l IH]; intros best Ht Hlen Hpos Hv Hmax; cbn [foldl]; [done|].
  pose proof (improve_step_maximal candidates tokens values budget best d Ht Hlen Hpos Hv Hmax)
    as Hmax'.
  pose proof (improve_step_valid candidates tokens values budget
                (best, value_at values best) d Ht Hv) as Hv'.
  destruct (improve_step_value candidates tokens values budget best d) as [Hs _].
  destruct (improve_step _ _ _ _ _ _) as [b bv]; cbn [fst snd] in *. subst bv. by apply IH.
Qed.

Lemma repair_maximal candidates tokens values budget selected :
  0 <= budget -> Forall (Z.le 0) tokens -> length values = length candidates ->
  all_positive values -> NoDup selected ->
  Forall (fun i => (i < length candidates)%nat) selected ->
  maximal_selection (length candidates) tokens budget
    (repair_exact_budget candidates tokens values budget selected).
Proof.
  intros Hb Ht Hlen Hpos Hnd Hr. unfold repair_exact_budget, drop_over_budget.
  pose proof (drop_loop_spec candidates tokens values budget (length candidates)
                (length selected) selected false Hb (le_n _) Hnd Hr) as [Hv _].
  destruct (drop_loop _ _ _ _ _ _ _) as [chosen dropped]; cbn [fst] in *.
  pose proof (proj1 (greedy_refill_spec candidates tokens values budget [] chosen Hv)) as Hv'.
  destruct (greedy_refill_maximal candidates tokens values budget [] chosen Ht) as [_ Hm].
  assert (maximal_selection (length candidates) tokens budget
            (greedy_refill candidates tokens values budget [] chosen)) as Hmax.
  { intros i Hi Hni. apply Hm; [done|apply not_elem_of_nil|done]. }
  case_if; [by apply improve_fold_maximal|done].
Qed.

(** A sub-multiset of a list is a selection of its indices. *)
Lemma submultiset_selection {A : Type} `{Inhabited A} (l sub rest : list A) :
  sub ++ rest ≡ₚ l ->
  exists sel, NoDup sel /\ Forall (fun i => (i < length l)%nat) sel
              /\ (fun i => l !!! i) <$> sel = sub.
Proof.
  intros Hp. rewrite <- (fmap_lookup_seq l) in Hp at 1.
  apply Permutation_map_inv in Hp as (idx & Heq & Hidx).
  exists (take (length sub) idx).
  assert (NoDup idx) as Hnd by (rewrite <- Hidx; apply NoDup_seq).
  assert (Forall (fun i => (i < length l)%nat) idx) as Hr by (rewrite <- Hidx; apply Forall_seq0).
  rewrite <- (take_drop (length sub) idx) in Hnd, Hr.
  apply NoDup_app in Hnd as (Hnd & _ & _). apply Forall_app in Hr as [Hr _].
  split_and!; [done|done|].
  rewrite fmap_take. change ((fun i => l !!! i) <$> idx) with (map (fun i => l !!! i) idx).
  rewrite <- Heq. by rewrite take_app_length.
Qed.

Lemma pack_dp_selected p candidates budget costs :
  Z.of_nat (length candidates) * (Z.max 1 (budget / pk_bucket_size p) + 1)
    <= pk_dp_cell_ceiling p ->
  pack_selected p candidates budget costs =
    (repair_exact_budget candidates (charge p costs <$> candidates)
       (composite_score <$> candidates) budget
       (dp_select ((fun t => bucket_weight t (pk_bucket_size p))
                   <$> (charge p costs <$> candidates))
                  (composite_score <$> candidates)
                  (Z.max 1 (budget / pk_bucket_size p))), path_dp, None).
Proof.
  intros Hc. unfold pack_selected, select_under_budget.
  by replace (_ <? _) with false by lia.
Qed.

(** The candidates a selection leaves out, as a list. *)
Lemma selection_complement n (sel : list nat) :
  NoDup sel -> Forall (fun i => (i < n)%nat) sel ->
  exists out, sel ++ out ≡ₚ seq 0 n /\ (forall i, i ∈ out -> (i < n)%nat /\ i ∉ sel).
Proof.
  intros Hnd Hr.
  assert (sel ⊆+ seq 0 n) as [out Hout]%submseteq_Permutation.
  { apply NoDup_submseteq; [done|]. intros i Hi. apply elem_of_seq0.
    rewrite Forall_forall in Hr. by apply Hr. }
  exists out. split; [by rewrite Hout|]. intros i Hi. split.
  - apply elem_of_seq0. rewrite Hout. apply elem_of_app. by right.
  - assert (NoDup (sel ++ out)) as (_ & Hd & _)%NoDup_app by (rewrite <- Hout; apply NoDup_seq).
    intros Hs. by apply (Hd i).
Qed.

(** When the table fits the cell ceiling and every score is positive,
    every candidate left out of the pack really does not fit in the remaining
    budget. *)
Theorem pack_excludes_only_unfit p scored budget costs :
  supported_policy (pk_policy p) = true -> costs_nonneg costs -> 0 < budget ->
  all_positive (composite_score <$> scored) ->
  Z.of_nat (length scored) * (Z.max 1 (budget / pk_bucket_size p) + 1)
    <= pk_dp_cell_ceiling p ->
  exists r rest, pack p scored budget costs = Ok r /\ path r = path_dp
    /\ memories r ++ rest ≡ₚ scored
    /\ Forall (fun m => budget - total_tokens r < charge p costs m) rest.
Proof.
  intros Hs Hc Hb Hpos Hcells. destruct (decide (scored = [])) as [->|Hne].
  { eexists _, []. split; [reflexivity|]. done. }
  rewrite pack_unfold by done. set (candidates := py_sorted score_ltb scored).
  assert (candidates ≡ₚ scored) as Hp by apply py_sorted_perm.
  pose proof (pack_selected_valid p candidates budget costs Hc Hb) as Hv.
  assert (length candidates = length scored) as Hlc by apply py_sorted_length.
  rewrite pack_dp_selected in * by (rewrite Hlc; done). cbn [fst snd] in *.
  assert (Forall (Z.le 0) (charge p costs <$> candidates)) as Ht.
  { apply Forall_fmap, Forall_forall. intros m _. by apply charge_nonneg. }
  match goal with |- context [dp_select ?w ?v ?b] =>
    destruct (dp_select_range w v b) as [Hnd Hr]; rewrite !length_fmap in Hr;
    pose proof (repair_maximal candidates (charge p costs <$> candidates)
                  (composite_score <$> candidates) budget (dp_select w v b)) as Hmax end.
  set (sel := repair_exact_budget _ _ _ _ _) in *.
  specialize (Hmax ltac:(lia) Ht ltac:(by rewrite length_fmap)
                ltac:(by unfold all_positive; rewrite Hp) Hnd Hr).
  destruct (finalize_spec p costs candidates sel budget path_dp None
              (raw_estimate p <$> candidates) Hv)
    as (r & _ & Hfin & _ & Hmem & Htot & _).
  destruct (selection_complement (length candidates) sel) as (out & Hout & Hin);
    [apply Hv|apply Hv|].
  exists r, ((fun i => candidates !!! i) <$> out).
  assert (total_tokens r = sum_at (charge p costs <$> candidates) sel) as Htot'.
  { rewrite Htot, Hmem, (sumZ_perm _ _ _ (py_sorted_perm _ _)).
    symmetry. apply sum_at_charge, Hv. }
  split_and!; [done| | |].
  - revert Hfin. unfold finalize. case_if; [done|]. by intros [= <-].
  - rewrite Hmem, py_sorted_perm, <- fmap_app, Hout, fmap_lookup_seq. done.
  - apply Forall_fmap, Forall_forall. intros i Hi. cbn. rewrite Htot'.
    destruct (Hin i Hi) as [Hlt Hni]. specialize (Hmax i Hlt Hni).
    assert ((charge p costs <$> candidates) !!! i = charge p costs (candidates !!! i)) as Hi'
      by (by apply list_lookup_total_fmap).
    by rewrite <- Hi'.
Qed.

(** With buckets of one token the pack is optimal: no sub-multiset of the
    candidates whose charges fit the budget has a larger total score. *)
Theorem pack_optimal_unit_bucket p scored budget costs :
  supported_policy (pk_policy p) = true -> costs_nonneg costs -> 0 < budget ->
  pk_bucket_size p = 1 ->
  Forall (fun m => f_le f_zero (composite_score m)) scored ->
  Z.of_nat (length scored) * (budget + 1) <= pk_dp_cell_ceiling p ->
  exists r, pack p scored budget costs = Ok r
    /\ forall sub rest, sub ++ rest ≡ₚ scored -> sumZ (charge p costs) sub <= budget ->
         f_le (f_sum (composite_score <$> sub)) (total_score r).
Proof.
  intros Hs Hc Hb Hunit Hpos Hcells. destruct (decide (scored = [])) as [->|Hne].
  { eexists. split; [reflexivity|]. intros sub rest [-> _]%Permutation_nil_r%app_nil _.
    cbn. rewrite es_sum_nil. apply f_le_refl. }
  rewrite pack_unfold by done. set (candidates := py_sorted score_ltb scored).
  assert (candidates ≡ₚ scored) as Hp by apply py_sorted_perm.
  pose proof (pack_selected_valid p candidates budget costs Hc Hb) as Hv.
  assert (length candidates = length scored) as Hlc by apply py_sorted_length.
  assert (Z.max 1 (budget / pk_bucket_size p) = budget) as Hbk.
  { rewrite Hunit, Z.div_1_r. lia. }
  rewrite pack_dp_selected in * by (rewrite Hlc, Hbk; done). cbn [fst snd] in *.
  rewrite Hbk in *.
  assert (Forall (Z.le 0) (charge p costs <$> candidates)) as Ht.
  { apply Forall_fmap, Forall_forall. intros m _. by apply charge_nonneg. }
  set (tokens := charge p costs <$> candidates) in *.
  assert ((fun t => bucket_weight t (pk_bucket_size p)) <$> tokens = tokens) as Hwt.
  { apply list_eq. intros i. rewrite list_lookup_fmap.
    destruct (tokens !! i) as [t|] eqn:E; cbn; [|done].
    eapply Forall_lookup_1 in Ht; [|exact E]. unfold bucket_weight.
    rewrite Hunit, Z.div_1_r. f_equal. case_if; lia. }
  rewrite Hwt in *.
  assert (length tokens = length candidates) as Hlt by apply length_fmap.
  set (values := composite_score <$> candidates) in *.
  destruct (dp_select_exact tokens values budget) as [Hdv Hopt];
    [by rewrite Hlt; unfold values; rewrite length_fmap|done|lia|].
  set (sel0 := dp_select tokens values budget) in *. rewrite Hlt in Hdv, Hopt.
  pose proof (repair_value candidates tokens values budget sel0
                ltac:(apply length_fmap)) as Hrv.
  set (sel := repair_exact_budget _ _ _ _ _) in *.
  destruct (finalize_spec p costs candidates sel budget path_dp None
              (raw_estimate p <$> candidates) Hv)
    as (r & _ & Hfin & _ & Hmem & _).
  exists r. split; [done|]. intros sub rest Hsub Hfit.
  rewrite <- Hp in Hsub. destruct (submultiset_selection candidates sub rest Hsub)
    as (sel' & Hnd' & Hr' & Hsel').
  assert (forall s, Forall (fun i => (i < length candidates)%nat) s ->
            value_at values s = f_sum (composite_score <$> ((fun i => candidates !!! i) <$> s)))
    as Hval.
  { intros s Hsr. unfold value_at. f_equal. rewrite <- list_fmap_compose.
    apply list_fmap_ext. intros k i Hk. cbn. eapply Forall_lookup_1 in Hsr; [|exact Hk].
    by apply list_lookup_total_fmap. }
  assert (total_score r = value_at values sel) as ->.
  { rewrite Hval by apply Hv. revert Hfin. unfold finalize. case_if; [done|].
    intros [= <-]. cbn. apply f_sum_perm. by rewrite py_sorted_perm. }
  rewrite <- Hsel', <- Hval by done.
  eapply f_le_trans; [apply Hopt|apply Hrv; [|done|lia]].
  - split; [done|done|]. unfold tokens. rewrite sum_at_charge by done. by rewrite Hsel'.
  - unfold values. apply Forall_fmap. by rewrite Hp.
Qed.
End PackOptimal.

(** ** Witnesses *)

Import PackerSample.

(** 0.1, 0.2 and 0.3 as doubles. *)
Definition tenths : list binary64 :=
  [b64_lit 7205759403792794 (-56); b64_lit 7205759403792794 (-55); b64_lit 5404319552844595 (-54)].

Lemma dp_select_optimal_witness :
  dp_select [1; 2; 2] tenths 3 = [0%nat; 2%nat]
  /\ forall sel, valid_selection 3 [1; 2; 2] 3 sel -> ascending sel ->
       SFleb (f_running (v_at tenths <$> sel)) (b64_add (v_at tenths 0) (v_at tenths 2)) = true.
Proof.
  destruct (dp_select_optimal [1; 2; 2] tenths 3 eq_refl ltac:(repeat constructor; lia)
              ltac:(lia) ltac:(repeat constructor)) as (_ & _ & Hopt).
  split; [reflexivity|]. intros sel Hsel Ha. exact (Hopt sel Hsel Ha).
Defined.

(** Rounding is real: beside a score of 1.0, two scores of 2^-53 each are
    absorbed, so the knapsack leaves both out though all three fit. *)
Example dp_select_absorbs :
  dp_select [1; 1; 1] [b64_lit (2 ^ 52) (-52); b64_lit (2 ^ 52) (-105); b64_lit (2 ^ 52) (-105)] 3
  = [0%nat].
Proof. reflexivity. Qed.

Lemma pack_excludes_only_unfit_witness :
  exists r rest, pack (sample_packer 16) stranding 18 None = Ok r
    /\ memories r ++ rest ≡ₚ stranding
    /\ Forall (fun m => 18 - total_tokens r < charge (sample_packer 16) None m) rest.
Proof.
  destruct (pack_excludes_only_unfit (sample_packer 16) stranding 18 None eq_refl I ltac:(lia)
              ltac:(repeat constructor) ltac:(vm_compute; discriminate))
    as (r & rest & Hr & _ & Hm & Hall).
  exists r, rest. auto.
Defined.

Lemma pack_optimal_unit_bucket_witness :
  exists r, pack (sample_packer 1) stranding 18 None = Ok r
    /\ forall sub rest, sub ++ rest ≡ₚ stranding -> sumZ (charge (sample_packer 1) None) sub <= 18 ->
         f_le (f_sum (composite_score <$> sub)) (total_score r).
Proof.
  apply (pack_optimal_unit_bucket (sample_packer 1) stranding 18 None);
    [reflexivity|exact I|lia|reflexivity|repeat constructor|vm_compute; discriminate].
Defined.
