(* ===== verification/AuthBreaker.v ===== *)
(** * AuthService circuit breaker
    ([services/mcp-operator/app/auth_breaker.py], [services/mcp-memory/app/auth_breaker.py])

    The breaker object, one definition per method, and the concurrent system
    around it: calls of [validate] interleave at their [await], so a call is a
    begin step (the reservation), a settle step (what the outcome of the inner
    call does to the breaker) and, for the probe, the release step of the
    [finally] block.  Times are [time.monotonic()] readings in integer ticks.

    The two services differ in one handler: only the operator gateway trips the
    breaker when the probe is cancelled.  The step relation takes that handler
    as a parameter and is instantiated for both. *)

From S2P Require Import Prelude.

Inductive BreakerState := CLOSED | OPEN | HALF_OPEN.

#[global] Instance BreakerState_eq_dec : EqDecision BreakerState.
Proof. solve_decision. Defined.

Record Breaker := {
  failure_threshold : Z;
  cooldown : Z;
  state : BreakerState;
  consecutive_failures : Z;
  opened_at : Z;
  probe_inflight : bool;
}.

Inductive BreakerError := BreakerValueError | AuthUnavailableError.

Definition AUTH_BREAKER_FAILURES : Z := 5.

(** [BreakingTokenValidator.__init__] *)
Definition breaking_token_validator (threshold cooldown_ : Z) : result BreakerError Breaker :=
  if threshold <? 1 then Raise BreakerValueError
  else if cooldown_ <=? 0 then Raise BreakerValueError
  else Ok {| failure_threshold := threshold; cooldown := cooldown_; state := CLOSED;
             consecutive_failures := 0; opened_at := 0; probe_inflight := false |}.

(** [_transition], without the metrics. *)
Definition transition (to : BreakerState) (b : Breaker) : Breaker :=
  {| failure_threshold := failure_threshold b; cooldown := cooldown b; state := to;
     consecutive_failures := consecutive_failures b; opened_at := opened_at b;
     probe_inflight := probe_inflight b |}.

Definition set_failures (n : Z) (b : Breaker) : Breaker :=
  {| failure_threshold := failure_threshold b; cooldown := cooldown b; state := state b;
     consecutive_failures := n; opened_at := opened_at b; probe_inflight := probe_inflight b |}.

Definition set_opened_at (t : Z) (b : Breaker) : Breaker :=
  {| failure_threshold := failure_threshold b; cooldown := cooldown b; state := state b;
     consecutive_failures := consecutive_failures b; opened_at := t;
     probe_inflight := probe_inflight b |}.

Definition set_probe (p : bool) (b : Breaker) : Breaker :=
  {| failure_threshold := failure_threshold b; cooldown := cooldown b; state := state b;
     consecutive_failures := consecutive_failures b; opened_at := opened_at b;
     probe_inflight := p |}.

Definition trip_open (now : Z) (b : Breaker) : Breaker :=
  transition OPEN (set_opened_at now b).

Definition trip_open_if_half_open (now : Z) (b : Breaker) : Breaker :=
  match state b with HALF_OPEN => trip_open now b | _ => b end.

(** [_reserve_or_reject]: [Ok true] when the caller owns the half-open probe. *)
Definition reserve_or_reject (now : Z) (b : Breaker) : result BreakerError (bool * Breaker) :=
  match state b with
  | OPEN =>
      if now - opened_at b <? cooldown b then Raise AuthUnavailableError
      else if probe_inflight b then Raise AuthUnavailableError
      else Ok (true, transition HALF_OPEN (set_probe true b))
  | HALF_OPEN => Raise AuthUnavailableError
  | CLOSED => Ok (false, b)
  end.

Definition on_success (b : Breaker) : Breaker :=
  let b := set_failures 0 b in
  match state b with CLOSED => b | _ => transition CLOSED b end.

Definition on_unavailable (now : Z) (b : Breaker) : Breaker :=
  let b := set_failures (consecutive_failures b + 1) b in
  match state b with
  | HALF_OPEN => trip_open now b
  | CLOSED => if failure_threshold b <=? consecutive_failures b then trip_open now b else b
  | OPEN => b
  end.

Definition record_outcome (now : Z) (success : bool) (b : Breaker) : Breaker :=
  if success then on_success b else on_unavailable now b.

Definition release_probe_reservation (b : Breaker) : Breaker := set_probe false b.

(** How the awaited inner call ends. *)
Inductive InnerOutcome :=
| InnerOk
| InnerAuthFailed
| InnerUnavailable
| InnerException
| InnerCancelled.

(** [_call_inner]: the handlers for everything but cancellation, which is a
    [BaseException] and passes through. *)
Definition call_inner (now : Z) (o : InnerOutcome) (b : Breaker) : Breaker :=
  match o with
  | InnerOk => record_outcome now true b
  | InnerAuthFailed => record_outcome now true b
  | InnerUnavailable => record_outcome now false b
  | InnerException => trip_open_if_half_open now b
  | InnerCancelled => b
  end.

(** [validate] of the operator gateway: [except asyncio.CancelledError]. *)
Definition operator_settle (now : Z) (o : InnerOutcome) (b : Breaker) : Breaker :=
  match o with
  | InnerCancelled => trip_open_if_half_open now b
  | _ => call_inner now o b
  end.

(** [validate] of the memory server: no cancellation handler. *)
Definition memory_settle (now : Z) (o : InnerOutcome) (b : Breaker) : Breaker :=
  call_inner now o b.

(** ** Interleaved calls *)

(** A call that has passed its reservation: awaiting the inner validator, or
    settled with its [finally] block still to run. *)
Inductive Phase := Running | Settled.

Record Call := { is_probe : bool; phase : Phase }.

Record System := {
  breaker : Breaker;
  calls : gmap nat Call;
}.

Section Steps.
Variable settle : Z -> InnerOutcome -> Breaker -> Breaker.

(** One atomic step at monotonic time [now]. *)
Inductive step (now : Z) : System -> System -> Prop :=
| step_begin s i probe b' :
    calls s !! i = None ->
    reserve_or_reject now (breaker s) = Ok (probe, b') ->
    step now s {| breaker := b';
                  calls := <[i := {| is_probe := probe; phase := Running |}]> (calls s) |}
| step_reject s e :
    reserve_or_reject now (breaker s) = Raise e ->
    step now s s
| step_settle s i probe o :
    calls s !! i = Some {| is_probe := probe; phase := Running |} ->
    step now s {| breaker := settle now o (breaker s);
                  calls := <[i := {| is_probe := probe; phase := Settled |}]> (calls s) |}
| step_finish s i probe :
    calls s !! i = Some {| is_probe := probe; phase := Settled |} ->
    step now s {| breaker := if probe then release_probe_reservation (breaker s) else breaker s;
                  calls := delete i (calls s) |}.

(** Reachability along a non-decreasing clock. *)
Inductive reachable (s0 : System) : Z -> System -> Prop :=
| reach_init t : reachable s0 t s0
| reach_step t t' s s' : reachable s0 t s -> t <= t' -> step t' s s' -> reachable s0 t' s'.
End Steps.

Definition initial_system (b : Breaker) : System := {| breaker := b; calls := ∅ |}.

(** ** What a service's handler promises the breaker *)

Definition closed_bounded (b : Breaker) : Prop :=
  state b = CLOSED -> 0 <= consecutive_failures b < failure_threshold b.

Class SettleLaws (settle : Z -> InnerOutcome -> Breaker -> Breaker) : Prop := {
  settle_probe : forall now o b, probe_inflight (settle now o b) = probe_inflight b;
  settle_threshold : forall now o b, failure_threshold (settle now o b) = failure_threshold b;
  settle_cooldown : forall now o b, cooldown (settle now o b) = cooldown b;
  settle_bounded : forall now o b, 1 <= failure_threshold b -> closed_bounded b ->
    closed_bounded (settle now o b);
  (** settling never enters the half-open state *)
  settle_half_open : forall now o b, state (settle now o b) = HALF_OPEN -> state b = HALF_OPEN;
  (** a failure of the inner call opens the breaker at the current time *)
  settle_opened_at : forall now o b, state (settle now o b) = OPEN ->
    opened_at (settle now o b) = now
    \/ state b = OPEN /\ opened_at (settle now o b) = opened_at b;
}.

(** Every outcome of the probe leaves the half-open state. *)
Class SettleDecides (settle : Z -> InnerOutcome -> Breaker -> Breaker) : Prop :=
  settle_decides : forall now o b, state (settle now o b) <> HALF_OPEN.

(** Case analysis on an outcome and a breaker state, unfolding the handlers. *)
Ltac crush_settle :=
  intros now o [th cd st cf oa pi]; unfold closed_bounded; destruct o, st; cbn in *;
  repeat (case_if; bools; cbn in * ); intros; try done; try lia; auto;
  try match goal with H : CLOSED = CLOSED -> _ |- _ => specialize (H eq_refl); lia end.

#[global] Instance operator_laws : SettleLaws operator_settle.
Proof. split; crush_settle. Qed.

#[global] Instance memory_laws : SettleLaws memory_settle.
Proof. split; crush_settle. Qed.

#[global] Instance operator_decides : SettleDecides operator_settle.
Proof. unfold SettleDecides. crush_settle. Qed.

(** ** Invariant of the interleaved system *)

Record system_inv (s : System) : Prop := {
  inv_threshold : 1 <= failure_threshold (breaker s);
  inv_bounded : closed_bounded (breaker s);
  (** the reservation flag is up exactly while a probe call is in flight *)
  inv_flag : probe_inflight (breaker s) = true <->
             exists i c, calls s !! i = Some c /\ is_probe c = true;
  inv_unique : forall i j c d, calls s !! i = Some c -> calls s !! j = Some d ->
    is_probe c = true -> is_probe d = true -> i = j;
}.

Lemma initial_inv threshold cooldown_ b :
  breaking_token_validator threshold cooldown_ = Ok b -> system_inv (initial_system b).
Proof.
  unfold breaking_token_validator. repeat case_if; intros [= <-]; bools.
  split; cbn; [lia|unfold closed_bounded; cbn; lia| |].
  - split; [done|]. intros (i & c & H & _). by rewrite lookup_empty in H.
  - intros i j c d H. by rewrite lookup_empty in H.
Qed.

Lemma reserve_spec now b probe b' : reserve_or_reject now b = Ok (probe, b') ->
  (probe = false /\ b' = b /\ state b = CLOSED)
  \/ (probe = true /\ state b = OPEN /\ probe_inflight b = false
      /\ cooldown b <= now - opened_at b /\ b' = transition HALF_OPEN (set_probe true b)).
Proof.
  unfold reserve_or_reject. destruct (state b) eqn:E; try done.
  - intros [= <- <-]. auto.
  - case_if; [done|]. destruct (probe_inflight b) eqn:Ep; [done|].
    intros [= <- <-]. bools. right. auto.
Qed.

Section Invariant.
Context (settle : Z -> InnerOutcome -> Breaker -> Breaker) `{!SettleLaws settle}.

Lemma begin_inv now s i probe b' : system_inv s -> calls s !! i = None ->
  reserve_or_reject now (breaker s) = Ok (probe, b') ->
  system_inv {| breaker := b';
                calls := <[i := {| is_probe := probe; phase := Running |}]> (calls s) |}.
Proof.
  intros [Ht Hb Hf Hu] Hi Hres.
  destruct (reserve_spec _ _ _ _ Hres) as [(-> & -> & Hst)|(-> & Hst & Hp & _ & ->)].
  - split; cbn; [done|done| |].
    + rewrite Hf. split; intros (j & c & Hj & Hc).
      * exists j, c. rewrite lookup_insert_ne by congruence. auto.
      * destruct (decide (i = j)) as [->|Hne]; simplify_map_eq; eauto.
    + intros j k c d Hj Hk Hc Hd.
      destruct (decide (i = j)) as [<-|], (decide (i = k)) as [<-|]; simplify_map_eq; eauto.
  - assert (forall j c, calls s !! j = Some c -> is_probe c = false) as Hno.
    { intros j c Hj. destruct (is_probe c) eqn:E; [|done].
      rewrite (proj2 Hf) in Hp by eauto. done. }
    split; cbn; [done|unfold closed_bounded; done| |].
    + split; [|done]. intros _. exists i. eexists. rewrite lookup_insert_eq. done.
    + intros j k c d Hj Hk Hc Hd.
      destruct (decide (i = j)) as [<-|], (decide (i = k)) as [<-|]; simplify_map_eq; try done.
      all: exfalso; repeat match goal with H : calls _ !! _ = Some _ |- _ => apply Hno in H end;
        congruence.
Qed.

Lemma settle_inv now s i probe o : system_inv s ->
  calls s !! i = Some {| is_probe := probe; phase := Running |} ->
  system_inv {| breaker := settle now o (breaker s);
                calls := <[i := {| is_probe := probe; phase := Settled |}]> (calls s) |}.
Proof.
  intros [Ht Hb Hf Hu] Hi. split; cbn.
  - by rewrite settle_threshold.
  - by apply settle_bounded.
  - rewrite settle_probe, Hf. split; intros (j & c & Hj & Hc).
    + destruct (decide (i = j)) as [->|Hne]; simplify_map_eq.
      * exists j. eexists. by rewrite lookup_insert_eq.
      * exists j, c. by rewrite lookup_insert_ne.
    + destruct (decide (i = j)) as [->|Hne]; simplify_map_eq; eauto.
  - intros j k c d Hj Hk Hc Hd.
    destruct (decide (i = j)) as [<-|], (decide (i = k)) as [<-|]; simplify_map_eq; eauto.
Qed.

Lemma finish_inv s i probe : system_inv s ->
  calls s !! i = Some {| is_probe := probe; phase := Settled |} ->
  system_inv {| breaker := if probe then release_probe_reservation (breaker s) else breaker s;
                calls := delete i (calls s) |}.
Proof.
  intros [Ht Hb Hf Hu] Hi. destruct probe; split; cbn; try done.
  - split; [done|]. intros (j & c & Hj & Hc).
    destruct (decide (i = j)) as [->|Hne]; simplify_map_eq.
    destruct Hne. by eapply (Hu i j).
  - intros j k c d Hj Hk. apply lookup_delete_Some in Hj as [_ Hj], Hk as [_ Hk]. eauto.
  - rewrite Hf. split; intros (j & c & Hj & Hc).
    + exists j, c. split; [|done]. apply lookup_delete_Some. split; [|done].
      intros ->. rewrite Hi in Hj. by injection Hj as <-.
    + apply lookup_delete_Some in Hj as [_ Hj]. eauto.
  - intros j k c d Hj Hk. apply lookup_delete_Some in Hj as [_ Hj], Hk as [_ Hk]. eauto.
Qed.

Lemma step_inv now s s' : system_inv s -> step settle now s s' -> system_inv s'.
Proof.
  intros Hinv Hs. destruct Hs; eauto using begin_inv, settle_inv, finish_inv.
Qed.

Lemma reachable_inv s0 t s : system_inv s0 -> reachable settle s0 t s -> system_inv s.
Proof. induction 2; eauto using step_inv. Qed.
End Invariant.

(** ** Theorems *)

(** C33: under every interleaving of calls, in both services, at most one
    half-open probe is in flight, and the reservation flag is up exactly while
    it is. *)
Theorem single_probe_in_flight threshold cooldown_ b t s :
  breaking_token_validator threshold cooldown_ = Ok b ->
  reachable operator_settle (initial_system b) t s
  \/ reachable memory_settle (initial_system b) t s ->
  (forall i j c d, calls s !! i = Some c -> calls s !! j = Some d ->
     is_probe c = true -> is_probe d = true -> i = j)
  /\ (probe_inflight (breaker s) = true <->
      exists i c, calls s !! i = Some c /\ is_probe c = true).
Proof.
  intros Hb%initial_inv Hr.
  assert (system_inv s) as [_ _ Hf Hu]; [|done].
  destruct Hr as [Hr|Hr]; eapply reachable_inv; try done; apply _.
Qed.

(** A half-open breaker has its probe still running. *)
Definition half_open_probed (s : System) : Prop :=
  state (breaker s) = HALF_OPEN ->
  exists i, calls s !! i = Some {| is_probe := true; phase := Running |}.

Lemma half_open_probed_step settle `{!SettleLaws settle, !SettleDecides settle} now s s' :
  half_open_probed s -> step settle now s s' -> half_open_probed s'.
Proof.
  intros Hp Hs. unfold half_open_probed in *. destruct Hs as [s i probe b' Hi Hres|s e Hres|
    s i probe o Hi|s i probe Hi]; cbn.
  - destruct (reserve_spec _ _ _ _ Hres) as [(-> & -> & Hst)|(-> & _)]; [congruence|].
    intros _. exists i. apply lookup_insert_eq.
  - done.
  - intros Hst. by destruct (settle_decides now o (breaker s)).
  - intros Hst. assert (state (breaker s) = HALF_OPEN) as Hst' by (by destruct probe).
    destruct (Hp Hst') as [j Hj]. exists j. rewrite lookup_delete_ne; [done|].
    intros ->. rewrite Hi in Hj. done.
Qed.

Lemma operator_half_open_probed b t s :
  state b = CLOSED -> reachable operator_settle (initial_system b) t s -> half_open_probed s.
Proof.
  intros Hb. induction 1 as [t|t t' s s' Hr IH Hle Hs].
  - unfold half_open_probed. cbn. congruence.
  - eauto using half_open_probed_step, operator_laws, operator_decides.
Qed.

(** The operator gateway's breaker always recovers: in every reachable
    state with no call in flight, once the cooldown has passed the next call is
    admitted, whatever mix of results, failures, exceptions and cancellations
    came before. *)
Theorem operator_breaker_recovers threshold cooldown_ b t s now :
  breaking_token_validator threshold cooldown_ = Ok b ->
  reachable operator_settle (initial_system b) t s -> calls s = ∅ ->
  opened_at (breaker s) + cooldown (breaker s) <= now ->
  exists probe b', reserve_or_reject now (breaker s) = Ok (probe, b').
Proof.
  intros Hb Hr Hc Hnow.
  assert (state b = CLOSED) as Hst.
  { revert Hb. unfold breaking_token_validator. repeat case_if; by intros [= <-]. }
  pose proof (operator_half_open_probed b t s Hst Hr) as Hp.
  assert (system_inv s) as [_ _ Hf _] 
    by exact (reachable_inv operator_settle _ t s (initial_inv _ _ _ Hb) Hr).
  unfold reserve_or_reject. destruct (state (breaker s)) eqn:E.
  - eauto.
  - replace (now - opened_at (breaker s) <? cooldown (breaker s)) with false by lia.
    destruct (probe_inflight (breaker s)) eqn:Ep; [|eauto].
    destruct (proj1 Hf eq_refl) as (i & c & Hi & _). by rewrite Hc, lookup_empty in Hi.
  - destruct (Hp E) as [i Hi]. by rewrite Hc, lookup_empty in Hi.
Qed.

(** A half-open breaker with nothing in flight. *)
Definition wedged (s : System) : Prop := state (breaker s) = HALF_OPEN /\ calls s = ∅.

Lemma wedged_step settle now s s' : wedged s -> step settle now s s' -> s' = s.
Proof.
  intros [Hst Hc] Hs. destruct Hs as [s i probe b' Hi Hres|s e Hres|s i probe o Hi|s i probe Hi].
  - unfold reserve_or_reject in Hres. by rewrite Hst in Hres.
  - done.
  - by rewrite Hc, lookup_empty in Hi.
  - by rewrite Hc, lookup_empty in Hi.
Qed.

Lemma wedged_forever settle s t s' : wedged s -> reachable settle s t s' -> s' = s.
Proof.
  intros Hw. induction 1 as [|t t' s1 s2 Hr IH Hle Hs]; [done|]. subst s1. by eapply wedged_step.
Qed.

(** One call of a closed breaker that ends with [AuthUnavailableError]. *)
Lemma failed_call settle s0 t b :
  reachable settle s0 t {| breaker := b; calls := ∅ |} -> state b = CLOSED ->
  reachable settle s0 t {| breaker := settle t InnerUnavailable b; calls := ∅ |}.
Proof.
  intros Hr Hst.
  eapply (reach_step _ _ t t); [|lia|].
  - eapply (reach_step _ _ t t); [|lia|].
    + eapply (reach_step _ _ t t); [exact Hr|lia|].
      eapply (step_begin _ _ _ 0%nat false); cbn; [done|].
      unfold reserve_or_reject. by rewrite Hst.
    + apply (step_settle _ _ _ 0%nat false InnerUnavailable). apply lookup_insert_eq.
  - match goal with |- step _ _ ?s ?s' =>
      replace s' with {| breaker := breaker s; calls := delete 0%nat (calls s) |} end.
    + apply (step_finish _ _ _ 0%nat false). cbn. apply lookup_insert_eq.
    + done.
Qed.

(** A failure of a closed breaker below the threshold only counts. *)
Lemma memory_fail_closed now b : state b = CLOSED ->
  consecutive_failures b + 1 < failure_threshold b ->
  memory_settle now InnerUnavailable b = set_failures (consecutive_failures b + 1) b.
Proof.
  intros Hst Hlt. unfold memory_settle, call_inner, record_outcome, on_unavailable. cbn.
  rewrite Hst. cbn. by replace (_ <=? _) with false by lia.
Qed.

(** The threshold-th consecutive failure opens it. *)
Lemma memory_fail_opens now b : state b = CLOSED ->
  failure_threshold b <= consecutive_failures b + 1 ->
  memory_settle now InnerUnavailable b
  = trip_open now (set_failures (consecutive_failures b + 1) b).
Proof.
  intros Hst Hlt. unfold memory_settle, call_inner, record_outcome, on_unavailable. cbn.
  rewrite Hst. cbn. by replace (_ <=? _) with true by lia.
Qed.

(** Failing calls drive a closed breaker open. *)
Lemma memory_opens s0 (n : nat) : forall b t,
  reachable memory_settle s0 t {| breaker := b; calls := ∅ |} -> state b = CLOSED ->
  failure_threshold b - consecutive_failures b <= Z.of_nat (S n) ->
  exists b', reachable memory_settle s0 t {| breaker := b'; calls := ∅ |}
    /\ state b' = OPEN /\ opened_at b' = t /\ cooldown b' = cooldown b
    /\ probe_inflight b' = probe_inflight b.
Proof.
  induction n as [|n IH]; intros b t Hr Hst Hn.
  - eexists. split; [by apply failed_call|]. rewrite memory_fail_opens by (done || lia). done.
  - destruct (decide (consecutive_failures b + 1 < failure_threshold b)) as [Hlt|Hge].
    + pose proof (failed_call _ _ _ _ Hr Hst) as Hr'. rewrite memory_fail_closed in Hr' by done.
      apply IH in Hr'; [exact Hr'|done|cbn; lia].
    + eexists. split; [by apply failed_call|]. rewrite memory_fail_opens by (done || lia). done.
Qed.

(** A probe that is cancelled leaves the memory server's breaker half-open. *)
Lemma memory_cancelled_probe s0 t b :
  reachable memory_settle s0 t {| breaker := b; calls := ∅ |} ->
  state b = OPEN -> opened_at b = t -> 0 < cooldown b -> probe_inflight b = false ->
  exists t' s, reachable memory_settle s0 t' s /\ wedged s.
Proof.
  intros Hr Hst Ho Hc Hp. set (t' := t + cooldown b).
  eexists t', _. split.
  - eapply (reach_step _ _ t' t'); [|lia|].
    + eapply (reach_step _ _ t' t'); [|lia|].
      * eapply (reach_step _ _ t t'); [exact Hr|lia|].
        eapply (step_begin _ _ _ 0%nat true); cbn; [done|].
        unfold reserve_or_reject. rewrite Hst, Hp.
        by replace (_ <? _) with false by lia.
      * apply (step_settle _ _ _ 0%nat true InnerCancelled). apply lookup_insert_eq.
    + apply (step_finish _ _ _ 0%nat true). cbn. apply lookup_insert_eq.
  - split; done.
Qed.

(** In the memory server a cancelled half-open probe wedges the breaker:
    a state is reachable from every valid configuration in which, whatever
    happens later, every call is rejected at every time. *)
Theorem memory_breaker_wedges threshold cooldown_ b :
  breaking_token_validator threshold cooldown_ = Ok b ->
  exists t s, reachable memory_settle (initial_system b) t s
    /\ forall t' s', reachable memory_settle s t' s' ->
         forall now, reserve_or_reject now (breaker s') = Raise AuthUnavailableError.
Proof.
  unfold breaking_token_validator. repeat case_if; intros [= <-]; bools.
  set (b := Build_Breaker _ _ _ _ _ _).
  destruct (memory_opens (initial_system b) (Z.to_nat threshold) b 0) as (b' & Hr & Hst & Ho & Hc & Hp).
  { apply reach_init. }
  { done. }
  { cbn. lia. }
  destruct (memory_cancelled_probe _ _ _ Hr Hst Ho) as (t & s & Hr' & Hw).
  { rewrite Hc. cbn. lia. }
  { by rewrite Hp. }
  exists t, s. split; [done|]. intros t' s' Hs' now. apply wedged_forever in Hs'; [|done]. subst s'.
  destruct Hw as [Hh _]. unfold reserve_or_reject. by rewrite Hh.
Qed.

(** [AuthUnavailableError] outcomes of successive calls, at the given times. *)
Definition failures (times : list Z) (b : Breaker) : Breaker :=
  foldl (fun b now => operator_settle now InnerUnavailable b) b times.

Lemma failures_open times : forall b, state b = OPEN -> state (failures times b) = OPEN.
Proof.
  induction times as [|t times IH]; intros b Hb; cbn [failures foldl]; [done|].
  apply IH. destruct b as [th cd st cf oa pi]; cbn in *. by subst st.
Qed.

Lemma failures_closed times : forall b, state b = CLOSED ->
  consecutive_failures b < failure_threshold b ->
  state (failures times b)
  = if failure_threshold b <=? consecutive_failures b + Z.of_nat (length times)
    then OPEN else CLOSED.
Proof.
  induction times as [|t times IH]; intros b Hb Hf; cbn [failures foldl length].
  { by rewrite (proj2 (Z.leb_gt _ _)) by lia. }
  fold (failures times (operator_settle t InnerUnavailable b)).
  unfold operator_settle, call_inner, record_outcome, on_unavailable. cbn -[Z.of_nat].
  rewrite Hb. cbn -[Z.of_nat].
  destruct (failure_threshold b <=? consecutive_failures b + 1) eqn:E; bools.
  - rewrite failures_open by done. by rewrite (proj2 (Z.leb_le _ _)) by lia.
  - rewrite IH by (cbn; lia || done). cbn -[Z.of_nat].
    replace (consecutive_failures b + 1 + Z.of_nat (length times))
      with (consecutive_failures b + Z.of_nat (S (length times))) by lia.
    done.
Qed.

(** A fresh breaker opens on exactly the [failure_threshold]-th
    consecutive [AuthUnavailableError]: not before, and it stays open. *)
Theorem opens_at_threshold threshold cooldown_ b times :
  breaking_token_validator threshold cooldown_ = Ok b ->
  state (failures times b)
  = if threshold <=? Z.of_nat (length times) then OPEN else CLOSED.
Proof.
  unfold breaking_token_validator.
  destruct (threshold <? 1) eqn:E1; [done|]. destruct (cooldown_ <=? 0) eqn:E2; [done|].
  intros [= <-]; bools. by rewrite failures_closed by (cbn; lia || done).
Qed.

(** ** Witnesses *)

Module BreakerSample.

Definition sample_breaker : Breaker :=
  {| failure_threshold := 2; cooldown := 30; state := CLOSED; consecutive_failures := 0;
     opened_at := 0; probe_inflight := false |}.

(** Two failures, then the cooldown: the open breaker admits a probe at 40. *)
Definition opened_system : System :=
  {| breaker := operator_settle 10 InnerUnavailable (operator_settle 10 InnerUnavailable sample_breaker);
     calls := ∅ |}.

Lemma opened_reachable : reachable operator_settle (initial_system sample_breaker) 10 opened_system.
Proof.
  apply failed_call; [|reflexivity]. apply failed_call; [|reflexivity]. apply reach_init.
Qed.

(** The probe of the open breaker, in flight. *)
Definition probing_system : System :=
  {| breaker := set_probe true (transition HALF_OPEN (breaker opened_system));
     calls := <[O := {| is_probe := true; phase := Running |}]> ∅ |}.

Lemma probing_reachable : reachable operator_settle (initial_system sample_breaker) 40 probing_system.
Proof.
  eapply reach_step; [exact opened_reachable|lia|].
  apply (step_begin operator_settle 40 opened_system O true); [done|vm_compute; reflexivity].
Qed.

Lemma single_probe_in_flight_witness :
  calls probing_system !! O = Some {| is_probe := true; phase := Running |} /\
  probe_inflight (breaker probing_system) = true.
Proof.
  destruct (single_probe_in_flight 2 30 sample_breaker 40 probing_system eq_refl
              (or_introl probing_reachable)) as [_ H].
  split; [reflexivity|]. apply H. exists O, {| is_probe := true; phase := Running |}.
  split; reflexivity.
Defined.

Lemma operator_breaker_recovers_witness :
  state (breaker opened_system) = OPEN
  /\ exists probe b', reserve_or_reject 40 (breaker opened_system) = Ok (probe, b').
Proof.
  split; [reflexivity|].
  apply (operator_breaker_recovers 2 30 sample_breaker 10 opened_system 40 eq_refl
           opened_reachable eq_refl).
  vm_compute. discriminate.
Defined.

Lemma memory_breaker_wedges_witness :
  exists t s, reachable memory_settle (initial_system sample_breaker) t s
    /\ forall t' s', reachable memory_settle s t' s' ->
         forall now, reserve_or_reject now (breaker s') = Raise AuthUnavailableError.
Proof. apply (memory_breaker_wedges 2 30). reflexivity. Defined.

Lemma opens_at_threshold_witness : state (failures [1; 2] sample_breaker) = OPEN.
Proof. apply (opens_at_threshold 2 30 sample_breaker [1; 2]). reflexivity. Defined.

End BreakerSample.
