(* ===== verification/RateLimit.v ===== *)
(** * Calendar-minute rate limiting
    ([packages/mcp_runtime/src/mcp_runtime/ratelimit.py])

    The limiter, the Redis keys it owns and the Lua script it runs.  Redis is a
    store of counters with expiry times; [INCR] creates a missing or expired
    key at 1 and keeps the expiry of a live one, [EXPIRE] sets it.  Times are
    whole seconds; the service's clock and Redis's clock are separate
    arguments. *)

From stdpp Require Import pretty.
From S2P Require Import Prelude.

Definition KEY_TTL_SECONDS : Z := 90.

(** [str(org_id)]: the canonical text of a UUID. *)
Definition UUID : Type := string.

Record RateLimitResult := {
  allowed : bool;
  limit : Z;
  remaining : Z;
  reset_unix : Z;
}.

#[global] Instance RateLimitResult_eq_dec : EqDecision RateLimitResult.
Proof. solve_decision. Defined.

(** [f"ratelimit:{org_id}:{scope}:{minute}"] *)
Definition redis_key (scope : string) (org_id : UUID) (unix_minute : Z) : string :=
  "ratelimit:" +:+ org_id +:+ ":" +:+ scope +:+ ":" +:+ pretty unix_minute.

Record RateLimitMetrics := { errors : Z; rejected : Z }.

Record Limiter := {
  key_scope : string;
  default_rpm : Z;
  org_overrides : gmap UUID Z;
  fail_closed : bool;
}.

(** [RedisCalendarMinuteRateLimiter.__init__]: the default is at least 1. *)
Definition redis_limiter (scope : string) (rpm : Z) (overrides : option (gmap UUID Z))
    (fail_closed_ : bool) : Limiter :=
  {| key_scope := scope; default_rpm := Z.max 1 rpm;
     org_overrides := match overrides with Some m => m | None => ∅ end;
     fail_closed := fail_closed_ |}.

Definition effective_limit (l : Limiter) (org_id : UUID) : Z :=
  match org_overrides l !! org_id with
  | Some o => if 0 <? o then o else default_rpm l
  | None => default_rpm l
  end.

(** ** Redis *)

Record Counter := { count : Z; expires_at : option Z }.

Abbreviation Redis := (gmap string Counter).

Definition live (now : Z) (c : Counter) : bool :=
  match expires_at c with Some e => now <? e | None => true end.

(** [INCR key] *)
Definition redis_incr (now : Z) (key : string) (r : Redis) : Z * Redis :=
  match r !! key with
  | Some c => if live now c
              then (count c + 1, <[key := {| count := count c + 1; expires_at := expires_at c |}]> r)
              else (1, <[key := {| count := 1; expires_at := None |}]> r)
  | None => (1, <[key := {| count := 1; expires_at := None |}]> r)
  end.

(** [EXPIRE key ttl] *)
Definition redis_expire (now : Z) (key : string) (ttl : Z) (r : Redis) : Redis :=
  match r !! key with
  | Some c => if live now c
              then <[key := {| count := count c; expires_at := Some (now + ttl) |}]> r else r
  | None => r
  end.

(** [INCR_EXPIRE_LUA], run atomically by Redis. *)
Definition incr_expire (now : Z) (key : string) (ttl : Z) (r : Redis) : Z * Redis :=
  let '(n, r) := redis_incr now key r in
  if n =? 1 then (n, redis_expire now key ttl r) else (n, r).

(** ** [check] *)

(** The configured [unavailable_error]. *)
Inductive RateLimitError := RateLimitUnavailable.

(** One call: [redis_up] says whether the script call reaches Redis or raises
    [OSError]/[RedisError]. *)
Definition check (l : Limiter) (org_id : UUID) (now redis_now : Z) (redis_up : bool)
    (r : Redis) (m : RateLimitMetrics)
    : result RateLimitError RateLimitResult * Redis * RateLimitMetrics :=
  let limit_ := effective_limit l org_id in
  let unix_minute := now / 60 in
  let reset := (unix_minute + 1) * 60 in
  let key := redis_key (key_scope l) org_id unix_minute in
  if redis_up then
    let '(n, r) := incr_expire redis_now key KEY_TTL_SECONDS r in
    if limit_ <? n then
      (Ok {| allowed := false; limit := limit_; remaining := 0; reset_unix := reset |}, r,
       {| errors := errors m; rejected := rejected m + 1 |})
    else
      (Ok {| allowed := true; limit := limit_; remaining := Z.max 0 (limit_ - n);
             reset_unix := reset |}, r, m)
  else
    let m := {| errors := errors m + 1; rejected := rejected m |} in
    if fail_closed l then (Raise RateLimitUnavailable, r, m)
    else (Ok {| allowed := true; limit := limit_; remaining := limit_; reset_unix := reset |}, r, m).

(** [NoopRateLimiter.check] *)
Definition noop_check (rpm now : Z) : RateLimitResult :=
  let rpm := Z.max 1 rpm in
  {| allowed := true; limit := rpm; remaining := rpm; reset_unix := (now / 60 + 1) * 60 |}.

(** A call as the limiter sees it. *)
Record Request := { rq_org : UUID; rq_now : Z; rq_redis_now : Z }.

(** Calls in the order Redis serves them, with their outcomes. *)
Fixpoint check_all (l : Limiter) (reqs : list Request) (r : Redis) (m : RateLimitMetrics)
    : list (Request * result RateLimitError RateLimitResult) :=
  match reqs with
  | [] => []
  | q :: reqs =>
      let '(o, r, m) := check l (rq_org q) (rq_now q) (rq_redis_now q) true r m in
      (q, o) :: check_all l reqs r m
  end.

Definition in_window (org : UUID) (minute : Z) (q : Request) : bool :=
  (String.eqb (rq_org q) org && (rq_now q / 60 =? minute))%bool.

Definition admitted (org : UUID) (minute : Z)
    (x : Request * result RateLimitError RateLimitResult) : bool :=
  (in_window org minute x.1
   && match x.2 with Ok res => allowed res | Raise _ => false end)%bool.

Definition countb {A : Type} (p : A -> bool) (l : list A) : Z := sumZ (fun x => if p x then 1 else 0) l.

(** ** Keys *)

Lemma append_cancel (s t u v : string) :
  String.length s = String.length t -> s +:+ u = t +:+ v -> s = t /\ u = v.
Proof.
  revert t. induction s as [|c s IH]; intros [|d t] Hl Heq; try done.
  cbn in *. injection Heq as -> Heq. destruct (IH t) as [-> ->]; [lia|done|done].
Qed.

Lemma append_inj_l (s u v : string) : s +:+ u = s +:+ v -> u = v.
Proof. intros [_ H]%append_cancel; done. Qed.

(** Tenants with canonical (equally long) ids never share a key, and one
    tenant's minutes never share one. *)
Lemma redis_key_inj scope org org' minute minute' :
  String.length org = String.length org' ->
  redis_key scope org minute = redis_key scope org' minute' -> org = org' /\ minute = minute'.
Proof.
  intros Hl H%append_inj_l. apply append_cancel in H as [-> H]; [|done]. split; [done|].
  do 3 apply append_inj_l in H. by apply (inj pretty) in H.
Qed.

(** ** One call *)

Lemma incr_expire_fresh now key ttl r : r !! key = None ->
  incr_expire now key ttl r = (1, <[key := {| count := 1; expires_at := Some (now + ttl) |}]> r).
Proof.
  intros Hr. unfold incr_expire, redis_incr, redis_expire. rewrite Hr. cbn.
  rewrite lookup_insert_eq. cbn. by rewrite insert_insert_eq.
Qed.

Lemma incr_expire_live now key ttl r n e : r !! key = Some {| count := n; expires_at := Some e |} ->
  now < e -> 1 <= n ->
  incr_expire now key ttl r = (n + 1, <[key := {| count := n + 1; expires_at := Some e |}]> r).
Proof.
  intros Hr He Hn. unfold incr_expire, redis_incr. rewrite Hr. unfold live. cbn.
  rewrite (proj2 (Z.ltb_lt _ _)) by lia. cbn. by rewrite (proj2 (Z.eqb_neq _ _)) by lia.
Qed.

Lemma incr_expire_other now key key' ttl r : key <> key' ->
  (incr_expire now key ttl r).2 !! key' = r !! key'.
Proof.
  intros Hne. unfold incr_expire, redis_incr, redis_expire.
  destruct (r !! key) as [c|] eqn:E; repeat case_match; simplify_eq; cbn;
    by simplify_map_eq.
Qed.

Lemma check_up l org now rnow r m :
  let n := (incr_expire rnow (redis_key (key_scope l) org (now / 60)) KEY_TTL_SECONDS r).1 in
  exists res,
    (check l org now rnow true r m).1 =
      (Ok res, (incr_expire rnow (redis_key (key_scope l) org (now / 60)) KEY_TTL_SECONDS r).2)
    /\ allowed res = (n <=? effective_limit l org).
Proof.
  unfold check. destruct (incr_expire _ _ _ _) as [n r']; cbn.
  destruct (effective_limit l org <? n) eqn:E; bools; eexists; (split; [reflexivity|]); cbn; symmetry.
  - by apply Z.leb_gt.
  - by apply Z.leb_le.
Qed.

Lemma check_other l org now rnow up r m key :
  key <> redis_key (key_scope l) org (now / 60) ->
  (check l org now rnow up r m).1.2 !! key = r !! key.
Proof.
  intros Hne. destruct up.
  - destruct (check_up l org now rnow r m) as (res & Hc & _). rewrite Hc. cbn.
    by apply incr_expire_other.
  - unfold check. by destruct (fail_closed l).
Qed.

Lemma effective_limit_pos scope rpm overrides fc org :
  1 <= effective_limit (redis_limiter scope rpm overrides fc) org.
Proof.
  unfold effective_limit, redis_limiter. cbn. repeat case_match; bools; lia.
Qed.

(** ** The window *)

Section Window.
Context (l : Limiter) (org : UUID) (minute t0 : Z).
Implicit Types (r : Redis) (reqs : list Request).

Local Definition key : string := redis_key (key_scope l) org minute.

(** Redis after [n] calls of the window: no key, or one that counts the calls
    and outlives the window. *)
Definition counted (n : Z) (r : Redis) : Prop :=
  (n = 0 /\ r !! key = None) \/
  (1 <= n /\ exists e, t0 + KEY_TTL_SECONDS <= e /\
                       r !! key = Some {| count := n; expires_at := Some e |}).

(** A tenant with a canonical id; a call of the window reaches Redis while
    the window's key is live. *)
Definition timely (q : Request) : Prop :=
  String.length (rq_org q) = String.length org /\
  (in_window org minute q = true -> t0 <= rq_redis_now q < t0 + KEY_TTL_SECONDS).

Lemma in_window_true q : in_window org minute q = true <->
  rq_org q = org /\ rq_now q / 60 = minute.
Proof.
  unfold in_window. rewrite andb_true_iff, String.eqb_eq, Z.eqb_eq. done.
Qed.

Lemma counted_incr n r rnow : counted n r -> t0 <= rnow < t0 + KEY_TTL_SECONDS ->
  (incr_expire rnow key KEY_TTL_SECONDS r).1 = n + 1 /\
  counted (n + 1) (incr_expire rnow key KEY_TTL_SECONDS r).2.
Proof.
  intros [[-> Hr]|(Hn & e & He & Hr)] Ht.
  - rewrite incr_expire_fresh by done. split; [done|]. right. split; [lia|].
    eexists. split; [|cbn; by rewrite lookup_insert_eq]. lia.
  - rewrite (incr_expire_live _ _ _ _ n e) by (done || lia). split; [done|]. right.
    split; [lia|]. exists e. split; [done|]. cbn. by rewrite lookup_insert_eq.
Qed.

Lemma check_all_counted n reqs r m :
  counted n r -> 0 <= n -> Forall timely reqs ->
  countb (admitted org minute) (check_all l reqs r m) =
  Z.min (countb (in_window org minute) reqs) (Z.max 0 (effective_limit l org - n)).
Proof.
  revert n r m. induction reqs as [|q reqs IH]; intros n r m Hr Hn Hq; [cbn; lia|].
  apply Forall_cons in Hq as [[Hlen Hwin] Hq].
  cbn [check_all].
  destruct (check_up l (rq_org q) (rq_now q) (rq_redis_now q) r m) as (res & Hc & Hres).
  destruct (check l (rq_org q) (rq_now q) (rq_redis_now q) true r m) as [[o r'] m'] eqn:E.
  cbn in Hc. injection Hc as -> ->.
  unfold countb in *. rewrite !sumZ_cons. unfold admitted at 1. cbn [fst snd].
  assert (0 <= sumZ (fun x => if in_window org minute x then 1 else 0) reqs).
  { apply sumZ_nonneg. intros x _. destruct (in_window org minute x); lia. }
  destruct (in_window org minute q) eqn:Hin; cbn [andb].
  - specialize (Hwin eq_refl). apply in_window_true in Hin as [Ho Hm].
    rewrite Ho, Hm in *. fold key in Hres |- *.
    destruct (counted_incr n r (rq_redis_now q) Hr Hwin) as [Hn1 Hr1].
    rewrite (IH (n + 1)) by (done || lia). rewrite Hres, Hn1.
    destruct (n + 1 <=? effective_limit l org) eqn:Hle; bools; lia.
  - rewrite (IH n); [lia| |done|done].
    assert (key <> redis_key (key_scope l) (rq_org q) (rq_now q / 60)) as Hne.
    { intros Heq. apply redis_key_inj in Heq as [Ho Hm]; [|done].
      rewrite (proj2 (in_window_true q)) in Hin by done. done. }
    unfold counted. rewrite incr_expire_other by done. exact Hr.
Qed.
End Window.

(** C34: In any interleaving of calls by any tenants whose ids have the
    canonical length, if Redis starts without the key of a tenant's calendar
    minute and serves that window's calls within 90 seconds, the limiter admits
    exactly the smaller of the number of calls and the tenant's limit: never
    more than the limit, and never fewer than it allows. *)
Theorem window_admits_exactly_limit (scope : string) (rpm : Z) (overrides : option (gmap UUID Z))
    (fc : bool) (org : UUID) (minute t0 : Z) (reqs : list Request) (r : Redis) (m : RateLimitMetrics) :
  r !! redis_key scope org minute = None ->
  Forall (timely org minute t0) reqs ->
  let l := redis_limiter scope rpm overrides fc in
  countb (admitted org minute) (check_all l reqs r m) =
  Z.min (countb (in_window org minute) reqs) (effective_limit l org).
Proof.
  intros Hr Hq l. pose proof (effective_limit_pos scope rpm overrides fc org).
  rewrite (check_all_counted l org minute t0 0) by (try done; by left). subst l. lia.
Qed.

(** The answer of one call on every branch.  When Redis answers with the
    counter value [n], the call is allowed iff [n] is within the tenant's
    limit, a rejected call counts one rejection, and [remaining] is what is
    left; when Redis cannot be reached, Redis is unchanged, one error is
    counted, and the call raises under [fail_closed] and is allowed with the
    full limit otherwise; the reset time is the start of the next minute,
    after [now] and at most 60 seconds away. *)
Theorem check_outcome (l : Limiter) (org : UUID) (now rnow : Z) (up : bool) (r : Redis)
    (m : RateLimitMetrics) :
  let n := (incr_expire rnow (redis_key (key_scope l) org (now / 60)) KEY_TTL_SECONDS r).1 in
  let lim := effective_limit l org in
  match check l org now rnow up r m with
  | (Raise _, r', m') =>
      up = false /\ fail_closed l = true /\ r' = r /\
      errors m' = errors m + 1 /\ rejected m' = rejected m
  | (Ok res, r', m') =>
      now < reset_unix res <= now + 60 /\ limit res = lim /\
      (up = false -> fail_closed l = false /\ r' = r /\ allowed res = true /\ remaining res = lim /\
                     errors m' = errors m + 1) /\
      (up = true -> (allowed res = true <-> n <= lim) /\ remaining res = Z.max 0 (lim - n) /\
                    errors m' = errors m /\
                    rejected m' = rejected m + (if allowed res then 0 else 1))
  end.
Proof.
  pose proof (Z.div_mod now 60 ltac:(lia)). pose proof (Z.mod_pos_bound now 60 ltac:(lia)).
  unfold check. destruct up.
  - destruct (incr_expire _ _ _ _) as [n r']. cbn.
    destruct (effective_limit l org <? n) eqn:E; bools; cbn;
      (split; [lia|]); repeat split; intros; try done; lia.
  - destruct (fail_closed l) eqn:E; cbn; repeat split; intros; try done; lia.
Qed.

(** A call of one tenant, whatever its outcome, leaves every counter of
    every other tenant untouched (ids of the canonical length). *)
Theorem check_tenant_isolation (l : Limiter) (org org' : UUID) (now rnow minute : Z) (up : bool)
    (r : Redis) (m : RateLimitMetrics) :
  org <> org' -> String.length org = String.length org' ->
  (check l org now rnow up r m).1.2 !! redis_key (key_scope l) org' minute =
  r !! redis_key (key_scope l) org' minute.
Proof.
  intros Hne Hlen. apply check_other. intros Heq.
  apply redis_key_inj in Heq as [-> _]; done.
Qed.

Module RateLimitSample.
Definition a : UUID := "org-a".
Definition b : UUID := "org-b".
Definition call (o : UUID) (t : Z) : Request := {| rq_org := o; rq_now := t; rq_redis_now := t |}.
Definition reqs : list Request := [call a 120; call b 121; call a 130; call a 179; call a 180].
Definition m0 : RateLimitMetrics := {| errors := 0; rejected := 0 |}.

Lemma window_admits_exactly_limit_witness :
  countb (admitted a 2) (check_all (redis_limiter "mcp" 2 None true) reqs ∅ m0) = 2.
Proof.
  rewrite (window_admits_exactly_limit "mcp" 2 None true a 2 120 reqs ∅ m0).
  - reflexivity.
  - apply lookup_empty.
  - unfold reqs, timely, in_window, KEY_TTL_SECONDS.
    repeat (apply Forall_cons; split; [cbn; split; [reflexivity|intros; try discriminate; lia]|]).
    apply Forall_nil. exact I.
Defined.

Lemma check_tenant_isolation_witness :
  (check (redis_limiter "mcp" 2 None true) a 120 120 true ∅ m0).1.2 !! redis_key "mcp" b 2 = None.
Proof.
  rewrite (check_tenant_isolation (redis_limiter "mcp" 2 None true) a b 120 120 2 true ∅ m0).
  - apply lookup_empty.
  - discriminate.
  - reflexivity.
Defined.

(** The override of a tenant wins when it is positive. *)
Example override_limits :
  effective_limit (redis_limiter "mcp" 60 (Some {[ a := 5; b := 0 ]}) true) a = 5 /\
  effective_limit (redis_limiter "mcp" 60 (Some {[ a := 5; b := 0 ]}) true) b = 60.
Proof. split; vm_compute; reflexivity. Qed.
End RateLimitSample.
