(* ===== verification/Idempotency.v ===== *)
(** * The request-idempotency ledger
    ([packages/ibex_idempotency/src/ibex_idempotency/ledger.py], [sessions.py])

    The table [ibex_core.idempotency_ledger] is a map from its unique key
    (organization, agent, dedupe key) to rows.  Each operation is one
    transaction of [service_org_session]: an exception inside it rolls it back.
    [claim] issues two statements, and other transactions may commit between
    them: it takes the table its INSERT sees and the table its SELECT sees.
    Times are microseconds; PostgreSQL's [NOW()] and the service's clock are
    separate arguments. *)

From S2P Require Import Prelude.

(** Canonical text of a UUID. *)
Definition UUID : Type := string.

(** [state], with the values the table's CHECK allows. *)
Inductive LedgerState := Claimed | Finalized | Reconciling | FailedTerminal.

#[global] Instance LedgerState_eq_dec : EqDecision LedgerState.
Proof. solve_decision. Defined.

Record Row := {
  row_id : UUID;
  row_hash : string;
  row_state : LedgerState;
  status_code : option Z;
  response_payload : option string;
  lease_expires_at : option Z;
  row_version : Z;
}.

Abbreviation Table := (gmap (UUID * UUID * string) Row).

Inductive LedgerError :=
| InvalidClaim                 (* "invalid idempotency claim" *)
| LedgerValidationError        (* a foreign key names an unknown row *)
| RejectedClaim                (* another integrity violation *)
| RowDisappeared
| UnsupportedState (s : LedgerState)
| Unavailable                  (* [_unavailable_error] *)
| NotReady                     (* "idempotency ledger is not ready" *)
| NullFieldTypeError           (* [int(None)] or [bytes(None)] *)
| LedgerConflictError.         (* "claim is no longer owned" *)

#[global] Instance LedgerError_eq_dec : EqDecision LedgerError.
Proof. solve_decision. Defined.

Record ClaimToken := {
  claim_id : UUID;
  org_id : UUID;
  agent_id : UUID;
  key : string;
  request_hash : string;
  version : Z;
}.

#[global] Instance ClaimToken_eq_dec : EqDecision ClaimToken.
Proof. solve_decision. Defined.

(** [ClaimOutcome]: its [kind] with the fields that kind carries. *)
Inductive ClaimOutcome :=
| Owned (claim : ClaimToken)
| Replay (claim : ClaimToken) (status : Z) (response : string)
| Conflict (claim : ClaimToken)
| InProgress (claim : ClaimToken) (retry_after : Z).

(** The arguments of [claim]. *)
Record ClaimRequest := {
  rq_org : UUID;
  rq_agent : UUID;
  rq_key : string;
  rq_hash : string;
}.

Definition rq_index (q : ClaimRequest) : UUID * UUID * string := (rq_org q, rq_agent q, rq_key q).
Definition tok_index (c : ClaimToken) : UUID * UUID * string := (org_id c, agent_id c, key c).

(** What a call reads from outside: [NOW()], [time.time()] and
    [gen_random_uuid()]. *)
Record Env := { db_now : Z; py_now : Z; new_id : UUID }.

(** A driver failure: the statement never took effect, or the connection was
    lost while the commit went through. *)
Inductive Fault := NoFault | RolledBack | CommitLost.

(** The transaction scope: an exception rolls back to [t]; driver failures
    surface as [_unavailable_error]. *)
Definition org_session {A : Type} (f : Fault) (t : Table) (body : result LedgerError A * Table)
    : result LedgerError A * Table :=
  match f, body with
  | RolledBack, _ => (Raise Unavailable, t)
  | _, (Raise e, _) => (Raise e, t)
  | NoFault, (Ok a, t') => (Ok a, t')
  | CommitLost, (Ok _, t') => (Raise Unavailable, t')
  end.

Definition second : Z := 1000000.

(** [max(1.0, lease_seconds)], in microseconds. *)
Definition lease_interval (lease_us : Z) : Z := Z.max second lease_us.

Definition LEDGER_LEASE : Z := 120 * second.

(** [_validate_claim] *)
Definition validate_claim (k h : string) : result LedgerError unit :=
  if ((String.length k =? 0)%nat || (256 <? String.length k)%nat)%bool then Raise InvalidClaim
  else if (String.length h =? 0)%nat then Raise InvalidClaim
  else Ok tt.

(** [CHECK (request_hash ~ '^[0-9a-f]{64}$')] *)
Definition is_hex (c : ascii) : bool :=
  let n := Z.of_nat (nat_of_ascii c) in
  ((48 <=? n) && (n <=? 57) || (97 <=? n) && (n <=? 102))%bool.

Definition hash_ok (h : string) : bool :=
  ((String.length h =? 64)%nat && forallb is_hex (list_ascii_of_string h))%bool.

(** [_claim_from_row] *)
Definition claim_from_row (row : Row) (q : ClaimRequest) : ClaimToken :=
  {| claim_id := row_id row; org_id := rq_org q; agent_id := rq_agent q; key := rq_key q;
     request_hash := row_hash row; version := row_version row |}.

(** The row [INSERT] creates. *)
Definition claimed_row (lease : Z) (q : ClaimRequest) (env : Env) : Row :=
  {| row_id := new_id env; row_hash := rq_hash q; row_state := Claimed;
     status_code := None; response_payload := None;
     lease_expires_at := Some (db_now env + lease); row_version := 1 |}.

(** The UPDATE of [_reclaim]: the new version, when a row matched. *)
Definition reclaim_sql (lease : Z) (q : ClaimRequest) (env : Env) (row_id_ : UUID) (t : Table)
    : option Z * Table :=
  match t !! rq_index q with
  | Some r =>
      if (bool_decide (row_id r = row_id_) && bool_decide (row_hash r = rq_hash q)
          && bool_decide (row_state r = Claimed)
          && match lease_expires_at r with Some e => e <=? db_now env | None => false end)%bool
      then (Some (row_version r + 1),
            <[rq_index q := {| row_id := row_id r; row_hash := row_hash r; row_state := row_state r;
                               status_code := status_code r; response_payload := response_payload r;
                               lease_expires_at := Some (db_now env + lease);
                               row_version := row_version r + 1 |}]> t)
      else (None, t)
  | None => (None, t)
  end.

Definition reclaim (lease : Z) (q : ClaimRequest) (env : Env) (row : Row) (claim : ClaimToken)
    (t : Table) : result LedgerError ClaimOutcome * Table :=
  match reclaim_sql lease q env (row_id row) t with
  | (None, t) => (Ok (InProgress claim 1), t)
  | (Some v, t) =>
      (Ok (Owned {| claim_id := claim_id claim; org_id := org_id claim; agent_id := agent_id claim;
                    key := key claim; request_hash := request_hash claim; version := v |}), t)
  end.

(** [_resolve_existing_row] *)
Definition resolve_existing_row (lease : Z) (q : ClaimRequest) (env : Env) (row : Row)
    (claim : ClaimToken) (t : Table) : result LedgerError ClaimOutcome * Table :=
  match row_state row, lease_expires_at row with
  | Finalized, _ =>
      match status_code row, response_payload row with
      | Some st, Some resp => (Ok (Replay claim st resp), t)
      | _, _ => (Raise NullFieldTypeError, t)
      end
  | Claimed, Some expires =>
      let remaining := expires - py_now env in
      if 0 <? remaining
      then (Ok (InProgress claim (Z.max 1 (remaining / second + 1))), t)
      else reclaim lease q env row claim t
  | s, _ => (Raise (UnsupportedState s), t)
  end.

(** [_resolve_row] *)
Definition resolve_row (lease : Z) (q : ClaimRequest) (env : Env) (row : Row) (fresh : bool)
    (t : Table) : result LedgerError ClaimOutcome * Table :=
  let claim := claim_from_row row q in
  if negb (String.eqb (row_hash row) (rq_hash q)) then (Ok (Conflict claim), t)
  else if fresh then (Ok (Owned claim), t)
  else resolve_existing_row lease q env row claim t.

(** [_insert_or_load]: the INSERT runs on [t0]; when the key is taken, the
    SELECT FOR UPDATE runs on [t].  The third component is the table the
    transaction has built.  [known] is the agents table (the foreign keys). *)
Definition insert_or_load (known : UUID -> UUID -> bool) (lease : Z) (q : ClaimRequest) (env : Env)
    (t0 t : Table) : result LedgerError (option Row * bool * Table) :=
  if negb (hash_ok (rq_hash q)) then Raise RejectedClaim
  else match t0 !! rq_index q with
  | None =>
      if known (rq_org q) (rq_agent q)
      then Ok (Some (claimed_row lease q env), true, <[rq_index q := claimed_row lease q env]> t0)
      else Raise LedgerValidationError
  | Some _ => Ok (t !! rq_index q, false, t)
  end.

(** [PostgresIdempotencyLedger.claim] *)
Definition claim (known : UUID -> UUID -> bool) (lease_us : Z) (q : ClaimRequest) (env : Env)
    (f : Fault) (t0 t : Table) : result LedgerError ClaimOutcome * Table :=
  match validate_claim (rq_key q) (rq_hash q) with
  | Raise e => (Raise e, t)
  | Ok _ =>
      let lease := lease_interval lease_us in
      org_session f t
        match insert_or_load known lease q env t0 t with
        | Raise e => (Raise e, t)
        | Ok (None, _, t) => (Raise RowDisappeared, t)
        | Ok (Some row, fresh, t) => resolve_row lease q env row fresh t
        end
  end.

(** The fence of [_FINALIZE_CLAIM_SQL] and [_RELEASE_CLAIM_SQL]. *)
Definition fence (c : ClaimToken) (r : Row) : bool :=
  (bool_decide (row_id r = claim_id c) && bool_decide (row_hash r = request_hash c)
   && (row_version r =? version c) && bool_decide (row_state r = Claimed))%bool.

(** The finalized row: [status_code] is an INTEGER column. *)
Definition finalized_row (status : Z) (response : string) (r : Row) : Row :=
  {| row_id := row_id r; row_hash := row_hash r; row_state := Finalized;
     status_code := Some status; response_payload := Some response;
     lease_expires_at := None; row_version := row_version r + 1 |}.

(** A statement's row count and the table after it. *)
Definition finalize_sql (c : ClaimToken) (status : Z) (response : string) (t : Table) : Z * Table :=
  match t !! tok_index c with
  | Some r => if fence c r then (1, <[tok_index c := finalized_row status response r]> t) else (0, t)
  | None => (0, t)
  end.

Definition release_sql (c : ClaimToken) (t : Table) : Z * Table :=
  match t !! tok_index c with
  | Some r => if fence c r then (1, delete (tok_index c) t) else (0, t)
  | None => (0, t)
  end.

(** [_mutate_claim] *)
Definition mutate_claim (f : Fault) (statement : Table -> Z * Table) (t : Table)
    : result LedgerError unit * Table :=
  org_session f t
    (let '(rowcount, t') := statement t in
     if rowcount =? 1 then (Ok tt, t') else (Raise LedgerConflictError, t')).

Definition int32 (z : Z) : bool := ((- 2 ^ 31 <=? z) && (z <? 2 ^ 31))%bool.

(** [finalize]: a status outside INTEGER is a driver error. *)
Definition finalize (c : ClaimToken) (status : Z) (response : string) (f : Fault) (t : Table)
    : result LedgerError unit * Table :=
  if int32 status then mutate_claim f (finalize_sql c status response) t
  else (Raise Unavailable, t).

Definition release (c : ClaimToken) (f : Fault) (t : Table) : result LedgerError unit * Table :=
  mutate_claim f (release_sql c) t.

(** [ping]: the probe's five answers, when it can be read. *)
Definition ping (probe : option (list bool)) : result LedgerError unit :=
  match probe with
  | Some vs => if forallb id vs then Ok tt else Raise NotReady
  | None => Raise Unavailable
  end.

(** ** Histories

    Transactions in commit order.  A claim whose INSERT met a taken key may
    load the row later: its two statements see the tables [t0] and [t].
    Generated ids never repeat. *)

Record World := { table : Table; used : gset UUID }.

Inductive Event :=
| EvClaim (q : ClaimRequest) (o : result LedgerError ClaimOutcome)
| EvFinalize (c : ClaimToken) (status : Z) (response : string) (o : result LedgerError unit)
| EvRelease (c : ClaimToken) (o : result LedgerError unit).

Section Histories.
Context (known : UUID -> UUID -> bool) (lease_us : Z).

Inductive step : World -> Event -> World -> Prop :=
| step_claim w q env f t0 o t' :
    t0 = table w \/ is_Some (t0 !! rq_index q) ->
    new_id env ∉ used w ->
    claim known lease_us q env f t0 (table w) = (o, t') ->
    step w (EvClaim q o) {| table := t'; used := used w ∪ {[new_id env]} |}
| step_finalize w c status response f o t' :
    finalize c status response f (table w) = (o, t') ->
    step w (EvFinalize c status response o) {| table := t'; used := used w |}
| step_release w c f o t' :
    release c f (table w) = (o, t') ->
    step w (EvRelease c o) {| table := t'; used := used w |}.

(** The events of a history, latest first. *)
Inductive history (w0 : World) : list Event -> World -> Prop :=
| history_nil : history w0 [] w0
| history_snoc evs w e w' : history w0 evs w -> step w e w' -> history w0 (e :: evs) w'.
End Histories.

Definition empty_world : World := {| table := ∅; used := ∅ |}.

(** The tokens handed out as owned. *)
Definition owned_token (e : Event) : option ClaimToken :=
  match e with EvClaim _ (Ok (Owned c)) => Some c | _ => None end.

Definition token_stamp (c : ClaimToken) : UUID * Z := (claim_id c, version c).

Definition owned_stamps (evs : list Event) : list (UUID * Z) :=
  token_stamp <$> omap owned_token evs.

(** ** What one transaction does to the table *)

Implicit Types (t : Table) (q : ClaimRequest) (env : Env) (c : ClaimToken) (r : Row) (f : Fault).

Lemma org_session_spec {A : Type} f t t' (body : result LedgerError A * Table) o :
  org_session f t body = (o, t') ->
  (t' = t /\ (o = Raise Unavailable \/ exists e, body.1 = Raise e /\ o = Raise e)) \/
  (exists a, body = (Ok a, t') /\ (o = Ok a \/ o = Raise Unavailable)).
Proof. destruct f, body as [[a|e] b]; cbn; intros [= <- <-]; eauto 10. Qed.

(** The row a claim resolved to and what became of it. *)
Inductive claim_effect (lease : Z) (q : ClaimRequest) (env : Env) (t t' : Table) : ClaimOutcome -> Prop :=
| effect_fresh : t !! rq_index q = None ->
    t' = <[rq_index q := claimed_row lease q env]> t ->
    claim_effect lease q env t t' (Owned (claim_from_row (claimed_row lease q env) q))
| effect_reclaimed r e : t !! rq_index q = Some r -> row_hash r = rq_hash q ->
    row_state r = Claimed -> lease_expires_at r = Some e -> e <= py_now env -> e <= db_now env ->
    t' = <[rq_index q := {| row_id := row_id r; row_hash := row_hash r; row_state := row_state r;
                            status_code := status_code r; response_payload := response_payload r;
                            lease_expires_at := Some (db_now env + lease);
                            row_version := row_version r + 1 |}]> t ->
    claim_effect lease q env t t'
      (Owned {| claim_id := row_id r; org_id := rq_org q; agent_id := rq_agent q; key := rq_key q;
                request_hash := row_hash r; version := row_version r + 1 |})
| effect_replay r st resp : t !! rq_index q = Some r -> row_hash r = rq_hash q ->
    row_state r = Finalized -> status_code r = Some st -> response_payload r = Some resp ->
    t' = t -> claim_effect lease q env t t' (Replay (claim_from_row r q) st resp)
| effect_conflict r : t !! rq_index q = Some r -> row_hash r <> rq_hash q -> t' = t ->
    claim_effect lease q env t t' (Conflict (claim_from_row r q))
| effect_in_progress r e n : t !! rq_index q = Some r -> row_hash r = rq_hash q ->
    row_state r = Claimed -> lease_expires_at r = Some e ->
    (py_now env < e /\ n = Z.max 1 ((e - py_now env) / second + 1)) \/
    (e <= py_now env /\ db_now env < e /\ n = 1) ->
    t' = t -> claim_effect lease q env t t' (InProgress (claim_from_row r q) n).

Lemma resolve_existing_spec lease q env t t' r o :
  t !! rq_index q = Some r -> row_hash r = rq_hash q ->
  resolve_existing_row lease q env r (claim_from_row r q) t = (Ok o, t') ->
  claim_effect lease q env t t' o.
Proof.
  intros Hr Hh. unfold resolve_existing_row, reclaim, reclaim_sql. rewrite Hr.
  destruct (row_state r) eqn:Hs, (lease_expires_at r) as [e|] eqn:He; try done;
    try (destruct (status_code r) eqn:?, (response_payload r) eqn:?; intros [= <- <-];
         by econstructor).
  destruct (0 <? e - py_now env) eqn:Hrem; bools.
  { intros [= <- <-]. eapply effect_in_progress; eauto. left. split; [lia|done]. }
  rewrite !bool_decide_eq_true_2 by done. cbn.
  destruct (e <=? db_now env) eqn:Hdb; bools; intros [= <- <-].
  - eapply effect_reclaimed; eauto; [lia|]. by rewrite Hs.
  - eapply effect_in_progress; eauto. right. split; [lia|done].
Qed.

Lemma claim_spec known lease_us q env f t0 t t' o :
  t0 = t \/ is_Some (t0 !! rq_index q) ->
  claim known lease_us q env f t0 t = (o, t') ->
  t' = t /\ (exists e, o = Raise e) \/
  exists out, claim_effect (lease_interval lease_us) q env t t' out /\
    (o = Ok out \/ o = Raise Unavailable).
Proof.
  intros Ht0 Hc. unfold claim in Hc.
  destruct (validate_claim _ _); [|left; injection Hc as <- <-; eauto].
  apply org_session_spec in Hc as [[-> [->|(e & _ & ->)]]|(out & Hb & Ho)]; [left; eauto..|].
  right. exists out. split; [|done]. unfold insert_or_load in Hb.
  destruct (negb (hash_ok _)); [done|].
  destruct (t0 !! rq_index q) as [r0|] eqn:Hr0.
  - destruct (t !! rq_index q) as [r|] eqn:Hr; [|done]. unfold resolve_row in Hb.
    destruct (negb _) eqn:Hh; bools.
    + injection Hb as <- <-. by eapply effect_conflict.
    + by eapply resolve_existing_spec.
  - destruct Ht0 as [->|[? ?]]; [|congruence].
    destruct (known _ _); [|done]. unfold resolve_row in Hb.
    cbn [row_hash claimed_row] in Hb. rewrite String.eqb_refl in Hb. cbn in Hb.
    injection Hb as <- <-. by eapply effect_fresh.
Qed.

Lemma mutate_claim_spec f stmt t t' o :
  mutate_claim f stmt t = (o, t') ->
  t' = t /\ (exists e, o = Raise e) \/ stmt t = (1, t') /\ (o = Ok tt \/ o = Raise Unavailable).
Proof.
  unfold mutate_claim. destruct (stmt t) as [n t2] eqn:E. intros H.
  apply org_session_spec in H as [[-> H]|([] & H & Ho)].
  - left. split; [done|]. naive_solver.
  - destruct (n =? 1) eqn:?; [|done]. bools. subst. injection H as ->. by right.
Qed.

Lemma ledger_finalize_spec c status response f t t' o :
  finalize c status response f t = (o, t') ->
  t' = t /\ (exists e, o = Raise e) \/
  exists r, t !! tok_index c = Some r /\ fence c r = true /\
    t' = <[tok_index c := finalized_row status response r]> t /\ (o = Ok tt \/ o = Raise Unavailable).
Proof.
  unfold finalize. destruct (int32 status); [|intros [= <- <-]; left; eauto].
  intros H. apply mutate_claim_spec in H as [H|[Hs Ho]]; [by left|]. right. unfold finalize_sql in Hs.
  destruct (t !! tok_index c) as [r|]; [|done]. destruct (fence c r) eqn:?; [|done].
  injection Hs as <-. eauto.
Qed.

Lemma release_spec c f t t' o :
  release c f t = (o, t') ->
  t' = t /\ (exists e, o = Raise e) \/
  exists r, t !! tok_index c = Some r /\ fence c r = true /\
    t' = delete (tok_index c) t /\ (o = Ok tt \/ o = Raise Unavailable).
Proof.
  intros H. apply mutate_claim_spec in H as [H|[Hs Ho]]; [by left|]. right. unfold release_sql in Hs.
  destruct (t !! tok_index c) as [r|]; [|done]. destruct (fence c r) eqn:?; [|done].
  injection Hs as <-. eauto.
Qed.

Lemma token_fence_true c r : fence c r = true ->
  row_id r = claim_id c /\ row_hash r = request_hash c /\ row_version r = version c /\
  row_state r = Claimed.
Proof. unfold fence. intros H. bools. done. Qed.

(** A token the fence rejects settles nothing. *)
Lemma fence_false_rejects c t :
  (forall r, t !! tok_index c = Some r -> fence c r = false) ->
  (forall status response, int32 status = true ->
     finalize c status response NoFault t = (Raise LedgerConflictError, t)) /\
  release c NoFault t = (Raise LedgerConflictError, t).
Proof.
  intros H. split.
  - intros status response Hst. unfold finalize, mutate_claim, finalize_sql. rewrite Hst.
    destruct (t !! tok_index c) as [r|]; [rewrite (H r) by done|]; done.
  - unfold release, mutate_claim, release_sql.
    destruct (t !! tok_index c) as [r|]; [rewrite (H r) by done|]; done.
Qed.

(** ** The table invariant *)

Definition row_ok (r : Row) : Prop :=
  1 <= row_version r /\
  (row_state r = Claimed /\ is_Some (lease_expires_at r) \/
   row_state r = Finalized /\ is_Some (status_code r) /\ is_Some (response_payload r)).

(** The ways a transaction changes the table, [i] being the id it generated. *)
Inductive change (i : option UUID) (t : Table) : Table -> Prop :=
| change_none : change i t t
| change_new k r : t !! k = None -> i = Some (row_id r) -> row_ok r -> change i t (<[k := r]> t)
| change_row k r r' : t !! k = Some r -> row_state r = Claimed -> row_id r' = row_id r ->
    row_hash r' = row_hash r -> row_version r' = row_version r + 1 -> (row_ok r -> row_ok r') ->
    change i t (<[k := r']> t)
| change_delete k r : t !! k = Some r -> row_state r = Claimed -> change i t (delete k t).

Lemma row_ok_settled status response r : row_ok r -> row_ok (finalized_row status response r).
Proof. intros [? _]. split; cbn; [lia|]. right. eauto. Qed.

Lemma claim_effect_change lease q env t t' o : claim_effect lease q env t t' o ->
  change (Some (new_id env)) t t'.
Proof.
  destruct 1 as [Hn ->|r e Hr Hh Hs He _ _ ->|? ? ? ? ? ? ? ? ->|? ? ? ->|? ? ? ? ? ? ? ? ->];
    try apply change_none.
  - apply change_new; [done|done|]. split; [done|]. left. cbn. eauto.
  - eapply change_row; try done. intros [? _]. split; cbn; [lia|]. left. rewrite Hs. eauto.
Qed.

Lemma step_change known lease_us w e w' : step known lease_us w e w' ->
  exists i, change i (table w) (table w') /\
    used w' = used w ∪ list_to_set (option_list i) /\ (forall u, i = Some u -> u ∉ used w).
Proof.
  destruct 1 as [w q env f t0 o t' Ht0 Hid Hc|w c st resp f o t' Hf|w c f o t' Hr]; cbn.
  - exists (Some (new_id env)). split; [|split; [set_solver|by intros ? [= <-]]].
    apply claim_spec in Hc as [[-> _]|(out & He & _)]; [apply change_none| |done].
    by eapply claim_effect_change.
  - exists None. split; [|split; [set_solver|done]].
    apply ledger_finalize_spec in Hf as [[-> _]|(r & Hr & Hfe & -> & _)]; [apply change_none|].
    apply token_fence_true in Hfe as (_ & _ & _ & Hst).
    eapply change_row; try done. apply row_ok_settled.
  - exists None. split; [|split; [set_solver|done]].
    apply release_spec in Hr as [[-> _]|(r & Hr & Hfe & -> & _)]; [apply change_none|].
    apply token_fence_true in Hfe as (_ & _ & _ & Hst). by eapply change_delete.
Qed.

(** Rows are well formed, their ids were generated and are unique, and no
    issued stamp is ahead of its row. *)
Record world_inv (evs : list Event) (w : World) : Prop := {
  inv_rows : forall k r, table w !! k = Some r -> row_ok r /\ row_id r ∈ used w;
  inv_ids : forall k k' r r', table w !! k = Some r -> table w !! k' = Some r' ->
    row_id r = row_id r' -> k = k';
  inv_stamps : forall s, s ∈ owned_stamps evs -> s.1 ∈ used w /\
    forall k r, table w !! k = Some r -> row_id r = s.1 -> s.2 <= row_version r;
  inv_sorted : StronglySorted (fun a b : UUID * Z => a.1 = b.1 -> b.2 < a.2) (owned_stamps evs);
}.

Lemma empty_inv : world_inv [] empty_world.
Proof. split; cbn; try done; [intros s Hs; by apply elem_of_nil in Hs|constructor]. Qed.

(** What a change leaves of the rows: the old one at the key, not older, or a
    fresh id. *)
Lemma change_origin i t t' k r' : change i t t' -> t' !! k = Some r' ->
  (exists r, t !! k = Some r /\ row_id r = row_id r' /\ row_version r <= row_version r' /\
             (row_ok r -> row_ok r')) \/
  (i = Some (row_id r') /\ row_ok r' /\ t !! k = None /\ t' = <[k := r']> t).
Proof.
  intros Hc Hk. destruct Hc as [|k0 r0 Hn Hi Hok|k0 r0 r1 Hr Hs Hid Hh Hv Hok|k0 r0 Hr Hs].
  - left. eauto 10 with lia.
  - destruct (decide (k = k0)) as [->|Hne].
    + rewrite lookup_insert_eq in Hk. injection Hk as ->. by right.
    + rewrite lookup_insert_ne in Hk by done. left. eauto 10 with lia.
  - left. destruct (decide (k = k0)) as [->|Hne].
    + rewrite lookup_insert_eq in Hk. injection Hk as ->.
      exists r0. repeat split; [done|done|lia|by apply Hok|by apply Hok].
    + rewrite lookup_insert_ne in Hk by done. eauto 10 with lia.
  - left. apply lookup_delete_Some in Hk as [_ Hk]. eauto 10 with lia.
Qed.

(** The rows and stamps part survives any change with a fresh id. *)
Lemma change_inv i t t' evs w w' : change i t t' -> world_inv evs w -> table w = t ->
  table w' = t' -> used w' = used w ∪ list_to_set (option_list i) ->
  (forall u, i = Some u -> u ∉ used w) -> world_inv evs w'.
Proof.
  intros Hc [Hrows Hids Hst Hso] <- <- Hu Hi.
  assert (forall k r, table w' !! k = Some r -> i = Some (row_id r) -> forall k2 r2,
            table w !! k2 = Some r2 -> row_id r2 <> row_id r) as Hfresh.
  { intros k r Hk Hir k2 r2 Hk2 Heq. apply (Hi (row_id r)); [done|]. rewrite <- Heq.
    by eapply Hrows. }
  split; [| | |done].
  - intros k r' Hk. rewrite Hu.
    destruct (change_origin _ _ _ _ _ Hc Hk) as [(r & Hr & Hid & _ & Hok)|(-> & Hok & _)].
    + destruct (Hrows k r Hr). rewrite <- Hid. split; [auto|set_solver].
    + split; [done|set_solver].
  - intros k k' r r' Hk Hk' Heq.
    destruct (change_origin _ _ _ _ _ Hc Hk) as [(r0 & Hr0 & Hid & _)|(Hir & _ & _ & Ht)];
    destruct (change_origin _ _ _ _ _ Hc Hk') as [(r0' & Hr0' & Hid' & _)|(Hir' & _ & _ & Ht')].
    + eapply Hids; [done|done|congruence].
    + exfalso. by eapply (Hfresh k' r' Hk' Hir' k r0); [|congruence].
    + exfalso. by eapply (Hfresh k r Hk Hir k' r0'); [|congruence].
    + destruct (decide (k = k')) as [|Hne]; [done|]. exfalso.
      rewrite Ht, lookup_insert_ne in Hk' by done.
      by eapply (Hfresh k r Hk Hir k' r').
  - intros s Hs. destruct (Hst s Hs) as [Hin Hle]. split; [rewrite Hu; set_solver|].
    intros k r' Hk Hid.
    destruct (change_origin _ _ _ _ _ Hc Hk) as [(r & Hr & Hrid & Hv & _)|(Hir & _)].
    + pose proof (Hle k r Hr ltac:(congruence)). lia.
    + exfalso. by apply (Hi (row_id r')); [|rewrite Hid].
Qed.

(** A new owned stamp is ahead of every stamp of its row issued before. *)
Lemma owned_step_inv known lease_us w q o w' evs :
  step known lease_us w (EvClaim q o) w' -> world_inv evs w -> world_inv evs w' ->
  world_inv (EvClaim q o :: evs) w'.
Proof.
  intros Hstep Hw Hw'.
  destruct (owned_token (EvClaim q o)) as [c|] eqn:Ho.
  2:{ destruct Hw'. split; unfold owned_stamps in *; cbn [omap list_omap]; by rewrite ?Ho. }
  destruct o as [[c'| | |]|]; try done. injection Ho as ->.
  inversion Hstep as [? ? env f t0 ? t' Ht0 Hid Hc| |]; subst.
  apply claim_spec in Hc as [[_ [? ?]]|(out & He & [[= <-]|?])]; [done| |done|done].
  assert (exists r, t' !! rq_index q = Some r /\ row_id r = claim_id c /\ row_version r = version c /\
    forall s, s ∈ owned_stamps evs -> s.1 = claim_id c -> s.2 < version c) as (r & Hr & Hrid & Hrv & Hlt).
  { inversion He as [Hn ->|r e Hr Hh Hs Hle _ _ ->| | |]; subst; cbn.
    - eexists. rewrite lookup_insert_eq. split; [done|]. split; [done|]. split; [done|].
      intros s Hs Heq. destruct Hid. rewrite <- Heq. by apply (inv_stamps _ _ Hw).
    - eexists. rewrite lookup_insert_eq. split; [done|]. split; [done|]. split; [done|].
      intros s Hin Heq. destruct (inv_stamps _ _ Hw s Hin) as [_ Hv].
      pose proof (Hv _ r Hr ltac:(done)). lia. }
  destruct Hw' as [Hrows Hids Hst Hso]. split; [done|done| |].
  - intros s Hs. change (owned_stamps _) with (token_stamp c :: owned_stamps evs) in Hs.
    apply elem_of_cons in Hs as [->|Hs]; [|by apply Hst]. cbn. split.
    + rewrite <- Hrid. by eapply Hrows.
    + intros k r' Hk Heq.
      assert (k = rq_index q) as -> by (eapply (Hids k (rq_index q) r' r); [done|done|congruence]).
      change (t' !! rq_index q = Some r') in Hk. rewrite Hr in Hk. injection Hk as <-. lia.
  - change (owned_stamps _) with (token_stamp c :: owned_stamps evs). constructor; [done|].
    apply Forall_forall. intros s Hs Heq. cbn in *. by apply Hlt.
Qed.

Lemma history_inv known lease_us evs w :
  history known lease_us empty_world evs w -> world_inv evs w.
Proof.
  induction 1 as [|evs w e w' Hh IH Hs]; [apply empty_inv|].
  destruct (step_change _ _ _ _ _ Hs) as (i & Hc & Hu & Hi).
  assert (world_inv evs w') as Hw' by (by eapply change_inv).
  destruct e; [by eapply owned_step_inv| |]; destruct Hw'; by split.
Qed.

(** ** Properties *)

(** A row in a terminal state is never touched again. *)
Lemma terminal_row_stable known lease_us w evs w' k r :
  history known lease_us w evs w' -> table w !! k = Some r -> row_state r <> Claimed ->
  table w' !! k = Some r.
Proof.
  induction 1 as [|evs w1 e w2 Hh IH Hs]; intros Hr Hst; [done|].
  specialize (IH Hr Hst). destruct (step_change _ _ _ _ _ Hs) as (i & Hc & _).
  destruct Hc as [|k0 r0 Hn _ _|k0 r0 r1 Hr0 Hs0 _ _ _ _|k0 r0 Hr0 Hs0]; [done|..];
    destruct (decide (k = k0)) as [->|Hne]; try congruence;
    by rewrite ?lookup_insert_ne, ?lookup_delete_ne by done.
Qed.

Lemma finalize_ok c status response t t' :
  finalize c status response NoFault t = (Ok tt, t') ->
  exists r, t' !! tok_index c = Some (finalized_row status response r) /\ row_hash r = request_hash c.
Proof.
  intros H. apply ledger_finalize_spec in H as [[_ [? ?]]|(r & Hr & Hf & -> & _)]; [done|].
  apply token_fence_true in Hf as (_ & Hh & _). exists r. by rewrite lookup_insert_eq.
Qed.

(** A claim of a finalized row with the row's own request replays it. *)
Lemma claim_replays known lease_us q env t0 t r st resp :
  validate_claim (rq_key q) (rq_hash q) = Ok tt -> hash_ok (rq_hash q) = true ->
  is_Some (t0 !! rq_index q) -> t !! rq_index q = Some r -> row_hash r = rq_hash q ->
  row_state r = Finalized -> status_code r = Some st -> response_payload r = Some resp ->
  claim known lease_us q env NoFault t0 t = (Ok (Replay (claim_from_row r q) st resp), t).
Proof.
  intros Hv Hok [r0 Hr0] Hr Hh Hst Hc Hp. unfold claim, insert_or_load. rewrite Hv, Hok, Hr0, Hr. cbn [negb].
  unfold resolve_row, resolve_existing_row. rewrite Hh, String.eqb_refl, Hst, Hc, Hp. reflexivity.
Qed.

(** A claim that was answered passed both checks. *)
Lemma claim_ok_valid known lease_us q env f t0 t t' out :
  claim known lease_us q env f t0 t = (Ok out, t') ->
  validate_claim (rq_key q) (rq_hash q) = Ok tt /\ hash_ok (rq_hash q) = true.
Proof.
  unfold claim, insert_or_load. destruct (validate_claim _ _) as [[]|]; [|done].
  destruct (hash_ok _); [done|]. by destruct f.
Qed.

(** Once [finalize] has succeeded, every later claim of the same key and
    request, after any further sequence of claims, finalizations and releases by
    anyone, replays exactly the stored status and response and changes nothing;
    and no token for that key can finalize or release it again. *)
Theorem finalized_replays_forever (known : UUID -> UUID -> bool) (lease_us : Z) (w : World) (c : ClaimToken)
    (status : Z) (response : string) (t1 : Table) (evs : list Event) (w' : World) :
  finalize c status response NoFault (table w) = (Ok tt, t1) ->
  history known lease_us {| table := t1; used := used w |} evs w' ->
  (forall (q : ClaimRequest) (env : Env) (t0 : Table),
    rq_index q = tok_index c -> rq_hash q = request_hash c ->
    validate_claim (rq_key q) (rq_hash q) = Ok tt -> hash_ok (rq_hash q) = true ->
    is_Some (t0 !! rq_index q) ->
    exists c', claim known lease_us q env NoFault t0 (table w') =
               (Ok (Replay c' status response), table w')) /\
  (forall c2 : ClaimToken, tok_index c2 = tok_index c ->
    (forall status2 response2, int32 status2 = true ->
       finalize c2 status2 response2 NoFault (table w') = (Raise LedgerConflictError, table w')) /\
    release c2 NoFault (table w') = (Raise LedgerConflictError, table w')).
Proof.
  intros Hf Hh. apply finalize_ok in Hf as (r & Hr & Hhash).
  eapply terminal_row_stable in Hh; [|exact Hr|done]. split.
  - intros q env t0 Hix Hq Hv Hok Hr0. eexists.
    apply claim_replays with (r := finalized_row status response r); try done; [by rewrite Hix|cbn; congruence].
  - intros c2 Hix. apply fence_false_rejects. rewrite Hix, Hh. intros r' [= <-].
    unfold fence. cbn [row_state finalized_row].
    by rewrite (bool_decide_eq_false_2 (Finalized = Claimed)), andb_false_r.
Qed.

(** C9: Ownership is exclusive in any history of concurrent callers: no two
    claims are granted the same (claim, version), and once a later claim of a row
    has been granted, every token granted for that row before is fenced off (its
    [finalize] and [release] raise [LedgerConflictError] and change nothing). *)
Theorem only_latest_owner_settles (known : UUID -> UUID -> bool) (lease_us : Z) (evs : list Event) (w : World) :
  history known lease_us empty_world evs w ->
  NoDup (owned_stamps evs) /\
  forall newer c2 between c1 older,
    omap owned_token evs = newer ++ c2 :: between ++ c1 :: older ->
    claim_id c1 = claim_id c2 ->
    (forall status response, int32 status = true ->
       finalize c1 status response NoFault (table w) = (Raise LedgerConflictError, table w)) /\
    release c1 NoFault (table w) = (Raise LedgerConflictError, table w).
Proof.
  intros [_ _ Hst Hso]%history_inv. split.
  - induction Hso as [|a l _ IH Ha]; constructor; [|by apply IH; intros; apply Hst; right].
    intros Hin. rewrite Forall_forall in Ha. specialize (Ha a Hin eq_refl). lia.
  - intros newer c2 between c1 older Heq Hid. apply fence_false_rejects. intros r Hr.
    unfold owned_stamps in *. rewrite Heq in Hso, Hst.
    rewrite !fmap_app, !fmap_cons, fmap_app, fmap_cons in Hso, Hst.
    apply StronglySorted_app_1_r in Hso.
    apply StronglySorted_inv in Hso as [_ Hlt]. rewrite Forall_forall in Hlt.
    assert (version c1 < version c2) as Hv.
    { apply (Hlt (token_stamp c1)); [set_solver|done]. }
    destruct (Hst (token_stamp c2)) as [_ Hle]; [set_solver|].
    apply not_true_iff_false. intros Hf. apply token_fence_true in Hf as (Hrid & _ & Hrv & _).
    specialize (Hle _ r Hr ltac:(cbn; congruence)). cbn in Hle. lia.
Qed.

(** While a lease is unexpired by the database clock no other claim of the
    key is granted and the table is unchanged, whatever the caller's own clock
    says; a caller with the same request whose clock agrees is told to wait a
    time that reaches the lease's end and overshoots it by at most a second. *)
Theorem lease_excludes_claims (known : UUID -> UUID -> bool) (lease_us : Z) (q : ClaimRequest) (env : Env)
    (f : Fault) (t0 t t' : Table) (r : Row) (e : Z) (o : result LedgerError ClaimOutcome) :
  t0 = t \/ is_Some (t0 !! rq_index q) ->
  t !! rq_index q = Some r -> row_state r = Claimed -> lease_expires_at r = Some e ->
  db_now env < e ->
  claim known lease_us q env f t0 t = (o, t') ->
  t' = t /\ (forall c, o <> Ok (Owned c)) /\
  (forall c n, o = Ok (InProgress c n) -> 1 <= n /\
     (py_now env < e -> e < py_now env + n * second <= e + second)).
Proof.
  intros Ht0 Hr Hs Hl Hdb Hc.
  apply claim_spec in Hc as [[-> [x ->]]|(out & He & Ho)]; [done| |done].
  inversion He as [| r1 e1 Hr1 | |r1 Hr1 Hne|r1 e1 n Hr1 Hh Hs1 Hl1 Hn]; subst; simplify_eq; [lia|congruence|..].
  - split; [done|]. split; [intros c ->|intros c n ->]; by destruct Ho.
  - split; [done|]. split; [intros c ->; by destruct Ho|].
    intros c n' Heq. assert (n' = n) as -> by (destruct Ho; congruence).
    pose proof (Z.div_mod (e - py_now env) second ltac:(done)).
    pose proof (Z.mod_pos_bound (e - py_now env) second ltac:(done)).
    pose proof (Z.div_pos (e - py_now env) second) as Hp. unfold second in *.
    destruct Hn as [[? ->]|(? & ? & ->)]; split; intros; nia.
Qed.

(** In every history, an undisturbed claim with a valid key and hash by a
    known agent returns an outcome (never an error), and the outcome is decided
    by the key's row: owned when the key is free or its lease has run out on both
    clocks, replay when finalized, conflict exactly when the stored request
    differs, in progress otherwise; a granted lease lasts at least one second. *)
Theorem claim_outcome_decided (known : UUID -> UUID -> bool) (lease_us : Z) (evs : list Event) (w : World)
    (q : ClaimRequest) (env : Env) :
  history known lease_us empty_world evs w ->
  validate_claim (rq_key q) (rq_hash q) = Ok tt -> hash_ok (rq_hash q) = true ->
  known (rq_org q) (rq_agent q) = true ->
  exists o t', claim known lease_us q env NoFault (table w) (table w) = (Ok o, t') /\
  match table w !! rq_index q with
  | None => exists c r, o = Owned c /\ version c = 1 /\ t' !! rq_index q = Some r /\ fence c r = true /\
      lease_expires_at r = Some (db_now env + Z.max second lease_us)
  | Some r =>
      if String.eqb (row_hash r) (rq_hash q) then
        match row_state r, lease_expires_at r with
        | Claimed, Some e =>
            if (e <=? py_now env) && (e <=? db_now env) then
              exists c r', o = Owned c /\ version c = row_version r + 1 /\
                t' !! rq_index q = Some r' /\ fence c r' = true /\
                lease_expires_at r' = Some (db_now env + Z.max second lease_us)
            else exists n, o = InProgress (claim_from_row r q) n
        | _, _ => exists st resp, o = Replay (claim_from_row r q) st resp /\
            status_code r = Some st /\ response_payload r = Some resp
        end
      else o = Conflict (claim_from_row r q)
  end%bool.
Proof.
  intros Hh%history_inv Hv Hok Hk. unfold claim, insert_or_load. rewrite Hv, Hok, Hk. cbn [negb].
  destruct (table w !! rq_index q) as [r|] eqn:Hr.
  - unfold resolve_row. destruct (String.eqb (row_hash r) (rq_hash q)) eqn:Hhash; cbn [negb org_session];
      [bools|eauto].
    destruct (inv_rows _ _ Hh _ _ Hr) as [[_ [[Hs [e He]]|(Hs & [st Hst] & [resp Hresp])]] _].
    + unfold resolve_existing_row, reclaim, reclaim_sql. rewrite Hs, He, Hr.
      destruct (0 <? e - py_now env) eqn:Hrem; bools; cbn.
      { do 2 eexists. split; [done|]. rewrite (proj2 (Z.leb_gt e (py_now env))) by lia.
        by eexists. }
      rewrite (proj2 (Z.leb_le e (py_now env))) by lia.
      rewrite Hs, He, !bool_decide_eq_true_2 by done. cbn.
      destruct (e <=? db_now env) eqn:Hdb; bools; cbn; do 2 eexists; (split; [done|]); [|eauto].
      do 2 eexists. rewrite lookup_insert_eq. do 3 (split; [done|]). split; [|done].
      unfold fence; cbn. by rewrite !bool_decide_eq_true_2, Z.eqb_refl by done.
    + unfold resolve_existing_row. rewrite Hs, Hst, Hresp. cbn. eauto 10.
  - unfold resolve_row. cbn [row_hash claimed_row]. rewrite String.eqb_refl. cbn.
    do 2 eexists. split; [done|]. do 2 eexists. rewrite lookup_insert_eq. do 3 (split; [done|]).
    split; [|done]. unfold fence; cbn. rewrite !bool_decide_eq_true_2 by done. done.
Qed.

Module LedgerSample.
Definition h0 : string := "0123456789abcdef0123456789abcdef0123456789abcdef0123456789abcdef".
Definition q0 : ClaimRequest := {| rq_org := "org"; rq_agent := "agent"; rq_key := "k"; rq_hash := h0 |}.
Definition all_known (o a : UUID) : bool := true.
Definition env_at (t : Z) (i : UUID) : Env :=
  {| db_now := t * second; py_now := t * second; new_id := i |}.

(** Two claims, the second after the first lease (120 s) has run out. *)
Definition t1 : Table := (claim all_known LEDGER_LEASE q0 (env_at 0 "a") NoFault ∅ ∅).2.
Definition w1 : World := {| table := t1; used := {["a"%string]} |}.
Definition t2 : Table := (claim all_known LEDGER_LEASE q0 (env_at 121 "b") NoFault t1 t1).2.
Definition w2 : World := {| table := t2; used := {["a"%string]} ∪ {["b"%string]} |}.
Definition c1 : ClaimToken := {| claim_id := "a"; org_id := "org"; agent_id := "agent"; key := "k";
  request_hash := h0; version := 1 |}.
Definition c2 : ClaimToken := {| claim_id := "a"; org_id := "org"; agent_id := "agent"; key := "k";
  request_hash := h0; version := 2 |}.
Definition evs : list Event := [EvClaim q0 (Ok (Owned c2)); EvClaim q0 (Ok (Owned c1))].

Lemma evs_history : history all_known LEDGER_LEASE empty_world evs w2.
Proof.
  eapply (history_snoc _ _ _ _ w1); [eapply history_snoc; [apply history_nil|]|].
  - replace w1 with {| table := t1; used := used empty_world ∪ {[new_id (env_at 0 "a")]} |}
      by (unfold w1; f_equal; set_solver).
    apply (step_claim _ _ empty_world q0 (env_at 0 "a") NoFault ∅); [by left|set_solver|].
    vm_compute. reflexivity.
  - apply (step_claim _ _ w1 q0 (env_at 121 "b") NoFault t1); [by left|set_solver|].
    vm_compute. reflexivity.
Qed.

Definition t3 : Table := (finalize c2 200 "done" NoFault t2).2.

Lemma finalized_replays_forever_witness : exists c',
    claim all_known LEDGER_LEASE q0 (env_at 500 "c") NoFault t3 t3 = (Ok (Replay c' 200 "done"), t3).
Proof.
  destruct (finalized_replays_forever all_known LEDGER_LEASE w2 c2 200 "done" t3 []
              {| table := t3; used := used w2 |} ltac:(vm_compute; reflexivity)
              (history_nil _ _ _)) as [H _].
  apply (H q0 (env_at 500 "c") t3); [reflexivity|reflexivity|reflexivity|vm_compute; reflexivity|].
  exists (finalized_row 200 "done" (default (claimed_row 0 q0 (env_at 0 "a")) (t2 !! rq_index q0))).
  vm_compute. reflexivity.
Defined.

Lemma only_latest_owner_settles_witness :
  finalize c1 200 "late" NoFault (table w2) = (Raise LedgerConflictError, table w2).
Proof.
  destruct (only_latest_owner_settles all_known LEDGER_LEASE evs w2 evs_history) as [_ H].
  apply (H [] c2 [] c1 []); reflexivity.
Defined.

(** The caller's clock is far ahead; the database says the lease is live. *)
Definition ahead : Env := {| db_now := 119 * second; py_now := 900 * second; new_id := "b" |}.

Lemma lease_excludes_claims_witness :
  (claim all_known LEDGER_LEASE q0 ahead NoFault t1 t1).1 <> Ok (Owned c1).
Proof.
  destruct (lease_excludes_claims all_known LEDGER_LEASE q0 ahead NoFault t1 t1 _
    (claimed_row LEDGER_LEASE q0 (env_at 0 "a")) (120 * second) _ (or_introl eq_refl)
    ltac:(vm_compute; reflexivity) ltac:(reflexivity) ltac:(reflexivity) ltac:(reflexivity)
    (surjective_pairing _)) as (_ & H & _).
  apply H.
Defined.

Lemma claim_outcome_decided_witness : exists o t',
  claim all_known LEDGER_LEASE q0 (env_at 122 "c") NoFault t2 t2 = (Ok o, t').
Proof.
  destruct (claim_outcome_decided all_known LEDGER_LEASE evs w2 q0 (env_at 122 "c") evs_history
    ltac:(reflexivity) ltac:(vm_compute; reflexivity) ltac:(reflexivity)) as (o & t' & H & _).
  exists o, t'. exact H.
Defined.
End LedgerSample.
