(* ===== verification/PyText.v ===== *)
(** * Python text: code points, UTF-8 and UUIDs

    A [str] is a list of code points, [bytes] a list of integers in [0, 256).
    The file models the parts of the standard library the wire codecs use:
    strict UTF-8 encoding and decoding, [uuid.UUID(text)] and [str(uuid)].
    [int(text, 16)] accepts the decimal digits and white space of the Unicode
    database, which is a parameter. *)

From S2P Require Import Prelude.

Abbreviation bytes := (list Z).
Abbreviation pystr := (list Z).

Definition byte (b : Z) : Prop := 0 <= b < 256.

(** The code points of a literal. *)
Definition lit (s : string) : pystr := (fun c => Z.of_nat (nat_of_ascii c)) <$> list_ascii_of_string s.

(** ** UTF-8 *)

(** A Unicode scalar value: UTF-8 encodes exactly these. *)
Definition scalar (c : Z) : bool :=
  ((0 <=? c) && (c <? 0x110000) && negb ((0xD800 <=? c) && (c <? 0xE000)))%bool.

Definition utf8_char (c : Z) : bytes :=
  if c <? 0x80 then [c]
  else if c <? 0x800 then [0xC0 + c / 64; 0x80 + c mod 64]
  else if c <? 0x10000 then [0xE0 + c / 4096; 0x80 + (c / 64) mod 64; 0x80 + c mod 64]
  else [0xF0 + c / 262144; 0x80 + (c / 4096) mod 64; 0x80 + (c / 64) mod 64; 0x80 + c mod 64].

(** [s.encode("utf-8")]: [None] is [UnicodeEncodeError]. *)
Definition utf8_encode (s : pystr) : option bytes :=
  if forallb scalar s then Some (mjoin (utf8_char <$> s)) else None.

Definition cont (b : Z) : bool := ((0x80 <=? b) && (b <? 0xC0))%bool.

(** The first character of [b] and the rest; [None] is a malformed sequence
    (bad lead or continuation byte, overlong form, surrogate, out of range). *)
Definition utf8_next (b : bytes) : option (Z * bytes) :=
  match b with
  | [] => None
  | b0 :: r =>
      if b0 <? 0x80 then Some (b0, r)
      else if b0 <? 0xC0 then None
      else if b0 <? 0xE0 then
        match r with
        | b1 :: r =>
            let c := (b0 - 0xC0) * 64 + (b1 - 0x80) in
            if (cont b1 && (0x80 <=? c))%bool then Some (c, r) else None
        | _ => None
        end
      else if b0 <? 0xF0 then
        match r with
        | b1 :: b2 :: r =>
            let c := (b0 - 0xE0) * 4096 + (b1 - 0x80) * 64 + (b2 - 0x80) in
            if (cont b1 && cont b2 && (0x800 <=? c) && scalar c)%bool then Some (c, r) else None
        | _ => None
        end
      else if b0 <? 0xF8 then
        match r with
        | b1 :: b2 :: b3 :: r =>
            let c := (b0 - 0xF0) * 262144 + (b1 - 0x80) * 4096 + (b2 - 0x80) * 64 + (b3 - 0x80) in
            if (cont b1 && cont b2 && cont b3 && (0x10000 <=? c) && scalar c)%bool
            then Some (c, r) else None
        | _ => None
        end
      else None
  end.

Fixpoint utf8_decode_loop (fuel : nat) (b : bytes) : option pystr :=
  match fuel, b with
  | _, [] => Some []
  | O, _ => None
  | S fuel, _ =>
      match utf8_next b with
      | Some (c, r) => cons c <$> utf8_decode_loop fuel r
      | None => None
      end
  end.

(** [b.decode("utf-8")]: every step consumes a byte, so [length b] steps
    are enough; [None] is [UnicodeDecodeError]. *)
Definition utf8_decode (b : bytes) : option pystr := utf8_decode_loop (length b) b.

Lemma scalar_range c : scalar c = true -> 0 <= c < 0x110000 /\ ~ (0xD800 <= c < 0xE000).
Proof. unfold scalar. intros H. bools. destruct (0xD800 <=? c) eqn:?, (c <? 0xE000) eqn:?; bools; split; try lia; done. Qed.

Ltac divmod c n :=
  pose proof (Z.div_mod c n ltac:(done)); pose proof (Z.mod_pos_bound c n ltac:(done)).

Lemma utf8_next_char c r : scalar c = true -> utf8_next (utf8_char c ++ r) = Some (c, r).
Proof.
  intros Hc. destruct (scalar_range c Hc) as [Hr _]. unfold utf8_char.
  divmod c 64. divmod (c / 64) 64. divmod (c / 4096) 64.
  assert (c / 4096 = c / 64 / 64) as E1 by (rewrite Zdiv_Zdiv; done || lia).
  assert (c / 262144 = c / 4096 / 64) as E2 by (rewrite Zdiv_Zdiv; done || lia).
  destruct (c <? 0x80) eqn:L1; bools.
  { cbn. by rewrite (proj2 (Z.ltb_lt c 0x80)) by lia. }
  destruct (c <? 0x800) eqn:L2; bools.
  { cbn [utf8_next app]. rewrite !(proj2 (Z.ltb_ge _ _)) by lia.
    rewrite (proj2 (Z.ltb_lt _ _)) by lia.
    replace ((0xC0 + c / 64 - 0xC0) * 64 + (0x80 + c mod 64 - 0x80)) with c by lia.
    unfold cont. rewrite !(proj2 (Z.leb_le _ _)), (proj2 (Z.ltb_lt _ _)) by lia. done. }
  destruct (c <? 0x10000) eqn:L3; bools.
  { cbn [utf8_next app]. rewrite !(proj2 (Z.ltb_ge _ _)) by lia.
    rewrite (proj2 (Z.ltb_lt (0xE0 + _) _)) by lia.
    replace ((0xE0 + c / 4096 - 0xE0) * 4096 + (0x80 + (c / 64) mod 64 - 0x80) * 64
             + (0x80 + c mod 64 - 0x80)) with c by lia.
    unfold cont. rewrite !(proj2 (Z.leb_le _ _)), !(proj2 (Z.ltb_lt _ _)), Hc by lia. done. }
  cbn [utf8_next app].
  rewrite (proj2 (Z.ltb_ge (0xF0 + _) 0x80)), (proj2 (Z.ltb_ge (0xF0 + _) 0xC0)),
    (proj2 (Z.ltb_ge (0xF0 + _) 0xE0)), (proj2 (Z.ltb_ge (0xF0 + _) 0xF0)) by lia.
  rewrite (proj2 (Z.ltb_lt (0xF0 + _) 0xF8)) by lia.
  replace ((0xF0 + c / 262144 - 0xF0) * 262144 + (0x80 + (c / 4096) mod 64 - 0x80) * 4096
           + (0x80 + (c / 64) mod 64 - 0x80) * 64 + (0x80 + c mod 64 - 0x80)) with c by lia.
  unfold cont. rewrite !(proj2 (Z.leb_le _ _)), !(proj2 (Z.ltb_lt _ _)), Hc by lia. done.
Qed.

Lemma utf8_char_nonempty c : (1 <= length (utf8_char c))%nat.
Proof. unfold utf8_char. repeat case_if; cbn; lia. Qed.

Lemma utf8_decode_loop_chars s : forall fuel, forallb scalar s = true ->
  (length (mjoin (utf8_char <$> s)) <= fuel)%nat ->
  utf8_decode_loop fuel (mjoin (utf8_char <$> s)) = Some s.
Proof.
  induction s as [|c s IH]; intros fuel Hs Hf; [by destruct fuel|].
  cbn in Hs. bools. change (mjoin (utf8_char <$> c :: s)) with
    (utf8_char c ++ mjoin (utf8_char <$> s)) in *.
  pose proof (utf8_char_nonempty c). rewrite length_app in Hf.
  destruct fuel as [|fuel]; [lia|]. cbn [utf8_decode_loop].
  rewrite utf8_next_char by done. rewrite IH by (done || lia).
  destruct (utf8_char c ++ _) eqn:E; [|done].
  apply (f_equal length) in E. rewrite length_app in E. cbn in E. lia.
Qed.

(** Decoding undoes encoding. *)
Lemma utf8_roundtrip s b : utf8_encode s = Some b -> utf8_decode b = Some s.
Proof.
  unfold utf8_encode, utf8_decode. destruct (forallb scalar s) eqn:Hs; [|done].
  intros [= <-]. by apply utf8_decode_loop_chars.
Qed.

Lemma utf8_next_shorter b c r : utf8_next b = Some (c, r) -> (length r < length b)%nat.
Proof.
  unfold utf8_next. intros H. repeat case_match; simplify_eq; cbn; lia.
Qed.

(** A text has no more characters than bytes. *)
Lemma utf8_decode_length b s : utf8_decode b = Some s -> (length s <= length b)%nat.
Proof.
  unfold utf8_decode. assert (forall fuel b s, utf8_decode_loop fuel b = Some s ->
    (length s <= length b)%nat) as H; [|apply H].
  clear b s. induction fuel as [|fuel IH]; intros b s; cbn.
  - destruct b; [|done]. by intros [= <-].
  - destruct b as [|b0 b]; [by intros [= <-]|].
    destruct (utf8_next (b0 :: b)) as [[c r]|] eqn:E; [|done].
    intros (s' & Hs' & ->)%fmap_Some. apply IH in Hs'. apply utf8_next_shorter in E. cbn in *. lia.
Qed.

Lemma utf8_char_bytes c : scalar c = true -> Forall byte (utf8_char c).
Proof.
  intros [Hr _]%scalar_range. unfold utf8_char, byte. divmod c 64. divmod (c / 64) 64. divmod (c / 4096) 64.
  assert (c / 4096 = c / 64 / 64) by (rewrite Zdiv_Zdiv; done || lia).
  assert (c / 262144 = c / 4096 / 64) by (rewrite Zdiv_Zdiv; done || lia).
  repeat case_if; bools; repeat (apply Forall_cons; split); try lia; by apply Forall_nil.
Qed.

Lemma utf8_encode_bytes s b : utf8_encode s = Some b -> Forall byte b.
Proof.
  unfold utf8_encode. destruct (forallb scalar s) eqn:Hs; [|done]. intros [= <-].
  induction s as [|c s IH]; [apply Forall_nil; done|]. cbn in Hs. bools.
  change (mjoin (utf8_char <$> c :: s)) with (utf8_char c ++ mjoin (utf8_char <$> s)).
  apply Forall_app. split; [by apply utf8_char_bytes|auto].
Qed.

(** ** [uuid.UUID] *)

(** The Unicode database, consulted only for characters that are not ASCII. *)
Class UnicodeDB := {
  u_space : Z -> bool;           (* [str.isspace] *)
  u_decimal : Z -> option Z;     (* [unicodedata.decimal] *)
  u_lower : pystr -> pystr;      (* [str.lower] *)
}.

(** [s.replace(pat, "")]: left to right, matches do not overlap. *)
Fixpoint remove_all_loop (fuel : nat) (pat s : pystr) : pystr :=
  match fuel, s with
  | S fuel, c :: r =>
      if bool_decide (take (length pat) s = pat) then remove_all_loop fuel pat (drop (length pat) s)
      else c :: remove_all_loop fuel pat r
  | _, _ => s
  end.
Definition remove_all (pat s : pystr) : pystr := remove_all_loop (length s) pat s.

(** [s.strip(chars)] *)
Fixpoint lstrip (chars s : pystr) : pystr :=
  match s with
  | c :: r => if bool_decide (c ∈ chars) then lstrip chars r else s
  | [] => []
  end.
Definition strip (chars s : pystr) : pystr := reverse (lstrip chars (reverse (lstrip chars s))).

(** [s.strip()]: the white space of [str.isspace]. *)
Definition is_space `{UnicodeDB} (c : Z) : bool :=
  if c <? 128 then ((9 <=? c) && (c <=? 13) || (28 <=? c) && (c <=? 32))%bool else u_space c.

Fixpoint lstrip_space `{UnicodeDB} (s : pystr) : pystr :=
  match s with
  | c :: r => if is_space c then lstrip_space r else s
  | [] => []
  end.
Definition strip_space `{UnicodeDB} (s : pystr) : pystr :=
  reverse (lstrip_space (reverse (lstrip_space s))).

Definition hex_digit (c : Z) : option Z :=
  if (48 <=? c) && (c <=? 57) then Some (c - 48)
  else if (97 <=? c) && (c <=? 102) then Some (c - 87)
  else if (65 <=? c) && (c <=? 70) then Some (c - 55)
  else None.

Definition c_space (c : Z) : bool := ((9 <=? c) && (c <=? 13) || (c =? 32))%bool.

(** Non-ASCII digits and spaces become ASCII ones, other non-ASCII
    characters a question mark. *)
Definition to_ascii `{UnicodeDB} (c : Z) : Z :=
  if c <? 127 then c
  else if u_space c then 32
  else match u_decimal c with Some d => 48 + d | None => 63 end.

(** The digits, with single underscores between them, and what follows. *)
Fixpoint hex_loop (after_underscore : bool) (acc : Z) (s : pystr) : option (Z * pystr) :=
  match s with
  | c :: r =>
      if c =? 95 then (if after_underscore then None else hex_loop true acc r)
      else match hex_digit c with
           | Some d => hex_loop false (acc * 16 + d) r
           | None => if after_underscore then None else Some (acc, s)
           end
  | [] => if after_underscore then None else Some (acc, [])
  end.

Fixpoint drop_space (s : pystr) : pystr :=
  match s with c :: r => if c_space c then drop_space r else s | [] => [] end.

Definition hex_prefix (s : pystr) : pystr :=
  match s with
  | 48 :: c :: r =>
      if (c =? 120) || (c =? 88)
      then match r with 95 :: r => r | _ => r end
      else s
  | _ => s
  end.

(** [int(s, 16)]; [None] is [ValueError]. *)
Definition int16 `{UnicodeDB} (s : pystr) : option Z :=
  let s := drop_space (to_ascii <$> s) in
  let '(sign, s) := match s with 43 :: r => (1, r) | 45 :: r => (-1, r) | _ => (1, s) end in
  let s := hex_prefix s in
  match s with
  | c :: _ =>
      match hex_digit c, hex_loop false 0 s with
      | Some _, Some (v, rest) => if forallb c_space rest then Some (sign * v) else None
      | _, _ => None
      end
  | [] => None
  end.

(** [UUID(text).int]; [None] is [ValueError]. *)
Definition uuid_parse `{UnicodeDB} (s : pystr) : option Z :=
  let hex := remove_all (lit "uuid:") (remove_all (lit "urn:") s) in
  let hex := remove_all (lit "-") (strip (lit "{}") hex) in
  if (length hex =? 32)%nat then
    match int16 hex with
    | Some v => if (0 <=? v) && (v <? 2 ^ 128) then Some v else None
    | None => None
    end
  else None.

(** [str(uuid)]: 32 lower-case digits in groups of 8, 4, 4, 4 and 12. *)
Definition hex_char (d : Z) : Z := if d <? 10 then 48 + d else 87 + d.

Fixpoint hexs (n : nat) (v : Z) : pystr :=
  match n with
  | O => []
  | S n => hexs n (v / 16) ++ [hex_char (v mod 16)]
  end.

Definition uuid_str (v : Z) : pystr :=
  hexs 8 (v / 16 ^ 24) ++ lit "-" ++ hexs 4 (v / 16 ^ 20) ++ lit "-" ++ hexs 4 (v / 16 ^ 16)
  ++ lit "-" ++ hexs 4 (v / 16 ^ 12) ++ lit "-" ++ hexs 12 v.

#[global] Arguments uuid_str : simpl never.

Section UUIDs.
Context `{UnicodeDB}.

Definition is_hex_char (c : Z) : Prop := 48 <= c <= 57 \/ 97 <= c <= 102.

Lemma hex_char_ok d : 0 <= d < 16 -> is_hex_char (hex_char d) /\ hex_digit (hex_char d) = Some d.
Proof.
  intros Hd. unfold is_hex_char, hex_char, hex_digit.
  destruct (d <? 10) eqn:L; bools; split; try lia.
  - rewrite !(proj2 (Z.leb_le _ _)) by lia. cbn. f_equal. lia.
  - rewrite (proj2 (Z.leb_gt (87 + d) 57)) by lia. rewrite andb_false_r.
    rewrite !(proj2 (Z.leb_le _ _)) by lia. cbn. f_equal. lia.
Qed.

Lemma hexs_length n : forall v, length (hexs n v) = n.
Proof. induction n as [|n IH]; intros v; cbn; [done|]. rewrite length_app, IH. cbn. lia. Qed.

Lemma hexs_chars n : forall v, Forall is_hex_char (hexs n v).
Proof.
  induction n as [|n IH]; intros v; cbn; [by apply Forall_nil|].
  apply Forall_app. split; [apply IH|]. apply Forall_singleton.
  apply hex_char_ok. apply Z.mod_pos_bound. lia.
Qed.

Lemma hex_loop_hexs n : forall v acc r,
  hex_loop false acc (hexs n v ++ r) = hex_loop false (acc * 16 ^ Z.of_nat n + v mod 16 ^ Z.of_nat n) r.
Proof.
  induction n as [|n IH]; intros v acc r.
  - cbn -[Z.modulo]. f_equal. rewrite Z.mod_1_r. lia.
  - cbn [hexs]. rewrite <- app_assoc, IH. cbn [app hex_loop].
    pose proof (Z.mod_pos_bound v 16 ltac:(lia)).
    destruct (hex_char_ok (v mod 16)) as [Hc ->]; [lia|].
    rewrite (proj2 (Z.eqb_neq _ 95)) by (destruct Hc; lia).
    f_equal. rewrite Nat2Z.inj_succ, Z.pow_succ_r, Z.rem_mul_r by lia. lia.
Qed.

Lemma hexs_split n k v : 0 <= v ->
  hexs (n + k) v = hexs n (v / 16 ^ Z.of_nat k) ++ hexs k v.
Proof.
  revert v. induction k as [|k IH]; intros v Hv.
  - rewrite Nat.add_0_r. cbn. by rewrite Z.div_1_r, app_nil_r.
  - rewrite Nat.add_succ_r. cbn [hexs]. rewrite IH by (apply Z.div_pos; lia).
    rewrite Zdiv_Zdiv by lia. rewrite <- app_assoc.
    by rewrite Nat2Z.inj_succ, Z.pow_succ_r by lia.
Qed.

Lemma remove_all_absent c pat s : c ∉ s -> remove_all (c :: pat) s = s.
Proof.
  unfold remove_all. intros Hc. remember (length s) as fuel eqn:Hf. clear Hf.
  revert s Hc. induction fuel as [|fuel IH]; intros [|d s] Hc; cbn; try done.
  rewrite bool_decide_eq_false_2 by (intros [= -> _]; set_solver).
  rewrite IH by set_solver. done.
Qed.

Lemma remove_char_filter c s : remove_all [c] s = List.filter (fun d => negb (d =? c)) s.
Proof.
  unfold remove_all. remember (length s) as fuel eqn:Hf.
  assert (length s <= fuel)%nat as Hle by lia. clear Hf. revert s Hle.
  induction fuel as [|fuel IH]; intros [|d s] Hle; cbn in *; try done; [lia|].
  destruct (Z.eqb_spec d c) as [->|Hne]; cbn.
  - rewrite bool_decide_eq_true_2 by done. cbn. apply IH. lia.
  - rewrite bool_decide_eq_false_2 by congruence. by rewrite IH by lia.
Qed.

Lemma filter_dash_hex s : Forall is_hex_char s -> List.filter (fun d => negb (d =? 45)) s = s.
Proof.
  induction 1 as [|c s Hc Hs IH]; cbn; [done|].
  rewrite (proj2 (Z.eqb_neq c 45)) by (destruct Hc; lia). cbn. by rewrite IH.
Qed.

Lemma uuid_str_digits v : 0 <= v < 2 ^ 128 ->
  List.filter (fun d => negb (d =? 45)) (uuid_str v) = hexs 32 v.
Proof.
  intros Hv. unfold uuid_str. rewrite !List.filter_app.
  change (List.filter _ (lit "-")) with (@nil Z). cbn [app].
  repeat rewrite filter_dash_hex by apply hexs_chars.
  assert (forall k : Z, 0 <= k -> 0 <= v / 16 ^ k) as Hp.
  { intros k Hk. apply Z.div_pos; [lia|]. apply Z.pow_pos_nonneg; lia. }
  assert (forall j k : Z, 0 <= j -> 0 <= k -> v / 16 ^ j / 16 ^ k = v / 16 ^ (j + k)) as Hdd.
  { intros j k Hj Hk. rewrite Zdiv_Zdiv, Z.pow_add_r by (try apply Z.pow_nonneg; lia). done. }
  pose proof (hexs_split 20 12 v ltac:(lia)) as E1.
  pose proof (hexs_split 16 4 (v / 16 ^ 12) (Hp 12 ltac:(lia))) as E2.
  pose proof (hexs_split 12 4 (v / 16 ^ 16) (Hp 16 ltac:(lia))) as E3.
  pose proof (hexs_split 8 4 (v / 16 ^ 20) (Hp 20 ltac:(lia))) as E4.
  rewrite Hdd in E2, E3, E4 by lia. cbn [Nat.add Z.of_nat Pos.of_succ_nat] in *.
  symmetry. etransitivity; [exact E1|]. change (Z.pos 12) with 12.
  etransitivity; [apply (f_equal (fun l => l ++ _)); exact E2|].
  etransitivity; [apply (f_equal (fun l => (l ++ _) ++ _)); exact E3|].
  etransitivity; [apply (f_equal (fun l => ((l ++ _) ++ _) ++ _)); exact E4|].
  rewrite <- !app_assoc. reflexivity.
Qed.

Lemma uuid_str_chars v : Forall (fun c => is_hex_char c \/ c = 45) (uuid_str v).
Proof.
  assert (forall n v, Forall (fun c => is_hex_char c \/ c = 45) (hexs n v)) as Hh.
  { intros n v'. eapply Forall_impl; [apply hexs_chars|]. by left. }
  assert (Forall (fun c => is_hex_char c \/ c = 45) (lit "-")) as Hd.
  { apply Forall_singleton. by right. }
  unfold uuid_str. rewrite !Forall_app. repeat split; apply Hh || apply Hd.
Qed.

Lemma uuid_str_absent v c : ~ is_hex_char c -> c <> 45 -> c ∉ uuid_str v.
Proof.
  intros Hc Hne Hin. pose proof (uuid_str_chars v) as Hs. rewrite Forall_forall in Hs.
  by destruct (Hs c Hin).
Qed.

Lemma lstrip_id chars s : (forall c, c ∈ chars -> c ∉ s) -> lstrip chars s = s.
Proof.
  destruct s as [|c s]; cbn; [done|]. intros Hs.
  rewrite bool_decide_eq_false_2; [done|]. intros Hin. apply (Hs c Hin). left.
Qed.

Lemma strip_id chars s : (forall c, c ∈ chars -> c ∉ s) -> strip chars s = s.
Proof.
  intros Hs. unfold strip. rewrite (lstrip_id chars s) by done.
  rewrite lstrip_id by (intros c Hc; rewrite elem_of_reverse; auto). apply reverse_involutive.
Qed.

Lemma to_ascii_hex s : Forall is_hex_char s -> to_ascii <$> s = s.
Proof.
  induction 1 as [|c s Hc Hs IH]; cbn; [done|]. unfold to_ascii at 1.
  rewrite (proj2 (Z.ltb_lt c 127)) by (destruct Hc; lia). by f_equal.
Qed.

Lemma int16_hexs v : 0 <= v < 2 ^ 128 -> int16 (hexs 32 v) = Some v.
Proof.
  intros Hv. unfold int16. rewrite to_ascii_hex by apply hexs_chars.
  pose proof (hexs_chars 32 v) as Hc. pose proof (hexs_length 32 v) as Hl.
  assert (hex_loop false 0 (hexs 32 v) = Some (v, [])) as Hloop.
  { rewrite <- (app_nil_r (hexs 32 v)), hex_loop_hexs.
    change (16 ^ Z.of_nat 32) with (2 ^ 128). by rewrite Z.mod_small by lia. }
  destruct (hexs 32 v) as [|c [|d s]] eqn:E; [done|done|].
  apply Forall_cons in Hc as [Hc Hcs]. apply Forall_cons in Hcs as [Hd _].
  assert (drop_space (c :: d :: s) = c :: d :: s) as ->.
  { cbn. unfold c_space. destruct Hc; rewrite (proj2 (Z.leb_gt c 13)), (proj2 (Z.eqb_neq c 32)) by lia;
      by rewrite andb_false_r. }
  assert (hex_prefix (c :: d :: s) = c :: d :: s) as Hpre.
  { unfold hex_prefix. rewrite (proj2 (Z.eqb_neq d 120)), (proj2 (Z.eqb_neq d 88)) by (destruct Hd; lia).
    repeat case_match; done. }
  assert ((match c :: d :: s with 43 :: r => (1, r) | 45 :: r => (-1, r) | _ => (1, c :: d :: s) end)
          = (1, c :: d :: s)) as ->.
  { repeat case_match; simplify_eq; try done; destruct Hc; lia. }
  rewrite Hpre, Hloop.
  assert (exists x, hex_digit c = Some x) as [x ->].
  { unfold hex_digit. destruct Hc; repeat case_if; bools; eauto; lia. }
  cbn. f_equal. lia.
Qed.

(** [UUID(str(u)) == u]. *)
Lemma uuid_roundtrip v : 0 <= v < 2 ^ 128 -> uuid_parse (uuid_str v) = Some v.
Proof.
  intros Hv. unfold uuid_parse.
  assert (117 ∉ uuid_str v) by (apply uuid_str_absent; unfold is_hex_char; lia).
  change (lit "urn:") with (117 :: lit "rn:"). rewrite remove_all_absent by done.
  change (lit "uuid:") with (117 :: lit "uid:"). rewrite remove_all_absent by done.
  rewrite strip_id.
  2:{ intros c Hc. apply uuid_str_absent; unfold is_hex_char;
      change (lit "{}") with [123; 125] in Hc; set_unfold in Hc; lia. }
  change (lit "-") with [45]. rewrite remove_char_filter, uuid_str_digits by done.
  rewrite hexs_length, int16_hexs by done. cbn [Nat.eqb].
  by rewrite (proj2 (Z.leb_le 0 v)), (proj2 (Z.ltb_lt v (2 ^ 128))) by lia.
Qed.

Lemma uuid_parse_range s v : uuid_parse s = Some v -> 0 <= v < 2 ^ 128.
Proof.
  unfold uuid_parse. intros. repeat case_match; simplify_eq. bools. done.
Qed.

Lemma uuid_str_length v : length (uuid_str v) = 36%nat.
Proof. unfold uuid_str. by rewrite !length_app, !hexs_length. Qed.

Lemma uuid_str_scalar v : forallb scalar (uuid_str v) = true.
Proof.
  apply forallb_forall. intros c Hc%list_elem_of_In.
  pose proof (uuid_str_chars v) as Hs. rewrite Forall_forall in Hs.
  unfold scalar. destruct (Hs c Hc) as [[|]| ->]; [..|done];
    rewrite (proj2 (Z.leb_le 0 c)), (proj2 (Z.ltb_lt c 0x110000)), (proj2 (Z.leb_gt 0xD800 c)) by lia; done.
Qed.
End UUIDs.

(** A database that knows only ASCII, for evaluation. *)
Definition ascii_db : UnicodeDB :=
  {| u_space := fun _ => false; u_decimal := fun _ => None;
     u_lower := fmap (fun c => if (65 <=? c) && (c <=? 90) then c + 32 else c) |}.
