(* ===== verification/Wire.v ===== *)
(** * Protobuf wire primitives
    ([packages/authclient/src/authclient/codec.py])

    Varints, tags, length-delimited fields, skipping of unknown fields and the
    field loop [_walk_fields], index-based as in the code.  [Field] and
    [enc_fields] give the wire format itself; a message decoder is a
    [FieldDecoder], whose law says what one field does to its state, and
    [walk_fields_encoded] folds that over a message. *)

From S2P Require Import Prelude PyText.

(** [AuthCodecError(message)]; [UnicodeEncodeError] escapes from
    [str.encode]; [Diverged] marks an exhausted step bound. *)
Inductive CodecError :=
| AuthCodecError (msg : string)
| UnicodeEncodeError
| Diverged.

#[global] Instance CodecError_eq_dec : EqDecision CodecError.
Proof. solve_decision. Defined.

Definition MAX_MESSAGE_BYTES : Z := 4096.
Definition MAX_LIST_MESSAGE_BYTES : Z := 512 * 1024.
Definition MAX_STRING_BYTES : Z := 512.
Definition MAX_TOKEN_BYTES : Z := 8192.
Definition MAX_SUBMESSAGE_BYTES : Z := 4096.

Definition WIRE_VARINT : Z := 0.
Definition WIRE_64BIT : Z := 1.
Definition WIRE_LEN : Z := 2.
Definition WIRE_32BIT : Z := 5.

Definition zlen {A : Type} (l : list A) : Z := Z.of_nat (length l).

(** ** Varints *)

Fixpoint varint_loop (fuel : nat) (value : Z) : bytes :=
  match fuel with
  | O => []
  | S fuel =>
      let bits := Z.land value 0x7F in
      let value := Z.shiftr value 7 in
      if value =? 0 then [bits] else Z.lor bits 0x80 :: varint_loop fuel value
  end.

(** Each round drops seven bits: one more round than the bit length is
    enough. *)
Definition varint (value : Z) : bytes := varint_loop (S (Z.to_nat (Z.log2 value))) value.

Definition encode_varint (value : Z) : result CodecError bytes :=
  if value <? 0 then Raise (AuthCodecError "negative varint") else Ok (varint value).

Fixpoint decode_varint_loop (fuel : nat) (buf : bytes) (idx : nat) (shift acc : Z)
    : result CodecError (Z * nat) :=
  match fuel with
  | O => Raise Diverged
  | S fuel =>
      match buf !! idx with
      | None => Raise (AuthCodecError "truncated varint")
      | Some b =>
          let acc := Z.lor acc (Z.shiftl (Z.land b 0x7F) shift) in
          if Z.land b 0x80 =? 0 then Ok (acc, S idx)
          else let shift := shift + 7 in
               if 63 <? shift then Raise (AuthCodecError "invalid varint")
               else decode_varint_loop fuel buf (S idx) shift acc
      end
  end.

(** The shift test ends the loop by the tenth byte. *)
Definition decode_varint (buf : bytes) (idx : nat) : result CodecError (Z * nat) :=
  decode_varint_loop 10 buf idx 0 0.
#[global] Arguments decode_varint : simpl never.
#[global] Arguments varint : simpl never.

(** ** Fields *)

Definition tag (field wire : Z) : result CodecError bytes :=
  encode_varint (Z.lor (Z.shiftl field 3) wire).

Definition encode_utf8 (value : pystr) : result CodecError bytes :=
  match utf8_encode value with Some b => Ok b | None => Raise UnicodeEncodeError end.

(** [tag + length + data], shared by the length-delimited encoders. *)
Definition encode_len_field (field : Z) (data : bytes) : result CodecError bytes :=
  let* t := tag field WIRE_LEN in
  let* n := encode_varint (zlen data) in
  Ok (t ++ n ++ data).

Definition encode_string_field (field : Z) (value : pystr) : result CodecError bytes :=
  let* data := encode_utf8 value in
  if MAX_STRING_BYTES <? zlen data then Raise (AuthCodecError "string field exceeds codec limit")
  else encode_len_field field data.

Definition encode_api_key_field (field : Z) (value : pystr) : result CodecError bytes :=
  let* data := encode_utf8 value in
  if MAX_TOKEN_BYTES <? zlen data then Raise (AuthCodecError "api_key exceeds codec limit")
  else encode_len_field field data.

Definition encode_varint_field (field value : Z) : result CodecError bytes :=
  let* t := tag field WIRE_VARINT in
  let* v := encode_varint value in
  Ok (t ++ v).

Definition encode_message_field (field : Z) (raw : bytes) : result CodecError bytes :=
  if MAX_SUBMESSAGE_BYTES <? zlen raw then Raise (AuthCodecError "submessage exceeds codec limit")
  else encode_len_field field raw.

(** [_read_bytes] *)
Definition read_bytes (buf : bytes) (idx : nat) (max_len : Z) : result CodecError (bytes * nat) :=
  let* '(len, idx) := decode_varint buf idx in
  if max_len <? len then Raise (AuthCodecError "length-delimited field exceeds limit")
  else
    let end_ := (idx + Z.to_nat len)%nat in
    if (length buf <? end_)%nat then Raise (AuthCodecError "truncated length-delimited field")
    else Ok (take (Z.to_nat len) (drop idx buf), end_).

Definition skip_fixed (buf : bytes) (idx size : nat) (label : string) : result CodecError nat :=
  let end_ := (idx + size)%nat in
  if (length buf <? end_)%nat then Raise (AuthCodecError ("truncated " +:+ label +:+ " field"))
  else Ok end_.

Definition skip_varint (buf : bytes) (idx : nat) : result CodecError nat :=
  let* '(_, idx) := decode_varint buf idx in Ok idx.

Definition skip_unknown (buf : bytes) (idx : nat) (wire : Z) : result CodecError nat :=
  if wire =? WIRE_VARINT then skip_varint buf idx
  else if wire =? WIRE_64BIT then skip_fixed buf idx 8 "fixed64"
  else if wire =? WIRE_32BIT then skip_fixed buf idx 4 "fixed32"
  else if wire =? WIRE_LEN then
    let* '(_, idx) := read_bytes buf idx MAX_SUBMESSAGE_BYTES in Ok idx
  else Raise (AuthCodecError "unsupported wire type").

(** The loop of [_walk_fields]; the decoder mutates the state [s]. *)
Fixpoint walk_loop {S : Type} (decode_one : bytes -> nat -> S -> result CodecError (nat * S))
    (fuel : nat) (payload : bytes) (idx : nat) (s : S) : result CodecError S :=
  if (idx <? length payload)%nat then
    match fuel with
    | O => Raise Diverged
    | Datatypes.S fuel =>
        let* '(idx, s) := decode_one payload idx s in
        walk_loop decode_one fuel payload idx s
    end
  else Ok s.

Definition walk_fields {S : Type} (decode_one : bytes -> nat -> S -> result CodecError (nat * S))
    (max_bytes : Z) (payload : bytes) (s : S) : result CodecError S :=
  if max_bytes <? zlen payload then Raise (AuthCodecError "auth response too large")
  else walk_loop decode_one (length payload) payload 0 s.

(** ** Text and presence checks *)

Definition decode_utf8 (raw : bytes) : result CodecError pystr :=
  match utf8_decode raw with
  | Some s => Ok s
  | None => Raise (AuthCodecError "auth response is not utf-8")
  end.

Definition parse_uuid `{UnicodeDB} (text : pystr) (label : string) : result CodecError Z :=
  match uuid_parse text with
  | Some u => Ok u
  | None => Raise (AuthCodecError ("invalid " +:+ label))
  end.

Definition bounded_string (text : pystr) (label : string) : result CodecError pystr :=
  if MAX_STRING_BYTES <? zlen text then Raise (AuthCodecError (label +:+ " exceeds limit"))
  else Ok text.

Definition decode_plaintext (raw : bytes) : result CodecError pystr :=
  let* text := decode_utf8 raw in
  if MAX_TOKEN_BYTES <? zlen text then Raise (AuthCodecError "plaintext exceeds limit") else Ok text.

Definition require_present {A : Type} (value : option A) (context field : string)
    : result CodecError A :=
  match value with
  | Some a => Ok a
  | None => Raise (AuthCodecError (context +:+ " missing " +:+ field))
  end.

#[global] Arguments decode_utf8 : simpl never.
#[global] Arguments parse_uuid {_} _ _ : simpl never.
#[global] Arguments bounded_string : simpl never.
#[global] Arguments decode_plaintext : simpl never.

(** ** Varint lemmas *)

Lemma lor_shift a b k : 0 <= k -> 0 <= a < 2 ^ k -> Z.lor a (Z.shiftl b k) = a + b * 2 ^ k.
Proof.
  intros Hk Ha. rewrite <- Z.shiftl_mul_pow2 by done.
  assert (Z.land a (Z.shiftl b k) = 0) as Hl.
  { apply Z.bits_inj'. intros n Hn. rewrite Z.land_spec, Z.bits_0, Z.shiftl_spec by lia.
    destruct (Z.lt_ge_cases n k).
    - rewrite (Z.testbit_neg_r b) by lia. apply andb_false_r.
    - destruct (decide (a = 0)) as [->|]; [by rewrite Z.bits_0|].
      assert (Z.log2 a < n) by (apply Z.lt_le_trans with k; [apply Z.log2_lt_pow2|]; lia).
      by rewrite (Z.bits_above_log2 a) by lia. }
  by rewrite Z.add_nocarry_lxor, Z.lxor_lor by done.
Qed.

Lemma land_7f v : Z.land v 0x7F = v mod 128.
Proof. change 0x7F with (Z.ones 7). by rewrite Z.land_ones by lia. Qed.

Lemma more_byte b : 0 <= b < 128 -> Z.lor b 0x80 = b + 128 /\
  (Z.land (b + 128) 0x80 =? 0) = false /\ Z.land (b + 128) 0x7F = b /\ (Z.land b 0x80 =? 0) = true.
Proof.
  intros Hb.
  assert (forallb (fun b => (Z.lor b 0x80 =? b + 128) && negb (Z.land (b + 128) 0x80 =? 0)
    && (Z.land (b + 128) 0x7F =? b) && (Z.land b 0x80 =? 0))%bool (seqZ 0 128) = true) as H
    by (vm_compute; reflexivity).
  rewrite forallb_forall in H. specialize (H b). rewrite <- list_elem_of_In, elem_of_seqZ in H.
  specialize (H ltac:(lia)). bools.
  repeat split; [done|by apply Z.eqb_neq|done|by apply Z.eqb_eq].
Qed.

Lemma varint_loop_ok f : forall v, 0 <= v < 2 ^ Z.of_nat f -> (1 <= f)%nat ->
  forall pre post fuel k acc, 0 <= acc < 2 ^ (7 * k) -> 0 <= k -> v < 2 ^ (70 - 7 * k) ->
  Z.of_nat fuel = 10 - k -> k < 10 ->
  decode_varint_loop fuel (pre ++ varint_loop f v ++ post) (length pre) (7 * k) acc =
  Ok (acc + v * 2 ^ (7 * k), (length pre + length (varint_loop f v))%nat).
Proof.
  induction f as [|f IH]; intros v Hv Hf pre post fuel k acc Hacc Hk Hv70 Hfuel Hk10; [lia|].
  destruct fuel as [|fuel]; [lia|]. cbn [varint_loop].
  rewrite !land_7f, Z.shiftr_div_pow2 by lia. change (2 ^ 7) with 128.
  divmod v 128. destruct (more_byte (v mod 128)) as (Hor & Hmore & Hlow & Hlast); [lia|].
  destruct (v / 128 =? 0) eqn:Hz.
  - apply Z.eqb_eq in Hz. cbn [decode_varint_loop app]. rewrite list_lookup_middle by done.
    rewrite Hlast, land_7f, Z.mod_mod, lor_shift by lia.
    cbn. repeat f_equal; try lia.
  - apply Z.eqb_neq in Hz. rewrite Hor. cbn [decode_varint_loop app]. rewrite list_lookup_middle by done.
    rewrite Hmore, Hlow, lor_shift by lia.
    assert (k < 9).
    { destruct (decide (k = 9)) as [->|]; [|lia]. change (70 - 7 * 9) with 7 in Hv70.
      change (2 ^ 7) with 128 in Hv70. exfalso. apply Hz, Z.div_small. lia. }
    rewrite (proj2 (Z.ltb_ge 63 _)) by lia.
    replace (pre ++ v mod 128 + 128 :: varint_loop f (v / 128) ++ post)
      with ((pre ++ [v mod 128 + 128]) ++ varint_loop f (v / 128) ++ post)
      by (by rewrite <- app_assoc).
    replace (S (length pre)) with (length (pre ++ [v mod 128 + 128]))
      by (rewrite length_app; cbn; lia).
    replace (7 * k + 7) with (7 * (k + 1)) by lia.
    assert (2 ^ (7 * (k + 1)) = 128 * 2 ^ (7 * k)) as Hp
      by (rewrite Z.mul_add_distr_l, Z.pow_add_r by lia; lia).
    assert (v < 128 * 2 ^ (70 - 7 * (k + 1))).
    { change 128 with (2 ^ 7). rewrite <- Z.pow_add_r by lia.
      by replace (7 + (70 - 7 * (k + 1))) with (70 - 7 * k) by lia. }
    rewrite Nat2Z.inj_succ, Z.pow_succ_r in Hv by lia.
    pose proof (Z.pow_pos_nonneg 2 (7 * k) ltac:(lia) ltac:(lia)).
    assert (0 <= v / 128 < 2 ^ Z.of_nat f)
      by (split; [apply Z.div_pos|apply Z.div_lt_upper_bound]; lia).
    assert (1 <= f)%nat by (destruct f; [cbn in Hv; lia|lia]).
    assert (v / 128 < 2 ^ (70 - 7 * (k + 1))) by (apply Z.div_lt_upper_bound; lia).
    assert (0 <= acc + v mod 128 * 2 ^ (7 * k) < 2 ^ (7 * (k + 1))) by (rewrite Hp; nia).
    rewrite IH by (done || lia). rewrite Hp, !length_app. cbn. f_equal. f_equal; [nia|lia].
Qed.

(** A varint of less than 70 bits is read back, wherever it stands. *)
Lemma decode_varint_varint v pre post : 0 <= v < 2 ^ 70 ->
  decode_varint (pre ++ varint v ++ post) (length pre) =
  Ok (v, (length pre + length (varint v))%nat).
Proof.
  intros Hv. unfold decode_varint, varint.
  assert (0 <= v < 2 ^ Z.of_nat (S (Z.to_nat (Z.log2 v)))) as Hb.
  { rewrite Nat2Z.inj_succ, Z2Nat.id by apply Z.log2_nonneg.
    split; [lia|]. destruct (decide (v = 0)) as [->|]; [done|]. apply Z.log2_spec. lia. }
  pose proof (varint_loop_ok _ v Hb ltac:(lia) pre post 10 0 0 ltac:(cbn; lia) ltac:(lia)
    ltac:(cbn in *; lia) ltac:(lia) ltac:(lia)) as H.
  etransitivity; [exact H|]. f_equal. f_equal. cbn. lia.
Qed.

(** ** The wire format *)

Inductive Field :=
| FVarint (n v : Z)
| FLen (n : Z) (data : bytes)
| FFixed64 (n : Z) (data : bytes)
| FFixed32 (n : Z) (data : bytes).

Definition field_key (n wire : Z) : bytes := varint (Z.lor (Z.shiftl n 3) wire).

Definition enc_field (f : Field) : bytes :=
  match f with
  | FVarint n v => field_key n WIRE_VARINT ++ varint v
  | FLen n d => field_key n WIRE_LEN ++ varint (zlen d) ++ d
  | FFixed64 n d => field_key n WIRE_64BIT ++ d
  | FFixed32 n d => field_key n WIRE_32BIT ++ d
  end.

Definition enc_fields (fs : list Field) : bytes := mjoin (enc_field <$> fs).

(** A field as protobuf allows it (field numbers below [2^29]) and within a
    decoder's length limit. *)
Definition field_ok (max_len : Z) (f : Field) : Prop :=
  match f with
  | FVarint n v => 0 <= n < 2 ^ 29 /\ 0 <= v < 2 ^ 70
  | FLen n d => 0 <= n < 2 ^ 29 /\ zlen d <= max_len /\ max_len < 2 ^ 70
  | FFixed64 n d => 0 <= n < 2 ^ 29 /\ length d = 8%nat
  | FFixed32 n d => 0 <= n < 2 ^ 29 /\ length d = 4%nat
  end.

(** What a message decoder does with a field: its length limit, the handler of
    length-delimited fields and, if it has one, the handler of varints. *)
Record FieldDecoder (S : Type) := {
  max_len : Z;
  apply_len : S -> Z -> bytes -> result CodecError S;
  apply_varint : option (S -> Z -> Z -> S);
}.
Arguments max_len {S} _.
Arguments apply_len {S} _ _ _ _.
Arguments apply_varint {S} _.

(** The body the [_decode_*_field] functions share. *)
Definition decode_field {S : Type} (d : FieldDecoder S) (buf : bytes) (idx : nat) (s : S)
    : result CodecError (nat * S) :=
  let* '(key, idx) := decode_varint buf idx in
  let field := Z.shiftr key 3 in
  let wire := Z.land key 0x07 in
  if wire =? WIRE_LEN then
    let* '(raw, idx) := read_bytes buf idx (max_len d) in
    let* s := apply_len d s field raw in
    Ok (idx, s)
  else
    let skip := let* idx := skip_unknown buf idx wire in Ok (idx, s) in
    match apply_varint d with
    | Some av =>
        if wire =? WIRE_VARINT then
          let* '(num, idx) := decode_varint buf idx in
          Ok (idx, av s field num)
        else skip
    | None => skip
    end.

(** The meaning of one field for a decoder. *)
Definition apply_field {S : Type} (d : FieldDecoder S) (s : S) (f : Field) : result CodecError S :=
  match f with
  | FLen n data => apply_len d s n data
  | FVarint n v => Ok (match apply_varint d with Some av => av s n v | None => s end)
  | _ => Ok s
  end.

Lemma read_bytes_enc pre data post limit : zlen data <= limit -> limit < 2 ^ 70 ->
  read_bytes (pre ++ varint (zlen data) ++ data ++ post) (length pre) limit =
  Ok (data, (length pre + length (varint (zlen data)) + length data)%nat).
Proof.
  intros Hd Hl. unfold read_bytes. unfold zlen in *.
  rewrite decode_varint_varint by lia. cbn [rbind].
  rewrite (proj2 (Z.ltb_ge _ _)) by lia. rewrite Nat2Z.id.
  rewrite (proj2 (Nat.ltb_ge _ _)) by (rewrite !length_app; lia).
  rewrite (app_assoc pre), drop_app_length', take_app_length by (rewrite length_app; lia). done.
Qed.

Lemma key_split n w : 0 <= n < 2 ^ 29 -> 0 <= w < 8 ->
  let k := Z.lor (Z.shiftl n 3) w in 0 <= k < 2 ^ 70 /\ Z.shiftr k 3 = n /\ Z.land k 0x07 = w.
Proof.
  intros Hn Hw. cbn zeta. rewrite Z.lor_comm, lor_shift by lia.
  rewrite Z.shiftr_div_pow2 by lia. change 0x07 with (Z.ones 3). rewrite Z.land_ones by lia.
  change (2 ^ 3) with 8. divmod (w + n * 8) 8. rewrite Z.mod_add, (Z.mod_small w) in * by lia. lia.
Qed.

Lemma skip_fixed_enc (pre d post : bytes) size label : length d = size ->
  skip_fixed (pre ++ d ++ post) (length pre) size label = Ok (length pre + size)%nat.
Proof.
  intros <-. unfold skip_fixed. by rewrite (proj2 (Nat.ltb_ge _ _)) by (rewrite !length_app; lia).
Qed.

Section Decoding.
Context {S : Type} (d : FieldDecoder S).
Implicit Types (f : Field) (s : S).

(** Reading the key of a field moves the read position behind it. *)
Lemma decode_key pre n w rest : 0 <= n < 2 ^ 29 -> 0 <= w < 8 ->
  decode_varint (pre ++ field_key n w ++ rest) (length pre) =
  Ok (Z.lor (Z.shiftl n 3) w, length (pre ++ field_key n w)).
Proof.
  intros Hn Hw. destruct (key_split n w Hn Hw) as [Hk _]. unfold field_key.
  by rewrite decode_varint_varint, length_app.
Qed.

Lemma decode_field_enc pre f post s : field_ok (max_len d) f ->
  decode_field d (pre ++ enc_field f ++ post) (length pre) s =
  let* s' := apply_field d s f in Ok ((length pre + length (enc_field f))%nat, s').
Proof.
  intros Hf. unfold decode_field.
  destruct f as [n v|n data|n data|n data]; cbn [enc_field field_ok apply_field] in *;
    rewrite <- !app_assoc; destruct Hf as [Hn Hf]; rewrite decode_key by (done || lia); cbn [rbind].
  - destruct (key_split n WIRE_VARINT Hn ltac:(done)) as (_ & -> & ->). cbn [Z.eqb].
    change (WIRE_VARINT =? WIRE_LEN) with false. change (WIRE_VARINT =? WIRE_VARINT) with true.
    cbn iota. unfold skip_unknown, skip_varint. change (WIRE_VARINT =? WIRE_VARINT) with true. cbn iota.
    rewrite (app_assoc pre), !decode_varint_varint by done.
    rewrite !length_app, Nat.add_assoc. by destruct (apply_varint d).
  - destruct (key_split n WIRE_LEN Hn ltac:(done)) as (_ & -> & ->).
    change (WIRE_LEN =? WIRE_LEN) with true. cbn iota.
    rewrite (app_assoc pre), read_bytes_enc by (destruct Hf; done). cbn [rbind].
    rewrite !length_app, !Nat.add_assoc. done.
  - destruct (key_split n WIRE_64BIT Hn ltac:(done)) as (_ & -> & ->).
    change (WIRE_64BIT =? WIRE_LEN) with false. change (WIRE_64BIT =? WIRE_VARINT) with false. cbn iota.
    unfold skip_unknown. change (WIRE_64BIT =? WIRE_VARINT) with false.
    change (WIRE_64BIT =? WIRE_64BIT) with true. cbn iota.
    rewrite (app_assoc pre), skip_fixed_enc by done. cbn [rbind].
    rewrite !length_app, Hf, Nat.add_assoc. by destruct (apply_varint d).
  - destruct (key_split n WIRE_32BIT Hn ltac:(done)) as (_ & -> & ->).
    change (WIRE_32BIT =? WIRE_LEN) with false. change (WIRE_32BIT =? WIRE_VARINT) with false. cbn iota.
    unfold skip_unknown. change (WIRE_32BIT =? WIRE_VARINT) with false.
    change (WIRE_32BIT =? WIRE_64BIT) with false.
    change (WIRE_32BIT =? WIRE_32BIT) with true. cbn iota.
    rewrite (app_assoc pre), skip_fixed_enc by done. cbn [rbind].
    rewrite !length_app, Hf, Nat.add_assoc. by destruct (apply_varint d).
Qed.

Lemma varint_nonempty v : (1 <= length (varint v))%nat.
Proof. unfold varint. cbn. case_if; cbn; lia. Qed.

Lemma field_key_nonempty n w : (1 <= length (field_key n w))%nat.
Proof. apply varint_nonempty. Qed.

Lemma enc_field_nonempty f : (1 <= length (enc_field f))%nat.
Proof.
  destruct f as [n v|n data|n data|n data]; cbn [enc_field]; rewrite length_app.
  all: match goal with |- context [field_key ?a ?w] => pose proof (field_key_nonempty a w) end; lia.
Qed.

Lemma walk_loop_enc fs : forall pre fuel s, Forall (field_ok (max_len d)) fs ->
  (length (enc_fields fs) <= fuel)%nat ->
  walk_loop (decode_field d) fuel (pre ++ enc_fields fs) (length pre) s = rfold (apply_field d) s fs.
Proof.
  induction fs as [|f fs IH]; intros pre fuel s Hok Hfuel.
  - change (enc_fields []) with (@nil Z). rewrite app_nil_r.
    destruct fuel; cbn [walk_loop]; by rewrite Nat.ltb_irrefl.
  - apply Forall_cons in Hok as [Hf Hok].
    change (enc_fields (f :: fs)) with (enc_field f ++ enc_fields fs) in *.
    pose proof (enc_field_nonempty f) as Hne. rewrite length_app in Hfuel.
    destruct fuel as [|fuel]; [lia|]. cbn [walk_loop].
    rewrite (proj2 (Nat.ltb_lt _ _)) by (rewrite !length_app; lia).
    rewrite decode_field_enc by done. cbn [rfold].
    destruct (apply_field d s f) as [s'|e]; [|done]. cbn [rbind].
    rewrite app_assoc, <- length_app. apply IH; [done|lia].
Qed.

(** Decoding an encoded message folds the decoder's meaning of its fields. *)
Lemma walk_fields_encoded limit fs s : Forall (field_ok (max_len d)) fs ->
  zlen (enc_fields fs) <= limit ->
  walk_fields (decode_field d) limit (enc_fields fs) s = rfold (apply_field d) s fs.
Proof.
  intros Hok Hl. unfold walk_fields. rewrite (proj2 (Z.ltb_ge _ _)) by done.
  apply (walk_loop_enc fs []); done.
Qed.
End Decoding.

(** ** Arbitrary input *)

(** The call returns, or raises [AuthCodecError]: nothing else escapes, and the
    step bound is not exhausted. *)
Definition contained {A : Type} (r : result CodecError A) : Prop :=
  match r with
  | Ok _ | Raise (AuthCodecError _) => True
  | Raise _ => False
  end.

(** Reading moves forward and never past the end. *)
Definition advances {A : Type} (len idx : nat) (r : result CodecError A) (pos : A -> nat) : Prop :=
  match r with
  | Ok a => (idx < pos a <= len)%nat
  | _ => contained r
  end.

Lemma decode_varint_loop_advances fuel : forall buf idx shift acc,
  70 <= shift + 7 * Z.of_nat fuel ->
  shift <= 63 ->
  advances (length buf) idx (decode_varint_loop fuel buf idx shift acc) snd.
Proof.
  induction fuel as [|fuel IH]; intros buf idx shift acc Hs H63; [lia|].
  cbn [decode_varint_loop]. destruct (buf !! idx) as [b|] eqn:Hb; [|done].
  apply lookup_lt_Some in Hb. destruct (Z.land b 0x80 =? 0); [cbn; lia|].
  destruct (63 <? shift + 7) eqn:H; bools; [done|].
  specialize (IH buf (S idx) (shift + 7) (Z.lor acc (Z.shiftl (Z.land b 127) shift))
    ltac:(lia) ltac:(lia)).
  destruct (decode_varint_loop _ _ _ _ _) as [[? ?]|]; cbn in *; [lia|done].
Qed.

Lemma decode_varint_advances buf idx : advances (length buf) idx (decode_varint buf idx) snd.
Proof. by apply decode_varint_loop_advances. Qed.

Lemma read_bytes_advances buf idx limit : advances (length buf) idx (read_bytes buf idx limit) snd.
Proof.
  unfold read_bytes. pose proof (decode_varint_advances buf idx) as H.
  destruct (decode_varint buf idx) as [[len idx']|]; cbn [rbind advances snd] in *; [|done].
  cbv zeta. destruct (limit <? len); [done|]. destruct (length buf <? idx' + Z.to_nat len)%nat eqn:E; [done|].
  apply Nat.ltb_ge in E. cbn. lia.
Qed.

Lemma skip_unknown_advances buf idx wire : (idx <= length buf)%nat ->
  advances (length buf) idx (skip_unknown buf idx wire) id.
Proof.
  intros Hidx. unfold skip_unknown, skip_varint, skip_fixed.
  pose proof (decode_varint_advances buf idx) as H1.
  pose proof (read_bytes_advances buf idx MAX_SUBMESSAGE_BYTES) as H2.
  destruct (decode_varint buf idx) as [[? ?]|], (read_bytes buf idx _) as [[? ?]|];
    cbn [rbind advances snd] in *; cbv zeta; unfold id.
  all: repeat case_if; cbn [advances] in *; try done; try lia.
  all: match goal with H : (_ <? _)%nat = false |- _ => apply Nat.ltb_ge in H end; lia.
Qed.

Lemma decode_field_advances {S : Type} (d : FieldDecoder S) buf idx s :
  (forall s n raw, contained (apply_len d s n raw)) ->
  advances (length buf) idx (decode_field d buf idx s) fst.
Proof.
  intros Hd. unfold decode_field. pose proof (decode_varint_advances buf idx) as H.
  destruct (decode_varint buf idx) as [[key i]|]; cbn in *; [|done].
  assert (advances (length buf) idx (let* i' := skip_unknown buf i (Z.land key 7) in Ok (i', s)) fst).
  { pose proof (skip_unknown_advances buf i (Z.land key 7) ltac:(lia)) as H'.
    destruct (skip_unknown _ _ _); cbn in *; unfold id in *; [lia|done]. }
  destruct (Z.land key 7 =? WIRE_LEN).
  - pose proof (read_bytes_advances buf i (max_len d)) as H'.
    destruct (read_bytes buf i (max_len d)) as [[raw i']|]; cbn in *; [|done].
    specialize (Hd s (Z.shiftr key 3) raw).
    destruct (apply_len d s (Z.shiftr key 3) raw); cbn; [lia|done].
  - destruct (apply_varint d); [|done]. destruct (Z.land key 7 =? WIRE_VARINT); [|done].
    pose proof (decode_varint_advances buf i) as H'.
    destruct (decode_varint buf i) as [[? ?]|]; cbn in *; [lia|done].
Qed.

(** On any bytes the loop ends within its bound: it returns or raises a codec
    error. *)
Lemma walk_fields_total {S : Type} (d : FieldDecoder S) limit payload s :
  (forall s n raw, contained (apply_len d s n raw)) ->
  contained (walk_fields (decode_field d) limit payload s).
Proof.
  intros Hd. unfold walk_fields. destruct (limit <? zlen payload); [done|].
  assert (forall fuel idx s, (length payload <= idx + fuel)%nat ->
    contained (walk_loop (decode_field d) fuel payload idx s)) as H; [|by apply H].
  induction fuel as [|fuel IH]; intros idx s' Hf; cbn [walk_loop].
  - by rewrite (proj2 (Nat.ltb_ge _ _)) by lia.
  - destruct (idx <? length payload)%nat; [|done].
    pose proof (decode_field_advances d payload idx s' Hd) as Ha.
    destruct (decode_field d payload idx s') as [[i s2]|e]; cbn in *; [|done].
    apply IH. lia.
Qed.

(** The invariant of a decoder's state holds after decoding. *)
Lemma walk_fields_inv {S : Type} (d : FieldDecoder S) (P : S -> Prop) limit payload s s' :
  (forall s n raw s', P s -> apply_len d s n raw = Ok s' -> P s') ->
  (forall av s n v, apply_varint d = Some av -> P s -> P (av s n v)) ->
  P s -> walk_fields (decode_field d) limit payload s = Ok s' -> P s'.
Proof.
  intros Hl Hv Hs. unfold walk_fields. destruct (limit <? zlen payload); [done|].
  generalize 0%nat. generalize (length payload) at 1. intros fuel. revert s Hs.
  induction fuel as [|fuel IH]; intros s Hs idx; cbn [walk_loop];
    destruct (idx <? length payload)%nat; [done|by intros [= <-]| |by intros [= <-]].
  destruct (decode_field d payload idx s) as [[i s2]|e] eqn:E; cbn; [|done]. apply IH.
  unfold decode_field in E. inv_bind. destruct x as [key i0].
  repeat case_match; inv_bind; repeat (case_match; inv_bind); simplify_eq; eauto.
Qed.
