(* ===== verification/AuthCodec.v ===== *)
(** * Auth service messages
    ([packages/authclient/src/authclient/codec.py],
    [provider_credential_codec.py], [services/api/app/auth/session_refresh_codec.py])

    The message encoders and decoders on the primitives of [Wire]: one record
    per wire and state class, one decoder per [_decode_*_field].  A [datetime]
    is its distance from the epoch in microseconds. *)

From Stdlib Require Import SpecFloat.
From S2P Require Import Prelude Num PyText Wire.

(** ** [datetime] *)

Definition UUID : Type := Z.
Definition datetime : Type := Z.

(** [a / b] of integers: the correctly rounded quotient. *)
Definition int_truediv (a : Z) (b : positive) : binary64 :=
  match a with
  | Z0 => S754_zero false
  | Zpos p => SFdiv 53 1024 (S754_finite false p 0) (S754_finite false b 0)
  | Zneg p => SFdiv 53 1024 (S754_finite true p 0) (S754_finite false b 0)
  end.

(** Round half to even, of a double that is not negative. *)
Definition b64_round (x : binary64) : Z :=
  match x with
  | S754_finite false m e =>
      if 0 <=? e then Z.shiftl (Zpos m) e
      else
        let d := Z.shiftl 1 (- e) in
        let q := Zpos m / d in
        let r := 2 * (Zpos m mod d) in
        if r <? d then q else if d <? r then q + 1 else if Z.even q then q else q + 1
  | _ => 0
  end.

(** The first second of year 10000. *)
Definition TIMESTAMP_END : Z := 253402300800.

(** [datetime.fromtimestamp(x, tz=UTC)] for [x >= 0]; [None] is an
    [OverflowError], [OSError] or [ValueError]. *)
Definition fromtimestamp (x : binary64) : option datetime :=
  match b64_trunc x with
  | None => None
  | Some whole =>
      let us := b64_round (b64_mul (b64_sub x (b64_of_Z whole)) (b64_of_Z 1000000)) in
      let '(whole, us) := if 1000000 <=? us then (whole + 1, us - 1000000) else (whole, us) in
      if whole <? TIMESTAMP_END then Some (whole * 1000000 + us) else None
  end.

(** [_encode_timestamp] *)
Definition encode_timestamp (value : datetime) : result CodecError bytes :=
  let seconds := default 0 (b64_trunc (int_truediv value 1000000)) in
  let nanos := (value mod 1000000) * 1000 in
  let* out := encode_varint_field 1 seconds in
  if nanos =? 0 then Ok out
  else let* n := encode_varint_field 2 nanos in Ok (out ++ n).

(** The loop of [_decode_timestamp] over [(seconds, nanos)]. *)
Fixpoint timestamp_loop (fuel : nat) (raw : bytes) (idx : nat) (seconds nanos : Z)
    : result CodecError (Z * Z) :=
  if (idx <? length raw)%nat then
    match fuel with
    | O => Raise Diverged
    | S fuel =>
        let* '(key, idx) := decode_varint raw idx in
        let field := Z.shiftr key 3 in
        let wire := Z.land key 0x07 in
        if negb (wire =? WIRE_VARINT) then
          let* idx := skip_unknown raw idx wire in
          timestamp_loop fuel raw idx seconds nanos
        else
          let* '(num, idx) := decode_varint raw idx in
          if field =? 1 then timestamp_loop fuel raw idx num nanos
          else if field =? 2 then timestamp_loop fuel raw idx seconds num
          else timestamp_loop fuel raw idx seconds nanos
    end
  else Ok (seconds, nanos).

Definition decode_timestamp (raw : bytes) : result CodecError datetime :=
  let* '(seconds, nanos) := timestamp_loop (length raw) raw 0 0 0 in
  if (nanos <? 0) || (999999999 <? nanos) then
    Raise (AuthCodecError "timestamp nanos out of range")
  else match fromtimestamp (b64_add (b64_of_Z seconds) (int_truediv nanos 1000000000)) with
       | Some d => Ok d
       | None => Raise (AuthCodecError "invalid timestamp")
       end.

(** ** [ValidateToken] *)

Section Messages.
Context `{UnicodeDB}.

Record ValidateTokenWire := {
  vt_org_id : UUID;
  vt_permissions : Z;
  vt_agent_id : option UUID;
  vt_user_id : option pystr;
  vt_token_id : option pystr;
}.

Record TokenDecodeState := {
  td_org_id : option UUID;
  td_permissions : Z;
  td_agent_id : option UUID;
  td_user_id : option pystr;
  td_token_id : option pystr;
}.

Definition token_state0 : TokenDecodeState :=
  {| td_org_id := None; td_permissions := 0; td_agent_id := None; td_user_id := None; td_token_id := None |}.

Definition encode_validate_token_request (access_token : pystr) : result CodecError bytes :=
  let* data := encode_utf8 access_token in
  if MAX_TOKEN_BYTES <? zlen data then Raise (AuthCodecError "access token exceeds codec limit")
  else encode_len_field 1 data.

Definition apply_token_len (s : TokenDecodeState) (field : Z) (raw : bytes)
    : result CodecError TokenDecodeState :=
  if field =? 1 then
    let* t := decode_utf8 raw in let* u := parse_uuid t "org_id" in
    Ok {| td_org_id := Some u; td_permissions := td_permissions s; td_agent_id := td_agent_id s;
          td_user_id := td_user_id s; td_token_id := td_token_id s |}
  else if field =? 3 then
    let* t := decode_utf8 raw in let* u := parse_uuid t "agent_id" in
    Ok {| td_org_id := td_org_id s; td_permissions := td_permissions s; td_agent_id := Some u;
          td_user_id := td_user_id s; td_token_id := td_token_id s |}
  else if field =? 4 then
    let* t := decode_utf8 raw in let* t := bounded_string t "user_id" in
    Ok {| td_org_id := td_org_id s; td_permissions := td_permissions s; td_agent_id := td_agent_id s;
          td_user_id := Some t; td_token_id := td_token_id s |}
  else if field =? 5 then
    let* t := decode_utf8 raw in let* t := bounded_string t "token_id" in
    Ok {| td_org_id := td_org_id s; td_permissions := td_permissions s; td_agent_id := td_agent_id s;
          td_user_id := td_user_id s; td_token_id := Some t |}
  else Ok s.

Definition apply_token_varint (s : TokenDecodeState) (field num : Z) : TokenDecodeState :=
  if field =? 2 then
    {| td_org_id := td_org_id s; td_permissions := num; td_agent_id := td_agent_id s;
       td_user_id := td_user_id s; td_token_id := td_token_id s |}
  else s.

(** [_decode_token_field] *)
Definition token_field : FieldDecoder TokenDecodeState :=
  {| max_len := MAX_STRING_BYTES; apply_len := apply_token_len; apply_varint := Some apply_token_varint |}.

Definition decode_validate_token_response (payload : bytes) : result CodecError ValidateTokenWire :=
  let* s := walk_fields (decode_field token_field) MAX_MESSAGE_BYTES payload token_state0 in
  match td_org_id s with
  | None => Raise (AuthCodecError "auth response missing org_id")
  | Some org => Ok {| vt_org_id := org; vt_permissions := td_permissions s; vt_agent_id := td_agent_id s;
                      vt_user_id := td_user_id s; vt_token_id := td_token_id s |}
  end.

(** ** [ValidateAgent] *)

Record ValidateAgentWire := { va_agent_id : UUID; va_org_id : UUID; va_status : pystr }.

Record AgentDecodeState := {
  ad_agent_id : option UUID;
  ad_org_id : option UUID;
  ad_status : option pystr;
}.

Definition agent_state0 : AgentDecodeState :=
  {| ad_agent_id := None; ad_org_id := None; ad_status := None |}.

Definition encode_validate_agent_request (agent_id org_id : pystr) : result CodecError bytes :=
  let* a := encode_string_field 1 agent_id in
  let* o := encode_string_field 2 org_id in
  Ok (a ++ o).

Definition apply_agent_len (s : AgentDecodeState) (field : Z) (raw : bytes)
    : result CodecError AgentDecodeState :=
  if field =? 1 then
    let* t := decode_utf8 raw in let* u := parse_uuid t "agent_id" in
    Ok {| ad_agent_id := Some u; ad_org_id := ad_org_id s; ad_status := ad_status s |}
  else if field =? 2 then
    let* t := decode_utf8 raw in let* u := parse_uuid t "org_id" in
    Ok {| ad_agent_id := ad_agent_id s; ad_org_id := Some u; ad_status := ad_status s |}
  else if field =? 3 then
    let* t := decode_utf8 raw in let* t := bounded_string t "status" in
    Ok {| ad_agent_id := ad_agent_id s; ad_org_id := ad_org_id s; ad_status := Some t |}
  else Ok s.

(** [_decode_agent_field]: varints are read and dropped. *)
Definition agent_field : FieldDecoder AgentDecodeState :=
  {| max_len := MAX_STRING_BYTES; apply_len := apply_agent_len; apply_varint := Some (fun s _ _ => s) |}.

Definition finish_agent_wire (s : AgentDecodeState) : result CodecError ValidateAgentWire :=
  match ad_agent_id s, ad_org_id s, ad_status s with
  | None, _, _ => Raise (AuthCodecError "auth response missing agent_id")
  | _, None, _ => Raise (AuthCodecError "auth response missing org_id")
  | _, _, None | _, _, Some [] => Raise (AuthCodecError "auth response missing status")
  | Some a, Some o, Some st =>
      let* st := bounded_string st "status" in
      Ok {| va_agent_id := a; va_org_id := o; va_status := st |}
  end.

Definition decode_validate_agent_response (payload : bytes) : result CodecError ValidateAgentWire :=
  let* s := walk_fields (decode_field agent_field) MAX_MESSAGE_BYTES payload agent_state0 in
  finish_agent_wire s.

(** ** Token administration *)

Definition TOKEN_TYPE_PAT : Z := 1.

Record CreateTokenEncodeFields := {
  ct_org_id : pystr;
  ct_name : pystr;
  ct_permissions : Z;
  ct_description : pystr;
  ct_token_type : Z;
  ct_expires_at : option datetime;
  ct_user_id : option pystr;
  ct_agent_id : option pystr;
}.

(** [if value: out += field]: absent and empty strings are skipped. *)
Definition opt_string_field (field : Z) (value : option pystr) : result CodecError bytes :=
  match value with
  | None | Some [] => Ok []
  | Some v => encode_string_field field v
  end.

Definition encode_revoke_token_request (org_id token_id : pystr) (reason : option pystr)
    : result CodecError bytes :=
  let* o := encode_string_field 1 org_id in
  let* t := encode_string_field 2 token_id in
  let* r := opt_string_field 3 reason in
  Ok (o ++ t ++ r).

Definition encode_create_token_request (f : CreateTokenEncodeFields) : result CodecError bytes :=
  let* a := encode_string_field 1 (ct_org_id f) in
  let* b := encode_string_field 2 (ct_name f) in
  let* c := encode_string_field 3 (ct_description f) in
  let* d := encode_varint_field 4 (ct_token_type f) in
  let* e := encode_varint_field 5 (ct_permissions f) in
  let* x := match ct_expires_at f with
            | None => Ok []
            | Some ts => let* raw := encode_timestamp ts in encode_message_field 6 raw
            end in
  let* u := opt_string_field 7 (ct_user_id f) in
  let* g := opt_string_field 8 (ct_agent_id f) in
  Ok (a ++ b ++ c ++ d ++ e ++ x ++ u ++ g).

Definition encode_list_tokens_request (org_id cursor : pystr) (limit : Z) : result CodecError bytes :=
  let* o := encode_string_field 1 org_id in
  let* c := opt_string_field 2 (Some cursor) in
  let* l := if limit =? 0 then Ok [] else encode_varint_field 3 limit in
  Ok (o ++ c ++ l).

Record CreateTokenWire := {
  cw_token_id : pystr;
  cw_plaintext : pystr;
  cw_prefix : pystr;
  cw_created_at : datetime;
}.

Record CreateDecodeState := {
  cd_token_id : option pystr;
  cd_plaintext : option pystr;
  cd_prefix : option pystr;
  cd_created_at : option datetime;
}.

Definition create_state0 : CreateDecodeState :=
  {| cd_token_id := None; cd_plaintext := None; cd_prefix := None; cd_created_at := None |}.

Definition apply_create_len (s : CreateDecodeState) (field : Z) (raw : bytes)
    : result CodecError CreateDecodeState :=
  if field =? 1 then
    let* t := decode_utf8 raw in let* t := bounded_string t "token_id" in
    Ok {| cd_token_id := Some t; cd_plaintext := cd_plaintext s; cd_prefix := cd_prefix s;
          cd_created_at := cd_created_at s |}
  else if field =? 2 then
    let* t := decode_plaintext raw in
    Ok {| cd_token_id := cd_token_id s; cd_plaintext := Some t; cd_prefix := cd_prefix s;
          cd_created_at := cd_created_at s |}
  else if field =? 3 then
    let* t := decode_utf8 raw in let* t := bounded_string t "prefix" in
    Ok {| cd_token_id := cd_token_id s; cd_plaintext := cd_plaintext s; cd_prefix := Some t;
          cd_created_at := cd_created_at s |}
  else if field =? 4 then
    let* d := decode_timestamp raw in
    Ok {| cd_token_id := cd_token_id s; cd_plaintext := cd_plaintext s; cd_prefix := cd_prefix s;
          cd_created_at := Some d |}
  else Ok s.

(** [_decode_create_field] *)
Definition create_field : FieldDecoder CreateDecodeState :=
  {| max_len := MAX_TOKEN_BYTES; apply_len := apply_create_len; apply_varint := None |}.

Definition finish_create_wire (s : CreateDecodeState) : result CodecError CreateTokenWire :=
  let ctx := "create token response"%string in
  let* i := require_present (cd_token_id s) ctx "token_id" in
  let* p := require_present (cd_plaintext s) ctx "plaintext" in
  let* x := require_present (cd_prefix s) ctx "prefix" in
  let* c := require_present (cd_created_at s) ctx "created_at" in
  Ok {| cw_token_id := i; cw_plaintext := p; cw_prefix := x; cw_created_at := c |}.

Definition decode_create_token_response (payload : bytes) : result CodecError CreateTokenWire :=
  let* s := walk_fields (decode_field create_field) MAX_MESSAGE_BYTES payload create_state0 in
  finish_create_wire s.

Record TokenMetadataWire := {
  tm_token_id : pystr;
  tm_name : pystr;
  tm_prefix : pystr;
  tm_permissions : Z;
  tm_created_at : datetime;
  tm_expires_at : option datetime;
  tm_revoked_at : option datetime;
  tm_is_revoked : bool;
}.

Record MetaDecodeState := {
  md_token_id : option pystr;
  md_name : option pystr;
  md_prefix : option pystr;
  md_permissions : Z;
  md_expires_at : option datetime;
  md_created_at : option datetime;
  md_revoked_at : option datetime;
  md_is_revoked : bool;
}.

Definition meta_state0 : MetaDecodeState :=
  {| md_token_id := None; md_name := None; md_prefix := None; md_permissions := 0;
     md_expires_at := None; md_created_at := None; md_revoked_at := None; md_is_revoked := false |}.

(** The state with its text fields, or its times, replaced. *)
Definition md_texts (s : MetaDecodeState) (i n p : option pystr) : MetaDecodeState :=
  {| md_token_id := i; md_name := n; md_prefix := p; md_permissions := md_permissions s;
     md_expires_at := md_expires_at s; md_created_at := md_created_at s;
     md_revoked_at := md_revoked_at s; md_is_revoked := md_is_revoked s |}.

Definition md_times (s : MetaDecodeState) (e c r : option datetime) : MetaDecodeState :=
  {| md_token_id := md_token_id s; md_name := md_name s; md_prefix := md_prefix s;
     md_permissions := md_permissions s; md_expires_at := e; md_created_at := c;
     md_revoked_at := r; md_is_revoked := md_is_revoked s |}.

Definition apply_meta_len (s : MetaDecodeState) (field : Z) (data : bytes)
    : result CodecError MetaDecodeState :=
  if field =? 1 then
    let* t := decode_utf8 data in let* t := bounded_string t "token_id" in
    Ok (md_texts s (Some t) (md_name s) (md_prefix s))
  else if field =? 2 then
    let* t := decode_utf8 data in let* t := bounded_string t "name" in
    Ok (md_texts s (md_token_id s) (Some t) (md_prefix s))
  else if field =? 3 then
    let* t := decode_utf8 data in let* t := bounded_string t "prefix" in
    Ok (md_texts s (md_token_id s) (md_name s) (Some t))
  else if field =? 5 then
    let* d := decode_timestamp data in Ok (md_times s (Some d) (md_created_at s) (md_revoked_at s))
  else if field =? 6 then
    let* d := decode_timestamp data in Ok (md_times s (md_expires_at s) (Some d) (md_revoked_at s))
  else if field =? 7 then
    let* d := decode_timestamp data in Ok (md_times s (md_expires_at s) (md_created_at s) (Some d))
  else Ok s.

Definition apply_meta_varint (s : MetaDecodeState) (field num : Z) : MetaDecodeState :=
  if field =? 4 then
    {| md_token_id := md_token_id s; md_name := md_name s; md_prefix := md_prefix s;
       md_permissions := num; md_expires_at := md_expires_at s; md_created_at := md_created_at s;
       md_revoked_at := md_revoked_at s; md_is_revoked := md_is_revoked s |}
  else if field =? 8 then
    {| md_token_id := md_token_id s; md_name := md_name s; md_prefix := md_prefix s;
       md_permissions := md_permissions s; md_expires_at := md_expires_at s;
       md_created_at := md_created_at s; md_revoked_at := md_revoked_at s;
       md_is_revoked := negb (num =? 0) |}
  else s.

(** [_decode_meta_field] *)
Definition meta_field : FieldDecoder MetaDecodeState :=
  {| max_len := MAX_SUBMESSAGE_BYTES; apply_len := apply_meta_len; apply_varint := Some apply_meta_varint |}.

Definition finish_meta_wire (s : MetaDecodeState) : result CodecError TokenMetadataWire :=
  let ctx := "token metadata"%string in
  let* i := require_present (md_token_id s) ctx "token_id" in
  let* n := require_present (md_name s) ctx "name" in
  let* p := require_present (md_prefix s) ctx "prefix" in
  let* c := require_present (md_created_at s) ctx "created_at" in
  Ok {| tm_token_id := i; tm_name := n; tm_prefix := p; tm_permissions := md_permissions s;
        tm_created_at := c; tm_expires_at := md_expires_at s; tm_revoked_at := md_revoked_at s;
        tm_is_revoked := md_is_revoked s |}.

Definition decode_token_metadata (raw : bytes) : result CodecError TokenMetadataWire :=
  let* s := walk_fields (decode_field meta_field) MAX_SUBMESSAGE_BYTES raw meta_state0 in
  finish_meta_wire s.

(** [ListTokensWire] and its decode state have the same two fields. *)
Record ListTokensWire := { lt_tokens : list TokenMetadataWire; lt_next_cursor : pystr }.

Definition list_state0 : ListTokensWire := {| lt_tokens := []; lt_next_cursor := [] |}.

Definition apply_list_len (s : ListTokensWire) (field : Z) (raw : bytes)
    : result CodecError ListTokensWire :=
  if field =? 1 then
    let* t := decode_token_metadata raw in
    Ok {| lt_tokens := lt_tokens s ++ [t]; lt_next_cursor := lt_next_cursor s |}
  else if field =? 2 then
    let* t := decode_utf8 raw in let* t := bounded_string t "next_cursor" in
    Ok {| lt_tokens := lt_tokens s; lt_next_cursor := t |}
  else Ok s.

(** [_decode_list_field] *)
Definition list_field : FieldDecoder ListTokensWire :=
  {| max_len := MAX_SUBMESSAGE_BYTES; apply_len := apply_list_len; apply_varint := None |}.

Definition decode_list_tokens_response (payload : bytes) : result CodecError ListTokensWire :=
  walk_fields (decode_field list_field) MAX_LIST_MESSAGE_BYTES payload list_state0.

(** ** Provider credentials ([provider_credential_codec.py]) *)

Record CreateProviderCredentialEncodeFields := {
  pc_org_id : pystr;
  pc_provider_name : pystr;
  pc_api_key : pystr;
  pc_base_url : pystr;
}.

Definition encode_create_provider_credential_request (f : CreateProviderCredentialEncodeFields)
    : result CodecError bytes :=
  let* a := encode_string_field 1 (pc_org_id f) in
  let* b := encode_string_field 2 (pc_provider_name f) in
  let* c := encode_api_key_field 3 (pc_api_key f) in
  let* d := opt_string_field 4 (Some (pc_base_url f)) in
  Ok (a ++ b ++ c ++ d).

(** Also [encode_get_provider_credential_request] and
    [encode_delete_provider_credential_request]. *)
Definition encode_org_provider_ref_request (org_id provider_name : pystr) : result CodecError bytes :=
  let* a := encode_string_field 1 org_id in
  let* b := encode_string_field 2 provider_name in
  Ok (a ++ b).

Definition encode_list_provider_credentials_request (org_id : pystr) : result CodecError bytes :=
  encode_string_field 1 org_id.

Record ProviderCredentialMetadataWire := {
  pm_provider_name : pystr;
  pm_status : pystr;
  pm_key_hint : pystr;
  pm_base_url : pystr;
  pm_encryption_key_id : pystr;
  pm_last_validated_at : option datetime;
}.

Record CredMetaDecodeState := {
  cm_provider_name : option pystr;
  cm_status : option pystr;
  cm_key_hint : option pystr;
  cm_base_url : pystr;
  cm_encryption_key_id : pystr;
  cm_last_validated_at : option datetime;
}.

Definition cred_meta_state0 : CredMetaDecodeState :=
  {| cm_provider_name := None; cm_status := None; cm_key_hint := None; cm_base_url := [];
     cm_encryption_key_id := []; cm_last_validated_at := None |}.

(** [setattr(state, attr, text)] for the attribute of a string field. *)
Definition cm_set (s : CredMetaDecodeState) (field : Z) (t : pystr) : CredMetaDecodeState :=
  {| cm_provider_name := if field =? 1 then Some t else cm_provider_name s;
     cm_status := if field =? 2 then Some t else cm_status s;
     cm_key_hint := if field =? 3 then Some t else cm_key_hint s;
     cm_base_url := if field =? 4 then t else cm_base_url s;
     cm_encryption_key_id := if field =? 5 then t else cm_encryption_key_id s;
     cm_last_validated_at := cm_last_validated_at s |}.

(** The labels of the string fields. *)
Definition cm_label (field : Z) : option string :=
  if field =? 1 then Some "provider_name"%string
  else if field =? 2 then Some "status"%string
  else if field =? 3 then Some "key_hint"%string
  else if field =? 4 then Some "base_url"%string
  else if field =? 5 then Some "encryption_key_id"%string
  else None.

Definition apply_cred_meta_len (s : CredMetaDecodeState) (field : Z) (data : bytes)
    : result CodecError CredMetaDecodeState :=
  match cm_label field with
  | Some label =>
      let* t := decode_utf8 data in let* t := bounded_string t label in Ok (cm_set s field t)
  | None =>
      if field =? 6 then
        let* d := decode_timestamp data in
        Ok {| cm_provider_name := cm_provider_name s; cm_status := cm_status s;
              cm_key_hint := cm_key_hint s; cm_base_url := cm_base_url s;
              cm_encryption_key_id := cm_encryption_key_id s; cm_last_validated_at := Some d |}
      else Ok s
  end.

(** [_decode_cred_meta_field] *)
Definition cred_meta_field : FieldDecoder CredMetaDecodeState :=
  {| max_len := MAX_SUBMESSAGE_BYTES; apply_len := apply_cred_meta_len; apply_varint := None |}.

Definition decode_cred_metadata (raw : bytes) : result CodecError ProviderCredentialMetadataWire :=
  let* s := walk_fields (decode_field cred_meta_field) MAX_SUBMESSAGE_BYTES raw cred_meta_state0 in
  let ctx := "provider credential metadata"%string in
  let* p := require_present (cm_provider_name s) ctx "provider_name" in
  let* st := require_present (cm_status s) ctx "status" in
  let* k := require_present (cm_key_hint s) ctx "key_hint" in
  Ok {| pm_provider_name := p; pm_status := st; pm_key_hint := k; pm_base_url := cm_base_url s;
        pm_encryption_key_id := cm_encryption_key_id s;
        pm_last_validated_at := cm_last_validated_at s |}.

(** Also [_GetCredDecodeState]: the same fields. *)
Record GetProviderCredentialWire := {
  gc_api_key : pystr;
  gc_base_url : pystr;
  gc_is_platform_default : bool;
}.

Definition get_cred_state0 : GetProviderCredentialWire :=
  {| gc_api_key := []; gc_base_url := []; gc_is_platform_default := false |}.

Definition apply_get_cred_len (s : GetProviderCredentialWire) (field : Z) (data : bytes)
    : result CodecError GetProviderCredentialWire :=
  if field =? 1 then
    let* t := decode_plaintext data in
    Ok {| gc_api_key := t; gc_base_url := gc_base_url s; gc_is_platform_default := gc_is_platform_default s |}
  else if field =? 2 then
    let* t := decode_utf8 data in let* t := bounded_string t "base_url" in
    Ok {| gc_api_key := gc_api_key s; gc_base_url := t; gc_is_platform_default := gc_is_platform_default s |}
  else Ok s.

Definition apply_get_cred_varint (s : GetProviderCredentialWire) (field num : Z)
    : GetProviderCredentialWire :=
  if field =? 3 then
    {| gc_api_key := gc_api_key s; gc_base_url := gc_base_url s;
       gc_is_platform_default := negb (num =? 0) |}
  else s.

(** [_decode_get_cred_field] *)
Definition get_cred_field : FieldDecoder GetProviderCredentialWire :=
  {| max_len := MAX_TOKEN_BYTES; apply_len := apply_get_cred_len;
     apply_varint := Some apply_get_cred_varint |}.

Definition decode_get_provider_credential_response (payload : bytes)
    : result CodecError GetProviderCredentialWire :=
  walk_fields (decode_field get_cred_field) MAX_MESSAGE_BYTES payload get_cred_state0.

Definition apply_list_cred_len (s : list ProviderCredentialMetadataWire) (field : Z) (raw : bytes)
    : result CodecError (list ProviderCredentialMetadataWire) :=
  if field =? 1 then let* c := decode_cred_metadata raw in Ok (s ++ [c]) else Ok s.

(** [_decode_list_cred_field] *)
Definition list_cred_field : FieldDecoder (list ProviderCredentialMetadataWire) :=
  {| max_len := MAX_SUBMESSAGE_BYTES; apply_len := apply_list_cred_len; apply_varint := None |}.

Definition decode_list_provider_credentials_response (payload : bytes)
    : result CodecError (list ProviderCredentialMetadataWire) :=
  walk_fields (decode_field list_cred_field) MAX_LIST_MESSAGE_BYTES payload [].
End Messages.

(** ** Arbitrary input *)

Lemma contained_bind {A B : Type} (r : result CodecError A) (k : A -> result CodecError B) :
  contained r -> (forall a, contained (k a)) -> contained (rbind r k).
Proof. destruct r; cbn; auto. Qed.

Lemma contained_Ok {A : Type} (a : A) : contained (Ok a).
Proof. done. Qed.

Lemma contained_error {A : Type} msg : contained (A := A) (Raise (AuthCodecError msg)).
Proof. done. Qed.

Lemma contained_utf8 raw : contained (decode_utf8 raw).
Proof. unfold decode_utf8. by destruct (utf8_decode raw). Qed.

Lemma contained_uuid `{UnicodeDB} t l : contained (parse_uuid t l).
Proof. unfold parse_uuid. by destruct (uuid_parse t). Qed.

Lemma contained_bounded t l : contained (bounded_string t l).
Proof. unfold bounded_string. by destruct (_ <? _). Qed.

Lemma contained_plaintext raw : contained (decode_plaintext raw).
Proof.
  apply contained_bind; [apply contained_utf8|]. intros t. by destruct (_ <? _).
Qed.

Lemma contained_present {A : Type} (v : option A) c f : contained (require_present v c f).
Proof. by destruct v. Qed.

Lemma contained_timestamp_loop fuel : forall raw idx s n, (length raw <= idx + fuel)%nat ->
  contained (timestamp_loop fuel raw idx s n).
Proof.
  induction fuel as [|fuel IH]; intros raw idx s n Hf; cbn [timestamp_loop].
  - by rewrite (proj2 (Nat.ltb_ge _ _)) by lia.
  - destruct (idx <? length raw)%nat; [|done].
    pose proof (decode_varint_advances raw idx) as H1.
    destruct (decode_varint raw idx) as [[key i]|e]; cbn [rbind advances snd] in *;
      [|done].
    destruct (negb _).
    + pose proof (skip_unknown_advances raw i (Z.land key 7) ltac:(lia)) as H2.
      destruct (skip_unknown raw i _) as [i'|e]; cbn [rbind]; [cbn in H2; unfold id in H2; apply IH; lia|done].
    + pose proof (decode_varint_advances raw i) as H2.
      destruct (decode_varint raw i) as [[num i']|e]; cbn [rbind advances snd] in *;
        [|done].
      repeat case_if; apply IH; lia.
Qed.

Lemma contained_timestamp raw : contained (decode_timestamp raw).
Proof.
  apply contained_bind; [apply contained_timestamp_loop; lia|]. intros [s n].
  case_if; [done|]. by destruct (fromtimestamp _).
Qed.

Lemma contained_walk {S : Type} (d : FieldDecoder S) limit payload s :
  (forall s n raw, contained (apply_len d s n raw)) ->
  contained (walk_fields (decode_field d) limit payload s).
Proof. apply walk_fields_total. Qed.

#[export] Hint Resolve contained_bind contained_Ok contained_error contained_utf8 contained_uuid
  contained_bounded contained_plaintext contained_present contained_timestamp : ibex.

(** Containment of a decoder built from the pieces above. *)
Ltac contain :=
  repeat match goal with
  | |- contained (rbind _ _) => apply contained_bind; [|intros]
  | |- contained (if _ then _ else _) => case_if
  | |- contained (match ?x with _ => _ end) => destruct x
  | |- contained (walk_fields _ _ _ _) => apply contained_walk; intros; cbn [apply_len]
  end; eauto with ibex.

Section Properties.
Context `{UnicodeDB}.

(** Whatever bytes the auth service (or an attacker in its place) sends,
    every response decoder returns a message or raises [AuthCodecError]: no
    other exception escapes and the field loops end within the payload's
    length. *)
Theorem responses_contained (payload : bytes) :
  contained (decode_validate_token_response payload) /\
  contained (decode_validate_agent_response payload) /\
  contained (decode_create_token_response payload) /\
  contained (decode_list_tokens_response payload) /\
  contained (decode_cred_metadata payload) /\
  contained (decode_get_provider_credential_response payload) /\
  contained (decode_list_provider_credentials_response payload).
Proof.
  assert (forall raw, contained (decode_token_metadata raw)) as Hm.
  { intros raw. unfold decode_token_metadata, finish_meta_wire, meta_field, apply_meta_len. contain. }
  assert (forall raw, contained (decode_cred_metadata raw)) as Hc.
  { intros raw. unfold decode_cred_metadata, cred_meta_field, apply_cred_meta_len. contain. }
  repeat split; [..|apply Hc| |].
  - unfold decode_validate_token_response, token_field, apply_token_len. contain.
  - unfold decode_validate_agent_response, finish_agent_wire, agent_field, apply_agent_len. contain.
  - unfold decode_create_token_response, finish_create_wire, create_field, apply_create_len. contain.
  - unfold decode_list_tokens_response, list_field, apply_list_len. contain.
  - unfold decode_get_provider_credential_response, get_cred_field, apply_get_cred_len. contain.
  - unfold decode_list_provider_credentials_response, list_cred_field, apply_list_cred_len. contain.
Qed.

(** ** Messages on the wire *)

Definition enc_text (t : pystr) : bytes := mjoin (utf8_char <$> t).
Arguments enc_text : simpl never.

(** A text that fits a bounded string field. *)
Definition text_ok (t : pystr) : Prop :=
  forallb scalar t = true /\ zlen (enc_text t) <= MAX_STRING_BYTES.

Definition uuid_ok (u : UUID) : Prop := 0 <= u < 2 ^ 128.

Lemma decode_utf8_text t : forallb scalar t = true -> decode_utf8 (enc_text t) = Ok t.
Proof.
  intros Ht. unfold decode_utf8. rewrite (utf8_roundtrip t); [done|].
  unfold utf8_encode. by rewrite Ht.
Qed.

Lemma bounded_text t label : text_ok t -> bounded_string t label = Ok t.
Proof.
  intros [Ht Hl]. unfold bounded_string, zlen in *.
  assert (length t <= length (enc_text t))%nat.
  { apply utf8_decode_length. apply utf8_roundtrip. unfold utf8_encode. by rewrite Ht. }
  by rewrite (proj2 (Z.ltb_ge _ _)) by lia.
Qed.

Lemma uuid_text_ok u : text_ok (uuid_str u).
Proof.
  split; [apply uuid_str_scalar|]. unfold enc_text, zlen, MAX_STRING_BYTES.
  pose proof (uuid_str_length u) as Hl. pose proof (uuid_str_chars u) as Hc.
  assert (forall s, Forall (fun c => is_hex_char c \/ c = 45) s ->
            length (mjoin (utf8_char <$> s)) = length s) as H'.
  { induction 1 as [|c s Hs _ IH]; [done|].
    change (mjoin (utf8_char <$> c :: s)) with (utf8_char c ++ mjoin (utf8_char <$> s)).
    rewrite length_app, IH. unfold utf8_char, is_hex_char in *.
    by rewrite (proj2 (Z.ltb_lt c 0x80)) by lia. }
  rewrite H' by done. lia.
Qed.

Lemma parse_uuid_text u label : uuid_ok u -> parse_uuid (uuid_str u) label = Ok u.
Proof. intros Hu. unfold parse_uuid. by rewrite uuid_roundtrip. Qed.

(** Fields a decoder ignores do not matter. *)
Lemma rfold_filter {S : Type} (d : FieldDecoder S) (known : Field -> bool) fs : forall s,
  (forall s f, known f = false -> apply_field d s f = Ok s) ->
  rfold (apply_field d) s fs = rfold (apply_field d) s (List.filter known fs).
Proof.
  induction fs as [|f fs IH]; intros s Hk; cbn; [done|].
  destruct (known f) eqn:E; cbn.
  - destruct (apply_field d s f); cbn; [by apply IH|done].
  - rewrite Hk by done. cbn. by apply IH.
Qed.

Definition opt_field {A : Type} (f : A -> Field) (v : option A) : list Field :=
  match v with Some a => [f a] | None => [] end.

Definition text_field (n : Z) (t : pystr) : Field := FLen n (enc_text t).

(** ValidateTokenResponse as protobuf writes it. *)
Definition token_fields (w : ValidateTokenWire) : list Field :=
  [text_field 1 (uuid_str (vt_org_id w)); FVarint 2 (vt_permissions w)]
  ++ opt_field (fun u => text_field 3 (uuid_str u)) (vt_agent_id w)
  ++ opt_field (text_field 4) (vt_user_id w) ++ opt_field (text_field 5) (vt_token_id w).

Definition token_known (f : Field) : bool :=
  match f with
  | FLen n _ => (n =? 1) || (n =? 3) || (n =? 4) || (n =? 5)
  | FVarint n _ => n =? 2
  | _ => false
  end.

Definition token_wire_ok (w : ValidateTokenWire) : Prop :=
  uuid_ok (vt_org_id w) /\ (forall u, vt_agent_id w = Some u -> uuid_ok u) /\
  (forall t, vt_user_id w = Some t -> text_ok t) /\ (forall t, vt_token_id w = Some t -> text_ok t).

Lemma token_unknown s f : token_known f = false -> apply_field token_field s f = Ok s.
Proof.
  destruct f as [n v|n raw|n raw|n raw]; cbn; intros Hn; try done; bools.
  - unfold apply_token_varint. by rewrite (proj2 (Z.eqb_neq _ _)).
  - unfold apply_token_len. by rewrite !(proj2 (Z.eqb_neq _ _)).
Qed.

(** Decoding a ValidateToken response recovers exactly the principal that
    was encoded (organization, permission bits, agent, user and token), also when
    the message carries any number of unknown fields of any wire type, anywhere. *)
Theorem validate_token_roundtrip (w : ValidateTokenWire) (fs : list Field) :
  token_wire_ok w ->
  Forall (field_ok MAX_STRING_BYTES) fs ->
  List.filter token_known fs = token_fields w ->
  zlen (enc_fields fs) <= MAX_MESSAGE_BYTES ->
  decode_validate_token_response (enc_fields fs) = Ok w.
Proof.
  intros (Ho & Ha & Hu & Ht) Hok Hfs Hl. unfold decode_validate_token_response.
  rewrite walk_fields_encoded by done. rewrite (rfold_filter _ token_known) by apply token_unknown.
  rewrite Hfs. destruct w as [org perms agent user token]; cbn in *.
  rewrite decode_utf8_text by apply uuid_str_scalar. cbn. rewrite parse_uuid_text by done. cbn.
  destruct agent as [a|]; cbn;
    rewrite ?decode_utf8_text by apply uuid_str_scalar; cbn;
    rewrite ?parse_uuid_text by (by apply Ha); cbn;
    (destruct user as [u|]; cbn;
     [rewrite decode_utf8_text by (by apply Hu); cbn; rewrite bounded_text by (by apply Hu); cbn|]);
    (destruct token as [t|]; cbn;
     [rewrite decode_utf8_text by (by apply Ht); cbn; rewrite bounded_text by (by apply Ht); cbn|]);
    done.
Qed.

(** The decode state holds only values within their bounds. *)
Definition td_bounded (s : TokenDecodeState) : Prop :=
  (forall u, td_org_id s = Some u -> uuid_ok u) /\ (forall u, td_agent_id s = Some u -> uuid_ok u) /\
  (forall t, td_user_id s = Some t -> zlen t <= 512) /\
  (forall t, td_token_id s = Some t -> zlen t <= 512).

Lemma apply_token_len_bounded s n raw s' :
  td_bounded s -> apply_token_len s n raw = Ok s' -> td_bounded s'.
Proof.
  intros (Ho & Ha & Hu & Ht) Happ.
  unfold apply_token_len, parse_uuid, bounded_string in Happ.
  repeat case_match; inv_bind; repeat case_match; inv_bind; try done;
    (split; [|split; [|split]]); cbn; intros; simplify_eq; bools; eauto;
    by eapply uuid_parse_range.
Qed.

(** A ValidateToken response that decodes yields a principal within its
    bounds: UUIDs of 128 bits and user and token ids of at most 512 characters. *)
Theorem validate_token_bounds (payload : bytes) (w : ValidateTokenWire) :
  decode_validate_token_response payload = Ok w ->
  uuid_ok (vt_org_id w) /\ (forall u, vt_agent_id w = Some u -> uuid_ok u) /\
  (forall t, vt_user_id w = Some t -> zlen t <= 512) /\
  (forall t, vt_token_id w = Some t -> zlen t <= 512).
Proof.
  intros Hw. unfold decode_validate_token_response in Hw. inv_bind.
  assert (td_bounded x) as (Ho & Ha & Hu & Ht).
  { eapply (walk_fields_inv token_field td_bounded); [..|eassumption].
    - apply apply_token_len_bounded.
    - intros av s n v [= <-] Hs. unfold apply_token_varint. by case_if.
    - done. }
  destruct (td_org_id x) as [o|] eqn:Eo; [|done]. injection Hw as <-. cbn. auto.
Qed.

(** ** Token lists *)

(** Token metadata as protobuf writes it; [stamp] renders a timestamp. *)
Definition meta_fields (stamp : datetime -> bytes) (m : TokenMetadataWire) : list Field :=
  [text_field 1 (tm_token_id m); text_field 2 (tm_name m); text_field 3 (tm_prefix m);
   FVarint 4 (tm_permissions m)]
  ++ opt_field (fun d => FLen 5 (stamp d)) (tm_expires_at m)
  ++ [FLen 6 (stamp (tm_created_at m))]
  ++ opt_field (fun d => FLen 7 (stamp d)) (tm_revoked_at m)
  ++ [FVarint 8 (if tm_is_revoked m then 1 else 0)].

Definition list_fields (stamp : datetime -> bytes) (l : ListTokensWire) : list Field :=
  ((fun m => FLen 1 (enc_fields (meta_fields stamp m))) <$> lt_tokens l)
  ++ [text_field 2 (lt_next_cursor l)].

Definition stamp_ok (stamp : datetime -> bytes) (d : datetime) : Prop :=
  decode_timestamp (stamp d) = Ok d /\ zlen (stamp d) <= MAX_SUBMESSAGE_BYTES.

Definition meta_ok (stamp : datetime -> bytes) (m : TokenMetadataWire) : Prop :=
  text_ok (tm_token_id m) /\ text_ok (tm_name m) /\ text_ok (tm_prefix m) /\
  0 <= tm_permissions m < 2 ^ 64 /\ stamp_ok stamp (tm_created_at m) /\
  (forall d, tm_expires_at m = Some d -> stamp_ok stamp d) /\
  (forall d, tm_revoked_at m = Some d -> stamp_ok stamp d) /\
  zlen (enc_fields (meta_fields stamp m)) <= MAX_SUBMESSAGE_BYTES.

Lemma text_field_ok limit n t : 0 <= n < 2 ^ 29 -> text_ok t -> MAX_STRING_BYTES <= limit < 2 ^ 70 ->
  field_ok limit (text_field n t).
Proof. intros Hn [_ Ht] Hl. cbn. lia. Qed.

Lemma stamp_field_ok n stamp d : 0 <= n < 2 ^ 29 -> stamp_ok stamp d ->
  field_ok MAX_SUBMESSAGE_BYTES (FLen n (stamp d)).
Proof. intros Hn [_ Hd]. cbn. unfold MAX_SUBMESSAGE_BYTES in *. lia. Qed.

Lemma meta_fields_ok stamp m : meta_ok stamp m ->
  Forall (field_ok MAX_SUBMESSAGE_BYTES) (meta_fields stamp m).
Proof.
  intros (Hi & Hn & Hp & Hperm & Hc & He & Hr & _). unfold meta_fields.
  assert (MAX_STRING_BYTES <= MAX_SUBMESSAGE_BYTES < 2 ^ 70) by done.
  repeat (apply Forall_app; split); repeat (apply Forall_cons; split);
    try (apply Forall_nil; exact I);
    try (apply text_field_ok; done || lia);
    try (apply stamp_field_ok; done || lia).
  - cbn. lia.
  - destruct (tm_expires_at m) as [d|]; cbn [opt_field]; [|by apply Forall_nil].
    apply Forall_singleton, stamp_field_ok; [lia|by apply He].
  - destruct (tm_revoked_at m) as [d|]; cbn [opt_field]; [|by apply Forall_nil].
    apply Forall_singleton, stamp_field_ok; [lia|by apply Hr].
  - cbn. destruct (tm_is_revoked m); lia.
Qed.

Lemma stored_text t label : text_ok t ->
  (let* x := decode_utf8 (enc_text t) in bounded_string x label) = Ok t.
Proof. intros Ht. rewrite decode_utf8_text by apply Ht. cbn. by apply bounded_text. Qed.

Lemma token_metadata_roundtrip stamp m : meta_ok stamp m ->
  decode_token_metadata (enc_fields (meta_fields stamp m)) = Ok m.
Proof.
  intros Hm. unfold decode_token_metadata.
  rewrite walk_fields_encoded by (try apply meta_fields_ok, Hm; apply Hm).
  destruct Hm as ([Hi Hi'] & [Hn Hn'] & [Hp Hp'] & _ & [Hc _] & He & Hr & _).
  destruct m as [i n p perms created expires revoked isr]; cbn in *.
  rewrite !decode_utf8_text by done. cbn.
  rewrite (bounded_text i) by (by split). cbn.
  rewrite (bounded_text n) by (by split). cbn.
  rewrite (bounded_text p) by (by split). cbn.
  destruct expires as [e|]; cbn; [destruct (He e eq_refl) as [-> _]; cbn|]; rewrite Hc; cbn;
    (destruct revoked as [r|]; cbn; [destruct (Hr r eq_refl) as [-> _]; cbn|]); by destruct isr.
Qed.

Lemma list_fields_fold stamp ms : Forall (meta_ok stamp) ms -> forall acc,
  rfold (apply_field list_field) acc ((fun m => FLen 1 (enc_fields (meta_fields stamp m))) <$> ms) =
  Ok {| lt_tokens := lt_tokens acc ++ ms; lt_next_cursor := lt_next_cursor acc |}.
Proof.
  induction 1 as [|m ms Hm _ IH]; intros acc.
  - cbn. rewrite app_nil_r. by destruct acc.
  - cbn [fmap list_fmap rfold apply_field apply_len list_field]. unfold apply_list_len. cbn [Z.eqb].
    change (1 =? 1) with true. cbn iota. rewrite token_metadata_roundtrip by done. cbn [rbind].
    etransitivity; [apply IH|]. cbn. by rewrite <- app_assoc.
Qed.

Lemma rfold_app {A B : Type} (f : B -> A -> result CodecError B) l k : forall b,
  rfold f b (l ++ k) = let* b' := rfold f b l in rfold f b' k.
Proof.
  induction l as [|x l IH]; intros b; cbn; [done|]. destruct (f b x); cbn; [apply IH|done].
Qed.

(** Decoding a ListTokens response recovers every token's metadata, in
    order, and the cursor, for any rendering of the timestamps that the timestamp
    decoder reads back. *)
Theorem list_tokens_roundtrip (stamp : datetime -> bytes) (l : ListTokensWire) :
  Forall (meta_ok stamp) (lt_tokens l) -> text_ok (lt_next_cursor l) ->
  zlen (enc_fields (list_fields stamp l)) <= MAX_LIST_MESSAGE_BYTES ->
  decode_list_tokens_response (enc_fields (list_fields stamp l)) = Ok l.
Proof.
  intros Hm Hc Hl. unfold decode_list_tokens_response.
  rewrite walk_fields_encoded; [|clear Hl|done].
  - unfold list_fields. rewrite rfold_app, list_fields_fold by done. cbn.
    rewrite decode_utf8_text by apply Hc. cbn. rewrite bounded_text by done. cbn.
    by destruct l.
  - apply Forall_app. split.
    + apply Forall_fmap. eapply Forall_impl; [exact Hm|]. intros m Hm'.
      split; [done|]. split; [apply Hm'|done].
    + apply Forall_singleton, text_field_ok; [lia|done|done].
Qed.

(** ** Requests *)

(** The reader a protobuf peer is: it keeps every field. *)
Definition collect : FieldDecoder (list Field) :=
  {| max_len := MAX_TOKEN_BYTES; apply_len := fun s n raw => Ok (s ++ [FLen n raw]);
     apply_varint := Some (fun s n v => s ++ [FVarint n v]) |}.

Definition parse_message (payload : bytes) : result CodecError (list Field) :=
  walk_fields (decode_field collect) (zlen payload) payload [].

Definition tagged (f : Field) : bool := match f with FVarint _ _ | FLen _ _ => true | _ => false end.

Lemma parse_message_enc fs : Forall (field_ok MAX_TOKEN_BYTES) fs -> forallb tagged fs = true ->
  parse_message (enc_fields fs) = Ok fs.
Proof.
  intros Hok Htag. unfold parse_message. rewrite walk_fields_encoded by done.
  assert (forall acc, rfold (apply_field collect) acc fs = Ok (acc ++ fs)) as H'; [|by rewrite H'].
  clear Hok. induction fs as [|f fs IH]; intros acc; cbn; [by rewrite app_nil_r|].
  cbn in Htag. bools. destruct f; try done; cbn; rewrite IH, <- app_assoc by done; done.
Qed.

Definition text_okb (t : pystr) : bool :=
  (forallb scalar t && (zlen (enc_text t) <=? MAX_STRING_BYTES))%bool.

Lemma encode_len_field_Ok n d : 0 <= n -> encode_len_field n d = Ok (enc_field (FLen n d)).
Proof.
  intros Hn. unfold encode_len_field, tag, encode_varint.
  assert (0 <= Z.lor (Z.shiftl n 3) WIRE_LEN) by (apply Z.lor_nonneg; split; [by apply Z.shiftl_nonneg|done]).
  rewrite (proj2 (Z.ltb_ge _ 0)) by done. cbn.
  rewrite (proj2 (Z.ltb_ge (zlen d) 0)) by (unfold zlen; lia). done.
Qed.

(** [writes p r ok fs]: when [ok], [r] is [p] followed by the fields [fs], and
    otherwise [r] raises. *)
Definition writes (p : bytes) (r : result CodecError bytes) (ok : bool) (fs : list Field) : Prop :=
  if ok then r = Ok (p ++ enc_fields fs) else is_ok r = false.

Lemma enc_fields_app fs gs : enc_fields (fs ++ gs) = enc_fields fs ++ enc_fields gs.
Proof. unfold enc_fields. by rewrite fmap_app, join_app. Qed.

Lemma enc_fields_1 f : enc_fields [f] = enc_field f.
Proof. unfold enc_fields. cbn [fmap list_fmap mjoin list_join]. by rewrite app_nil_r. Qed.

Lemma writes_bind p r k ok1 ok2 fs1 fs2 :
  writes [] r ok1 fs1 -> (forall b, writes (p ++ b) (k b) ok2 fs2) ->
  writes p (rbind r k) (ok1 && ok2) (fs1 ++ fs2).
Proof.
  unfold writes. destruct ok1; cbn [andb].
  - intros -> Hk. cbn [rbind app]. specialize (Hk (enc_fields fs1)).
    by rewrite enc_fields_app, app_assoc.
  - by destruct r.
Qed.

Lemma writes_last p b : b = p -> writes p (Ok b) true [].
Proof. intros ->. unfold writes, enc_fields. cbn. by rewrite app_nil_r. Qed.

Lemma writes_eq p r ok ok' fs fs' : writes p r ok fs -> ok = ok' -> fs = fs' -> writes p r ok' fs'.
Proof. by intros ? <- <-. Qed.

Lemma writes_len n d : 0 <= n -> writes [] (encode_len_field n d) true [FLen n d].
Proof. intros Hn. unfold writes. by rewrite encode_len_field_Ok, enc_fields_1. Qed.

Lemma writes_string n t : 0 <= n ->
  writes [] (encode_string_field n t) (text_okb t) [text_field n t].
Proof.
  intros Hn. unfold text_okb, encode_string_field, encode_utf8, utf8_encode.
  destruct (forallb scalar t); cbn [rbind andb]; [|done].
  change (mjoin (utf8_char <$> t)) with (enc_text t).
  destruct (zlen (enc_text t) <=? MAX_STRING_BYTES) eqn:Ht; bools.
  - rewrite (proj2 (Z.ltb_ge _ _)) by done. by apply writes_len.
  - by rewrite (proj2 (Z.ltb_lt _ _)).
Qed.

Lemma writes_varint n v : 0 <= n ->
  writes [] (encode_varint_field n v) (0 <=? v) [FVarint n v].
Proof.
  intros Hn. unfold encode_varint_field, tag, encode_varint.
  assert (0 <= Z.lor (Z.shiftl n 3) WIRE_VARINT) by (apply Z.lor_nonneg; split; [by apply Z.shiftl_nonneg|done]).
  rewrite (proj2 (Z.ltb_ge _ 0)) by done. cbn [rbind]. unfold writes.
  destruct (0 <=? v) eqn:Hv; bools.
  - by rewrite (proj2 (Z.ltb_ge _ _)), enc_fields_1.
  - by rewrite (proj2 (Z.ltb_lt _ _)).
Qed.

(** An optional text: absent and empty are not written. *)
Definition nonempty_text (n : Z) (v : option pystr) : list Field :=
  match v with None | Some [] => [] | Some t => [text_field n t] end.

Definition expiry_fields (v : option datetime) : list Field :=
  match v with
  | Some ts => match encode_timestamp ts with Ok raw => [FLen 6 raw] | Raise _ => [] end
  | None => []
  end.

(** CreateTokenRequest as protobuf writes it. *)
Definition create_token_fields (f : CreateTokenEncodeFields) : list Field :=
  [text_field 1 (ct_org_id f); text_field 2 (ct_name f); text_field 3 (ct_description f);
   FVarint 4 (ct_token_type f); FVarint 5 (ct_permissions f)]
  ++ expiry_fields (ct_expires_at f)
  ++ nonempty_text 7 (ct_user_id f) ++ nonempty_text 8 (ct_agent_id f).

Definition opt_text_okb (v : option pystr) : bool :=
  match v with Some t => text_okb t | None => true end.

Definition expiry_okb (v : option datetime) : bool :=
  match v with
  | Some ts => match encode_timestamp ts with
               | Ok raw => zlen raw <=? MAX_SUBMESSAGE_BYTES
               | Raise _ => false
               end
  | None => true
  end.

(** The requests the encoder accepts. *)
Definition create_request_ok (f : CreateTokenEncodeFields) : bool :=
  (text_okb (ct_org_id f) && text_okb (ct_name f) && text_okb (ct_description f)
   && (0 <=? ct_token_type f) && (0 <=? ct_permissions f) && expiry_okb (ct_expires_at f)
   && opt_text_okb (ct_user_id f) && opt_text_okb (ct_agent_id f))%bool.

Lemma writes_opt_string n v : 0 <= n ->
  writes [] (opt_string_field n v) (opt_text_okb v) (nonempty_text n v).
Proof.
  intros Hn. destruct v as [[|c t]|]; cbn [opt_text_okb opt_string_field nonempty_text];
    [by apply writes_last|by apply writes_string|by apply writes_last].
Qed.

Lemma writes_expiry v :
  writes [] match v with
            | None => Ok []
            | Some ts => let* raw := encode_timestamp ts in encode_message_field 6 raw
            end (expiry_okb v) (expiry_fields v).
Proof.
  destruct v as [ts|]; [|by apply writes_last]. unfold expiry_okb, expiry_fields.
  destruct (encode_timestamp ts) as [raw|e]; cbn [rbind]; [|done].
  unfold encode_message_field. destruct (zlen raw <=? MAX_SUBMESSAGE_BYTES) eqn:Hz; bools.
  - rewrite (proj2 (Z.ltb_ge _ _)) by done. by apply writes_len.
  - by rewrite (proj2 (Z.ltb_lt _ _)).
Qed.

Lemma encode_create_token_writes f :
  writes [] (encode_create_token_request f) (create_request_ok f) (create_token_fields f).
Proof.
  eapply writes_eq.
  - unfold encode_create_token_request.
    do 3 (eapply writes_bind; [by apply writes_string|intros ?]).
    do 2 (eapply writes_bind; [by apply writes_varint|intros ?]).
    eapply writes_bind; [apply writes_expiry|intros ?].
    do 2 (eapply writes_bind; [by apply writes_opt_string|intros ?]).
    apply writes_last. by rewrite <- !app_assoc.
  - unfold create_request_ok. by rewrite andb_true_r, <- !andb_assoc.
  - unfold create_token_fields. by rewrite app_nil_r.
Qed.

Lemma text_okb_field n t : 0 <= n < 2 ^ 29 -> text_okb t = true ->
  field_ok MAX_TOKEN_BYTES (text_field n t).
Proof. intros Hn Ht. unfold text_okb in Ht. bools. by apply text_field_ok. Qed.

Lemma nonempty_text_ok n v : 0 <= n < 2 ^ 29 -> opt_text_okb v = true ->
  Forall (field_ok MAX_TOKEN_BYTES) (nonempty_text n v).
Proof.
  intros Hn Hv. destruct v as [[|c t]|]; cbn [nonempty_text]; [by apply Forall_nil| |by apply Forall_nil].
  apply Forall_singleton. by apply text_okb_field.
Qed.

Lemma expiry_fields_ok v : expiry_okb v = true -> Forall (field_ok MAX_TOKEN_BYTES) (expiry_fields v).
Proof.
  destruct v as [ts|]; cbn; [|intros _; by apply Forall_nil].
  destruct (encode_timestamp ts) as [raw|e]; [|done]. intros Hz%Z.leb_le.
  apply Forall_singleton. cbn. unfold MAX_SUBMESSAGE_BYTES, MAX_TOKEN_BYTES in *. lia.
Qed.

Lemma create_token_fields_ok f : create_request_ok f = true ->
  ct_token_type f < 2 ^ 64 -> ct_permissions f < 2 ^ 64 ->
  Forall (field_ok MAX_TOKEN_BYTES) (create_token_fields f).
Proof.
  intros Hok Ht Hp. unfold create_request_ok in Hok. bools. unfold create_token_fields.
  repeat (apply Forall_app; split); [|by apply expiry_fields_ok|by apply nonempty_text_ok..].
  repeat (apply Forall_cons; split); try (by apply text_okb_field); [cbn; lia..|by apply Forall_nil].
Qed.

Lemma create_token_fields_tagged f : forallb tagged (create_token_fields f) = true.
Proof.
  unfold create_token_fields, expiry_fields, nonempty_text. rewrite !forallb_app.
  by repeat case_match.
Qed.

(** The CreateToken encoder accepts exactly the requests whose texts are
    encodable in 512 bytes, whose numbers are not negative and whose expiry is
    encodable; what it writes, a protobuf reader parses back to exactly the
    request's fields, in order, with empty optional fields left out. *)
Theorem create_token_request_parses (f : CreateTokenEncodeFields) :
  ct_token_type f < 2 ^ 64 -> ct_permissions f < 2 ^ 64 ->
  is_ok (encode_create_token_request f) = create_request_ok f /\
  forall b, encode_create_token_request f = Ok b -> parse_message b = Ok (create_token_fields f).
Proof.
  intros Ht Hp. pose proof (encode_create_token_writes f) as Hw. unfold writes in Hw.
  destruct (create_request_ok f) eqn:Hok; [|split; [done|intros b Hb; by rewrite Hb in Hw]].
  rewrite Hw. split; [done|]. intros b [= <-].
  apply parse_message_enc; [by apply create_token_fields_ok|apply create_token_fields_tagged].
Qed.
End Properties.

(** ** Samples *)

Module CodecSample.
#[local] Existing Instance ascii_db.

Definition org : UUID := 0x11111111222233334444555555555555.
Definition wire : ValidateTokenWire :=
  {| vt_org_id := org; vt_permissions := 0x30003; vt_agent_id := None;
     vt_user_id := Some (lit "user"); vt_token_id := Some (lit "tok") |}.

(** The message with an unknown varint and an unknown fixed32 inside. *)
Definition wire_fields : list Field :=
  FVarint 99 7 :: token_fields wire ++ [FFixed32 12 [0; 1; 2; 3]].

Ltac solve_fields := repeat (apply Forall_cons; split; [vm_compute; repeat split; congruence|]); apply Forall_nil; exact I.

Lemma validate_token_roundtrip_witness :
  decode_validate_token_response (enc_fields wire_fields) = Ok wire.
Proof.
  apply (validate_token_roundtrip wire wire_fields).
  - split; [vm_compute; split; congruence|].
    split; [discriminate|]. split; intros t [= <-]; split; vm_compute; congruence.
  - solve_fields.
  - vm_compute. reflexivity.
  - vm_compute. congruence.
Defined.

Lemma validate_token_bounds_witness : uuid_ok (vt_org_id wire).
Proof.
  destruct (validate_token_bounds (enc_fields wire_fields) wire ltac:(vm_compute; reflexivity)) as [H _].
  exact H.
Defined.

(** 2025-01-02T03:04:05.678901Z *)
Definition stamp0 : datetime := 1735787045678901.
Definition meta : TokenMetadataWire :=
  {| tm_token_id := lit "t1"; tm_name := lit "ci"; tm_prefix := lit "ibex_"; tm_permissions := 3;
     tm_created_at := stamp0; tm_expires_at := Some (stamp0 + 86400000000); tm_revoked_at := None;
     tm_is_revoked := false |}.
Definition stamp (d : datetime) : bytes :=
  match encode_timestamp d with Ok raw => raw | Raise _ => [] end.
Definition token_list : ListTokensWire := {| lt_tokens := [meta]; lt_next_cursor := lit "c" |}.

Lemma list_tokens_roundtrip_witness :
  decode_list_tokens_response (enc_fields (list_fields stamp token_list)) = Ok token_list.
Proof.
  apply (list_tokens_roundtrip stamp token_list).
  - apply Forall_singleton.
    do 3 (split; [split; [vm_compute; reflexivity|vm_compute; congruence]|]).
    split; [vm_compute; split; congruence|].
    split; [split; [vm_compute; reflexivity|vm_compute; congruence]|].
    split; [intros d Hd; injection Hd as <-; split; [vm_compute; reflexivity|vm_compute; congruence]|].
    split; [discriminate|]. vm_compute. congruence.
  - split; vm_compute; congruence.
  - vm_compute. congruence.
Defined.

Definition request : CreateTokenEncodeFields :=
  {| ct_org_id := lit "org"; ct_name := lit "ci"; ct_permissions := 3; ct_description := [];
     ct_token_type := TOKEN_TYPE_PAT; ct_expires_at := Some stamp0; ct_user_id := Some [];
     ct_agent_id := Some (lit "agent") |}.

Lemma create_token_request_parses_witness :
  exists b, encode_create_token_request request = Ok b /\
            parse_message b = Ok (create_token_fields request).
Proof.
  destruct (create_token_request_parses request ltac:(reflexivity) ltac:(reflexivity)) as [_ H].
  destruct (encode_create_token_request request) as [b|e] eqn:E; [|vm_compute in E; discriminate].
  exists b. split; [reflexivity|]. apply H. reflexivity.
Defined.

(** A truncated message and an oversized length are rejected. *)
Example truncated_rejected :
  decode_validate_token_response [10; 36; 49] = Raise (AuthCodecError "truncated length-delimited field") /\
  decode_validate_token_response [10; 0x81; 4] = Raise (AuthCodecError "length-delimited field exceeds limit").
Proof. split; vm_compute; reflexivity. Qed.
End CodecSample.
