(* ===== verification/RefreshCodec.v ===== *)
(** * Operator session refresh messages
    ([services/api/app/auth/session_refresh_codec.py])

    The API service has its own copies of the wire helpers; [_decode_varint] and
    [_read_bytes] are those of [Wire].  Its field loop calls a visitor that may
    stop it early. *)

From S2P Require Import Prelude PyText Wire AuthCodec.

Definition REFRESH_MAX_TOKEN_FIELD : Z := 8192.
Definition REFRESH_MAX_MESSAGE : Z := 16384.

(** [encode_issue_with_refresh] *)
Definition encode_issue_with_refresh (refresh_token : pystr) : result CodecError bytes :=
  let* raw := encode_utf8 refresh_token in encode_len_field 1 raw.

(** [encode_string_fields], over the dict's items in insertion order. *)
Fixpoint encode_string_fields (fields : list (Z * pystr)) : result CodecError bytes :=
  match fields with
  | [] => Ok []
  | (n, value) :: fields =>
      match value with
      | [] => encode_string_fields fields
      | _ =>
          let* raw := encode_utf8 value in
          if REFRESH_MAX_TOKEN_FIELD <? zlen raw then Raise (AuthCodecError "string field exceeds limit")
          else
            let* f := encode_len_field n raw in
            let* rest := encode_string_fields fields in
            Ok (f ++ rest)
      end
  end.

Definition refresh_skip_fixed (buf : bytes) (idx size : nat) : result CodecError nat :=
  let end_ := (idx + size)%nat in
  if (length buf <? end_)%nat then Raise (AuthCodecError "truncated fixed field") else Ok end_.

Definition refresh_skip_unknown (buf : bytes) (idx : nat) (wire : Z) : result CodecError nat :=
  if wire =? WIRE_VARINT then let* '(_, idx) := decode_varint buf idx in Ok idx
  else if wire =? WIRE_LEN then let* '(_, idx) := read_bytes buf idx REFRESH_MAX_MESSAGE in Ok idx
  else if wire =? WIRE_64BIT then refresh_skip_fixed buf idx 8
  else if wire =? WIRE_32BIT then refresh_skip_fixed buf idx 4
  else Raise (AuthCodecError "unsupported wire type").

Definition utf8_string (val : bytes) : result CodecError pystr :=
  match utf8_decode val with
  | Some s => Ok s
  | None => Raise (AuthCodecError "invalid utf-8 string field")
  end.

Section Walk.
Context {S : Type} (buf : bytes)
  (** [visit(fn, wire, idx)] with the visitor's captured list or dict. *)
  (visit : Z -> Z -> nat -> S -> result CodecError (option nat * S)).

Fixpoint refresh_walk_loop (fuel : nat) (idx : nat) (s : S) : result CodecError S :=
  if (idx <? length buf)%nat then
    match fuel with
    | O => Raise Diverged
    | Datatypes.S fuel =>
        let* '(key, idx) := decode_varint buf idx in
        let* '(nxt, s) := visit (Z.shiftr key 3) (Z.land key 7) idx s in
        match nxt with
        | None => Ok s
        | Some idx => refresh_walk_loop fuel idx s
        end
    end
  else Ok s.

(** [_walk_fields]; each round consumes at least the key's byte. *)
Definition refresh_walk_fields (too_large : string) (s : S) : result CodecError S :=
  if REFRESH_MAX_MESSAGE <? zlen buf then Raise (AuthCodecError too_large)
  else refresh_walk_loop (length buf) 0 s.
End Walk.

(** The visitor of [decode_string_field]. *)
Definition visit_string_field (buf : bytes) (field_num : Z) (fn wt : Z) (idx : nat)
    (found : list pystr) : result CodecError (option nat * list pystr) :=
  if negb (wt =? WIRE_LEN) then
    let* i := refresh_skip_unknown buf idx wt in Ok (Some i, found)
  else
    let* '(val, idx) := read_bytes buf idx REFRESH_MAX_TOKEN_FIELD in
    if fn =? field_num then let* t := utf8_string val in Ok (None, found ++ [t])
    else Ok (Some idx, found).

Definition decode_string_field (buf : bytes) (field_num : Z) : result CodecError (option pystr) :=
  let* found := refresh_walk_fields buf (visit_string_field buf field_num)
                  "auth refresh response too large" [] in
  Ok (head found).

(** The visitor of [decode_string_fields]. *)
Definition visit_string_fields (buf : bytes) (field_nums : list Z) (fn wt : Z) (idx : nat)
    (values : gmap Z pystr) : result CodecError (option nat * gmap Z pystr) :=
  if wt =? WIRE_LEN then
    let* '(val, idx) := read_bytes buf idx REFRESH_MAX_TOKEN_FIELD in
    if bool_decide (fn ∈ field_nums)
    then let* t := utf8_string val in Ok (Some idx, <[fn := t]> values)
    else Ok (Some idx, values)
  else let* i := refresh_skip_unknown buf idx wt in Ok (Some i, values).

Definition decode_string_fields (buf : bytes) (field_nums : list Z) : result CodecError (gmap Z pystr) :=
  refresh_walk_fields buf (visit_string_fields buf field_nums) "auth lifecycle response too large" ∅.

(** The visitor of [decode_int64_field]. *)
Definition visit_int64_field (buf : bytes) (field_num : Z) (fn wt : Z) (idx : nat)
    (found : list Z) : result CodecError (option nat * list Z) :=
  if wt =? WIRE_VARINT then
    let* '(val, idx) := decode_varint buf idx in
    if fn =? field_num then Ok (None, found ++ [val]) else Ok (Some idx, found)
  else let* i := refresh_skip_unknown buf idx wt in Ok (Some i, found).

Definition decode_int64_field (buf : bytes) (field_num : Z) : result CodecError (option Z) :=
  let* found := refresh_walk_fields buf (visit_int64_field buf field_num)
                  "auth lifecycle response too large" [] in
  Ok (head found).

(** ** Round trip *)

(** The fields a dict of strings is written as: empty values are left out. *)
Definition written (fields : list (Z * pystr)) : list (Z * pystr) :=
  List.filter (fun p => match p.2 with [] => false | _ => true end) fields.

Definition string_okb (p : Z * pystr) : bool :=
  (forallb scalar p.2 && (zlen (enc_text p.2) <=? REFRESH_MAX_TOKEN_FIELD))%bool.

Lemma encode_string_fields_Ok fields : (forall n v, (n, v) ∈ fields -> 0 <= n) ->
  forallb string_okb fields = true ->
  encode_string_fields fields = Ok (enc_fields ((fun p => text_field p.1 p.2) <$> written fields)).
Proof.
  induction fields as [|[n v] fields IH]; intros Hn Hok; [done|].
  cbn [forallb] in Hok. bools. unfold string_okb in *. cbn [fst snd] in *. bools.
  assert (forall n v, (n, v) ∈ fields -> 0 <= n) by (intros; eapply Hn; by right).
  cbn [encode_string_fields written List.filter snd]. destruct v as [|c v]; [by apply IH|].
  unfold encode_utf8, utf8_encode.
  match goal with H : forallb scalar (c :: v) = true |- _ => rewrite H end. cbn [rbind].
  change (mjoin (utf8_char <$> c :: v)) with (enc_text (c :: v)).
  rewrite (proj2 (Z.ltb_ge _ _)) by done.
  rewrite encode_len_field_Ok by (eapply Hn; left). cbn [rbind].
  fold (written fields). rewrite IH by done. done.
Qed.

(** One length-delimited field of the walk. *)
Lemma refresh_step {S : Type} (visit : bytes -> Z -> Z -> nat -> S -> result CodecError (option nat * S))
    pre n t rest fuel s : 0 <= n < 2 ^ 29 ->
  let buf := pre ++ enc_field (text_field n t) ++ rest in
  refresh_walk_loop buf (visit buf) (Datatypes.S fuel) (length pre) s =
  let* '(nxt, s) := visit buf n WIRE_LEN (length (pre ++ field_key n WIRE_LEN)) s in
  match nxt with None => Ok s | Some idx => refresh_walk_loop buf (visit buf) fuel idx s end.
Proof.
  intros Hn buf. cbn [refresh_walk_loop].
  pose proof (enc_field_nonempty (text_field n t)).
  rewrite (proj2 (Nat.ltb_lt _ _)) by (subst buf; rewrite !length_app; lia).
  subst buf. cbn [enc_field text_field]. rewrite <- !app_assoc.
  rewrite decode_key by done. cbn [rbind].
  destruct (key_split n WIRE_LEN Hn ltac:(done)) as (_ & -> & ->). done.
Qed.

Lemma refresh_read pre n t rest : zlen (enc_text t) <= REFRESH_MAX_TOKEN_FIELD ->
  read_bytes (pre ++ enc_field (text_field n t) ++ rest) (length (pre ++ field_key n WIRE_LEN))
    REFRESH_MAX_TOKEN_FIELD = Ok (enc_text t, length (pre ++ enc_field (text_field n t))).
Proof.
  intros Ht. cbn [enc_field text_field]. rewrite <- !app_assoc, (app_assoc pre (field_key n WIRE_LEN)).
  rewrite read_bytes_enc by done. rewrite !length_app. do 2 f_equal. lia.
Qed.

Lemma utf8_string_text t : forallb scalar t = true -> utf8_string (enc_text t) = Ok t.
Proof.
  intros Ht. unfold utf8_string. rewrite (utf8_roundtrip t); [done|]. unfold utf8_encode. by rewrite Ht.
Qed.

Definition wanted (nums : list Z) (values : gmap Z pystr) (p : Z * pystr) : gmap Z pystr :=
  if bool_decide (p.1 ∈ nums) then <[p.1 := p.2]> values else values.

Lemma walk_string_fields nums ps : forall pre fuel s,
  (forall n v, (n, v) ∈ ps -> 0 <= n < 2 ^ 29) -> forallb string_okb ps = true ->
  (length (enc_fields ((fun p => text_field p.1 p.2) <$> ps)) <= fuel)%nat ->
  let buf := pre ++ enc_fields ((fun p => text_field p.1 p.2) <$> ps) in
  refresh_walk_loop buf (visit_string_fields buf nums) fuel (length pre) s =
  Ok (foldl (wanted nums) s ps).
Proof.
  induction ps as [|[n t] ps IH]; intros pre fuel s Hn Hok Hfuel.
  - cbn zeta. change (enc_fields _) with (@nil Z). rewrite app_nil_r.
    destruct fuel; cbn [refresh_walk_loop]; by rewrite Nat.ltb_irrefl.
  - cbn [forallb] in Hok. bools. unfold string_okb in *. cbn [fst snd] in *. bools.
    change (enc_fields ((fun p => text_field p.1 p.2) <$> (n, t) :: ps)) with
      (enc_field (text_field n t) ++ enc_fields ((fun p => text_field p.1 p.2) <$> ps)) in *.
    rewrite length_app in Hfuel. pose proof (enc_field_nonempty (text_field n t)).
    destruct fuel as [|fuel]; [lia|]. cbn zeta.
    rewrite (refresh_step (fun buf => visit_string_fields buf nums)) by (eapply Hn; left).
    unfold visit_string_fields at 1. change (WIRE_LEN =? WIRE_LEN) with true. cbn iota.
    rewrite refresh_read by done. cbn [rbind foldl]. unfold wanted at 2. cbn [fst snd].
    assert (forall n v, (n, v) ∈ ps -> 0 <= n < 2 ^ 29) by (intros; eapply Hn; by right).
    destruct (bool_decide (n ∈ nums)); [rewrite utf8_string_text by done|]; cbn [rbind];
      rewrite app_assoc; apply IH; done || lia.
Qed.

Lemma written_elem fields p : p ∈ written fields <-> p ∈ fields /\ p.2 <> [].
Proof.
  destruct p as [n v]. unfold written. rewrite !list_elem_of_In, filter_In. cbn.
  destruct v; naive_solver.
Qed.

Lemma written_NoDup fields : NoDup fields.*1 -> NoDup (written fields).*1.
Proof.
  induction fields as [|[n v] fs IH]; cbn; intros Hnd; [done|].
  inversion Hnd as [|? ? Hnin Hnd']; subst. destruct v; cbn; [by apply IH|].
  constructor; [|by apply IH]. intros Hin. apply Hnin.
  apply list_elem_of_fmap in Hin as ([n' v'] & -> & Hin). apply list_elem_of_fmap.
  exists (n', v'). split; [done|]. by apply (written_elem fs) in Hin as [Hin _].
Qed.

(** What the visitor has collected after the fields [ps]. *)
Lemma foldl_wanted nums ps n v : NoDup ps.*1 -> forall m,
  foldl (wanted nums) m ps !! n = Some v <->
  ((n, v) ∈ ps /\ n ∈ nums) \/ (m !! n = Some v /\ (n ∉ nums \/ n ∉ ps.*1)).
Proof.
  induction ps as [|[k t] ps IH]; intros Hnd m; cbn [foldl].
  - set_solver.
  - inversion Hnd as [|? ? Hk Hnd']; subst. rewrite (IH Hnd'). unfold wanted. cbn [fst snd].
    assert (forall w, (k, w) ∉ ps) as Hk'
      by (intros w Hw; apply Hk; apply list_elem_of_fmap; by exists (k, w)).
    cbn [fmap list_fmap fst]. rewrite !elem_of_cons.
    destruct (decide (n = k)) as [->|Hne].
    + specialize (Hk' v). case_bool_decide; rewrite ?lookup_insert_eq; naive_solver.
    + case_bool_decide; rewrite ?lookup_insert_ne by done; naive_solver.
Qed.

(** Decoding a set of string fields of an encoded dict returns exactly the
    dict's non-empty entries among the fields asked for, whatever the order of
    the dict. *)
Theorem refresh_fields_roundtrip (fields : list (Z * pystr)) (nums : list Z) :
  (forall n v, (n, v) ∈ fields -> 0 <= n < 2 ^ 29) -> NoDup fields.*1 ->
  forallb string_okb fields = true ->
  exists b, encode_string_fields fields = Ok b /\
    (zlen b <= REFRESH_MAX_MESSAGE ->
     exists values, decode_string_fields b nums = Ok values /\
       forall n v, values !! n = Some v <-> (n, v) ∈ fields /\ v <> [] /\ n ∈ nums).
Proof.
  intros Hn Hnd Hok. eexists. split.
  { apply encode_string_fields_Ok; [|done]. intros n v Hin. by eapply Hn. }
  intros Hlen. unfold decode_string_fields, refresh_walk_fields.
  rewrite (proj2 (Z.ltb_ge _ _)) by done. eexists. split.
  - apply (walk_string_fields nums (written fields) []); [| |done].
    + intros n v Hp. apply written_elem in Hp as [Hp _]. by eapply Hn.
    + apply forallb_forall. intros p Hp. apply list_elem_of_In, written_elem in Hp as [Hp _].
      rewrite forallb_forall in Hok. by apply Hok, list_elem_of_In.
  - intros n v. rewrite foldl_wanted by (by apply written_NoDup).
    rewrite written_elem, lookup_empty. naive_solver.
Qed.

Module RefreshSample.
Definition fields : list (Z * pystr) := [(1, lit "acc"); (3, []); (2, lit "ref")].

Lemma refresh_fields_roundtrip_witness :
  exists b, encode_string_fields fields = Ok b /\
    (zlen b <= REFRESH_MAX_MESSAGE -> exists values, decode_string_fields b [1; 2; 3] = Ok values).
Proof.
  destruct (refresh_fields_roundtrip fields [1; 2; 3]) as (b & Hb & H).
  - intros n v Hin. unfold fields in Hin. repeat (apply elem_of_cons in Hin as [[= -> ->]|Hin]; [lia|]).
    by apply elem_of_nil in Hin.
  - repeat (apply NoDup_cons; split; [set_solver|]). apply NoDup_nil_2.
  - vm_compute. reflexivity.
  - exists b. split; [exact Hb|]. intros Hl. destruct (H Hl) as (values & Hv & _). exists values. exact Hv.
Defined.

(** An int64 on the wire is read as an unsigned number: -1 comes out as
    [2^64 - 1]. *)
Example negative_int64_unsigned :
  decode_int64_field [16; 255; 255; 255; 255; 255; 255; 255; 255; 255; 1] 2 = Ok (Some (2 ^ 64 - 1)).
Proof. vm_compute. reflexivity. Qed.
End RefreshSample.
