(* ===== verification/Pricing.v ===== *)
(** * Rate-card pricing ([services/worker/app/budget_pricing.py])

    Token estimates, rate-card matching with [fnmatch.fnmatchcase] and the cost
    of a call in whole cents, rounded up per component. *)

From S2P Require Import Prelude PyText.

(** ** [fnmatch] *)

Inductive Glob :=
| GStar
| GAny
| GLit (c : Z)
| GClass (negated : bool) (ranges : list (Z * Z)).

Definition star : Z := 42.
Definition question : Z := 63.
Definition bracket : Z := 91.
Definition close : Z := 93.
Definition bang : Z := 33.
Definition hyphen : Z := 45.

(** The end of a bracket expression: the position of the closing bracket,
    counted from the start of [s], if there is one. *)
Fixpoint find_close (s : pystr) : option nat :=
  match s with
  | [] => None
  | c :: r => if c =? close then Some O else S <$> find_close r
  end.

Definition class_end (s : pystr) : option nat :=
  let '(k, s) := match s with c :: r => if c =? bang then (1%nat, r) else (O, s) | [] => (O, s) end in
  let '(k, s) := match s with c :: r => if c =? close then (S k, r) else (k, s) | [] => (k, s) end in
  Nat.add k <$> find_close s.

(** [pat.find('-', k, j)] on the text from [k] on. *)
Fixpoint find_hyphen (s : pystr) : option nat :=
  match s with
  | [] => None
  | c :: r => if c =? hyphen then Some O else S <$> find_hyphen r
  end.

(** The chunks between range hyphens: the search starts [skip] characters into
    the chunk, and every chunk but the last has at least one character. *)
Fixpoint chunks (fuel : nat) (skip : nat) (stuff : pystr) : list pystr :=
  match fuel with
  | O => [stuff]
  | S fuel =>
      match find_hyphen (drop skip stuff) with
      | Some k => take (skip + k) stuff :: chunks fuel 2 (drop (skip + k + 1) stuff)
      | None => [stuff]
      end
  end.

(** An empty last chunk stands for a literal hyphen after the one before. *)
Definition close_chunks (cs : list pystr) : list pystr :=
  match reverse cs with
  | [] :: prev :: rest => reverse ((prev ++ [hyphen]) :: rest)
  | _ => cs
  end.

(** Empty ranges are cut out, from the right. *)
Fixpoint drop_empty_ranges (cs : list pystr) : list pystr :=
  match cs with
  | c0 :: cs =>
      match drop_empty_ranges cs with
      | c1 :: rest =>
          match last c0, c1 with
          | Some a, b :: tl =>
              if b <? a then (removelast c0 ++ tl) :: rest else c0 :: c1 :: rest
          | _, _ => c0 :: c1 :: rest
          end
      | [] => [c0]
      end
  | [] => []
  end.

(** The set of a chunk list: its characters, and a range wherever two chunks
    meet. *)
Fixpoint chunk_ranges (lo : option Z) (cs : list pystr) : list (Z * Z) :=
  match cs with
  | [] => []
  | c :: cs =>
      let '(head_range, c) :=
        match lo, c with Some a, b :: r => ([(a, b)], r) | _, _ => ([], c) end in
      match cs, last c with
      | _ :: _, Some a => head_range ++ ((fun x => (x, x)) <$> removelast c) ++ chunk_ranges (Some a) cs
      | _, _ => head_range ++ ((fun x => (x, x)) <$> c) ++ chunk_ranges None cs
      end
  end.

(** The class of [[stuff]]. *)
Definition parse_class (stuff : pystr) : Glob :=
  let '(neg, body) := match stuff with c :: r => if c =? bang then (true, r) else (false, stuff) | [] => (false, []) end in
  let cs := if existsb (Z.eqb hyphen) stuff
            then drop_empty_ranges (close_chunks (chunks (length body) 1 body))
            else [body] in
  GClass neg (chunk_ranges None cs).

(** [translate]: the pattern's pieces. *)
Fixpoint translate_loop (fuel : nat) (pat : pystr) : list Glob :=
  match fuel, pat with
  | S fuel, c :: r =>
      if c =? star then GStar :: translate_loop fuel r
      else if c =? question then GAny :: translate_loop fuel r
      else if c =? bracket then
        match class_end r with
        | None => GLit bracket :: translate_loop fuel r
        | Some j => parse_class (take j r) :: translate_loop fuel (drop (S j) r)
        end
      else GLit c :: translate_loop fuel r
  | _, _ => []
  end.
Definition translate (pat : pystr) : list Glob := translate_loop (length pat) pat.

Definition glob_char (g : Glob) (c : Z) : bool :=
  match g with
  | GStar => false
  | GAny => true
  | GLit d => c =? d
  | GClass neg rs => xorb neg (existsb (fun p => (p.1 <=? c) && (c <=? p.2)) rs)
  end.

Fixpoint glob_match (p : list Glob) (s : pystr) : bool :=
  match p with
  | [] => match s with [] => true | _ => false end
  | GStar :: p =>
      (fix any (s : pystr) : bool :=
         glob_match p s || match s with [] => false | _ :: s => any s end) s
  | g :: p => match s with c :: s => glob_char g c && glob_match p s | [] => false end
  end.

Definition fnmatchcase (name pat : pystr) : bool := glob_match (translate pat) name.

(** ** Prices *)

Record PriceRow := {
  pr_provider : pystr;
  pr_model_pattern : pystr;
  input_cents_per_1k : Z;
  output_cents_per_1k : Z;
}.

Record Card := { card_version : pystr; card_prices : list PriceRow }.

Definition DEFAULT_OUTPUT_TOKENS : Z := 4096.
Definition TOKENS_PER_MESSAGE : Z := 4.
Definition BYTES_PER_TOKEN : Z := 4.

(** [_heuristic_tokens]; [None] is [UnicodeEncodeError]. *)
Definition heuristic_tokens (content : pystr) : option Z :=
  match content with
  | [] => Some 0
  | _ => (fun b => Z.max (Z.of_nat (length content)) (Z.of_nat (length b) / BYTES_PER_TOKEN))
         <$> utf8_encode content
  end.

Definition estimate_prompt_tokens (system_prompt user_content : pystr) : option (Z * Z) :=
  match heuristic_tokens system_prompt, heuristic_tokens user_content with
  | Some a, Some b => Some (a + TOKENS_PER_MESSAGE + b + TOKENS_PER_MESSAGE, DEFAULT_OUTPUT_TOKENS)
  | _, _ => None
  end.

(** The test [_match_price] makes of one row. *)
Definition price_matches `{UnicodeDB} (provider model : pystr) (row : PriceRow) : bool :=
  let pattern := strip_space (pr_model_pattern row) in
  (bool_decide (u_lower (strip_space (pr_provider row)) = u_lower (strip_space provider))
   && negb (bool_decide (pattern = []))
   && fnmatchcase (strip_space model) pattern)%bool.

Fixpoint match_price `{UnicodeDB} (prices : list PriceRow) (provider model : pystr) : option PriceRow :=
  match prices with
  | [] => None
  | row :: prices => if price_matches provider model row then Some row
                     else match_price prices provider model
  end.

Definition ceil_mul_div_1k (tokens cents_per_1k : Z) : Z :=
  if (tokens =? 0) || (cents_per_1k =? 0) then 0 else (tokens * cents_per_1k + 999) / 1000.

Definition cost_from_rates (in_rate out_rate input_tokens output_tokens : Z) : option Z :=
  if (input_tokens <? 0) || (output_tokens <? 0) then None
  else if (in_rate <? 0) || (out_rate <? 0) then None
  else Some (ceil_mul_div_1k input_tokens in_rate + ceil_mul_div_1k output_tokens out_rate).

Definition estimate_cost `{UnicodeDB} (card : Card) (provider model : pystr)
    (input_tokens output_tokens : Z) : option Z :=
  match card_version card with
  | [] => None
  | _ =>
      match match_price (card_prices card) provider model with
      | None => None
      | Some row => cost_from_rates (input_cents_per_1k row) (output_cents_per_1k row)
                      input_tokens output_tokens
      end
  end.

(** ** Matching *)

(** The language of a pattern. *)
Inductive Matches : list Glob -> pystr -> Prop :=
| M_nil : Matches [] []
| M_star_skip p s : Matches p s -> Matches (GStar :: p) s
| M_star_eat p c s : Matches (GStar :: p) s -> Matches (GStar :: p) (c :: s)
| M_char g p c s : g <> GStar -> glob_char g c = true -> Matches p s -> Matches (g :: p) (c :: s).

#[local] Hint Constructors Matches : ibex.

Lemma glob_star p s : glob_match (GStar :: p) s =
  (glob_match p s || match s with [] => false | _ :: s => glob_match (GStar :: p) s end)%bool.
Proof. by destruct s. Qed.

Lemma glob_match_sound p : forall s, glob_match p s = true -> Matches p s.
Proof.
  induction p as [|g p IH]; intros s Hs.
  - destruct s; [constructor|done].
  - destruct g as [| |d|neg rs]; [|destruct s as [|c s]; [done|]; cbn [glob_match] in Hs;
      apply andb_prop in Hs as [H1 H2]; by apply M_char, IH..].
    induction s as [|c s IHs]; rewrite glob_star in Hs; apply orb_prop in Hs as [Hs|Hs];
      auto with ibex; done.
Qed.

Lemma glob_match_complete p s : Matches p s -> glob_match p s = true.
Proof.
  induction 1 as [|p s _ IH|p c s _ IH|g p c s Hg Hc _ IH].
  - done.
  - rewrite glob_star, IH. done.
  - rewrite glob_star, IH. apply orb_true_r.
  - destruct g; [done|..]; cbn [glob_match]; rewrite Hc, IH; done.
Qed.

Lemma glob_match_spec p s : glob_match p s = true <-> Matches p s.
Proof. split; [apply glob_match_sound|apply glob_match_complete]. Qed.

(** ** Properties *)

(** A row is chosen exactly when it is the first row of the card whose
    provider equals the call's up to case and surrounding white space and whose
    non-empty pattern has the model in its language (the inductive meaning of
    [*], [?] and bracket classes). *)
Theorem match_price_first `{UnicodeDB} (prices : list PriceRow) (provider model : pystr) (row : PriceRow) :
  match_price prices provider model = Some row <->
  exists before after, prices = before ++ row :: after /\
    (u_lower (strip_space (pr_provider row)) = u_lower (strip_space provider) /\
     strip_space (pr_model_pattern row) <> [] /\
     Matches (translate (strip_space (pr_model_pattern row))) (strip_space model)) /\
    Forall (fun r => price_matches provider model r = false) before.
Proof.
  assert (forall r, price_matches provider model r = true <->
    u_lower (strip_space (pr_provider r)) = u_lower (strip_space provider) /\
    strip_space (pr_model_pattern r) <> [] /\
    Matches (translate (strip_space (pr_model_pattern r))) (strip_space model)) as Hm.
  { intros r. unfold price_matches, fnmatchcase.
    rewrite !andb_true_iff, negb_true_iff, bool_decide_eq_true, bool_decide_eq_false, glob_match_spec.
    naive_solver. }
  setoid_rewrite <- Hm. clear Hm. induction prices as [|r prices IH]; cbn.
  - split; [done|]. intros (before & after & Hp & _). by destruct before.
  - destruct (price_matches provider model r) eqn:Hr.
    + split; [intros [= ->]; exists [], prices; auto|].
      intros (before & after & Hp & Ha & Hb). destruct before as [|b before]; cbn in Hp.
      * by injection Hp as ->.
      * injection Hp as -> ->. apply Forall_cons in Hb as [Hb _]. congruence.
    + rewrite IH. split.
      * intros (before & after & -> & Ha & Hb). exists (r :: before), after.
        split; [done|]. split; [done|]. by apply Forall_cons.
      * intros (before & after & Hp & Ha & Hb). destruct before as [|b before]; cbn in Hp.
        -- injection Hp as -> ->. congruence.
        -- injection Hp as -> ->. apply Forall_cons in Hb as [_ Hb]. eauto.
Qed.

Lemma ceil_mul_div_1k_bounds t r : 0 <= t -> 0 <= r ->
  t * r <= 1000 * ceil_mul_div_1k t r < t * r + 1000.
Proof.
  intros Ht Hr. unfold ceil_mul_div_1k. destruct ((t =? 0) || (r =? 0))%bool eqn:E.
  - apply orb_prop in E as [E|E]; apply Z.eqb_eq in E; subst; lia.
  - divmod (t * r + 999) 1000. lia.
Qed.

Lemma ceil_mul_div_1k_mono t t' r r' : 0 <= t <= t' -> 0 <= r <= r' ->
  ceil_mul_div_1k t r <= ceil_mul_div_1k t' r'.
Proof.
  intros Ht Hr. pose proof (ceil_mul_div_1k_bounds t r ltac:(lia) ltac:(lia)).
  pose proof (ceil_mul_div_1k_bounds t' r' ltac:(lia) ltac:(lia)).
  assert (t * r <= t' * r') by nia. lia.
Qed.

(** The cost of a call never undercharges and overcharges by less than one
    cent per component; it is defined exactly for non-negative counts and rates,
    and grows with both. *)
Theorem cost_from_rates_ceiling (in_rate out_rate input_tokens output_tokens : Z) :
  (cost_from_rates in_rate out_rate input_tokens output_tokens = None <->
   input_tokens < 0 \/ output_tokens < 0 \/ in_rate < 0 \/ out_rate < 0) /\
  (forall c, cost_from_rates in_rate out_rate input_tokens output_tokens = Some c ->
     0 <= c /\
     input_tokens * in_rate + output_tokens * out_rate <= 1000 * c <
       input_tokens * in_rate + output_tokens * out_rate + 2 * 1000 /\
     forall in_rate' out_rate' input' output', in_rate <= in_rate' -> out_rate <= out_rate' ->
       input_tokens <= input' -> output_tokens <= output' ->
       exists c', cost_from_rates in_rate' out_rate' input' output' = Some c' /\ c <= c').
Proof.
  unfold cost_from_rates. split.
  - repeat case_if; repeat match goal with H : (_ || _)%bool = true |- _ => apply orb_prop in H as [H|H] end;
      bools; split; try done; lia.
  - intros c Hc. repeat case_if; simplify_eq; bools.
    pose proof (ceil_mul_div_1k_bounds input_tokens in_rate ltac:(lia) ltac:(lia)).
    pose proof (ceil_mul_div_1k_bounds output_tokens out_rate ltac:(lia) ltac:(lia)).
    split; [nia|]. split; [lia|]. intros ir or it ot Hir Hor Hit Hot.
    rewrite !(proj2 (Z.ltb_ge _ _)) by lia. cbn. eexists. split; [done|].
    apply Z.add_le_mono; apply ceil_mul_div_1k_mono; lia.
Qed.

Lemma utf8_char_length c : scalar c = true -> (length (utf8_char c) <= 4)%nat.
Proof. intros _. unfold utf8_char. repeat case_if; cbn; lia. Qed.

(** The token estimate of a prompt is its length in characters: UTF-8
    needs at most four bytes per character, so the byte count divided by
    [BYTES_PER_TOKEN] never exceeds it.  The estimate exists for every text that
    UTF-8 can encode. *)
Theorem heuristic_tokens_is_length (content : pystr) :
  heuristic_tokens content =
  if forallb scalar content then Some (Z.of_nat (length content)) else None.
Proof.
  destruct content as [|c s]; [done|]. unfold heuristic_tokens, utf8_encode.
  set (t := c :: s). destruct (forallb scalar t) eqn:Ht; [|done].
  cbn [fmap option_fmap option_map]. f_equal.
  assert (length (mjoin (utf8_char <$> t)) <= 4 * length t)%nat as Hlen.
  { clearbody t. clear c s. induction t as [|c s IH]; [done|]. cbn in Ht. bools.
    change (mjoin (utf8_char <$> c :: s)) with (utf8_char c ++ mjoin (utf8_char <$> s)).
    rewrite length_app. pose proof (utf8_char_length c ltac:(done)). specialize (IH ltac:(done)). cbn. lia. }
  apply Z.max_l. apply Z.div_le_upper_bound; [done|]. unfold BYTES_PER_TOKEN. lia.
Qed.

Module PricingSample.
#[local] Existing Instance ascii_db.
Definition row (p m : string) : PriceRow :=
  {| pr_provider := lit p; pr_model_pattern := lit m; input_cents_per_1k := 3; output_cents_per_1k := 12 |}.

(** Prefix patterns, classes with ranges and a fixed middle. *)
Example patterns :
  fnmatchcase (lit "gpt-4o-mini") (lit "gpt-4*") = true /\
  fnmatchcase (lit "claude-3-opus") (lit "claude-[3-4]-*") = true /\
  fnmatchcase (lit "claude-5-opus") (lit "claude-[3-4]-*") = false /\
  fnmatchcase (lit "o1") (lit "o[!a-z]") = true /\
  fnmatchcase (lit "b") (lit "[z-a]") = false /\
  fnmatchcase (lit "a[b") (lit "a[b") = true.
Proof. vm_compute. auto 10. Qed.

Example first_row_wins :
  match_price [row "openai" " "; row " OpenAI " "gpt-4*"; row "openai" "*"] (lit "OPENAI") (lit "gpt-4o")
  = Some (row " OpenAI " "gpt-4*").
Proof. vm_compute. reflexivity. Qed.

Example cost_rounds_up : cost_from_rates 3 12 1001 1 = Some (4 + 1).
Proof. reflexivity. Qed.
End PricingSample.
