(* ===== verification/BudgetLedger.v ===== *)
(** * The budget reservation ledger ([services/worker/app/budget_ledger.py])

    Admission holds of an organization against the cap of its active budget
    period.  The table [ibex_core.budget_reservations] is a map from its unique
    key to rows; the billing tables it reads are lists.  A claim runs under the
    organization's advisory lock and is one step; an exception rolls its
    transaction back.  Times are microseconds of the database clock. *)

From S2P Require Import Prelude PyText Pricing.

Definition UUID : Type := string.

Inductive ReservationState := Claimed | Finalized | Released | Expired.

#[global] Instance ReservationState_eq_dec : EqDecision ReservationState.
Proof. solve_decision. Defined.

Inductive Completeness := Complete | Estimated.

#[global] Instance Completeness_eq_dec : EqDecision Completeness.
Proof. solve_decision. Defined.

Record Row := {
  id : UUID;
  request_hash : string;
  state : ReservationState;
  period_id : UUID;
  amount_estimated_cents : Z;
  price_input : option Z;
  price_output : option Z;
  amount_final_cents : option Z;
  finalized_completeness : option Completeness;
  lease_expires_at : option Z;
  version : Z;
}.

Abbreviation Table := (gmap (UUID * UUID * string) Row).

(** ** Billing tables *)

Record Period := {
  bp_id : UUID;
  bp_org : UUID;
  bp_start : Z;
  bp_end : Z;
  bp_hard_cap : bool;          (* [enforcement_mode = 'hard_cap'] *)
  cap_cents : Z;
  spent_cents_cached : Z;
}.

(** One entry of a card's JSON price list, with the members the code reads. *)
Record RawPrice := {
  rp_provider : option pystr;
  rp_model_pattern : option pystr;
  rp_input : option Z;
  rp_output : option Z;
}.

(** The [prices] payload: null, a list (an entry that is not an object is
    [None]), or another JSON value. *)
Inductive PricesJson :=
| PricesNull
| PricesList (rows : list (option RawPrice))
| PricesOther.

Record RateCard := { rc_id : UUID; rc_org : UUID; rc_published : bool; rc_updated_at : Z }.
Record CardVersion := {
  cv_id : UUID;
  cv_card : UUID;
  cv_org : UUID;
  cv_version : pystr;
  cv_prices : PricesJson;
  cv_published_at : Z;
}.

Record Billing := {
  periods : list Period;
  cards : list RateCard;
  card_versions : list CardVersion;
}.

(** [ORDER BY k DESC, id DESC LIMIT 1] *)
Definition latest {A : Type} (k : A -> Z) (i : A -> UUID) (l : list A) : option A :=
  head (py_sorted (fun x y => pair_ltb Z.eqb Z.ltb str_ltb (k y, i y) (k x, i x)) l).

(** [_LOAD_PERIOD_SQL] *)
Definition load_active_period (b : Billing) (org : UUID) (now : Z) : option Period :=
  latest bp_start bp_id
    (List.filter (fun p => String.eqb (bp_org p) org && (bp_start p <=? now) && (now <? bp_end p)
                           && bp_hard_cap p)%bool (periods b)).

(** ** Requests and errors *)

Inductive DenyKind := DenyConflict | DenyInProgress (retry_after : Z) | DenyExceeded | DenyNoRateCard.

Inductive LedgerError :=
| InvalidClaim
| BadCard                            (* prices payload or row of the wrong type *)
| ResetFailed
| InvalidSweep
| NotReady
| ClaimClosed                        (* [BudgetLedgerClaimClosedError] *)
| Unavailable                        (* [BudgetLedgerUnavailableError] *)
| AdmissionDenied (kind : DenyKind).

Record BudgetClaimRequest := {
  rq_org : UUID;
  rq_agent : UUID;
  rq_key : string;
  rq_hash : string;
  rq_provider : pystr;
  rq_model : pystr;
  rq_input_tokens : Z;
  rq_output_tokens : Z;
}.

Record BudgetClaim := {
  bc_id : UUID;
  bc_org : UUID;
  bc_agent : UUID;
  bc_key : string;
  bc_hash : string;
  bc_period : UUID;
  bc_provider : pystr;
  bc_model : pystr;
  bc_version : Z;
}.

Record Admission := {
  ad_request : BudgetClaimRequest;
  ad_period : UUID;
  ad_cap : Z;
  ad_spent : Z;
  ad_estimated : Z;
  ad_price_input : Z;
  ad_price_output : Z;
  ad_lease : Z;
}.

Definition rq_index (q : BudgetClaimRequest) : UUID * UUID * string := (rq_org q, rq_agent q, rq_key q).
Definition bc_index (c : BudgetClaim) : UUID * UUID * string := (bc_org c, bc_agent c, bc_key c).

(** Integer columns, and the CHECK on the hash; a violation is a driver
    error. *)
Definition int32 (z : Z) : bool := ((- 2 ^ 31 <=? z) && (z <? 2 ^ 31))%bool.
Definition int64 (z : Z) : bool := ((- 2 ^ 63 <=? z) && (z <? 2 ^ 63))%bool.

Definition is_hex (c : ascii) : bool :=
  let n := Z.of_nat (nat_of_ascii c) in
  ((48 <=? n) && (n <=? 57) || (97 <=? n) && (n <=? 102))%bool.

Definition hash_ok (h : string) : bool :=
  ((String.length h =? 64)%nat && forallb is_hex (list_ascii_of_string h))%bool.

Definition storable (a : Admission) : bool :=
  (hash_ok (rq_hash (ad_request a)) && int64 (ad_estimated a) && int32 (ad_price_input a)
   && int32 (ad_price_output a))%bool.

(** ** Admission *)

Definition validate_claim (q : BudgetClaimRequest) : result LedgerError unit :=
  if ((String.length (rq_key q) =? 0)%nat || (256 <? String.length (rq_key q))%nat)%bool
  then Raise InvalidClaim
  else if (String.length (rq_hash q) =? 0)%nat then Raise InvalidClaim
  else Ok tt.

(** [raw.get(k) or default] *)
Definition decode_price_row (raw : option RawPrice) : result LedgerError PriceRow :=
  match raw with
  | None => Raise BadCard
  | Some r => Ok {| pr_provider := default [] (rp_provider r);
                    pr_model_pattern := default [] (rp_model_pattern r);
                    input_cents_per_1k := default 0 (rp_input r);
                    output_cents_per_1k := default 0 (rp_output r) |}
  end.

Definition decode_card (prices : PricesJson) : result LedgerError (list PriceRow) :=
  match prices with
  | PricesNull => Ok []
  | PricesOther => Raise BadCard
  | PricesList rows => rmap decode_price_row rows
  end.

(** [_LOAD_CARD_SQL] and [_load_card] *)
Definition load_card (b : Billing) (org : UUID) : result LedgerError Card :=
  let current := latest rc_updated_at rc_id
    (List.filter (fun c => String.eqb (rc_org c) org && rc_published c)%bool (cards b)) in
  let row := match current with
    | None => None
    | Some c => latest cv_published_at cv_id
        (List.filter (fun v => String.eqb (cv_card v) (rc_id c) && String.eqb (cv_org v) org)%bool
           (card_versions b))
    end in
  match row with
  | None => Ok {| card_version := []; card_prices := [] |}
  | Some v => let* ps := decode_card (cv_prices v) in
              Ok {| card_version := cv_version v; card_prices := ps |}
  end.

Definition build_admission `{UnicodeDB} (b : Billing) (q : BudgetClaimRequest) (p : Period)
    (lease : Z) : result LedgerError Admission :=
  let* card := load_card b (rq_org q) in
  let price := match_price (card_prices card) (rq_provider q) (rq_model q) in
  let estimated := estimate_cost card (rq_provider q) (rq_model q) (rq_input_tokens q)
                     (rq_output_tokens q) in
  match price, estimated with
  | Some row, Some cents =>
      Ok {| ad_request := q; ad_period := bp_id p; ad_cap := cap_cents p;
            ad_spent := spent_cents_cached p; ad_estimated := cents;
            ad_price_input := input_cents_per_1k row; ad_price_output := output_cents_per_1k row;
            ad_lease := lease |}
  | _, _ => Raise (AdmissionDenied DenyNoRateCard)
  end.

Definition lease_active (now : Z) (r : Row) : bool :=
  match lease_expires_at r with Some e => now <? e | None => false end.

(** What one row adds to [_ACTIVE_HOLDS_SQL]. *)
Definition hold (org period : UUID) (now : Z) (exclude : option UUID)
    (kr : (UUID * UUID * string) * Row) : Z :=
  let '((org', _, _), r) := kr in
  if (String.eqb org' org && String.eqb (period_id r) period && bool_decide (state r = Claimed)
      && lease_active now r && negb (bool_decide (Some (id r) = exclude)))%bool
  then amount_estimated_cents r else 0.

Definition active_holds (org period : UUID) (now : Z) (exclude : option UUID) (t : Table) : Z :=
  sumZ (hold org period now exclude) (map_to_list t).

Definition second : Z := 1000000.

(** [GREATEST(1, CEIL(EXTRACT(EPOCH FROM lease - NOW())))] *)
Definition retry_after (now : Z) (r : Row) : Z :=
  match lease_expires_at r with
  | Some e => Z.max 1 (- ((now - e) / second))
  | None => 1
  end.

Definition ensure_reusable (now : Z) (r : Row) (q : BudgetClaimRequest) : result LedgerError unit :=
  if negb (String.eqb (request_hash r) (rq_hash q)) then Raise (AdmissionDenied DenyConflict)
  else if (bool_decide (state r = Claimed) && lease_active now r)%bool
  then Raise (AdmissionDenied (DenyInProgress (retry_after now r)))
  else Ok tt.

Definition claim_from_row (row_id : UUID) (v : Z) (a : Admission) : BudgetClaim :=
  let q := ad_request a in
  {| bc_id := row_id; bc_org := rq_org q; bc_agent := rq_agent q; bc_key := rq_key q;
     bc_hash := rq_hash q; bc_period := ad_period a; bc_provider := rq_provider q;
     bc_model := rq_model q; bc_version := v |}.

(** A claimed row for an admission. *)
Definition hold_row (now : Z) (i : UUID) (v : Z) (a : Admission) : Row :=
  {| id := i; request_hash := rq_hash (ad_request a); state := Claimed; period_id := ad_period a;
     amount_estimated_cents := ad_estimated a; price_input := Some (ad_price_input a);
     price_output := Some (ad_price_output a); amount_final_cents := None;
     finalized_completeness := None; lease_expires_at := Some (now + ad_lease a); version := v |}.

(** [_insert_row]; the foreign keys need a known agent. *)
Definition insert_row (known : UUID -> UUID -> bool) (now : Z) (new_id : UUID) (a : Admission) (t : Table)
    : result LedgerError BudgetClaim * Table :=
  let q := ad_request a in
  let holds := active_holds (rq_org q) (ad_period a) now None t in
  if ad_cap a <? ad_spent a + holds + ad_estimated a then (Raise (AdmissionDenied DenyExceeded), t)
  else if negb (storable a) then (Raise Unavailable, t)
  else match t !! rq_index q with
       | Some _ => (Raise (AdmissionDenied (DenyInProgress 1)), t)
       | None => if known (rq_org q) (rq_agent q)
                 then (Ok (claim_from_row new_id 1 a), <[rq_index q := hold_row now new_id 1 a]> t)
                 else (Raise Unavailable, t)
       end.

(** [_RESET_SQL] on the row the transaction has locked. *)
Definition reset_row (now : Z) (r : Row) (a : Admission) (t : Table)
    : result LedgerError BudgetClaim * Table :=
  let q := ad_request a in
  if negb (storable a) then (Raise Unavailable, t)
  else if negb (bool_decide (state r = Claimed)) || negb (lease_active now r) then
    (Ok (claim_from_row (id r) (version r + 1) a),
     <[rq_index q := hold_row now (id r) (version r + 1) a]> t)
  else (Raise ResetFailed, t).

(** [_EXPIRE_ROW_SQL] on a claimed row. *)
Definition expired_row (r : Row) : Row :=
  {| id := id r; request_hash := request_hash r; state := Expired; period_id := period_id r;
     amount_estimated_cents := amount_estimated_cents r; price_input := price_input r;
     price_output := price_output r; amount_final_cents := amount_final_cents r;
     finalized_completeness := finalized_completeness r; lease_expires_at := None;
     version := version r + 1 |}.

Definition expire_stale_row (k : UUID * UUID * string) (r : Row) (t : Table) : Table :=
  if bool_decide (state r = Claimed) then <[k := expired_row r]> t else t.

(** [_claim_row]: the result and the table its transaction has built. *)
Definition claim_row (known : UUID -> UUID -> bool) (now : Z) (new_id : UUID) (a : Admission) (t : Table)
    : result LedgerError BudgetClaim * Table :=
  let q := ad_request a in
  match t !! rq_index q with
  | None => insert_row known now new_id a t
  | Some r =>
      match ensure_reusable now r q with
      | Raise e => (Raise e, t)
      | Ok _ =>
          let holds := active_holds (rq_org q) (ad_period a) now (Some (id r)) t in
          if ad_cap a <? ad_spent a + holds + ad_estimated a then
            let t := if bool_decide (state r = Claimed) then expire_stale_row (rq_index q) r t else t in
            (Raise (AdmissionDenied DenyExceeded), t)
          else reset_row now r a t
      end
  end.

(** [session_as_service_org]: an exception rolls the transaction back to [t]. *)
Definition org_session {A : Type} (t : Table) (body : result LedgerError A * Table)
    : result LedgerError A * Table :=
  match body with (Ok a, t') => (Ok a, t') | (Raise e, _) => (Raise e, t) end.

Definition BUDGET_LEDGER_LEASE : Z := 900 * second.

(** [_AsyncBudgetLedger.claim]: [None] when no hard cap is in force. *)
Definition claim `{UnicodeDB} (known : UUID -> UUID -> bool) (lease : Z) (b : Billing) (now : Z)
    (new_id : UUID) (q : BudgetClaimRequest) (t : Table)
    : result LedgerError (option BudgetClaim) * Table :=
  match validate_claim q with
  | Raise e => (Raise e, t)
  | Ok _ =>
      org_session t
        match load_active_period b (rq_org q) now with
        | None => (Ok None, t)
        | Some p =>
            match build_admission b q p (Z.max second lease) with
            | Raise e => (Raise e, t)
            | Ok a => let '(r, t') := claim_row known now new_id a t in
                      (let* c := r in Ok (Some c), t')
            end
        end
  end.

(** ** Settlement *)

(** [_LOAD_CLAIM_SQL] *)
Definition load_claim_row (c : BudgetClaim) (t : Table) : option Row :=
  match t !! bc_index c with
  | Some r => if String.eqb (id r) (bc_id c) then Some r else None
  | None => None
  end.

(** [_settle_amount], with the rates stored on the row. *)
Definition settle_amount (r : Row) (input_tokens output_tokens : Z) : Z * Completeness :=
  match price_input r, price_output r with
  | Some pi, Some po =>
      if 0 <? input_tokens + output_tokens then
        match cost_from_rates pi po input_tokens output_tokens with
        | Some measured => (measured, Complete)
        | None => (amount_estimated_cents r, Estimated)
        end
      else (amount_estimated_cents r, Estimated)
  | _, _ => (amount_estimated_cents r, Estimated)
  end.

Definition finalized_row (amount : Z) (comp : Completeness) (r : Row) : Row :=
  {| id := id r; request_hash := request_hash r; state := Finalized; period_id := period_id r;
     amount_estimated_cents := amount_estimated_cents r; price_input := price_input r;
     price_output := price_output r; amount_final_cents := Some amount;
     finalized_completeness := Some comp; lease_expires_at := None; version := version r + 1 |}.

Definition released_row (r : Row) : Row :=
  {| id := id r; request_hash := request_hash r; state := Released; period_id := period_id r;
     amount_estimated_cents := amount_estimated_cents r; price_input := price_input r;
     price_output := price_output r; amount_final_cents := amount_final_cents r;
     finalized_completeness := finalized_completeness r; lease_expires_at := None;
     version := version r + 1 |}.

(** The fence of [_FINALIZE_SQL] and [_RELEASE_SQL]. *)
Definition fence (c : BudgetClaim) (r : Row) : bool :=
  (String.eqb (id r) (bc_id c) && String.eqb (request_hash r) (bc_hash c)
   && (version r =? bc_version c) && bool_decide (state r = Claimed))%bool.

(** [_write_finalized] and [_write_released] *)
Definition write_settled (c : BudgetClaim) (f : Row -> Row) (t : Table) : result LedgerError unit * Table :=
  match t !! bc_index c with
  | Some r => if fence c r then (Ok tt, <[bc_index c := f r]> t) else (Raise ClaimClosed, t)
  | None => (Raise ClaimClosed, t)
  end.

(** [_replay_finalized] *)
Definition replay_finalized (r : Row) (c : BudgetClaim) (amount : Z) (comp : Completeness)
    : result LedgerError Completeness :=
  if ((version r =? bc_version c + 1) && bool_decide (amount_final_cents r = Some amount)
      && bool_decide (finalized_completeness r = Some comp))%bool
  then Ok comp else Raise ClaimClosed.

(** [_AsyncBudgetLedger.finalize]; the amount is a BIGINT. *)
Definition finalize (c : BudgetClaim) (input_tokens output_tokens : Z) (t : Table)
    : result LedgerError Completeness * Table :=
  org_session t
    match load_claim_row c t with
    | None => (Raise ClaimClosed, t)
    | Some r =>
        let '(amount, comp) := settle_amount r input_tokens output_tokens in
        if bool_decide (state r = Finalized) then (replay_finalized r c amount comp, t)
        else if negb (bool_decide (state r = Claimed)) || negb (version r =? bc_version c)
        then (Raise ClaimClosed, t)
        else if negb (int64 amount) then (Raise Unavailable, t)
        else let '(w, t') := write_settled c (finalized_row amount comp) t in
             (let* _ := w in Ok comp, t')
    end.

(** [_AsyncBudgetLedger.release] *)
Definition release (c : BudgetClaim) (t : Table) : result LedgerError unit * Table :=
  org_session t
    match load_claim_row c t with
    | None => (Raise ClaimClosed, t)
    | Some r =>
        if bool_decide (state r = Released) then
          (if negb (version r =? bc_version c + 1) then Raise ClaimClosed else Ok tt, t)
        else if negb (bool_decide (state r = Claimed)) || negb (version r =? bc_version c)
        then (Raise ClaimClosed, t)
        else write_settled c released_row t
    end.

(** ** The reaper *)

Definition stale (now grace : Z) (r : Row) : bool :=
  (bool_decide (state r = Claimed)
   && match lease_expires_at r with Some e => e <=? now - grace | None => false end)%bool.

Definition lease_key (kr : (UUID * UUID * string) * Row) : Z := default 0 (lease_expires_at kr.2).

(** [_EXPIRE_STALE_SQL]: the oldest stale leases, at most [limit]. *)
Definition stale_rows (now grace limit : Z) (t : Table) : list ((UUID * UUID * string) * Row) :=
  take (Z.to_nat limit)
    (py_sorted (key_ltb lease_key Z.ltb)
       (List.filter (fun kr => stale now grace kr.2) (map_to_list t))).

(** [expire_stale], the grace in microseconds. *)
Definition expire_stale (now grace_us batch_limit : Z) (t : Table) : result LedgerError Z * Table :=
  if grace_us <? 0 then (Raise InvalidSweep, t)
  else if batch_limit <=? 0 then (Raise InvalidSweep, t)
  else
    let rows := stale_rows now grace_us batch_limit t in
    (Ok (Z.of_nat (length rows)), foldr (fun kr t => <[kr.1 := expired_row kr.2]> t) t rows).

(** [ping]: the probe's four answers. *)
Definition ping (probe : list bool) : result LedgerError unit :=
  if forallb Datatypes.id probe then Ok tt else Raise NotReady.

(** ** The sum of holds *)

Implicit Types (t : Table) (r : Row) (c : BudgetClaim) (a : Admission).

Section Holds.
Context (org period : UUID) (now : Z) (exclude : option UUID).
Implicit Types (k : UUID * UUID * string).

Lemma holds_insert_new k r t : t !! k = None ->
  active_holds org period now exclude (<[k := r]> t) =
  hold org period now exclude (k, r) + active_holds org period now exclude t.
Proof.
  intros Hk. unfold active_holds.
  rewrite (sumZ_perm _ _ _ (map_to_list_insert t k r Hk)). apply sumZ_cons.
Qed.

Lemma holds_split k r t : t !! k = Some r ->
  active_holds org period now exclude t =
  hold org period now exclude (k, r) + active_holds org period now exclude (delete k t).
Proof.
  intros Hk. rewrite <- holds_insert_new by (by rewrite lookup_delete_eq).
  by rewrite insert_delete_eq, insert_id.
Qed.

Lemma holds_insert k r t :
  active_holds org period now exclude (<[k := r]> t) =
  hold org period now exclude (k, r) + active_holds org period now exclude (delete k t).
Proof.
  rewrite <- insert_delete_eq. apply holds_insert_new. by rewrite lookup_delete_eq.
Qed.
End Holds.

(** Amounts are not negative, and ids are unique (the primary key). *)
Record table_ok (t : Table) : Prop := {
  ok_amounts : forall k r, t !! k = Some r -> 0 <= amount_estimated_cents r;
  ok_ids : forall k k' r r', t !! k = Some r -> t !! k' = Some r' -> id r = id r' -> k = k';
}.

Lemma holds_ext org period now now' ex ex' t t' :
  (forall kr, kr ∈ map_to_list t -> hold org period now ex kr = hold org period now' ex' kr) ->
  t = t' -> active_holds org period now ex t = active_holds org period now' ex' t'.
Proof. intros Hh <-. by apply sumZ_ext. Qed.

(** Excluding a row's id leaves out exactly that row. *)
Lemma holds_exclude org period now k r t : table_ok t -> t !! k = Some r ->
  active_holds org period now (Some (id r)) t = active_holds org period now None (delete k t).
Proof.
  intros Hok Hk. rewrite (holds_split _ _ _ _ k r) by done.
  assert (hold org period now (Some (id r)) (k, r) = 0) as ->.
  { unfold hold. destruct k as [[o ag] key].
    rewrite (bool_decide_eq_true_2 (Some (id r) = Some (id r))) by done.
    by rewrite andb_false_r. }
  apply holds_ext; [|done]. intros [[[o ag] key] r'] Hin. apply elem_of_map_to_list in Hin.
  apply lookup_delete_Some in Hin as [Hne Hin]. unfold hold.
  rewrite (bool_decide_eq_false_2 (Some (id r') = Some (id r))).
  - by rewrite (bool_decide_eq_false_2 (Some (id r') = None)).
  - intros [= Heq]. apply Hne. symmetry. by eapply (ok_ids _ Hok).
Qed.

Lemma hold_nonneg org period now ex k r : 0 <= amount_estimated_cents r ->
  0 <= hold org period now ex (k, r).
Proof. intros Hr. unfold hold. destruct k as [[o ag] key]. by case_if. Qed.

Lemma hold_le_amount org period now ex k r : 0 <= amount_estimated_cents r ->
  hold org period now ex (k, r) <= amount_estimated_cents r.
Proof. intros Hr. unfold hold. destruct k as [[o ag] key]. by case_if. Qed.

(** A lease that has run out stays run out: holds only shrink with time. *)
Lemma holds_time org period now now' t : table_ok t -> now <= now' ->
  active_holds org period now' None t <= active_holds org period now None t.
Proof.
  intros Hok Hn. apply sumZ_le. intros [[[o ag] key] r] Hin%elem_of_map_to_list.
  pose proof (ok_amounts _ Hok _ _ Hin). unfold hold.
  destruct (String.eqb o org), (String.eqb (period_id r) period), (bool_decide (state r = Claimed));
    cbn [andb]; try done.
  unfold lease_active. destruct (lease_expires_at r) as [e|]; cbn [andb]; [|done].
  destruct (now' <? e) eqn:E1, (now <? e) eqn:E2; bools; cbn [andb]; try done; lia.
Qed.

(** A row that is not claimed holds nothing. *)
Lemma hold_settled org period now ex k r : state r <> Claimed -> hold org period now ex (k, r) = 0.
Proof.
  intros Hs. unfold hold. destruct k as [[o ag] key].
  by rewrite (bool_decide_eq_false_2 (state r = Claimed)), andb_false_r by done.
Qed.

(** Settling a row only shrinks the holds. *)
Lemma holds_settle org period now k r r' t : table_ok t -> t !! k = Some r -> state r' <> Claimed ->
  active_holds org period now None (<[k := r']> t) <= active_holds org period now None t.
Proof.
  intros Hok Hk Hs. rewrite holds_insert, (hold_settled _ _ _ _ _ r') by done.
  rewrite (holds_split _ _ _ _ k r t) by done.
  pose proof (hold_nonneg org period now None k r (ok_amounts _ Hok _ _ Hk)). lia.
Qed.

(** ** Admission within the cap *)

(** What a granted claim has found and written. *)
Lemma claim_row_granted known now new_id a t c t' :
  table_ok t -> claim_row known now new_id a t = (Ok c, t') ->
  let q := ad_request a in
  let k := rq_index q in
  exists i v, c = claim_from_row i v a /\ t' = <[k := hold_row now i v a]> t /\
    (t !! k = None /\ i = new_id \/ exists r, t !! k = Some r /\ i = id r /\ v = version r + 1 /\
       (state r <> Claimed \/ lease_active now r = false)) /\
    ad_spent a + active_holds (rq_org q) (ad_period a) now None (delete k t) + ad_estimated a <= ad_cap a.
Proof.
  intros Hok. cbn zeta. unfold claim_row.
  destruct (t !! rq_index (ad_request a)) as [r|] eqn:Hr.
  - destruct (ensure_reusable now r (ad_request a)); [|done].
    destruct (ad_cap a <? _) eqn:Hcap; [done|]. unfold reset_row.
    destruct (negb (storable a)); [done|]. destruct (negb _ || negb _)%bool eqn:Hst; [|done].
    intros [= <- <-]. do 2 eexists. split; [done|]. split; [done|]. split.
    + right. exists r. repeat split. apply orb_prop in Hst as [Hst|Hst]; bools; auto.
    + bools. by rewrite (holds_exclude _ _ _ (rq_index (ad_request a)) r) in Hcap.
  - unfold insert_row. destruct (ad_cap a <? _) eqn:Hcap; [done|].
    destruct (negb (storable a)); [done|]. rewrite Hr. destruct (known _ _); [|done].
    intros [= <- <-]. do 2 eexists. split; [done|]. split; [done|]. split; [auto|].
    bools. by rewrite delete_id.
Qed.

Lemma cost_nonneg ir or i o n : cost_from_rates ir or i o = Some n -> 0 <= n.
Proof.
  unfold cost_from_rates. intros H. repeat case_if; simplify_eq. bools.
  pose proof (ceil_mul_div_1k_bounds i ir ltac:(lia) ltac:(lia)).
  pose proof (ceil_mul_div_1k_bounds o or ltac:(lia) ltac:(lia)). nia.
Qed.

Section Admission.
Context `{UnicodeDB}.

Lemma build_admission_Ok b q p lease a : build_admission b q p lease = Ok a ->
  ad_request a = q /\ ad_period a = bp_id p /\ ad_cap a = cap_cents p /\
  ad_spent a = spent_cents_cached p /\ 0 <= ad_estimated a /\ ad_lease a = lease.
Proof.
  unfold build_admission. intros Ha. inv_bind.
  destruct (match_price _ _ _) as [row|]; [|done].
  destruct (estimate_cost _ _ _ _ _) as [cents|] eqn:E; [|done]. injection Ha as <-. cbn.
  repeat split; try done. unfold estimate_cost in E. repeat case_match; try done.
  by eapply cost_nonneg.
Qed.

(** A claim leaves the table alone, or was granted for the active period. *)
Lemma claim_cases known lease b now new_id q t o t' :
  claim known lease b now new_id q t = (o, t') ->
  (t' = t /\ forall c, o <> Ok (Some c)) \/
  exists p a c, o = Ok (Some c) /\ load_active_period b (rq_org q) now = Some p /\
    build_admission b q p (Z.max second lease) = Ok a /\ claim_row known now new_id a t = (Ok c, t').
Proof.
  unfold claim. destruct (validate_claim q) as [u|e0]; [|intros [= <- <-]; left; by split].
  destruct (load_active_period _ _ _) as [p|] eqn:Hp; [|intros [= <- <-]; left; by split].
  destruct (build_admission _ _ _ _) as [a|] eqn:Ha; [|intros [= <- <-]; left; by split].
  destruct (claim_row _ _ _ _ _) as [[c|e] t2] eqn:Hc; cbn; intros [= <- <-]; [|left; by split].
  right. exists p, a, c. auto.
Qed.

(** A row whose key and id do not clash can be written. *)
Lemma table_ok_insert t k r : table_ok t -> 0 <= amount_estimated_cents r ->
  (forall k' r', t !! k' = Some r' -> id r' = id r -> k' = k) -> table_ok (<[k := r]> t).
Proof.
  intros Hok Ha Hid. split.
  - intros k' r'. destruct (decide (k' = k)) as [->|Hne];
      rewrite ?lookup_insert_eq, ?lookup_insert_ne by done; [by intros [= <-]|apply (ok_amounts _ Hok)].
  - intros k1 k2 r1 r2 H1 H2 Heq.
    rewrite lookup_insert in H1, H2.
    destruct (decide (k = k1)) as [<-|Hn1], (decide (k = k2)) as [<-|Hn2]; simplify_eq.
    + done.
    + symmetry. apply (Hid k2 r2); congruence.
    + apply (Hid k1 r1); congruence.
    + by eapply (ok_ids _ Hok).
Qed.

Definition fresh_id (i : UUID) (t : Table) : Prop := forall k r, t !! k = Some r -> id r <> i.

Lemma claim_row_table_ok known now new_id a t c t' : table_ok t -> fresh_id new_id t ->
  0 <= ad_estimated a -> claim_row known now new_id a t = (Ok c, t') -> table_ok t'.
Proof.
  intros Hok Hf Ha Hc. destruct (claim_row_granted _ _ _ _ _ _ _ Hok Hc) as (i & v & _ & -> & Hi & _).
  apply table_ok_insert; [done|done|]. cbn. intros k' r' Hk' Heq.
  destruct Hi as [[_ ->]|(r & Hr & -> & _)]; [by destruct (Hf _ _ Hk')|].
  by eapply (ok_ids _ Hok).
Qed.

(** A granted claim keeps the organization within its cap: when a claim is
    admitted, the period's recorded spend plus every active hold on it (the new
    one included) is at most the cap of the hard-cap period in force. *)
Theorem admitted_within_cap (known : UUID -> UUID -> bool) (lease : Z) (b : Billing) (now : Z)
    (new_id : UUID) (q : BudgetClaimRequest) (t t' : Table) (c : BudgetClaim) :
  table_ok t -> claim known lease b now new_id q t = (Ok (Some c), t') ->
  exists p, load_active_period b (rq_org q) now = Some p /\ bc_period c = bp_id p /\
    spent_cents_cached p + active_holds (rq_org q) (bp_id p) now None t' <= cap_cents p.
Proof.
  intros Hok Hc. apply claim_cases in Hc as [[_ Hn]|(p & a & c' & Ho & Hp & Ha & Hr)].
  - by destruct (Hn c).
  - simplify_eq. destruct (build_admission_Ok _ _ _ _ _ Ha) as (Hq & Hpid & Hcap & Hsp & Hest & _).
    destruct (claim_row_granted _ _ _ _ _ _ _ Hok Hr) as (i & v & -> & -> & _ & Hle).
    exists p. split; [done|]. split; [done|]. rewrite holds_insert.
    pose proof (hold_le_amount (rq_org q) (bp_id p) now None (rq_index (ad_request a)) (hold_row now i v a) Hest) as Hh.
    cbn [amount_estimated_cents hold_row] in Hh. rewrite Hq, Hpid, Hcap, Hsp in *. lia.
Qed.
End Admission.

(** ** Settlement *)

Lemma fence_true c r : fence c r = true ->
  id r = bc_id c /\ request_hash r = bc_hash c /\ version r = bc_version c /\ state r = Claimed.
Proof. unfold fence. intros Hf. bools. done. Qed.

Lemma write_settled_cases c f t o t' : write_settled c f t = (o, t') ->
  (t' = t /\ o = Raise ClaimClosed) \/
  exists r, t !! bc_index c = Some r /\ fence c r = true /\ t' = <[bc_index c := f r]> t /\ o = Ok tt.
Proof.
  unfold write_settled. destruct (t !! bc_index c) as [r|]; [|intros [= <- <-]; by left].
  destruct (fence c r) eqn:Hf; intros [= <- <-]; [|by left]. right. eauto 10.
Qed.

Lemma load_claim_row_Some c t r : load_claim_row c t = Some r ->
  t !! bc_index c = Some r /\ id r = bc_id c.
Proof.
  unfold load_claim_row. destruct (t !! bc_index c) as [r'|]; [|done].
  destruct (String.eqb _ _) eqn:E; [|done]. bools. by intros [= <-].
Qed.

(** A settlement leaves the table alone, or settles the claimed row of its
    token. *)
Lemma finalize_cases c i o t out t' : finalize c i o t = (out, t') ->
  t' = t /\ (forall r, t !! bc_index c = Some r -> state r = Claimed -> is_ok out = false) \/
  exists r, t !! bc_index c = Some r /\ fence c r = true /\
    t' = <[bc_index c := finalized_row (settle_amount r i o).1 (settle_amount r i o).2 r]> t /\
    out = Ok (settle_amount r i o).2.
Proof.
  unfold finalize. destruct (load_claim_row c t) as [r|] eqn:Hr; [|intros [= <- <-]; by left].
  apply load_claim_row_Some in Hr as [Hr _].
  destruct (settle_amount r i o) as [amount comp] eqn:Es.
  destruct (bool_decide (state r = Finalized)) eqn:Hfin.
  { bools. intros Ho. left. split; [by destruct (replay_finalized _ _ _ _); injection Ho|].
    intros r' Hr' Hs. congruence. }
  destruct (negb _ || negb _)%bool; [intros [= <- <-]; by left|].
  destruct (negb (int64 amount)); [intros [= <- <-]; by left|].
  destruct (write_settled c _ t) as [w t2] eqn:Hw.
  apply write_settled_cases in Hw as [[-> ->]|(r' & Hr' & Hf & -> & ->)]; cbn; intros [= <- <-]; [by left|].
  right. exists r. assert (r' = r) as -> by congruence. by rewrite Es.
Qed.

Lemma release_cases c t out t' : release c t = (out, t') ->
  t' = t \/ exists r, t !! bc_index c = Some r /\ fence c r = true /\
    t' = <[bc_index c := released_row r]> t /\ out = Ok tt.
Proof.
  unfold release. destruct (load_claim_row c t) as [r|] eqn:Hr; [|intros [= <- <-]; by left].
  destruct (bool_decide (state r = Released)).
  { destruct (negb _); intros [= <- <-]; by left. }
  destruct (negb _ || negb _)%bool; [intros [= <- <-]; by left|].
  destruct (write_settled c _ t) as [w t2] eqn:Hw.
  apply write_settled_cases in Hw as [[-> ->]|(r' & Hr' & Hf & -> & ->)]; cbn; intros [= <- <-]; [by left|].
  right. eauto.
Qed.

(** Replacing a row by one with its id and amount keeps the table well
    formed. *)
Lemma table_ok_update t k r r' : table_ok t -> t !! k = Some r -> id r' = id r ->
  amount_estimated_cents r' = amount_estimated_cents r -> table_ok (<[k := r']> t).
Proof.
  intros Hok Hk Hid Ha. apply table_ok_insert; [done|rewrite Ha; by eapply (ok_amounts _ Hok)|].
  intros k' r0 Hk' Heq. eapply (ok_ids _ Hok); [done|done|congruence].
Qed.

(** ** The reaper *)

Definition sweep (rows : list ((UUID * UUID * string) * Row)) (t : Table) : Table :=
  foldr (fun kr t => <[kr.1 := expired_row kr.2]> t) t rows.

Lemma sweep_lookup rows t : NoDup rows.*1 ->
  (forall k, k ∉ rows.*1 -> sweep rows t !! k = t !! k) /\
  (forall kr, kr ∈ rows -> sweep rows t !! kr.1 = Some (expired_row kr.2)).
Proof.
  induction rows as [|[k0 r0] rows IH]; cbn [fmap list_fmap sweep foldr fst snd]; intros Hnd.
  { split; [done|]. intros kr Hkr. by apply elem_of_nil in Hkr. }
  inversion Hnd as [|? ? Hk0 Hnd']; subst. destruct (IH Hnd') as [IH1 IH2]. split.
  - intros k Hk. apply not_elem_of_cons in Hk as [Hne Hk].
    rewrite lookup_insert_ne by done. by apply IH1.
  - intros kr [->|Hkr]%elem_of_cons; [apply lookup_insert_eq|].
    rewrite lookup_insert_ne; [by apply IH2|]. intros Heq. apply Hk0. rewrite Heq.
    apply list_elem_of_fmap. by exists kr.
Qed.

Lemma sweep_ok rows t : NoDup rows.*1 -> (forall kr, kr ∈ rows -> t !! kr.1 = Some kr.2) ->
  table_ok t -> table_ok (sweep rows t) /\
  forall org period now, (forall kr, kr ∈ rows -> hold org period now None kr = 0) ->
    active_holds org period now None (sweep rows t) = active_holds org period now None t.
Proof.
  induction rows as [|[k0 r0] rows IH]; cbn [fmap list_fmap fst snd]; intros Hnd Hin Hok; [done|].
  inversion Hnd as [|? ? Hk0 Hnd']; subst.
  destruct IH as [IH1 IH2]; [done|intros kr Hkr; apply Hin; by right|done|].
  change (sweep ((k0, r0) :: rows) t) with (<[k0 := expired_row r0]> (sweep rows t)).
  assert (sweep rows t !! k0 = Some r0) as Hr0.
  { rewrite (proj1 (sweep_lookup rows t Hnd')) by done. apply (Hin (k0, r0)). left. }
  split; [by eapply table_ok_update|]. intros org period now Hh.
  rewrite <- IH2 by (intros kr Hkr; apply Hh; by right).
  rewrite holds_insert, hold_settled, (holds_split _ _ _ _ k0 r0 (sweep rows t)) by done.
  rewrite (Hh (k0, r0)) by left. lia.
Qed.

Lemma stale_rows_elem now grace limit t kr : kr ∈ stale_rows now grace limit t ->
  t !! kr.1 = Some kr.2 /\ stale now grace kr.2 = true.
Proof.
  unfold stale_rows. intros Hin%elem_of_take. destruct Hin as (i & Hi & _).
  apply list_elem_of_lookup_2, py_sorted_elem, list_elem_of_In, filter_In in Hi as [Hi Hs].
  split; [|done]. apply list_elem_of_In in Hi. destruct kr. by apply elem_of_map_to_list.
Qed.

Lemma stale_rows_NoDup now grace limit t : NoDup (stale_rows now grace limit t).*1.
Proof.
  unfold stale_rows. rewrite fmap_take.
  eapply sublist_NoDup; [|apply sublist_take].
  rewrite py_sorted_perm. pose proof (NoDup_fst_map_to_list t) as Hnd.
  induction (map_to_list t) as [|kr l IH]; [done|]. cbn in Hnd |- *.
  inversion Hnd as [|? ? Hk Hnd']; subst. destruct (stale now grace kr.2); [|by apply IH].
  cbn. constructor; [|by apply IH]. intros Hin. apply Hk.
  apply list_elem_of_fmap in Hin as (x & -> & Hx). apply list_elem_of_fmap. exists x.
  split; [done|]. rewrite list_elem_of_In in Hx |- *. by apply filter_In in Hx as [Hx _].
Qed.

Lemma stale_hold now grace org period now' kr : 0 <= grace -> now <= now' ->
  stale now grace kr.2 = true -> hold org period now' None kr = 0.
Proof.
  intros Hg Hn Hs. destruct kr as [[[o ag] key] r]. unfold stale, hold, lease_active in *. cbn in Hs. bools.
  destruct (lease_expires_at r) as [e|]; [|done]. bools.
  rewrite (proj2 (Z.ltb_ge now' e)) by lia. by rewrite !andb_false_r.
Qed.

Lemma take_sorted_le {A : Type} (R : A -> A -> Prop) (l : list A) (n : nat) x y :
  StronglySorted R l -> x ∈ take n l -> y ∈ drop n l -> R x y.
Proof.
  intros Hs Hx Hy. rewrite <- (take_drop n l) in Hs.
  by eapply StronglySorted_app_1_elem_of.
Qed.

(** ** Histories *)

Section History.
Context `{UnicodeDB} (known : UUID -> UUID -> bool) (lease : Z).
(** The organization and period watched, with its cap and recorded spend. *)
Context (org period : UUID) (cap spent : Z).

(** One transaction of any organization; the database clock does not run
    back, generated ids are new, and the watched period keeps its cap and
    spend. *)
Inductive step : Z * Table -> Z * Table -> Prop :=
| step_claim now now' t b new_id q o t' :
    now <= now' -> fresh_id new_id t ->
    (forall p, load_active_period b org now' = Some p -> bp_id p = period ->
       cap_cents p = cap /\ spent_cents_cached p = spent) ->
    claim known lease b now' new_id q t = (o, t') -> step (now, t) (now', t')
| step_finalize now now' t c i o out t' :
    now <= now' -> finalize c i o t = (out, t') -> step (now, t) (now', t')
| step_release now now' t c out t' :
    now <= now' -> release c t = (out, t') -> step (now, t) (now', t')
| step_sweep now now' t grace limit out t' :
    now <= now' -> expire_stale now' grace limit t = (out, t') -> step (now, t) (now', t').

Definition within_cap (s : Z * Table) : Prop :=
  table_ok s.2 /\ spent + active_holds org period s.1 None s.2 <= cap.

Lemma claim_within_cap now t b new_id q o t' : within_cap (now, t) -> fresh_id new_id t ->
  (forall p, load_active_period b org now = Some p -> bp_id p = period ->
     cap_cents p = cap /\ spent_cents_cached p = spent) ->
  claim known lease b now new_id q t = (o, t') -> within_cap (now, t').
Proof.
  intros [Hok Hcap] Hf Hp Hc. cbn in Hok, Hcap.
  apply claim_cases in Hc as [[-> _]|(p & a & c & -> & Hl & Ha & Hr)]; [done|].
  destruct (build_admission_Ok _ _ _ _ _ Ha) as (Hq & Hpid & Hacap & Hasp & Hest & _).
  split; [by eapply claim_row_table_ok|]. cbn.
  destruct (claim_row_granted _ _ _ _ _ _ _ Hok Hr) as (i & v & _ & -> & Hi & Hle).
  rewrite Hq in *. rewrite holds_insert.
  destruct (decide (rq_org q = org /\ bp_id p = period)) as [[Ho Hpe]|Hne].
  - subst org. destruct (Hp p Hl Hpe) as [<- <-]. rewrite Hpid, Hpe, Hacap, Hasp in Hle.
    pose proof (hold_le_amount (rq_org q) period now None (rq_index q) (hold_row now i v a) Hest) as Hh.
    cbn [amount_estimated_cents hold_row] in Hh. lia.
  - assert (hold org period now None (rq_index q, hold_row now i v a) = 0) as ->.
    { unfold hold, rq_index. cbn [period_id hold_row]. rewrite Hpid.
      destruct (String.eqb (rq_org q) org) eqn:E1, (String.eqb (bp_id p) period) eqn:E2; try done.
      bools. tauto. }
    destruct Hi as [[Hn _]|(r & Hk & _)]; [by rewrite delete_id|].
    rewrite (holds_split _ _ _ _ (rq_index q) r t) in Hcap by done.
    pose proof (hold_nonneg org period now None (rq_index q) r (ok_amounts _ Hok _ _ Hk)). lia.
Qed.

Lemma settle_within_cap now t k r r' : within_cap (now, t) -> t !! k = Some r -> state r' <> Claimed ->
  id r' = id r -> amount_estimated_cents r' = amount_estimated_cents r ->
  within_cap (now, <[k := r']> t).
Proof.
  intros [Hok Hcap] Hk Hs Hid Ha. cbn in *. split; [by eapply table_ok_update|]. cbn.
  pose proof (holds_settle org period now k r r' t Hok Hk Hs). lia.
Qed.

Lemma within_cap_later now now' t : within_cap (now, t) -> now <= now' -> within_cap (now', t).
Proof.
  intros [Hok Hcap] Hn. split; [done|]. cbn in *.
  pose proof (holds_time org period now now' t Hok Hn). lia.
Qed.

Lemma sweep_within_cap now t grace limit out t' : within_cap (now, t) ->
  expire_stale now grace limit t = (out, t') -> within_cap (now, t').
Proof.
  intros [Hok Hcap] Hx. unfold expire_stale in Hx.
  destruct (grace <? 0) eqn:Hg; [by injection Hx as <- <-|].
  destruct (limit <=? 0); [by injection Hx as <- <-|]. injection Hx as <- <-. bools.
  fold (sweep (stale_rows now grace limit t) t).
  destruct (sweep_ok (stale_rows now grace limit t) t) as [Hok' Hh]; [apply stale_rows_NoDup| |done|].
  { intros kr Hkr. by apply stale_rows_elem in Hkr as [Hkr _]. }
  split; [done|]. cbn in *. rewrite Hh; [done|].
  intros kr Hkr. apply stale_rows_elem in Hkr as [_ Hkr]. by eapply (stale_hold now grace).
Qed.

Lemma step_within_cap s s' : within_cap s -> step s s' -> within_cap s'.
Proof.
  intros Hw Hs. destruct Hs as [now now' t b new_id q o t' Hn Hf Hp Hc|now now' t c i o out t' Hn Hf
    |now now' t c out t' Hn Hr|now now' t grace limit out t' Hn Hx];
    apply (within_cap_later _ now') in Hw; try done.
  - by eapply claim_within_cap.
  - apply finalize_cases in Hf as [[-> _]|(r & Hk & _ & -> & _)]; [done|]. by eapply settle_within_cap.
  - apply release_cases in Hr as [->|(r & Hk & _ & -> & _)]; [done|]. by eapply settle_within_cap.
  - by eapply sweep_within_cap.
Qed.

(** C8: A hard cap is never exceeded by reservations: starting within the cap,
    after any interleaving of claims, settlements, releases and sweeps by any
    organizations over time, the recorded spend of a period plus its active holds
    stays at most its cap, as long as billing leaves that cap and spend alone. *)
Theorem holds_never_exceed_cap (now now' : Z) (t t' : Table) :
  table_ok t -> spent + active_holds org period now None t <= cap ->
  rtc step (now, t) (now', t') ->
  spent + active_holds org period now' None t' <= cap.
Proof.
  intros Hok Hcap Hr.
  assert (within_cap (now', t')) as [_ Hw]; [|done].
  assert (within_cap (now, t)) as Hw by (by split). clear Hok Hcap.
  remember (now, t) as s eqn:Es. remember (now', t') as s' eqn:Es'. clear Es Es'.
  induction Hr as [s|s s1 s2 Hs _ IH]; [done|]. apply IH. by eapply step_within_cap.
Qed.
End History.

(** ** Settlement properties *)

(** Settlement is idempotent and priced by the rates frozen at admission:
    a successful [finalize] of a claimed row stores the cost of the measured
    tokens at the row's own rates (or the frozen estimate when nothing was
    measured), ends the hold, and the same call again returns the same answer and
    changes nothing, while a replay with a different amount is refused. *)
Theorem finalize_idempotent (c : BudgetClaim) (i o : Z) (t t' : Table) (comp : Completeness) (r : Row) :
  t !! bc_index c = Some r -> state r = Claimed ->
  finalize c i o t = (Ok comp, t') ->
  t' = <[bc_index c := finalized_row (settle_amount r i o).1 comp r]> t /\
  (comp = Complete -> exists pi po, price_input r = Some pi /\ price_output r = Some po /\
     cost_from_rates pi po i o = Some (settle_amount r i o).1) /\
  (comp = Estimated -> (settle_amount r i o).1 = amount_estimated_cents r) /\
  finalize c i o t' = (Ok comp, t') /\
  (forall i' o', (settle_amount r i' o') <> (settle_amount r i o) ->
     finalize c i' o' t' = (Raise ClaimClosed, t')).
Proof.
  intros Hr Hs Hf.
  apply finalize_cases in Hf as [[_ Hn]|(r' & Hr' & Hfe & -> & [= ->])]; [by specialize (Hn r Hr Hs)|].
  assert (r' = r) as -> by congruence. clear Hr'.
  apply fence_true in Hfe as (Hid & Hh & Hv & _).
  set (row := finalized_row (settle_amount r i o).1 (settle_amount r i o).2 r).
  assert (forall i' o', finalize c i' o' (<[bc_index c := row]> t) =
    (replay_finalized row c (settle_amount r i' o').1 (settle_amount r i' o').2, <[bc_index c := row]> t)) as Hre.
  { intros i' o'. unfold finalize, load_claim_row. rewrite lookup_insert_eq. cbn [row finalized_row id].
    rewrite Hid, String.eqb_refl. change (settle_amount row i' o') with (settle_amount r i' o').
    destruct (settle_amount r i' o'); cbn. by destruct (replay_finalized _ _ _ _). }
  split; [done|]. split.
  { unfold settle_amount. intros Hc. repeat case_match; simplify_eq; eauto 10. }
  split.
  { unfold settle_amount. intros Hc. by repeat case_match; simplify_eq. }
  split.
  - rewrite Hre. unfold replay_finalized. cbn [row finalized_row version amount_final_cents finalized_completeness].
    rewrite Hv, Z.eqb_refl. by repeat case_bool_decide.
  - intros i' o' Hne. rewrite Hre. unfold replay_finalized. cbn.
    destruct (bool_decide (Some (settle_amount r i o).1 = Some (settle_amount r i' o').1)) eqn:E1,
      (bool_decide (Some (settle_amount r i o).2 = Some (settle_amount r i' o').2)) eqn:E2;
      rewrite ?andb_false_r; try done. bools. destruct Hne.
    destruct (settle_amount r i o), (settle_amount r i' o'). cbn in *. congruence.
Qed.

Lemma expired_row_ne r : Some r <> Some (expired_row r).
Proof.
  intros Hs. apply (f_equal (fun x => version <$> x)) in Hs. cbn in Hs. injection Hs. lia.
Qed.

Lemma swept_row now grace limit t k r : t !! k = Some r ->
  sweep (stale_rows now grace limit t) t !! k = Some (expired_row r) ->
  (k, r) ∈ stale_rows now grace limit t.
Proof.
  intros Hk Hs. destruct (sweep_lookup _ t (stale_rows_NoDup now grace limit t)) as [Hother _].
  destruct (decide (k ∈ (stale_rows now grace limit t).*1)) as [Hi|Hi].
  - apply list_elem_of_fmap in Hi as ([k0 r0] & -> & Hi). cbn in *.
    pose proof (stale_rows_elem _ _ _ _ _ Hi) as [Hr0 _]. cbn in Hr0.
    assert (r0 = r) as -> by congruence. done.
  - rewrite Hother, Hk in Hs by done. by apply expired_row_ne in Hs.
Qed.

(** A stale row that was not taken is no older than one that was. *)
Lemma stale_rows_oldest now grace limit t k r k' r' : (k, r) ∈ stale_rows now grace limit t ->
  t !! k' = Some r' -> stale now grace r' = true ->
  (k', r') ∈ stale_rows now grace limit t \/ lease_key (k, r) <= lease_key (k', r').
Proof.
  intros Hin Hk' Hst. unfold stale_rows in *. set (l := py_sorted _ _) in *.
  assert ((k', r') ∈ l) as Hin'.
  { subst l. rewrite py_sorted_elem. apply list_elem_of_In, filter_In. split; [|done].
    apply list_elem_of_In. by apply elem_of_map_to_list. }
  rewrite <- (take_drop (Z.to_nat limit) l) in Hin'. apply elem_of_app in Hin' as [Hin'|Hin']; [by left|].
  right. assert (StronglySorted (leb_of (key_ltb lease_key Z.ltb)) l) as Hsl.
  { pose proof (key_ltb_order lease_key Z.ltb (fun _ => True)) as Hord. cbn in Hord.
    apply (py_sorted_sorted _ (ok := fun _ => True)). by apply Forall_true. }
  pose proof (take_sorted_le _ _ _ _ _ Hsl Hin Hin') as Hle. unfold leb_of, key_ltb in Hle. by bools.
Qed.

(** The reaper expires only holds whose lease ended at least the grace ago,
    the oldest first and at most the batch limit; it touches no other row and
    never changes what any organization's active holds add up to, now or later. *)
Theorem expire_stale_sound (now grace limit n : Z) (t t' : Table) :
  table_ok t -> expire_stale now grace limit t = (Ok n, t') ->
  n <= limit /\
  (forall k r, t !! k = Some r -> t' !! k = Some r \/
     t' !! k = Some (expired_row r) /\ state r = Claimed /\
     exists e, lease_expires_at r = Some e /\ e <= now - grace) /\
  (forall k k' r r', t !! k = Some r -> t' !! k = Some (expired_row r) ->
     t !! k' = Some r' -> stale now grace r' = true -> t' !! k' = Some r' ->
     lease_key (k, r) <= lease_key (k', r')) /\
  (forall org period now', now <= now' ->
     active_holds org period now' None t' = active_holds org period now' None t).
Proof.
  intros Hok Hx. unfold expire_stale in Hx.
  destruct (grace <? 0) eqn:Hg; [done|]. destruct (limit <=? 0) eqn:Hl; [done|].
  injection Hx as <- <-. bools. fold (sweep (stale_rows now grace limit t) t).
  pose proof (stale_rows_NoDup now grace limit t) as Hnd.
  destruct (sweep_lookup (stale_rows now grace limit t) t Hnd) as [Hother Hswept].
  split; [unfold stale_rows; rewrite length_take; lia|]. split.
  { intros k r Hk. destruct (decide (k ∈ (stale_rows now grace limit t).*1)) as [Hin|Hin].
    - right. apply list_elem_of_fmap in Hin as ([k0 r0] & -> & Hin). cbn in *.
      pose proof (Hswept _ Hin) as Hs. apply stale_rows_elem in Hin as [Hr0 Hst]. cbn in *.
      assert (r0 = r) as -> by congruence. split; [done|]. unfold stale in Hst. bools.
      destruct (lease_expires_at r) as [e|]; [|done]. bools. eauto.
    - left. by rewrite Hother. }
  split.
  - intros k k' r r' Hk Hex Hk' Hst Hkeep.
    pose proof (swept_row _ _ _ _ _ _ Hk Hex) as Hi.
    destruct (stale_rows_oldest _ _ _ _ _ _ _ _ Hi Hk' Hst) as [Hin|Hle]; [|done].
    exfalso. pose proof (Hswept (k', r') Hin) as Hs. cbn in Hs. rewrite Hkeep in Hs.
    by apply expired_row_ne in Hs.
  - intros org period now' Hn. apply sweep_ok; [done| |done|].
    + intros kr Hkr. by apply stale_rows_elem in Hkr as [Hkr _].
    + intros kr Hkr. apply stale_rows_elem in Hkr as [_ Hkr]. by eapply (stale_hold now grace).
Qed.

(** A denied claim changes nothing, even where the code means it to: when a
    claim finds its own expired hold and the cap is exceeded, the transaction
    marks that hold expired and then raises, and the rollback undoes the mark, so
    the row stays claimed with its old version. *)
Theorem exceeded_claim_keeps_stale_row `{UnicodeDB} (known : UUID -> UUID -> bool) (lease : Z) (b : Billing)
    (now : Z) (new_id : UUID) (q : BudgetClaimRequest) (t : Table) (p : Period) (a : Admission) (r : Row) :
  validate_claim q = Ok tt ->
  load_active_period b (rq_org q) now = Some p ->
  build_admission b q p (Z.max second lease) = Ok a ->
  t !! rq_index q = Some r -> state r = Claimed -> lease_active now r = false ->
  request_hash r = rq_hash q ->
  ad_cap a < ad_spent a + active_holds (rq_org q) (ad_period a) now (Some (id r)) t + ad_estimated a ->
  claim_row known now new_id a t =
    (Raise (AdmissionDenied DenyExceeded), <[rq_index q := expired_row r]> t) /\
  claim known lease b now new_id q t = (Raise (AdmissionDenied DenyExceeded), t).
Proof.
  intros Hv Hp Ha Hr Hs Hl Hh Hex.
  destruct (build_admission_Ok _ _ _ _ _ Ha) as (Hq & _).
  assert (claim_row known now new_id a t =
    (Raise (AdmissionDenied DenyExceeded), <[rq_index q := expired_row r]> t)) as Hrow.
  { unfold claim_row, ensure_reusable, expire_stale_row. rewrite Hq, Hr, Hh, String.eqb_refl, Hl, Hs. cbn [negb].
    rewrite andb_false_r, (proj2 (Z.ltb_lt _ _)) by done.
    by rewrite bool_decide_eq_true_2. }
  split; [done|]. unfold claim. rewrite Hv, Hp, Ha, Hrow. done.
Qed.

Module BudgetSample.
#[local] Existing Instance ascii_db.

Definition h0 : string := "0123456789abcdef0123456789abcdef0123456789abcdef0123456789abcdef".
Definition billing (cap spent : Z) : Billing :=
  {| periods := [{| bp_id := "p"; bp_org := "o"; bp_start := 0; bp_end := 10 ^ 15; bp_hard_cap := true;
                    cap_cents := cap; spent_cents_cached := spent |}];
     cards := [{| rc_id := "card"; rc_org := "o"; rc_published := true; rc_updated_at := 0 |}];
     card_versions := [{| cv_id := "v"; cv_card := "card"; cv_org := "o"; cv_version := lit "v1";
       cv_prices := PricesList [Some {| rp_provider := Some (lit "openai"); rp_model_pattern := Some (lit "gpt*");
                                        rp_input := Some 3; rp_output := Some 12 |}];
       cv_published_at := 0 |}] |}.
Definition q (k : string) : BudgetClaimRequest :=
  {| rq_org := "o"; rq_agent := "a"; rq_key := k; rq_hash := h0; rq_provider := lit "OpenAI";
     rq_model := lit "gpt-4o"; rq_input_tokens := 1000; rq_output_tokens := 1000 |}.
Definition all_known (o a : UUID) : bool := true.

(** A claim of 15 cents at time 0 under a cap of 20. *)
Definition t1 : Table := (claim all_known BUDGET_LEDGER_LEASE (billing 20 0) 0 "i1" (q "k1") ∅).2.
Definition c1 : BudgetClaim :=
  {| bc_id := "i1"; bc_org := "o"; bc_agent := "a"; bc_key := "k1"; bc_hash := h0; bc_period := "p";
     bc_provider := lit "OpenAI"; bc_model := lit "gpt-4o"; bc_version := 1 |}.

Lemma empty_ok : table_ok ∅.
Proof. split; intros *; rewrite lookup_empty; done. Qed.

Lemma admitted_within_cap_witness :
  exists p, load_active_period (billing 20 0) "o" 0 = Some p /\ bc_period c1 = bp_id p /\
    spent_cents_cached p + active_holds "o" (bp_id p) 0 None t1 <= cap_cents p.
Proof.
  apply (admitted_within_cap all_known BUDGET_LEDGER_LEASE (billing 20 0) 0 "i1" (q "k1") ∅ t1 c1 empty_ok).
  vm_compute. reflexivity.
Defined.

(** A second claim of 15 cents is refused while the first is held. *)
Example second_refused :
  (claim all_known BUDGET_LEDGER_LEASE (billing 20 0) 1 "i2" (q "k2") t1).1
  = Raise (AdmissionDenied DenyExceeded).
Proof. vm_compute. reflexivity. Qed.

Lemma t1_step : step all_known BUDGET_LEDGER_LEASE "o" "p" 20 0 (0, ∅) (0, t1).
Proof.
  eapply (step_claim _ _ _ _ _ _ 0 0 ∅ (billing 20 0) "i1" (q "k1")); [done| | |vm_compute; reflexivity].
  - intros k r. rewrite lookup_empty. done.
  - intros p. vm_compute. intros [= <-] _. done.
Qed.

Lemma holds_never_exceed_cap_witness : 0 + active_holds "o" "p" 0 None t1 <= 20.
Proof.
  apply (holds_never_exceed_cap all_known BUDGET_LEDGER_LEASE "o" "p" 20 0 0 0 ∅ t1 empty_ok).
  - vm_compute. congruence.
  - eapply rtc_l; [exact t1_step|apply rtc_refl].
Defined.

Definition row1 : Row := default (hold_row 0 "" 0 {| ad_request := q ""; ad_period := ""; ad_cap := 0;
  ad_spent := 0; ad_estimated := 0; ad_price_input := 0; ad_price_output := 0; ad_lease := 0 |}) (t1 !! bc_index c1).
Definition t2 : Table := (finalize c1 500 100 t1).2.

Lemma finalize_idempotent_witness : finalize c1 500 100 t2 = (Ok Complete, t2).
Proof.
  apply (finalize_idempotent c1 500 100 t1 t2 Complete row1); vm_compute; reflexivity.
Defined.

Definition t3 : Table := (expire_stale (BUDGET_LEDGER_LEASE + 5) 5 10 t1).2.

Lemma t1_ok : table_ok t1.
Proof.
  assert (t1 = <[("o", "a", "k1")%string := row1]> ∅) as -> by (vm_compute; reflexivity).
  apply table_ok_insert; [exact empty_ok|vm_compute; congruence|].
  intros k r. rewrite lookup_empty. done.
Qed.

Lemma expire_stale_sound_witness : 1 <= 10 /\
  active_holds "o" "p" (BUDGET_LEDGER_LEASE + 5) None t3 = active_holds "o" "p" (BUDGET_LEDGER_LEASE + 5) None t1.
Proof.
  destruct (expire_stale_sound (BUDGET_LEDGER_LEASE + 5) 5 10 1 t1 t3 t1_ok
    ltac:(vm_compute; reflexivity)) as (H1 & _ & _ & H2).
  split; [exact H1|]. apply H2. apply Z.le_refl.
Defined.

Definition adm : Admission := {| ad_request := q "k1"; ad_period := "p"; ad_cap := 10; ad_spent := 0;
  ad_estimated := 15; ad_price_input := 3; ad_price_output := 12; ad_lease := BUDGET_LEDGER_LEASE |}.

Lemma exceeded_claim_keeps_stale_row_witness :
  claim all_known BUDGET_LEDGER_LEASE (billing 10 0) (BUDGET_LEDGER_LEASE + 1) "i2" (q "k1") t1
  = (Raise (AdmissionDenied DenyExceeded), t1).
Proof.
  destruct (exceeded_claim_keeps_stale_row all_known BUDGET_LEDGER_LEASE (billing 10 0)
    (BUDGET_LEDGER_LEASE + 1) "i2" (q "k1") t1
    (default {| bp_id := ""; bp_org := ""; bp_start := 0; bp_end := 0; bp_hard_cap := true; cap_cents := 0;
                spent_cents_cached := 0 |} (load_active_period (billing 10 0) "o" (BUDGET_LEDGER_LEASE + 1)))
    adm row1) as [_ H]; [vm_compute; reflexivity..|].
  exact H.
Defined.
End BudgetSample.
