(* ===== verification/Redaction.v ===== *)
(** * Output redaction
    ([packages/mcp_gateway/src/mcp_gateway/redaction.py])

    Tool results and JSON schemas as Python values: dicts keep their insertion
    order.  A schema is a dict too, read dynamically as the code reads it. *)

From S2P Require Import Prelude Num.

(** The Python values the sanitizer distinguishes; [JOther] is any value none
    of its type checks accepts (a UUID, a datetime, ...). *)
Inductive Json :=
| JNull
| JBool (b : bool)
| JInt (z : Z)
| JFloat (f : binary64)
| JStr (s : string)
| JList (l : list Json)
| JObj (o : list (string * Json))
| JOther.

Section JsonInd.
Context (P : Json -> Prop)
  (Hnull : P JNull) (Hbool : forall b, P (JBool b)) (Hint : forall z, P (JInt z))
  (Hfloat : forall f, P (JFloat f)) (Hstr : forall s, P (JStr s)) (Hother : P JOther)
  (Hlist : forall l, Forall P l -> P (JList l))
  (Hobj : forall o, Forall (fun kv => P kv.2) o -> P (JObj o)).

(** Induction through lists and dicts. *)
Fixpoint Json_induction (j : Json) : P j :=
  match j with
  | JNull => Hnull
  | JBool b => Hbool b
  | JInt z => Hint z
  | JFloat f => Hfloat f
  | JStr s => Hstr s
  | JOther => Hother
  | JList l => Hlist l
      ((fix go (l : list Json) : Forall P l :=
          match l with
          | [] => @List.Forall_nil _ _
          | x :: l => @List.Forall_cons _ _ x l (Json_induction x) (go l)
          end) l)
  | JObj o => Hobj o
      ((fix go (o : list (string * Json)) : Forall (fun kv => P kv.2) o :=
          match o with
          | [] => @List.Forall_nil _ _
          | (k, x) :: o => @List.Forall_cons _ _ (k, x) o (Json_induction x) (go o)
          end) o)
  end.
End JsonInd.

Abbreviation dict := (list (string * Json)).

(** [d.get(k)] *)
Fixpoint get (k : string) (d : dict) : option Json :=
  match d with
  | [] => None
  | (k', v) :: d => if String.eqb k' k then Some v else get k d
  end.

(** [RedactionError(message)] *)
Inductive RedactionError :=
| NotAnObject
| MissingItems
| NullNotNullable
| UnexpectedType
| MissingProperties
| MissingRequired (keys : list string)
| MissingType
| BadTypeShape
| UnsupportedType.

Definition SENSITIVE_KEYS : list string :=
  ["content"; "contents"; "prompt"; "prompts"; "token"; "tokens"; "access_token"; "secret"; "secrets";
   "password"; "api_key"; "apikey"; "authorization"; "raw"; "raw_content"; "payload"; "arguments";
   "args"; "body"; "messages"; "message"]%string.

Definition SUPPORTED_TYPES : list string :=
  ["object"; "array"; "string"; "integer"; "number"; "boolean"; "null"]%string.

Definition mem (s : string) (l : list string) : bool := existsb (String.eqb s) l.

(** [_CHECKERS.get(schema_type)] applied to a value; a type without a checker
    accepts nothing. *)
Definition checker (ty : string) (v : Json) : bool :=
  match v with
  | JObj _ => String.eqb ty "object"
  | JList _ => String.eqb ty "array"
  | JStr _ => String.eqb ty "string"
  | JInt _ => (String.eqb ty "integer" || String.eqb ty "number")%bool
  | JFloat _ => String.eqb ty "number"
  | JBool _ => String.eqb ty "boolean"
  | JNull | JOther => false
  end.

Section Sanitizer.
(** [str(value)] of a schema's [required] entry that is not a string. *)
Context (py_str : Json -> string).

Definition type_list (raw : list Json) : result RedactionError (list string) :=
  match raw with
  | [] => Raise BadTypeShape
  | _ => rmap (fun j => match j with JStr s => Ok s | _ => Raise BadTypeShape end) raw
  end.

Definition require_supported_types (types : list string) : result RedactionError (list string) :=
  if existsb (fun ty => negb (mem ty SUPPORTED_TYPES)) types then Raise UnsupportedType else Ok types.

Definition schema_types (schema : dict) : result RedactionError (list string) :=
  let* types := match get "type" schema with
                | Some (JStr s) => Ok [s]
                | Some (JList l) => type_list l
                | _ => Raise MissingType
                end in
  require_supported_types types.

Fixpoint first_match (v : Json) (types : list string) : result RedactionError string :=
  match types with
  | [] => Raise UnexpectedType
  | ty :: types => if checker ty v then Ok ty else first_match v types
  end.

Definition properties (schema : dict) : result RedactionError dict :=
  match get "properties" schema with
  | None => Ok []
  | Some (JObj o) => Ok o
  | Some _ => Raise MissingProperties
  end.

Definition required_name (j : Json) : string := match j with JStr s => s | _ => py_str j end.

(** The [required] entries; another shape requires nothing. *)
Definition required_names (schema : dict) : list string :=
  match get "required" schema with
  | Some (JList l) => required_name <$> l
  | _ => []
  end.

Definition require_keys (schema : dict) (res : dict) : result RedactionError unit :=
  match List.filter (fun k => negb (mem k res.*1)) (required_names schema) with
  | [] => Ok tt
  | missing => Raise (MissingRequired (py_sorted str_ltb missing))
  end.

(** The schema an array's items are checked against. *)
Definition item_schema (schema : dict) : result RedactionError dict :=
  match get "items" schema with
  | None => Ok []
  | Some (JObj o) => Ok o
  | Some _ => Raise MissingItems
  end.

(** The schema a dict key is released under: declared as a mapping and not
    sensitive. *)
Definition released_schema (props : dict) (k : string) : option dict :=
  if mem k SENSITIVE_KEYS then None
  else match get k props with Some (JObj ps) => Some ps | _ => None end.

(** [_sanitize_value], with [_sanitize_object] and [_sanitize_array] inside.
    The keys of a dict are distinct, so assigning the released keys one by one
    lists them. *)
Fixpoint sanitize_value (value : Json) (schema : dict) : result RedactionError Json :=
  let* types := schema_types schema in
  match value with
  | JNull => if mem "null" types then Ok JNull else Raise NullNotNullable
  | _ =>
      let* matched := first_match value types in
      match value with
      | JObj payload =>
          let* props := properties schema in
          let* res := (fix go (payload : dict) : result RedactionError dict :=
             match payload with
             | [] => Ok []
             | (k, v) :: payload =>
                 match released_schema props k with
                 | None => go payload
                 | Some ps => let* v' := sanitize_value v ps in
                              let* rest := go payload in Ok ((k, v') :: rest)
                 end
             end) payload in
          let* _ := require_keys schema res in
          Ok (JObj res)
      | JList l =>
          let* items := item_schema schema in
          let* l' := (fix go (l : list Json) : result RedactionError (list Json) :=
             match l with
             | [] => Ok []
             | v :: l => let* v' := sanitize_value v items in let* rest := go l in Ok (v' :: rest)
             end) l in
          Ok (JList l')
      | _ => Ok value
      end
  end.

(** [sanitize_output]: [None] is a null payload. *)
Definition sanitize_output (payload : option dict) (output_schema : dict) : result RedactionError dict :=
  let* v := sanitize_value (match payload with Some o => JObj o | None => JNull end) output_schema in
  match v with JObj o => Ok o | _ => Raise NotAnObject end.

(** ** What may leave the gateway *)

(** A value a schema releases: of a declared type; in a dict every key is
    declared, not sensitive and releasable under its own schema, and every
    required key is there. *)
Fixpoint conforms (value : Json) (schema : dict) : Prop :=
  exists types, schema_types schema = Ok types /\
  match value with
  | JNull => mem "null" types = true
  | JObj o =>
      is_ok (first_match value types) = true /\
      exists props, properties schema = Ok props /\
      (forall k, k ∈ required_names schema -> k ∈ o.*1) /\
      (fix all (o : dict) : Prop :=
         match o with
         | [] => True
         | (k, v) :: o => (k ∉ SENSITIVE_KEYS /\ exists ps, get k props = Some (JObj ps) /\ conforms v ps)
                          /\ all o
         end) o
  | JList l =>
      is_ok (first_match value types) = true /\
      exists items, item_schema schema = Ok items /\
      (fix all (l : list Json) : Prop :=
         match l with [] => True | v :: l => conforms v items /\ all l end) l
  | _ => is_ok (first_match value types) = true
  end.

Lemma mem_elem s l : mem s l = true <-> s ∈ l.
Proof.
  unfold mem. rewrite existsb_exists, list_elem_of_In. split.
  - intros (x & Hx & Heq%String.eqb_eq). by subst.
  - intros Hx. exists s. by rewrite String.eqb_refl.
Qed.

Lemma released_schema_Some props k ps : released_schema props k = Some ps <->
  k ∉ SENSITIVE_KEYS /\ get k props = Some (JObj ps).
Proof.
  unfold released_schema. destruct (mem k SENSITIVE_KEYS) eqn:E.
  - split; [done|]. intros [H _]. by apply mem_elem in E.
  - assert (k ∉ SENSITIVE_KEYS) by (intros ?%mem_elem; congruence).
    repeat case_match; naive_solver.
Qed.

Lemma require_keys_Ok schema res : require_keys schema res = Ok tt <->
  forall k, k ∈ required_names schema -> k ∈ res.*1.
Proof.
  unfold require_keys. split.
  - intros H k Hk. destruct (mem k res.*1) eqn:E; [by apply mem_elem|]. exfalso.
    assert (k ∈ List.filter (fun k => negb (mem k res.*1)) (required_names schema)) as Hin.
    { rewrite list_elem_of_In in *. apply filter_In. by rewrite E. }
    destruct (List.filter _ _); [by apply elem_of_nil in Hin|done].
  - intros H. destruct (List.filter _ _) as [|k l] eqn:E; [done|]. exfalso.
    assert (k ∈ k :: l) as Hk by left. rewrite <- E, list_elem_of_In, filter_In, <- list_elem_of_In in Hk.
    destruct Hk as [Hk Hm]. apply H, mem_elem in Hk. by rewrite Hk in Hm.
Qed.

(** First matches only depend on the value's outermost constructor. *)
Lemma first_match_obj o o' types : first_match (JObj o) types = first_match (JObj o') types.
Proof. induction types as [|ty types IH]; cbn; [done|]. by rewrite IH. Qed.

Lemma first_match_list l l' types : first_match (JList l) types = first_match (JList l') types.
Proof. induction types as [|ty types IH]; cbn; [done|]. by rewrite IH. Qed.

Lemma sanitize_value_conforms value : forall schema r,
  sanitize_value value schema = Ok r -> conforms r schema.
Proof.
  induction value as [| | | | | |l IH|o IH] using Json_induction; intros schema r Hs; cbn [sanitize_value] in Hs;
    apply rbind_Ok in Hs as (types & Hty & Hs).
  - destruct (mem "null" types) eqn:E; [|done]. injection Hs as <-. by exists types.
  - inv_bind. exists types. split; [done|]. by rewrite H.
  - inv_bind. exists types. split; [done|]. by rewrite H.
  - inv_bind. exists types. split; [done|]. by rewrite H.
  - inv_bind. exists types. split; [done|]. by rewrite H.
  - inv_bind. exists types. split; [done|]. by rewrite H.
  - apply rbind_Ok in Hs as (m & Hm & Hs). apply rbind_Ok in Hs as (items & Hi & Hs).
    apply rbind_Ok in Hs as (l' & Hl & [= <-]). exists types. split; [done|].
    split; [by rewrite (first_match_list l' l), Hm|]. exists items. split; [done|].
    revert l' Hl. clear Hm. induction IH as [|v l Hv _ IHl]; intros l' Hl.
    + by injection Hl as <-.
    + inv_bind. split; [by apply Hv|]. by apply IHl.
  - apply rbind_Ok in Hs as (m & Hm & Hs). apply rbind_Ok in Hs as (props & Hp & Hs).
    apply rbind_Ok in Hs as (o' & Ho & Hs). apply rbind_Ok in Hs as ([] & Hreq & [= <-]).
    exists types. split; [done|]. split; [by rewrite (first_match_obj o' o), Hm|].
    exists props. split; [done|]. split; [by apply require_keys_Ok|].
    clear Hm Hreq. revert o' Ho. induction IH as [|[k v] o Hv _ IHo]; intros o' Ho.
    + by injection Ho as <-.
    + destruct (released_schema props k) as [ps|] eqn:Hk; [|by apply IHo].
      apply released_schema_Some in Hk as [Hns Hk]. inv_bind. split; [|by apply IHo].
      split; [done|]. exists ps. split; [done|]. by apply Hv.
Qed.

Lemma conforms_sanitize value : forall schema,
  conforms value schema -> sanitize_value value schema = Ok value.
Proof.
  induction value as [| | | | | |l IH|o IH] using Json_induction; intros schema (types & Hty & Hc);
    cbn [sanitize_value]; rewrite Hty; cbn [rbind].
  - by rewrite Hc.
  - by destruct (first_match _ _).
  - by destruct (first_match _ _).
  - by destruct (first_match _ _).
  - by destruct (first_match _ _).
  - by destruct (first_match _ _).
  - destruct Hc as (Hm & items & Hi & Hl). destruct (first_match _ _); [|done]. cbn [rbind].
    rewrite Hi. cbn [rbind].
    match goal with |- rbind ?g _ = _ => assert (g = Ok l) as -> end; [|done].
    clear Hm. induction IH as [|v l Hv _ IHl]; [done|]. destruct Hl as [Hcv Hl].
    rewrite Hv by done. cbn [rbind]. by rewrite IHl.
  - destruct Hc as (Hm & props & Hp & Hreq & Ho). destruct (first_match _ _); [|done]. cbn [rbind].
    rewrite Hp. cbn [rbind].
    match goal with |- rbind ?g _ = _ => assert (g = Ok o) as -> end.
    { clear Hm Hreq. induction IH as [|[k v] o Hv _ IHo]; [done|].
      destruct Ho as [(Hns & ps & Hk & Hcv) Ho].
      rewrite (proj2 (released_schema_Some props k ps)) by done. cbn in Hv.
      rewrite Hv by done. cbn [rbind]. by rewrite IHo. }
    cbn [rbind]. by rewrite (proj2 (require_keys_Ok schema o)).
Qed.

Lemma sanitize_output_object payload schema r :
  sanitize_output payload schema = Ok r -> conforms (JObj r) schema.
Proof.
  unfold sanitize_output. intros H. inv_bind. destruct x; try done. injection H as <-.
  by eapply sanitize_value_conforms.
Qed.

(** Whatever a tool returns, what the sanitizer releases conforms to the
    tool's declared output schema at every depth: only declared, non-sensitive
    keys, every value of a declared type, every required key present. *)
Theorem sanitize_output_conforms (payload : option dict) (schema : dict) (r : dict) :
  sanitize_output payload schema = Ok r -> conforms (JObj r) schema.
Proof. apply sanitize_output_object. Qed.

(** Sanitizing is idempotent, and it changes nothing exactly when the
    payload already conforms to the schema: conforming results pass through
    unchanged, anything else is trimmed or refused. *)
Theorem sanitize_output_fixpoint (payload : dict) (schema : dict) :
  (sanitize_output (Some payload) schema = Ok payload <-> conforms (JObj payload) schema) /\
  (forall r, sanitize_output (Some payload) schema = Ok r -> sanitize_output (Some r) schema = Ok r).
Proof.
  assert (forall p, conforms (JObj p) schema -> sanitize_output (Some p) schema = Ok p) as Hfix.
  { intros p Hp. unfold sanitize_output. by rewrite conforms_sanitize. }
  split; [split; [apply sanitize_output_object|apply Hfix]|].
  intros r Hr. by eapply Hfix, sanitize_output_object.
Qed.
End Sanitizer.

Module RedactionSample.
Definition no_str (j : Json) : string := "".
Definition schema : dict :=
  [("type", JStr "object");
   ("properties", JObj [("id", JObj [("type", JStr "string")]);
                        ("token", JObj [("type", JStr "string")]);
                        ("rows", JObj [("type", JList [JStr "array"; JStr "null"]);
                                       ("items", JObj [("type", JStr "integer")])])]);
   ("required", JList [JStr "id"])]%string.
Definition payload : dict :=
  [("id", JStr "r1"); ("token", JStr "s3cret"); ("debug", JBool true); ("rows", JList [JInt 1; JInt 2])]%string.
Definition released : dict := [("id", JStr "r1"); ("rows", JList [JInt 1; JInt 2])]%string.

(** A sensitive key is dropped although the schema declares it. *)
Example sample_released : sanitize_output no_str (Some payload) schema = Ok released.
Proof. vm_compute. reflexivity. Qed.

Example missing_required :
  sanitize_output no_str (Some [("rows", JNull)]%string) schema = Raise (MissingRequired ["id"%string]).
Proof. vm_compute. reflexivity. Qed.

Lemma sanitize_output_conforms_witness : conforms no_str (JObj released) schema.
Proof. apply (sanitize_output_conforms no_str (Some payload) schema released). vm_compute. reflexivity. Defined.
End RedactionSample.
