(* ===== verification/Permissions.v ===== *)
(** * Permission bits
    ([packages/authclient/src/authclient/permissions.py])

    The 64-bit permission bitmap: one definition per bit, the role presets and
    the checks on them. *)

From S2P Require Import Prelude.

Definition MEMORY_READ : Z := Z.shiftl 1 0.
Definition MEMORY_WRITE : Z := Z.shiftl 1 1.
Definition MEMORY_DELETE : Z := Z.shiftl 1 2.
Definition MEMORY_BULK_EXPORT : Z := Z.shiftl 1 3.
Definition DIRECTIVE_READ : Z := Z.shiftl 1 8.
Definition DIRECTIVE_WRITE : Z := Z.shiftl 1 9.
Definition DIRECTIVE_PROMOTE : Z := Z.shiftl 1 10.
Definition DIRECTIVE_REVOKE : Z := Z.shiftl 1 11.
Definition SESSION_CREATE : Z := Z.shiftl 1 16.
Definition SESSION_READ : Z := Z.shiftl 1 17.
Definition SESSION_TERMINATE : Z := Z.shiftl 1 18.
Definition OPERATOR_METADATA_READ : Z := Z.shiftl 1 19.
Definition TRACE_READ : Z := Z.shiftl 1 24.
Definition TRACE_EXPORT : Z := Z.shiftl 1 25.
Definition USER_MANAGE : Z := Z.shiftl 1 32.
Definition BILLING_READ : Z := Z.shiftl 1 33.
Definition BILLING_MANAGE : Z := Z.shiftl 1 34.
Definition ORG_SETTINGS_WRITE : Z := Z.shiftl 1 35.
Definition TOKEN_CREATE : Z := Z.shiftl 1 36.
Definition TOKEN_REVOKE : Z := Z.shiftl 1 37.
Definition OPERATOR_REDACTED_READ : Z := Z.shiftl 1 38.
Definition OPERATOR_RAW_READ : Z := Z.shiftl 1 39.
Definition MARKETPLACE_PUBLISH : Z := Z.shiftl 1 40.
Definition MARKETPLACE_INSTALL : Z := Z.shiftl 1 41.
Definition OPERATOR_EXPORT : Z := Z.shiftl 1 42.
Definition OPERATOR_DELETE : Z := Z.shiftl 1 43.
Definition OPERATOR_REPLAY : Z := Z.shiftl 1 44.
Definition SECRET_USE : Z := Z.shiftl 1 45.
Definition POLICY_CHANGE : Z := Z.shiftl 1 46.
Definition BREAK_GLASS : Z := Z.shiftl 1 47.
Definition FEDERATION_SHARE : Z := Z.shiftl 1 48.
Definition LEGAL_HOLD_MANAGE : Z := Z.shiftl 1 49.

Definition AGENT_DEFAULT : Z :=
  foldl Z.lor 0 [MEMORY_READ; MEMORY_WRITE; SESSION_CREATE; SESSION_READ; TRACE_READ].

Definition PROXY_CHAT_COMPLETION : Z :=
  foldl Z.lor 0 [MEMORY_READ; SESSION_CREATE; SESSION_READ; SECRET_USE].

Definition READ_ONLY : Z :=
  foldl Z.lor 0 [MEMORY_READ; DIRECTIVE_READ; SESSION_READ; TRACE_READ].

Definition ADMIN : Z :=
  foldl Z.lor 0 [AGENT_DEFAULT; DIRECTIVE_READ; DIRECTIVE_WRITE; DIRECTIVE_PROMOTE; DIRECTIVE_REVOKE; SESSION_TERMINATE; TRACE_EXPORT; USER_MANAGE; BILLING_READ; BILLING_MANAGE; ORG_SETTINGS_WRITE; TOKEN_CREATE; TOKEN_REVOKE].

Definition VIEWER_OPERATOR_DEFAULT : Z :=
  foldl Z.lor 0 [OPERATOR_METADATA_READ; OPERATOR_REDACTED_READ].

Definition MEMBER_OPERATOR_DEFAULT : Z := VIEWER_OPERATOR_DEFAULT.

Definition ADMIN_OPERATOR_DEFAULT : Z :=
  foldl Z.lor 0 [MEMBER_OPERATOR_DEFAULT; OPERATOR_EXPORT; POLICY_CHANGE; LEGAL_HOLD_MANAGE].

Definition STEP_UP_MASK : Z :=
  foldl Z.lor 0 [DIRECTIVE_PROMOTE; DIRECTIVE_REVOKE; OPERATOR_RAW_READ; OPERATOR_EXPORT; OPERATOR_DELETE; OPERATOR_REPLAY; SECRET_USE; POLICY_CHANGE; BREAK_GLASS; LEGAL_HOLD_MANAGE].

(** [ROLE_BITMAP.get(role, 0)] *)
Definition bitmap_for_role (role : string) : Z :=
  if String.eqb role "owner" then Z.lor ADMIN ADMIN_OPERATOR_DEFAULT
  else if String.eqb role "admin" then Z.lor ADMIN ADMIN_OPERATOR_DEFAULT
  else if String.eqb role "member" then Z.lor AGENT_DEFAULT MEMBER_OPERATOR_DEFAULT
  else if String.eqb role "viewer" then Z.lor READ_ONLY VIEWER_OPERATOR_DEFAULT
  else 0.

Definition has_permission (bitmap required : Z) : bool := Z.land bitmap required =? required.

Definition requires_step_up (permission : Z) : bool := negb (Z.land permission STEP_UP_MASK =? 0).

Definition requires_mfa (permission : Z) : bool := requires_step_up permission.

(** [has_permission] is bitwise inclusion. *)
Lemma has_permission_bits bitmap required :
  has_permission bitmap required = true <->
  forall n, 0 <= n -> Z.testbit required n = true -> Z.testbit bitmap n = true.
Proof.
  unfold has_permission. rewrite Z.eqb_eq. split.
  - intros H n Hn Hr. rewrite <- H, Z.land_spec in Hr. by apply andb_prop in Hr as [? _].
  - intros H. apply Z.bits_inj'. intros n Hn. rewrite Z.land_spec.
    destruct (Z.testbit required n) eqn:E; [by rewrite (H n Hn E)|apply andb_false_r].
Qed.

Lemma has_permission_trans a b c :
  has_permission a b = true -> has_permission b c = true -> has_permission a c = true.
Proof. rewrite !has_permission_bits. auto. Qed.

(** Permissions are bitwise inclusion, so a check passes exactly when every
    required bit is in the bitmap; owner and admin hold everything any other role
    holds, an unknown role holds nothing, and no role holds a bit of raw reads,
    deletion, replay, secrets, break-glass or federation. *)
Theorem role_bitmaps (role : string) (bitmap required : Z) :
  (has_permission bitmap required = true <->
   forall n, 0 <= n -> Z.testbit required n = true -> Z.testbit bitmap n = true) /\
  has_permission (bitmap_for_role "owner") (bitmap_for_role role) = true /\
  has_permission (bitmap_for_role "admin") (bitmap_for_role role) = true /\
  (role ∉ ["owner"; "admin"; "member"; "viewer"]%string -> bitmap_for_role role = 0) /\
  Forall (fun p => has_permission (bitmap_for_role role) p = false)
    [OPERATOR_RAW_READ; OPERATOR_DELETE; OPERATOR_REPLAY; SECRET_USE; BREAK_GLASS; FEDERATION_SHARE].
Proof.
  split; [apply has_permission_bits|]. unfold bitmap_for_role at 2 4 5 6.
  destruct (String.eqb role "owner") eqn:E1; [|destruct (String.eqb role "admin") eqn:E2;
    [|destruct (String.eqb role "member") eqn:E3; [|destruct (String.eqb role "viewer") eqn:E4]]];
    (split; [vm_compute; reflexivity|]); (split; [vm_compute; reflexivity|]); bools;
    (split; [intros Hn; try done; exfalso; apply Hn; subst; set_solver|]);
    repeat (apply Forall_cons; split; [vm_compute; reflexivity|]); by apply Forall_nil.
Qed.

(** The member preset does not include the viewer's: it lacks reading
    directives. *)
Example viewer_not_member :
  has_permission (bitmap_for_role "viewer") DIRECTIVE_READ = true /\
  has_permission (bitmap_for_role "member") DIRECTIVE_READ = false.
Proof. split; vm_compute; reflexivity. Qed.
