(* ===== verification/Gateway.v ===== *)
(** * The operator gateway
    ([packages/mcp_gateway/src/mcp_gateway/]: [scopes.py], [registry.py], [policy.py],
    [errors.py], [principal.py], [enforcement.py], the event of [audit.py])

    The tool registry and the enforcement pipeline.  What the pipeline calls
    (rate limiter, policy evaluator, argument model, executor) are arguments;
    a run returns its result together with the trace of the calls it made.
    Texts are Latin-1. *)

From S2P Require Import Prelude Num Redaction Permissions.

Definition UUID : Type := string.

(** ** Scopes *)

Inductive Scope := OPERATOR_READ | RUNS_READ | EVIDENCE_READ | BUDGET_READ.

Definition scope_value (s : Scope) : string :=
  match s with
  | OPERATOR_READ => "operator.read"
  | RUNS_READ => "runs.read"
  | EVIDENCE_READ => "evidence.read"
  | BUDGET_READ => "budget.read"
  end.

Definition permission_for_scope (s : Scope) : Z :=
  match s with
  | OPERATOR_READ => OPERATOR_METADATA_READ
  | RUNS_READ => TRACE_READ
  | EVIDENCE_READ => OPERATOR_REDACTED_READ
  | BUDGET_READ => BILLING_READ
  end.

Definition scope_granted (permissions : Z) (s : Scope) : bool :=
  has_permission permissions (permission_for_scope s).

(** ** Errors *)

(** The exceptions that pass through the pipeline: a [GatewayError] by its
    class, [TimeoutError], another [Exception], or a cancellation (which is not
    an [Exception]). *)
Inductive GatewayErrorKind :=
| InternalError | ToolNotFoundError | PermissionDeniedError | NotFoundError | PolicyUnavailableError
| InvalidParamsError | RateLimitedError | RateLimitUnavailableError | BackendUnavailableError
| RedactionFailed.

Inductive PyError :=
| GatewayError (k : GatewayErrorKind) (message : string)
| TimeoutError
| OtherException
| CancelledError.

Definition code (k : GatewayErrorKind) : string :=
  match k with
  | InternalError => "internal_error"
  | ToolNotFoundError => "tool_not_found"
  | PermissionDeniedError => "permission_denied"
  | NotFoundError => "not_found"
  | PolicyUnavailableError => "policy_unavailable"
  | InvalidParamsError => "invalid_params"
  | RateLimitedError => "rate_limited"
  | RateLimitUnavailableError => "rate_limit_unavailable"
  | BackendUnavailableError => "backend_unavailable"
  | RedactionFailed => "redaction_failed"
  end.

Definition http_status (k : GatewayErrorKind) : Z :=
  match k with
  | InternalError => 500
  | ToolNotFoundError => 404
  | PermissionDeniedError => 403
  | NotFoundError => 404
  | PolicyUnavailableError => 403
  | InvalidParamsError => 400
  | RateLimitedError => 429
  | RateLimitUnavailableError => 503
  | BackendUnavailableError => 503
  | RedactionFailed => 500
  end.

(** ** The registry *)

(** [ToolSpec]; [args_model] validates a dict and dumps the model, or gives the
    first validation message. *)
Record ToolSpec := {
  name : string;
  spec_version : string;
  scope : Scope;
  description : string;
  args_model : dict -> result string dict;
  output_schema : dict;
  timeout_ms : Z;
  row_limit : Z;
  role : string;
}.

Definition READ_ONLY_ROLE : string := "read_only".
Definition MAX_TIMEOUT_MS : Z := 30000.
Definition MAX_ROW_LIMIT : Z := 1000.

Inductive SpecError :=
| EmptyName | LongName | SpaceInName | EmptyIdentity | NotReadOnly | OutOfBounds (field : string)
| DuplicateName.

Definition name_error (n : string) : option SpecError :=
  let cs := list_ascii_of_string n in
  if forallb latin1_space cs then Some EmptyName
  else if (64 <? String.length n)%nat then Some LongName
  else if existsb latin1_space cs then Some SpaceInName
  else None.

Definition validate_bounds (field : string) (value maximum : Z) : result SpecError unit :=
  if (1 <=? value) && (value <=? maximum) then Ok tt else Raise (OutOfBounds field).

(** [ToolSpec(...)] with its [__post_init__]. *)
Definition tool_spec (s : ToolSpec) : result SpecError ToolSpec :=
  match name_error (name s) with
  | Some e => Raise e
  | None =>
      if (String.eqb (spec_version s) "" || String.eqb (description s) "")%bool then Raise EmptyIdentity
      else if negb (String.eqb (role s) READ_ONLY_ROLE) then Raise NotReadOnly
      else
        let* _ := validate_bounds "timeout_ms" (timeout_ms s) MAX_TIMEOUT_MS in
        let* _ := validate_bounds "row_limit" (row_limit s) MAX_ROW_LIMIT in
        Ok s
  end.

Abbreviation Registry := (gmap string ToolSpec).

Definition register (r : Registry) (s : ToolSpec) : result SpecError Registry :=
  match r !! name s with
  | Some _ => Raise DuplicateName
  | None => Ok (<[name s := s]> r)
  end.

(** [ToolRegistry(specs)] *)
Definition tool_registry (specs : list ToolSpec) : result SpecError Registry := rfold register ∅ specs.

(** [specs()]: in the order of the sorted names. *)
Definition specs (r : Registry) : list ToolSpec :=
  omap (fun n => r !! n) (py_sorted str_ltb (map_to_list r).*1).

(** ** Policy *)

Record GatewayPrincipal := {
  org_id : UUID;
  permissions : Z;
  agent_id : option UUID;
  principal_id : option string;
  token_id : option string;
}.

Inductive PolicyDecision := ALLOW | DENY.

#[global] Instance PolicyDecision_eq_dec : EqDecision PolicyDecision.
Proof. solve_decision. Defined.

Record PolicyResult := { decision : PolicyDecision; reason : string; scope_satisfied : bool }.

Definition allowed (p : PolicyResult) : bool := bool_decide (decision p = ALLOW).

(** [BitmapPolicyEvaluator.evaluate] *)
Definition bitmap_policy (p : GatewayPrincipal) (s : ToolSpec) : PolicyResult :=
  if negb (String.eqb (role s) "read_only") then
    {| decision := DENY; reason := "non-read-only tool cannot be authorized"; scope_satisfied := false |}
  else if scope_granted (permissions p) (scope s) then
    {| decision := ALLOW; reason := "scope " +:+ scope_value (scope s) +:+ " satisfied";
       scope_satisfied := true |}
  else
    {| decision := DENY; reason := "missing required scope " +:+ scope_value (scope s);
       scope_satisfied := false |}.

(** ** The pipeline *)

Record Invocation := {
  principal : GatewayPrincipal;
  tool_name : string;
  args : option dict;
  request_id : string;
  trace_id : option string;
}.

Record CallContext := { call_request_id : string; call_trace_id : option string }.

(** [ToolContext]: what an executor is given besides the arguments. *)
Record ToolContext := {
  ctx_principal : GatewayPrincipal;
  ctx_spec : ToolSpec;
  ctx_request_id : string;
  ctx_trace_id : option string;
}.

Record AuditState := {
  au_spec : option ToolSpec;
  requested_tool_name : string;
  au_decision : PolicyDecision;
  scope_ok : bool;
  success : bool;
  error_code : string;
}.

Definition audit_state0 : AuditState :=
  {| au_spec := None; requested_tool_name := ""; au_decision := DENY; scope_ok := false;
     success := false; error_code := "" |}.

(** The assignments to the audit state. *)
Definition set_requested (n : string) (a : AuditState) : AuditState :=
  {| au_spec := au_spec a; requested_tool_name := n; au_decision := au_decision a;
     scope_ok := scope_ok a; success := success a; error_code := error_code a |}.
Definition set_spec (s : ToolSpec) (a : AuditState) : AuditState :=
  {| au_spec := Some s; requested_tool_name := requested_tool_name a; au_decision := au_decision a;
     scope_ok := scope_ok a; success := success a; error_code := error_code a |}.
Definition set_policy (r : PolicyResult) (a : AuditState) : AuditState :=
  {| au_spec := au_spec a; requested_tool_name := requested_tool_name a; au_decision := decision r;
     scope_ok := scope_satisfied r; success := success a; error_code := error_code a |}.
Definition set_success (a : AuditState) : AuditState :=
  {| au_spec := au_spec a; requested_tool_name := requested_tool_name a; au_decision := au_decision a;
     scope_ok := scope_ok a; success := true; error_code := error_code a |}.
Definition set_error (c : string) (a : AuditState) : AuditState :=
  {| au_spec := au_spec a; requested_tool_name := requested_tool_name a; au_decision := au_decision a;
     scope_ok := scope_ok a; success := success a; error_code := c |}.

Record ToolAuditEvent := {
  ev_request_id : string;
  ev_org_id : UUID;
  ev_agent_id : option UUID;
  ev_principal_id : option string;
  ev_token_id : option string;
  ev_tool_name : string;
  ev_tool_version : string;
  ev_descriptor_hash : string;
  ev_scope : string;
  ev_scope_ok : bool;
  ev_decision : PolicyDecision;
  ev_success : bool;
  ev_error_code : string;
  ev_latency_ms : Z;
}.

(** The calls a run makes, in order. *)
Inductive Effect :=
| RateChecked (org : UUID)
| PolicyAsked (p : GatewayPrincipal) (spec : ToolSpec)
| Executed (ctx : ToolContext) (call_args : dict)
| Audited (ev : ToolAuditEvent).

Record RateLimitOutcome := { rate_allowed : bool; rate_limit : Z; rate_remaining : Z; rate_reset : Z }.

(** A coroutine of the enforcer: it mutates the audit state of its call, makes
    calls, and returns or raises. *)
Definition St : Type := AuditState * list Effect.
Definition M (A : Type) : Type := St -> result PyError A * St.

Definition ret {A} (a : A) : M A := fun st => (Ok a, st).
Definition lift {A} (r : result PyError A) : M A := fun st => (r, st).
Definition bind {A B} (m : M A) (k : A -> M B) : M B :=
  fun st => match m st with
            | (Ok a, st) => k a st
            | (Raise e, st) => (Raise e, st)
            end.
Definition assign (f : AuditState -> AuditState) : M unit := fun st => (Ok tt, (f st.1, st.2)).
Definition call (e : Effect) : M unit := fun st => (Ok tt, (st.1, st.2 ++ [e])).

Declare Scope gateway_scope.
Delimit Scope gateway_scope with gw.
Notation "x '<~' m ';;' k" := (bind m (fun x => k))
  (at level 100, m at level 99, k at level 200, only parsing) : gateway_scope.
Notation "m ';;' k" := (bind m (fun _ => k)) (at level 100, k at level 200, right associativity)
  : gateway_scope.

(** The messages of [RedactionError]. *)
Definition redaction_message (e : RedactionError) : string :=
  match e with
  | NotAnObject => "tool result was not an object"
  | MissingItems => "array schema is missing items"
  | NullNotNullable => "tool result field is null but not nullable"
  | UnexpectedType => "tool result field has an unexpected type"
  | MissingProperties => "output schema is missing properties"
  | MissingRequired ks => "tool result missing required fields: " +:+ String.concat ", " ks
  | MissingType => "output schema field is missing a type"
  | BadTypeShape => "output schema has an unsupported type shape"
  | UnsupportedType => "output schema has an unsupported type"
  end.

Section Enforcer.
Context (registry : Registry)
  (** [RateLimiter.check], if one is configured; it may raise. *)
  (rate_limiter : option (UUID -> result PyError RateLimitOutcome))
  (** [PolicyEvaluator.evaluate]; it may raise. *)
  (policy : GatewayPrincipal -> ToolSpec -> result PyError PolicyResult)
  (** The executor under the tool's timeout; it may raise. *)
  (executor : ToolContext -> dict -> result PyError (option dict))
  (descriptor_hash : ToolSpec -> string)
  (** [str] of a value and [repr] of a text. *)
  (py_str : Json -> string) (py_repr : string -> string).

Local Open Scope gateway_scope.

Definition enforce_rate_limit (p : GatewayPrincipal) : M unit :=
  match rate_limiter with
  | None => ret tt
  | Some check =>
      call (RateChecked (org_id p)) ;;
      outcome <~ lift (check (org_id p)) ;;
      if rate_allowed outcome then ret tt
      else lift (Raise (GatewayError RateLimitedError "operator gateway rate limit exceeded"))
  end.

Definition require_spec (n : string) : M ToolSpec :=
  match registry !! n with
  | None => lift (Raise (GatewayError ToolNotFoundError ("unknown tool " +:+ py_repr n)))
  | Some s => assign (set_spec s) ;; ret s
  end.

Definition evaluate_policy (p : GatewayPrincipal) (s : ToolSpec) : M PolicyResult :=
  call (PolicyAsked p s) ;;
  lift (match policy p s with
        | Ok r => Ok r
        | Raise (GatewayError k m) => Raise (GatewayError k m)
        | Raise CancelledError => Raise CancelledError
        | Raise _ => Raise (GatewayError PolicyUnavailableError "policy evaluation failed")
        end).

Definition authorize (p : GatewayPrincipal) (s : ToolSpec) : M unit :=
  pr <~ evaluate_policy p s ;;
  assign (set_policy pr) ;;
  if allowed pr then ret tt else lift (Raise (GatewayError PermissionDeniedError (reason pr))).

Definition validate_args (s : ToolSpec) (a : option dict) : result PyError dict :=
  match args_model s (default [] a) with
  | Ok d => Ok d
  | Raise m => Raise (GatewayError InvalidParamsError m)
  end.

Definition execute (ctx : ToolContext) (a : dict) : M (option dict) :=
  call (Executed ctx a) ;; lift (executor ctx a).

(** [sanitize_output] with its exception. *)
Definition sanitized (raw : option dict) (schema : dict) : result PyError dict :=
  match sanitize_output py_str raw schema with
  | Ok r => Ok r
  | Raise e => Raise (GatewayError RedactionFailed (redaction_message e))
  end.

Definition tool_context (i : Invocation) (s : ToolSpec) : ToolContext :=
  {| ctx_principal := principal i; ctx_spec := s; ctx_request_id := request_id i;
     ctx_trace_id := trace_id i |}.

Definition run_pipeline (i : Invocation) : M dict :=
  assign (set_requested (tool_name i)) ;;
  enforce_rate_limit (principal i) ;;
  spec <~ require_spec (tool_name i) ;;
  authorize (principal i) spec ;;
  parsed <~ lift (validate_args spec (args i)) ;;
  raw <~ execute (tool_context i spec) parsed ;;
  result <~ lift (sanitized raw (output_schema spec)) ;;
  assign set_success ;;
  ret result.

Definition audit_tool_name (a : AuditState) : string :=
  match au_spec a with
  | Some s => name s
  | None =>
      if (String.eqb (error_code a) (code RateLimitedError)
          || String.eqb (error_code a) (code RateLimitUnavailableError))%bool
      then requested_tool_name a else ""
  end.

(** [_emit_audit] *)
Definition audit_event (p : GatewayPrincipal) (request_id_ : string) (latency_ms : Z) (a : AuditState)
    : ToolAuditEvent :=
  {| ev_request_id := request_id_; ev_org_id := org_id p; ev_agent_id := agent_id p;
     ev_principal_id := principal_id p; ev_token_id := token_id p; ev_tool_name := audit_tool_name a;
     ev_tool_version := match au_spec a with Some s => spec_version s | None => "" end;
     ev_descriptor_hash := match au_spec a with Some s => descriptor_hash s | None => "" end;
     ev_scope := match au_spec a with Some s => scope_value (scope s) | None => "" end;
     ev_scope_ok := scope_ok a; ev_decision := au_decision a; ev_success := success a;
     ev_error_code := error_code a; ev_latency_ms := latency_ms |}.

(** The [except] clauses of [_invoke_with_audit]: the exception that leaves and
    the audit state it leaves behind.  A cancellation passes every clause. *)
Definition handle (i : Invocation) (e : PyError) (a : AuditState) : PyError * AuditState :=
  match e with
  | TimeoutError =>
      (GatewayError BackendUnavailableError ("tool " +:+ py_repr (tool_name i) +:+ " timed out"),
       set_error (code BackendUnavailableError) a)
  | GatewayError k m => (GatewayError k m, set_error (code k) a)
  | OtherException => (OtherException, set_error "internal_error" a)
  | CancelledError => (CancelledError, a)
  end.

(** [_invoke_with_audit]; the audit event is emitted on every exit. *)
Definition invoke_with_audit (i : Invocation) (latency_ms : Z) : result PyError dict * list Effect :=
  let '(r, (a, effs)) := run_pipeline i (audit_state0, []) in
  let '(r, a) := match r with
                 | Ok d => (Ok d, a)
                 | Raise e => let '(e, a) := handle i e a in (Raise e, a)
                 end in
  (r, effs ++ [Audited (audit_event (principal i) (request_id i) latency_ms a)]).

(** [invoke]; [fresh] is the [uuid4] drawn when the caller names no request. *)
Definition invoke (fresh : string) (p : GatewayPrincipal) (n : string) (a : option dict)
    (c : option CallContext) (latency_ms : Z) : result PyError dict * list Effect :=
  let context := default {| call_request_id := ""; call_trace_id := None |} c in
  invoke_with_audit
    {| principal := p; tool_name := n; args := a;
       request_id := if String.eqb (call_request_id context) "" then fresh else call_request_id context;
       trace_id := call_trace_id context |} latency_ms.

(** ** What a call did *)

(** The calls made before the audit event, as far as the run got. *)
Definition limiter_calls (p : GatewayPrincipal) : list Effect :=
  match rate_limiter with Some _ => [RateChecked (org_id p)] | None => [] end.

(** The rate limiter let the organisation through. *)
Definition rate_passed (p : GatewayPrincipal) : Prop :=
  match rate_limiter with
  | None => True
  | Some check => exists o, check (org_id p) = Ok o /\ rate_allowed o = true
  end.

(** How a run of the pipeline can end, stage by stage. *)
Inductive Stage (i : Invocation) : result PyError dict -> AuditState -> list Effect -> Prop :=
| StoppedByLimiter e a effs : a = set_requested (tool_name i) audit_state0 ->
    effs = limiter_calls (principal i) -> ~ rate_passed (principal i) ->
    Stage i (Raise e) a effs
| UnknownTool m a effs : a = set_requested (tool_name i) audit_state0 ->
    effs = limiter_calls (principal i) -> rate_passed (principal i) ->
    registry !! tool_name i = None ->
    Stage i (Raise (GatewayError ToolNotFoundError m)) a effs
| NotAllowed e s a effs : rate_passed (principal i) -> registry !! tool_name i = Some s ->
    (forall r, policy (principal i) s = Ok r -> decision r = DENY) ->
    success a = false -> error_code a = "" -> au_spec a = Some s -> au_decision a = DENY ->
    effs = limiter_calls (principal i) ++ [PolicyAsked (principal i) s] ->
    Stage i (Raise e) a effs
| BadArguments m s pr a effs : rate_passed (principal i) -> registry !! tool_name i = Some s ->
    policy (principal i) s = Ok pr -> decision pr = ALLOW ->
    a = set_policy pr (set_spec s (set_requested (tool_name i) audit_state0)) ->
    effs = limiter_calls (principal i) ++ [PolicyAsked (principal i) s] ->
    Stage i (Raise (GatewayError InvalidParamsError m)) a effs
| Ran r s pr d a effs : rate_passed (principal i) -> registry !! tool_name i = Some s ->
    policy (principal i) s = Ok pr -> decision pr = ALLOW ->
    args_model s (default [] (args i)) = Ok d ->
    (forall out, r = Ok out -> conforms py_str (JObj out) (output_schema s)) ->
    success a = is_ok r -> error_code a = "" -> au_spec a = Some s -> au_decision a = ALLOW ->
    effs = limiter_calls (principal i)
           ++ [PolicyAsked (principal i) s; Executed (tool_context i s) d] ->
    Stage i r a effs.

Lemma enforce_rate_limit_spec p a effs :
  exists r, enforce_rate_limit p (a, effs) = (r, (a, effs ++ limiter_calls p)) /\
            (is_ok r = true <-> rate_passed p).
Proof.
  unfold enforce_rate_limit, limiter_calls, rate_passed, bind, call, lift, ret.
  destruct rate_limiter as [check|]; cbn.
  - destruct (check (org_id p)) as [o|e]; [destruct (rate_allowed o) eqn:Ho|]; eexists; split; try done;
      cbn; naive_solver.
  - exists (Ok tt). by rewrite app_nil_r.
Qed.

Lemma authorize_spec p s a effs :
  exists r a', authorize p s (a, effs) = (r, (a', effs ++ [PolicyAsked p s])) /\
    match r with
    | Ok _ => exists pr, policy p s = Ok pr /\ decision pr = ALLOW /\ a' = set_policy pr a
    | Raise _ => (forall pr, policy p s = Ok pr -> decision pr = DENY) /\
                 (a' = a \/ exists pr, decision pr = DENY /\ a' = set_policy pr a)
    end.
Proof.
  unfold authorize, evaluate_policy, bind, call, lift, assign, ret, allowed. cbn [fst snd].
  destruct (policy p s) as [pr|e].
  - case_bool_decide as Hd; do 2 eexists; (split; [done|]); cbn; [by exists pr|].
    destruct (decision pr) eqn:E; [done|]. split; [naive_solver|]. right. by exists pr.
  - destruct e; do 2 eexists; (split; [done|]); cbn; (split; [done|by left]).
Qed.

Lemma run_pipeline_stage i :
  let '(r, (a, effs)) := run_pipeline i (audit_state0, []) in Stage i r a effs.
Proof.
  unfold run_pipeline. unfold bind at 1. unfold assign at 1. cbn [fst snd].
  set (a0 := set_requested (tool_name i) audit_state0).
  destruct (enforce_rate_limit_spec (principal i) a0 []) as (r & Hr & Hpass).
  unfold bind at 1. rewrite Hr. cbn [app].
  destruct r as [[]|e]; cbn in Hpass; [|by eapply StoppedByLimiter; naive_solver].
  assert (rate_passed (principal i)) as Hp by naive_solver.
  unfold bind at 1, require_spec. destruct (registry !! tool_name i) as [s|] eqn:Hs;
    [|by eapply UnknownTool].
  unfold bind at 1, assign at 1, ret at 1. cbn [fst snd].
  destruct (authorize_spec (principal i) s (set_spec s a0) (limiter_calls (principal i)))
    as (r & a & Ha & Hauth).
  unfold bind at 1. rewrite Ha. destruct r as [[]|e].
  - destruct Hauth as (pr & Hpol & Hd & ->). unfold bind at 1, lift at 1, validate_args.
    destruct (args_model s (default [] (args i))) as [d|m] eqn:Hargs; [|by eapply BadArguments].
    unfold bind at 1, execute, bind at 1, call, lift at 1. cbn [fst snd]. rewrite <- app_assoc. cbn [app].
    destruct (executor _ d) as [raw|e]; [|by eapply Ran].
    unfold bind at 1, lift, sanitized.
    destruct (sanitize_output py_str raw (output_schema s)) as [out|e] eqn:Hout; cbn; [|by eapply Ran].
    eapply Ran; try done. intros ? [= <-]. by eapply sanitize_output_object.
  - destruct Hauth as [Hdeny [->|(pr & Hd & ->)]]; by eapply NotAllowed.
Qed.
(** Before the handlers run, the audit state says whether the run succeeded. *)
Lemma stage_audit i r a effs : Stage i r a effs -> success a = is_ok r /\ error_code a = "".
Proof. destruct 1; subst; done. Qed.

Lemma stage_no_audit i r a effs ev : Stage i r a effs -> Audited ev ∉ effs.
Proof.
  intros Hs. destruct Hs; subst; unfold limiter_calls; destruct rate_limiter;
    rewrite ?elem_of_app, ?elem_of_cons, ?elem_of_nil; naive_solver.
Qed.

Lemma stage_executed i r a effs ctx d : Stage i r a effs -> Executed ctx d ∈ effs ->
  exists s pr, rate_passed (principal i) /\ registry !! tool_name i = Some s /\
    policy (principal i) s = Ok pr /\ decision pr = ALLOW /\
    args_model s (default [] (args i)) = Ok d /\ ctx = tool_context i s /\
    effs = limiter_calls (principal i) ++ [PolicyAsked (principal i) s; Executed ctx d].
Proof.
  assert (Executed ctx d ∉ limiter_calls (principal i)) as Hl.
  { unfold limiter_calls. destruct rate_limiter; rewrite ?elem_of_cons, ?elem_of_nil; naive_solver. }
  intros Hs Hin. destruct Hs; subst; rewrite ?elem_of_app, ?elem_of_cons, ?elem_of_nil in Hin;
    try (exfalso; naive_solver).
  destruct Hin as [?|[[=]|[[= -> ->]|[]]]]; [done|].
  by exists s, pr.
Qed.

(** The error code an audit event carries for the outcome of a call. *)
Definition outcome_code (r : result PyError dict) : option string :=
  match r with
  | Ok _ => Some ""%string
  | Raise (GatewayError k _) => Some (code k)
  | Raise OtherException => Some "internal_error"%string
  | Raise CancelledError => Some ""%string
  | Raise TimeoutError => None
  end.

Lemma handle_spec i e a : error_code a = "" ->
  let '(e', a') := handle i e a in
  Some (error_code a') = outcome_code (Raise e') /\ success a' = success a /\
  au_decision a' = au_decision a /\ au_spec a' = au_spec a.
Proof. intros H. destruct e; cbn; by rewrite ?H. Qed.

(** A call is a run of the pipeline followed by its audit event. *)
Lemma invoke_with_audit_stage i latency_ms : exists r a effs a',
  Stage i r a effs /\
  invoke_with_audit i latency_ms =
    (match r with Ok d => Ok d | Raise e => Raise (handle i e a).1 end,
     effs ++ [Audited (audit_event (principal i) (request_id i) latency_ms a')]) /\
  a' = match r with Ok d => a | Raise e => (handle i e a).2 end.
Proof.
  pose proof (run_pipeline_stage i) as Hs. unfold invoke_with_audit.
  destruct (run_pipeline i (audit_state0, [])) as [r [a effs]].
  exists r, a, effs. eexists. split; [done|]. split; [|reflexivity].
  destruct r as [d|e]; [done|]. by destruct (handle i e a).
Qed.

(** Deny by default, in order: whenever the executor runs, the rate limiter
    (if any) was asked first and let the caller's organisation through, the
    tool is the registered one, the policy was then asked and answered ALLOW,
    the arguments it receives are the validated ones, and the trace of the call
    is exactly rate check, policy, execution, audit. *)
Theorem executed_only_when_authorized fresh p n a c latency_ms ctx d :
  Executed ctx d ∈ (invoke fresh p n a c latency_ms).2 ->
  exists s pr ev,
    rate_passed p /\ registry !! n = Some s /\ policy p s = Ok pr /\ decision pr = ALLOW /\
    args_model s (default [] a) = Ok d /\ ctx_spec ctx = s /\ ctx_principal ctx = p /\
    (invoke fresh p n a c latency_ms).2 =
      limiter_calls p ++ [PolicyAsked p s; Executed ctx d; Audited ev].
Proof.
  unfold invoke. set (i := {| principal := p |}).
  destruct (invoke_with_audit_stage i latency_ms) as (r & au & effs & au' & Hs & -> & _). cbn [snd].
  rewrite elem_of_app, list_elem_of_singleton. intros [Hin|[=]].
  destruct (stage_executed i r au effs ctx d Hs Hin) as (s & pr & Hp & Hn & Hpol & Hd & Hargs & -> & ->).
  exists s, pr. eexists. repeat (split; [done|]). by rewrite <- app_assoc.
Qed.

(** Every call leaves exactly one audit event, last, on every exit: it
    names the caller's own organisation and the request, reports success
    exactly when the call returned, and carries the code of the exception that
    left (a cancellation carries none); a success was allowed by the policy. *)
Theorem every_call_audited_once fresh p n a c latency_ms :
  exists calls ev, let '(r, effs) := invoke fresh p n a c latency_ms in
    effs = calls ++ [Audited ev] /\ (forall ev', Audited ev' ∉ calls) /\
    ev_org_id ev = org_id p /\ ev_principal_id ev = principal_id p /\
    ev_success ev = is_ok r /\ Some (ev_error_code ev) = outcome_code r /\
    (is_ok r = true -> exists s, registry !! n = Some s /\ ev_tool_name ev = name s /\
                                 ev_decision ev = ALLOW).
Proof.
  unfold invoke. set (i := {| principal := p |}).
  destruct (invoke_with_audit_stage i latency_ms) as (r & au & effs & au' & Hs & -> & ->).
  do 2 eexists. cbn beta iota. split; [done|]. split; [intros ev'; by eapply stage_no_audit|].
  split; [done|]. split; [done|]. destruct (stage_audit _ _ _ _ Hs) as [Hsuc Herr].
  destruct r as [d|e].
  - cbn. split; [done|]. split; [by rewrite Herr|]. intros _. inversion Hs; subst.
    exists s. unfold audit_tool_name. split; [done|]. by destruct (au_spec au); simplify_eq.
  - pose proof (handle_spec i e au Herr) as Hh. destruct (handle i e au) as [e' a'] eqn:E.
    destruct Hh as (Hc & Hsuc' & _ & _). cbn. split; [by rewrite Hsuc', Hsuc|]. done.
Qed.
End Enforcer.

(** ** The registry admits only bounded, read-only tools *)

Record bounded_tool (s : ToolSpec) : Prop := {
  bt_name : name s <> "" /\ (String.length (name s) <= 64)%nat /\
            forall c, c ∈ list_ascii_of_string (name s) -> latin1_space c = false;
  bt_role : role s = READ_ONLY_ROLE;
  bt_timeout : 1 <= timeout_ms s <= MAX_TIMEOUT_MS;
  bt_rows : 1 <= row_limit s <= MAX_ROW_LIMIT;
}.

Lemma name_error_None n : name_error n = None ->
  n <> "" /\ (String.length n <= 64)%nat /\ forall c, c ∈ list_ascii_of_string n -> latin1_space c = false.
Proof.
  unfold name_error. intros H. repeat case_if; try done.
  repeat split.
  - by intros ->.
  - by apply Nat.ltb_ge.
  - intros c Hc. destruct (latin1_space c) eqn:E; [|done]. exfalso.
    assert (existsb latin1_space (list_ascii_of_string n) = true); [|congruence].
    apply existsb_exists. exists c. by rewrite <- list_elem_of_In.
Qed.

Lemma validate_bounds_Ok f v m : validate_bounds f v m = Ok tt -> 1 <= v <= m.
Proof. unfold validate_bounds. case_if; [|done]. bools. lia. Qed.

Lemma tool_spec_Ok s s' : tool_spec s = Ok s' -> s' = s /\ bounded_tool s.
Proof.
  unfold tool_spec. destruct (name_error (name s)) eqn:En; [done|]. intros H.
  repeat case_if; try done. inv_bind. bools. split; [done|].
  split; [by apply name_error_None|done| |]; by destruct x, x0; eapply validate_bounds_Ok.
Qed.

Lemma rfold_register l : forall r0 r, rfold register r0 l = Ok r ->
  NoDup (name <$> l) /\ (forall s, s ∈ l -> r0 !! name s = None) /\
  (forall n s, r !! n = Some s <-> r0 !! n = Some s \/ s ∈ l /\ name s = n).
Proof.
  induction l as [|x l IH]; intros r0 r; cbn [rfold].
  - intros [= <-]. split; [constructor|]. set_solver.
  - intros H. inv_bind. unfold register in H0. destruct (r0 !! name x) eqn:Ex; [done|].
    injection H0 as <-. apply IH in H as (Hnd & Hfresh & Hl).
    assert (forall s, s ∈ l -> name s <> name x /\ r0 !! name s = None) as Hne.
    { intros s Hs. specialize (Hfresh s Hs). rewrite lookup_insert in Hfresh. by case_decide. }
    split; [|split].
    + cbn. constructor; [|done]. intros (s & Hn & Hs)%list_elem_of_fmap. naive_solver.
    + intros s [->|Hs]%elem_of_cons; naive_solver.
    + intros n s. rewrite Hl, lookup_insert, elem_of_cons. case_decide; naive_solver.
Qed.

Lemma tool_registry_lookup l r : tool_registry l = Ok r ->
  NoDup (name <$> l) /\ forall n s, r !! n = Some s <-> s ∈ l /\ name s = n.
Proof.
  intros (Hnd & _ & Hl)%rfold_register. split; [done|].
  intros n s. rewrite Hl, lookup_empty. naive_solver.
Qed.

Lemma omap_lookup_names (r : Registry) (ns : list string) :
  (forall n, n ∈ ns -> exists s, r !! n = Some s /\ name s = n) ->
  name <$> omap (fun n => r !! n) ns = ns.
Proof.
  induction ns as [|n ns IH]; intros H; [done|]. cbn.
  destruct (H n) as (s & Hs & Hn); [left|]. rewrite Hs. cbn. rewrite Hn, IH; [done|].
  intros n' Hn'. apply H. by right.
Qed.

(** The registry built from validated tool specs holds exactly those tools
    under their own, pairwise distinct names, all of them read-only and within
    the timeout and row bounds, and lists them in name order, each once. *)
Theorem registry_holds_validated_tools (raw l : list ToolSpec) (r : Registry) :
  rmap tool_spec raw = Ok l -> tool_registry l = Ok r ->
  l = raw /\ Forall bounded_tool l /\ NoDup (name <$> l) /\
  (forall n s, r !! n = Some s <-> s ∈ l /\ name s = n) /\
  specs r ≡ₚ l /\ StronglySorted (leb_of str_ltb) (name <$> specs r).
Proof.
  intros Hraw Hreg.
  assert (l = raw /\ Forall bounded_tool l) as [-> Hb].
  { clear Hreg. apply rmap_Ok in Hraw. induction Hraw as [|x y ? ? Hx _ [-> IH]]; [done|].
    apply tool_spec_Ok in Hx as [-> ?]. split; [done|]. by constructor. }
  apply tool_registry_lookup in Hreg as [Hnd Hl].
  assert (name <$> specs r = py_sorted str_ltb (map_to_list r).*1) as Hnames.
  { apply omap_lookup_names. intros n Hn. rewrite py_sorted_elem in Hn.
    apply list_elem_of_fmap in Hn as ([n' s] & -> & Hs%elem_of_map_to_list).
    exists s. split; [done|]. by apply Hl. }
  repeat (split; [done|]). split.
  - apply NoDup_Permutation.
    + apply (NoDup_fmap_1 name). rewrite Hnames, py_sorted_perm. apply NoDup_fst_map_to_list.
    + by apply (NoDup_fmap_1 name).
    + intros s. unfold specs. rewrite list_elem_of_omap. setoid_rewrite py_sorted_elem.
      setoid_rewrite list_elem_of_fmap. split.
      * intros (n & _ & Hs). by apply Hl in Hs as [? _].
      * intros Hs. exists (name s). assert (r !! name s = Some s) as Hn by (by apply Hl).
        split; [|done]. exists (name s, s). split; [done|]. by apply elem_of_map_to_list.
  - rewrite Hnames. apply (py_sorted_sorted str_ltb (ok := fun _ => True)). by apply Forall_true.
Qed.

Section Deployed.
Context (rate_limiter : option (UUID -> result PyError RateLimitOutcome))
  (executor : ToolContext -> dict -> result PyError (option dict))
  (descriptor_hash : ToolSpec -> string) (py_str : Json -> string) (py_repr : string -> string).

(** [GatewayEnforcer(registry, executor)] with the default policy. *)
Definition bitmap_invoke (r : Registry) :=
  invoke r rate_limiter (fun p s => Ok (bitmap_policy p s)) executor descriptor_hash py_str py_repr.

Lemma bitmap_policy_ALLOW p s : decision (bitmap_policy p s) = ALLOW ->
  role s = READ_ONLY_ROLE /\ scope_granted (permissions p) (scope s) = true.
Proof. unfold bitmap_policy. repeat case_if; cbn; try done. bools. done. Qed.

Lemma invoke_Ok r policy fresh p n a c ms out :
  (invoke r rate_limiter policy executor descriptor_hash py_str py_repr fresh p n a c ms).1 = Ok out ->
  exists s pr, r !! n = Some s /\ policy p s = Ok pr /\ decision pr = ALLOW /\
    rate_passed rate_limiter p /\ conforms py_str (JObj out) (output_schema s).
Proof.
  unfold invoke. set (i := {| principal := p |}).
  destruct (invoke_with_audit_stage r rate_limiter policy executor descriptor_hash py_str py_repr i ms)
    as (res & au & effs & au' & Hs & -> & ->). cbn [fst].
  destruct res as [d|e]; [|done]. intros [= ->]. inversion Hs; subst.
  exists s, pr. by eauto 10.
Qed.

(** C11: A caller of the deployed gateway gets a result only for a registered
    tool whose scope its permission bitmap grants, the tool is read-only and
    within its bounds, the organisation's rate limit let the call through, and
    what is returned conforms to the output schema the tool declared. *)
Theorem result_only_within_grant (l : list ToolSpec) (r : Registry) fresh p n a c ms out :
  rmap tool_spec l = Ok l -> tool_registry l = Ok r ->
  (bitmap_invoke r fresh p n a c ms).1 = Ok out ->
  exists s, s ∈ l /\ name s = n /\ bounded_tool s /\
    has_permission (permissions p) (permission_for_scope (scope s)) = true /\
    rate_passed rate_limiter p /\ conforms py_str (JObj out) (output_schema s).
Proof.
  intros Hl (_ & Hr)%tool_registry_lookup (s & pr & Hs & [= <-] & Hd & Hp & Hc)%invoke_Ok.
  apply Hr in Hs as [Hs Hn]. apply bitmap_policy_ALLOW in Hd as [_ Hg].
  exists s. repeat (split; [done|]). split; [|done].
  apply rmap_Ok in Hl. apply list_elem_of_lookup in Hs as [k Hk].
  destruct (Forall2_lookup_l _ _ _ _ _ Hl Hk) as (y & Hy & Hx). by apply tool_spec_Ok in Hx as [_ ?].
Qed.
End Deployed.

Module GatewaySample.
Import RedactionSample.

Definition budget_tool : ToolSpec :=
  {| name := "budget.status"; spec_version := "1"; scope := BUDGET_READ; description := "budget";
     args_model := fun d => if mem "org_id" d.*1 then Raise "org_id: Extra inputs are not permitted"%string
                            else Ok d;
     output_schema := schema; timeout_ms := 2000; row_limit := 100; role := READ_ONLY_ROLE |}.
Definition runs_tool : ToolSpec :=
  {| name := "agents.list"; spec_version := "1"; scope := RUNS_READ; description := "runs";
     args_model := fun d => Ok d; output_schema := schema; timeout_ms := 2000; row_limit := 100;
     role := READ_ONLY_ROLE |}.
Definition tools : list ToolSpec := [budget_tool; runs_tool].
Definition reg : Registry := <["agents.list" := runs_tool]> (<["budget.status" := budget_tool]> ∅).

Definition reader : GatewayPrincipal :=
  {| org_id := "o1"; permissions := BILLING_READ; agent_id := None; principal_id := Some "u1"%string;
     token_id := None |}.
Definition limiter : option (UUID -> result PyError RateLimitOutcome) :=
  Some (fun org => Ok {| rate_allowed := String.eqb org "o1"; rate_limit := 60; rate_remaining := 59;
                         rate_reset := 100 |}).
Definition exec (ctx : ToolContext) (d : dict) : result PyError (option dict) :=
  if String.eqb (name (ctx_spec ctx)) "budget.status" then Ok (Some payload) else Raise TimeoutError.
Definition no_hash (s : ToolSpec) : string := "".
Definition quote (s : string) : string := "'" +:+ s +:+ "'".

Abbreviation call_tool := (bitmap_invoke limiter exec no_hash no_str quote reg "req-1" reader).

(** The scope is missing, so the tool is never run. *)
Example denied_call :
  call_tool "agents.list"%string None None 3 =
  (Raise (GatewayError PermissionDeniedError "missing required scope runs.read"),
   [RateChecked "o1"; PolicyAsked reader runs_tool;
    Audited {| ev_request_id := "req-1"; ev_org_id := "o1"; ev_agent_id := None;
               ev_principal_id := Some "u1"%string; ev_token_id := None; ev_tool_name := "agents.list";
               ev_tool_version := "1"; ev_descriptor_hash := ""; ev_scope := "runs.read";
               ev_scope_ok := false; ev_decision := DENY; ev_success := false;
               ev_error_code := "permission_denied"; ev_latency_ms := 3 |}]).
Proof. vm_compute. reflexivity. Qed.

Example forged_org_call :
  (call_tool "budget.status"%string (Some [("org_id", JStr "o2")]%string) None 3).1 =
  Raise (GatewayError InvalidParamsError "org_id: Extra inputs are not permitted").
Proof. vm_compute. reflexivity. Qed.

Lemma registry_holds_validated_tools_witness :
  Forall bounded_tool tools /\ (name <$> specs reg) = ["agents.list"; "budget.status"]%string.
Proof.
  split; [|vm_compute; reflexivity].
  destruct (registry_holds_validated_tools tools tools reg) as (_ & H & _);
    [vm_compute; reflexivity|vm_compute; reflexivity|exact H].
Defined.

Lemma result_only_within_grant_witness :
  conforms no_str (JObj released) schema /\ has_permission BILLING_READ BILLING_READ = true.
Proof.
  destruct (result_only_within_grant limiter exec no_hash no_str quote tools reg "req-1" reader
    "budget.status" None None 3 released) as (s & Hs & Hn & _ & Hp & _ & Hc);
    [vm_compute; reflexivity|vm_compute; reflexivity|vm_compute; reflexivity|].
  assert (s = budget_tool) as ->; [|by split].
  unfold tools in Hs. rewrite !elem_of_cons, elem_of_nil in Hs. by destruct Hs as [->|[->|[]]].
Defined.

Lemma executed_only_when_authorized_witness :
  exists s pr, reg !! "budget.status"%string = Some s /\ bitmap_policy reader s = pr /\ decision pr = ALLOW.
Proof.
  destruct (executed_only_when_authorized reg limiter (fun p s => Ok (bitmap_policy p s)) exec no_hash no_str
    quote "req-1" reader "budget.status" None None 3
    {| ctx_principal := reader; ctx_spec := budget_tool; ctx_request_id := "req-1"; ctx_trace_id := None |} [])
    as (s & pr & _ & _ & Hs & [= Hp] & Hd & _); [|by exists s, pr].
  vm_compute. right. right. left.
Defined.
End GatewaySample.
