(* ===== verification/AuditQueue.v ===== *)
(** * The audit emitter
    ([packages/mcp_gateway/src/mcp_gateway/audit.py])

    [AsyncAuditEmitter] as a state machine on one event loop: tool handlers
    [emit], the drain task takes one item at a time, [aclose] stops it.  A step
    is the code between two awaits, so steps interleave and do not overlap.
    Events that left the queue are recorded in the state as well: what the
    drain task took ([taken]), what was counted as dropped ([lost]). *)

From S2P Require Import Prelude Gateway.

(** [ToolAuditEvent.normalized]: a negative latency becomes 0, a missing time
    is now. *)
Record Stamped := { event : ToolAuditEvent; requested_at : Z }.

Definition with_latency (e : ToolAuditEvent) (l : Z) : ToolAuditEvent :=
  {| ev_request_id := ev_request_id e; ev_org_id := ev_org_id e; ev_agent_id := ev_agent_id e;
     ev_principal_id := ev_principal_id e; ev_token_id := ev_token_id e; ev_tool_name := ev_tool_name e;
     ev_tool_version := ev_tool_version e; ev_descriptor_hash := ev_descriptor_hash e;
     ev_scope := ev_scope e; ev_scope_ok := ev_scope_ok e; ev_decision := ev_decision e;
     ev_success := ev_success e; ev_error_code := ev_error_code e; ev_latency_ms := l |}.

Definition normalized (now : Z) (e : ToolAuditEvent) (when : option Z) : Stamped :=
  {| event := with_latency e (Z.max 0 (ev_latency_ms e)); requested_at := default now when |}.

(** The values of a ClickHouse row of the event; its time is formatted by the
    caller. *)
Record ClickhouseRow := {
  ch_request_id : string;
  ch_org_id : string;
  ch_agent_id : option string;
  ch_tool_name : string;
  ch_latency_ms : Z;
  ch_success : bool;
  ch_error_code : string;
  ch_requested_at : Z;
}.

Definition as_clickhouse_row (now : Z) (e : ToolAuditEvent) (when : option Z) : ClickhouseRow :=
  let s := normalized now e when in
  let e := event s in
  {| ch_request_id := ev_request_id e; ch_org_id := ev_org_id e; ch_agent_id := ev_agent_id e;
     ch_tool_name := if String.eqb (ev_tool_name e) "" then "unknown" else ev_tool_name e;
     ch_latency_ms := ev_latency_ms e; ch_success := ev_success e;
     ch_error_code := if (bool_decide (ev_decision e = DENY) && String.eqb (ev_error_code e) "")%bool
                      then "permission_denied" else ev_error_code e;
     ch_requested_at := requested_at s |}.

(** ** The emitter *)

(** [task] says that [self._task] is set; [workers] counts the drain tasks that
    run, which outlive the reference [aclose] clears. *)
Record Emitter := {
  queue : list (option Stamped);
  maxsize : Z;
  task : bool;
  workers : nat;
  closed : bool;
  dropped : Z;
  taken : list Stamped;
  lost : list Stamped;
}.

Definition emitter (size : Z) : Emitter :=
  {| queue := []; maxsize := size; task := false; workers := 0; closed := false; dropped := 0;
     taken := []; lost := [] |}.

(** [asyncio.Queue.full]: a queue without a positive bound never is. *)
Definition full (s : Emitter) : bool :=
  (0 <? maxsize s) && (maxsize s <=? Z.of_nat (length (queue s))).

Definition set_queue (q : list (option Stamped)) (s : Emitter) : Emitter :=
  {| queue := q; maxsize := maxsize s; task := task s; workers := workers s; closed := closed s;
     dropped := dropped s; taken := taken s; lost := lost s |}.
Definition set_closed (s : Emitter) : Emitter :=
  {| queue := queue s; maxsize := maxsize s; task := false; workers := workers s; closed := true;
     dropped := dropped s; taken := taken s; lost := lost s |}.
(** A drain task ends. *)
Definition finish (s : Emitter) : Emitter :=
  {| queue := queue s; maxsize := maxsize s; task := task s; workers := pred (workers s); closed := closed s;
     dropped := dropped s; taken := taken s; lost := lost s |}.
(** [self._dropped += 1] for an item; a sentinel is no event. *)
Definition drop (i : option Stamped) (s : Emitter) : Emitter :=
  {| queue := queue s; maxsize := maxsize s; task := task s; workers := workers s; closed := closed s;
     dropped := dropped s + 1; taken := taken s; lost := lost s ++ match i with Some e => [e] | None => [] end |}.
Definition take (e : Stamped) (s : Emitter) : Emitter :=
  {| queue := queue s; maxsize := maxsize s; task := task s; workers := workers s; closed := closed s;
     dropped := dropped s; taken := taken s ++ [e]; lost := lost s |}.

(** [put_nowait] and [get_nowait]; [None] is [QueueFull] or [QueueEmpty]. *)
Definition put_nowait (i : option Stamped) (s : Emitter) : option Emitter :=
  if full s then None else Some (set_queue (queue s ++ [i]) s).

Definition get_nowait (s : Emitter) : option (option Stamped * Emitter) :=
  match queue s with
  | [] => None
  | i :: q => Some (i, set_queue q s)
  end.

Definition start (s : Emitter) : Emitter :=
  if task s then s
  else {| queue := queue s; maxsize := maxsize s; task := true; workers := S (workers s); closed := closed s;
          dropped := dropped s; taken := taken s; lost := lost s |}.

Definition emit (e : Stamped) (s : Emitter) : Emitter :=
  if closed s then drop (Some e) s
  else match put_nowait (Some e) s with
       | Some s' => s'
       | None => drop (Some e) s
       end.

(** [_drain] *)
Definition drain (s : Emitter) : Emitter := foldl (fun s i => drop i s) (set_queue [] s) (queue s).

(** The loop of [_signal_stop].  An empty queue is not full, so its
    [QueueEmpty] handler is never reached and the loop does not await. *)
Fixpoint signal_loop (attempts : nat) (s : Emitter) : bool * Emitter :=
  match attempts with
  | O => (false, s)
  | S attempts =>
      match put_nowait None s with
      | Some s' => (true, s')
      | None =>
          match get_nowait s with
          | Some (i, s') => signal_loop attempts (drop i s')
          | None => signal_loop attempts s
          end
      end
  end.

Definition signal_stop (s : Emitter) : Emitter :=
  let '(done_, s) := signal_loop 3 s in
  if done_ then s else default (drain s) (put_nowait None (drain s)).

(** [aclose] up to its first wait. *)
Definition aclose (s : Emitter) : Emitter :=
  let s' := set_closed s in
  if task s then signal_stop s' else s'.

(** One round of [_run]: it takes the next item, or stops at the sentinel.  A
    failing sink is logged, and the loop goes on. *)
Definition run_round (s : Emitter) : Emitter :=
  match get_nowait s with
  | None => s
  | Some (None, s') => finish s'
  | Some (Some e, s') => take e s'
  end.

(** ** Interleavings *)

Inductive Op := Start | Emit (e : Stamped) | Round | Close | CancelTask.

(** [CancelTask] is [task.cancel()] after the five seconds [aclose] waits; the
    item being written is already taken. *)
Definition op_step (s : Emitter) (o : Op) : Emitter :=
  match o with
  | Start => start s
  | Emit e => emit e s
  | Round => if (0 <? workers s)%nat then run_round s else s
  | Close => aclose s
  | CancelTask => if closed s then finish s else s
  end.

Definition run_ops (s : Emitter) (ops : list Op) : Emitter := foldl op_step s ops.

(** The events handed to [emit]. *)
Definition emitted (ops : list Op) : list Stamped :=
  omap (fun o => match o with Emit e => Some e | _ => None end) ops.

Definition events (q : list (option Stamped)) : list Stamped := omap id q.

Lemma events_app q q' : events (q ++ q') = events q ++ events q'.
Proof. apply omap_app. Qed.

(** What a step keeps: the drop counter, the order and the bound. *)
Lemma run_round_spec s :
  taken (run_round s) ++ events (queue (run_round s)) = taken s ++ events (queue s) /\
  lost (run_round s) = lost s /\ dropped (run_round s) = dropped s /\
  closed (run_round s) = closed s /\ maxsize (run_round s) = maxsize s /\
  queue (run_round s) = tail (queue s).
Proof.
  unfold run_round, get_nowait. destruct (queue s) as [|[e|] q] eqn:E; cbn; rewrite ?E; [done| |done].
  by rewrite <- app_assoc.
Qed.

Lemma emit_spec e s :
  (closed s = false /\ full s = false /\ emit e s = set_queue (queue s ++ [Some e]) s) \/
  emit e s = drop (Some e) s.
Proof. unfold emit, put_nowait. destruct (closed s), (full s); auto. Qed.

Lemma full_nonempty s : full s = true -> queue s <> [].
Proof. unfold full. intros H E. rewrite E in H. cbn in H. bools. lia. Qed.

(** A bounded queue is not full once an item was taken out of it. *)
Lemma full_after_get s i q : queue s = i :: q ->
  (0 < maxsize s -> Z.of_nat (length (queue s)) <= maxsize s) ->
  full (drop i (set_queue q s)) = false.
Proof.
  intros E Hb. unfold full. cbn. destruct (0 <? maxsize s) eqn:Hp; [|done]. bools.
  rewrite E in Hb. cbn in Hb. apply Z.leb_gt. lia.
Qed.

(** [_signal_stop] discards at most the oldest item, and the sentinel is in the
    queue: its fallback is never needed. *)
Lemma signal_stop_spec s : (0 < maxsize s -> Z.of_nat (length (queue s)) <= maxsize s) ->
  (full s = false /\ signal_stop s = set_queue (queue s ++ [None]) s) \/
  exists i q, queue s = i :: q /\ full s = true /\
    signal_stop s = set_queue (q ++ [None]) (drop i (set_queue q s)).
Proof.
  intros Hb. unfold signal_stop.
  assert (forall n s', full s' = false -> signal_loop (S n) s' = (true, set_queue (queue s' ++ [None]) s'))
    as Hput by (intros n s' H; cbn; unfold put_nowait; by rewrite H).
  destruct (full s) eqn:Hf; [|left; by rewrite Hput].
  right. destruct (queue s) as [|i q] eqn:E; [by apply full_nonempty in Hf|]. exists i, q.
  assert (signal_loop 3 s = signal_loop 2 (drop i (set_queue q s))) as ->.
  { unfold signal_loop at 1. unfold put_nowait at 1, get_nowait at 1. by rewrite Hf, E. }
  rewrite Hput; [done|]. apply full_after_get; [done|]. by rewrite E.
Qed.

Definition bounded (s : Emitter) : Prop := 0 < maxsize s -> Z.of_nat (length (queue s)) <= maxsize s.

(** The state after the events [evs] were emitted. *)
Record accounted (evs : list Stamped) (s : Emitter) : Prop := {
  ac_bounded : bounded s;
  ac_fifo : taken s ++ events (queue s) `sublist_of` evs;
  ac_all : evs ≡ₚ taken s ++ events (queue s) ++ lost s;
}.

Lemma bounded_put s i : full s = false -> bounded (set_queue (queue s ++ [i]) s).
Proof.
  unfold full, bounded. cbn. rewrite length_app. cbn. intros H Hp.
  rewrite (proj2 (Z.ltb_lt _ _)) in H by lia. cbn in H. bools. lia.
Qed.

Lemma emit_accounted evs e s : accounted evs s -> accounted (evs ++ [e]) (emit e s).
Proof.
  intros [Hb Hf Ha]. destruct (emit_spec e s) as [(Hc & Hfull & ->)| ->]; split; cbn.
  - by apply bounded_put.
  - rewrite events_app, app_assoc. by apply sublist_app.
  - rewrite events_app, Ha. cbn. solve_Permutation.
  - done.
  - by apply sublist_inserts_r.
  - rewrite Ha. solve_Permutation.
Qed.

Lemma round_accounted evs s : accounted evs s -> accounted evs (run_round s).
Proof.
  intros [Hb Hf Ha]. destruct (run_round_spec s) as (Hord & Hl & _ & _ & Hm & Hq). split.
  - unfold bounded in *. rewrite Hm, Hq. destruct (queue s); cbn in *; lia.
  - by rewrite Hord.
  - by rewrite app_assoc, Hord, Hl, <- app_assoc.
Qed.

Lemma aclose_accounted evs s : accounted evs s -> accounted evs (aclose s).
Proof.
  intros [Hb Hf Ha]. unfold aclose. destruct (task s); [|by split].
  destruct (signal_stop_spec (set_closed s)) as [(Hfull & ->)|(i & q & Hq & Hfull & ->)]; [done| |].
  - split; [by apply bounded_put| |]; cbn; by rewrite events_app, app_nil_r.
  - cbn in Hq. rewrite Hq in Hf, Ha. split.
    + apply (bounded_put (drop i (set_queue q (set_closed s)))). by apply full_after_get.
    + cbn. rewrite events_app, app_nil_r. etrans; [|done]. apply sublist_app; [done|].
      destruct i; cbn; [by apply sublist_cons|done].
    + cbn. rewrite events_app, app_nil_r, Ha. destruct i; cbn; solve_Permutation.
Qed.

Lemma op_step_accounted evs s o :
  accounted evs s -> accounted (evs ++ emitted [o]) (op_step s o).
Proof.
  intros H. destruct o as [|e| | |]; cbn; rewrite ?app_nil_r.
  - unfold start. destruct (task s); [done|]. by destruct H; split.
  - by apply emit_accounted.
  - case_if; [by apply round_accounted|done].
  - by apply aclose_accounted.
  - case_if; [|done]. by destruct H; split.
Qed.

Lemma run_ops_accounted ops : forall evs s,
  accounted evs s -> accounted (evs ++ emitted ops) (run_ops s ops).
Proof.
  induction ops as [|o ops IH]; intros evs s H; [by rewrite app_nil_r|].
  apply (op_step_accounted _ _ o) in H. apply IH in H. rewrite <- app_assoc in H.
  unfold emitted in *. by rewrite <- omap_app in H.
Qed.

Definition is_close (o : Op) : bool := match o with Close => true | _ => false end.
Definition is_round (o : Op) : bool := match o with Round => true | _ => false end.

Definition closes (ops : list Op) : nat := length (List.filter is_close ops).
Definition rounds (ops : list Op) : nat := length (List.filter is_round ops).

(** Until it is closed, the queue holds no sentinel and one drain task at most
    runs; the counter counts the lost events. *)
Record counted (s : Emitter) : Prop := {
  ct_dropped : dropped s = Z.of_nat (length (lost s));
  ct_open : closed s = false -> Forall is_Some (queue s) /\ workers s = if task s then 1%nat else 0%nat;
}.

Lemma op_step_counted s o : bounded s -> (is_close o = true -> closed s = false) ->
  counted s -> counted (op_step s o).
Proof.
  intros Hb Ho [Hd Hopen]. destruct o as [|e| | |]; cbn.
  - unfold start. destruct (task s) eqn:Et; [by split; rewrite ?Et|]. split; cbn; [done|].
    intros Hc. destruct (Hopen Hc) as [Hq ->]. done.
  - destruct (emit_spec e s) as [(Hc & _ & ->)| ->]; split; cbn; try done.
    + intros _. destruct (Hopen Hc) as [Hq Hw]. split; [|done]. apply Forall_app. split; [done|].
      by constructor.
    + rewrite length_app. cbn. lia.
  - case_if; [|by split]. destruct (run_round_spec s) as (_ & Hl & Hd' & Hc & _ & Hq).
    split; [by rewrite Hl, Hd'|]. rewrite Hc, Hq. intros Hcl. destruct (Hopen Hcl) as [Hs Hw].
    unfold run_round, get_nowait. destruct (queue s) as [|[e|] q]; cbn; [done| |].
    + by apply Forall_cons in Hs as [_ Hs].
    + by apply Forall_cons in Hs as [[x [=]] _].
  - destruct (Hopen (Ho eq_refl)) as [Hs _]. unfold aclose. destruct (task s); [|by split].
    destruct (signal_stop_spec (set_closed s)) as [(_ & ->)|(i & q & Hq & _ & ->)]; [done|by split|].
    split; [|done]. cbn in *. rewrite Hq in Hs. apply Forall_cons in Hs as [[e ->] _].
    rewrite length_app. cbn. lia.
  - destruct (closed s) eqn:Hc; [|by split; auto]. split; cbn; [done|]. congruence.
Qed.

Lemma op_step_closed s o : closed (op_step s o) = (is_close o || closed s)%bool.
Proof.
  destruct o as [|e| | |]; cbn.
  - unfold start. by destruct (task s).
  - by destruct (emit_spec e s) as [(_ & _ & ->)| ->].
  - case_if; [|done]. by destruct (run_round_spec s) as (_ & _ & _ & -> & _).
  - unfold aclose, signal_stop. destruct (task s); [|done].
    assert (forall n s, closed (signal_loop n s).2 = closed s) as Hl.
    { induction n as [|n IH]; intros t; [done|]. cbn. unfold put_nowait, get_nowait.
      destruct (full t); [|done]. destruct (queue t); rewrite IH; done. }
    assert (forall l t, closed (foldl (fun s i => drop i s) t l) = closed t) as Hdr.
    { induction l as [|i l IH]; intros t; [done|]. cbn. by rewrite IH. }
    specialize (Hl 3%nat (set_closed s)). destruct (signal_loop 3 (set_closed s)) as [d t]. cbn in Hl.
    destruct d; [done|]. unfold put_nowait, drain. destruct (full _); cbn; by rewrite Hdr.
  - case_if; by cbn; rewrite ?Heqb.
Qed.

Lemma run_ops_counted ops : forall evs s,
  accounted evs s -> counted s -> (closes ops <= if closed s then 0 else 1)%nat -> counted (run_ops s ops).
Proof.
  induction ops as [|o ops IH]; intros evs s Ha Hc Hn; [done|]. cbn.
  unfold closes in Hn. cbn in Hn. eapply IH.
  - by apply op_step_accounted.
  - apply op_step_counted; [by destruct Ha| |done]. intros Ho. rewrite Ho in Hn. cbn in Hn.
    destruct (closed s); [lia|done].
  - rewrite op_step_closed. unfold closes. destruct (is_close o), (closed s); cbn in *; lia.
Qed.

Lemma emitter_accounted size : accounted [] (emitter size) /\ counted (emitter size).
Proof. split; split; cbn; try done. unfold bounded. cbn. lia. Qed.

Lemma reachable_accounted size ops : accounted (emitted ops) (run_ops (emitter size) ops).
Proof. by apply (run_ops_accounted ops []), emitter_accounted. Qed.

Lemma reachable_counted size ops : (closes ops <= 1)%nat -> counted (run_ops (emitter size) ops).
Proof. intros H. by eapply run_ops_counted; [apply emitter_accounted|apply emitter_accounted|]. Qed.

(** However handlers, the drain task and shutdown interleave, no audit
    event is duplicated, reordered or silently lost: what the sink was given,
    what waits and what was dropped are together exactly what was emitted, the
    delivered and waiting events keep their order, the queue never exceeds its
    bound, and for one shutdown the drop counter is exact. *)
Theorem emitter_accounts_for_every_event size ops :
  let s := run_ops (emitter size) ops in
  emitted ops ≡ₚ taken s ++ events (queue s) ++ lost s /\
  taken s ++ events (queue s) `sublist_of` emitted ops /\
  (0 < maxsize s -> Z.of_nat (length (queue s)) <= maxsize s) /\
  ((closes ops <= 1)%nat -> dropped s = Z.of_nat (length (lost s))).
Proof.
  intros s. destruct (reachable_accounted size ops) as [Hb Hf Ha].
  repeat (split; [done|]). intros Hc. by destruct (reachable_counted size ops Hc).
Qed.

(** ** Shutdown *)

(** A closed emitter whose queue ends in the sentinel, one drain task running. *)
Definition stopping (backlog : list Stamped) (s : Emitter) : Prop :=
  closed s = true /\ queue s = (Some <$> backlog) ++ [None] /\ workers s = 1%nat.
Definition stopped (s : Emitter) : Prop := closed s = true /\ queue s = [] /\ workers s = 0%nat.

(** What may interleave with the drain task once [aclose] waits for it. *)
Definition late_op (o : Op) : Prop := o = Round \/ exists e, o = Emit e.

Lemma emit_closed e s : closed s = true -> emit e s = drop (Some e) s.
Proof. intros H. unfold emit. by rewrite H. Qed.

Lemma stopped_stays ops : forall s, stopped s -> Forall late_op ops ->
  stopped (run_ops s ops) /\ taken (run_ops s ops) = taken s.
Proof.
  induction ops as [|o ops IH]; intros s Hs Hl; [done|]. apply Forall_cons in Hl as [Ho Hl].
  destruct Hs as (Hc & Hq & Hw). destruct Ho as [->|[e ->]]; cbn.
  - rewrite Hw. cbn. by apply IH.
  - rewrite emit_closed by done. by apply (IH (drop (Some e) s)).
Qed.

Lemma stopping_drains ops : forall backlog s, stopping backlog s -> Forall late_op ops ->
  (length backlog < rounds ops)%nat ->
  stopped (run_ops s ops) /\ taken (run_ops s ops) = taken s ++ backlog.
Proof.
  induction ops as [|o ops IH]; intros backlog s (Hc & Hq & Hw) Hl Hn; [cbn in Hn; lia|].
  apply Forall_cons in Hl as [[->|[e ->]] Hl]; cbn.
  - rewrite Hw. cbn. unfold rounds in Hn. cbn in Hn. unfold run_round, get_nowait.
    rewrite Hq. destruct backlog as [|e backlog]; cbn.
    + rewrite app_nil_r. apply (stopped_stays _ (finish (set_queue [] s))); [|done]. unfold stopped. cbn. by rewrite Hw.
    + replace (taken s ++ e :: backlog) with ((taken s ++ [e]) ++ backlog) by (by rewrite <- app_assoc).
      apply (IH backlog (take e (set_queue ((Some <$> backlog) ++ [None]) s))); [done|done|]. cbn in Hn. unfold rounds. lia.
  - rewrite emit_closed by done. by apply (IH backlog (drop (Some e) s)).
Qed.

Lemma run_ops_closed ops : forall s, closed (run_ops s ops) = (existsb is_close ops || closed s)%bool.
Proof.
  induction ops as [|o ops IH]; intros s; [done|]. cbn. rewrite IH, op_step_closed.
  by destruct (is_close o), (existsb is_close ops), (closed s).
Qed.

Lemma not_closed_no_close size ops : closed (run_ops (emitter size) ops) = false -> closes ops = 0%nat.
Proof.
  rewrite run_ops_closed. cbn. rewrite orb_false_r. unfold closes.
  induction ops as [|o ops IH]; [done|]. cbn. destruct (is_close o); [done|apply IH].
Qed.

Lemma events_some q : Forall is_Some q -> Some <$> events q = q.
Proof. induction 1 as [|i q [e ->] _ IH]; [done|]. exact (f_equal (cons (Some e)) IH). Qed.

(** Shutdown delivers the backlog: at most one event (the oldest, and only
    if the queue is full) gives way to the sentinel, no later event enters, and
    as many rounds of the drain task as there are queued items hand every
    remaining event to the sink in order and end the task, whatever is emitted
    meanwhile. *)
Theorem close_delivers_backlog size ops late :
  let s := run_ops (emitter size) ops in
  closed s = false -> task s = true -> Forall late_op late ->
  (length (queue (aclose s)) <= rounds late)%nat ->
  exists gone kept,
    events (queue s) = gone ++ kept /\ (length gone <= 1)%nat /\ (gone <> [] -> full s = true) /\
    lost (aclose s) = lost s ++ gone /\
    let s' := run_ops (aclose s) late in
    taken s' = taken s ++ kept /\ queue s' = [] /\ workers s' = 0%nat.
Proof.
  intros s Hc Ht Hl Hn.
  assert (closes ops = 0%nat) as Hcl by (by eapply not_closed_no_close).
  destruct (reachable_accounted size ops) as [Hb _ _].
  destruct (reachable_counted size ops) as [_ Hopen]; [lia|]. destruct (Hopen Hc) as [Hq Hw].
  fold s in Hb, Hq, Hw. rewrite Ht in Hw. clearbody s. unfold aclose in *. rewrite Ht in *.
  destruct (signal_stop_spec (set_closed s)) as [(_ & E)|(i & q & Hi & Hf & E)]; [done| |];
    rewrite E in *; cbn in Hn.
  - exists [], (events (queue s)). rewrite app_nil_r.
    destruct (stopping_drains late (events (queue s)) (set_queue (queue s ++ [None]) (set_closed s)))
      as [(_ & Hqe & Hwe) Hte]; [| done| |].
    + unfold stopping. cbn. by rewrite events_some.
    + rewrite length_app in Hn. cbn in Hn. rewrite <- (events_some (queue s)), length_fmap in Hn by done. lia.
    + repeat split; try done. cbn. lia.
  - cbn in Hi. rewrite Hi in Hq. apply Forall_cons in Hq as [[e ->] Hq].
    exists [e], (events q). rewrite Hi.
    destruct (stopping_drains late (events q)
      (set_queue (q ++ [None]) (drop (Some e) (set_queue q (set_closed s)))))
      as [(_ & Hqe & Hwe) Hte]; [| done| |].
    + unfold stopping. cbn. by rewrite events_some.
    + rewrite length_app in Hn. cbn in Hn. rewrite <- (events_some q), length_fmap in Hn by done. lia.
    + repeat split; try done.
Qed.

Module AuditSample.
Definition ev (n : string) : Stamped :=
  {| event := {| ev_request_id := n; ev_org_id := "o1"; ev_agent_id := None; ev_principal_id := None;
                 ev_token_id := None; ev_tool_name := "budget.status"; ev_tool_version := "1";
                 ev_descriptor_hash := ""; ev_scope := "budget.read"; ev_scope_ok := true;
                 ev_decision := ALLOW; ev_success := true; ev_error_code := ""; ev_latency_ms := 1 |};
     requested_at := 0 |}.

(** A full queue of two gives up its oldest event to the sentinel. *)
Definition busy : list Op := [Start; Emit (ev "a"); Round; Emit (ev "b"); Emit (ev "c"); Emit (ev "d")].
Definition late : list Op := [Round; Emit (ev "e"); Round].

Lemma close_delivers_backlog_witness :
  taken (run_ops (aclose (run_ops (emitter 2) busy)) late) = [ev "a"; ev "c"] /\
  lost (aclose (run_ops (emitter 2) busy)) = [ev "d"; ev "b"].
Proof.
  destruct (close_delivers_backlog 2 busy late) as (gone & kept & H & _ & _ & Hl & Ht & _).
  - vm_compute. reflexivity.
  - vm_compute. reflexivity.
  - constructor; [by left|]. constructor; [right; by eexists|]. constructor; [by left|constructor].
  - vm_compute. lia.
  - split; vm_compute; reflexivity.
Defined.
End AuditSample.
