(* ===== verification/MemoryStore.v ===== *)
(** * The memory store: lifecycle, supersession and the write transaction
    ([services/memory/app/]: [lifecycle.py], [conflict/persist.py], [pii/persist.py],
    [dedup/persist.py], [write/persist.py], [write/orchestrator.py], [write/labels.py];
    the triggers and constraints of [infra/migrations/postgres/])

    The tables of the memory service and its transactions.  A transaction is one
    step: each takes the row locks its decisive conditions need before it tests
    them.  A statement that violates a constraint raises, and a transaction that
    raises leaves the tables as they were.  Times are microseconds, NUMERIC(3,2)
    values hundredths, revisions unbounded; JSON texts are opaque. *)

From S2P Require Import Prelude PyText.

Definition UUID : Type := string.

(** ** Tables *)

(** The columns of [memories] whose change is a lifecycle change. *)
Record Life := {
  org_id : UUID;
  agent_id : UUID;
  content : pystr;
  content_hash : string;
  content_tokens : Z;
  category : string;
  status : string;
  deleted_at : option Z;
  valid_from : Z;
  valid_until : option Z;
  confidence : Z;
  source : string;
  superseded_by : option UUID;
  merged_into : option UUID;
  metadata : string;
  expires_at : option Z;
  pii_detected : bool;
  pii_redacted : bool;
  tombstoned : bool;
}.

#[global] Instance Life_eq_dec : EqDecision Life.
Proof. solve_decision. Defined.

(** A row of [memories]; the embedding is its model and dimension. *)
Record Memory := {
  life : Life;
  session_id : option UUID;
  embedding : option (string * Z);
  retrieval_count : Z;
  last_retrieved_at : option Z;
  usefulness_score : Z;
  updated_at : Z;
  lifecycle_revision : Z;
}.

Record Session := {
  s_org_id : UUID;
  s_agent_id : UUID;
  s_status : string;
  s_deleted_at : option Z;
  s_revision : Z;
}.

Record Organization := { o_status : string; o_deleted_at : option Z }.

Record OutboxEvent := { ob_org_id : UUID; ob_memory_id : UUID; ob_revision : Z; ob_type : string; ob_at : Z }.

Definition ob_key (e : OutboxEvent) : UUID * UUID * Z := (ob_org_id e, ob_memory_id e, ob_revision e).

Record Relationship := { r_source : UUID; r_target : UUID; r_type : string; r_org_id : UUID; r_confidence : Z }.

Record Escalation := {
  e_org_id : UUID;
  e_new_memory_id : UUID;
  e_candidate_id : UUID;
  e_type : string;
  e_subject_key : option pystr;
  e_reason : option string;
}.

Record DB := {
  organizations : gmap UUID Organization;
  agents : gset (UUID * UUID);
  sessions : gmap UUID Session;
  memories : gmap UUID Memory;
  labels : gmap (UUID * string) Z;
  relationships : list Relationship;
  escalations : list Escalation;
  outbox : list OutboxEvent;
}.

Definition with_sessions (x : gmap UUID Session) (d : DB) : DB :=
  {| organizations := organizations d; agents := agents d; sessions := x; memories := memories d;
     labels := labels d; relationships := relationships d; escalations := escalations d; outbox := outbox d |}.
Definition with_memories (x : gmap UUID Memory) (d : DB) : DB :=
  {| organizations := organizations d; agents := agents d; sessions := sessions d; memories := x;
     labels := labels d; relationships := relationships d; escalations := escalations d; outbox := outbox d |}.
Definition with_labels (x : gmap (UUID * string) Z) (d : DB) : DB :=
  {| organizations := organizations d; agents := agents d; sessions := sessions d; memories := memories d;
     labels := x; relationships := relationships d; escalations := escalations d; outbox := outbox d |}.
Definition with_relationships (x : list Relationship) (d : DB) : DB :=
  {| organizations := organizations d; agents := agents d; sessions := sessions d; memories := memories d;
     labels := labels d; relationships := x; escalations := escalations d; outbox := outbox d |}.
Definition with_escalations (x : list Escalation) (d : DB) : DB :=
  {| organizations := organizations d; agents := agents d; sessions := sessions d; memories := memories d;
     labels := labels d; relationships := relationships d; escalations := x; outbox := outbox d |}.
Definition with_outbox (x : list OutboxEvent) (d : DB) : DB :=
  {| organizations := organizations d; agents := agents d; sessions := sessions d; memories := memories d;
     labels := labels d; relationships := relationships d; escalations := escalations d; outbox := x |}.

(** ** Exceptions and transactions *)

Inductive Error :=
| StaleLifecycleError (message : string)
| StaleMemoryRevisionError
| MemoryOrganizationUnavailableError
| MemoryNotFoundError
| DuplicateMemoryError (existing : UUID)
| ValidationError (message field field_code : string)
| RuntimeError (message : string)
| LookupError
| ValueError (message : string)
| IntegrityError (constraint : string)
| DatabaseError (message : string).

#[global] Instance Error_eq_dec : EqDecision Error.
Proof. solve_decision. Defined.

(** A body run inside a transaction. *)
Definition T (A : Type) : Type := DB -> result Error (A * DB).

Definition tret {A} (a : A) : T A := fun d => Ok (a, d).
Definition traise {A} (e : Error) : T A := fun _ => Raise e.
Definition tbind {A B} (m : T A) (k : A -> T B) : T B :=
  fun d => match m d with Ok (a, d) => k a d | Raise e => Raise e end.
Definition tget {A} (f : DB -> A) : T A := fun d => Ok (f d, d).
Definition tguard (b : bool) (e : Error) : T unit := fun d => if b then Ok (tt, d) else Raise e.

Declare Scope tx_scope.
Delimit Scope tx_scope with tx.
Notation "x '<~' m ';;' k" := (tbind m (fun x => k))
  (at level 100, m at level 99, k at level 200, only parsing) : tx_scope.
Notation "m ';;' k" := (tbind m (fun _ => k)) (at level 100, k at level 200, right associativity) : tx_scope.
#[local] Open Scope tx_scope.

(** [for x in l: body(x)] *)
Fixpoint tfor {A} (l : list A) (body : A -> T unit) : T unit :=
  match l with
  | [] => tret tt
  | x :: l => body x ;; tfor l body
  end.

(** [async with factory() as session, session.begin(): ...] *)
Definition transaction {A} (body : T A) (d : DB) : result Error A * DB :=
  match body d with
  | Ok (a, d') => (Ok a, d')
  | Raise e => (Raise e, d)
  end.

(** ** Triggers and constraints *)

Definition MEMORY_STATUSES : list string :=
  ["active"; "superseded"; "merged_into"; "archived"; "quarantined"; "deleted"]%string.
Definition VALID_LABELS : list string := ["factual"; "preference"; "behavioral"; "episodic"; "procedural"]%string.
Definition SOURCES : list string := ["extracted"; "user_provided"; "imported"; "inferred"]%string.

Definition mem (s : string) (l : list string) : bool := existsb (String.eqb s) l.

(** [octet_length(content)]; a text that is no UTF-8 is refused by the driver. *)
Definition octet_length (s : pystr) : Z := match utf8_encode s with Some b => Z.of_nat (length b) | None => 0 end.

(** [ibex_core.bump_memory_lifecycle_revision] *)
Definition bump_memory_lifecycle_revision (old new : Memory) : result Error Memory :=
  if tombstoned (life old) && negb (tombstoned (life new))
  then Raise (DatabaseError "memory tombstone is terminal")
  else Ok {| life := life new; session_id := session_id new; embedding := embedding new;
             retrieval_count := retrieval_count new; last_retrieved_at := last_retrieved_at new;
             usefulness_score := usefulness_score new; updated_at := updated_at new;
             lifecycle_revision := if bool_decide (life new = life old) then lifecycle_revision old
                                   else lifecycle_revision old + 1 |}.

(** [ibex_core.bump_session_lifecycle_revision] *)
Definition bump_session_lifecycle_revision (old new : Session) : Session :=
  {| s_org_id := s_org_id new; s_agent_id := s_agent_id new; s_status := s_status new;
     s_deleted_at := s_deleted_at new;
     s_revision := if bool_decide (s_status new = s_status old /\ s_deleted_at new = s_deleted_at old /\
                                   s_org_id new = s_org_id old /\ s_agent_id new = s_agent_id old /\
                                   s_revision new = s_revision old)
                   then s_revision old else s_revision old + 1 |}.

(** The row is seen by the partial unique index of active hashes. *)
Definition hash_indexed (m : Memory) : bool :=
  String.eqb (status (life m)) "active" && bool_decide (deleted_at (life m) = None).

Definition same_hash (m m' : Memory) : bool :=
  String.eqb (org_id (life m)) (org_id (life m')) && String.eqb (agent_id (life m)) (agent_id (life m'))
  && String.eqb (content_hash (life m)) (content_hash (life m')).

(** A foreign key to [memories (id, org_id)]; a NULL id is not checked. *)
Definition memory_ref (t : gmap UUID Memory) (i : option UUID) (org : UUID) : bool :=
  match i with
  | None => true
  | Some i => match t !! i with Some m => String.eqb (org_id (life m)) org | None => false end
  end.

Definition session_ref (t : gmap UUID Session) (i : option UUID) (org : UUID) : bool :=
  match i with
  | None => true
  | Some i => match t !! i with Some s => String.eqb (s_org_id s) org | None => false end
  end.

(** The constraint row [m] with id [i] violates in the table [t], if any. *)
Definition violation (d : DB) (t : gmap UUID Memory) (i : UUID) (m : Memory) : option string :=
  let l := life m in
  if negb (mem (category l) VALID_LABELS) then Some "memories_category_check"%string
  else if negb ((0 <=? confidence l) && (confidence l <=? 100)) then Some "memories_confidence_range_chk"%string
  else if String.eqb (content_hash l) "" then Some "memories_content_hash_not_empty"%string
  else if 10000 <? octet_length (content l) then Some "memories_content_max"%string
  else if bool_decide (content l = []) then Some "memories_content_not_empty"%string
  else if content_tokens l <? 0 then Some "memories_content_tokens_nonneg"%string
  else if negb (mem (source l) SOURCES) then Some "memories_source_chk"%string
  else if negb (mem (status l) MEMORY_STATUSES) then Some "memories_status_check"%string
  else if match valid_until l with Some u => u <=? valid_from l | None => false end
       then Some "memories_valid_interval_chk"%string
  else if hash_indexed m && existsb (fun kv => negb (String.eqb kv.1 i) && hash_indexed kv.2 && same_hash m kv.2)
                                    (map_to_list t)
       then Some "idx_memories_org_agent_content_hash_active"%string
  else if negb (bool_decide ((agent_id l, org_id l) ∈ agents d)) then Some "memories_agent_org_fk"%string
  else if negb (session_ref (sessions d) (session_id m) (org_id l)) then Some "memories_session_org_fk"%string
  else if negb (memory_ref t (superseded_by l) (org_id l)) then Some "memories_superseded_by_org_fk"%string
  else if negb (memory_ref t (merged_into l) (org_id l)) then Some "memories_merged_into_org_fk"%string
  else None.

Definition store_memory (i : UUID) (m : Memory) : T Memory := fun d =>
  let t := <[i := m]> (memories d) in
  match violation d t i m with
  | Some c => Raise (IntegrityError c)
  | None => Ok (m, with_memories t d)
  end.

(** [UPDATE ibex_core.memories SET f WHERE id = i AND cond RETURNING ...]: the
    updated row, if one matched. *)
Definition update_memory (i : UUID) (cond : Memory -> bool) (f : Memory -> Memory) : T (option Memory) := fun d =>
  match memories d !! i with
  | Some m =>
      if cond m then
        match bump_memory_lifecycle_revision m (f m) with
        | Ok m' => match store_memory i m' d with Ok (m', d) => Ok (Some m', d) | Raise e => Raise e end
        | Raise e => Raise e
        end
      else Ok (None, d)
  | None => Ok (None, d)
  end.

(** ** Lifecycle ([lifecycle.py]) *)

(** The database's transaction time and Python's clock. *)
Record Clock := { now : Z; py_now : Z }.

Record ExtractionSessionFence := {
  f_org_id : UUID;
  f_agent_id : UUID;
  f_session_id : option UUID;
  f_expected_revision : option Z;
}.

Record ForgetMemory := {
  fg_org_id : UUID;
  fg_agent_id : UUID;
  fg_memory_id : UUID;
  fg_expected_revision : Z;
}.

Definition EVENT_TYPES : list string :=
  ["created"; "quarantined"; "content_updated"; "superseded"; "forgotten"; "expired"; "purged"]%string.

Definition lock_organization_for_memory_write (org : UUID) : T unit :=
  row <~ tget (fun d => organizations d !! org) ;;
  match row with
  | None => traise MemoryOrganizationUnavailableError
  | Some o => tguard (negb (String.eqb (o_status o) "cancelled") && bool_decide (o_deleted_at o = None))
                     MemoryOrganizationUnavailableError
  end.

(** [_validate_session_fence_revision]: the session to verify, if there is one. *)
Definition validate_session_fence_revision (f : ExtractionSessionFence) : result Error (option UUID) :=
  match f_session_id f with
  | None => match f_expected_revision f with
            | Some _ => Raise (StaleLifecycleError "session revision supplied without session_id")
            | None => Ok None
            end
  | Some i => match f_expected_revision f with
              | None => Raise (StaleLifecycleError "expected session lifecycle revision is required")
              | Some r => if r <? 1
                          then Raise (StaleLifecycleError "expected session lifecycle revision is required")
                          else Ok (Some i)
              end
  end.

Definition matches_session_fence (row : option Session) (f : ExtractionSessionFence) : bool :=
  match row with
  | None => false
  | Some s =>
      if negb (String.eqb (s_agent_id s) (f_agent_id f)) then false
      else if negb (String.eqb (s_status s) "completed") || negb (bool_decide (s_deleted_at s = None))
      then false
      else bool_decide (Some (s_revision s) = f_expected_revision f)
  end.

(** [SELECT ... FROM sessions WHERE id AND org_id] *)
Definition select_session (i org : UUID) (d : DB) : option Session :=
  match sessions d !! i with
  | Some s => if String.eqb (s_org_id s) org then Some s else None
  | None => None
  end.

Definition require_extraction_session (f : ExtractionSessionFence) : T unit :=
  match validate_session_fence_revision f with
  | Raise e => traise e
  | Ok None => tret tt
  | Ok (Some i) =>
      row <~ tget (select_session i (f_org_id f)) ;;
      tguard (matches_session_fence row f)
             (StaleLifecycleError "source session lifecycle revision is stale or ineligible")
  end.

Definition enqueue_memory_lifecycle_event (c : Clock) (org memory : UUID) (revision : Z) (type : string)
    : T unit :=
  tguard (1 <=? revision) (ValueError "memory lifecycle revision must be positive") ;;
  tguard (mem type EVENT_TYPES) (ValueError "unsupported memory lifecycle event type") ;;
  fun d =>
    let e := {| ob_org_id := org; ob_memory_id := memory; ob_revision := revision; ob_type := type;
                ob_at := py_now c |} in
    if bool_decide (ob_key e ∈ (ob_key <$> outbox d))
    then Raise (IntegrityError "memory_lifecycle_outbox_org_id_memory_id_revision_key")
    else Ok (tt, with_outbox (outbox d ++ [e]) d).

(** [WHERE id = :memory_id AND org_id = :org_id AND agent_id = :agent_id] *)
Definition in_scope (org agent : UUID) (m : Memory) : bool :=
  String.eqb (org_id (life m)) org && String.eqb (agent_id (life m)) agent.

Definition select_memory (i org agent : UUID) (d : DB) : option Memory :=
  match memories d !! i with
  | Some m => if in_scope org agent m then Some m else None
  | None => None
  end.

(** [_resolve_source_session]: the memory's session, if it is the agent's. *)
Definition resolve_source_session (q : ForgetMemory) (d : DB) : option UUID :=
  match select_memory (fg_memory_id q) (fg_org_id q) (fg_agent_id q) d with
  | Some m =>
      match session_id m with
      | Some i => match select_session i (fg_org_id q) d with
                  | Some s => if String.eqb (s_agent_id s) (fg_agent_id q) then Some i else None
                  | None => None
                  end
      | None => None
      end
  | None => None
  end.

Definition require_forget_target (q : ForgetMemory) : T unit :=
  row <~ tget (select_memory (fg_memory_id q) (fg_org_id q) (fg_agent_id q)) ;;
  match row with
  | None => traise MemoryNotFoundError
  | Some m => tguard (negb (tombstoned (life m)) && (lifecycle_revision m =? fg_expected_revision q))
                     (StaleLifecycleError "memory lifecycle revision is stale")
  end.

(** The [SET] clause of [_TOMBSTONE_SQL]. *)
Definition tombstone (t : Z) (m : Memory) : Memory :=
  let l := life m in
  {| life := {| org_id := org_id l; agent_id := agent_id l; content := content l;
                content_hash := content_hash l; content_tokens := content_tokens l; category := category l;
                status := "deleted"; deleted_at := Some (default t (deleted_at l));
                valid_from := valid_from l; valid_until := valid_until l; confidence := confidence l;
                source := source l; superseded_by := superseded_by l; merged_into := merged_into l;
                metadata := metadata l; expires_at := expires_at l; pii_detected := pii_detected l;
                pii_redacted := pii_redacted l; tombstoned := true |};
     session_id := session_id m; embedding := None; retrieval_count := retrieval_count m;
     last_retrieved_at := last_retrieved_at m; usefulness_score := usefulness_score m; updated_at := t;
     lifecycle_revision := lifecycle_revision m |}.

Definition tombstone_memory (c : Clock) (q : ForgetMemory) : T Z :=
  updated <~ update_memory (fg_memory_id q)
    (fun m => in_scope (fg_org_id q) (fg_agent_id q) m && (lifecycle_revision m =? fg_expected_revision q)
              && negb (tombstoned (life m)))
    (tombstone (now c)) ;;
  match updated with
  | None => traise (StaleLifecycleError "memory lifecycle revision changed during forget")
  | Some m => tret (lifecycle_revision m)
  end.

(** [UPDATE ibex_core.sessions ...] through its triggers. *)
Definition update_session (i : UUID) (f : Session -> Session) (d : DB) : DB :=
  match sessions d !! i with
  | Some s => with_sessions (<[i := bump_session_lifecycle_revision s (f s)]> (sessions d)) d
  | None => d
  end.

Definition advance_source_session_revision (q : ForgetMemory) (i : UUID) : T unit := fun d =>
  match sessions d !! i with
  | Some s =>
      if String.eqb (s_org_id s) (fg_org_id q) && String.eqb (s_agent_id s) (fg_agent_id q)
      then Ok (tt, update_session i (fun s => {| s_org_id := s_org_id s; s_agent_id := s_agent_id s;
                                                 s_status := s_status s; s_deleted_at := s_deleted_at s;
                                                 s_revision := s_revision s + 1 |}) d)
      else Ok (tt, d)
  | None => Ok (tt, d)
  end.

Definition forget_memory_session (c : Clock) (q : ForgetMemory) : T Z :=
  tguard (1 <=? fg_expected_revision q)
         (StaleLifecycleError "expected memory lifecycle revision must be positive") ;;
  lock_organization_for_memory_write (fg_org_id q) ;;
  source_session <~ tget (resolve_source_session q) ;;
  require_forget_target q ;;
  new_revision <~ tombstone_memory c q ;;
  match source_session with
  | Some i => advance_source_session_revision q i
  | None => tret tt
  end ;;
  enqueue_memory_lifecycle_event c (fg_org_id q) (fg_memory_id q) new_revision "forgotten" ;;
  tret new_revision.

(** ** Supersession ([conflict/persist.py]) *)

Record SupersedeApply := {
  sa_org_id : UUID;
  sa_agent_id : UUID;
  sa_new_memory_id : UUID;
  sa_target_id : UUID;
  sa_expected_revision : Z;
  sa_confidence : Z;
  sa_closed_at : option Z;
}.

(** Live and active, as the statements that load or change memories ask. *)
Definition live_active (m : Memory) : bool := hash_indexed m && negb (tombstoned (life m)).

Definition supersede (new_id : UUID) (closed_at t : Z) (m : Memory) : Memory :=
  let l := life m in
  {| life := {| org_id := org_id l; agent_id := agent_id l; content := content l;
                content_hash := content_hash l; content_tokens := content_tokens l; category := category l;
                status := "superseded"; deleted_at := deleted_at l; valid_from := valid_from l;
                valid_until := Some (Z.min (default closed_at (valid_until l)) closed_at);
                confidence := confidence l; source := source l; superseded_by := Some new_id;
                merged_into := merged_into l; metadata := metadata l; expires_at := expires_at l;
                pii_detected := pii_detected l; pii_redacted := pii_redacted l;
                tombstoned := tombstoned l |};
     session_id := session_id m; embedding := embedding m; retrieval_count := retrieval_count m;
     last_retrieved_at := last_retrieved_at m; usefulness_score := usefulness_score m; updated_at := t;
     lifecycle_revision := lifecycle_revision m |}.

(** [INSERT INTO memory_relationships ... ON CONFLICT DO NOTHING] *)
Definition insert_relationship (r : Relationship) : T unit := fun d =>
  if String.eqb (r_source r) (r_target r)
  then Raise (IntegrityError "memory_relationships_no_self_loop_chk")
  else if existsb (fun r' => String.eqb (r_source r') (r_source r) && String.eqb (r_target r') (r_target r)
                             && String.eqb (r_type r') (r_type r)) (relationships d)
  then Ok (tt, d)
  else if negb (memory_ref (memories d) (Some (r_source r)) (r_org_id r))
  then Raise (IntegrityError "memory_relationships_source_org_fk")
  else if negb (memory_ref (memories d) (Some (r_target r)) (r_org_id r))
  then Raise (IntegrityError "memory_relationships_target_org_fk")
  else Ok (tt, with_relationships (relationships d ++ [r]) d).

Definition apply_supersession_session (c : Clock) (a : SupersedeApply) : T unit :=
  let closed_at := default (py_now c) (sa_closed_at a) in
  lock_organization_for_memory_write (sa_org_id a) ;;
  updated <~ update_memory (sa_target_id a)
    (fun m => in_scope (sa_org_id a) (sa_agent_id a) m && live_active m
              && (lifecycle_revision m =? sa_expected_revision a))
    (supersede (sa_new_memory_id a) closed_at (now c)) ;;
  match updated with
  | None => traise StaleMemoryRevisionError
  | Some m =>
      insert_relationship {| r_source := sa_new_memory_id a; r_target := sa_target_id a;
                             r_type := "supersedes"; r_org_id := sa_org_id a;
                             r_confidence := sa_confidence a |} ;;
      enqueue_memory_lifecycle_event c (sa_org_id a) (sa_target_id a) (lifecycle_revision m) "superseded"
  end.

(** ** PII flags ([pii/persist.py]) *)

Record MemoryPiiUpdate := {
  pu_org_id : UUID;
  pu_memory_id : UUID;
  pu_content : pystr;
  pu_status : string;
  pu_detected : bool;
  pu_redacted : bool;
  pu_expected_revision : Z;
}.

Definition set_pii (u : MemoryPiiUpdate) (t : Z) (m : Memory) : Memory :=
  let l := life m in
  {| life := {| org_id := org_id l; agent_id := agent_id l; content := pu_content u;
                content_hash := content_hash l; content_tokens := content_tokens l; category := category l;
                status := pu_status u; deleted_at := deleted_at l; valid_from := valid_from l;
                valid_until := valid_until l; confidence := confidence l; source := source l;
                superseded_by := superseded_by l; merged_into := merged_into l; metadata := metadata l;
                expires_at := expires_at l; pii_detected := pu_detected u; pii_redacted := pu_redacted u;
                tombstoned := tombstoned l |};
     session_id := session_id m; embedding := embedding m; retrieval_count := retrieval_count m;
     last_retrieved_at := last_retrieved_at m; usefulness_score := usefulness_score m; updated_at := t;
     lifecycle_revision := lifecycle_revision m |}.

Definition update_memory_pii_flags (c : Clock) (u : MemoryPiiUpdate) : T unit :=
  lock_organization_for_memory_write (pu_org_id u) ;;
  updated <~ update_memory (pu_memory_id u)
    (fun m => String.eqb (org_id (life m)) (pu_org_id u) && bool_decide (deleted_at (life m) = None)
              && negb (tombstoned (life m)) && (lifecycle_revision m =? pu_expected_revision u))
    (set_pii u (now c)) ;;
  match updated with
  | None => traise StaleMemoryRevisionError
  | Some m =>
      if lifecycle_revision m =? pu_expected_revision u then tret tt
      else enqueue_memory_lifecycle_event c (pu_org_id u) (pu_memory_id u) (lifecycle_revision m)
             (if String.eqb (pu_status u) "quarantined" then "quarantined" else "content_updated")
  end.

(** ** Embeddings ([vectorstore/pgvector_store.py]) *)

Definition set_embedding (e : option (string * Z)) (t : Z) (m : Memory) : Memory :=
  {| life := life m; session_id := session_id m; embedding := e; retrieval_count := retrieval_count m;
     last_retrieved_at := last_retrieved_at m; usefulness_score := usefulness_score m; updated_at := t;
     lifecycle_revision := lifecycle_revision m |}.

(** The condition of [upsert] and [delete]: a live row at the expected revision. *)
Definition at_revision (org : UUID) (r : Z) (m : Memory) : bool :=
  String.eqb (org_id (life m)) org && bool_decide (deleted_at (life m) = None) && negb (tombstoned (life m))
  && negb (String.eqb (status (life m)) "deleted") && (lifecycle_revision m =? r).

(** [PgVectorStore.upsert] and [delete] after validation; [None] clears. *)
Definition write_embedding (c : Clock) (org i : UUID) (e : option (string * Z)) (r : Z) : T unit :=
  row <~ update_memory i (at_revision org r) (set_embedding e (now c)) ;;
  match row with None => traise LookupError | Some _ => tret tt end.

(** ** The write transaction ([write/persist.py], [write/orchestrator.py]) *)

Section Write.
Context `{UnicodeDB}.

(** [len(content.split())] *)
Fixpoint word_count_loop (in_word : bool) (s : pystr) : Z :=
  match s with
  | [] => 0
  | c :: s => if is_space c then word_count_loop false s
              else (if in_word then 0 else 1) + word_count_loop true s
  end.

Definition content_token_count (s : pystr) : Z := Z.max 1 (word_count_loop false s).

Record CreateMemoryCommand := {
  cm_org_id : UUID;
  cm_agent_id : UUID;
  cm_confidence : Z;
  cm_session_id : option UUID;
  cm_metadata : string;
  cm_valid_from : option Z;
  cm_valid_until : option Z;
  cm_expires_at : option Z;
  cm_expected_session_revision : option Z;
  (** At least the category's own label. *)
  cm_label : string * Z;
  cm_more_labels : list (string * Z);
}.

Inductive ConflictOutcome :=
| SUPERSEDES | CONTRADICTS | NEAR_DUPLICATE | UNRELATED | NO_CONFLICT | ESCALATE_PENDING.

#[global] Instance ConflictOutcome_eq_dec : EqDecision ConflictOutcome.
Proof. solve_decision. Defined.

Record ConflictDecision := {
  cd_candidate_id : UUID;
  cd_outcome : ConflictOutcome;
  cd_llm_call_made : bool;
  cd_subject_key : pystr;
  cd_notes : string;
}.

(** What the pipeline hands to the persistence steps. *)
Record WriteContext := {
  wc_content : pystr;
  wc_status : string;
  wc_pii_detected : bool;
  wc_pii_redacted : bool;
  wc_content_hash : option string;
  wc_valid_from : option Z;
  wc_valid_until : option Z;
  wc_decisions : list ConflictDecision;
  wc_supersede_targets : list UUID;
  wc_supersede_revisions : gmap UUID Z;
  wc_exact_duplicate : option (option UUID);
  wc_error : option string;
}.

(** [content_hash_sha256]: SHA-256 of the normalised text. *)
Context (content_hash_sha256 : pystr -> string).

Definition cm_labels (cmd : CreateMemoryCommand) : list (string * Z) := cm_label cmd :: cm_more_labels cmd.

Definition memory_of (cmd : CreateMemoryCommand) (ctx : WriteContext) (c : Clock) : Memory :=
  {| life := {| org_id := cm_org_id cmd; agent_id := cm_agent_id cmd; content := wc_content ctx;
                content_hash := match wc_content_hash ctx with
                                | Some h => if String.eqb h "" then content_hash_sha256 (wc_content ctx) else h
                                | None => content_hash_sha256 (wc_content ctx)
                                end;
                content_tokens := content_token_count (wc_content ctx);
                category := (cm_label cmd).1; status := wc_status ctx; deleted_at := None;
                valid_from := default (default (py_now c) (wc_valid_from ctx)) (cm_valid_from cmd);
                valid_until := match cm_valid_until cmd with Some u => Some u | None => wc_valid_until ctx end;
                confidence := cm_confidence cmd; source := "user_provided"; superseded_by := None;
                merged_into := None; metadata := cm_metadata cmd; expires_at := cm_expires_at cmd;
                pii_detected := wc_pii_detected ctx; pii_redacted := wc_pii_redacted ctx;
                tombstoned := false |};
     session_id := cm_session_id cmd; embedding := None; retrieval_count := 0; last_retrieved_at := None;
     usefulness_score := 50; updated_at := now c; lifecycle_revision := 1 |}.

(** [insert_memory_session]; [i] is the id the database draws. *)
Definition insert_memory_session (c : Clock) (i : UUID) (cmd : CreateMemoryCommand) (ctx : WriteContext)
    : T unit := fun d =>
  match memories d !! i with
  | Some _ => Raise (IntegrityError "memories_pkey")
  | None => match store_memory i (memory_of cmd ctx c) d with
            | Ok (_, d) => Ok (tt, d)
            | Raise e => Raise e
            end
  end.

(** [ORDER BY ml.confidence DESC, ml.label ASC LIMIT 1] *)
Definition primary_label (i : UUID) (t : gmap (UUID * string) Z) : option string :=
  let mine := List.filter (fun kv => String.eqb kv.1.1 i) (map_to_list t) in
  snd <$> head (py_sorted (pair_ltb Z.eqb Z.ltb str_ltb) ((fun kv => (- kv.2, kv.1.2)) <$> mine)).

Definition set_category (l : string) (m : Memory) : Memory :=
  let v := life m in
  {| life := {| org_id := org_id v; agent_id := agent_id v; content := content v;
                content_hash := content_hash v; content_tokens := content_tokens v; category := l;
                status := status v; deleted_at := deleted_at v; valid_from := valid_from v;
                valid_until := valid_until v; confidence := confidence v; source := source v;
                superseded_by := superseded_by v; merged_into := merged_into v; metadata := metadata v;
                expires_at := expires_at v; pii_detected := pii_detected v; pii_redacted := pii_redacted v;
                tombstoned := tombstoned v |};
     session_id := session_id m; embedding := embedding m; retrieval_count := retrieval_count m;
     last_retrieved_at := last_retrieved_at m; usefulness_score := usefulness_score m;
     updated_at := updated_at m; lifecycle_revision := lifecycle_revision m |}.

(** [ibex_core.sync_memory_primary_category] *)
Definition sync_memory_primary_category (i org : UUID) : T unit :=
  label <~ tget (fun d => primary_label i (labels d)) ;;
  match label with
  | None => tret tt
  | Some l =>
      update_memory i (fun m => String.eqb (org_id (life m)) org && negb (String.eqb (category (life m)) l))
        (set_category l) ;;
      tret tt
  end.

(** One [INSERT INTO memory_labels] with its trigger. *)
Definition insert_label (org i : UUID) (lc : string * Z) : T unit :=
  (fun d =>
     if negb (mem lc.1 VALID_LABELS) then Raise (IntegrityError "memory_labels_label_check")
     else if negb ((0 <=? lc.2) && (lc.2 <=? 100)) then Raise (IntegrityError "memory_labels_confidence_check")
     else match labels d !! (i, lc.1) with
          | Some _ => Raise (IntegrityError "memory_labels_pkey")
          | None =>
              if negb (memory_ref (memories d) (Some i) org)
              then Raise (IntegrityError "memory_labels_memory_org_fk")
              else Ok (tt, with_labels (<[(i, lc.1) := lc.2]> (labels d)) d)
          end) ;;
  sync_memory_primary_category i org.

Definition insert_labels_session (org i : UUID) (ls : list (string * Z)) : T unit := tfor ls (insert_label org i).

(** [_raise_duplicate_label_error] around the label inserts. *)
Definition insert_labels_checked (org i : UUID) (ls : list (string * Z)) : T unit := fun d =>
  match insert_labels_session org i ls d with
  | Raise (IntegrityError k) =>
      if String.eqb k "memory_labels_pkey"
      then Raise (ValidationError "Duplicate label in request" "labels" "duplicate_label")
      else Raise (IntegrityError k)
  | r => r
  end.

Definition escalations_from_decisions (org i : UUID) (ds : list ConflictDecision) : list Escalation :=
  (fun d => {| e_org_id := org; e_new_memory_id := i; e_candidate_id := cd_candidate_id d;
               e_type := "escalate_pending"; e_subject_key := Some (cd_subject_key d);
               e_reason := if String.eqb (cd_notes d) "" then None else Some (cd_notes d) |})
  <$> List.filter (fun d => bool_decide (cd_outcome d = ESCALATE_PENDING)) ds.

Definition insert_escalation (e : Escalation) : T unit := fun d =>
  if String.eqb (e_new_memory_id e) (e_candidate_id e)
  then Raise (IntegrityError "memory_conflict_escalations_distinct_memories_chk")
  else if negb (memory_ref (memories d) (Some (e_new_memory_id e)) (e_org_id e))
  then Raise (IntegrityError "memory_conflict_escalations_new_memory_org_fk")
  else if negb (memory_ref (memories d) (Some (e_candidate_id e)) (e_org_id e))
  then Raise (IntegrityError "memory_conflict_escalations_candidate_org_fk")
  else Ok (tt, with_escalations (escalations d ++ [e]) d).

Definition apply_supersession_and_escalations (c : Clock) (cmd : CreateMemoryCommand) (i : UUID)
    (ctx : WriteContext) : T unit :=
  tfor (wc_supersede_targets ctx) (fun target =>
    match wc_supersede_revisions ctx !! target with
    | None => traise StaleMemoryRevisionError
    | Some r => apply_supersession_session c
                  {| sa_org_id := cm_org_id cmd; sa_agent_id := cm_agent_id cmd; sa_new_memory_id := i;
                     sa_target_id := target; sa_expected_revision := r; sa_confidence := 90;
                     sa_closed_at := None |}
    end) ;;
  tfor (escalations_from_decisions (cm_org_id cmd) i (wc_decisions ctx)) insert_escalation.

(** [reload_memory_session]; [.one()] raises when the row is gone. *)
Definition reload_memory_session (org i : UUID) : T Memory :=
  row <~ tget (fun d => memories d !! i) ;;
  match row with
  | Some m => if String.eqb (org_id (life m)) org then tret m else traise (RuntimeError "NoResultFound")
  | None => traise (RuntimeError "NoResultFound")
  end.

Definition session_fence (cmd : CreateMemoryCommand) : ExtractionSessionFence :=
  {| f_org_id := cm_org_id cmd; f_agent_id := cm_agent_id cmd; f_session_id := cm_session_id cmd;
     f_expected_revision := cm_expected_session_revision cmd |}.

Definition persist_quarantine (c : Clock) (i : UUID) (cmd : CreateMemoryCommand) (ctx : WriteContext) : T Memory :=
  lock_organization_for_memory_write (cm_org_id cmd) ;;
  require_extraction_session (session_fence cmd) ;;
  insert_memory_session c i cmd ctx ;;
  insert_labels_session (cm_org_id cmd) i (cm_labels cmd) ;;
  memory <~ reload_memory_session (cm_org_id cmd) i ;;
  enqueue_memory_lifecycle_event c (cm_org_id cmd) i (lifecycle_revision memory) "quarantined" ;;
  tret memory.

Definition insert_active_memory_tx (c : Clock) (i : UUID) (cmd : CreateMemoryCommand) (ctx : WriteContext)
    : T Memory :=
  lock_organization_for_memory_write (cm_org_id cmd) ;;
  require_extraction_session (session_fence cmd) ;;
  insert_memory_session c i cmd ctx ;;
  insert_labels_checked (cm_org_id cmd) i (cm_labels cmd) ;;
  apply_supersession_and_escalations c cmd i ctx ;;
  memory <~ reload_memory_session (cm_org_id cmd) i ;;
  enqueue_memory_lifecycle_event c (cm_org_id cmd) i (lifecycle_revision memory) "created" ;;
  tret memory.

(** [find_active_by_content_hash] *)
Definition find_active_by_content_hash (org agent : UUID) (h : string) (d : DB) : option UUID :=
  fst <$> head (List.filter (fun kv => in_scope org agent kv.2 && String.eqb (content_hash (life kv.2)) h
                                       && live_active kv.2) (map_to_list (memories d))).

Definition bump_retrieval (t : Z) (m : Memory) : Memory :=
  {| life := life m; session_id := session_id m; embedding := embedding m;
     retrieval_count := retrieval_count m + 1; last_retrieved_at := Some t;
     usefulness_score := usefulness_score m; updated_at := t; lifecycle_revision := lifecycle_revision m |}.

Definition increment_retrieval_count_session (c : Clock) (org i : UUID) : T Z :=
  row <~ update_memory i (fun m => String.eqb (org_id (life m)) org && live_active m) (bump_retrieval (now c)) ;;
  match row with
  | None => traise (RuntimeError "retrieval_count bump expected 1 row")
  | Some m => tret (retrieval_count m)
  end.

(** [_handle_hash_race]; [other] is what other transactions do between its two
    transactions. *)
Definition bump_existing (c : Clock) (cmd : CreateMemoryCommand) (existing : UUID) : T UUID :=
  lock_organization_for_memory_write (cm_org_id cmd) ;;
  require_extraction_session (session_fence cmd) ;;
  increment_retrieval_count_session c (cm_org_id cmd) existing ;;
  tret existing.

Definition handle_hash_race (other : DB -> DB) (c : Clock) (cmd : CreateMemoryCommand) (h : string) (d : DB)
    : result Error UUID * DB :=
  match find_active_by_content_hash (cm_org_id cmd) (cm_agent_id cmd) h d with
  | None => (Raise (RuntimeError "unique violation without existing active memory"), d)
  | Some existing => transaction (bump_existing c cmd existing) (other d)
  end.

(** [_insert_active_memory]; [others] act after the rollback and between the
    two transactions of the race handler. *)
Definition insert_active_memory (others : (DB -> DB) * (DB -> DB)) (c : Clock) (i : UUID)
    (cmd : CreateMemoryCommand) (ctx : WriteContext) (d : DB) : result Error Memory * DB :=
  match wc_content_hash ctx with
  | None => (Raise (RuntimeError "content_hash required for active persist"), d)
  | Some h =>
      match transaction (insert_active_memory_tx c i cmd ctx) d with
      | (Raise (IntegrityError k), d) =>
          if String.eqb k "idx_memories_org_agent_content_hash_active" then
            match handle_hash_race others.2 c cmd h (others.1 d) with
            | (Ok existing, d) => (Raise (DuplicateMemoryError existing), d)
            | (Raise e, d) => (Raise e, d)
            end
          else (Raise (IntegrityError k), d)
      | r => r
      end
  end.

Definition validation_error (code : string) : Error :=
  if String.eqb code "content_empty" then ValidationError "Content must not be empty" "content" code
  else if String.eqb code "content_too_long" then ValidationError "Content exceeds maximum length" "content" code
  else if String.eqb code "agent_id_required" then ValidationError "agent_id is required" "agent_id" code
  else if String.eqb code "embedding_required" then ValidationError "Embedding is required" "" code
  else ValidationError "Invalid request" "" code.

(** [create] on the context its pipeline returned. *)
Definition create (others : (DB -> DB) * (DB -> DB)) (c : Clock) (i : UUID) (cmd : CreateMemoryCommand) (ctx : WriteContext) (d : DB)
    : result Error Memory * DB :=
  match wc_error ctx with
  | Some e => (Raise (validation_error e), d)
  | None =>
      match wc_exact_duplicate ctx with
      | Some None => (Raise (RuntimeError "exact duplicate without existing_memory_id"), d)
      | Some (Some existing) => (Raise (DuplicateMemoryError existing), d)
      | None =>
          if String.eqb (wc_status ctx) "quarantined" then transaction (persist_quarantine c i cmd ctx) d
          else insert_active_memory others c i cmd ctx d
      end
  end.
End Write.

(** ** How rows evolve *)

(** A later version of a row: revisions only grow, a tombstone stays, and one
    revision has one lifecycle state. *)
Record row_le (m m' : Memory) : Prop := {
  rl_revision : lifecycle_revision m <= lifecycle_revision m';
  rl_tombstone : tombstoned (life m) = true -> tombstoned (life m') = true;
  rl_same : lifecycle_revision m' = lifecycle_revision m -> life m' = life m;
}.

Record session_le (s s' : Session) : Prop := {
  sl_revision : s_revision s <= s_revision s';
  sl_same : s_revision s' = s_revision s -> s' = s;
}.

#[global] Instance row_le_preorder : PreOrder row_le.
Proof.
  split; [by split|]. intros m1 m2 m3 [H1 T1 S1] [H2 T2 S2]. split; [lia|by auto|].
  intros E. rewrite S2, S1; [done|lia|lia].
Qed.

#[global] Instance session_le_preorder : PreOrder session_le.
Proof.
  split; [by split|]. intros s1 s2 s3 [H1 S1] [H2 S2]. split; [lia|].
  intros E. rewrite S2, S1; [done|lia|]. lia.
Qed.

Record evolves (d d' : DB) : Prop := {
  ev_memories : forall i m, memories d !! i = Some m -> exists m', memories d' !! i = Some m' /\ row_le m m';
  ev_sessions : forall i s, sessions d !! i = Some s -> exists s', sessions d' !! i = Some s' /\ session_le s s';
}.

#[global] Instance evolves_preorder : PreOrder evolves.
Proof.
  split.
  - intros d. split; intros i x Hx; exists x; by split.
  - intros d1 d2 d3 [M1 S1] [M2 S2]. split; intros i x Hx.
    + destruct (M1 i x Hx) as (y & Hy & L1), (M2 i y Hy) as (z & Hz & L2). exists z. by split; [|etrans].
    + destruct (S1 i x Hx) as (y & Hy & L1), (S2 i y Hy) as (z & Hz & L2). exists z. by split; [|etrans].
Qed.

(** A transaction body that only lets rows evolve. *)
Definition steady {A} (t : T A) : Prop := forall d a d', t d = Ok (a, d') -> evolves d d'.

Create HintDb steady discriminated.

Lemma steady_ret {A} (a : A) : steady (tret a).
Proof. by intros d x d' [= _ ->]. Qed.

Lemma steady_raise {A} e : steady (@traise A e).
Proof. done. Qed.

Lemma steady_get {A} (f : DB -> A) : steady (tget f).
Proof. by intros d x d' [= _ ->]. Qed.

Lemma steady_guard b e : steady (tguard b e).
Proof. intros d x d'. unfold tguard. destruct b; [|done]. by intros [= _ ->]. Qed.

Lemma steady_bind {A B} (m : T A) (k : A -> T B) : steady m -> (forall a, steady (k a)) -> steady (tbind m k).
Proof.
  intros Hm Hk d b d'. unfold tbind. destruct (m d) as [[a d1]|] eqn:E; [|done]. intros H1.
  etrans; [by eapply Hm|by eapply Hk].
Qed.

Lemma steady_for {A} (l : list A) body : (forall x, steady (body x)) -> steady (tfor l body).
Proof. intros Hb. induction l as [|x l IH]; [apply steady_ret|]. by apply steady_bind. Qed.

Lemma evolves_same d d' : memories d' = memories d -> sessions d' = sessions d -> evolves d d'.
Proof. intros Hm Hs. split; intros i x Hx; exists x; by rewrite ?Hm, ?Hs. Qed.

Lemma evolves_insert d i m m' : memories d !! i = None \/ memories d !! i = Some m /\ row_le m m' ->
  evolves d (with_memories (<[i := m']> (memories d)) d).
Proof.
  intros Hi. split; cbn; intros j x Hx; [|by exists x].
  rewrite lookup_insert. case_decide as Hj; [subst j|by exists x].
  exists m'. split; [done|]. destruct Hi as [Hi|[Hi Hle]]; [congruence|].
  by rewrite Hi in Hx; simplify_eq.
Qed.

Lemma bump_memory_le old new m : bump_memory_lifecycle_revision old new = Ok m ->
  row_le old m /\ life m = life new /\
  lifecycle_revision m = (if bool_decide (life new = life old) then lifecycle_revision old
                          else lifecycle_revision old + 1).
Proof.
  unfold bump_memory_lifecycle_revision. destruct (tombstoned (life old) && _) eqn:Et; [done|].
  intros [= <-]. split; [|done]. split; cbn.
  - case_bool_decide; lia.
  - intros Ho. rewrite Ho in Et. by destruct (tombstoned (life new)).
  - case_bool_decide; [done|lia].
Qed.

Lemma bump_session_le old new : session_le old (bump_session_lifecycle_revision old new).
Proof.
  unfold bump_session_lifecycle_revision. case_bool_decide as Hs; split; cbn; try lia.
  intros _. destruct Hs as (? & ? & ? & ? & ?), old, new; cbn in *; congruence.
Qed.

(** What an [UPDATE] returned and did. *)
Lemma update_memory_Ok i cond f d r d' : update_memory i cond f d = Ok (r, d') ->
  match r with
  | None => d' = d /\ forall m, memories d !! i = Some m -> cond m = false
  | Some m' => exists m, memories d !! i = Some m /\ cond m = true /\
      bump_memory_lifecycle_revision m (f m) = Ok m' /\
      d' = with_memories (<[i := m']> (memories d)) d /\
      violation d (<[i := m']> (memories d)) i m' = None
  end.
Proof.
  unfold update_memory, store_memory. destruct (memories d !! i) as [m|] eqn:Em.
  - destruct (cond m) eqn:Hc.
    + destruct (bump_memory_lifecycle_revision m (f m)) as [m'|e] eqn:Eb; [|done].
      destruct (violation _ _ _ _) eqn:Ev; [done|]. intros [= <- <-]. by exists m.
    + intros [= <- <-]. split; [done|]. intros ? [= <-]. done.
  - intros [= <- <-]. done.
Qed.

Lemma steady_update i cond f : steady (update_memory i cond f).
Proof.
  intros d r d' H. apply update_memory_Ok in H. destruct r as [m'|]; [|by destruct H as [-> _]].
  destruct H as (m & Hm & _ & Hb & -> & _). eapply evolves_insert. right. split; [done|].
  by apply bump_memory_le in Hb as [? _].
Qed.

Lemma evolves_update_session i f d : evolves d (update_session i f d).
Proof.
  unfold update_session. destruct (sessions d !! i) as [s|] eqn:Es; [|done].
  split; cbn; intros j x Hx; [by exists x|]. rewrite lookup_insert.
  case_decide; [subst j|by exists x]. rewrite Es in Hx. simplify_eq.
  eexists. split; [done|]. apply bump_session_le.
Qed.

#[export] Hint Resolve @steady_ret @steady_raise @steady_get steady_guard steady_update : steady.
#[export] Hint Extern 2 (steady (tbind _ _)) => apply steady_bind; [|intros ?] : steady.
#[export] Hint Extern 2 (steady (tfor _ _)) => apply steady_for; intros ? : steady.
#[export] Hint Extern 3 (steady (match ?x with _ => _ end)) => destruct x : steady.

Ltac steadily := eauto 20 with steady.

Lemma steady_lock org : steady (lock_organization_for_memory_write org).
Proof. unfold lock_organization_for_memory_write. steadily. Qed.

Lemma steady_fence f : steady (require_extraction_session f).
Proof. unfold require_extraction_session. steadily. Qed.
#[export] Hint Resolve steady_lock steady_fence : steady.

Lemma steady_enqueue c org i r ty : steady (enqueue_memory_lifecycle_event c org i r ty).
Proof.
  unfold enqueue_memory_lifecycle_event. do 2 (apply steady_bind; [steadily|intros _]).
  intros d a d'. case_bool_decide; [done|]. intros [= _ <-]. by apply evolves_same.
Qed.

Lemma steady_relationship r : steady (insert_relationship r).
Proof.
  intros d a d'. unfold insert_relationship. repeat case_if; try done; intros [= _ <-]; [done|].
  by apply evolves_same.
Qed.

Lemma steady_advance q i : steady (advance_source_session_revision q i).
Proof.
  intros d a d'. unfold advance_source_session_revision. destruct (sessions d !! i); [|by intros [= _ <-]].
  case_if; intros [= _ <-]; [apply evolves_update_session|done].
Qed.
#[export] Hint Resolve steady_enqueue steady_relationship steady_advance : steady.

Lemma steady_forget c q : steady (forget_memory_session c q).
Proof. unfold forget_memory_session, require_forget_target, tombstone_memory. steadily. Qed.

Lemma steady_supersede c a : steady (apply_supersession_session c a).
Proof. unfold apply_supersession_session. steadily. Qed.

Lemma steady_pii c u : steady (update_memory_pii_flags c u).
Proof. unfold update_memory_pii_flags. steadily. Qed.
#[export] Hint Resolve steady_forget steady_supersede steady_pii : steady.

(** ** What a committed transaction did *)

Lemma tbind_Ok {A B} (m : T A) (k : A -> T B) d r :
  tbind m k d = Ok r <-> exists a d1, m d = Ok (a, d1) /\ k a d1 = Ok r.
Proof.
  unfold tbind. destruct (m d) as [[a d1]|e]; split; [by eauto| |done|naive_solver].
  by intros (a' & d' & [= -> ->] & ?).
Qed.

(** Break a committed body into its statements. *)
Ltac inv_tx :=
  repeat match goal with
  | H : tbind _ _ _ = Ok _ |- _ => apply tbind_Ok in H; destruct H as (? & ? & ? & H)
  | H : tret _ _ = Ok _ |- _ => injection H as H; subst
  | H : tret _ _ = Ok (_, _) |- _ => injection H as ? H; subst
  | H : traise _ _ = Ok _ |- _ => discriminate H
  | H : tget _ _ = Ok (_, _) |- _ => injection H as ? ?; subst
  | H : tguard ?b _ _ = Ok (_, _) |- _ =>
      unfold tguard in H; destruct b eqn:?; [injection H as ? ?; subst|discriminate H]
  end.

Lemma lock_Ok org d a d' : lock_organization_for_memory_write org d = Ok (a, d') -> d' = d.
Proof.
  unfold lock_organization_for_memory_write. intros H. inv_tx. destruct (organizations _ !! org); by inv_tx.
Qed.

Lemma enqueue_Ok c org i r ty d a d' : enqueue_memory_lifecycle_event c org i r ty d = Ok (a, d') ->
  let e := {| ob_org_id := org; ob_memory_id := i; ob_revision := r; ob_type := ty; ob_at := py_now c |} in
  ob_key e ∉ (ob_key <$> outbox d) /\ 1 <= r /\ d' = with_outbox (outbox d ++ [e]) d.
Proof.
  unfold enqueue_memory_lifecycle_event. intros H. inv_tx. case_bool_decide; [done|].
  injection H as _ <-. bools. done.
Qed.

Lemma advance_Ok q i d a d' s : advance_source_session_revision q i d = Ok (a, d') ->
  select_session i (fg_org_id q) d = Some s -> s_agent_id s = fg_agent_id q ->
  memories d' = memories d /\ outbox d' = outbox d /\
  exists s', sessions d' = <[i := s']> (sessions d) /\ s_revision s' = s_revision s + 1.
Proof.
  unfold advance_source_session_revision, select_session, update_session.
  destruct (sessions d !! i) as [s0|] eqn:Es; [|done].
  destruct (String.eqb (s_org_id s0) (fg_org_id q)) eqn:Eo; [|done]. intros H [= ->] Ha.
  rewrite (proj2 (String.eqb_eq _ _) Ha) in H. injection H as _ <-.
  cbn. split; [done|]. split; [done|]. eexists. split; [done|].
  unfold bump_session_lifecycle_revision. cbn. rewrite bool_decide_eq_false_2; [done|]. intros (? & ? & ? & ? & ?). lia.
Qed.

Lemma resolve_source_session_Some q d i : resolve_source_session q d = Some i ->
  exists s, select_session i (fg_org_id q) d = Some s /\ s_agent_id s = fg_agent_id q.
Proof.
  unfold resolve_source_session. intros H. repeat case_match; try done. simplify_eq. bools. by eauto.
Qed.

(** The effect of a committed forget. *)
Record forgotten (c : Clock) (q : ForgetMemory) (d : DB) (n : Z) (d' : DB) : Prop := {
  fo_before : exists m, memories d !! fg_memory_id q = Some m /\
    in_scope (fg_org_id q) (fg_agent_id q) m = true /\ tombstoned (life m) = false /\
    lifecycle_revision m = fg_expected_revision q;
  fo_revision : n = fg_expected_revision q + 1;
  fo_after : exists m', memories d' = <[fg_memory_id q := m']> (memories d) /\
    tombstoned (life m') = true /\ status (life m') = "deleted"%string /\ embedding m' = None /\
    lifecycle_revision m' = n;
  fo_event : outbox d' = outbox d ++ [{| ob_org_id := fg_org_id q; ob_memory_id := fg_memory_id q;
    ob_revision := n; ob_type := "forgotten"; ob_at := py_now c |}];
  fo_session : forall i s, resolve_source_session q d = Some i -> sessions d !! i = Some s ->
    exists s', sessions d' !! i = Some s' /\ s_revision s' = s_revision s + 1;
}.

Lemma tombstone_memory_Ok c q d n d' : tombstone_memory c q d = Ok (n, d') ->
  exists m m', memories d !! fg_memory_id q = Some m /\ in_scope (fg_org_id q) (fg_agent_id q) m = true /\
    tombstoned (life m) = false /\ lifecycle_revision m = fg_expected_revision q /\
    d' = with_memories (<[fg_memory_id q := m']> (memories d)) d /\
    tombstoned (life m') = true /\ status (life m') = "deleted"%string /\ embedding m' = None /\
    lifecycle_revision m' = n /\ n = fg_expected_revision q + 1.
Proof.
  unfold tombstone_memory. intros H. inv_tx. apply update_memory_Ok in H0.
  destruct x as [m'|]; [|done]. inv_tx. destruct H0 as (m & Hm & Hc & Hb & -> & _).
  apply andb_prop in Hc as [[Hs Hrev%Z.eqb_eq]%andb_prop Ht%negb_true_iff].
  assert (embedding m' = None) as He.
  { unfold bump_memory_lifecycle_revision in Hb. case_if; [done|]. by injection Hb as <-. }
  apply bump_memory_le in Hb as (_ & Hl & Hr).
  rewrite bool_decide_eq_false_2 in Hr by (intros E; apply (f_equal tombstoned) in E; cbn in E; congruence).
  exists m, m'. rewrite Hl. repeat (split; [done|]). by rewrite Hr, Hrev.
Qed.

Lemma require_forget_target_Ok q d a d' : require_forget_target q d = Ok (a, d') -> d' = d.
Proof.
  unfold require_forget_target, tbind, tget. destruct (select_memory _ _ _ d); [|done].
  unfold tguard. case_if; [|done]. by intros [= _ <-].
Qed.

Lemma forget_Ok c q d n d' : forget_memory_session c q d = Ok (n, d') -> forgotten c q d n d'.
Proof.
  unfold forget_memory_session. intros H. inv_tx. apply lock_Ok in H1. subst.
  rename x0 into d, x10 into d2. assert (x6 = d) as ->. { by eapply require_forget_target_Ok. }
  apply tombstone_memory_Ok in H4 as (m & m' & Hm & Hs & Ht & Hr & -> & Ht' & Hst & He & Hr' & ->).
  apply enqueue_Ok in H6 as (_ & _ & ->).
  assert (memories d2 = <[fg_memory_id q := m']> (memories d) /\ outbox d2 = outbox d /\
    forall i s, resolve_source_session q d = Some i -> sessions d !! i = Some s ->
      exists s', sessions d2 !! i = Some s' /\ s_revision s' = s_revision s + 1) as (Hmem & Hout & Hses).
  { destruct (resolve_source_session q d) as [i|] eqn:Ei; [|by inv_tx].
    destruct (resolve_source_session_Some _ _ _ Ei) as (s & Hsel & Ha).
    destruct (advance_Ok _ _ _ _ _ s H5 Hsel Ha) as (-> & -> & s' & -> & Hrev).
    split; [done|]. split; [done|]. intros ? s0 [= <-] Hs0. exists s'. rewrite lookup_insert_eq.
    unfold select_session in Hsel. cbn in *. rewrite Hs0 in Hsel. by case_match; simplify_eq. }
  split; cbn.
  - by exists m.
  - done.
  - exists m'. by rewrite Hmem.
  - by rewrite Hout.
  - done.
Qed.

(** A committed update of row [i] that expected revision [r]. *)
Definition moved (i : UUID) (r : Z) (d d' : DB) : Prop :=
  exists m m', memories d !! i = Some m /\ lifecycle_revision m = r /\ tombstoned (life m) = false /\
    memories d' = <[i := m']> (memories d) /\
    lifecycle_revision m' = if bool_decide (life m' = life m) then r else r + 1.

Lemma update_moved i cond f d m' d' r :
  (forall m, cond m = true -> lifecycle_revision m = r /\ tombstoned (life m) = false) ->
  update_memory i cond f d = Ok (Some m', d') ->
  moved i r d d' /\ outbox d' = outbox d /\ memories d' !! i = Some m'.
Proof.
  intros Hcond H. apply update_memory_Ok in H as (m & Hm & Hc & Hb & -> & _).
  destruct (Hcond m Hc) as [Hr Ht]. apply bump_memory_le in Hb as (_ & Hl & Hrev). cbn.
  rewrite lookup_insert_eq. split; [|done]. exists m, m'.
  split; [done|]. split; [done|]. split; [done|]. split; [done|]. by rewrite Hrev, Hl, Hr.
Qed.

Lemma relationship_Ok r d a d' : insert_relationship r d = Ok (a, d') ->
  r_source r <> r_target r /\ memories d' = memories d /\ outbox d' = outbox d.
Proof.
  unfold insert_relationship. intros H. repeat case_match; simplify_eq; bools; done.
Qed.

Lemma supersede_Ok c a d x d' : apply_supersession_session c a d = Ok (x, d') ->
  moved (sa_target_id a) (sa_expected_revision a) d d' /\
  sa_new_memory_id a <> sa_target_id a /\
  exists m', memories d' !! sa_target_id a = Some m' /\
    outbox d' = outbox d ++ [{| ob_org_id := sa_org_id a; ob_memory_id := sa_target_id a;
      ob_revision := lifecycle_revision m'; ob_type := "superseded"; ob_at := py_now c |}].
Proof.
  unfold apply_supersession_session. intros H. inv_tx. apply lock_Ok in H0. subst.
  destruct x2 as [m'|]; [|done]. inv_tx.
  apply (update_moved _ _ _ _ _ _ (sa_expected_revision a)) in H1 as (Hmv & Hout & Hm').
  - apply relationship_Ok in H0 as (Hne & Hmem & Ho). apply enqueue_Ok in H as (_ & _ & ->). cbn.
    split; [|split; [done|]].
    + destruct Hmv as (m & m1 & ? & ? & ? & E & ?). exists m, m1. cbn. by rewrite Hmem, E.
    + exists m'. by rewrite Hmem, Ho, Hout.
  - intros m. unfold live_active. intros Hc.
    apply andb_prop in Hc as [[_ [_ Ht%negb_true_iff]%andb_prop]%andb_prop Hr%Z.eqb_eq]. done.
Qed.

Lemma pii_Ok c u d x d' : update_memory_pii_flags c u d = Ok (x, d') ->
  moved (pu_memory_id u) (pu_expected_revision u) d d' /\
  exists m', memories d' !! pu_memory_id u = Some m' /\
    ((lifecycle_revision m' = pu_expected_revision u /\ outbox d' = outbox d) \/
     exists ty, outbox d' = outbox d ++ [{| ob_org_id := pu_org_id u; ob_memory_id := pu_memory_id u;
       ob_revision := lifecycle_revision m'; ob_type := ty; ob_at := py_now c |}]).
Proof.
  unfold update_memory_pii_flags. intros H. inv_tx. apply lock_Ok in H0. subst.
  destruct x2 as [m'|]; [|done].
  apply (update_moved _ _ _ _ _ _ (pu_expected_revision u)) in H1 as (Hmv & Hout & Hm').
  - case_if; inv_tx.
    + bools. split; [done|]. exists m'. split; [done|]. by left.
    + apply enqueue_Ok in H as (_ & _ & ->). cbn. split; [done|]. exists m'. split; [done|].
      right. by rewrite Hout; eexists.
  - intros m Hc. apply andb_prop in Hc as [[_ Ht%negb_true_iff]%andb_prop Hr%Z.eqb_eq]. done.
Qed.

Lemma forget_moved c q d n d' : forgotten c q d n d' ->
  moved (fg_memory_id q) (fg_expected_revision q) d d'.
Proof.
  intros [(m & Hm & _ & Ht & Hr) -> (m' & Hm' & Ht' & _ & _ & Hr') _ _]. exists m, m'.
  repeat (split; [done|]). rewrite bool_decide_eq_false_2; [done|]. congruence.
Qed.

(** ** The outbox *)

Definition OUTBOX_KEY : Error := IntegrityError "memory_lifecycle_outbox_org_id_memory_id_revision_key".

(** [t] run from [d] does not trip over the outbox's unique key, and if it
    returns, [Q] holds. *)
Definition wp {A} (t : T A) (Q : A -> DB -> Prop) (d : DB) : Prop :=
  match t d with Ok (a, d') => Q a d' | Raise e => e <> OUTBOX_KEY end.

Lemma wp_bind {A B} (m : T A) (k : A -> T B) Q d : wp m (fun a => wp (k a) Q) d -> wp (tbind m k) Q d.
Proof. unfold wp, tbind. by destruct (m d) as [[a d1]|e]. Qed.

Lemma wp_mono {A} (t : T A) (Q R : A -> DB -> Prop) d : (forall a d', Q a d' -> R a d') -> wp t Q d -> wp t R d.
Proof. unfold wp. destruct (t d) as [[a d1]|e]; auto. Qed.

Lemma wp_ret {A} (a : A) (Q : A -> DB -> Prop) d : Q a d -> wp (tret a) Q d.
Proof. done. Qed.

Lemma wp_raise {A} e (Q : A -> DB -> Prop) d : e <> OUTBOX_KEY -> wp (traise e) Q d.
Proof. done. Qed.

Lemma wp_get {A} (f : DB -> A) (Q : A -> DB -> Prop) d : Q (f d) d -> wp (tget f) Q d.
Proof. done. Qed.

Lemma wp_guard b e Q d : e <> OUTBOX_KEY -> (b = true -> Q tt d) -> wp (tguard b e) Q d.
Proof. unfold wp, tguard. destruct b; auto. Qed.

Lemma wp_for {A} (l : list A) body (I : DB -> Prop) d :
  (forall x d, I d -> wp (body x) (fun _ => I) d) -> I d -> wp (tfor l body) (fun _ => I) d.
Proof.
  intros Hb. revert d. induction l as [|x l IH]; intros d Hd; [done|]. cbn [tfor]. apply wp_bind.
  eapply wp_mono; [|by apply Hb]. cbn. intros _ d' Hd'. by apply IH.
Qed.

(** A body that leaves memories and outbox alone. *)
Lemma wp_quiet {A} (t : T A) (Q : A -> DB -> Prop) d :
  (forall e, t d = Raise e -> e <> OUTBOX_KEY) -> (forall a d', t d = Ok (a, d') -> Q a d') -> wp t Q d.
Proof. unfold wp. destruct (t d) as [[a d1]|e]; auto. Qed.

Lemma wp_lock org Q d : Q tt d -> wp (lock_organization_for_memory_write org) Q d.
Proof.
  intros HQ. apply wp_bind, wp_get. case_match; [by apply wp_guard|by apply wp_raise].
Qed.

Lemma wp_fence f Q d : Q tt d -> wp (require_extraction_session f) Q d.
Proof.
  intros HQ. unfold require_extraction_session, validate_session_fence_revision.
  repeat case_match; simplify_eq; try done. apply wp_bind, wp_get. by apply wp_guard.
Qed.

Lemma wp_update i cond f (Q : option Memory -> DB -> Prop) d :
  Q None d ->
  (forall m m', memories d !! i = Some m -> cond m = true -> row_le m m' ->
     lifecycle_revision m' = (if bool_decide (life m' = life m) then lifecycle_revision m
                              else lifecycle_revision m + 1) ->
     life m' = life (f m) -> Q (Some m') (with_memories (<[i := m']> (memories d)) d)) ->
  wp (update_memory i cond f) Q d.
Proof.
  intros HN HS. apply wp_quiet.
  - intros e. unfold update_memory, store_memory, bump_memory_lifecycle_revision, violation.
    intros H. repeat case_match; simplify_eq; done.
  - intros [m'|] d' H%update_memory_Ok; [|by destruct H as [-> _]].
    destruct H as (m & Hm & Hc & Hb & -> & _). apply bump_memory_le in Hb as (Hle & Hl & Hr).
    apply (HS m); try done. by rewrite Hl.
Qed.

Lemma wp_relationship r (Q : unit -> DB -> Prop) d :
  (forall d', r_source r <> r_target r -> memories d' = memories d -> outbox d' = outbox d -> Q tt d') ->
  wp (insert_relationship r) Q d.
Proof.
  intros HQ. apply wp_quiet.
  - unfold insert_relationship. intros e H. repeat case_match; simplify_eq; done.
  - intros [] d' (? & ? & ?)%relationship_Ok. by apply HQ.
Qed.

(** Events name existing memories at revisions they have reached. *)
Record outbox_inv (d : DB) : Prop := {
  oi_events : forall e, e ∈ outbox d -> exists m, memories d !! ob_memory_id e = Some m /\
    1 <= ob_revision e <= lifecycle_revision m;
  oi_unique : NoDup (ob_key <$> outbox d);
  oi_revisions : forall i m, memories d !! i = Some m -> 1 <= lifecycle_revision m;
}.

(** No event of memory [i] at revision [r] or later. *)
Definition unreported (i : UUID) (r : Z) (d : DB) : Prop :=
  forall e, e ∈ outbox d -> ob_memory_id e = i -> ob_revision e < r.

Lemma outbox_inv_insert d i m' : outbox_inv d -> 1 <= lifecycle_revision m' ->
  (forall m, memories d !! i = Some m -> lifecycle_revision m <= lifecycle_revision m') ->
  outbox_inv (with_memories (<[i := m']> (memories d)) d).
Proof.
  intros [He Hu Hr] H1 Hle. split; cbn; [|done|].
  - intros e Hin. destruct (He e Hin) as (m & Hm & Hrev). rewrite lookup_insert.
    case_decide as Hi; [|by exists m]. subst i. exists m'. split; [done|]. specialize (Hle m Hm). lia.
  - intros j m. rewrite lookup_insert. case_decide; [by intros [= <-]|apply Hr].
Qed.

Lemma outbox_inv_ext d d' : memories d' = memories d -> outbox d' = outbox d -> outbox_inv d -> outbox_inv d'.
Proof. intros Hm Ho [He Hu Hr]. split; by rewrite ?Hm, ?Ho. Qed.

Lemma unreported_next d i m : outbox_inv d -> memories d !! i = Some m ->
  unreported i (lifecycle_revision m + 1) d.
Proof. intros [He _ _] Hm e Hin <-. destruct (He e Hin) as (m' & Hm' & ?). simplify_eq. lia. Qed.

Lemma wp_enqueue c org i r ty (Q : unit -> DB -> Prop) d m :
  outbox_inv d -> unreported i r d -> memories d !! i = Some m -> lifecycle_revision m = r ->
  (forall d', outbox_inv d' -> (forall e, e ∈ outbox d' -> e ∈ outbox d \/ ob_memory_id e = i) ->
     memories d' = memories d -> Q tt d') ->
  wp (enqueue_memory_lifecycle_event c org i r ty) Q d.
Proof.
  intros [He Hu Hr] Hun Hm Hrev HQ. apply wp_bind, wp_guard; [done|intros H1%Z.leb_le].
  apply wp_bind, wp_guard; [done|intros _]. set (e0 := {| ob_org_id := org |}).
  assert (ob_key e0 ∉ (ob_key <$> outbox d)) as Hnew.
  { intros (e & Heq & Hin)%list_elem_of_fmap. injection Heq as _ Hi Hr'. cbn in *.
    specialize (Hun e Hin (eq_sym Hi)). lia. }
  unfold wp. rewrite bool_decide_eq_false_2 by done. apply HQ; cbn.
  - split; cbn; [|rewrite fmap_app; apply NoDup_app; split; [done|]; split; [|apply NoDup_singleton]|done].
    2: { intros k Hk ->%list_elem_of_singleton. done. }
    intros e [Hin| ->%list_elem_of_singleton]%elem_of_app; [by apply He|]. exists m. cbn. split; [done|]. lia.
  - intros e [Hin| ->%list_elem_of_singleton]%elem_of_app; [by left|by right].
  - done.
Qed.

(** A committed optimistic update followed by its event. *)
Lemma wp_forget c q d : outbox_inv d -> wp (forget_memory_session c q) (fun _ => outbox_inv) d.
Proof.
  intros Hi. apply wp_bind, wp_guard; [done|intros _]. apply wp_bind, wp_lock, wp_bind, wp_get, wp_bind.
  apply wp_bind, wp_get. case_match; [|done]. apply wp_guard; [done|intros _].
  apply wp_bind, wp_bind, wp_update; [done|]. intros m0 m' Hm Hc Hle Hr Hl. apply wp_ret.
  apply andb_prop in Hc as [_ Ht%negb_true_iff].
  rewrite bool_decide_eq_false_2 in Hr by (rewrite Hl; intros E; apply (f_equal tombstoned) in E; cbn in E; congruence).
  assert (1 <= lifecycle_revision m0) by (by eapply oi_revisions).
  apply wp_bind. set (d1 := with_memories _ d).
  assert (outbox_inv d1) as H1 by (apply outbox_inv_insert; [done|lia|intros ? ?; simplify_eq; lia]).
  assert (unreported (fg_memory_id q) (lifecycle_revision m') d1) as Hun
    by (rewrite Hr; by apply (unreported_next d)).
  assert (forall d2, memories d2 = memories d1 -> outbox d2 = outbox d1 ->
    wp (enqueue_memory_lifecycle_event c (fg_org_id q) (fg_memory_id q) (lifecycle_revision m') "forgotten" ;;
        tret (lifecycle_revision m')) (fun _ => outbox_inv) d2) as Hq.
  { intros d2 Hmem Hout. apply wp_bind. eapply (wp_enqueue _ _ _ _ _ _ _ m'); [by apply (outbox_inv_ext d1)| | |done|].
    - unfold unreported. by rewrite Hout.
    - rewrite Hmem. apply lookup_insert_eq.
    - intros d3 H3 _ _. by apply wp_ret. }
  case_match; [|by apply wp_ret, Hq].
  unfold wp at 1. unfold advance_source_session_revision, update_session.
  repeat case_match; simplify_eq; by apply Hq.
Qed.

Lemma wp_supersede c a d (P : DB -> Prop) :
  outbox_inv d -> P d ->
  (forall d1 d2, P d1 -> (forall e, e ∈ outbox d2 -> e ∈ outbox d1 \/ ob_memory_id e = sa_target_id a) ->
     sa_new_memory_id a <> sa_target_id a -> P d2) ->
  wp (apply_supersession_session c a) (fun _ d' => outbox_inv d' /\ P d') d.
Proof.
  intros Hi HP HPd. apply wp_bind, wp_lock, wp_bind, wp_update; [done|].
  intros m m' Hm Hc Hle Hr Hl.
  apply andb_prop in Hc as [[_ Hla]%andb_prop _].
  assert (lifecycle_revision m' = lifecycle_revision m + 1) as Hr1.
  { rewrite Hr, bool_decide_eq_false_2; [done|]. rewrite Hl. intros E. apply (f_equal status) in E.
    unfold live_active, hash_indexed in Hla. rewrite <- E in Hla. done. }
  assert (1 <= lifecycle_revision m) by (by eapply oi_revisions).
  apply wp_bind, wp_relationship. cbn. intros d1 Hne Hmem Hout.
  eapply (wp_enqueue _ _ _ _ _ _ _ m').
  - eapply (outbox_inv_ext (with_memories (<[sa_target_id a := m']> (memories d)) d)); [done|done|].
    apply outbox_inv_insert; [done|lia|intros ? ?; simplify_eq; lia].
  - rewrite Hr1. unfold unreported. rewrite Hout. by apply unreported_next.
  - rewrite Hmem. apply lookup_insert_eq.
  - done.
  - intros d2 H2 He _. split; [done|]. apply (HPd d); [done| |done]. by rewrite Hout in He.
Qed.

(** A supersession by memory [i] leaves [i] itself alone. *)
Lemma wp_steady_supersede c a d i : sa_new_memory_id a = i -> outbox_inv d -> is_Some (memories d !! i) ->
  (forall e, e ∈ outbox d -> ob_memory_id e <> i) ->
  wp (apply_supersession_session c a)
     (fun _ d' => outbox_inv d' /\ is_Some (memories d' !! i) /\ forall e, e ∈ outbox d' -> ob_memory_id e <> i) d.
Proof.
  intros <- Hi [m Hm] He.
  pose proof (wp_supersede c a d (fun d => forall e, e ∈ outbox d -> ob_memory_id e <> sa_new_memory_id a) Hi He) as H.
  unfold wp in *. destruct (apply_supersession_session c a d) as [[x d']|e] eqn:E; [|apply H].
  - destruct H as [Hi' He'].
    + intros d1 d2 H1 H2 Hne e Hin Heq. destruct (H2 e Hin) as [?|?]; [by eapply H1|congruence].
    + split; [done|]. split; [|done]. destruct (ev_memories _ _ (steady_supersede _ _ _ _ _ E) _ _ Hm) as (m' & ? & _).
      by eexists.
  - intros d1 d2 H1 H2 Hne e' Hin Heq. destruct (H2 e' Hin) as [?|?]; [by eapply H1|congruence].
Qed.

Lemma wp_pii c u d : outbox_inv d -> wp (update_memory_pii_flags c u) (fun _ => outbox_inv) d.
Proof.
  intros Hi. apply wp_bind, wp_lock, wp_bind, wp_update; [done|].
  intros m m' Hm Hc Hle Hr Hl. apply andb_prop in Hc as [_ Hrev%Z.eqb_eq].
  assert (1 <= lifecycle_revision m) by (by eapply oi_revisions).
  assert (lifecycle_revision m <= lifecycle_revision m') by (by destruct Hle).
  assert (outbox_inv (with_memories (<[pu_memory_id u := m']> (memories d)) d))
    by (apply outbox_inv_insert; [done|lia|intros ? ?; simplify_eq; lia]).
  destruct (lifecycle_revision m' =? pu_expected_revision u) eqn:E; [by apply wp_ret|]. apply Z.eqb_neq in E.
  assert (lifecycle_revision m' = lifecycle_revision m + 1) as Hr1 by (case_bool_decide; lia).
  eapply (wp_enqueue _ _ _ _ _ _ _ m'); [done| |apply lookup_insert_eq|done|done].
  rewrite Hr1. by apply (unreported_next d).
Qed.

Section Histories.
Context `{UnicodeDB} (content_hash_sha256 : pystr -> string).

Abbreviation create_tx := (insert_active_memory_tx content_hash_sha256).
Abbreviation quarantine_tx := (persist_quarantine content_hash_sha256).

Lemma steady_insert c i cmd ctx : steady (insert_memory_session content_hash_sha256 c i cmd ctx).
Proof.
  intros d a d'. unfold insert_memory_session, store_memory. destruct (memories d !! i) eqn:E; [done|].
  destruct (violation _ _ _ _); [done|]. intros [= _ <-]. apply (evolves_insert _ _ (memory_of content_hash_sha256 cmd ctx c)).
  by left.
Qed.

Lemma steady_label org i lc : steady (insert_label org i lc).
Proof.
  unfold insert_label, sync_memory_primary_category. apply steady_bind; [|steadily].
  intros d a d' Hl. repeat case_match; simplify_eq. by apply evolves_same.
Qed.

Lemma steady_labels org i ls : steady (insert_labels_session org i ls).
Proof. apply steady_for. intros. apply steady_label. Qed.

Lemma labels_checked_Ok org i ls d a d' :
  insert_labels_checked org i ls d = Ok (a, d') -> insert_labels_session org i ls d = Ok (a, d').
Proof.
  unfold insert_labels_checked. destruct (insert_labels_session org i ls d) as [[? ?]|e]; [done|].
  destruct e; try done. by destruct (String.eqb _ _).
Qed.

Lemma steady_labels_checked org i ls : steady (insert_labels_checked org i ls).
Proof. intros d a d' H1. eapply steady_labels. by apply labels_checked_Ok. Qed.

Lemma steady_escalation e : steady (insert_escalation e).
Proof.
  intros d a d'. unfold insert_escalation. repeat case_if; try done. intros [= _ <-]. by apply evolves_same.
Qed.

#[local] Hint Resolve steady_insert steady_labels steady_labels_checked steady_escalation : steady.

Lemma steady_conflicts c cmd i ctx : steady (apply_supersession_and_escalations c cmd i ctx).
Proof. unfold apply_supersession_and_escalations. steadily. Qed.
#[local] Hint Resolve steady_conflicts : steady.

Lemma steady_create_tx c i cmd ctx : steady (create_tx c i cmd ctx).
Proof. unfold insert_active_memory_tx, reload_memory_session. steadily. Qed.

Lemma steady_quarantine_tx c i cmd ctx : steady (quarantine_tx c i cmd ctx).
Proof. unfold persist_quarantine, reload_memory_session. steadily. Qed.

Lemma steady_bump c org i : steady (increment_retrieval_count_session c org i).
Proof. unfold increment_retrieval_count_session. steadily. Qed.

Lemma steady_bump_existing c cmd i : steady (bump_existing c cmd i).
Proof. unfold bump_existing, increment_retrieval_count_session. steadily. Qed.

Lemma steady_embedding c org i e r : steady (write_embedding c org i e r).
Proof. unfold write_embedding. steadily. Qed.

(** ** Interleaved histories *)

(** The transactions of the memory service, and what other services do to the
    rows it reads: updates of sessions (through their trigger) and of
    organisations. *)
Inductive Op :=
| Forget (c : Clock) (q : ForgetMemory)
| Supersede (c : Clock) (a : SupersedeApply)
| PiiUpdate (c : Clock) (u : MemoryPiiUpdate)
| Create (c : Clock) (i : UUID) (cmd : CreateMemoryCommand) (ctx : WriteContext)
| Quarantine (c : Clock) (i : UUID) (cmd : CreateMemoryCommand) (ctx : WriteContext)
| BumpExisting (c : Clock) (cmd : CreateMemoryCommand) (i : UUID)
| Bump (c : Clock) (org i : UUID)
| Embed (c : Clock) (org i : UUID) (e : option (string * Z)) (r : Z)
| UpdateSession (i : UUID) (f : Session -> Session)
| SetOrganization (i : UUID) (o : Organization).

Definition set_organization (i : UUID) (o : Organization) (d : DB) : DB :=
  {| organizations := <[i := o]> (organizations d); agents := agents d; sessions := sessions d;
     memories := memories d; labels := labels d; relationships := relationships d;
     escalations := escalations d; outbox := outbox d |}.

(** The exception a transaction ended with, if any, and the tables it left. *)
Definition outcome {A} (r : result Error A * DB) : option Error * DB :=
  (match r.1 with Ok _ => None | Raise e => Some e end, r.2).

Definition op_run (o : Op) (d : DB) : option Error * DB :=
  match o with
  | Forget c q => outcome (transaction (forget_memory_session c q) d)
  | Supersede c a => outcome (transaction (apply_supersession_session c a) d)
  | PiiUpdate c u => outcome (transaction (update_memory_pii_flags c u) d)
  | Create c i cmd ctx => outcome (transaction (create_tx c i cmd ctx) d)
  | Quarantine c i cmd ctx => outcome (transaction (quarantine_tx c i cmd ctx) d)
  | BumpExisting c cmd i => outcome (transaction (bump_existing c cmd i) d)
  | Bump c org i => outcome (transaction (increment_retrieval_count_session c org i) d)
  | Embed c org i e r => outcome (transaction (write_embedding c org i e r) d)
  | UpdateSession i f => (None, update_session i f d)
  | SetOrganization i o => (None, set_organization i o d)
  end.

Definition run_ops (ops : list Op) (d : DB) : DB := foldl (fun d o => (op_run o d).2) d ops.

Lemma transaction_evolves {A} (t : T A) d : steady t -> evolves d (outcome (transaction t d)).2.
Proof.
  intros Ht. unfold transaction. destruct (t d) as [[a d']|e] eqn:E; cbn; [by eapply Ht|done].
Qed.

Lemma op_run_evolves o d : evolves d (op_run o d).2.
Proof.
  destruct o; cbn [op_run snd].
  - apply transaction_evolves, steady_forget.
  - apply transaction_evolves, steady_supersede.
  - apply transaction_evolves, steady_pii.
  - apply transaction_evolves, steady_create_tx.
  - apply transaction_evolves, steady_quarantine_tx.
  - apply transaction_evolves, steady_bump_existing.
  - apply transaction_evolves, steady_bump.
  - apply transaction_evolves, steady_embedding.
  - apply evolves_update_session.
  - by apply evolves_same.
Qed.

Lemma run_ops_evolves ops : forall d, evolves d (run_ops ops d).
Proof.
  induction ops as [|o ops IH]; intros d; [done|]. cbn. etrans; [apply op_run_evolves|apply IH].
Qed.

(** The memory and revision an optimistic operation names. *)
Definition op_target (o : Op) : option (UUID * Z) :=
  match o with
  | Forget _ q => Some (fg_memory_id q, fg_expected_revision q)
  | Supersede _ a => Some (sa_target_id a, sa_expected_revision a)
  | PiiUpdate _ u => Some (pu_memory_id u, pu_expected_revision u)
  | Embed _ _ i _ r => Some (i, r)
  | _ => None
  end.

Lemma committed {A} (t : T A) d d' : outcome (transaction t d) = (None, d') -> exists a, t d = Ok (a, d').
Proof. unfold outcome, transaction. destruct (t d) as [[a d1]|e]; intros [= <-]; by eauto. Qed.

Lemma targeted_moves o i r d d' : op_target o = Some (i, r) -> op_run o d = (None, d') -> moved i r d d'.
Proof.
  destruct o; cbn; try done; intros [= <- <-] (x & H1)%committed.
  - by eapply forget_moved, forget_Ok.
  - by apply supersede_Ok in H1 as [? _].
  - by apply pii_Ok in H1 as [? _].
  - unfold write_embedding in H1. inv_tx. destruct x0 as [m'|]; [|done]. inv_tx.
    apply (update_moved _ _ _ _ _ _ r0) in H0 as [? _]; [done|]. unfold at_revision. intros m Hc. bools. done.
Qed.

(** Memory rows are versioned: through every interleaving of forgets,
    supersessions, PII updates, writes and session or organisation changes, a
    memory's lifecycle revision never decreases, a tombstone is never lifted,
    and the same revision always means the same lifecycle state. *)
Theorem memory_rows_are_versioned (ops : list Op) (d : DB) (i : UUID) (m : Memory) :
  memories d !! i = Some m ->
  exists m', memories (run_ops ops d) !! i = Some m' /\
    lifecycle_revision m <= lifecycle_revision m' /\
    (tombstoned (life m) = true -> tombstoned (life m') = true) /\
    (lifecycle_revision m' = lifecycle_revision m -> life m' = life m).
Proof.
  intros Hm. destruct (ev_memories _ _ (run_ops_evolves ops d) i m Hm) as (m' & Hm' & [H1 H2 H3]).
  by exists m'.
Qed.

(** C10: No lost update: a forget, supersession or PII update that commits found
    its memory live at exactly the revision it expected, and moves it one
    revision on if it changed anything; from then on no operation that expects
    the old revision commits, whatever happens in between. *)
Theorem stale_writers_never_commit (o : Op) (i : UUID) (r : Z) (d d' : DB) :
  op_target o = Some (i, r) -> op_run o d = (None, d') ->
  exists m m', memories d !! i = Some m /\ memories d' !! i = Some m' /\
    lifecycle_revision m = r /\ tombstoned (life m) = false /\
    lifecycle_revision m' = (if bool_decide (life m' = life m) then r else r + 1) /\
    (life m' <> life m -> forall ops late, op_target late = Some (i, r) ->
       (op_run late (run_ops ops d')).1 <> None).
Proof.
  intros Ht Hrun. destruct (targeted_moves _ _ _ _ _ Ht Hrun) as (m & m' & Hm & Hr & Htomb & Hd' & Hr').
  exists m, m'. rewrite Hd', lookup_insert_eq. repeat (split; [done|]).
  intros Hne ops late Hlate. rewrite bool_decide_eq_false_2 in Hr' by done.
  destruct (ev_memories _ _ (run_ops_evolves ops d') i m') as (m2 & Hm2 & [Hle _ _]);
    [by rewrite Hd', lookup_insert_eq|].
  destruct (op_run late (run_ops ops d')) as [e d2] eqn:E. cbn. intros ->.
  destruct (targeted_moves _ _ _ _ _ Hlate E) as (m3 & _ & Hm3 & Hr3 & _). simplify_eq. lia.
Qed.

Lemma fence_Ok f d a d' i : require_extraction_session f d = Ok (a, d') -> f_session_id f = Some i ->
  exists s, sessions d !! i = Some s /\ f_expected_revision f = Some (s_revision s).
Proof.
  unfold require_extraction_session, validate_session_fence_revision. intros Hf Hi. rewrite Hi in Hf.
  destruct (f_expected_revision f) as [r|] eqn:Er; [|done]. case_if; [done|]. inv_tx.
  unfold select_session, matches_session_fence in Heqb0. destruct (sessions _ !! i) as [s|] eqn:Es; [|done].
  destruct (String.eqb (s_org_id s) _); [|done]. repeat case_if; try done. bools.
  exists s. split; [done|]. congruence.
Qed.

(** Forgetting fences extraction: once a memory extracted from a session is
    forgotten, no write for that session commits on a session revision captured
    before the forget, however long it was delayed, neither as an active memory
    nor into quarantine nor as a duplicate's counter. *)
Theorem forget_fences_extraction c q (d d' : DB) (i : UUID) (s : Session) :
  op_run (Forget c q) d = (None, d') -> resolve_source_session q d = Some i -> sessions d !! i = Some s ->
  forall ops cmd r, cm_session_id cmd = Some i -> cm_expected_session_revision cmd = Some r ->
    r <= s_revision s ->
    forall c' j ctx, (op_run (Create c' j cmd ctx) (run_ops ops d')).1 <> None /\
      (op_run (Quarantine c' j cmd ctx) (run_ops ops d')).1 <> None /\
      (op_run (BumpExisting c' cmd j) (run_ops ops d')).1 <> None.
Proof.
  cbn [op_run]. intros (n & Hf%forget_Ok)%committed Hres Hs ops cmd r Hi Hr Hle c' j ctx.
  destruct (fo_session _ _ _ _ _ Hf i s Hres Hs) as (s' & Hs' & Hrev).
  destruct (ev_sessions _ _ (run_ops_evolves ops d') i s' Hs') as (s2 & Hs2 & [Hle2 _]).
  assert (forall x, require_extraction_session (session_fence cmd) (run_ops ops d') <> Ok x) as Hno.
  { intros [x d2] E. apply (fence_Ok _ _ _ _ i) in E as (s3 & Hs3 & Er); [|done].
    cbn in Er. simplify_eq. lia. }
  assert (forall A (k : unit -> T A) x, (lock_organization_for_memory_write (cm_org_id cmd) ;;
     (y <~ require_extraction_session (session_fence cmd) ;; k y))%tx (run_ops ops d') <> Ok x) as Hno2.
  { intros A k x E. apply tbind_Ok in E as (a & d1 & ->%lock_Ok & E).
    apply tbind_Ok in E as (b & d2 & E & _). by eapply Hno. }
  repeat split; intros E; destruct (outcome _) as [e d2] eqn:Eo in E; cbn in E; subst e;
    apply committed in Eo as [x Eo];
    exact (Hno2 _ _ _ Eo).
Qed.

(** [i] is a memory no event speaks of yet. *)
Definition fresh_memory (i : UUID) (d : DB) : Prop :=
  is_Some (memories d !! i) /\ forall e, e ∈ outbox d -> ob_memory_id e <> i.

Lemma wp_insert c i cmd ctx d : outbox_inv d ->
  wp (insert_memory_session content_hash_sha256 c i cmd ctx) (fun _ d' => outbox_inv d' /\ fresh_memory i d') d.
Proof.
  intros Hi. apply wp_quiet.
  - unfold insert_memory_session, store_memory, violation. intros e He. repeat case_match; simplify_eq; done.
  - unfold insert_memory_session, store_memory. intros a d' Hd. repeat case_match; simplify_eq.
    split; [apply outbox_inv_insert; [done|done|intros ? ?; congruence]|]. split; cbn.
    + by rewrite lookup_insert_eq.
    + intros e Hin Heq. destruct (oi_events _ Hi e Hin) as (? & ? & _). congruence.
Qed.

Lemma wp_labels org i ls d : outbox_inv d /\ fresh_memory i d ->
  wp (insert_labels_session org i ls) (fun _ d' => outbox_inv d' /\ fresh_memory i d') d.
Proof.
  apply (wp_for _ _ (fun d => outbox_inv d /\ fresh_memory i d)). clear d. intros lc d [Hi [Hm He]].
  apply wp_bind. apply wp_quiet; [intros e Hr; repeat case_match; simplify_eq; done|].
  intros a d1 Hd1. repeat case_match; simplify_eq. set (d1 := with_labels _ d).
  assert (outbox_inv d1) as Hi1 by (by apply (outbox_inv_ext d)).
  apply wp_bind, wp_get. case_match; [|by apply wp_ret].
  apply wp_bind, wp_update; [by apply wp_ret|].
  intros m m' Hm1 _ [Hle _ _] _ _. assert (1 <= lifecycle_revision m) by (by eapply oi_revisions).
  apply wp_ret. split; [apply outbox_inv_insert; [done|lia|intros ? ?; simplify_eq; lia]|].
  split; [cbn; by rewrite lookup_insert_eq|done].
Qed.

Lemma wp_labels_checked org i ls d : outbox_inv d /\ fresh_memory i d ->
  wp (insert_labels_checked org i ls) (fun _ d' => outbox_inv d' /\ fresh_memory i d') d.
Proof.
  intros Hd. pose proof (wp_labels org i ls d Hd) as Hl. unfold wp, insert_labels_checked in *.
  destruct (insert_labels_session org i ls d) as [[a d']|e]; [done|].
  destruct e; try done. by destruct (String.eqb _ _).
Qed.

Lemma wp_conflicts c cmd i ctx d : outbox_inv d /\ fresh_memory i d ->
  wp (apply_supersession_and_escalations c cmd i ctx) (fun _ d' => outbox_inv d' /\ fresh_memory i d') d.
Proof.
  intros Hd. apply wp_bind. eapply wp_mono; [|apply (wp_for _ _ (fun d => outbox_inv d /\ fresh_memory i d)); [|exact Hd]].
  - cbn. intros _ d1 Hd1. apply (wp_for _ _ (fun d => outbox_inv d /\ fresh_memory i d)); [|done].
    intros e d2 [Hi [Hm He]]. apply wp_quiet; unfold insert_escalation; intros; repeat case_match; simplify_eq; try done.
    split; [by apply (outbox_inv_ext d2)|]. done.
  - intros target d1 [Hi [Hm He]]. case_match; [|done].
    apply (wp_steady_supersede c _ d1 i); done.
Qed.

Lemma wp_reload org i (Q : Memory -> DB -> Prop) d :
  (forall m, memories d !! i = Some m -> Q m d) -> wp (reload_memory_session org i) Q d.
Proof.
  intros HQ. apply wp_bind, wp_get. destruct (memories d !! i) as [m|] eqn:E; [|done].
  case_if; [by apply wp_ret, HQ|done].
Qed.

Lemma wp_report c org i ty d : outbox_inv d /\ fresh_memory i d ->
  wp (memory <~ reload_memory_session org i ;;
      enqueue_memory_lifecycle_event c org i (lifecycle_revision memory) ty ;; tret memory)
     (fun _ => outbox_inv) d.
Proof.
  intros [Hi [_ He]]. apply wp_bind, wp_reload. intros m Hm. apply wp_bind.
  eapply (wp_enqueue _ _ _ _ _ _ _ m); [done| |done|done|by intros d' ? _ _; apply wp_ret].
  intros e Hin <-. by destruct (He e Hin).
Qed.

Lemma wp_create_tx c i cmd ctx d : outbox_inv d -> wp (create_tx c i cmd ctx) (fun _ => outbox_inv) d.
Proof.
  intros Hi. apply wp_bind, wp_lock, wp_bind, wp_fence, wp_bind.
  eapply wp_mono; [|by apply wp_insert]. cbn beta. intros _ d1 H1. apply wp_bind.
  eapply wp_mono; [|by apply wp_labels_checked]. cbn beta. intros _ d2 H2. apply wp_bind.
  eapply wp_mono; [|by apply wp_conflicts]. cbn beta. intros _ d3 H3. by apply wp_report.
Qed.

Lemma wp_quarantine_tx c i cmd ctx d : outbox_inv d -> wp (quarantine_tx c i cmd ctx) (fun _ => outbox_inv) d.
Proof.
  intros Hi. apply wp_bind, wp_lock, wp_bind, wp_fence, wp_bind.
  eapply wp_mono; [|by apply wp_insert]. cbn beta. intros _ d1 H1. apply wp_bind.
  eapply wp_mono; [|by apply wp_labels]. cbn beta. intros _ d2 H2. by apply wp_report.
Qed.

(** An update without an event keeps the invariant. *)
Lemma wp_silent_update i cond f (Q : option Memory -> DB -> Prop) d : outbox_inv d -> Q None d ->
  (forall m d', outbox_inv d' -> Q (Some m) d') -> wp (update_memory i cond f) Q d.
Proof.
  intros Hi HN HS. apply wp_update; [done|]. intros m m' Hm _ [Hle _ _] _ _. apply HS.
  assert (1 <= lifecycle_revision m) by (by eapply oi_revisions).
  apply outbox_inv_insert; [done|lia|intros ? ?; simplify_eq; lia].
Qed.

Lemma wp_bump c org i d : outbox_inv d -> wp (increment_retrieval_count_session c org i) (fun _ => outbox_inv) d.
Proof. intros Hi. by apply wp_bind, wp_silent_update. Qed.

Lemma wp_bump_existing c cmd i d : outbox_inv d -> wp (bump_existing c cmd i) (fun _ => outbox_inv) d.
Proof.
  intros Hi. apply wp_bind, wp_lock, wp_bind, wp_fence, wp_bind.
  eapply wp_mono; [|by apply wp_bump]. intros. by apply wp_ret.
Qed.

Lemma wp_embedding c org i e r d : outbox_inv d -> wp (write_embedding c org i e r) (fun _ => outbox_inv) d.
Proof. intros Hi. by apply wp_bind, wp_silent_update. Qed.

Lemma wp_transaction {A} (t : T A) d : wp t (fun _ => outbox_inv) d -> outbox_inv d ->
  (outcome (transaction t d)).1 <> Some OUTBOX_KEY /\ outbox_inv (outcome (transaction t d)).2.
Proof. unfold wp, outcome, transaction. destruct (t d) as [[a d']|e]; cbn; [done|]. intros ? ?. split; congruence. Qed.

Lemma op_run_outbox o d : outbox_inv d ->
  (op_run o d).1 <> Some OUTBOX_KEY /\ outbox_inv (op_run o d).2.
Proof.
  intros Hi. destruct o; cbn [op_run].
  - by apply wp_transaction; [apply wp_forget|].
  - apply wp_transaction; [|done]. eapply wp_mono; [|by apply (wp_supersede c a d (fun _ => True))].
    by intros _ ? [? _].
  - by apply wp_transaction; [apply wp_pii|].
  - by apply wp_transaction; [apply wp_create_tx|].
  - by apply wp_transaction; [apply wp_quarantine_tx|].
  - by apply wp_transaction; [apply wp_bump_existing|].
  - by apply wp_transaction; [apply wp_bump|].
  - by apply wp_transaction; [apply wp_embedding|].
  - split; [done|]. cbn. apply (outbox_inv_ext d); [..|done]; unfold update_session; by case_match.
  - split; [done|]. by apply (outbox_inv_ext d).
Qed.

(** The lifecycle outbox: in every history each memory has at most one
    event per revision, every event names a memory that exists and a revision
    it has reached, and the unique key that makes this so never fails a
    transaction. *)
Theorem outbox_one_event_per_revision (ops : list Op) (d : DB) :
  outbox_inv d ->
  outbox_inv (run_ops ops d) /\ forall o, (op_run o (run_ops ops d)).1 <> Some OUTBOX_KEY.
Proof.
  revert d. induction ops as [|o ops IH]; intros d Hi.
  - split; [done|]. intros o. by apply op_run_outbox.
  - apply IH. by apply op_run_outbox.
Qed.
End Histories.

(** A memory whose validity starts later than the moment it is closed cannot be
    superseded: closing its interval would leave it empty, which the interval
    constraint refuses. *)
Lemma supersede_needs_started c a d x d' m : apply_supersession_session c a d = Ok (x, d') ->
  memories d !! sa_target_id a = Some m -> valid_from (life m) < default (py_now c) (sa_closed_at a).
Proof.
  unfold apply_supersession_session. intros H Hm. inv_tx. apply lock_Ok in H0. subst.
  destruct x2 as [m'|]; [|done]. apply update_memory_Ok in H1 as (m0 & Hm0 & _ & Hb & _ & Hv). simplify_eq.
  apply bump_memory_le in Hb as (_ & Hl & _). unfold violation in Hv. rewrite Hl in Hv. cbn in Hv.
  repeat case_if; try done. bools. lia.
Qed.

Module MemorySample.
Definition clk : Clock := {| now := 50; py_now := 50 |}.
Definition life0 (h : string) (f : Z) (u : option Z) : Life :=
  {| org_id := "o1"; agent_id := "a1"; content := lit "likes tea"; content_hash := h; content_tokens := 2;
     category := "factual"; status := "active"; deleted_at := None; valid_from := f; valid_until := u;
     confidence := 80; source := "user_provided"; superseded_by := None; merged_into := None;
     metadata := "{}"; expires_at := None; pii_detected := false; pii_redacted := false;
     tombstoned := false |}.
Definition row (h : string) (f : Z) (u : option Z) : Memory :=
  {| life := life0 h f u; session_id := Some "s1"%string; embedding := None; retrieval_count := 0;
     last_retrieved_at := None; usefulness_score := 50; updated_at := 1; lifecycle_revision := 1 |}.
Definition sess : Session :=
  {| s_org_id := "o1"; s_agent_id := "a1"; s_status := "completed"; s_deleted_at := None; s_revision := 3 |}.
Definition d0 : DB :=
  {| organizations := {[ "o1"%string := {| o_status := "active"; o_deleted_at := None |} ]};
     agents := {[ ("a1", "o1")%string ]}; sessions := {[ "s1"%string := sess ]};
     memories := <["m1"%string := row "h1" 1 None]> {[ "m2"%string := row "h2" 100 (Some 200) ]};
     labels := ∅; relationships := []; escalations := [];
     outbox := [{| ob_org_id := "o1"; ob_memory_id := "m1"; ob_revision := 1; ob_type := "created"; ob_at := 1 |}] |}.
Definition q : ForgetMemory :=
  {| fg_org_id := "o1"; fg_agent_id := "a1"; fg_memory_id := "m1"; fg_expected_revision := 1 |}.
Definition d1 : DB := (op_run (H := ascii_db) (fun _ => "h"%string) (Forget clk q) d0).2.

Definition cmd (rev : option Z) : CreateMemoryCommand :=
  {| cm_org_id := "o1"; cm_agent_id := "a1"; cm_confidence := 80; cm_session_id := Some "s1"%string;
     cm_metadata := "{}"; cm_valid_from := None; cm_valid_until := None; cm_expires_at := None;
     cm_expected_session_revision := rev; cm_label := ("factual"%string, 80);
     cm_more_labels := [("preference"%string, 90)] |}.
Definition ctx (h : string) : WriteContext :=
  {| wc_content := lit "likes coffee"; wc_status := "active"; wc_pii_detected := false;
     wc_pii_redacted := false; wc_content_hash := Some h; wc_valid_from := Some 40; wc_valid_until := None;
     wc_decisions := []; wc_supersede_targets := ["m1"%string]; wc_supersede_revisions := {[ "m1"%string := 1 ]};
     wc_exact_duplicate := None; wc_error := None |}.

Abbreviation run := (op_run (H := ascii_db) (fun _ => "h"%string)).

(** The second label outranks the first, so the new memory is reported at
    revision 2. *)
Example create_reports_synced_revision :
  let d := (run (Create clk "m3" (cmd (Some 3)) (ctx "h3")) d0).2 in
  ((fun m => (category (life m), lifecycle_revision m)) <$> memories d !! "m3"%string,
   (fun e => (ob_memory_id e, ob_revision e, ob_type e)) <$> outbox d) =
  (Some ("preference", 2)%string,
   [("m1", 1, "created"); ("m1", 2, "superseded"); ("m3", 2, "created")]%string).
Proof. vm_compute. reflexivity. Qed.

Example stale_session_refused :
  (run (Create clk "m3" (cmd (Some 3)) (ctx "h3")) d1).1 =
  Some (StaleLifecycleError "source session lifecycle revision is stale or ineligible").
Proof. vm_compute. reflexivity. Qed.

Example future_memory_not_superseded :
  (run (Supersede clk {| sa_org_id := "o1"; sa_agent_id := "a1"; sa_new_memory_id := "m1";
                         sa_target_id := "m2"; sa_expected_revision := 1; sa_confidence := 90;
                         sa_closed_at := None |}) d0).1 = Some (IntegrityError "memories_valid_interval_chk").
Proof. vm_compute. reflexivity. Qed.

Lemma memory_rows_are_versioned_witness :
  exists m', memories (run_ops (H := ascii_db) (fun _ => "h"%string) [Forget clk q] d0) !! "m1"%string = Some m' /\
    1 <= lifecycle_revision m'.
Proof.
  destruct (memory_rows_are_versioned (H := ascii_db) (fun _ => "h"%string) [Forget clk q] d0 "m1"
    (row "h1" 1 None)) as (m' & Hm & Hr & _); [vm_compute; reflexivity|].
  by exists m'.
Defined.

Lemma stale_writers_never_commit_witness :
  exists m', memories d1 !! "m1"%string = Some m' /\ tombstoned (life m') = true /\
    (run (Forget clk q) d1).1 <> None.
Proof.
  destruct (stale_writers_never_commit (H := ascii_db) (fun _ => "h"%string) (Forget clk q) "m1" 1 d0 d1)
    as (m & m' & Hm & Hm' & _ & _ & Hr & Hlate); [reflexivity|vm_compute; reflexivity|].
  vm_compute in Hm, Hm'. injection Hm as <-. injection Hm' as <-.
  eexists. split; [vm_compute; reflexivity|]. split; [vm_compute; reflexivity|].
  apply (Hlate ltac:(discriminate) [] (Forget clk q)). reflexivity.
Defined.

Lemma forget_fences_extraction_witness :
  (run (Quarantine clk "m3" (cmd (Some 3)) (ctx "h3")) d1).1 <> None.
Proof.
  destruct (forget_fences_extraction (H := ascii_db) (fun _ => "h"%string) clk q d0 d1 "s1" sess) with
    (ops := @nil Op) (cmd := cmd (Some 3)) (r := 3) (c' := clk) (j := "m3"%string) (ctx := ctx "h3")
    as (_ & Hq & _); [vm_compute; reflexivity..|vm_compute; discriminate|exact Hq].
Defined.

Lemma outbox_one_event_per_revision_witness : outbox_inv d0 /\ outbox_inv d1.
Proof.
  assert (outbox_inv d0) as H0.
  { split.
    - intros e ->%list_elem_of_singleton. exists (row "h1" 1 None). split; [vm_compute; reflexivity|]. cbn. lia.
    - apply NoDup_singleton.
    - intros i m. cbn. rewrite lookup_insert, lookup_singleton. repeat case_decide; intros [= <-]; cbn; lia. }
  split; [done|].
  destruct (outbox_one_event_per_revision (H := ascii_db) (fun _ => "h"%string) [Forget clk q] d0 H0) as [H1 _].
  exact H1.
Defined.
End MemorySample.
