(* ===== verification/PiiGuard.v ===== *)
(** * The read-path PII guard ([services/memory/app/read/pii_guard.py])

    The five Tier-1 patterns as regular expressions over code points with an
    executable search, and the guard that judges each memory once per request.
    The search is proved against the meaning of a pattern as a relation between
    positions of the text.  Metrics and logging are omitted. *)

From S2P Require Import Prelude PyText MemoryStore.

(** ** Patterns of [re]

    The constructs the patterns use; a search only asks whether some match
    exists, so greedy and lazy repetition are the same.  Repetition is over a
    character class; a counted group is unrolled. *)

Inductive Regex :=
| Eps
| CharIn (p : Z -> bool)
| Seq (r r' : Regex)
| Alt (r r' : Regex)
| Star (p : Z -> bool)
| Boundary (word : Z -> bool)
| NotAfter (p : Z -> bool)
| NotBefore (p : Z -> bool).

(** A position of the text: the character before it and the rest. *)
Definition Cursor : Type := option Z * pystr.

Definition holds (p : Z -> bool) (c : option Z) : bool :=
  match c with Some c => p c | None => false end.

Fixpoint star_run (p : Z -> bool) (before : option Z) (rest : pystr) : list Cursor :=
  (before, rest) ::
  match rest with
  | c :: rest' => if p c then star_run p (Some c) rest' else []
  | [] => []
  end.

(** Every position a match from the cursor may end at. *)
Fixpoint run (r : Regex) (c : Cursor) : list Cursor :=
  match r with
  | Eps => [c]
  | CharIn p => match c.2 with x :: rest => if p x then [(Some x, rest)] else [] | [] => [] end
  | Seq r r' => mjoin (run r' <$> run r c)
  | Alt r r' => run r c ++ run r' c
  | Star p => star_run p c.1 c.2
  | Boundary word => if xorb (holds word c.1) (holds word (head c.2)) then [c] else []
  | NotAfter p => if holds p c.1 then [] else [c]
  | NotBefore p => if holds p (head c.2) then [] else [c]
  end.

(** [pattern.search(text) is not None], from a cursor on. *)
Fixpoint search_from (r : Regex) (before : option Z) (rest : pystr) : bool :=
  match run r (before, rest) with
  | _ :: _ => true
  | [] => match rest with [] => false | c :: rest' => search_from r (Some c) rest' end
  end.
Definition search (r : Regex) (s : pystr) : bool := search_from r None s.

Definition Plus (p : Z -> bool) : Regex := Seq (CharIn p) (Star p).
Definition Opt (r : Regex) : Regex := Alt r Eps.
Fixpoint Times (n : nat) (r : Regex) : Regex :=
  match n with O => Eps | S n => Seq r (Times n r) end.
Fixpoint UpTo (n : nat) (r : Regex) : Regex :=
  match n with O => Eps | S n => Opt (Seq r (UpTo n r)) end.
Definition Between (m n : nat) (r : Regex) : Regex := Seq (Times m r) (UpTo (n - m) r).
Fixpoint Seqs (rs : list Regex) : Regex :=
  match rs with [] => Eps | r :: rs => Seq r (Seqs rs) end.

(** ** The Tier-1 patterns *)

Definition among (s : string) (c : Z) : bool := bool_decide (c ∈ lit s).
Definition range (a b : Z) (c : Z) : bool := ((a <=? c) && (c <=? b))%bool.
Definition ascii_letter (c : Z) : bool := (range 65 90 c || range 97 122 c)%bool.
Definition ascii_alnum (c : Z) : bool := (ascii_letter c || range 48 57 c)%bool.

(** [str.isalnum] of the characters that are not ASCII. *)
Class WordDB := { u_alnum : Z -> bool }.

Section Patterns.
Context `{UnicodeDB} `{WordDB}.

(** [\w], [\d] and [\s] of a text pattern *)
Definition re_word (c : Z) : bool :=
  if c <? 128 then (ascii_alnum c || (c =? 95))%bool else u_alnum c.
Definition re_digit (c : Z) : bool :=
  if c <? 128 then range 48 57 c else bool_decide (is_Some (u_decimal c)).

Definition chr (s : string) : Regex := CharIn (among s).
Definition digit : Regex := CharIn re_digit.
Definition bound : Regex := Boundary re_word.

Definition EMAIL_RE : Regex :=
  Seqs [bound; Plus (fun c => ascii_alnum c || among "._%+-" c)%bool; chr "@";
        Plus (fun c => ascii_alnum c || among ".-" c)%bool; chr ".";
        Times 2 (CharIn ascii_letter); Star ascii_letter; bound].

Definition phone_sep : Regex := Opt (CharIn (fun c => among "-." c || is_space c)%bool).

Definition PHONE_RE : Regex :=
  Seqs [NotAfter re_digit; Opt (Seqs [Opt (chr "+"); chr "1"; phone_sep]);
        Alt (Seqs [chr "("; Times 3 digit; chr ")"]) (Times 3 digit);
        phone_sep; Times 3 digit; phone_sep; Times 4 digit; NotBefore re_digit].

Definition SSN_RE : Regex :=
  Seqs [bound; Times 3 digit; chr "-"; Times 2 digit; chr "-"; Times 4 digit; bound].

Definition CREDIT_CARD_RE : Regex :=
  Seqs [bound; Between 13 19 (Seq digit (Star (among " -"))); bound].

(** [25[0-5]|2[0-4]\d|[01]?\d\d?] *)
Definition octet : Regex :=
  Alt (Seqs [chr "2"; chr "5"; CharIn (range 48 53)])
      (Alt (Seqs [chr "2"; CharIn (range 48 52); digit])
           (Seqs [Opt (chr "01"); digit; Opt digit])).

Definition IPV4_RE : Regex := Seqs [bound; Times 3 (Seq octet (chr ".")); octet; bound].

Definition TIER1_CHECKS : list Regex := [EMAIL_RE; PHONE_RE; SSN_RE; CREDIT_CARD_RE; IPV4_RE].

Definition tier1_structured_pii_present (content : pystr) : bool :=
  existsb (fun pattern => search pattern content) TIER1_CHECKS.

Definition should_block_read_result (content : pystr) : bool :=
  tier1_structured_pii_present content.

(** ** The guard of one request

    A result is its id and its content; the two sets are those of
    [PiiReadGuard]. *)

Record PiiReadGuard := { evaluated : gset UUID; allowed : gset UUID }.

Definition new_guard : PiiReadGuard := {| evaluated := ∅; allowed := ∅ |}.

Definition filter_pii_blocked_results {A : Type} (body : A -> pystr) (results : list A) : list A :=
  List.filter (fun item => negb (should_block_read_result (body item))) results.

Definition allow {A : Type} (id : A -> UUID) (body : A -> pystr) (results : list A) (g : PiiReadGuard)
    : list A * PiiReadGuard :=
  let fresh := List.filter (fun item => negb (bool_decide (id item ∈ evaluated g))) results in
  let g :=
    {| evaluated := evaluated g ∪ list_to_set (id <$> fresh);
       allowed := allowed g ∪ list_to_set (id <$> filter_pii_blocked_results body fresh) |} in
  (List.filter (fun item => bool_decide (id item ∈ allowed g)) results, g).
End Patterns.

(** ** What a pattern means

    [matches s r i j]: [r] matches the characters of [s] from position [i] to
    position [j]. *)

(** The character before a position. *)
Definition before (s : pystr) (i : nat) : option Z :=
  match i with O => None | S i => s !! i end.

Inductive matches (s : pystr) : Regex -> nat -> nat -> Prop :=
| m_eps i : (i <= length s)%nat -> matches s Eps i i
| m_class p i c : s !! i = Some c -> p c = true -> matches s (CharIn p) i (S i)
| m_seq r r' i j k : matches s r i j -> matches s r' j k -> matches s (Seq r r') i k
| m_alt_l r r' i j : matches s r i j -> matches s (Alt r r') i j
| m_alt_r r r' i j : matches s r' i j -> matches s (Alt r r') i j
| m_star_stop p i : (i <= length s)%nat -> matches s (Star p) i i
| m_star_more p i j c : s !! i = Some c -> p c = true -> matches s (Star p) (S i) j -> matches s (Star p) i j
| m_boundary word i : (i <= length s)%nat ->
    xorb (holds word (before s i)) (holds word (s !! i)) = true -> matches s (Boundary word) i i
| m_not_after p i : (i <= length s)%nat -> holds p (before s i) = false -> matches s (NotAfter p) i i
| m_not_before p i : (i <= length s)%nat -> holds p (s !! i) = false -> matches s (NotBefore p) i i.

Definition cursor_at (s : pystr) (i : nat) : Cursor := (before s i, drop i s).

#[local] Hint Constructors matches : ibex.

Section Meaning.
Context (s : pystr).

Lemma cursor_head i : head (drop i s) = s !! i.
Proof. revert i. induction s as [|c l IH]; intros [|i]; cbn; auto. Qed.

Lemma cursor_step i c : s !! i = Some c -> drop i s = c :: drop (S i) s.
Proof. intros E. by rewrite (drop_S _ c). Qed.

Lemma cursor_next i c : s !! i = Some c -> cursor_at s (S i) = (Some c, drop (S i) s).
Proof. intros E. unfold cursor_at. cbn. by rewrite E. Qed.

Lemma drop_cons_inv i c rest : drop i s = c :: rest -> s !! i = Some c /\ rest = drop (S i) s.
Proof.
  intros E. assert (s !! i = Some c) as Hc by (by rewrite <- cursor_head, E).
  split; [done|]. apply cursor_step in Hc. congruence.
Qed.

Lemma star_run_spec p rest : forall i c', rest = drop i s -> (i <= length s)%nat ->
  c' ∈ star_run p (before s i) rest <-> exists j, c' = cursor_at s j /\ matches s (Star p) i j.
Proof.
  induction rest as [|x rest IH]; intros i c' E Hi; cbn [star_run]; rewrite elem_of_cons.
  - assert (s !! i = None) as Hn by (by rewrite <- cursor_head, <- E).
    split; [intros [->|[]%elem_of_nil]; exists i; unfold cursor_at; rewrite <- E; eauto with ibex|].
    intros (j & -> & Hm). left. inversion Hm; subst; [unfold cursor_at; by rewrite <- E|congruence].
  - destruct (drop_cons_inv i x rest (eq_sym E)) as [Hx Hr]. pose proof (lookup_lt_Some _ _ _ Hx).
    specialize (IH (S i) c' Hr ltac:(lia)). cbn [before] in IH. rewrite Hx in IH. split.
    + intros [->|Hc]; [exists i; unfold cursor_at; rewrite <- E; eauto with ibex|].
      destruct (p x) eqn:Hp; [|by apply elem_of_nil in Hc].
      apply IH in Hc as (j & -> & Hm). exists j. eauto with ibex.
    + intros (j & -> & Hm). inversion Hm; subst; [left; unfold cursor_at; by rewrite <- E|right].
      simplify_eq. match goal with Hp : p _ = true |- _ => rewrite Hp end. apply IH. eauto.
Qed.

(** The matcher finds exactly the ends of matches. *)
Lemma run_spec r : forall i c', (i <= length s)%nat ->
  c' ∈ run r (cursor_at s i) <-> exists j, c' = cursor_at s j /\ matches s r i j.
Proof.
  assert (forall r i j, matches s r i j -> (j <= length s)%nat) as Hend.
  { intros r' i j. induction 1; try done. by apply lookup_lt_Some in H. }
  assert (forall r i c' (b : bool), (matches s r i i <-> b = true) -> (forall j, matches s r i j -> j = i) ->
    c' ∈ (if b then [cursor_at s i] else []) <-> exists j, c' = cursor_at s j /\ matches s r i j) as Hguard.
  { intros r' i c' b Hb Hj. destruct b.
    - rewrite list_elem_of_singleton. split; [intros ->; exists i; split; [done|by apply Hb]|].
      intros (j & -> & Hm). by rewrite (Hj j Hm).
    - rewrite elem_of_nil. split; [done|]. intros (j & _ & Hm). pose proof (Hj j Hm). subst. by apply Hb in Hm. }
  induction r as [|p|r IH r' IH'|r IH r' IH'|p|w|p|p]; intros i c' Hi; cbn [run].
  - apply (Hguard _ _ _ true); [|by inversion 1]. split; eauto with ibex.
  - cbn [cursor_at snd]. destruct (drop i s) as [|x rest] eqn:E.
    + rewrite elem_of_nil. split; [done|]. intros (j & _ & Hm). inversion Hm; subst.
      pose proof (cursor_head i) as Hh. rewrite E in Hh. cbn in Hh. congruence.
    + destruct (drop_cons_inv i x rest E) as [Hx ->]. destruct (p x) eqn:Hp.
      * rewrite list_elem_of_singleton, <- (cursor_next i x) by done. split; [eauto with ibex|].
        intros (j & -> & Hm). by inversion Hm.
      * rewrite elem_of_nil. split; [done|]. intros (j & _ & Hm). inversion Hm. congruence.
  - rewrite list_elem_of_join. split.
    + intros (l & Hc' & (c & -> & (j & -> & Hm)%IH)%list_elem_of_fmap); [|done].
      apply IH' in Hc' as (k & -> & Hm'); eauto with ibex.
    + intros (k & -> & Hm). inversion Hm; subst. exists (run r' (cursor_at s j)).
      split; [apply IH'; eauto|apply list_elem_of_fmap; exists (cursor_at s j); split; [done|apply IH; eauto]].
  - rewrite elem_of_app, IH, IH' by done. split.
    + intros [(j & -> & Hm)|(j & -> & Hm)]; eauto with ibex.
    + intros (j & -> & Hm). inversion Hm; subst; eauto.
  - by apply star_run_spec.
  - cbn [cursor_at fst snd]. rewrite cursor_head. apply Hguard; [|by inversion 1].
    split; [by inversion 1|eauto with ibex].
  - cbn [cursor_at fst snd]. rewrite <- if_negb. apply Hguard; [|by inversion 1].
    rewrite negb_true_iff. split; [by inversion 1|eauto with ibex].
  - cbn [cursor_at fst snd]. rewrite cursor_head, <- if_negb. apply Hguard; [|by inversion 1].
    rewrite negb_true_iff. split; [by inversion 1|eauto with ibex].
Qed.
End Meaning.

(** [search] asks whether the pattern matches somewhere. *)
Lemma search_spec r s : search r s = true <-> exists i j, matches s r i j.
Proof.
  assert (forall rest i, rest = drop i s -> (i <= length s)%nat ->
    search_from r (before s i) rest = true <-> exists k j, (i <= k)%nat /\ matches s r k j) as Hfrom.
  { induction rest as [|x rest IH]; intros i E Hi; cbn [search_from]; rewrite E;
      change (before s i, drop i s) with (cursor_at s i); pose proof (run_spec s r i) as Hrun;
      (destruct (run r (cursor_at s i)) as [|c l] eqn:Er; [rewrite ?E|split; [|done]; intros _;
        destruct (proj1 (Hrun c Hi) ltac:(set_solver)) as (j & _ & Hm); eauto]).
    - split; [done|]. intros (k & j & Hk & Hm). exfalso.
      assert (k = i) as ->; [|by apply (not_elem_of_nil (cursor_at s j)), Hrun; eauto].
      assert (forall r i j, matches s r i j -> (i <= length s)%nat) as Hle
        by (induction 1; try done; by apply Nat.lt_le_incl, (lookup_lt_Some s _ c)).
      apply Hle in Hm. pose proof (length_drop s i) as Hl. rewrite <- E in Hl. cbn in Hl. lia.
    - destruct (drop_cons_inv s i x rest (eq_sym E)) as [Hx Hr]. pose proof (lookup_lt_Some _ _ _ Hx).
      specialize (IH (S i) Hr ltac:(lia)). cbn [before] in IH. rewrite Hx in IH. rewrite IH. split.
      + intros (k & j & Hk & Hm). exists k, j. split; [lia|done].
      + intros (k & j & Hk & Hm). destruct (decide (k = i)) as [->|]; [|exists k, j; split; [lia|done]].
        exfalso. apply (not_elem_of_nil (cursor_at s j)), Hrun; eauto. }
  unfold search. change None with (before s 0) at 1. rewrite (Hfrom s 0%nat) by (done || lia).
  split; [intros (k & j & _ & Hm); eauto|intros (i & j & Hm); exists i, j; split; [lia|done]].
Qed.

Section Guard.
Context `{UnicodeDB} `{WordDB}.

(** A text is blocked exactly when one of the patterns occurs in it. *)
Lemma should_block_spec c : should_block_read_result c = true <->
  exists pattern i j, pattern ∈ TIER1_CHECKS /\ matches c pattern i j.
Proof.
  unfold should_block_read_result, tier1_structured_pii_present. rewrite existsb_exists. split.
  - intros (r & Hin & (i & j & Hm)%search_spec). exists r, i, j. split; [by apply list_elem_of_In|done].
  - intros (r & i & j & Hin & Hm). exists r. split; [by apply list_elem_of_In|]. apply search_spec. eauto.
Qed.

(** ** Judging once is judging every time

    As long as an id keeps its content for the request ([rows]), the guard with
    its memory is the plain filter. *)

Definition guard_ok (rows : gmap UUID pystr) (g : PiiReadGuard) : Prop :=
  allowed g ⊆ evaluated g /\
  forall id, id ∈ evaluated g -> exists c, rows !! id = Some c /\
    (id ∈ allowed g <-> should_block_read_result c = false).

Lemma new_guard_ok rows : guard_ok rows new_guard.
Proof. split; set_solver. Qed.

Lemma guard_ok_mono rows rows' g : rows ⊆ rows' -> guard_ok rows g -> guard_ok rows' g.
Proof.
  intros Hsub [Ha Hg]. split; [done|]. intros id Hid. destruct (Hg id Hid) as (c & Hc & Hb).
  exists c. split; [by eapply lookup_weaken|done].
Qed.

Lemma allow_spec {A : Type} (id : A -> UUID) (body : A -> pystr) rows results g :
  guard_ok rows g -> (forall x, x ∈ results -> rows !! id x = Some (body x)) ->
  (allow id body results g).1 = filter_pii_blocked_results body results /\
  guard_ok rows (allow id body results g).2.
Proof.
  intros [Hsub Hg] Hrows. unfold allow. cbn [fst snd].
  set (fresh := List.filter (fun item => negb (bool_decide (id item ∈ evaluated g))) results). set (g' := {| evaluated := _; allowed := _ |}).
  assert (forall x, x ∈ fresh <-> x ∈ results /\ id x ∉ evaluated g) as Hfresh.
  { intros x. unfold fresh. rewrite !list_elem_of_In, filter_In. cbn beta. by rewrite negb_true_iff, bool_decide_eq_false. }
  assert (forall i, i ∈ allowed g' <-> i ∈ allowed g \/
    exists x, x ∈ fresh /\ id x = i /\ should_block_read_result (body x) = false) as Hall.
  { intros i. cbn. rewrite elem_of_union, elem_of_list_to_set, list_elem_of_fmap. f_equiv.
    unfold filter_pii_blocked_results. setoid_rewrite list_elem_of_In. setoid_rewrite filter_In.
    setoid_rewrite negb_true_iff. setoid_rewrite <- list_elem_of_In. naive_solver. }
  assert (forall i, i ∈ evaluated g' <-> i ∈ evaluated g \/ exists x, x ∈ fresh /\ id x = i) as Hev.
  { intros i. cbn. rewrite elem_of_union, elem_of_list_to_set, list_elem_of_fmap. naive_solver. }
  assert (guard_ok rows g') as Hg'.
  { split; [intros i; rewrite Hall, Hev; set_solver|].
    intros i [Hi|(x & Hx & <-)]%Hev.
    - destruct (Hg i Hi) as (c & Hc & Hb). exists c. split; [done|]. rewrite Hall, <- Hb.
      split; [|by left]. intros [?|(x & [_ Hne]%Hfresh & <- & _)]; [done|by destruct Hne].
    - pose proof (proj1 (Hfresh x) Hx) as [Hxr Hne]. exists (body x). split; [by apply Hrows|]. rewrite Hall. split; [|eauto].
      intros [Hin|(y & [Hy _]%Hfresh & E & Hb)]; [by destruct Hne; apply Hsub|].
      apply Hrows in Hy. rewrite E in Hy. pose proof (Hrows x Hxr). congruence. }
  split; [|done]. apply filter_ext_in. intros x Hx%list_elem_of_In.
  assert (id x ∈ evaluated g') as Hin by (apply Hev; destruct (decide (id x ∈ evaluated g)); [by left|];
    right; exists x; split; [by apply Hfresh|done]).
  destruct (proj2 Hg' _ Hin) as (c & Hc & Hb). rewrite (Hrows x Hx) in Hc. injection Hc as <-.
  destruct (should_block_read_result (body x)); [apply bool_decide_eq_false; by rewrite Hb|].
  by apply bool_decide_eq_true, Hb.
Qed.

Lemma pii_allowed_elem {A : Type} (body : A -> pystr) (results : list A) x :
  x ∈ filter_pii_blocked_results body results <-> x ∈ results /\ should_block_read_result (body x) = false.
Proof. unfold filter_pii_blocked_results. rewrite !list_elem_of_In, filter_In. cbn beta. by rewrite negb_true_iff. Qed.
End Guard.

(** ** Sample texts *)

Module GuardSamples.
#[local] Instance ascii_db : UnicodeDB := {| u_space _ := false; u_decimal _ := None; u_lower s := s |}.
#[local] Instance ascii_words : WordDB := {| u_alnum _ := false |}.

Lemma blocked_samples :
  forallb (fun t => should_block_read_result (lit t))
    ["write to a.b+c@mail.example.org now"; "call (555) 123-4567"; "call +1 555.123.4567"; "ssn 123-45-6789.";
     "card 4111 1111 1111 1111"; "host 10.0.255.1"]%string = true.
Proof. vm_compute. reflexivity. Qed.

Lemma allowed_samples :
  existsb (fun t => should_block_read_result (lit t))
    ["user@localhost"; "order 123-45-67890"; "version 1.2.3"; "12 345 678"; "host 256.1.1.1x"; "<EMAIL_1> wrote"]%string = false.
Proof. vm_compute. reflexivity. Qed.
End GuardSamples.
