(* ===== verification/ReadRank.v ===== *)
(** * Ranking of search hits ([services/memory/app/read/fusion.py], [ranking.py],
      [conflicts.py], [models.py], [services/memory/app/scoring/])

    Reciprocal rank fusion of the two retrieval channels, the composite score in
    doubles, the relevance floor and the order of a result page.  [math.exp] is
    the class [Libm].  A [dict] whose iteration order cannot be observed is a
    [gmap]; times are microseconds.  [created_at], which is only copied, is
    omitted from results. *)

From Stdlib Require Import SpecFloat.
From stdpp Require Import pretty.
From S2P Require Import Prelude Num PyText Collapse MemoryStore.

Inductive ReadError := ValueError | KeyError | DatabaseError.

#[global] Instance ReadError_eq_dec : EqDecision ReadError.
Proof. solve_decision. Defined.

(** ** Models ([read/models.py]) *)

Inductive SearchSource := vector | full_text | hot_cache.

#[global] Instance SearchSource_eq_dec : EqDecision SearchSource.
Proof. solve_decision. Defined.

Record FindSimilarQuery := {
  q_org_id : UUID;
  q_agent_id : UUID;
  q_embedding : list binary64;
  q_text : pystr;
  q_limit : Z;
  q_min_similarity : option binary64;
  q_min_confidence : binary64;
}.

Record HotMemoryQuery := {
  hq_org_id : UUID;
  hq_agent_id : UUID;
  hq_limit : Z;
  hq_min_confidence : binary64;
  hq_suppress_conflicts : bool;
}.

Record MemorySearchResult := {
  res_id : UUID;
  res_org_id : UUID;
  res_agent_id : UUID;
  res_content : pystr;
  res_category : string;
  res_confidence : binary64;
  res_status : string;
  res_similarity : binary64;
  res_source : SearchSource;
  res_updated_at : Z;
  res_categories : list string;
  res_revision : Z;
  res_groups : list UUID;
}.

(** ** Numbers *)

(** [min(1.0, x)], [max(0.0, x)]: the first argument unless the second is
    strictly smaller (larger). *)
Definition min_one (x : binary64) : binary64 := if f_ltb x (b64_of_Z 1) then x else b64_of_Z 1.
Definition max_zero (x : binary64) : binary64 := if f_ltb f_zero x then x else f_zero.

(** [a / b] of integers: the quotient, rounded once. *)
Definition int_truediv (a : Z) (b : positive) : binary64 :=
  match a with
  | Z0 => f_zero
  | Zpos p => b64_div (S754_finite false p 0) (S754_finite false b 0)
  | Zneg p => b64_div (S754_finite true p 0) (S754_finite false b 0)
  end.

(** A NUMERIC(3,2) column read with [float]. *)
Definition of_hundredths (n : Z) : binary64 := int_truediv n 100.

Class Libm := { m_exp : binary64 -> binary64 }.

(** ** Half lives ([scoring/half_life.py]) *)

Definition CATEGORY_HALF_LIFE_DAYS : gmap string Z :=
  {[ "factual" := 180; "procedural" := 120; "preference" := 45; "behavioral" := 30; "episodic" := 14 ]}%string.
Definition DEFAULT_HALF_LIFE_DAYS : Z := 14.
Definition LN2 : binary64 := b64_lit 6243314768165359 (-53).

(** The table holds whole days, so the minimum of the doubles is that of the
    integers. *)
Definition half_life_days (categories : list string) : Z :=
  match (fun c => default DEFAULT_HALF_LIFE_DAYS (CATEGORY_HALF_LIFE_DAYS !! c)) <$> categories with
  | [] => DEFAULT_HALF_LIFE_DAYS
  | d :: ds => foldl Z.min d ds
  end.

Abbreviation Scores := (list (string * binary64)).
Abbreviation SeenIn := (gmap UUID (list string)).

Section Scoring.
Context `{Libm}.

Definition recency_decay (age_days : binary64) (categories : list string) : result ReadError binary64 :=
  raise_if negb (b64_is_finite age_days) with ValueError ;;
  raise_if f_ltb age_days f_zero with ValueError ;;
  let hl := half_life_days categories in
  raise_if hl <=? 0 with ValueError ;;
  Ok (m_exp (b64_div (b64_mul (f_opp LN2) age_days) (b64_of_Z hl))).

(** ** The composite score ([scoring/composite.py]) *)

Record RankWeights := {
  w_relevance : binary64; w_recency : binary64; w_usefulness : binary64;
  w_confidence : binary64; w_frequency : binary64;
}.

(** 0.40, 0.25, 0.20, 0.10 and 0.05 *)
Definition default_weights : RankWeights :=
  {| w_relevance := b64_lit 7205759403792794 (-54); w_recency := b64_lit 4503599627370496 (-54);
     w_usefulness := b64_lit 7205759403792794 (-55); w_confidence := b64_lit 7205759403792794 (-56);
     w_frequency := b64_lit 7205759403792794 (-57) |}.

Record ScoreComponents := {
  c_relevance : binary64; c_recency : binary64; c_usefulness : binary64;
  c_confidence : binary64; c_access_frequency : binary64;
}.

Record CompositeInputs := {
  ci_relevance : binary64; ci_age_days : binary64; ci_categories : list string;
  ci_usefulness : binary64; ci_confidence : binary64; ci_access_frequency : binary64;
}.

Definition require_unit_interval (value : binary64) : result ReadError unit :=
  raise_if negb (b64_is_finite value) with ValueError ;;
  raise_if f_ltb value f_zero with ValueError ;;
  raise_if f_ltb (b64_of_Z 1) value with ValueError ;;
  Ok tt.

(** 1e-9 *)
Definition WEIGHT_EPS : binary64 := b64_lit 4835703278458517 (-82).

Definition validate_weights (w : RankWeights) : result ReadError unit :=
  let* _ := rmap require_unit_interval
              [w_relevance w; w_recency w; w_usefulness w; w_confidence w; w_frequency w] in
  let total := b64_add (b64_add (b64_add (b64_add (w_relevance w) (w_recency w)) (w_usefulness w))
                                (w_confidence w)) (w_frequency w) in
  raise_if f_ltb WEIGHT_EPS (SFabs (b64_sub total (b64_of_Z 1))) with ValueError ;;
  Ok tt.

Definition score (c : ScoreComponents) (weights : option RankWeights) : result ReadError binary64 :=
  let* _ := rmap require_unit_interval
              [c_relevance c; c_recency c; c_usefulness c; c_confidence c; c_access_frequency c] in
  let w := default default_weights weights in
  let* _ := validate_weights w in
  Ok (b64_add (b64_add (b64_add (b64_add
        (b64_mul (w_relevance w) (c_relevance c)) (b64_mul (w_recency w) (c_recency c)))
        (b64_mul (w_usefulness w) (c_usefulness c))) (b64_mul (w_confidence w) (c_confidence c)))
        (b64_mul (w_frequency w) (c_access_frequency c))).

(** Categories are a tuple of texts, which [_validated_categories] accepts. *)
Definition composite_score (i : CompositeInputs) (weights : option RankWeights) : result ReadError binary64 :=
  let* recency := recency_decay (ci_age_days i) (ci_categories i) in
  score {| c_relevance := ci_relevance i; c_recency := recency; c_usefulness := ci_usefulness i;
           c_confidence := ci_confidence i; c_access_frequency := ci_access_frequency i |} weights.

(** ** The relevance floor ([scoring/relevance_gate.py]) *)

Definition passes_relevance_floor (relevance floor : binary64) : result ReadError bool :=
  raise_if negb (b64_is_finite relevance) with ValueError ;;
  raise_if negb (b64_is_finite floor) with ValueError ;;
  raise_if (f_ltb floor f_zero || f_ltb (b64_of_Z 1) floor)%bool with ValueError ;;
  Ok (SFleb floor relevance).

(** ** Reciprocal rank fusion ([read/fusion.py]) *)

Definition RRF_K_DEFAULT : Z := 60.

Record FusedRank := { fr_memory_id : UUID; fr_score : binary64; fr_channels : list string }.

(** One id of a channel, with its position from 1. *)
Definition rrf_step (k : Z) (label : string) (st : Scores * SeenIn) (entry : Z * UUID) : Scores * SeenIn :=
  let '(scores, seen_in) := st in
  let '(position, id) := entry in
  let s := b64_add (default f_zero (od_get id scores)) (b64_div (b64_of_Z 1) (b64_of_Z (k + position))) in
  (od_set id s scores, <[id := default [] (seen_in !! id) ++ [label]]> seen_in).

(** [enumerate(xs, start)] *)
Fixpoint enumerate_from {A : Type} (start : Z) (xs : list A) : list (Z * A) :=
  match xs with [] => [] | x :: xs => (start, x) :: enumerate_from (start + 1) xs end.

Definition rrf_channel (k : Z) (st : Scores * SeenIn) (channel : Z * list UUID) : Scores * SeenIn :=
  foldl (rrf_step k (pretty channel.1)) st (enumerate_from 1 channel.2).

(** The sort key [(-score, str(memory_id))]. *)
Definition by_score_ltb {A : Type} (score : A -> binary64) (id : A -> UUID) : A -> A -> bool :=
  key_ltb (fun x => (f_opp (score x), id x)) (pair_ltb f_eqb f_ltb str_ltb).

Definition reciprocal_rank_fusion (channels : list (list UUID)) (k : Z) : result ReadError (list FusedRank) :=
  raise_if k <? 1 with ValueError ;;
  let '(scores, seen_in) := foldl (rrf_channel k) ([], ∅) (enumerate_from 0 channels) in
  let fused := (fun e => {| fr_memory_id := e.1; fr_score := e.2; fr_channels := default [] (seen_in !! e.1) |})
                 <$> scores in
  Ok (py_sorted (by_score_ltb fr_score fr_memory_id) fused).

(** ** Candidates ([read/ranking.py]) *)

Record RankedCandidate := { rc_id : UUID; rc_score : binary64; rc_source : SearchSource }.

(** [d.setdefault(k, v)] *)
Definition od_setdefault {V : Type} (k : string) (v : V) (d : list (string * V)) : list (string * V) :=
  match od_get k d with Some _ => d | None => od_set k v d end.

Definition merge_candidates (vector fts : list RankedCandidate) : list RankedCandidate :=
  let by_id := foldl (fun d item => od_set (rc_id item) item d) [] vector in
  let by_id := foldl (fun d item => od_setdefault (rc_id item) item d) by_id fts in
  by_id.*2.

Definition fuse_candidates (vector fts : list RankedCandidate) (k : Z) : result ReadError (list RankedCandidate) :=
  let by_id := foldl (fun d item => od_setdefault (rc_id item) item d) [] (vector ++ fts) in
  let* ordering := reciprocal_rank_fusion [rc_id <$> vector; rc_id <$> fts] k in
  rmap (fun item => match od_get (fr_memory_id item) by_id with Some c => Ok c | None => Raise KeyError end) ordering.

(** 0.5 *)
Definition FTS_COMPOSITE_RELEVANCE : binary64 := b64_lit 4503599627370496 (-53).
Definition ACCESS_FREQUENCY_CAP : Z := 10.

Record HydratedHit := {
  hh_result : MemorySearchResult;
  hh_valid_from : Z;
  hh_usefulness : binary64;
  hh_retrieval_count : Z;
}.

Definition age_days (now valid_from : Z) : binary64 :=
  max_zero (b64_div (int_truediv (now - valid_from) 1000000) (b64_of_Z 86400)).

Definition composite_inputs (h : HydratedHit) (relevance : binary64) (now : Z) : CompositeInputs :=
  {| ci_relevance := relevance;
     ci_age_days := age_days now (hh_valid_from h);
     ci_categories := match res_categories (hh_result h) with
                      | [] => [res_category (hh_result h)] | cs => cs end;
     ci_usefulness := hh_usefulness h;
     ci_confidence := res_confidence (hh_result h);
     ci_access_frequency := min_one (b64_div (b64_of_Z (hh_retrieval_count h)) (b64_of_Z ACCESS_FREQUENCY_CAP)) |}.

Record RankOptions := {
  ro_floor : binary64;
  ro_weights : option RankWeights;
  ro_overrides : option (gmap UUID binary64);
}.

Definition relevance_for_composite (c : RankedCandidate) : binary64 :=
  match rc_source c with vector => rc_score c | _ => FTS_COMPOSITE_RELEVANCE end.

Definition relevance_for (c : RankedCandidate) (opts : RankOptions) : binary64 :=
  match ro_overrides opts with
  | None => relevance_for_composite c
  | Some overrides =>
      match overrides !! rc_id c with
      | None => relevance_for_composite c
      | Some override => min_one (max_zero override)
      end
  end.

(** [{item.memory_id: item for item in candidates}] *)
Definition candidate_by_id (candidates : list RankedCandidate) : gmap UUID RankedCandidate :=
  foldl (fun m c => <[rc_id c := c]> m) ∅ candidates.

(** A row of [scored]: composite, id and result; [None] where the loop continues. *)
Definition score_hit (opts : RankOptions) (now : Z) (by_id : gmap UUID RankedCandidate)
    (entry : UUID * HydratedHit) : result ReadError (option (binary64 * (UUID * MemorySearchResult))) :=
  match by_id !! entry.1 with
  | None => Ok None
  | Some ranked =>
      let relevance := relevance_for ranked opts in
      let* passes := passes_relevance_floor relevance (ro_floor opts) in
      if negb passes then Ok None else
      let* composite := composite_score (composite_inputs entry.2 relevance now) (ro_weights opts) in
      Ok (Some (composite, (entry.1, hh_result entry.2)))
  end.

(** The key [(-composite, str(memory_id))] orders the rows whatever order the dict
    gave them in. *)
Definition rank_hydrated_hits (opts : RankOptions) (now : Z) (candidates : list RankedCandidate)
    (hydrated : gmap UUID HydratedHit) : result ReadError (list MemorySearchResult) :=
  let* scored := rmap (score_hit opts now (candidate_by_id candidates)) (map_to_list hydrated) in
  Ok ((fun x => x.2.2) <$> py_sorted (by_score_ltb fst (fun x => x.2.1)) (omap id scored)).
End Scoring.

(** ** Conflicts ([read/conflicts.py]) *)

Definition collapse_conflict_pairs (results : list MemorySearchResult) : list MemorySearchResult :=
  collapse_loop res_groups results [] ∅.

(** ** Dicts and orders *)

#[global] Instance by_score_order {A : Type} (score : A -> binary64) (id : A -> UUID) :
  PyOrder (by_score_ltb score id) (fun x => f_num (score x)).
Proof.
  pose proof (key_ltb_order (fun x => (f_opp (score x), id x)) _ _
    (PyOrder0 := pair_ltb_order (A := binary64) f_eqb f_ltb str_ltb f_num (fun _ => True) f_eqb_spec)) as Hk.
  split; [intros a b Ha Hb|intros a b c Ha Hb Hc];
    [apply (po_asym (PyOrder := Hk))|apply (po_neg_trans (PyOrder := Hk) a b c)];
    by split; [apply f_num_opp|].
Qed.

(** Of two neighbours in the order the first does not score below the second. *)
Lemma by_score_leb {A : Type} (score : A -> binary64) (id : A -> UUID) x y :
  f_num (score x) -> f_num (score y) -> leb_of (by_score_ltb score id) x y -> f_ltb (score x) (score y) = false.
Proof.
  intros Hx Hy. unfold leb_of, by_score_ltb, key_ltb, pair_ltb. cbn [fst snd].
  rewrite f_eqb_spec by (by apply f_num_opp). rewrite !f_ltb_opp.
  by destruct (f_ltb (score x) (score y)), (f_ltb (score y) (score x)).
Qed.

Lemma candidate_by_id_spec cs : forall (m : gmap UUID RankedCandidate) id c,
  foldl (fun m c => <[rc_id c := c]> m) m cs !! id = Some c ->
  (c ∈ cs /\ rc_id c = id) \/ m !! id = Some c.
Proof.
  induction cs as [|x cs IH]; intros m id c Hl; cbn in Hl; [by right|].
  apply IH in Hl as [[Hin E]|Hl]; [left; split; [by right|done]|].
  destruct (decide (rc_id x = id)) as [<-|Hne].
  - rewrite lookup_insert_eq in Hl. injection Hl as ->. left. split; [by left|done].
  - rewrite lookup_insert_ne in Hl by done. by right.
Qed.

Lemma candidate_by_id_elem cs id c : candidate_by_id cs !! id = Some c -> c ∈ cs /\ rc_id c = id.
Proof. intros [?|?]%candidate_by_id_spec; [done|by rewrite lookup_empty in *]. Qed.

Lemma candidate_by_id_dom cs id : is_Some (candidate_by_id cs !! id) <-> id ∈ rc_id <$> cs.
Proof.
  assert (forall m : gmap UUID RankedCandidate,
    is_Some (foldl (fun m c => <[rc_id c := c]> m) m cs !! id) <-> is_Some (m !! id) \/ id ∈ rc_id <$> cs) as Hd.
  { induction cs as [|x cs IH]; intros m; cbn; [set_solver|]. rewrite IH, elem_of_cons, lookup_insert_is_Some'.
    naive_solver. }
  unfold candidate_by_id. rewrite Hd, lookup_empty. split; [intros [[]%is_Some_None|]|]; auto.
Qed.

Lemma candidate_by_id_unique cs c : NoDup (rc_id <$> cs) -> c ∈ cs -> candidate_by_id cs !! rc_id c = Some c.
Proof.
  intros Hnd Hc. destruct (proj2 (candidate_by_id_dom cs (rc_id c))) as [c' Hc'];
    [by apply list_elem_of_fmap; exists c|].
  rewrite Hc'. f_equal. apply candidate_by_id_elem in Hc' as [Hin E].
  apply list_elem_of_lookup in Hc as [i Hi], Hin as [j Hj].
  assert (j = i) as ->; [|congruence]. eapply (NoDup_lookup (rc_id <$> cs)); [done| |];
    rewrite list_lookup_fmap; [rewrite Hj|rewrite Hi]; cbn; by rewrite ?E.
Qed.

Lemma StronglySorted_weaken {A : Type} (P : A -> Prop) (R S : A -> A -> Prop) (l : list A) :
  (forall x y, P x -> P y -> R x y -> S x y) -> Forall P l -> StronglySorted R l -> StronglySorted S l.
Proof.
  intros HRS HP Hs. induction Hs as [|x l Hs IH Hx]; constructor; inversion HP; subst; [by apply IH|].
  apply Forall_forall. intros y Hy. rewrite Forall_forall in Hx. apply HRS; [done| |by apply Hx].
  by eapply (proj1 (Forall_forall P l)).
Qed.

(** ** What ranking returns *)

Section Ranking.
Context `{Libm}.

Lemma require_unit_interval_Ok x : require_unit_interval x = Ok tt -> b64_is_finite x = true /\ nonneg_num x.
Proof.
  unfold require_unit_interval. by destruct x as [| | |[] m e].
Qed.

Lemma unit_all xs ys : rmap require_unit_interval xs = Ok ys ->
  Forall (fun x => b64_is_finite x = true /\ nonneg_num x) xs.
Proof.
  intros Hr%rmap_Ok. induction Hr as [|x y xs ys Hx _ IH]; constructor; [|done].
  destruct y. by apply require_unit_interval_Ok.
Qed.

Lemma composite_score_num i w s : composite_score i w = Ok s -> f_num s.
Proof.
  unfold composite_score. intros (recency & _ & Hs)%rbind_Ok. unfold score in Hs.
  apply rbind_Ok in Hs as (ys & Hc%unit_all & Hs). apply rbind_Ok in Hs as ([] & Hw & Hs).
  unfold validate_weights in Hw. apply rbind_Ok in Hw as (zs & Hw%unit_all & _).
  injection Hs as <-. rewrite !Forall_cons in Hc, Hw. destruct_and!. apply nonneg_num_num.
  repeat apply b64_add_nonneg; by apply b64_mul_nonneg.
Qed.

(** The row of [id] ranks with composite [s] and yields [r]. *)
Definition ranks (opts : RankOptions) (now : Z) (cs : list RankedCandidate) (rows : gmap UUID HydratedHit)
    (id : UUID) (s : binary64) (r : MemorySearchResult) : Prop :=
  exists h c, rows !! id = Some h /\ candidate_by_id cs !! id = Some c /\ hh_result h = r /\
    SFleb (ro_floor opts) (relevance_for c opts) = true /\
    composite_score (composite_inputs h (relevance_for c opts) now) (ro_weights opts) = Ok s.

Lemma score_hit_Some opts now cs rows id h s id' r : rows !! id = Some h ->
  score_hit opts now (candidate_by_id cs) (id, h) = Ok (Some (s, (id', r))) -> id' = id /\ ranks opts now cs rows id s r.
Proof.
  intros Hh. unfold score_hit, passes_relevance_floor. cbn [fst snd].
  destruct (candidate_by_id cs !! id) as [c|] eqn:Ec; [|done]. cbn zeta.
  destruct (negb (b64_is_finite (relevance_for c opts))); [done|].
  destruct (negb (b64_is_finite (ro_floor opts))); [done|]. destruct (_ || _)%bool; [done|].
  cbn [rbind]. destruct (SFleb _ _) eqn:Ef; cbn [negb]; [|done].
  intros (s' & Hs & [= <- <- <-])%rbind_Ok. split; [done|]. by exists h, c.
Qed.

Lemma score_hit_ranks opts now cs rows id h o : rows !! id = Some h ->
  score_hit opts now (candidate_by_id cs) (id, h) = Ok o ->
  (o = None /\ (candidate_by_id cs !! id = None \/ exists c, candidate_by_id cs !! id = Some c /\
     SFleb (ro_floor opts) (relevance_for c opts) = false))
  \/ exists s r, o = Some (s, (id, r)) /\ ranks opts now cs rows id s r.
Proof.
  intros Hh Ho. destruct o as [[s [id' r]]|].
  - destruct (score_hit_Some _ _ _ _ _ _ _ _ _ Hh Ho) as [-> Hr]. right. by exists s, r.
  - left. split; [done|]. unfold score_hit, passes_relevance_floor in Ho. cbn [fst snd] in Ho.
    destruct (candidate_by_id cs !! id) as [c|] eqn:Ec; [|by left]. right. exists c. split; [done|]. cbn zeta in Ho.
    destruct (negb (b64_is_finite (relevance_for c opts))); [done|].
    destruct (negb (b64_is_finite (ro_floor opts))); [done|]. destruct (_ || _)%bool; [done|].
    cbn [rbind] in Ho. destruct (SFleb _ _); [|done]. cbn [negb] in Ho. by apply rbind_Ok in Ho as (? & _ & ?).
Qed.

Lemma ranks_fun opts now cs rows id s r s' r' :
  ranks opts now cs rows id s r -> ranks opts now cs rows id s' r' -> s = s'.
Proof. intros (h & c & ? & ? & _ & _ & ?) (h' & c' & ? & ? & _ & _ & ?). congruence. Qed.

Lemma scored_ids_NoDup opts now cs rows os : NoDup rows.*1 ->
  Forall2 (fun e o => score_hit opts now (candidate_by_id cs) e = Ok o) rows os ->
  NoDup ((fun x => x.2.1) <$> omap id os).
Proof.
  intros Hnd. induction 1 as [|[i h] o rows os Ho Hos IH]; cbn; [constructor|].
  cbn in Hnd. apply NoDup_cons in Hnd as [Hi Hnd]. destruct o as [[s [i' r]]|]; cbn; [|by apply IH].
  constructor; [|by apply IH].
  assert (forall e s i r, score_hit opts now (candidate_by_id cs) e = Ok (Some (s, (i, r))) -> i = e.1) as Hid.
  { intros [j g] s0 i0 r0 He.
    by destruct (score_hit_Some _ _ _ {[ j := g ]} _ _ _ _ _ (lookup_singleton_eq j g) He). }
  apply Hid in Ho as ->. cbn. intros ([s0 [i0 r0]] & E & (o & Ho & Eo)%list_elem_of_omap)%list_elem_of_fmap.
  cbn in E, Eo. subst. apply list_elem_of_lookup in Ho as [k Hk].
  destruct (Forall2_lookup_r _ _ _ _ _ Hos Hk) as (e & He & Hs%Hid). apply Hi. subst i0.
  apply list_elem_of_fmap. exists e. split; [done|]. by apply (list_elem_of_lookup_2 _ k).
Qed.

(** The page of a ranking: exactly the candidates with a row that pass the floor,
    once each, by descending composite score. *)
Lemma rank_spec opts now cs rows out : rank_hydrated_hits opts now cs rows = Ok out ->
  exists scored : list (binary64 * (UUID * MemorySearchResult)),
    out = (fun x => x.2.2) <$> scored /\ NoDup ((fun x => x.2.1) <$> scored) /\
    StronglySorted (fun x y => f_ltb x.1 y.1 = false) scored /\
    (forall s id r, (s, (id, r)) ∈ scored <-> ranks opts now cs rows id s r) /\
    (forall id h c, rows !! id = Some h -> candidate_by_id cs !! id = Some c ->
       SFleb (ro_floor opts) (relevance_for c opts) = true -> exists s, (s, (id, hh_result h)) ∈ scored).
Proof.
  intros (os & Hos%rmap_Ok & [= <-])%rbind_Ok.
  assert (forall o, o ∈ os -> exists id h, rows !! id = Some h /\
    score_hit opts now (candidate_by_id cs) (id, h) = Ok o) as Hsound.
  { intros o [i Hi]%list_elem_of_lookup. destruct (Forall2_lookup_r _ _ _ _ _ Hos Hi) as ([id h] & Hl & Hs).
    exists id, h. split; [|done]. by apply elem_of_map_to_list, (list_elem_of_lookup_2 _ i). }
  assert (forall id h c, rows !! id = Some h -> candidate_by_id cs !! id = Some c ->
    SFleb (ro_floor opts) (relevance_for c opts) = true ->
    exists s, Some (s, (id, hh_result h)) ∈ os /\ ranks opts now cs rows id s (hh_result h)) as Hcomplete.
  { intros id h c Hh Hc Hf. pose proof Hh as Hin. apply elem_of_map_to_list, list_elem_of_lookup in Hin as [i Hi].
    destruct (Forall2_lookup_l _ _ _ _ _ Hos Hi) as (o & Ho & Hs).
    destruct (score_hit_ranks _ _ _ _ _ _ _ Hh Hs) as [[-> [?|(c' & ? & ?)]]|(s & r & -> & Hr)]; [congruence..|].
    exists s. pose proof Hr as (h' & c' & Hh' & _ & <- & _). assert (h' = h) as -> by congruence.
    split; [by apply (list_elem_of_lookup_2 _ i)|done]. }
  assert (forall s id r, (s, (id, r)) ∈ omap Datatypes.id os <-> ranks opts now cs rows id s r) as Hr.
  { intros s i r. rewrite list_elem_of_omap. split.
    - intros (o & (i' & h & Hh & Ho)%Hsound & E). cbn in E. subst o.
      by destruct (score_hit_Some _ _ _ _ _ _ _ _ _ Hh Ho) as [-> ?].
    - intros Hr. pose proof Hr as (h & c & Hh & Hc & <- & Hf & Hs).
      destruct (Hcomplete i h c Hh Hc Hf) as (s' & Hin & Hr'). exists (Some (s', (i, hh_result h))).
      split; [done|]. rewrite (ranks_fun _ _ _ _ _ _ _ _ _ Hr Hr'). done. }
  exists (py_sorted (by_score_ltb fst (fun x => x.2.1)) (omap Datatypes.id os)). split_and!; [done| | | |].
  - rewrite (py_sorted_perm (by_score_ltb _ _)). by apply (scored_ids_NoDup opts now cs (map_to_list rows)); [apply NoDup_fst_map_to_list|].
  - apply (StronglySorted_weaken (fun x => f_num x.1) _ _ _ (fun x y => by_score_leb fst (fun x => x.2.1) x y)).
    + apply Forall_forall. intros [s [i r]] Hx%py_sorted_elem%Hr. destruct Hx as (? & ? & _ & _ & _ & _ & Hs).
      by apply composite_score_num in Hs.
    + apply (py_sorted_sorted _ (ok := fun x => f_num x.1)). apply Forall_forall. intros [s [i r]] Hx%Hr.
      destruct Hx as (? & ? & _ & _ & _ & _ & Hs). by apply composite_score_num in Hs.
  - intros s i r. by rewrite py_sorted_elem.
  - intros i h c Hh Hc Hf. destruct (Hcomplete i h c Hh Hc Hf) as (s & _ & Hs). exists s. by apply py_sorted_elem, Hr.
Qed.
End Ranking.

(** ** What fusion returns *)

Definition add_default (d : list (string * RankedCandidate)) (item : RankedCandidate) :=
  od_setdefault (rc_id item) item d.

Lemma setdefault_get d item id : od_get id (add_default d item) =
  match od_get id d with
  | Some c => Some c
  | None => if String.eqb (rc_id item) id then Some item else None
  end.
Proof.
  unfold add_default, od_setdefault. destruct (od_get (rc_id item) d) eqn:E.
  - destruct (od_get id d) eqn:E'; [done|]. destruct (String.eqb_spec (rc_id item) id) as [<-|]; congruence.
  - rewrite od_get_set. destruct (String.eqb_spec (rc_id item) id) as [<-|]; [by rewrite E|by destruct (od_get id d)].
Qed.

Lemma setdefault_keeps l : forall d id c, od_get id d = Some c -> od_get id (foldl add_default d l) = Some c.
Proof.
  induction l as [|x l IH]; intros d id c E; cbn; [done|]. apply IH. by rewrite setdefault_get, E.
Qed.

Lemma setdefault_origin l : forall d id c, od_get id (foldl add_default d l) = Some c ->
  od_get id d = Some c \/ (c ∈ l /\ rc_id c = id).
Proof.
  induction l as [|x l IH]; intros d id c E; cbn in E; [by left|].
  apply IH in E as [E|[Hin E]]; [|right; split; [by right|done]].
  rewrite setdefault_get in E. destruct (od_get id d); [by left|].
  destruct (String.eqb_spec (rc_id x) id) as [Hx|]; [|done]. injection E as <-. right. split; [by left|done].
Qed.

Lemma setdefault_covers l : forall d c, c ∈ l -> exists c', od_get (rc_id c) (foldl add_default d l) = Some c'.
Proof.
  induction l as [|x l IH]; intros d c Hc; [by apply elem_of_nil in Hc|]. cbn.
  apply elem_of_cons in Hc as [->|Hc]; [|by apply IH].
  destruct (od_get (rc_id x) d) as [c'|] eqn:E; [exists c'|exists x]; apply setdefault_keeps;
    rewrite setdefault_get, E; [done|by rewrite String.eqb_refl].
Qed.

Lemma od_get_notin {V : Type} k (d : list (string * V)) : k ∉ d.*1 -> od_get k d = None.
Proof.
  induction d as [|[a b] d IH]; cbn; [done|]. intros Hn. destruct (String.eqb_spec a k) as [->|]; [set_solver|].
  apply IH. set_solver.
Qed.

(** A dict of candidates under their ids: the ids seen, and what each value is. *)
Record by_ids (seen : list RankedCandidate) (P : RankedCandidate -> Prop) (d : list (string * RankedCandidate)) : Prop := {
  bi_nodup : NoDup d.*1;
  bi_ids : forall id, id ∈ d.*1 <-> id ∈ rc_id <$> seen;
  bi_ok : forall k c, (k, c) ∈ d -> rc_id c = k /\ P c;
}.

Lemma od_set_elem {V : Type} k (v : V) d e : e ∈ od_set k v d -> e = (k, v) \/ e ∈ d.
Proof.
  induction d as [|[a b] d IH]; cbn; [set_solver|]. destruct (String.eqb_spec a k) as [->|]; [set_solver|].
  rewrite !elem_of_cons. naive_solver.
Qed.

Lemma by_ids_set seen P d x : by_ids seen P d -> P x -> by_ids (seen ++ [x]) P (od_set (rc_id x) x d).
Proof.
  intros [Hnd Hids Hok] Hx. split.
  - rewrite od_set_keys. destruct (od_get (rc_id x) d) eqn:E; [done|]. apply od_get_None in E.
    apply NoDup_app. split_and!; [done|set_solver|apply NoDup_singleton].
  - intros id. rewrite od_set_keys, fmap_app, elem_of_app, <- Hids. destruct (od_get (rc_id x) d) eqn:E.
    + assert (rc_id x ∈ d.*1) by (destruct (decide (rc_id x ∈ d.*1)) as [|Hn%od_get_notin]; [done|congruence]).
      cbn. rewrite list_elem_of_singleton. naive_solver.
    + by rewrite elem_of_app.
  - intros k c Hin. apply od_set_elem in Hin as [E|Hin]; [by injection E as -> ->|by apply Hok].
Qed.

(** The position of an id in a channel, from 1. *)
Fixpoint position_from (start : Z) (id : UUID) (ids : list UUID) : option Z :=
  match ids with
  | [] => None
  | x :: ids => if String.eqb x id then Some start else position_from (start + 1) id ids
  end.

Lemma position_None ids : forall start id, position_from start id ids = None <-> id ∉ ids.
Proof.
  induction ids as [|x ids IH]; intros start id; cbn; [set_solver|].
  destruct (String.eqb_spec x id) as [->|]; [split; [done|set_solver]|rewrite IH; set_solver].
Qed.

(** What a channel adds to a score. *)
Definition add_term (k : Z) (ids : list UUID) (id : UUID) (s : option binary64) : option binary64 :=
  match position_from 1 id ids with
  | None => s
  | Some p => Some (b64_add (default f_zero s) (b64_div (b64_of_Z 1) (b64_of_Z (k + p))))
  end.

Definition rrf_keys (ids : list UUID) (scores : Scores) : Prop :=
  NoDup scores.*1 /\ forall id, id ∈ scores.*1 <-> id ∈ ids.

Lemma rrf_step_keys k label st e seen : rrf_keys seen st.1 -> rrf_keys (seen ++ [e.2]) (rrf_step k label st e).1.
Proof.
  destruct st as [scores s], e as [p id]. cbn [fst snd rrf_step]. intros [Hnd Hk]. split.
  - rewrite od_set_keys. destruct (od_get id scores) eqn:E; [done|]. apply od_get_None in E.
    apply NoDup_app. split_and!; [done|set_solver|apply NoDup_singleton].
  - intros i. rewrite od_set_keys, elem_of_app, list_elem_of_singleton, <- Hk. destruct (od_get id scores) eqn:E.
    + split; [by left|]. intros [?| ->]; [done|]. destruct (decide (id ∈ scores.*1)) as [|Hn]; [done|].
      by rewrite (od_get_notin _ _ Hn) in E.
    + by rewrite elem_of_app, list_elem_of_singleton.
Qed.

Lemma rrf_channel_keys k label ids : forall start st seen, rrf_keys seen st.1 ->
  rrf_keys (seen ++ ids) (foldl (rrf_step k label) st (enumerate_from start ids)).1.
Proof.
  induction ids as [|x ids IH]; intros start st seen Hk; cbn; [by rewrite app_nil_r|].
  rewrite cons_middle, app_assoc. apply IH. by apply (rrf_step_keys k label st (start, x)).
Qed.

Lemma rrf_channel_scores k label ids id : NoDup ids -> forall start st,
  od_get id (foldl (rrf_step k label) st (enumerate_from start ids)).1 =
  match position_from start id ids with
  | None => od_get id st.1
  | Some p => Some (b64_add (default f_zero (od_get id st.1)) (b64_div (b64_of_Z 1) (b64_of_Z (k + p))))
  end.
Proof.
  induction 1 as [|x ids Hx Hnd IH]; intros start [scores seen]; cbn [enumerate_from foldl position_from]; [done|].
  rewrite IH. cbn [rrf_step fst]. rewrite od_get_set. destruct (String.eqb_spec x id) as [->|].
  - by rewrite (proj2 (position_None ids (start + 1) id) Hx).
  - done.
Qed.

(** The score of an id fused from two channels. *)
Definition rrf_score (k : Z) (vector fts : list UUID) (id : UUID) : binary64 :=
  default f_zero (add_term k fts id (add_term k vector id None)).

Lemma rrf_spec k v f out : reciprocal_rank_fusion [v; f] k = Ok out ->
  NoDup (fr_memory_id <$> out) /\ (forall id, id ∈ fr_memory_id <$> out <-> id ∈ v ++ f) /\
  (NoDup v -> NoDup f -> Forall (fun r => fr_score r = rrf_score k v f (fr_memory_id r)) out) /\
  (exists fused, out = py_sorted (by_score_ltb fr_score fr_memory_id) fused).
Proof.
  unfold reciprocal_rank_fusion. destruct (k <? 1); [done|]. cbn [enumerate_from foldl].
  change (rrf_channel k ([], ∅) (0, v)) with (foldl (rrf_step k (pretty 0)) ([], ∅) (enumerate_from 1 v)).
  set (st := foldl _ _ _). change (rrf_channel k st (0 + 1, f)) with (foldl (rrf_step k (pretty 1)) st (enumerate_from 1 f)).
  assert (rrf_keys v st.1) as Hv.
  { apply (rrf_channel_keys k (pretty 0) v 1 ([], ∅) []). split; [constructor|done]. }
  pose proof (rrf_channel_keys k (pretty 1) f 1 st v Hv) as [Hnd Hk].
  destruct (foldl _ st _) as [scores seen] eqn:Es. cbn [fst] in Hnd, Hk. intros [= <-].
  match goal with |- context [py_sorted _ ?l] => set (fused := l) end.
  assert (fr_memory_id <$> fused = scores.*1) as Hids by (unfold fused; by rewrite <- list_fmap_compose).
  split_and!; [by rewrite (py_sorted_perm _ fused), Hids|intros id; by rewrite (py_sorted_perm _ fused), Hids| |by exists fused].
  intros Hndv Hndf. apply Forall_forall. intros r ((id, s) & -> & Hin)%py_sorted_elem%list_elem_of_fmap. cbn.
  apply (od_get_elem id s) in Hin; [|done]. unfold rrf_score, add_term.
  change scores with (scores, seen).1 in Hin. rewrite <- Es, (rrf_channel_scores k _ f id Hndf) in Hin.
  unfold st in Hin. rewrite (rrf_channel_scores k _ v id Hndv) in Hin. cbn [od_get fst] in Hin.
  by destruct (position_from 1 id f), (position_from 1 id v); cbn in *; simplify_eq.
Qed.

Lemma fuse_spec v f k out : fuse_candidates v f k = Ok out ->
  NoDup (rc_id <$> out) /\ (forall id, id ∈ rc_id <$> out <-> id ∈ (rc_id <$> v) ++ (rc_id <$> f)) /\
  (forall c, c ∈ out -> c ∈ v \/ (c ∈ f /\ rc_id c ∉ rc_id <$> v)).
Proof.
  unfold fuse_candidates. intros (ordering & Ho & Hm%rmap_Ok)%rbind_Ok.
  change (fun d item => od_setdefault (rc_id item) item d) with add_default in Hm.
  apply rrf_spec in Ho as (Hnd & Hids & _ & _).
  assert (Forall2 (fun r c => rc_id c = fr_memory_id r /\
    (c ∈ v \/ (c ∈ f /\ rc_id c ∉ rc_id <$> v))) ordering out) as Hm'.
  { apply (Forall2_impl _ _ _ _ Hm). intros r c Hc. destruct (od_get _ _) as [c'|] eqn:E; [|done].
    injection Hc as ->. rewrite foldl_app in E. pose proof E as E0.
    apply setdefault_origin in E as [E|[Hin E]].
    - apply setdefault_origin in E as [?|[Hin E]]; [done|]. split; [done|by left].
    - split; [done|]. destruct (decide (rc_id c ∈ rc_id <$> v)) as [Hv|Hv]; [|by right]. left.
      apply list_elem_of_fmap in Hv as (w & Hw & Hwin). destruct (setdefault_covers v [] w Hwin) as [w' Hw'].
      rewrite <- Hw, E in Hw'. rewrite (setdefault_keeps f _ _ _ Hw') in E0. injection E0 as <-.
      by apply setdefault_origin in Hw' as [?|[? _]]. }
  assert (rc_id <$> out = fr_memory_id <$> ordering) as Hfm.
  { clear -Hm'. induction Hm' as [|r c l l' [E _] _ IH]; [done|]. cbn. by rewrite E, IH. }
  rewrite Hfm. split_and!; [done|done|].
  intros c [i Hi]%list_elem_of_lookup. by destruct (Forall2_lookup_r _ _ _ _ _ Hm' Hi) as (? & _ & _ & ?).
Qed.

Lemma fuse_total v f k : 1 <= k -> is_ok (fuse_candidates v f k) = true.
Proof.
  intros Hk. unfold fuse_candidates.
  destruct (reciprocal_rank_fusion [rc_id <$> v; rc_id <$> f] k) as [ordering|e] eqn:Eo; cbn [rbind].
  - match goal with |- is_ok (rmap ?g ?l) = true => destruct (rmap_total g l) as [ys ->]; [|done] end. intros r Hr. apply rrf_spec in Eo as (_ & Hids & _).
    assert (fr_memory_id r ∈ rc_id <$> v ++ f) as (c & Hc & Hin)%list_elem_of_fmap.
    { rewrite fmap_app. apply Hids, list_elem_of_fmap. eauto. }
    destruct (setdefault_covers (v ++ f) [] c Hin) as [c' Hc']. rewrite Hc.
    change (fun d item => od_setdefault (rc_id item) item d) with add_default. by rewrite Hc'.
  - unfold reciprocal_rank_fusion in Eo. destruct (Z.ltb_spec k 1); [lia|].
    by destruct (foldl _ _ _).
Qed.

(** Candidates of a merge: those of the vector channel, then the new ones of full
    text, one per id. *)
Lemma merge_spec v f : NoDup (rc_id <$> merge_candidates v f) /\
  (forall id, id ∈ rc_id <$> merge_candidates v f <-> id ∈ (rc_id <$> v) ++ (rc_id <$> f)) /\
  (forall c, c ∈ merge_candidates v f -> c ∈ v \/ (c ∈ f /\ rc_id c ∉ rc_id <$> v)).
Proof.
  unfold merge_candidates. change (fun d item => od_setdefault (rc_id item) item d) with add_default.
  set (d0 := foldl _ [] v).
  assert (by_ids v (fun c => c ∈ v) d0) as H0.
  { assert (forall l seen d, by_ids seen (fun c => c ∈ v) d -> (forall x, x ∈ l -> x ∈ v) ->
      by_ids (seen ++ l) (fun c => c ∈ v) (foldl (fun d item => od_set (rc_id item) item d) d l)) as Hf.
    { induction l as [|x l IH]; intros seen d Hd Hl; cbn; [by rewrite app_nil_r|].
      rewrite cons_middle, app_assoc. apply IH; [|set_solver]. apply by_ids_set; [done|set_solver]. }
    apply (Hf v [] []); [|done]. split; [constructor|set_solver|set_solver]. }
  assert (forall l seen d, by_ids (v ++ seen) (fun c => c ∈ v \/ (c ∈ f /\ rc_id c ∉ rc_id <$> v)) d ->
    (forall x, x ∈ l -> x ∈ f) ->
    by_ids (v ++ seen ++ l) (fun c => c ∈ v \/ (c ∈ f /\ rc_id c ∉ rc_id <$> v)) (foldl add_default d l)) as Hf.
  { induction l as [|x l IH]; intros seen d Hd Hl; cbn; [by rewrite app_nil_r|].
    rewrite cons_middle, (app_assoc seen). apply IH; [|set_solver]. rewrite app_assoc.
    unfold add_default, od_setdefault. destruct (od_get (rc_id x) d) eqn:E.
    - destruct Hd as [Hnd Hids Hok]. split; [done| |done]. intros id. rewrite fmap_app, elem_of_app, <- Hids.
      assert (rc_id x ∈ d.*1) by (destruct (decide (rc_id x ∈ d.*1)) as [|Hn%od_get_notin]; [done|congruence]).
      cbn. rewrite list_elem_of_singleton. naive_solver.
    - apply by_ids_set; [done|]. right. split; [set_solver|]. intros Hv. apply od_get_None in E. apply E.
      apply Hd. rewrite fmap_app. set_solver. }
  specialize (Hf f [] d0). destruct Hf as [Hnd Hids Hok]; [|done|].
  { rewrite app_nil_r. destruct H0 as [? ? Hok]. split; [done|done|]. intros k c Hc. destruct (Hok k c Hc). eauto. }
  assert (rc_id <$> (foldl add_default d0 f).*2 = (foldl add_default d0 f).*1) as ->.
  { clear -Hok. induction (foldl add_default d0 f) as [|[k c] l IH]; [done|]. cbn.
    rewrite (proj1 (Hok k c ltac:(by left))), IH; [done|]. intros. apply Hok. by right. }
  split_and!; [done| |].
  - intros id. by rewrite Hids, !fmap_app.
  - intros c ([k c'] & -> & Hin)%list_elem_of_fmap. by apply (Hok k c').
Qed.
