(* ===== verification/MemoryRead.v ===== *)
(** * Memory search ([services/memory/app/read/repository.py], [full_text.py],
      [services/memory/app/vectorstore/pgvector_store.py])

    The hybrid and the fallback search, with reranking, refill, the PII guard and
    conflict suppression.  The statements of one search run in different
    transactions: each sees its own [Snapshot] of the tables, or fails.  What the
    vector index and the text search yield, the reply of the reranker and the
    clock are the [Env] of a search.  Spans, metrics and logging are omitted. *)

From Stdlib Require Import SpecFloat.
From S2P Require Import Prelude Num PyText Collapse MemoryStore PiiGuard ReadRank.

(** ** Tables as one statement sees them *)

(** The columns of [memory_conflict_escalations] the read path uses. *)
Record EscalationRow := {
  er_id : UUID;
  er_org_id : UUID;
  er_status : string;
  er_new_memory_id : UUID;
  er_candidate_memory_id : UUID;
}.

Record Snapshot := {
  current_timestamp : Z;
  sn_memories : gmap UUID Memory;
  sn_labels : gmap (UUID * string) Z;
  sn_escalations : list EscalationRow;
}.

(** The visibility conditions every read statement repeats. *)
Definition visible (s : Snapshot) (m : Memory) : bool :=
  let now := current_timestamp s in
  (bool_decide (status (life m) = "active"%string)
   && bool_decide (deleted_at (life m) = None)
   && negb (tombstoned (life m))
   && match expires_at (life m) with None => true | Some t => now <? t end
   && (valid_from (life m) <=? now)
   && match valid_until (life m) with None => true | Some t => now <? t end)%bool.

Definition confident (min_confidence : binary64) (m : Memory) : bool :=
  SFleb min_confidence (of_hundredths (confidence (life m))).

(** [array_agg(e.id ORDER BY e.id)] of the pending escalations of a memory. *)
Definition pending_groups (s : Snapshot) (org : UUID) (id : UUID) : list UUID :=
  py_sorted str_ltb (er_id <$> List.filter (fun e =>
    (bool_decide (er_org_id e = org) && bool_decide (er_status e = "pending"%string)
     && (bool_decide (er_new_memory_id e = id) || bool_decide (er_candidate_memory_id e = id)))%bool)
    (sn_escalations s)).

(** [array_agg(ml.label ORDER BY ml.confidence DESC, ml.label ASC)], or the
    category of a memory without labels. *)
Definition row_categories (s : Snapshot) (id : UUID) (m : Memory) : list string :=
  let mine := omap (fun e : UUID * string * Z => if bool_decide (e.1.1 = id) then Some (e.2, e.1.2) else None)
                   (map_to_list (sn_labels s)) in
  match (py_sorted (key_ltb (fun p : Z * string => (- p.1, p.2)) (pair_ltb Z.eqb Z.ltb str_ltb)) mine).*2 with
  | [] => [category (life m)]
  | ls => ls
  end.

(** ** Settings and environment *)

Record Settings := {
  search_hybrid_enabled : bool;
  search_fallback_enabled : bool;
  conflict_suppression_enabled : bool;
  rerank_enabled : bool;
  rerank_client_present : bool;
  rerank_max_candidates : Z;
  search_rrf_k : Z;
  composite_relevance_floor : binary64;
  rank_weights : RankWeights;
  vector_search_min_similarity : binary64;
  hnsw_ef_search : Z;
}.

(** What awaiting the reranker under its timeout gives. *)
Inductive RerankReply :=
| Reranked (scores : list binary64)
| RerankTimeout
| RerankClientError.

(** One search: what each statement sees, and the answers from outside.  The
    vector index yields rows in its own order, each with its similarity; text
    search yields the rows that match a query, with their rank. *)
Record Env := {
  at_vector : result ReadError Snapshot;
  index_scan : list (UUID * binary64);
  at_fts : result ReadError Snapshot;
  fts_scan : pystr -> list (UUID * binary64);
  at_window : result ReadError Snapshot;
  at_admitted : result ReadError Snapshot;
  at_remaining : result ReadError Snapshot;
  at_vector_rows : result ReadError Snapshot;
  at_fts_rows : result ReadError Snapshot;
  at_conflicts : result ReadError Snapshot;
  rerank_reply : pystr -> list pystr -> RerankReply;
  now_reranked : Z;
  now_first : Z;
  now_second : Z;
}.

(** ** Vector search ([pgvector_store.py], [vectorstore/base.py]) *)

Definition EMBEDDING_DIM : Z := 1024.

Record SearchRequest := {
  sr_org_id : UUID;
  sr_agent_id : UUID;
  sr_embedding : list binary64;
  sr_limit : Z;
  sr_min_similarity : option binary64;
}.

Definition validate_search_request (r : SearchRequest) : result ReadError unit :=
  raise_if negb (Z.of_nat (length (sr_embedding r)) =? EMBEDDING_DIM) with ValueError ;;
  raise_if sr_limit r <? 1 with ValueError ;;
  match sr_min_similarity r with
  | None => Ok tt
  | Some v => raise_if (f_ltb v f_zero || f_ltb (b64_of_Z 1) v)%bool with ValueError ;; Ok tt
  end.

(** [x >= y] of PostgreSQL, where NaN is the greatest value. *)
Definition pg_geb (x y : binary64) : bool :=
  match x with S754_nan => true | _ => SFleb y x end.

(** [SEARCH_SQL] for user retrieval *)
Definition search_sql (s : Snapshot) (r : SearchRequest) (threshold : binary64) (scan : list (UUID * binary64))
    : list (UUID * binary64) :=
  let eligible := List.filter (fun h : UUID * binary64 =>
    match sn_memories s !! h.1 with
    | None => false
    | Some m => (bool_decide (org_id (life m) = sr_org_id r) && bool_decide (agent_id (life m) = sr_agent_id r)
                 && visible s m && bool_decide (is_Some (embedding m)))%bool
    end) scan in
  let ranked := List.filter (fun h => pg_geb h.2 threshold) (take (Z.to_nat (sr_limit r)) eligible) in
  py_sorted (key_ltb (fun h => b64_sub (b64_of_Z 1) h.2) f_ltb) ranked.

(** [SearchHit]: similarity in [-1, 1]. *)
Definition search_hit (h : UUID * binary64) : result ReadError (UUID * binary64) :=
  if (SFleb (b64_of_Z (-1)) h.2 && SFleb h.2 (b64_of_Z 1))%bool then Ok h else Raise ValueError.

Definition vector_search (st : Settings) (env : Env) (r : SearchRequest) : result ReadError (list (UUID * binary64)) :=
  let* _ := validate_search_request r in
  let threshold := default (vector_search_min_similarity st) (sr_min_similarity r) in
  raise_if hnsw_ef_search st <? 1 with ValueError ;;
  let* s := at_vector env in
  rmap search_hit (search_sql s r threshold (index_scan env)).

(** ** Full text search ([full_text.py]) *)

Section Search.
Context `{UnicodeDB} `{WordDB} `{Libm}.

Definition is_searchable_query (text : pystr) : bool := negb (bool_decide (strip_space text = [])).

Record FullTextSearchQuery := {
  ft_org_id : UUID;
  ft_agent_id : UUID;
  ft_text : pystr;
  ft_limit : Z;
  ft_min_confidence : binary64;
  ft_exclude : gset UUID;
}.

Definition fts_sql (s : Snapshot) (q : FullTextSearchQuery) (scan : list (UUID * binary64)) : list (UUID * binary64) :=
  let eligible := List.filter (fun h : UUID * binary64 =>
    match sn_memories s !! h.1 with
    | None => false
    | Some m => (bool_decide (org_id (life m) = ft_org_id q) && bool_decide (agent_id (life m) = ft_agent_id q)
                 && visible s m && confident (ft_min_confidence q) m)%bool
    end) scan in
  take (Z.to_nat (ft_limit q)) (py_sorted (key_ltb (fun h => f_opp h.2) f_ltb) eligible).

(** The loop over the rows: skip excluded ids, stop at the limit. *)
Fixpoint fts_hits (limit : Z) (exclude : gset UUID) (rows hits : list (UUID * binary64)) : list (UUID * binary64) :=
  match rows with
  | [] => hits
  | h :: rows =>
      if bool_decide (h.1 ∈ exclude) then fts_hits limit exclude rows hits else
      let hits := hits ++ [h] in
      if limit <=? Z.of_nat (length hits) then hits else fts_hits limit exclude rows hits
  end.

Definition full_text_search (env : Env) (q : FullTextSearchQuery) : result ReadError (list (UUID * binary64)) :=
  if ((ft_limit q <? 1) || negb (is_searchable_query (ft_text q)))%bool then Ok [] else
  let* s := at_fts env in
  Ok (fts_hits (ft_limit q) (ft_exclude q) (fts_sql s q (fts_scan env (strip_space (ft_text q)))) []).

(** ** Hydration ([repository.py]) *)

Definition hydrated_row (s : Snapshot) (id : UUID) (m : Memory) (ranked : RankedCandidate) : HydratedHit :=
  {| hh_result :=
       {| res_id := id; res_org_id := org_id (life m); res_agent_id := agent_id (life m);
          res_content := content (life m); res_category := category (life m);
          res_confidence := of_hundredths (confidence (life m)); res_status := status (life m);
          res_similarity := rc_score ranked; res_source := rc_source ranked; res_updated_at := updated_at m;
          res_categories := row_categories s id m; res_revision := lifecycle_revision m;
          res_groups := pending_groups s (org_id (life m)) id |};
     hh_valid_from := valid_from (life m);
     hh_usefulness := of_hundredths (usefulness_score m);
     hh_retrieval_count := retrieval_count m |}.

(** [_HYDRATE_SQL] and the rows it becomes *)
Definition hydrate_sql (s : Snapshot) (org : UUID) (candidates : list RankedCandidate) (min_confidence : binary64)
    : gmap UUID HydratedHit :=
  map_imap (fun id m =>
    match candidate_by_id candidates !! id with
    | None => None
    | Some ranked =>
        if (bool_decide (org_id (life m) = org) && confident min_confidence m && visible s m)%bool
        then Some (hydrated_row s id m ranked) else None
    end) (sn_memories s).

Definition hydrate_hits (at_ : result ReadError Snapshot) (org : UUID) (candidates : list RankedCandidate)
    (min_confidence : binary64) : result ReadError (gmap UUID HydratedHit) :=
  if bool_decide (candidates = []) then Ok ∅ else
  let* s := at_ in
  Ok (hydrate_sql s org candidates min_confidence).

Definition hydrate_missing (at_ : result ReadError Snapshot) (q : FindSimilarQuery) (candidates : list RankedCandidate)
    (known : gmap UUID HydratedHit) : result ReadError (gmap UUID HydratedHit) :=
  let missing := List.filter (fun item => negb (bool_decide (is_Some (known !! rc_id item)))) candidates in
  if bool_decide (missing = []) then Ok ∅ else
  hydrate_hits at_ (q_org_id q) missing (q_min_confidence q).

Definition with_conflict_groups (h : HydratedHit) (groups : list UUID) : HydratedHit :=
  let r := hh_result h in
  {| hh_result :=
       {| res_id := res_id r; res_org_id := res_org_id r; res_agent_id := res_agent_id r; res_content := res_content r;
          res_category := res_category r; res_confidence := res_confidence r; res_status := res_status r;
          res_similarity := res_similarity r; res_source := res_source r; res_updated_at := res_updated_at r;
          res_categories := res_categories r; res_revision := res_revision r; res_groups := groups |};
     hh_valid_from := hh_valid_from h; hh_usefulness := hh_usefulness h; hh_retrieval_count := hh_retrieval_count h |}.

(** The row of [_CONFLICT_GROUPS_SNAPSHOT_SQL] of a memory, or no groups when the
    statement does not return it. *)
Definition groups_at (s : Snapshot) (org : UUID) (id : UUID) : list UUID :=
  match sn_memories s !! id with
  | Some m => if bool_decide (org_id (life m) = org) then pending_groups s (org_id (life m)) id else []
  | None => []
  end.

(** [_conflict_groups_snapshot]: the groups of every candidate as one statement
    sees them. *)
Definition conflict_groups_snapshot (at_ : result ReadError Snapshot) (org : UUID) (hydrated : gmap UUID HydratedHit)
    : result ReadError (gmap UUID HydratedHit) :=
  if bool_decide (hydrated = ∅) then Ok hydrated else
  let* s := at_ in
  Ok (map_imap (fun id h => Some (with_conflict_groups h (groups_at s org id))) hydrated).

(** ** The two channels *)

Definition vector_candidates (st : Settings) (env : Env) (q : FindSimilarQuery) : result ReadError (list RankedCandidate) :=
  let* hits := vector_search st env
    {| sr_org_id := q_org_id q; sr_agent_id := q_agent_id q; sr_embedding := q_embedding q;
       sr_limit := q_limit q; sr_min_similarity := q_min_similarity q |} in
  Ok ((fun h => {| rc_id := h.1; rc_score := h.2; rc_source := vector |}) <$> hits).

Definition clamp_unit_interval (value : binary64) : binary64 :=
  if f_ltb value f_zero then f_zero else if f_ltb (b64_of_Z 1) value then b64_of_Z 1 else value.

Definition fts_candidates (hits : list (UUID * binary64)) (cap : Z) : list RankedCandidate :=
  (fun h => {| rc_id := h.1; rc_score := clamp_unit_interval h.2; rc_source := full_text |})
    <$> take (Z.to_nat cap) hits.

Definition fts_fallback_enabled (st : Settings) (vector_count limit : Z) (text : pystr) : bool :=
  (search_fallback_enabled st && (vector_count <? limit) && is_searchable_query text)%bool.

Definition fts_supplement (st : Settings) (env : Env) (q : FindSimilarQuery) (vector_page : list MemorySearchResult)
    (vector_cs : list RankedCandidate) : result ReadError (list RankedCandidate) :=
  if negb (fts_fallback_enabled st (Z.of_nat (length vector_page)) (q_limit q) (q_text q)) then Ok [] else
  let exclude := list_to_set (rc_id <$> vector_cs) : gset UUID in
  let* hits := full_text_search env
    {| ft_org_id := q_org_id q; ft_agent_id := q_agent_id q; ft_text := q_text q;
       ft_limit := q_limit q + Z.of_nat (size exclude); ft_min_confidence := q_min_confidence q;
       ft_exclude := exclude |} in
  Ok (fts_candidates hits (q_limit q)).

(** ** Pages *)

Definition page_of (q : FindSimilarQuery) (kept : list MemorySearchResult) : list MemorySearchResult :=
  take (Z.to_nat (q_limit q)) kept.

Definition collapse (st : Settings) (results : list MemorySearchResult) : list MemorySearchResult :=
  if negb (conflict_suppression_enabled st) then results else collapse_conflict_pairs results.

Definition guard_allow (results : list MemorySearchResult) (g : PiiReadGuard) : list MemorySearchResult * PiiReadGuard :=
  allow res_id res_content results g.

Definition rank_opts (st : Settings) : RankOptions :=
  {| ro_floor := composite_relevance_floor st; ro_weights := Some (rank_weights st); ro_overrides := None |}.

Definition rank_fused_window (st : Settings) (env : Env) (q : FindSimilarQuery) (fused : list RankedCandidate)
    (carried : gmap UUID HydratedHit) (pii : PiiReadGuard) : result ReadError (list MemorySearchResult) :=
  let limit := Z.to_nat (q_limit q) in
  let admitted := take limit fused in
  let* missing := hydrate_missing (at_admitted env) q admitted carried in
  let rows := missing ∪ carried in
  let* ranked := rank_hydrated_hits (rank_opts st) (now_first env) admitted rows in
  let '(allowed, pii) := guard_allow ranked pii in
  let kept := collapse st allowed in
  let remaining := drop limit fused in
  if ((q_limit q <=? Z.of_nat (length kept)) || bool_decide (remaining = []))%bool then Ok (page_of q kept) else
  let* missing := hydrate_missing (at_remaining env) q remaining rows in
  let rows := missing ∪ rows in
  let* refilled := rank_hydrated_hits (rank_opts st) (now_second env) fused rows in
  let '(allowed, _) := guard_allow refilled pii in
  Ok (page_of q (collapse st allowed)).

(** [_rerank_scores]: the overrides, the ids the guard allows and the guard, next
    to the documents sent. *)
Record RerankScores := {
  rs_overrides : option (gmap UUID binary64);
  rs_allowed : gset UUID;
  rs_guard : PiiReadGuard;
}.

(** [dict(zip(ids, scores, strict=True))] *)
Fixpoint zip_strict (ids : list UUID) (scores : list binary64) : result ReadError (gmap UUID binary64) :=
  match ids, scores with
  | [], [] => Ok ∅
  | id :: ids, s :: scores => let* m := zip_strict ids scores in Ok (<[id := s]> m)
  | _, _ => Raise ValueError
  end.

Definition rerank_ids (window : list RankedCandidate) (hydrated : gmap UUID HydratedHit) (allowed : gset UUID) : list UUID :=
  List.filter (fun id => (bool_decide (is_Some (hydrated !! id)) && bool_decide (id ∈ allowed))%bool) (rc_id <$> window).

Definition rerank_scores (env : Env) (q : FindSimilarQuery) (window : list RankedCandidate)
    (hydrated : gmap UUID HydratedHit) (pii : PiiReadGuard) : list pystr * result ReadError RerankScores :=
  let '(allowed_rows, pii) := guard_allow ((fun e => hh_result e.2) <$> map_to_list hydrated) pii in
  let allowed := list_to_set (res_id <$> allowed_rows) : gset UUID in
  let ids := rerank_ids window hydrated allowed in
  if Z.of_nat (length ids) <? 2
  then ([], Ok {| rs_overrides := None; rs_allowed := allowed; rs_guard := pii |}) else
  let documents := omap (fun id => (fun h => res_content (hh_result h)) <$> hydrated !! id) ids in
  (documents,
   match rerank_reply env (q_text q) documents with
   | Reranked scores =>
       let* overrides := zip_strict ids scores in
       Ok {| rs_overrides := Some overrides; rs_allowed := allowed; rs_guard := pii |}
   | RerankTimeout | RerankClientError =>
       Ok {| rs_overrides := None; rs_allowed := allowed; rs_guard := pii |}
   end).

(** A search returns its page together with what it sent to the reranker. *)
Definition rank_reranked (st : Settings) (env : Env) (q : FindSimilarQuery) (fused : list RankedCandidate)
    (pii : PiiReadGuard) : list pystr * result ReadError (list MemorySearchResult) :=
  let window := take (Z.to_nat (rerank_max_candidates st)) fused in
  match hydrate_hits (at_window env) (q_org_id q) window (q_min_confidence q) with
  | Raise e => ([], Raise e)
  | Ok hydrated =>
      let '(sent, scored) := rerank_scores env q window hydrated pii in
      (sent,
       let* rs := scored in
       match rs_overrides rs with
       | None => rank_fused_window st env q fused hydrated (rs_guard rs)
       | Some overrides =>
           let* scored := rank_hydrated_hits
             {| ro_floor := ro_floor (rank_opts st); ro_weights := ro_weights (rank_opts st);
                ro_overrides := Some overrides |} (now_reranked env)
             (List.filter (fun item => bool_decide (rc_id item ∈ rs_allowed rs)) window) hydrated in
           match page_of q (collapse st scored) with
           | [] => rank_fused_window st env q fused hydrated (rs_guard rs)
           | ranked => Ok ranked
           end
       end)
  end.

(** The fused union of both channels. *)
Definition hybrid_candidates (st : Settings) (env : Env) (q : FindSimilarQuery) : result ReadError (list RankedCandidate) :=
  let* vector_cs := vector_candidates st env q in
  let* hits := full_text_search env
    {| ft_org_id := q_org_id q; ft_agent_id := q_agent_id q; ft_text := q_text q; ft_limit := q_limit q;
       ft_min_confidence := q_min_confidence q; ft_exclude := ∅ |} in
  fuse_candidates vector_cs (fts_candidates hits (q_limit q)) (search_rrf_k st).

Definition rerank_available (st : Settings) : bool := (rerank_enabled st && rerank_client_present st)%bool.

Definition find_similar_hybrid (st : Settings) (env : Env) (q : FindSimilarQuery)
    : list pystr * result ReadError (list MemorySearchResult) :=
  match hybrid_candidates st env q with
  | Raise e => ([], Raise e)
  | Ok fused =>
      if rerank_available st
      then rank_reranked st env q fused new_guard
      else ([], rank_fused_window st env q fused ∅ new_guard)
  end.

Definition find_similar_fallback (st : Settings) (env : Env) (q : FindSimilarQuery)
    : result ReadError (list MemorySearchResult) :=
  let* vector_cs := vector_candidates st env q in
  let* vector_hydrated := hydrate_hits (at_vector_rows env) (q_org_id q) vector_cs (q_min_confidence q) in
  let* vector_ranked := rank_hydrated_hits (rank_opts st) (now_first env) vector_cs vector_hydrated in
  let '(allowed, pii) := guard_allow vector_ranked new_guard in
  let vector_page := page_of q (collapse st allowed) in
  if q_limit q <=? Z.of_nat (length vector_page) then Ok vector_page else
  let* fts_cs := fts_supplement st env q vector_page vector_cs in
  if bool_decide (fts_cs = []) then Ok vector_page else
  let merged := merge_candidates vector_cs fts_cs in
  let* fts_hydrated := hydrate_hits (at_fts_rows env) (q_org_id q) fts_cs (q_min_confidence q) in
  let all_hydrated := vector_hydrated ∪ fts_hydrated in
  let* all_hydrated :=
    if existsb (fun e : UUID * HydratedHit => negb (bool_decide (res_groups (hh_result e.2) = [])))
         (map_to_list all_hydrated)
    then conflict_groups_snapshot (at_conflicts env) (q_org_id q) all_hydrated
    else Ok all_hydrated in
  let* ranked := rank_hydrated_hits (rank_opts st) (now_second env) merged all_hydrated in
  let '(allowed, _) := guard_allow ranked pii in
  Ok (page_of q (collapse st allowed)).

Definition validate_find_similar_query (q : FindSimilarQuery) : result ReadError unit :=
  raise_if q_limit q <? 1 with ValueError ;;
  raise_if (f_ltb (q_min_confidence q) f_zero || f_ltb (b64_of_Z 1) (q_min_confidence q))%bool with ValueError ;;
  Ok tt.

Definition find_similar (st : Settings) (env : Env) (q : FindSimilarQuery)
    : list pystr * result ReadError (list MemorySearchResult) :=
  match validate_find_similar_query q with
  | Raise e => ([], Raise e)
  | Ok _ =>
      if (search_hybrid_enabled st && is_searchable_query (q_text q))%bool
      then find_similar_hybrid st env q
      else ([], find_similar_fallback st env q)
  end.
End Search.
