(* ===== verification/ModelClients.v ===== *)
(** * The clients of the embedder and the reranker
    ([services/memory/app/clients/]: [embedding.py], [rerank.py], [_http.py])

    Request validation, the retry loop both clients share, and the parsing of
    replies.  The network is an argument: what each attempt of each request meets.
    Sleeping between attempts changes no result and is omitted; the header that
    asks for a delay is parsed, because parsing it can fail. *)

From Stdlib Require Import SpecFloat.
From S2P Require Import Prelude PyText Num MemoryStore PiiGuard ReadRank MemoryRead.

(** ** Replies *)

(** What [Response.json()] gives. *)
Inductive Json :=
| JNull
| JBool (b : bool)
| JInt (z : Z)
| JFloat (x : binary64)
| JStr (s : pystr)
| JList (l : list Json)
| JObj (fields : list (pystr * Json)).

(** An attempt: no answer in time, no connection, or a response with its
    [Retry-After] header and its body, [None] when the body is not JSON. *)
Inductive HttpOutcome :=
| TimedOut
| TransportFailed
| Responded (status : Z) (retry_after : option pystr) (body : option Json).

(** The errors of the two clients, by their common structure, and the exceptions
    of Python that pass through them. *)
Inductive ClientError :=
| ClientTimeout
| ClientUnavailable (retryable : bool)
| ClientRejected
| ClientInvalidResponse
| PyValueError
| PyOverflowError.

#[global] Instance ClientError_eq_dec : EqDecision ClientError.
Proof. solve_decision. Defined.

(** [dict.get]: the last binding of a key is the one [json.loads] keeps. *)
Definition obj_get (k : pystr) (fields : list (pystr * Json)) : Json :=
  default JNull (snd <$> last (List.filter (fun kv => bool_decide (kv.1 = k)) fields)).

(** [float(value)] of a JSON number that is not a bool. *)
Definition py_float (v : Json) (not_a_number : ClientError) : result ClientError binary64 :=
  match v with
  | JFloat x => Ok x
  | JInt z => let x := b64_of_Z z in if b64_is_finite x then Ok x else Raise PyOverflowError
  | _ => Raise not_a_number
  end.

Definition MAX_STR_DIGITS : Z := 4300.

Section Clients.
Context `{UnicodeDB} (u_digit : Z -> bool).      (* [str.isdigit] beyond ASCII *)

Definition ascii_digit (c : Z) : bool := ((48 <=? c) && (c <=? 57))%bool.
Definition is_digit (c : Z) : bool := if c <? 128 then ascii_digit c else u_digit c.

(** [int(text)] of digits: superscripts are digits without a decimal value. *)
Definition decimal (c : Z) : option Z :=
  if c <? 128 then (if ascii_digit c then Some (c - 48) else None) else u_decimal c.

Fixpoint int_of_digits (acc : Z) (s : pystr) : option Z :=
  match s with
  | [] => Some acc
  | c :: s => match decimal c with Some d => int_of_digits (10 * acc + d) s | None => None end
  end.

(** [retry_after_seconds] before the cap. *)
Definition retry_after_seconds (raw : option pystr) : result ClientError (option Z) :=
  match raw with
  | None => Ok None
  | Some raw =>
      let stripped := strip_space raw in
      if (bool_decide (stripped = []) || negb (forallb is_digit stripped))%bool then Ok None
      else if MAX_STR_DIGITS <? Z.of_nat (length stripped) then Raise PyValueError
      else match int_of_digits 0 stripped with
           | None => Raise PyValueError
           | Some n => if b64_is_finite (b64_of_Z n) then Ok (Some n) else Raise PyOverflowError
           end
  end.

Definition RETRYABLE_STATUS : list Z := [429; 502; 503].

(** [_raise_http_error]; the embedder's client reads the header of a 429 only. *)
Definition raise_http_error (reads_header : Z -> bool) (status : Z) (retry_after : option pystr) : ClientError :=
  if existsb (Z.eqb status) [400; 413; 422] then ClientRejected
  else if existsb (Z.eqb status) [401; 403] then ClientUnavailable false
  else match (if reads_header status then retry_after_seconds retry_after else Ok None) with
       | Raise e => e
       | Ok _ => ClientUnavailable (existsb (Z.eqb status) RETRYABLE_STATUS)
       end.

(** [_attempt_post] *)
Definition attempt_post {A} (reads_header : Z -> bool) (parse : option Json -> result ClientError A) (o : HttpOutcome)
    : result ClientError A :=
  match o with
  | TimedOut => Raise ClientTimeout
  | TransportFailed => Raise (ClientUnavailable true)
  | Responded status retry_after body =>
      if status =? 200 then parse body else Raise (raise_http_error reads_header status retry_after)
  end.

(** Whether the loop goes on after an error. *)
Definition may_retry (e : ClientError) : bool :=
  match e with ClientTimeout | ClientUnavailable true => true | _ => false end.

(** [_post_with_retry] and [_post_with_retries] from one attempt on: the result
    and the number of posts. *)
Fixpoint post_with_retries {A} (post : nat -> result ClientError A) (attempt retries : nat) : result ClientError A * nat :=
  match post attempt with
  | Ok a => (Ok a, 1%nat)
  | Raise e =>
      match retries with
      | S retries =>
          if may_retry e then let '(r, n) := post_with_retries post (S attempt) retries in (r, S n) else (Raise e, 1%nat)
      | O => (Raise e, 1%nat)
      end
  end.

(** ** The embedder ([embedding.py]) *)

Definition EXPECTED_DIM : Z := 1024.
Definition MAX_BATCH_TEXTS : Z := 64.
Definition MAX_TEXT_BYTES : Z := 32 * 1024.

Definition validate_one_text (limit : Z) (s : pystr) : result ClientError unit :=
  match utf8_encode s with
  | None => Raise PyValueError
  | Some b => if limit <? Z.of_nat (length b) then Raise ClientRejected else Ok tt
  end.

Definition validate_texts (texts : list pystr) : result ClientError unit :=
  raise_if bool_decide (texts = []) with ClientRejected ;;
  raise_if MAX_BATCH_TEXTS <? Z.of_nat (length texts) with ClientRejected ;;
  let* _ := rmap (validate_one_text MAX_TEXT_BYTES) texts in Ok tt.

Definition require_nonempty_str (v : Json) : result ClientError pystr :=
  match v with JStr (c :: s) => Ok (c :: s) | _ => Raise ClientInvalidResponse end.

Definition require_dimensions (v : Json) : result ClientError Z :=
  match v with JInt z => if z =? EXPECTED_DIM then Ok z else Raise ClientInvalidResponse | _ => Raise ClientInvalidResponse end.

(** [_as_finite_float]: nothing catches the overflow of [float]. *)
Definition as_finite_float (v : Json) : result ClientError binary64 :=
  let* x := py_float v ClientInvalidResponse in
  if b64_is_finite x then Ok x else Raise ClientInvalidResponse.

Definition parse_vector_row (v : Json) : result ClientError (list binary64) :=
  match v with
  | JList row => if Z.of_nat (length row) =? EXPECTED_DIM then rmap as_finite_float row else Raise ClientInvalidResponse
  | _ => Raise ClientInvalidResponse
  end.

Record EmbeddingResult := { vectors : list (list binary64); er_model_id : pystr; er_dimensions : Z; er_backend : pystr }.

(** [_parse_success]: [_load_json_object] and [_parse_embed_body]. *)
Definition parse_embed_body (body : option Json) : result ClientError EmbeddingResult :=
  match body with
  | Some (JObj o) =>
      match obj_get (lit "vectors") o with
      | JList (v :: vs) =>
          let* model_id := require_nonempty_str (obj_get (lit "model_id") o) in
          let* dimensions := require_dimensions (obj_get (lit "dimensions") o) in
          let* backend := require_nonempty_str (obj_get (lit "backend") o) in
          let* rows := rmap parse_vector_row (v :: vs) in
          Ok {| vectors := rows; er_model_id := model_id; er_dimensions := dimensions; er_backend := backend |}
      | _ => Raise ClientInvalidResponse
      end
  | _ => Raise ClientInvalidResponse
  end.

(** [EmbeddingClient.embed]; [posts] are the outcomes of the attempts. *)
Definition embed (max_retries : Z) (posts : nat -> HttpOutcome) (texts : list pystr) : result ClientError EmbeddingResult :=
  let* _ := validate_texts texts in
  (post_with_retries (fun n => attempt_post (Z.eqb 429) parse_embed_body (posts n)) 0 (Z.to_nat (Z.max 0 max_retries))).1.

(** ** The reranker ([rerank.py]) *)

Definition MAX_DOCUMENTS : Z := 64.
Definition MAX_QUERY_BYTES : Z := 8 * 1024.
Definition MAX_DOCUMENT_BYTES : Z := 32 * 1024.

Definition validate_query (query : pystr) : result ClientError unit :=
  raise_if bool_decide (strip_space query = []) with ClientRejected ;;
  validate_one_text MAX_QUERY_BYTES query.

Definition validate_document (d : pystr) : result ClientError unit :=
  raise_if bool_decide (d = []) with ClientRejected ;;
  validate_one_text MAX_DOCUMENT_BYTES d.

Definition validate_request (query : pystr) (documents : list pystr) : result ClientError unit :=
  let* _ := validate_query query in
  raise_if bool_decide (documents = []) with ClientRejected ;;
  raise_if MAX_DOCUMENTS <? Z.of_nat (length documents) with ClientRejected ;;
  let* _ := rmap validate_document documents in Ok tt.

(** [documents[start : start + batch_size]] for each start. *)
Fixpoint split_batches_loop {A} (fuel size : nat) (l : list A) : list (list A) :=
  match fuel, l with
  | S fuel, _ :: _ => take size l :: split_batches_loop fuel size (drop size l)
  | _, _ => []
  end.
Definition split_batches {A} (size : nat) (l : list A) : list (list A) := split_batches_loop (length l) size l.

(** [_as_finite_score]; an overflow is an invalid response here. *)
Definition as_finite_score (v : Json) : result ClientError binary64 :=
  let* x := match py_float v ClientInvalidResponse with Raise PyOverflowError => Raise ClientInvalidResponse | r => r end in
  raise_if negb (b64_is_finite x) with ClientInvalidResponse ;;
  raise_if (f_ltb x f_zero || f_ltb (b64_of_Z 1) x)%bool with ClientInvalidResponse ;;
  Ok x.

Definition require_index (v : Json) (expected : nat) : result ClientError nat :=
  match v with
  | JInt z => if ((z <? 0) || (Z.of_nat expected <=? z))%bool then Raise ClientInvalidResponse else Ok (Z.to_nat z)
  | _ => Raise ClientInvalidResponse
  end.

Definition parse_entry (v : Json) (expected : nat) : result ClientError (nat * binary64) :=
  match v with
  | JObj o =>
      let* index := require_index (obj_get (lit "index") o) expected in
      let* score := as_finite_score (obj_get (lit "score") o) in
      Ok (index, score)
  | _ => Raise ClientInvalidResponse
  end.

(** The loop of [_parse_scores]: the indexes seen and the scores so far. *)
Definition parse_step (expected : nat) (acc : list nat * list binary64) (v : Json)
    : result ClientError (list nat * list binary64) :=
  let* '(index, score) := parse_entry v expected in
  if bool_decide (index ∈ acc.1) then Raise ClientInvalidResponse
  else Ok (index :: acc.1, <[index := score]> acc.2).

Definition parse_scores (expected : nat) (body : option Json) : result ClientError (list binary64) :=
  match body with
  | Some (JList l) =>
      if negb (length l =? expected)%nat then Raise ClientInvalidResponse
      else let* acc := rfold (parse_step expected) ([], replicate expected f_zero) l in Ok acc.2
  | _ => Raise ClientInvalidResponse
  end.

Definition batch_scores (max_retries : Z) (posts : nat -> HttpOutcome) (expected : nat) : result ClientError (list binary64) :=
  (post_with_retries (fun n => attempt_post (fun _ => true) (parse_scores expected) (posts n)) 0
     (Z.to_nat (Z.max 0 max_retries))).1.

(** [asyncio.gather]: every result, or the failure that came first. *)
Definition gather {A} (first : list ClientError -> ClientError) (l : list (result ClientError A)) : result ClientError (list A) :=
  match omap (fun r => match r with Raise e => Some e | Ok _ => None end) l with
  | [] => Ok (omap (fun r => match r with Ok a => Some a | Raise _ => None end) l)
  | errors => Raise (first errors)
  end.

(** [RerankClient.rerank]; [posts k n] is attempt [n] of batch [k]. *)
Definition rerank (max_retries client_batch_size : Z) (first : list ClientError -> ClientError)
    (posts : nat -> nat -> HttpOutcome) (query : pystr) (documents : list pystr) : result ClientError (list binary64) :=
  let* _ := validate_request query documents in
  let size := Z.to_nat (Z.max 1 client_batch_size) in
  let* scores := gather first (imap (fun k b => batch_scores max_retries (posts k) (length b)) (split_batches size documents)) in
  Ok (mjoin scores).

(** ** The retry loop *)

(** The loop returns what its last post gave; it made at most one post more than
    the retries allowed, and every earlier post failed in a way that may pass. *)
Lemma post_with_retries_spec {A} (post : nat -> result ClientError A) attempt retries r n :
  post_with_retries post attempt retries = (r, n) ->
  (1 <= n <= S retries)%nat /\ r = post (attempt + pred n)%nat /\
  forall j, (j < pred n)%nat -> exists e, post (attempt + j)%nat = Raise e /\ may_retry e = true.
Proof.
  revert attempt r n. induction retries as [|retries IH]; intros attempt r n; cbn [post_with_retries];
    (destruct (post attempt) as [a|e] eqn:Hp; [|]).
  1-3: intros [= <- <-]; rewrite Nat.add_0_r; (split; [lia|]); (split; [done|]); intros; cbn in *; lia.
  destruct (may_retry e) eqn:He.
  - destruct (post_with_retries post (S attempt) retries) as [r' n'] eqn:Hrec. intros [= <- <-].
    destruct (IH _ _ _ Hrec) as (Hn & -> & Hj). split; [lia|]. cbn [pred].
    split; [f_equal; lia|]. intros j Hlt. destruct j as [|j].
    + exists e. by rewrite Nat.add_0_r.
    + replace (attempt + S j)%nat with (S attempt + j)%nat by lia. apply Hj. lia.
  - intros [= <- <-]. rewrite Nat.add_0_r. split; [lia|]. split; [done|]. intros; cbn in *; lia.
Qed.

(** Every attempt of a client either succeeds, ends the loop, or is one of the
    failures worth repeating: no answer in time, no connection, 429, 502 or 503. *)
Lemma retried_outcomes {A} reads_header (parse : option Json -> result ClientError A) o e :
  (forall body e', parse body = Raise e' -> may_retry e' = false) ->
  attempt_post reads_header parse o = Raise e -> may_retry e = true ->
  o = TimedOut \/ o = TransportFailed \/ exists status h body, o = Responded status h body /\ status ∈ RETRYABLE_STATUS.
Proof.
  intros Hparse. destruct o as [| |status h body]; cbn; [auto..|]. destruct (status =? 200); [by intros ->%Hparse|].
  intros [= <-] Hr. right. right. exists status, h, body. split; [done|]. unfold raise_http_error in Hr.
  destruct (existsb _ [400; _; _]); [done|]. destruct (existsb _ [401; _]); [done|].
  destruct (if _ : bool then _ else _) as [x|e] eqn:Hh.
  - destruct (existsb (Z.eqb status) RETRYABLE_STATUS) eqn:Hs; [|done].
    apply existsb_exists in Hs as (s & Hin & ->%Z.eqb_eq). by apply list_elem_of_In.
  - exfalso. destruct (reads_header status); [|done]. unfold retry_after_seconds in Hh.
    by repeat (case_match; simplify_eq/=).
Qed.

(** ** Parsing *)

Lemma as_finite_float_Ok v x : as_finite_float v = Ok x -> b64_is_finite x = true.
Proof. intros (y & _ & Hy)%rbind_Ok. by destruct (b64_is_finite y) eqn:?; simplify_eq. Qed.

Lemma parse_vector_row_Ok v row : parse_vector_row v = Ok row ->
  Z.of_nat (length row) = EXPECTED_DIM /\ Forall (fun x => b64_is_finite x = true) row.
Proof.
  destruct v; try done. cbn [parse_vector_row]. destruct (_ =? _) eqn:Hl; [|done]. intros Hr. apply rmap_Ok in Hr.
  apply Z.eqb_eq in Hl. split; [by rewrite <- (Forall2_length _ _ _ Hr)|].
  clear Hl. induction Hr; constructor; [by eapply as_finite_float_Ok|done].
Qed.

(** An embedding that comes back can be searched with: at least one vector, each
    of 1024 finite numbers, whatever the embedder sent and however often it was
    asked. *)
Theorem embedding_is_usable max_retries posts texts r org agent limit :
  embed max_retries posts texts = Ok r -> 1 <= limit ->
  vectors r <> [] /\
  forall v, v ∈ vectors r -> Forall (fun x => b64_is_finite x = true) v /\
    validate_search_request {| sr_org_id := org; sr_agent_id := agent; sr_embedding := v; sr_limit := limit;
                               sr_min_similarity := None |} = Ok tt.
Proof.
  intros (_ & _ & Hp)%rbind_Ok Hlim. destruct (post_with_retries _ _ _) as [res n] eqn:Hr. cbn in Hp. subst res.
  apply post_with_retries_spec in Hr as (_ & Hok & _). symmetry in Hok. unfold attempt_post in Hok.
  destruct (posts _) as [| |status h body]; [done..|]. destruct (status =? 200); [|done].
  unfold parse_embed_body in Hok. destruct body as [[]|]; try done. destruct (obj_get _ _) as [| | | | |[|v0 vs]|]; try done.
  apply rbind_Ok in Hok as (mid & _ & Hok). apply rbind_Ok in Hok as (dim & _ & Hok).
  apply rbind_Ok in Hok as (be & _ & Hok). apply rbind_Ok in Hok as (rows & Hrows & [= <-]). cbn [vectors].
  apply rmap_Ok in Hrows. split; [by destruct rows; [inversion Hrows|]|].
  intros v [i Hi]%list_elem_of_lookup. destruct (Forall2_lookup_r _ _ _ _ _ Hrows Hi) as (j & _ & Hj).
  apply parse_vector_row_Ok in Hj as [Hlen Hfin]. split; [done|]. unfold validate_search_request. cbn.
  unfold EXPECTED_DIM in Hlen. rewrite Hlen. cbn. by rewrite (proj2 (Z.ltb_ge limit 1)).
Qed.

(** ** Scores and documents *)

Lemma parse_entry_Ok v expected i s : parse_entry v expected = Ok (i, s) ->
  (i < expected)%nat /\ b64_is_finite s = true /\ f_ltb s f_zero = false /\ f_ltb (b64_of_Z 1) s = false /\
  exists o, v = JObj o /\ obj_get (lit "index") o = JInt (Z.of_nat i) /\
    py_float (obj_get (lit "score") o) ClientInvalidResponse = Ok s.
Proof.
  destruct v as [| | | | | |o]; try done. cbn [parse_entry].
  intros (i' & Hi & (s' & Hs & [= -> ->])%rbind_Ok)%rbind_Ok.
  unfold require_index in Hi. destruct (obj_get (lit "index") o) as [| |z| | | |] eqn:Hz; try done.
  destruct (_ || _)%bool eqn:Hrange; [done|]. apply orb_false_elim in Hrange as [H1 H2]. injection Hi as <-.
  apply Z.ltb_ge in H1. apply Z.leb_gt in H2.
  unfold as_finite_score in Hs. apply rbind_Ok in Hs as (x & Hx & Hs).
  destruct (b64_is_finite x) eqn:Hf; [|done]. cbn in Hs. destruct (_ || _)%bool eqn:Hr; [done|]. injection Hs as <-.
  apply orb_false_elim in Hr as [? ?]. split; [lia|]. split; [done|]. split; [done|]. split; [done|].
  exists o. split; [done|]. rewrite Z2Nat.id by lia. split; [done|].
  destruct (py_float _ _) as [y|[]]; by simplify_eq.
Qed.

(** The loop over the entries: every index at most once, and each score in the
    place its entry names. *)
Lemma parse_loop_spec expected l seen sc seen' sc' :
  rfold (parse_step expected) (seen, sc) l = Ok (seen', sc') ->
  exists entries, Forall2 (fun v e => parse_entry v expected = Ok e) l entries /\
    seen' = reverse (entries.*1) ++ seen /\ sc' = foldl (fun sc e => <[e.1 := e.2]> sc) sc entries /\
    NoDup (entries.*1) /\ (forall i, i ∈ entries.*1 -> i ∉ seen).
Proof.
  revert seen sc. induction l as [|v l IH]; intros seen sc; cbn [rfold].
  { intros [= <- <-]. exists []. split; [done|]. split; [done|]. split; [done|]. split; [constructor|]. intros i Hi. by inversion Hi. }
  intros ([seen1 sc1] & ([i s] & He & Hst)%rbind_Ok & (entries & Hall & -> & -> & Hnd & Hfresh)%IH)%rbind_Ok.
  cbn [fst snd] in Hst. case_bool_decide as Hin; [done|]. injection Hst as <- <-.
  exists ((i, s) :: entries). split; [by constructor|]. split; [by rewrite fmap_cons, reverse_cons, <- app_assoc|].
  split; [done|]. rewrite fmap_cons. split.
  - constructor; [|done]. intros Hi. apply (Hfresh i Hi). left.
  - intros j [->|Hj]%elem_of_cons; [done|]. specialize (Hfresh j Hj). intros ?. apply Hfresh. by right.
Qed.

Lemma foldl_insert_lookup (entries : list (nat * binary64)) (sc : list binary64) :
  NoDup (entries.*1) -> Forall (fun e => (e.1 < length sc)%nat) entries ->
  length (foldl (fun sc e => <[e.1 := e.2]> sc) sc entries) = length sc /\
  forall i s, (i, s) ∈ entries -> foldl (fun sc e => <[e.1 := e.2]> sc) sc entries !! i = Some s.
Proof.
  induction entries as [|[j x] entries IH] using rev_ind; intros Hnd Hlt; [split; [done|]; intros i s Hi; by inversion Hi|].
  rewrite fmap_app in Hnd. apply NoDup_app in Hnd as (Hnd & Hj & _). apply Forall_app in Hlt as [Hlt Hx].
  destruct (IH Hnd Hlt) as [Hlen Hlook]. rewrite foldl_app. cbn [foldl fst snd]. rewrite length_insert. split; [done|].
  intros i s [Hi|Heq%list_elem_of_singleton]%elem_of_app; [|injection Heq as -> ->].
  - rewrite list_lookup_insert_ne; [by apply Hlook|]. intros ->. apply (Hj i); [by apply (list_elem_of_fmap_2 fst) in Hi|by left].
  - apply list_lookup_insert_eq. rewrite Hlen. by apply Forall_inv in Hx.
Qed.

(** What a reply that parses says: one score per document, and each is the score
    of the one entry that names its index. *)
Lemma parse_scores_spec expected body sc :
  parse_scores expected body = Ok sc ->
  exists l entries, body = Some (JList l) /\ Forall2 (fun v e => parse_entry v expected = Ok e) l entries /\
    NoDup (entries.*1) /\ length sc = expected /\ forall i s, sc !! i = Some s <-> (i, s) ∈ entries.
Proof.
  destruct body as [[]|]; try done. cbn [parse_scores]. destruct (_ =? _)%nat eqn:Hlen; [|done]. apply Nat.eqb_eq in Hlen.
  intros ([seen sc'] & Hloop & [= <-])%rbind_Ok. apply parse_loop_spec in Hloop as (entries & Hall & _ & Hsc & Hnd & _).
  exists l, entries. split; [done|]. split; [done|]. split; [done|]. cbn [snd].
  assert (Forall (fun e : nat * binary64 => (e.1 < expected)%nat) entries) as Hlt.
  { clear -Hall. induction Hall as [|v [i s] l es Hv]; constructor; [|done].
    by apply parse_entry_Ok in Hv as [? _]. }
  destruct (foldl_insert_lookup entries (replicate expected f_zero) Hnd) as [Hl Hlook]; [by rewrite length_replicate|].
  rewrite <- Hsc in Hl, Hlook. rewrite length_replicate in Hl. split; [done|]. intros i s. split; [|apply Hlook]. intros Hi.
  assert (i ∈ entries.*1) as ([j x] & -> & Hin)%list_elem_of_fmap.
  { rewrite (submseteq_length_Permutation (entries.*1) (seq 0 expected)).
    - apply elem_of_seq. apply lookup_lt_Some in Hi. lia.
    - apply NoDup_submseteq; [done|]. intros k (e & -> & He)%list_elem_of_fmap. apply elem_of_seq.
      rewrite Forall_forall in Hlt. specialize (Hlt e He). lia.
    - rewrite length_fmap, length_seq, <- (Forall2_length _ _ _ Hall). lia. }
  cbn [fst] in Hi. rewrite (Hlook j x Hin) in Hi. by injection Hi as ->.
Qed.

(** ** Batches *)

Lemma split_batches_lookup {A} fuel size (l : list A) (ss : list (list binary64)) i :
  (1 <= size)%nat -> (length l <= fuel)%nat ->
  Forall2 (fun b s => length s = length b) (split_batches_loop fuel size l) ss ->
  length (mjoin ss) = length l /\ mjoin ss !! i = ss !! (i / size)%nat ≫= fun s => s !! (i mod size)%nat.
Proof.
  intros Hsize. revert l ss i. induction fuel as [|fuel IH]; intros [|x l] ss i Hf Hall; cbn [split_batches_loop length] in *;
    try lia; try (apply Forall2_nil_inv_l in Hall as ->; split; [done|]; by rewrite !lookup_nil).
  apply Forall2_cons_inv_l in Hall as (s & ss' & Hs & Hall & ->).
  change (mjoin (s :: ss')) with (s ++ mjoin ss'). rewrite length_app, Hs, length_take.
  assert (length (drop size (x :: l)) <= fuel)%nat as Hd by (rewrite length_drop; cbn [length]; lia).
  destruct (IH _ _ (i - size)%nat Hd Hall) as [Hlen Hlook]. rewrite Hlen, length_drop. cbn [length] in *.
  split; [lia|]. rewrite lookup_app.
  destruct (decide (i < size)%nat) as [Hi|Hi].
  - rewrite (Nat.div_small i size), (Nat.mod_small i size) by done. cbn.
    destruct (s !! i) as [v|] eqn:Hv; [done|]. apply lookup_ge_None in Hv. rewrite Hs, length_take in Hv. cbn in Hv.
    apply lookup_ge_None. rewrite Hlen, length_drop. cbn. lia.
  - rewrite (lookup_ge_None_2 s i) by (rewrite Hs, length_take; lia). rewrite Hs, length_take. cbn [length].
    assert (i / size = S ((i - size) / size))%nat as ->.
    { replace i with ((i - size) + 1 * size)%nat at 1 by lia. rewrite Nat.div_add by lia. lia. }
    assert (i mod size = (i - size) mod size)%nat as ->.
    { replace i with ((i - size) + 1 * size)%nat at 1 by lia. by rewrite Nat.Div0.mod_add. }
    set (k := ((i - size) / size)%nat) in *. change ((s :: ss') !! S k) with (ss' !! k). rewrite <- Hlook.
    destruct (decide (size <= S (length l))%nat) as [Hle|Hgt]; [f_equal; lia|].
    rewrite !lookup_ge_None_2; [done|rewrite Hlen, length_drop; cbn; lia..].
Qed.

Lemma gather_Ok {A} first (l : list (result ClientError A)) r : gather first l = Ok r -> l = Ok <$> r.
Proof.
  unfold gather. destruct (omap _ l) eqn:He; [|done]. intros [= <-].
  induction l as [|[a|e] l IH]; cbn in *; [done|by rewrite <- IH|done].
Qed.

(** The score of a document: the entry of its batch's reply that names its place
    in the batch says it, and any other entry that names the place says the same. *)
Definition scored_by (o : HttpOutcome) (place : nat) (s : binary64) : Prop :=
  exists h l, o = Responded 200 h (Some (JList l)) /\
    (exists v, v ∈ l /\ parse_entry v (length l) = Ok (place, s)) /\
    (forall v s', v ∈ l -> parse_entry v (length l) = Ok (place, s') -> s' = s).

Lemma batch_scores_Ok max_retries posts expected sc :
  batch_scores max_retries posts expected = Ok sc ->
  length sc = expected /\ exists n, Z.of_nat n <= Z.max 0 max_retries /\
    (forall m, (m < n)%nat -> is_ok (attempt_post (fun _ => true) (parse_scores expected) (posts m)) = false) /\
    forall i s, sc !! i = Some s -> scored_by (posts n) i s.
Proof.
  unfold batch_scores. destruct (post_with_retries _ _ _) as [r k] eqn:Hp. cbn [fst]. intros ->.
  apply post_with_retries_spec in Hp as (Hk & Hr & Hearly). cbn [Nat.add] in *. symmetry in Hr.
  unfold attempt_post in Hr. destruct (posts _) as [| |status h body] eqn:Ho; [done..|].
  destruct (status =? 200) eqn:Hst; [|done]. apply Z.eqb_eq in Hst as ->.
  apply parse_scores_spec in Hr as (l & entries & -> & Hall & Hnd & Hlen & Hiff). split; [done|].
  exists (pred k). split; [lia|]. split.
  { intros m Hm. destruct (Hearly m Hm) as (e & He & _). by rewrite He. }
  assert (expected = length l) as Hexp.
  { assert (forall i, (i < expected)%nat -> i ∈ entries.*1) as Hin.
    { intros i Hi. rewrite <- Hlen in Hi. apply lookup_lt_is_Some in Hi as [s Hs].
      apply Hiff in Hs. by apply (list_elem_of_fmap_2 fst) in Hs. }
    rewrite (Forall2_length _ _ _ Hall), <- (length_fmap fst entries), <- (length_seq expected 0).
    apply Nat.le_antisymm; apply submseteq_length, NoDup_submseteq; try first [apply NoDup_seq|done].
    - intros i Hi%elem_of_seq. apply Hin. lia.
    - intros i ([j x] & -> & He)%list_elem_of_fmap. apply elem_of_seq. cbn.
      apply Hiff, lookup_lt_Some in He. lia. }
  intros i s Hs. apply Hiff in Hs. exists h, l. split; [done|]. rewrite <- Hexp. split.
  - apply list_elem_of_lookup in Hs as [j Hj]. destruct (Forall2_lookup_r _ _ _ _ _ Hall Hj) as (v & Hv & He).
    exists v. split; [|done]. by eapply list_elem_of_lookup_2.
  - intros v s' [j Hj]%list_elem_of_lookup He. destruct (Forall2_lookup_l _ _ _ _ _ Hall Hj) as (e & He' & Hv).
    rewrite He in Hv. injection Hv as <-. apply list_elem_of_lookup_2, Hiff in He'. apply Hiff in Hs. congruence.
Qed.

(** The reranker's scores belong to the documents they are returned for: there is
    one per document, finite and within [0, 1], and score [i] is what the reply to
    the batch of document [i] says about its place in that batch, after no more
    attempts than the retries allow.  A reply with a missing, repeated or foreign
    index never yields scores. *)
Theorem rerank_scores_follow_documents max_retries client_batch_size first posts query documents scores :
  rerank max_retries client_batch_size first posts query documents = Ok scores ->
  let size := Z.to_nat (Z.max 1 client_batch_size) in
  length scores = length documents /\
  forall i s, scores !! i = Some s ->
    (b64_is_finite s = true /\ f_ltb s f_zero = false /\ f_ltb (b64_of_Z 1) s = false) /\
    exists n, Z.of_nat n <= Z.max 0 max_retries /\ scored_by (posts (i / size)%nat n) (i mod size)%nat s.
Proof.
  intros (_ & _ & (ss & Hg & [= <-])%rbind_Ok)%rbind_Ok size. apply gather_Ok in Hg. fold size in Hg.
  assert (forall k b sc, split_batches size documents !! k = Some b -> ss !! k = Some sc ->
            batch_scores max_retries (posts k) (length b) = Ok sc) as Hbatch.
  { intros k b sc Hb Hsc. apply (f_equal (fun l => l !! k)) in Hg.
    rewrite list_lookup_imap, list_lookup_fmap, Hb, Hsc in Hg. by injection Hg. }
  assert (Forall2 (fun b s => length s = length b) (split_batches size documents) ss) as Hall.
  { apply Forall2_same_length_lookup_2.
    - apply (f_equal length) in Hg. by rewrite length_imap, length_fmap in Hg.
    - intros k b sc Hb Hsc. by apply (batch_scores_Ok max_retries (posts k)), Hbatch. }
  assert (1 <= size)%nat as Hsize by (unfold size; lia).
  split; [by apply (split_batches_lookup (length documents) size documents ss 0)|].
  intros i s Hs. destruct (split_batches_lookup (length documents) size documents ss i Hsize (le_n _) Hall) as [_ Hl].
  rewrite Hs in Hl. symmetry in Hl. apply bind_Some in Hl as (sc & Hsc & Hi).
  destruct (Forall2_lookup_r _ _ _ _ _ Hall Hsc) as (b & Hb & _).
  destruct (batch_scores_Ok _ _ _ _ (Hbatch _ _ _ Hb Hsc)) as (_ & n & Hn & _ & Hscored).
  specialize (Hscored _ _ Hi). split; [|by exists n].
  destruct Hscored as (h & l & _ & (v & _ & Hv) & _). by apply parse_entry_Ok in Hv as (_ & ? & ? & ? & _).
Qed.
End Clients.

(** ** Concrete replies *)

Module ClientSample.
#[local] Existing Instance ascii_db.

(** The superscripts of the Latin-1 range. *)
Definition latin1_digit (c : Z) : bool := existsb (Z.eqb c) [178; 179; 185].

Definition entry (i s : Z) : Json := JObj [(lit "index", JInt i); (lit "score", JInt s)].

(** Batches of two; the first batch answers in the other order, after a 503. *)
Definition posts (k n : nat) : HttpOutcome :=
  match k, n with
  | O, O => Responded 503 None None
  | O, _ => Responded 200 None (Some (JList [entry 1 1; entry 0 0]))
  | _, _ => Responded 200 None (Some (JList [entry 0 1]))
  end.

Definition first_of (l : list ClientError) : ClientError := default ClientTimeout (head l).
Definition documents : list pystr := [lit "a"; lit "b"; lit "c"].

Definition scores : list binary64 := [b64_of_Z 0; b64_of_Z 1; b64_of_Z 1].

Lemma rerank_scores_follow_documents_witness :
  exists n, Z.of_nat n <= 1 /\ scored_by (posts 0 n) 1 (b64_of_Z 1).
Proof.
  refine (proj2 (proj2 (rerank_scores_follow_documents latin1_digit 1 2 first_of posts (lit "q") documents scores _)
    1%nat (b64_of_Z 1) _)); vm_compute; reflexivity.
Defined.

(** An embedder's reply with one vector. *)
Definition reply (component : Json) : Json :=
  JObj [(lit "vectors", JList [JList (component :: replicate 1023 (JInt 1))]); (lit "model_id", JStr (lit "bge-m3"));
        (lit "dimensions", JInt 1024); (lit "backend", JStr (lit "tei"))].

Definition vector : list binary64 := replicate 1024 (b64_of_Z 1).

Lemma embedding_is_usable_witness :
  Forall (fun x => b64_is_finite x = true) vector.
Proof.
  refine (proj1 (proj2 (embedding_is_usable latin1_digit 2 (fun _ => Responded 200 None (Some (reply (JInt 1)))) [lit "tea"]
    {| vectors := [vector]; er_model_id := lit "bge-m3"; er_dimensions := 1024; er_backend := lit "tei" |} "o" "a" 1 _ _) vector _));
    [vm_compute; reflexivity|lia|left].
Defined.

(** A component too large for a float passes through the embedder's client as an
    [OverflowError]; the reranker's client turns the same number into its own
    error. *)
Theorem huge_component_escapes :
  let huge := JInt (10 ^ 400) in
  embed latin1_digit 2 (fun _ => Responded 200 None (Some (reply huge))) [lit "tea"] = Raise PyOverflowError /\
  as_finite_score huge = Raise ClientInvalidResponse.
Proof. vm_compute. done. Qed.

(** A superscript is a digit that [int] does not read: a [Retry-After] of one makes
    both clients raise a [ValueError] instead of their own error. *)
Theorem superscript_delay_escapes :
  retry_after_seconds latin1_digit (Some [178]) = Raise PyValueError /\
  embed latin1_digit 2 (fun _ => Responded 429 (Some [178]) None) [lit "tea"] = Raise PyValueError /\
  embed latin1_digit 2 (fun _ => Responded 429 (Some (lit "7")) None) [lit "tea"] = Raise (ClientUnavailable true).
Proof. vm_compute. done. Qed.
End ClientSample.
