(* ===== verification/MemorySearch.v ===== *)
(** * What a memory search guarantees

    Theorems about [MemoryRead]: what every page holds, what leaves the service
    for the reranker, when a page may be short, and which conflicts a page can
    contain. *)

From Stdlib Require Import SpecFloat.
From S2P Require Import Prelude Num PyText Collapse MemoryStore PiiGuard ReadRank MemoryRead.

Section Invariants.
Context `{UnicodeDB} `{WordDB} `{Libm}.
Context (st : Settings) (env : Env) (q : FindSimilarQuery).

(** ** Rows *)

(** The snapshots that hydrate rows, and those that give their conflict groups. *)
Definition hydrates (s : Snapshot) : Prop :=
  Ok s ∈ [at_window env; at_admitted env; at_remaining env; at_vector_rows env; at_fts_rows env].
Definition shows_groups (s : Snapshot) : Prop := hydrates s \/ at_conflicts env = Ok s.

(** The memory of a row, as a hydrating statement saw it. *)
Definition live_at (s : Snapshot) (id : UUID) (m : Memory) : Prop :=
  sn_memories s !! id = Some m /\ org_id (life m) = q_org_id q /\ visible s m = true /\
  confident (q_min_confidence q) m = true.

Record row_ok (id : UUID) (h : HydratedHit) : Prop := {
  rk_id : res_id (hh_result h) = id;
  rk_live : exists s m c, hydrates s /\ live_at s id m /\
    h = with_conflict_groups (hydrated_row s id m c) (res_groups (hh_result h));
  rk_groups : exists s, shows_groups s /\ res_groups (hh_result h) = groups_at s (q_org_id q) id;
}.

Definition rows_ok (rows : gmap UUID HydratedHit) : Prop := forall id h, rows !! id = Some h -> row_ok id h.

Lemma rows_ok_union r r' : rows_ok r -> rows_ok r' -> rows_ok (r ∪ r').
Proof. intros Hr Hr' id h [Hh|[_ Hh]]%lookup_union_Some_raw; eauto. Qed.

Lemma rows_ok_empty : rows_ok ∅.
Proof. intros id h Hh. by rewrite lookup_empty in Hh. Qed.

Lemma hydrate_sql_lookup s org cs mc id h : hydrate_sql s org cs mc !! id = Some h <->
  exists m c, sn_memories s !! id = Some m /\ candidate_by_id cs !! id = Some c /\ org_id (life m) = org /\
    confident mc m = true /\ visible s m = true /\ h = hydrated_row s id m c.
Proof.
  unfold hydrate_sql. rewrite map_lookup_imap. split.
  - destruct (sn_memories s !! id) as [m|]; cbn; [|done]. destruct (candidate_by_id cs !! id) as [c|]; [|done].
    destruct (_ && _ && _)%bool eqn:E; [|done]. bools. intros [= <-]. exists m, c.
    split_and!; done || by apply bool_decide_eq_true.
  - intros (m & c & -> & Hc & Ho & Hcf & Hv & ->). cbn. by rewrite Hc, Ho, bool_decide_eq_true_2, Hcf, Hv.
Qed.

Lemma groups_at_row s id m : live_at s id m -> groups_at s (q_org_id q) id = pending_groups s (q_org_id q) id.
Proof. intros (Hm & Ho & _). unfold groups_at. by rewrite Hm, Ho, bool_decide_eq_true_2. Qed.

Lemma hydrate_rows_ok at_ cs rows : at_ ∈ [at_window env; at_admitted env; at_remaining env; at_vector_rows env; at_fts_rows env] ->
  hydrate_hits at_ (q_org_id q) cs (q_min_confidence q) = Ok rows -> rows_ok rows.
Proof.
  intros Hat. unfold hydrate_hits. case_bool_decide; [intros [= <-]; apply rows_ok_empty|].
  intros (s & -> & [= <-])%rbind_Ok id h (m & c & Hm & Hc & Ho & Hcf & Hv & ->)%hydrate_sql_lookup.
  assert (live_at s id m) as Hl by done. split; [done|by exists s, m, c|].
  exists s. split; [by left|]. cbn. by rewrite (groups_at_row s id m Hl), Ho.
Qed.

Lemma hydrate_missing_ok at_ cs known rows : at_ ∈ [at_window env; at_admitted env; at_remaining env; at_vector_rows env; at_fts_rows env] ->
  hydrate_missing at_ q cs known = Ok rows -> rows_ok rows /\ (forall id, is_Some (known !! id) -> rows !! id = None).
Proof.
  intros Hat. unfold hydrate_missing. case_bool_decide as Hm; [intros [= <-]; split; [apply rows_ok_empty|done]|].
  intros Hr. split; [by eapply hydrate_rows_ok|]. intros id Hk.
  unfold hydrate_hits in Hr. rewrite bool_decide_eq_false_2 in Hr by done.
  apply rbind_Ok in Hr as (s & _ & [= <-]). destruct (hydrate_sql _ _ _ _ !! id) as [h|] eqn:E; [|done].
  apply hydrate_sql_lookup in E as (m & c & _ & [Hc <-]%candidate_by_id_elem & _).
  apply list_elem_of_In, filter_In in Hc as [_ Hc]. by rewrite bool_decide_eq_true_2 in Hc.
Qed.

Lemma conflict_snapshot_ok rows rows' : rows_ok rows ->
  conflict_groups_snapshot (at_conflicts env) (q_org_id q) rows = Ok rows' -> rows_ok rows'.
Proof.
  intros Hr. unfold conflict_groups_snapshot. case_bool_decide; [intros [= <-]; done|].
  intros (s & Hs & [= <-])%rbind_Ok id h Hh. rewrite map_lookup_imap in Hh.
  destruct (rows !! id) as [h0|] eqn:E; cbn in Hh; [|done]. injection Hh as <-.
  destruct (Hr id h0 E) as [Hid (s0 & m & c & Hs0 & Hl & E0) _]. split; [done| |].
  - exists s0, m, c. split_and!; [done|done|]. rewrite E0. done.
  - exists s. split; [by right|done].
Qed.

(** ** Contents under the guard *)

Definition contents (rows : gmap UUID HydratedHit) : gmap UUID pystr :=
  (fun h => res_content (hh_result h)) <$> rows.

Lemma contents_mono rows rows' : (forall id h, rows !! id = Some h -> rows' !! id = Some h) -> contents rows ⊆ contents rows'.
Proof.
  intros Hsub. apply map_subseteq_spec. intros id c Hc. unfold contents in *. rewrite lookup_fmap in *.
  destruct (rows !! id) as [h|] eqn:E; [|done]. by rewrite (Hsub id h E).
Qed.

(** Ranked results are rows, under their own ids, once each. *)
Lemma ranked_rows opts now cs rows out : rows_ok rows -> rank_hydrated_hits opts now cs rows = Ok out ->
  NoDup (res_id <$> out) /\
  (forall r, r ∈ out -> exists h c, rows !! res_id r = Some h /\ hh_result h = r /\ c ∈ cs /\ rc_id c = res_id r /\
     SFleb (ro_floor opts) (relevance_for c opts) = true) /\
  (forall id h c, rows !! id = Some h -> candidate_by_id cs !! id = Some c ->
     SFleb (ro_floor opts) (relevance_for c opts) = true -> hh_result h ∈ out).
Proof.
  intros Hrows (scored & -> & Hnd & _ & Hsc & Hall)%rank_spec.
  assert (forall x, x ∈ scored -> x.2.1 = res_id x.2.2) as Hid.
  { intros [s [i r]] (h & c & Hh & _ & <- & _)%Hsc. cbn. by rewrite (rk_id _ _ (Hrows _ _ Hh)). }
  split_and!.
  - rewrite <- list_fmap_compose.
    assert ((res_id ∘ (fun x => x.2.2)) <$> scored = (fun x => x.2.1) <$> scored) as ->; [|done].
    apply list_fmap_ext. intros i x Hx. cbn. symmetry. by apply Hid, (list_elem_of_lookup_2 _ i).
  - intros r ([s [i r']] & -> & Hin)%list_elem_of_fmap. pose proof (Hid _ Hin) as Hi. cbn in Hi |- *.
    apply Hsc in Hin as (h & c & Hh & [Hc Hci]%candidate_by_id_elem & Hr & Hf & _). exists h, c. by rewrite <- Hi.
  - intros i h c Hh Hc Hf. destruct (Hall i h c Hh Hc Hf) as [s Hs]. apply list_elem_of_fmap. by exists (s, (i, hh_result h)).
Qed.

Lemma ranked_guard opts now cs rows out g : rows_ok rows -> guard_ok (contents rows) g ->
  rank_hydrated_hits opts now cs rows = Ok out ->
  (guard_allow out g).1 = filter_pii_blocked_results res_content out /\ guard_ok (contents rows) (guard_allow out g).2.
Proof.
  intros Hrows Hg Hr. apply allow_spec; [done|]. intros r Hin.
  apply ranked_rows in Hr as (_ & Hrow & _); [|done]. destruct (Hrow r Hin) as (h & c & Hh & <- & _).
  unfold contents. by rewrite lookup_fmap, Hh.
Qed.

(** ** Pages *)

(** A result that may be returned: the row of a candidate, with nothing the guard
    blocks. *)
Definition good (cs : list RankedCandidate) (r : MemorySearchResult) : Prop :=
  (exists h, hh_result h = r /\ row_ok (res_id r) h) /\ (exists c, c ∈ cs /\ rc_id c = res_id r) /\
  should_block_read_result (res_content r) = false.

Record page_good (cs : list RankedCandidate) (page : list MemorySearchResult) : Prop := {
  pg_length : Z.of_nat (length page) <= q_limit q;
  pg_nodup : NoDup (res_id <$> page);
  pg_good : forall r, r ∈ page -> good cs r;
  pg_free : conflict_suppression_enabled st = true ->
    forall r r', r ∈ page -> r' ∈ page -> r <> r' -> ~ share_conflict res_groups r r';
}.

Lemma collapse_sub l : sublist (collapse st l) l.
Proof.
  unfold collapse, collapse_conflict_pairs. destruct (conflict_suppression_enabled st); cbn; [|done].
  destruct (collapse_sublist res_groups l [] ∅) as (l' & Hl & ->). done.
Qed.

Lemma page_of_good cs l : 1 <= q_limit q -> NoDup (res_id <$> l) -> (forall r, r ∈ l -> good cs r) ->
  page_good cs (page_of q (collapse st l)).
Proof.
  intros Hq Hnd Hl. pose proof (collapse_sub l) as Hsub. unfold page_of.
  pose proof (sublist_take (collapse st l) (Z.to_nat (q_limit q))) as Htk.
  pose proof (sublist_subseteq _ _ Htk) as Htk'. split.
  - rewrite length_take. lia.
  - eapply sublist_NoDup; [exact Hnd|]. apply fmap_sublist. by etrans.
  - intros r Hr%Htk'. by apply Hl, (sublist_subseteq _ _ Hsub).
  - intros Hs r r' Hr%Htk' Hr'%Htk' Hne Hc. unfold collapse in Hr, Hr'. rewrite Hs in Hr, Hr'. cbn in Hr, Hr'.
    by apply (collapse_no_pair res_groups l r r').
Qed.

Lemma guarded_good opts now cs cs' rows out g : rows_ok rows -> guard_ok (contents rows) g ->
  rank_hydrated_hits opts now cs rows = Ok out -> (forall c, c ∈ cs -> c ∈ cs') ->
  NoDup (res_id <$> (guard_allow out g).1) /\ forall r, r ∈ (guard_allow out g).1 -> good cs' r.
Proof.
  intros Hrows Hg Hr Hcs. destruct (ranked_guard _ _ _ _ _ _ Hrows Hg Hr) as [-> _].
  destruct (ranked_rows _ _ _ _ _ Hrows Hr) as (Hnd & Hrow & _). split.
  - eapply sublist_NoDup; [exact Hnd|]. apply fmap_sublist. unfold filter_pii_blocked_results.
    clear. induction out as [|x out IH]; cbn; [done|]. destruct (negb _); by constructor.
  - intros r [Hin Hb]%pii_allowed_elem. destruct (Hrow r Hin) as (h & c & Hh & <- & Hc & Hid & _).
    split_and!; [exists h; split; [done|by apply Hrows]|exists c; split; [by apply Hcs|done]|done].
Qed.

Lemma limit_valid : is_ok (validate_find_similar_query q) = true -> 1 <= q_limit q.
Proof. unfold validate_find_similar_query. destruct (Z.ltb_spec (q_limit q) 1); [done|lia]. Qed.

Lemma carried_over (rows rows' : gmap UUID HydratedHit) id h : (forall id, is_Some (rows !! id) -> rows' !! id = None) ->
  rows !! id = Some h -> (rows' ∪ rows) !! id = Some h.
Proof. intros Hd Hh. rewrite lookup_union_r; [done|]. apply Hd. eauto. Qed.

Lemma fused_window_good fused carried g page : 1 <= q_limit q -> rows_ok carried -> guard_ok (contents carried) g ->
  rank_fused_window st env q fused carried g = Ok page -> page_good fused page.
Proof.
  intros Hq Hc Hg. unfold rank_fused_window. cbn zeta.
  intros (miss & Hm & Hp)%rbind_Ok. apply hydrate_missing_ok in Hm as [Hm Hd]; [|set_solver].
  assert (rows_ok (miss ∪ carried)) as Hrows by (by apply rows_ok_union).
  assert (guard_ok (contents (miss ∪ carried)) g) as Hg1.
  { eapply guard_ok_mono; [|exact Hg]. apply contents_mono. intros. by apply carried_over. }
  apply rbind_Ok in Hp as (ranked & Hr & Hp).
  pose proof (proj2 (ranked_guard _ _ _ _ _ _ Hrows Hg1 Hr)) as Hg2.
  destruct (guarded_good _ _ _ fused _ _ _ Hrows Hg1 Hr) as [Hnd Hgood].
  { intros c Hin. by apply (sublist_subseteq _ _ (sublist_take fused (Z.to_nat (q_limit q)))). }
  destruct (guard_allow ranked g) as [allowed g2]. cbn [fst snd] in *.
  destruct (_ || _)%bool; [injection Hp as <-; by apply page_of_good|].
  apply rbind_Ok in Hp as (miss2 & Hm2 & Hp). apply hydrate_missing_ok in Hm2 as [Hm2 Hd2]; [|set_solver].
  apply rbind_Ok in Hp as (refilled & Hr2 & Hp).
  assert (rows_ok (miss2 ∪ (miss ∪ carried))) as Hrows2 by (by apply rows_ok_union).
  assert (guard_ok (contents (miss2 ∪ (miss ∪ carried))) g2) as Hg3.
  { eapply guard_ok_mono; [|exact Hg2]. apply contents_mono. intros. by apply carried_over. }
  destruct (guarded_good _ _ _ fused _ _ _ Hrows2 Hg3 Hr2) as [Hnd2 Hgood2]; [done|].
  destruct (guard_allow refilled g2) as [allowed2 g3]. injection Hp as <-. by apply page_of_good.
Qed.

(** ** The reranker's window *)

Lemma window_results rows r : rows_ok rows -> r ∈ (fun e => hh_result e.2) <$> map_to_list rows ->
  contents rows !! res_id r = Some (res_content r) /\ exists h, rows !! res_id r = Some h /\ hh_result h = r.
Proof.
  intros Hrows ([id h] & -> & Hin%elem_of_map_to_list)%list_elem_of_fmap. cbn.
  rewrite (rk_id _ _ (Hrows _ _ Hin)). unfold contents. rewrite lookup_fmap, Hin. eauto.
Qed.

Lemma window_allowed rows : rows_ok rows ->
  let a := guard_allow ((fun e => hh_result e.2) <$> map_to_list rows) new_guard in
  guard_ok (contents rows) a.2 /\
  forall id, id ∈ (list_to_set (res_id <$> a.1) : gset UUID) ->
    exists h, rows !! id = Some h /\ should_block_read_result (res_content (hh_result h)) = false.
Proof.
  intros Hrows a.
  destruct (allow_spec res_id res_content (contents rows) ((fun e => hh_result e.2) <$> map_to_list rows) new_guard)
    as [Ha Hg]; [apply new_guard_ok|intros; by apply window_results|].
  split; [done|]. intros id (r & -> & Hr)%elem_of_list_to_set%list_elem_of_fmap. unfold a, guard_allow in Hr. rewrite Ha in Hr.
  apply pii_allowed_elem in Hr as [Hr Hb]. destruct (window_results rows r Hrows Hr) as (_ & h & Hh & <-). eauto.
Qed.

Lemma reranked_good fused page : 1 <= q_limit q -> (rank_reranked st env q fused new_guard).2 = Ok page -> page_good fused page.
Proof.
  intros Hq. unfold rank_reranked. cbn zeta. set (window := take _ fused).
  destruct (hydrate_hits _ _ _ _) as [rows|e] eqn:Eh; [|done].
  apply hydrate_rows_ok in Eh; [|set_solver]. destruct (window_allowed rows Eh) as [Hg Hall].
  unfold rerank_scores. destruct (guard_allow _ new_guard) as [allowed g]. cbn [fst snd] in Hg, Hall.
  set (ids := rerank_ids _ _ _). set (ok := list_to_set _ : gset UUID) in *.
  assert (forall page, rank_fused_window st env q fused rows g = Ok page -> page_good fused page) as Hfused
    by (intros; by eapply fused_window_good).
  destruct (_ <? 2); cbn [snd rbind rs_overrides rs_guard]; [by apply Hfused|].
  destruct (rerank_reply _ _ _) as [scores| |]; cbn [snd rbind rs_overrides rs_guard]; [|by apply Hfused..].
  destruct (zip_strict ids scores) as [overrides|]; cbn [rbind rs_overrides rs_guard rs_allowed]; [|done].
  intros (scored & Hs & Hp)%rbind_Ok. destruct (page_of q (collapse st scored)) as [|r page'] eqn:Ep; [by apply Hfused|].
  injection Hp as <-. rewrite <- Ep. destruct (ranked_rows _ _ _ _ _ Eh Hs) as (Hnd & Hrow & _).
  apply page_of_good; [done|done|]. intros r' Hr'. destruct (Hrow r' Hr') as (h & c & Hh & Hres & Hc & Hid & _).
  apply list_elem_of_In, filter_In in Hc as [Hc%list_elem_of_In Hok]. apply bool_decide_eq_true in Hok.
  rewrite Hid in Hok. destruct (Hall _ Hok) as (h' & Hh' & Hb). assert (h' = h) as -> by congruence.
  split_and!; [exists h; split; [done|by apply Eh]| |by rewrite <- Hres].
  exists c. split; [|done]. by apply (sublist_subseteq _ _ (sublist_take fused (Z.to_nat (rerank_max_candidates st)))).
Qed.

(** ** The fallback page *)

Lemma fallback_good page : 1 <= q_limit q -> find_similar_fallback st env q = Ok page ->
  exists v f, vector_candidates st env q = Ok v /\ (f = [] \/ exists page', fts_supplement st env q page' v = Ok f) /\
    page_good (v ++ f) page.
Proof.
  intros Hq. unfold find_similar_fallback. intros (v & Hv & Hp)%rbind_Ok. exists v.
  apply rbind_Ok in Hp as (rows & Hh & Hp). apply hydrate_rows_ok in Hh; [|set_solver].
  apply rbind_Ok in Hp as (ranked & Hr & Hp).
  pose proof (proj2 (ranked_guard _ _ _ _ _ _ Hh (new_guard_ok _) Hr)) as Hg.
  destruct (guarded_good _ _ _ v _ _ _ Hh (new_guard_ok _) Hr) as [Hnd Hgood]; [done|].
  destruct (guard_allow ranked new_guard) as [allowed g]. cbn [fst snd] in *.
  assert (page_good v (page_of q (collapse st allowed))) as Hvp by (by apply page_of_good).
  destruct (_ <=? _); [injection Hp as <-; exists []; rewrite app_nil_r; eauto|].
  apply rbind_Ok in Hp as (f & Hf & Hp). case_bool_decide.
  { injection Hp as <-. exists []. rewrite app_nil_r. eauto. }
  exists f. split_and!; [done|eauto|]. apply rbind_Ok in Hp as (frows & Hfr & Hp).
  apply hydrate_rows_ok in Hfr; [|set_solver]. apply rbind_Ok in Hp as (all & Hall & Hp).
  assert (rows_ok (rows ∪ frows)) as Hun by (by apply rows_ok_union).
  assert (rows_ok all /\ contents all = contents (rows ∪ frows)) as [Hok Hcont].
  { destruct (existsb _ _); [|injection Hall as <-; done]. split; [by eapply conflict_snapshot_ok|].
    unfold conflict_groups_snapshot in Hall. case_bool_decide; [by injection Hall as <-|].
    apply rbind_Ok in Hall as (s & _ & [= <-]). apply map_eq. intros id. unfold contents.
    rewrite !lookup_fmap, map_lookup_imap. by destruct ((rows ∪ frows) !! id). }
  apply rbind_Ok in Hp as (ranked2 & Hr2 & Hp).
  assert (guard_ok (contents all) g) as Hg2.
  { rewrite Hcont. eapply guard_ok_mono; [|exact Hg]. apply contents_mono. intros id h Hid. by apply lookup_union_Some_l. }
  destruct (guarded_good _ _ _ (v ++ f) _ _ _ Hok Hg2 Hr2) as [Hnd2 Hgood2].
  { intros c Hc%merge_spec. rewrite elem_of_app. naive_solver. }
  destruct (guard_allow ranked2 g) as [allowed2 g2]. injection Hp as <-. by apply page_of_good.
Qed.

(** ** The channels *)

(** The memory of a candidate when its channel found it. *)
Definition found (id : UUID) : Prop :=
  exists s m, (at_vector env = Ok s \/ at_fts env = Ok s) /\ sn_memories s !! id = Some m /\
    org_id (life m) = q_org_id q /\ agent_id (life m) = q_agent_id q /\ visible s m = true.

Lemma vector_found v c : vector_candidates st env q = Ok v -> c ∈ v -> found (rc_id c).
Proof.
  unfold vector_candidates. intros (hits & Hh & [= <-])%rbind_Ok ([id sim] & -> & Hin)%list_elem_of_fmap. cbn.
  unfold vector_search in Hh. apply rbind_Ok in Hh as (_ & _ & Hh). destruct (hnsw_ef_search st <? 1); [done|].
  apply rbind_Ok in Hh as (s & Hs & Hr%rmap_Ok). apply list_elem_of_lookup in Hin as [i Hi].
  destruct (Forall2_lookup_r _ _ _ _ _ Hr Hi) as (h & Hl%list_elem_of_lookup_2 & Hh). unfold search_hit in Hh.
  destruct (_ && _)%bool; [|done]. injection Hh as ->.
  unfold search_sql in Hl. apply py_sorted_elem, list_elem_of_In, filter_In in Hl as [Hl%list_elem_of_In _].
  apply (sublist_subseteq _ _ (sublist_take _ _)), list_elem_of_In, filter_In in Hl as [_ Hl]. cbn in Hl.
  destruct (sn_memories s !! id) as [m|] eqn:Em; [|done]. bools. exists s, m.
  split_and!; [by left|done..].
Qed.

Lemma fts_hits_sub limit exclude rows : forall hits h, h ∈ fts_hits limit exclude rows hits -> h ∈ hits \/ h ∈ rows.
Proof.
  induction rows as [|x rows IH]; intros hits h; cbn [fts_hits]; [by left|]. cbn zeta.
  case_bool_decide; [intros [?|?]%IH; [by left|right; by right]|].
  destruct (_ <=? _); [|intros Hh%IH; revert Hh]; rewrite elem_of_app, list_elem_of_singleton, elem_of_cons; naive_solver.
Qed.

Lemma fts_found fq hits c cap : ft_org_id fq = q_org_id q -> ft_agent_id fq = q_agent_id q ->
  full_text_search env fq = Ok hits -> c ∈ fts_candidates hits cap -> found (rc_id c).
Proof.
  intros Ho Ha. unfold full_text_search. destruct (_ || _)%bool.
  { intros [= <-]. unfold fts_candidates. rewrite take_nil. by intros ?%elem_of_nil. }
  intros (s & Hs & [= <-])%rbind_Ok ([id rank] & -> & Hin)%list_elem_of_fmap. cbn.
  apply (sublist_subseteq _ _ (sublist_take _ _)), fts_hits_sub in Hin as [[]%elem_of_nil|Hin].
  apply (sublist_subseteq _ _ (sublist_take _ _)), py_sorted_elem, list_elem_of_In, filter_In in Hin as [_ Hin].
  cbn in Hin. destruct (sn_memories s !! id) as [m|] eqn:Em; [|done]. bools. exists s, m.
  rewrite <- Ho, <- Ha. split_and!; [by right|done..].
Qed.

Lemma hybrid_found fused c : hybrid_candidates st env q = Ok fused -> c ∈ fused -> found (rc_id c).
Proof.
  unfold hybrid_candidates. intros (v & Hv & Hf)%rbind_Ok Hc. apply rbind_Ok in Hf as (hits & Hh & Hf).
  apply fuse_spec in Hf as (_ & _ & Hin). destruct (Hin c Hc) as [?|[? _]]; [by eapply vector_found|].
  eapply fts_found; [..|exact Hh|done]; done.
Qed.

Lemma supplement_found v f page c : fts_supplement st env q page v = Ok f -> c ∈ f -> found (rc_id c).
Proof.
  unfold fts_supplement. destruct (negb _); [intros [= <-]; by intros ?%elem_of_nil|]. cbn zeta.
  intros (hits & Hh & [= <-])%rbind_Ok Hc. eapply fts_found; [..|exact Hh|exact Hc]; done.
Qed.

(** Every page, whichever path made it. *)
Lemma find_similar_good page : (find_similar st env q).2 = Ok page ->
  exists cs, page_good cs page /\ forall c, c ∈ cs -> found (rc_id c).
Proof.
  unfold find_similar. pose proof limit_valid as Hq. destruct (validate_find_similar_query q) as [?|]; [|done].
  specialize (Hq eq_refl). destruct (_ && _)%bool; cbn [snd].
  - unfold find_similar_hybrid. destruct (hybrid_candidates st env q) as [fused|e] eqn:Ef; [|done]. intros Hp.
    exists fused. split; [|intros; by eapply hybrid_found]. destruct (rerank_available st); [by apply reranked_good|].
    eapply fused_window_good; [done|apply rows_ok_empty|apply new_guard_ok|exact Hp].
  - intros (v & f & Hv & Hf & Hp)%fallback_good; [|done]. exists (v ++ f). split; [done|].
    intros c [Hc|Hc]%elem_of_app; [by eapply vector_found|].
    destruct Hf as [->|(page' & Hf)]; [by apply elem_of_nil in Hc|by eapply supplement_found].
Qed.

(** ** Short pages *)

Lemma hydrate_missing_covers at_ s cs known rows c m : hydrate_missing at_ q cs known = Ok rows -> at_ = Ok s ->
  NoDup (rc_id <$> cs) -> c ∈ cs -> known !! rc_id c = None -> live_at s (rc_id c) m ->
  rows !! rc_id c = Some (hydrated_row s (rc_id c) m c).
Proof.
  intros Hr -> Hnd Hc Hk (Hm & Ho & Hv & Hcf). unfold hydrate_missing in Hr. cbn zeta in Hr.
  set (missing := List.filter _ cs) in Hr.
  assert (c ∈ missing) as Hin.
  { apply list_elem_of_In, filter_In. split; [by apply list_elem_of_In|]. rewrite Hk. done. }
  rewrite bool_decide_eq_false_2 in Hr by (intros E; rewrite E in Hin; by apply elem_of_nil in Hin).
  unfold hydrate_hits in Hr. rewrite bool_decide_eq_false_2 in Hr by (intros E; rewrite E in Hin; by apply elem_of_nil in Hin).
  injection Hr as <-. apply hydrate_sql_lookup. exists m, c. split_and!; try done.
  apply candidate_by_id_unique; [|done]. eapply sublist_NoDup; [exact Hnd|]. apply fmap_sublist. unfold missing. clear.
  induction cs as [|x cs IH]; cbn; [done|]. destruct (negb _); by constructor.
Qed.

Lemma hydrate_missing_only at_ cs known rows id : hydrate_missing at_ q cs known = Ok rows ->
  id ∉ rc_id <$> cs -> rows !! id = None.
Proof.
  unfold hydrate_missing, hydrate_hits. cbn zeta. case_bool_decide; [by intros [= <-]|].
  intros (s & _ & [= <-])%rbind_Ok Hid. destruct (hydrate_sql _ _ _ _ !! id) eqn:E; [|done].
  apply hydrate_sql_lookup in E as (? & c & _ & [Hc <-]%candidate_by_id_elem & _). exfalso. apply Hid.
  apply list_elem_of_In, filter_In in Hc as [Hc%list_elem_of_In _]. apply list_elem_of_fmap. eauto.
Qed.

Lemma page_exhaustive l r : Z.of_nat (length (page_of q (collapse st l))) < q_limit q -> r ∈ l ->
  r ∈ page_of q (collapse st l) \/ exists r', r' ∈ page_of q (collapse st l) /\ share_conflict res_groups r' r.
Proof.
  intros Hshort Hr. assert (page_of q (collapse st l) = collapse st l) as ->.
  { unfold page_of in *. rewrite length_take in Hshort. apply take_ge. lia. }
  unfold collapse. destruct (conflict_suppression_enabled st); cbn [negb]; [|by left].
  apply list_elem_of_lookup in Hr as [i Hi].
  destruct (co_beaten _ _ _ (collapse_collapsed res_groups l) i r Hi) as [?|(j & k & _ & _ & Hk & Hc)]; [by left|right; eauto].
Qed.

Lemma ranked_allowed opts now cs rows out g id h c : rows_ok rows -> guard_ok (contents rows) g ->
  rank_hydrated_hits opts now cs rows = Ok out -> rows !! id = Some h -> candidate_by_id cs !! id = Some c ->
  SFleb (ro_floor opts) (relevance_for c opts) = true -> should_block_read_result (res_content (hh_result h)) = false ->
  hh_result h ∈ (guard_allow out g).1.
Proof.
  intros Hrows Hg Hr Hh Hc Hf Hb. destruct (ranked_guard _ _ _ _ _ _ Hrows Hg Hr) as [-> _].
  apply pii_allowed_elem. split; [|done]. by eapply (proj2 (proj2 (ranked_rows _ _ _ _ _ Hrows Hr))).
Qed.

(** The snapshot that hydrates the candidate at a position of the fused list. *)
Definition hydrated_at (i : nat) : result ReadError Snapshot :=
  if bool_decide (i < Z.to_nat (q_limit q))%nat then at_admitted env else at_remaining env.

Lemma first_rows fused miss i c s m : NoDup (rc_id <$> fused) ->
  hydrate_missing (at_admitted env) q (take (Z.to_nat (q_limit q)) fused) ∅ = Ok miss ->
  fused !! i = Some c -> (i < Z.to_nat (q_limit q))%nat -> hydrated_at i = Ok s -> live_at s (rc_id c) m ->
  candidate_by_id (take (Z.to_nat (q_limit q)) fused) !! rc_id c = Some c /\
  miss !! rc_id c = Some (hydrated_row s (rc_id c) m c).
Proof.
  intros Hnd Hm Hi Hin Hs Hl. set (n := Z.to_nat (q_limit q)) in *.
  assert (NoDup (rc_id <$> take n fused)) as Hnd1 by (eapply sublist_NoDup; [exact Hnd|apply fmap_sublist, sublist_take]).
  assert (c ∈ take n fused) as Hc by (apply (list_elem_of_lookup_2 _ i); by rewrite lookup_take_lt).
  split; [by apply candidate_by_id_unique|]. unfold hydrated_at in Hs. rewrite bool_decide_eq_true_2 in Hs by done.
  by eapply hydrate_missing_covers.
Qed.

Lemma refilled_rows fused miss miss2 i c s m : NoDup (rc_id <$> fused) ->
  hydrate_missing (at_admitted env) q (take (Z.to_nat (q_limit q)) fused) ∅ = Ok miss ->
  hydrate_missing (at_remaining env) q (drop (Z.to_nat (q_limit q)) fused) miss = Ok miss2 ->
  fused !! i = Some c -> hydrated_at i = Ok s -> live_at s (rc_id c) m ->
  (miss2 ∪ miss) !! rc_id c = Some (hydrated_row s (rc_id c) m c).
Proof.
  intros Hnd Hm Hm2 Hi Hs Hl. destruct (decide (i < Z.to_nat (q_limit q))%nat) as [Hin|Hin].
  { apply carried_over; [|by eapply first_rows]. apply hydrate_missing_ok in Hm2; [apply Hm2|set_solver]. }
  apply lookup_union_Some_l. unfold hydrated_at in Hs. rewrite bool_decide_eq_false_2 in Hs by done.
  assert (drop (Z.to_nat (q_limit q)) fused !! (i - Z.to_nat (q_limit q))%nat = Some c) as Hd
    by (rewrite lookup_drop, <- Hi; f_equal; lia).
  eapply hydrate_missing_covers; [exact Hm2|exact Hs| |by eapply list_elem_of_lookup_2| |done].
  { eapply sublist_NoDup; [exact Hnd|apply fmap_sublist, sublist_drop]. }
  eapply hydrate_missing_only; [exact Hm|]. intros (c' & E' & [j Hj]%list_elem_of_lookup)%list_elem_of_fmap.
  apply lookup_take_Some in Hj as [Hj Hjn]. assert (i = j); [|lia].
  eapply (NoDup_lookup (rc_id <$> fused)); [done| |]; rewrite list_lookup_fmap; [rewrite Hi|rewrite Hj]; cbn; by rewrite ?E'.
Qed.

Lemma fused_window_exhaustive fused page i c s m : 1 <= q_limit q -> NoDup (rc_id <$> fused) ->
  rank_fused_window st env q fused ∅ new_guard = Ok page -> Z.of_nat (length page) < q_limit q ->
  fused !! i = Some c -> hydrated_at i = Ok s -> live_at s (rc_id c) m ->
  SFleb (composite_relevance_floor st) (relevance_for_composite c) = true ->
  should_block_read_result (content (life m)) = false ->
  let r := hh_result (hydrated_row s (rc_id c) m c) in
  r ∈ page \/ exists r', r' ∈ page /\ share_conflict res_groups r' r.
Proof.
  intros Hq Hnd Hp Hshort Hi Hs Hl Hf Hb r. unfold rank_fused_window in Hp. cbn zeta in Hp.
  apply rbind_Ok in Hp as (miss & Hm & Hp). rewrite map_union_empty in Hp.
  pose proof Hm as [Hmiss _]%hydrate_missing_ok; [|set_solver].
  apply rbind_Ok in Hp as (ranked & Hr & Hp).
  pose proof (proj2 (ranked_guard _ _ _ _ _ _ Hmiss (new_guard_ok _) Hr)) as Hg.
  assert ((i < Z.to_nat (q_limit q))%nat -> r ∈ (guard_allow ranked new_guard).1) as Hr1.
  { intros Hin. destruct (first_rows _ _ _ _ _ _ Hnd Hm Hi Hin Hs Hl) as [Hc Hrow].
    eapply ranked_allowed; [done|apply new_guard_ok|exact Hr|exact Hrow|exact Hc|exact Hf|done]. }
  destruct (guard_allow ranked new_guard) as [allowed g]. cbn [fst snd] in *.
  destruct (_ || _)%bool eqn:E.
  { injection Hp as <-. apply page_exhaustive; [done|]. apply Hr1. apply orb_true_iff in E as [E|E].
    - unfold page_of in Hshort. rewrite length_take in Hshort. apply Z.leb_le in E. lia.
    - apply bool_decide_eq_true in E. apply lookup_lt_Some in Hi.
      pose proof (length_drop fused (Z.to_nat (q_limit q))) as Hd. rewrite E in Hd. cbn in Hd. lia. }
  apply rbind_Ok in Hp as (miss2 & Hm2 & Hp). rewrite map_union_empty in Hm2. apply rbind_Ok in Hp as (refilled & Hr2 & Hp).
  rewrite map_union_empty in Hr2. pose proof Hm2 as [Hmiss2 Hdis]%hydrate_missing_ok; [|set_solver].
  assert (rows_ok (miss2 ∪ miss)) as Hrows2 by (by apply rows_ok_union).
  assert (guard_ok (contents (miss2 ∪ miss)) g) as Hg2.
  { eapply guard_ok_mono; [|exact Hg]. apply contents_mono. intros. by apply carried_over. }
  assert (r ∈ (guard_allow refilled g).1) as Hin.
  { eapply ranked_allowed; [done|done|exact Hr2|by eapply refilled_rows| |exact Hf|done].
    apply candidate_by_id_unique; [done|]. by eapply list_elem_of_lookup_2. }
  destruct (guard_allow refilled g) as [allowed2 g2]. injection Hp as <-. by apply page_exhaustive.
Qed.
End Invariants.

(** ** Properties *)

Section Properties.
Context `{UnicodeDB} `{WordDB} `{Libm}.
Implicit Types (st : Settings) (env : Env) (q : FindSimilarQuery).

(** C12: What a search returns may be returned: whichever path served it, whatever
    the index, the text search and the reranker answered and however the tables
    changed between its statements, a page has at most [limit] results, each
    memory once; every result was a live memory of the asking agent when its
    channel found it, a live memory of the organization with enough confidence
    when its row was read, and no Tier-1 pattern occurs in its text; with
    suppression on, no two results carry a common pending conflict. *)
Theorem search_page_is_safe st env q page : (find_similar st env q).2 = Ok page ->
  Z.of_nat (length page) <= q_limit q /\ NoDup (res_id <$> page) /\
  (conflict_suppression_enabled st = true ->
     forall r r', r ∈ page -> r' ∈ page -> r <> r' -> ~ share_conflict res_groups r r') /\
  forall r, r ∈ page ->
    found env q (res_id r) /\
    (exists s m, hydrates env s /\ live_at q s (res_id r) m /\ res_content r = content (life m) /\
       res_org_id r = q_org_id q) /\
    (forall pattern i j, pattern ∈ TIER1_CHECKS -> ~ matches (res_content r) pattern i j).
Proof.
  intros (cs & [Hlen Hnd Hgood Hfree] & Hcs)%find_similar_good. split_and!; [done..|].
  intros r ((h & Hres & [_ (s & m & c & Hs & Hl & E) _]) & (c' & Hc' & Hid) & Hb)%Hgood. split_and!.
  - rewrite <- Hid. by apply Hcs.
  - exists s, m. rewrite <- Hres, E. split_and!; [done|by rewrite Hres|done|apply Hl].
  - intros pattern i j Hp Hm. assert (should_block_read_result (res_content r) = true); [|congruence].
    apply should_block_spec. eauto.
Qed.

(** C17: Personal data does not leave for the reranker: every document a search sends
    to the reranking endpoint is the text of a live memory of the asking
    organization in which no Tier-1 pattern occurs. *)
Theorem reranker_sees_no_pii st env q doc : doc ∈ (find_similar st env q).1 ->
  (exists s id m, hydrates env s /\ live_at q s id m /\ doc = content (life m)) /\
  forall pattern i j, pattern ∈ TIER1_CHECKS -> ~ matches doc pattern i j.
Proof.
  unfold find_similar, find_similar_hybrid.
  destruct (validate_find_similar_query q); [|by intros ?%elem_of_nil]. destruct (_ && _)%bool; [|by intros ?%elem_of_nil].
  destruct (hybrid_candidates st env q) as [fused|]; [|by intros ?%elem_of_nil].
  destruct (rerank_available st); [|by intros ?%elem_of_nil]. unfold rank_reranked. cbn zeta.
  destruct (hydrate_hits _ _ _ _) as [rows|] eqn:Eh; [|by intros ?%elem_of_nil].
  apply (hydrate_rows_ok env q) in Eh; [|set_solver]. destruct (window_allowed env q rows Eh) as [_ Hall].
  unfold rerank_scores. destruct (guard_allow _ new_guard) as [allowed g]. cbn [fst snd] in Hall.
  destruct (_ <? 2); cbn [fst]; [by intros ?%elem_of_nil|].
  intros (id & Hid & Hdoc)%list_elem_of_omap. unfold rerank_ids in Hid.
  apply list_elem_of_In, filter_In in Hid as [_ Hid]. bools.
  match goal with Hin : id ∈ _ |- _ => apply Hall in Hin as (h & Hh & Hb) end.
  rewrite Hh in Hdoc. injection Hdoc as <-. destruct (Eh id h Hh) as [_ (s & m & c & Hs & Hl & E) _]. split.
  - exists s, id, m. split_and!; [done|done|by rewrite E].
  - intros pattern i j Hp Hm. assert (should_block_read_result (res_content (hh_result h)) = true); [|congruence].
    apply should_block_spec. eauto.
Qed.

(** A pending escalation [g] between two memories of the organization, as one
    statement sees it. *)
Definition in_conflict (s : Snapshot) (org g a b : UUID) : Prop :=
  exists e ma mb, e ∈ sn_escalations s /\ er_id e = g /\ er_org_id e = org /\ er_status e = "pending"%string /\
    er_new_memory_id e = a /\ er_candidate_memory_id e = b /\
    sn_memories s !! a = Some ma /\ org_id (life ma) = org /\ sn_memories s !! b = Some mb /\ org_id (life mb) = org.

Lemma in_conflict_groups s org g a b id : in_conflict s org g a b -> id = a \/ id = b -> g ∈ groups_at s org id.
Proof.
  intros (e & ma & mb & He & <- & Ho & Hp & Ha & Hb & Hma & Hoa & Hmb & Hob) Hid. unfold groups_at.
  assert (er_id e ∈ pending_groups s org id) as Hin.
  { unfold pending_groups. apply py_sorted_elem, list_elem_of_fmap. exists e. split; [done|].
    apply list_elem_of_In, filter_In. split; [by apply list_elem_of_In|]. cbn.
    rewrite !bool_decide_eq_true_2 by done. destruct Hid as [->| ->].
    - by rewrite bool_decide_eq_true_2.
    - by rewrite (bool_decide_eq_true_2 (er_candidate_memory_id e = b)), orb_true_r. }
  destruct Hid as [->| ->]; [rewrite Hma, Hoa|rewrite Hmb, Hob]; by rewrite bool_decide_eq_true_2.
Qed.

(** C16: Both sides of a standing contradiction are never returned: if two memories
    are the sides of one escalation that stays pending in every snapshot the
    search reads, then with suppression on they are not both on the page, on any
    path. *)
Theorem standing_conflict_shows_one_side st env q page g a b :
  (find_similar st env q).2 = Ok page -> conflict_suppression_enabled st = true -> a <> b ->
  (forall s, shows_groups env s -> in_conflict s (q_org_id q) g a b) ->
  ~ (a ∈ res_id <$> page /\ b ∈ res_id <$> page).
Proof.
  intros (cs & [_ _ Hgood Hfree] & _)%find_similar_good Hs Hab Hst [(r & -> & Hr)%list_elem_of_fmap (r' & -> & Hr')%list_elem_of_fmap].
  assert (forall x, x ∈ page -> res_id x = res_id r \/ res_id x = res_id r' -> g ∈ res_groups x) as Hg.
  { intros x Hx Hid. destruct (Hgood x Hx) as ((h & Hres & [_ _ (s & Hsg & Hgr)]) & _). rewrite Hres in Hgr.
    rewrite Hgr. by apply (in_conflict_groups s _ g (res_id r) (res_id r')); [apply Hst|]. }
  apply (Hfree Hs r r' Hr Hr'); [congruence|]. exists g. split; apply Hg; auto.
Qed.

(** A short page is not an accident of the cut: without a reranker, when a hybrid
    search returns fewer than [limit] results, every fused candidate that was
    eligible (live for the organization and confident when it was hydrated, at
    the relevance floor or above, nothing for the guard to block) is on the page,
    or shares a pending conflict with a result that is. *)
Theorem short_page_is_exhaustive st env q fused page :
  search_hybrid_enabled st = true -> is_searchable_query (q_text q) = true -> rerank_available st = false ->
  hybrid_candidates st env q = Ok fused -> (find_similar st env q).2 = Ok page ->
  Z.of_nat (length page) < q_limit q ->
  forall i c s m, fused !! i = Some c -> hydrated_at env q i = Ok s -> live_at q s (rc_id c) m ->
    SFleb (composite_relevance_floor st) (relevance_for_composite c) = true ->
    should_block_read_result (content (life m)) = false ->
    hh_result (hydrated_row s (rc_id c) m c) ∈ page \/
    exists r, r ∈ page /\ share_conflict res_groups r (hh_result (hydrated_row s (rc_id c) m c)).
Proof.
  intros Hhy Hq Hre Hfused Hp Hshort i c s m Hi Hs Hl Hf Hb. unfold find_similar in Hp. pose proof (limit_valid q) as Hlim.
  destruct (validate_find_similar_query q) as [?|]; [|done]. specialize (Hlim eq_refl).
  rewrite Hhy, Hq in Hp. cbn [andb] in Hp. unfold find_similar_hybrid in Hp. rewrite Hfused, Hre in Hp. cbn [snd] in Hp.
  eapply fused_window_exhaustive; [done| |exact Hp|done|exact Hi|exact Hs|done|done|done].
  unfold hybrid_candidates in Hfused. apply rbind_Ok in Hfused as (v & _ & Hfused).
  apply rbind_Ok in Hfused as (hits & _ & Hfused). by destruct (fuse_spec _ _ _ _ Hfused).
Qed.
End Properties.

(** ** A sample search

    Two results asked for.  The vector channel finds [m1] and [m2], full text [m1]
    and [m3]; the text of [m2] holds an address, so the page is refilled. *)

Module SearchSample.
#[local] Instance ascii_db : UnicodeDB := {| u_space _ := false; u_decimal _ := None; u_lower s := s |}.
#[local] Instance ascii_words : WordDB := {| u_alnum _ := false |}.
#[local] Instance flat_exp : Libm := {| m_exp _ := FTS_COMPOSITE_RELEVANCE |}.

Definition memory (text : string) : Memory :=
  {| life := {| org_id := "org"; agent_id := "agent"; content := lit text; content_hash := ""; content_tokens := 3;
                category := "factual"; status := "active"; deleted_at := None; valid_from := 0; valid_until := None;
                confidence := 90; source := "api"; superseded_by := None; merged_into := None; metadata := "{}";
                expires_at := None; pii_detected := false; pii_redacted := false; tombstoned := false |}%string;
     session_id := None; embedding := Some ("model"%string, 1024); retrieval_count := 2; last_retrieved_at := None;
     usefulness_score := 50; updated_at := 0; lifecycle_revision := 1 |}.

Definition tables (escalations : list EscalationRow) : Snapshot :=
  {| current_timestamp := 1000000;
     sn_memories := {[ "m1" := memory "prefers tea"; "m2" := memory "mail ann@example.org"; "m3" := memory "prefers coffee" ]}%string;
     sn_labels := ∅; sn_escalations := escalations |}.

Definition conflict : EscalationRow :=
  {| er_id := "e1"; er_org_id := "org"; er_status := "pending"; er_new_memory_id := "m1"; er_candidate_memory_id := "m3" |}%string.

Definition settings (rerank : bool) : Settings :=
  {| search_hybrid_enabled := true; search_fallback_enabled := true; conflict_suppression_enabled := true;
     rerank_enabled := rerank; rerank_client_present := true; rerank_max_candidates := 10; search_rrf_k := 60;
     composite_relevance_floor := b64_lit 5404319552844595 (-55); rank_weights := default_weights;
     vector_search_min_similarity := b64_lit 4503599627370496 (-53); hnsw_ef_search := 64 |}.

(** The tables before and after a moment between the first hydration and the
    refill. *)
Definition env (before after : Snapshot) : Env :=
  {| at_vector := Ok before; index_scan := [("m1"%string, b64_lit 8106479329266893 (-53)); ("m2"%string, b64_lit 7656119366529843 (-53))];
     at_fts := Ok before; fts_scan _ := [("m1"%string, b64_lit 4503599627370496 (-53)); ("m3"%string, b64_lit 4503599627370496 (-54))];
     at_window := Ok before; at_admitted := Ok before; at_remaining := Ok after; at_vector_rows := Ok before;
     at_fts_rows := Ok after; at_conflicts := Ok after;
     rerank_reply _ docs := Reranked ((fun _ => b64_lit 4503599627370496 (-53)) <$> docs);
     now_reranked := 2000000; now_first := 2000000; now_second := 2000000 |}.

Definition query : FindSimilarQuery :=
  {| q_org_id := "org"; q_agent_id := "agent"; q_embedding := replicate 1024 f_zero; q_text := lit "drinks";
     q_limit := 2; q_min_similarity := None; q_min_confidence := f_zero |}%string.

Definition page_ids (r : list pystr * result ReadError (list MemorySearchResult)) : list UUID :=
  match r.2 with Ok page => res_id <$> page | Raise _ => [] end.

Lemma search_samples :
  page_ids (find_similar (settings false) (env (tables []) (tables [])) query) = ["m1"; "m3"]%string /\
  page_ids (find_similar (settings false) (env (tables [conflict]) (tables [conflict])) query) = ["m1"]%string /\
  page_ids (find_similar (settings true) (env (tables [conflict]) (tables [conflict])) query) = ["m1"]%string /\
  (find_similar (settings true) (env (tables []) (tables [])) query).1 = lit <$> ["prefers tea"; "prefers coffee"]%string.
Proof. vm_compute. split_and!; reflexivity. Qed.

Lemma search_page_is_safe_witness : exists page,
  (find_similar (settings false) (env (tables []) (tables [])) query).2 = Ok page /\
  res_id <$> page = ["m1"; "m3"]%string /\ Z.of_nat (length page) <= 2.
Proof.
  eexists. split; [vm_compute; reflexivity|]. split; [reflexivity|].
  refine (proj1 (search_page_is_safe (settings false) (env (tables []) (tables [])) query _ _)). vm_compute. reflexivity.
Defined.

Lemma reranker_sees_no_pii_witness :
  lit "prefers tea" ∈ (find_similar (settings true) (env (tables []) (tables [])) query).1 /\
  forall pattern i j, pattern ∈ TIER1_CHECKS -> ~ matches (lit "prefers tea") pattern i j.
Proof.
  assert (lit "prefers tea" ∈ (find_similar (settings true) (env (tables []) (tables [])) query).1) as Hd
    by (apply (bool_decide_eq_true_1 _); vm_compute; reflexivity).
  split; [exact Hd|]. exact (proj2 (reranker_sees_no_pii (settings true) (env (tables []) (tables [])) query _ Hd)).
Defined.

Lemma conflict_pending : in_conflict (tables [conflict]) "org" "e1" "m1" "m3".
Proof. exists conflict, (memory "prefers tea"), (memory "prefers coffee"). split; [by left|]. split_and!; reflexivity. Qed.

Lemma standing_conflict_shows_one_side_witness : exists page,
  (find_similar (settings false) (env (tables [conflict]) (tables [conflict])) query).2 = Ok page /\
  ~ ("m1"%string ∈ res_id <$> page /\ "m3"%string ∈ res_id <$> page).
Proof.
  eexists. split; [vm_compute; reflexivity|].
  refine (standing_conflict_shows_one_side (settings false) (env (tables [conflict]) (tables [conflict])) query _
            "e1" "m1" "m3" _ eq_refl _ _); [vm_compute; reflexivity|discriminate|].
  intros t Ht. assert (t = tables [conflict]) as ->; [|apply conflict_pending].
  unfold shows_groups, hydrates in Ht. cbn in Ht. destruct Ht as [Ht|Ht]; [|by injection Ht].
  rewrite !elem_of_cons, elem_of_nil in Ht. by intuition congruence.
Defined.

Definition ok_or {A : Type} (d : A) (r : result ReadError A) : A := match r with Ok a => a | Raise _ => d end.
Definition fused : list RankedCandidate :=
  ok_or [] (hybrid_candidates (settings false) (env (tables [conflict]) (tables [conflict])) query).
Definition short_page : list MemorySearchResult :=
  ok_or [] (find_similar (settings false) (env (tables [conflict]) (tables [conflict])) query).2.
Definition third : RankedCandidate :=
  {| rc_id := "m3"; rc_score := b64_lit 4503599627370496 (-54); rc_source := full_text |}.

(** The page of the standing conflict is short; [m3] was eligible and yields to
    [m1]. *)
Lemma short_page_is_exhaustive_witness :
  let r := hh_result (hydrated_row (tables [conflict]) "m3" (memory "prefers coffee") third) in
  (find_similar (settings false) (env (tables [conflict]) (tables [conflict])) query).2 = Ok short_page /\
  (r ∈ short_page \/ exists r', r' ∈ short_page /\ share_conflict res_groups r' r).
Proof.
  assert (live_at query (tables [conflict]) "m3" (memory "prefers coffee")) as Hl
    by (split_and!; vm_compute; reflexivity).
  assert ((find_similar (settings false) (env (tables [conflict]) (tables [conflict])) query).2 = Ok short_page) as Hp
    by (vm_compute; reflexivity).
  split; [exact Hp|].
  assert (hybrid_candidates (settings false) (env (tables [conflict]) (tables [conflict])) query = Ok fused) as Hf
    by (vm_compute; reflexivity).
  assert (is_searchable_query (q_text query) = true) as Hq by (vm_compute; reflexivity).
  assert (fused !! 2%nat = Some third) as H3 by (vm_compute; reflexivity).
  refine (short_page_is_exhaustive (settings false) (env (tables [conflict]) (tables [conflict])) query fused short_page
    eq_refl Hq eq_refl Hf Hp _ 2%nat third (tables [conflict]) (memory "prefers coffee") H3 eq_refl Hl _ _);
    vm_compute; reflexivity.
Defined.

(** A conflict raised during a search can put both of its sides on the page: when
    an escalation becomes pending between the two hydrations of a refilled hybrid
    page, the rows of the first hydration are not read again, and the page holds
    both sides although the second hydration returned the escalation with one of
    them.  The fallback search re-reads the groups of the whole page in that case. *)
Theorem refill_shows_both_sides : exists st env q page s g a b,
  conflict_suppression_enabled st = true /\ (find_similar st env q).2 = Ok page /\ at_remaining env = Ok s /\
  in_conflict s (q_org_id q) g a b /\ a ∈ res_id <$> page /\ b ∈ res_id <$> page /\
  exists r, r ∈ page /\ g ∈ res_groups r.
Proof.
  exists (settings false), (env (tables []) (tables [conflict])), query. eexists.
  exists (tables [conflict]), "e1"%string, "m1"%string, "m3"%string. split; [reflexivity|].
  split; [vm_compute; reflexivity|]. split; [reflexivity|]. split; [apply conflict_pending|].
  split; [by left|]. split; [by right; left|]. eexists. split; [right; by left|]. cbn. by left.
Qed.
End SearchSample.
