(* ===== verification/HotCache.v ===== *)
(** * Hot memories and feedback ([services/memory/app/read/hot_cache.py],
      [cache/], [write/cache.py], [feedback/])

    The per-agent sorted set of hot memories in Redis, its writers, the reader
    that serves it, and the feedback ledger that refreshes it.  A sorted set is a
    map from members (memory ids) to scores, read in the order of score and
    member.  Whether a Redis call fails is an argument; the object cache next to
    the set, which nothing reads back, and logging are omitted. *)

From Stdlib Require Import SpecFloat.
From S2P Require Import Prelude Num PyText Collapse MemoryStore PiiGuard ReadRank MemoryRead MemorySearch.

(** ** Sorted sets of Redis *)

Abbreviation ZSet := (gmap UUID binary64).

Record HotKey := { hk_set : ZSet; hk_expires : Z }.
Abbreviation HotStore := (gmap string HotKey).

(** The set under a key, if it has not expired. *)
Definition zset_at (now : Z) (key : string) (r : HotStore) : ZSet :=
  match r !! key with
  | Some k => if now <? hk_expires k then hk_set k else ∅
  | None => ∅
  end.

(** Ascending score, then member. *)
Definition zset_ltb : UUID * binary64 -> UUID * binary64 -> bool :=
  key_ltb (fun e => (e.2, e.1)) (pair_ltb f_eqb f_ltb str_ltb).
Definition zrange (z : ZSet) : list (UUID * binary64) := py_sorted zset_ltb (map_to_list z).

(** [ZREVRANGE key 0 (n - 1) WITHSCORES] *)
Definition zrevrange (n : Z) (z : ZSet) : list (UUID * binary64) := take (Z.to_nat n) (reverse (zrange z)).

(** ** Keys and writes ([cache/hot_keys.py], [cache/hot_write.py]) *)

Definition HOT_CACHE_CAPACITY : Z := 50.

Definition hot_memories_key (org agent : UUID) : string := org +:+ ":hot_memories:" +:+ agent.

(** [ZREMRANGEBYRANK key 0 -51] *)
Definition ztrim (z : ZSet) : ZSet := list_to_map (drop (size z - 50) (zrange z)).

(** The script: [ZADD], trim, [EXPIRE]. *)
Definition zadd_hot_memory (now : Z) (key : string) (id : UUID) (score : binary64) (ttl : Z) (r : HotStore) : HotStore :=
  <[key := {| hk_set := ztrim (<[id := score]> (zset_at now key r)); hk_expires := now + ttl |}]> r.

(** [ZREM key member]: an empty set has no key. *)
Definition zrem (now : Z) (key : string) (id : UUID) (r : HotStore) : HotStore :=
  match r !! key with
  | Some k =>
      let z := delete id (zset_at now key r) in
      if bool_decide (z = ∅) then delete key r else <[key := {| hk_set := z; hk_expires := hk_expires k |}]> r
  | None => r
  end.

(** The columns of a [MemoryRow] the cache uses. *)
Record HotRow := {
  hr_id : UUID;
  hr_org_id : UUID;
  hr_agent_id : UUID;
  hr_category : string;
  hr_categories : list string;
  hr_confidence : binary64;
  hr_usefulness : binary64;
  hr_retrieval_count : Z;
  hr_valid_from : Z;
}.

Section Hot.
Context `{UnicodeDB} `{WordDB} `{Libm}.

(** [compute_hot_cache_score]: relevance is 1.0, there being no query. *)
Definition compute_hot_cache_score (m : HotRow) (now : Z) (weights : RankWeights) : result ReadError binary64 :=
  composite_score
    {| ci_relevance := b64_of_Z 1; ci_age_days := age_days now (hr_valid_from m);
       ci_categories := match hr_categories m with [] => [hr_category m] | cs => cs end;
       ci_usefulness := hr_usefulness m; ci_confidence := hr_confidence m;
       ci_access_frequency := min_one (b64_div (b64_of_Z (hr_retrieval_count m)) (b64_of_Z 10)) |}
    (Some weights).

(** [refresh_hot]: a Redis fault is swallowed, an error of the score is not. *)
Definition refresh_hot (weights : RankWeights) (ttl now redis_now : Z) (redis_up : bool) (m : HotRow) (r : HotStore)
    : result ReadError HotStore :=
  let* score := compute_hot_cache_score m now weights in
  if redis_up then Ok (zadd_hot_memory redis_now (hot_memories_key (hr_org_id m) (hr_agent_id m)) (hr_id m) score ttl r)
  else Ok r.

(** [forget_memory] on the set. *)
Definition forget_hot (redis_now : Z) (redis_up : bool) (org agent id : UUID) (r : HotStore) : HotStore :=
  if redis_up then zrem redis_now (hot_memories_key org agent) id r else r.

(** ** The reader ([read/hot_cache.py]) *)

Definition validate_min_confidence (v : binary64) : result ReadError unit :=
  raise_if negb (b64_is_finite v) with ValueError ;;
  raise_if (f_ltb v f_zero || f_ltb (b64_of_Z 1) v)%bool with ValueError ;;
  Ok tt.

Definition validate_hot_query (q : HotMemoryQuery) : result ReadError unit :=
  raise_if hq_limit q <? 1 with ValueError ;;
  raise_if HOT_CACHE_CAPACITY <? hq_limit q with ValueError ;;
  validate_min_confidence (hq_min_confidence q).

Definition hot_row (s : Snapshot) (id : UUID) (m : Memory) (score : binary64) : MemorySearchResult :=
  {| res_id := id; res_org_id := org_id (life m); res_agent_id := agent_id (life m);
     res_content := content (life m); res_category := category (life m);
     res_confidence := of_hundredths (confidence (life m)); res_status := status (life m);
     res_similarity := score; res_source := hot_cache; res_updated_at := updated_at m;
     res_categories := []; res_revision := lifecycle_revision m;
     res_groups := pending_groups s (org_id (life m)) id |}.

(** [_HYDRATE_HOT_SQL] for one id of the list. *)
Definition hot_sql (s : Snapshot) (q : HotMemoryQuery) (id : UUID) : option Memory :=
  match sn_memories s !! id with
  | None => None
  | Some m =>
      if (bool_decide (org_id (life m) = hq_org_id q) && bool_decide (agent_id (life m) = hq_agent_id q)
          && confident (hq_min_confidence q) m && visible s m)%bool
      then Some m else None
  end.

(** [[hydrated[id] for id in ordered_ids if id in hydrated]], each row with the
    score its id has in the set. *)
Definition hydrate_hot (s : Snapshot) (q : HotMemoryQuery) (raw : list (UUID * binary64)) : list MemorySearchResult :=
  omap (fun e => (fun m => hot_row s e.1 m e.2) <$> hot_sql s q e.1) raw.

Definition collapse_hot (enabled : bool) (results : list MemorySearchResult) : list MemorySearchResult :=
  if negb enabled then results else collapse_conflict_pairs results.

(** [get_hot_memories] with a Redis client: [redis] is what the read gives, or a
    fault. *)
Definition get_hot_memories (redis : option ZSet) (at_hydrate : result ReadError Snapshot) (q : HotMemoryQuery)
    : result ReadError (list MemorySearchResult) :=
  let* _ := validate_hot_query q in
  let fetch := Z.min (hq_limit q * 2) HOT_CACHE_CAPACITY in
  match redis with
  | None => Ok []
  | Some z =>
      let raw := zrevrange fetch z in
      if bool_decide (raw = []) then Ok [] else
      let* s := at_hydrate in
      let ordered := hydrate_hot s q raw in
      let allowed := filter_pii_blocked_results res_content ordered in
      Ok (take (Z.to_nat (hq_limit q)) (collapse_hot (hq_suppress_conflicts q) allowed))
  end.
End Hot.

(** ** Feedback ([feedback/persist.py], [feedback/score.py]) *)

Inductive FeedbackKind := POSITIVE | NEGATIVE | NEUTRAL.

#[global] Instance FeedbackKind_eq_dec : EqDecision FeedbackKind.
Proof. solve_decision. Defined.

Record ApplyFeedbackCommand := {
  fc_org_id : UUID;
  fc_agent_id : UUID;
  fc_memory_id : UUID;
  fc_feedback : FeedbackKind;
}.

Record ApplyFeedbackResult := {
  fr_memory : UUID;
  fr_feedback : FeedbackKind;
  fr_new_usefulness : Z;
  fr_positive : Z;
  fr_negative : Z;
}.

Inductive FeedbackError := MemoryNotFoundError | CountError.

(** The ledger [memory_feedback], by its unique key (organization, memory,
    agent), next to the memories. *)
Record FeedbackDB := {
  votes : gmap (UUID * UUID * UUID) FeedbackKind;
  fb_memories : gmap UUID Memory;
}.

(** [(p + 1) / (p + n + 2)] in hundredths, rounded half up.  The double in between
    does not change the outcome for fewer than 10^13 votes. *)
Definition laplace_usefulness (positive negative : Z) : result FeedbackError Z :=
  if ((positive <? 0) || (negative <? 0))%bool then Raise CountError else
  let raw := (200 * (positive + 1) + (positive + negative + 2)) / (2 * (positive + negative + 2)) in
  Ok (Z.min 100 (Z.max 0 raw)).

Definition feedback_live (org : UUID) (m : Memory) : bool :=
  (bool_decide (org_id (life m) = org) && bool_decide (deleted_at (life m) = None) && negb (tombstoned (life m)))%bool.

Definition load_memory (c : ApplyFeedbackCommand) (d : FeedbackDB) : result FeedbackError Memory :=
  match fb_memories d !! fc_memory_id c with
  | Some m => if feedback_live (fc_org_id c) m then Ok m else Raise MemoryNotFoundError
  | None => Raise MemoryNotFoundError
  end.

Definition upsert_ledger (c : ApplyFeedbackCommand) (d : FeedbackDB) : FeedbackDB :=
  {| votes := <[(fc_org_id c, fc_memory_id c, fc_agent_id c) := fc_feedback c]> (votes d);
     fb_memories := fb_memories d |}.

Definition votes_of (org memory : UUID) (d : FeedbackDB) : list FeedbackKind :=
  (map_to_list (filter (fun e : UUID * UUID * UUID * FeedbackKind => e.1.1.1 = org /\ e.1.1.2 = memory) (votes d))).*2.

Definition count_kind (k : FeedbackKind) (l : list FeedbackKind) : Z :=
  Z.of_nat (length (List.filter (fun x => bool_decide (x = k)) l)).

Definition count_votes (c : ApplyFeedbackCommand) (d : FeedbackDB) : Z * Z :=
  let l := votes_of (fc_org_id c) (fc_memory_id c) d in (count_kind POSITIVE l, count_kind NEGATIVE l).

Definition with_usefulness (score now : Z) (m : Memory) : Memory :=
  {| life := life m; session_id := session_id m; embedding := embedding m; retrieval_count := retrieval_count m;
     last_retrieved_at := last_retrieved_at m; usefulness_score := score; updated_at := now;
     lifecycle_revision := lifecycle_revision m |}.

Definition update_usefulness (c : ApplyFeedbackCommand) (score now : Z) (d : FeedbackDB) : result FeedbackError FeedbackDB :=
  match fb_memories d !! fc_memory_id c with
  | Some m =>
      if feedback_live (fc_org_id c) m
      then Ok {| votes := votes d; fb_memories := <[fc_memory_id c := with_usefulness score now m]> (fb_memories d) |}
      else Raise MemoryNotFoundError
  | None => Raise MemoryNotFoundError
  end.

(** [apply_feedback_session]: one transaction under the lock of the memory row. *)
Definition apply_feedback_session (now : Z) (c : ApplyFeedbackCommand) (d : FeedbackDB)
    : result FeedbackError (ApplyFeedbackResult * FeedbackDB) :=
  let* _ := load_memory c d in
  let d := upsert_ledger c d in
  let '(positive, negative) := count_votes c d in
  let* score := laplace_usefulness positive negative in
  let* d := update_usefulness c score now d in
  Ok ({| fr_memory := fc_memory_id c; fr_feedback := fc_feedback c; fr_new_usefulness := score;
         fr_positive := positive; fr_negative := negative |}, d).

(** A call as a step: a transaction that raises changes nothing. *)
Definition feedback_step (d : FeedbackDB) (e : Z * ApplyFeedbackCommand) : FeedbackDB :=
  match apply_feedback_session e.1 e.2 d with Ok (_, d') => d' | Raise _ => d end.

(** ** What the sorted set keeps *)

Definition scores_num (z : ZSet) : Prop := map_Forall (fun _ x => f_num x) z.

#[local] Instance zset_order : PyOrder zset_ltb (fun e => f_num e.2).
Proof.
  pose proof (key_ltb_order (fun e : UUID * binary64 => (e.2, e.1)) _ _
    (PyOrder0 := pair_ltb_order (A := binary64) f_eqb f_ltb str_ltb f_num (fun _ => True) f_eqb_spec)) as Hk.
  split; [intros a b Ha Hb|intros a b c Ha Hb Hc];
    [apply (po_asym (PyOrder := Hk))|apply (po_neg_trans (PyOrder := Hk) a b c)]; done.
Qed.

Lemma zset_leb (a b : UUID * binary64) : f_num a.2 -> f_num b.2 -> leb_of zset_ltb a b -> f_ltb b.2 a.2 = false.
Proof.
  destruct a as [i x], b as [k y]. unfold leb_of, zset_ltb, key_ltb, pair_ltb. cbn [fst snd]. intros Hx Hy.
  rewrite f_eqb_spec by done. by destruct (f_ltb y x), (f_ltb x y).
Qed.

Lemma zrange_elem z i x : (i, x) ∈ zrange z <-> z !! i = Some x.
Proof. unfold zrange. by rewrite py_sorted_elem, elem_of_map_to_list. Qed.

Lemma zrange_nodup z : NoDup (zrange z).*1.
Proof. unfold zrange. rewrite (py_sorted_perm zset_ltb). apply NoDup_fst_map_to_list. Qed.

Lemma zrange_sorted z : scores_num z -> StronglySorted (leb_of zset_ltb) (zrange z).
Proof.
  intros Hz. apply (py_sorted_sorted _ (ok := fun e => f_num e.2)). apply Forall_forall.
  intros [i x] Hx%elem_of_map_to_list. by apply (Hz i x).
Qed.

Lemma StronglySorted_split {A : Type} (R : A -> A -> Prop) n (l : list A) a b :
  StronglySorted R l -> a ∈ take n l -> b ∈ drop n l -> R a b.
Proof.
  revert n. induction l as [|x l IH]; intros [|n] Hs Ha Hb; cbn in *; try by apply elem_of_nil in Ha.
  inversion Hs as [|? ? Hs' Hx]; subst. apply elem_of_cons in Ha as [->|Ha]; [|by eapply IH].
  rewrite Forall_forall in Hx. apply Hx. by apply (sublist_subseteq _ _ (sublist_drop l n)).
Qed.

Lemma ztrim_lookup z i x : ztrim z !! i = Some x <-> (i, x) ∈ drop (size z - 50) (zrange z).
Proof.
  unfold ztrim. symmetry. apply elem_of_list_to_map. eapply sublist_NoDup; [apply (zrange_nodup z)|].
  apply fmap_sublist, sublist_drop.
Qed.

Lemma ztrim_spec z : scores_num z ->
  size (ztrim z) = (size z `min` 50)%nat /\ ztrim z ⊆ z /\
  forall i x k y, z !! i = Some x -> ztrim z !! i = None -> ztrim z !! k = Some y -> f_ltb y x = false.
Proof.
  intros Hz. split_and!.
  - unfold ztrim. rewrite <- length_map_to_list, map_to_list_to_map.
    + rewrite length_drop. unfold zrange. rewrite py_sorted_length, length_map_to_list. lia.
    + eapply sublist_NoDup; [apply (zrange_nodup z)|]. apply fmap_sublist, sublist_drop.
  - apply map_subseteq_spec. intros i x Hx%ztrim_lookup. apply zrange_elem.
    by apply (sublist_subseteq _ _ (sublist_drop _ _)) in Hx.
  - intros i x k y Hi Hn Hk%ztrim_lookup.
    assert ((i, x) ∈ take (size z - 50) (zrange z)) as Hin.
    { apply zrange_elem in Hi. rewrite <- (take_drop (size z - 50) (zrange z)), elem_of_app in Hi.
      destruct Hi as [?|Hi%ztrim_lookup]; [done|congruence]. }
    assert (z !! k = Some y) as Hy by (apply zrange_elem; by apply (sublist_subseteq _ _ (sublist_drop _ _)) in Hk).
    apply (zset_leb (i, x) (k, y)); [by apply (Hz i x)|by apply (Hz k y)|].
    by apply (StronglySorted_split _ (size z - 50) (zrange z)); [apply zrange_sorted|..].
Qed.

(** Writers and evictions of hot memories, by any agent. *)
Inductive HotOp :=
| Refresh (row : HotRow) (now redis_now : Z) (redis_up : bool)
| Evict (org agent id : UUID) (redis_now : Z) (redis_up : bool).

Section HotHistory.
Context `{UnicodeDB} `{WordDB} `{Libm} (weights : RankWeights) (ttl : Z).

Definition hot_step (r : HotStore) (op : HotOp) : HotStore :=
  match op with
  | Refresh row now redis_now up =>
      match refresh_hot weights ttl now redis_now up row r with Ok r' => r' | Raise _ => r end
  | Evict org agent id redis_now up => forget_hot redis_now up org agent id r
  end.

Definition hot_ok (r : HotStore) : Prop :=
  forall key k, r !! key = Some k -> (size (hk_set k) <= 50)%nat /\ scores_num (hk_set k).

Lemma zset_at_ok now key r : hot_ok r -> (size (zset_at now key r) <= 50)%nat /\ scores_num (zset_at now key r).
Proof.
  intros Hr. unfold zset_at. destruct (r !! key) as [k|] eqn:E; [|rewrite map_size_empty; split; [lia|apply map_Forall_empty]].
  destruct (now <? hk_expires k); [by apply (Hr key)|rewrite map_size_empty; split; [lia|apply map_Forall_empty]].
Qed.

Lemma zadd_ok now key id x ttl' r : hot_ok r -> f_num x -> hot_ok (zadd_hot_memory now key id x ttl' r).
Proof.
  intros Hr Hx key' k. unfold zadd_hot_memory. rewrite lookup_insert_Some. intros [[<- <-]|[_ Hk]]; [|by apply (Hr key')].
  cbn. destruct (zset_at_ok now key r Hr) as [_ Hz].
  assert (scores_num (<[id := x]> (zset_at now key r))) as Hz' by (by apply map_Forall_insert_2).
  destruct (ztrim_spec _ Hz') as (Hs & Hsub & _). split; [rewrite Hs; lia|].
  intros i y Hy. eapply (Hz' i y). by eapply lookup_weaken.
Qed.

Lemma hot_step_ok r op : hot_ok r -> hot_ok (hot_step r op).
Proof.
  intros Hr. destruct op as [row now rnow up|org agent id rnow up]; cbn.
  - unfold refresh_hot. destruct (compute_hot_cache_score row now weights) as [x|] eqn:E; cbn; [|done].
    destruct up; [|done]. apply zadd_ok; [done|]. by eapply composite_score_num.
  - unfold forget_hot. destruct up; [|done]. unfold zrem. destruct (r !! _) as [k|] eqn:E; [|done].
    case_bool_decide; intros key' k' Hk; [apply lookup_delete_Some in Hk as [_ Hk]; by apply (Hr key')|].
    apply lookup_insert_Some in Hk as [[<- <-]|[_ Hk]]; [|by apply (Hr key')]. cbn.
    destruct (zset_at_ok rnow (hot_memories_key org agent) r Hr) as [Hs Hz]. split.
    + etrans; [|exact Hs]. apply map_subseteq_size, delete_subseteq.
    + intros i y Hy. apply lookup_delete_Some in Hy as [_ Hy]. by apply (Hz i y).
Qed.

Lemma hot_history_ok ops : forall r, hot_ok r -> hot_ok (foldl hot_step r ops).
Proof. induction ops as [|op ops IH]; intros r Hr; cbn; [done|]. by apply IH, hot_step_ok. Qed.

(** The hot set holds the best memories it was offered: after any history of
    refreshes and evictions by any agents, with Redis up or down, the next
    successful refresh leaves at most fifty members, loses none while there is
    room, and drops only members that do not score above any member it keeps. *)
Theorem hot_set_keeps_best ops m now redis_now r' :
  let r := foldl hot_step ∅ ops in
  let key := hot_memories_key (hr_org_id m) (hr_agent_id m) in
  0 < ttl -> refresh_hot weights ttl now redis_now true m r = Ok r' ->
  exists x, compute_hot_cache_score m now weights = Ok x /\
  let offered := <[hr_id m := x]> (zset_at redis_now key r) in
  let kept := zset_at redis_now key r' in
  size kept = (size offered `min` 50)%nat /\ kept ⊆ offered /\
  forall i xi k xk, offered !! i = Some xi -> kept !! i = None -> kept !! k = Some xk -> f_ltb xk xi = false.
Proof.
  intros r key Httl. unfold refresh_hot. intros (x & Hx & [= <-])%rbind_Ok. exists x. split; [done|].
  assert (hot_ok r) as Hr by (apply hot_history_ok; intros ? ?; by rewrite lookup_empty).
  assert (zset_at redis_now key (zadd_hot_memory redis_now key (hr_id m) x ttl r) =
    ztrim (<[hr_id m := x]> (zset_at redis_now key r))) as E.
  { unfold zadd_hot_memory. unfold zset_at at 1. rewrite lookup_insert_eq. cbn [hk_set hk_expires].
    by destruct (Z.ltb_spec redis_now (redis_now + ttl)); [|lia]. }
  cbn zeta. fold key. rewrite E. apply ztrim_spec.
  apply map_Forall_insert_2; [by eapply composite_score_num|]. by apply zset_at_ok.
Qed.
End HotHistory.

(** ** What the reader serves *)

Section HotReader.
Context `{UnicodeDB} `{WordDB} `{Libm}.

Lemma hot_sql_Some s q id m : hot_sql s q id = Some m ->
  sn_memories s !! id = Some m /\ org_id (life m) = hq_org_id q /\ agent_id (life m) = hq_agent_id q /\
  confident (hq_min_confidence q) m = true /\ visible s m = true.
Proof.
  unfold hot_sql. destruct (sn_memories s !! id) as [m'|] eqn:E; [|done].
  destruct (_ && _)%bool eqn:Eb; [|done]. intros [= <-]. by bools.
Qed.

Lemma hydrate_hot_ids s q raw : sublist (res_id <$> hydrate_hot s q raw) raw.*1.
Proof.
  induction raw as [|[id x] raw IH]; cbn; [done|]. destruct (hot_sql s q id); cbn; by constructor.
Qed.

Lemma hydrate_hot_elem s q raw r : r ∈ hydrate_hot s q raw ->
  exists id x m, (id, x) ∈ raw /\ hot_sql s q id = Some m /\ r = hot_row s id m x.
Proof.
  unfold hydrate_hot. intros ([id x] & Hin & Hr)%list_elem_of_omap. cbn in Hr.
  destruct (hot_sql s q id) as [m|] eqn:E; [|done]. injection Hr as <-. by exists id, x, m.
Qed.

Lemma collapse_hot_sub b l : sublist (collapse_hot b l) l.
Proof.
  unfold collapse_hot, collapse_conflict_pairs. destruct b; cbn; [|done].
  destruct (collapse_sublist res_groups l [] ∅) as (l' & Hl & ->). done.
Qed.

(** The hot cache is never the authority: whatever the sorted set holds (forgotten,
    superseded or foreign ids, stale scores), a page has at most [limit] results in
    the order of the set, each once, every one the current text of a live memory of
    that agent and organization with enough confidence, with no Tier-1 pattern in
    it, and with suppression on no two results share a pending conflict. *)
Theorem hot_page_is_safe z at_ q page : get_hot_memories (Some z) at_ q = Ok page ->
  Z.of_nat (length page) <= hq_limit q /\ sublist (res_id <$> page) (reverse (zrange z)).*1 /\
  NoDup (res_id <$> page) /\
  (hq_suppress_conflicts q = true ->
     forall r r', r ∈ page -> r' ∈ page -> r <> r' -> ~ share_conflict res_groups r r') /\
  forall r, r ∈ page -> exists s m, at_ = Ok s /\ sn_memories s !! res_id r = Some m /\
    org_id (life m) = hq_org_id q /\ agent_id (life m) = hq_agent_id q /\ visible s m = true /\
    confident (hq_min_confidence q) m = true /\ res_content r = content (life m) /\
    z !! res_id r = Some (res_similarity r) /\
    forall pattern i j, pattern ∈ TIER1_CHECKS -> ~ matches (res_content r) pattern i j.
Proof.
  unfold get_hot_memories. intros ([] & Hv & Hp)%rbind_Ok.
  assert (1 <= hq_limit q) as Hlim by (unfold validate_hot_query in Hv; by destruct (Z.ltb_spec (hq_limit q) 1)).
  case_bool_decide; [injection Hp as <-; cbn; split_and!; [lia|apply sublist_nil_l|constructor|set_solver..]|].
  apply rbind_Ok in Hp as (s & Hs & [= <-]). set (raw := zrevrange _ z) in *.
  set (allowed := filter_pii_blocked_results _ _). set (kept := collapse_hot _ allowed).
  assert (sublist (take (Z.to_nat (hq_limit q)) kept) allowed) as Hsub
    by (etrans; [apply sublist_take|apply collapse_hot_sub]).
  assert (sublist allowed (hydrate_hot s q raw)) as Hpii.
  { unfold allowed, filter_pii_blocked_results. generalize (hydrate_hot s q raw). intros l.
    induction l as [|a l IH]; cbn; [done|]. destruct (negb _); by constructor. }
  assert (sublist (res_id <$> take (Z.to_nat (hq_limit q)) kept) (reverse (zrange z)).*1) as Hids.
  { etrans; [apply fmap_sublist; etrans; [exact Hsub|exact Hpii]|]. etrans; [apply hydrate_hot_ids|].
    apply fmap_sublist, sublist_take. }
  split_and!; [rewrite length_take; lia|done| | |].
  - eapply sublist_NoDup; [|exact Hids]. rewrite (reverse_Permutation (zrange z)). apply zrange_nodup.
  - intros Hsup r r' Hr%(sublist_subseteq _ _ (sublist_take _ _)) Hr'%(sublist_subseteq _ _ (sublist_take _ _)) Hne.
    unfold kept, collapse_hot in Hr, Hr'. rewrite Hsup in Hr, Hr'. cbn in Hr, Hr'.
    by apply (collapse_no_pair res_groups allowed).
  - intros r [Hr Hb]%(sublist_subseteq _ _ Hsub)%pii_allowed_elem.
    apply hydrate_hot_elem in Hr as (id & x & m & Hin & (Hm & Ho & Ha & Hc & Hvis)%hot_sql_Some & ->).
    exists s, m. split_and!; try done.
    + apply (sublist_subseteq _ _ (sublist_take _ _)) in Hin. rewrite elem_of_reverse in Hin. change (z !! id = Some x). by apply zrange_elem.
    + intros pattern i j Hpat Hm'. assert (should_block_read_result (res_content (hot_row s id m x)) = true); [|congruence].
      apply should_block_spec. eauto.
Qed.
End HotReader.

(** ** Votes *)

(** A memory with votes has the usefulness of its votes. *)
Definition feedback_ok (d : FeedbackDB) : Prop :=
  forall id m, fb_memories d !! id = Some m -> votes_of (org_id (life m)) id d <> [] ->
    laplace_usefulness (count_kind POSITIVE (votes_of (org_id (life m)) id d))
                       (count_kind NEGATIVE (votes_of (org_id (life m)) id d)) = Ok (usefulness_score m).

Lemma votes_of_other org id k v d : k.1.2 <> id \/ k.1.1 <> org ->
  votes_of org id {| votes := <[k := v]> (votes d); fb_memories := fb_memories d |} = votes_of org id d.
Proof.
  intros Hk. unfold votes_of. cbn. rewrite map_filter_insert_not; [done|]. intros ? [E1 E2]. cbn in *. naive_solver.
Qed.

Lemma feedback_step_ok d e : feedback_ok d -> feedback_ok (feedback_step d e).
Proof.
  intros Hd. unfold feedback_step. destruct (apply_feedback_session e.1 e.2 d) as [[r d']|] eqn:E; [|done].
  destruct e as [now c]. cbn [fst snd] in E. unfold apply_feedback_session in E.
  apply rbind_Ok in E as (m0 & Hm0 & E). unfold count_votes in E. apply rbind_Ok in E as (score & Hs & E).
  apply rbind_Ok in E as (d2 & Hu & [= <- <-]). unfold update_usefulness in Hu. cbn [fb_memories upsert_ledger] in Hu.
  destruct (fb_memories d !! fc_memory_id c) as [m1|] eqn:Em; [|done].
  destruct (feedback_live (fc_org_id c) m1) eqn:El; [|done]. injection Hu as <-.
  assert (org_id (life m1) = fc_org_id c) as Ho by (unfold feedback_live in El; by bools).
  intros id m Hm Hv. cbn [fb_memories] in Hm.
  assert (forall o i (mm : gmap UUID Memory), votes_of o i {| votes := votes (upsert_ledger c d); fb_memories := mm |}
    = votes_of o i (upsert_ledger c d)) as Hvo by done. rewrite Hvo in Hv |- *.
  apply lookup_insert_Some in Hm as [[<- <-]|[Hne Hm]]; cbn [life with_usefulness usefulness_score].
  - by rewrite Ho.
  - unfold upsert_ledger in Hv |- *. rewrite votes_of_other in Hv |- * by (left; done). by apply Hd.
Qed.

(** Usefulness is the ledger's: after any history of feedback from any agents,
    in any order, every memory that has votes carries exactly the smoothed share
    of its positive votes, with one vote per agent, the agent's last one; calls
    that fail change nothing. *)
Theorem usefulness_tracks_votes memories history :
  let d := foldl feedback_step {| votes := ∅; fb_memories := memories |} history in
  feedback_ok d /\
  forall now c r d', apply_feedback_session now c d = Ok (r, d') ->
    votes d' !! (fc_org_id c, fc_memory_id c, fc_agent_id c) = Some (fc_feedback c) /\
    0 <= fr_new_usefulness r <= 100 /\
    exists m, fb_memories d' !! fc_memory_id c = Some m /\ usefulness_score m = fr_new_usefulness r.
Proof.
  intros d. split.
  - unfold d. assert (feedback_ok {| votes := ∅; fb_memories := memories |}) as H0.
    { intros id m _ Hv. exfalso. apply Hv. unfold votes_of. cbn. by rewrite map_filter_empty, map_to_list_empty. }
    revert H0. generalize {| votes := ∅; fb_memories := memories |}. induction history as [|e l IH]; intros d0 H0; cbn; [done|].
    by apply IH, feedback_step_ok.
  - intros now c r d' E. unfold apply_feedback_session in E.
    apply rbind_Ok in E as (m0 & Hm0 & E). unfold count_votes in E. apply rbind_Ok in E as (score & Hs & E).
    apply rbind_Ok in E as (d2 & Hu & [= <- <-]). unfold update_usefulness in Hu.
    destruct (fb_memories (upsert_ledger c d) !! fc_memory_id c) as [m1|]; [|done].
    destruct (feedback_live (fc_org_id c) m1); [|done]. injection Hu as <-. cbn. rewrite !lookup_insert_eq.
    split_and!; [done| | |by eexists].
    all: unfold laplace_usefulness in Hs; destruct (_ || _)%bool; [done|]; injection Hs as <-; lia.
Qed.

(** ** Samples *)

Module HotSample.
Import SearchSample.
#[local] Existing Instance ascii_db.
#[local] Existing Instance ascii_words.
#[local] Existing Instance flat_exp.

Definition row (id : UUID) (useful : Z) : HotRow :=
  {| hr_id := id; hr_org_id := "org"; hr_agent_id := "agent"; hr_category := "factual"; hr_categories := [];
     hr_confidence := of_hundredths 90; hr_usefulness := of_hundredths useful; hr_retrieval_count := 0; hr_valid_from := 0 |}%string.

Definition history : list HotOp :=
  [Refresh (row "m1" 50) 1000000 10 true; Refresh (row "m2" 60) 1000000 11 true; Refresh (row "m9" 80) 1000000 12 true].

Definition after : HotStore :=
  ok_or ∅ (refresh_hot default_weights 3600 1000000 13 true (row "m3" 70) (foldl (hot_step default_weights 3600) ∅ history)).

Lemma hot_set_keeps_best_witness : exists x,
  compute_hot_cache_score (row "m3" 70) 1000000 default_weights = Ok x /\
  size (zset_at 13 (hot_memories_key "org" "agent") after) = 4%nat.
Proof.
  assert (refresh_hot default_weights 3600 1000000 13 true (row "m3" 70) (foldl (hot_step default_weights 3600) ∅ history)
    = Ok after) as Hr by (vm_compute; reflexivity).
  destruct (hot_set_keeps_best default_weights 3600 history (row "m3" 70) 1000000 13 after ltac:(reflexivity) Hr)
    as (x & Hx & Hs & _).
  exists x. split; [exact Hx|]. etransitivity; [exact Hs|]. vm_compute in Hx. injection Hx as <-. vm_compute. reflexivity.
Defined.

Definition zset : ZSet := {[ "m1" := of_hundredths 50; "m2" := of_hundredths 60; "m3" := of_hundredths 70; "m9" := of_hundredths 80 ]}%string.

Definition hot_query : HotMemoryQuery :=
  {| hq_org_id := "org"; hq_agent_id := "agent"; hq_limit := 2; hq_min_confidence := f_zero; hq_suppress_conflicts := true |}%string.

(** [m9] does not exist, [m2] is blocked; [m1] conflicts with [m3]. *)
Lemma hot_samples :
  (match get_hot_memories (Some zset) (Ok (tables [])) hot_query with Ok p => res_id <$> p | Raise _ => [] end) = ["m3"; "m1"]%string /\
  (match get_hot_memories (Some zset) (Ok (tables [conflict])) hot_query with Ok p => res_id <$> p | Raise _ => [] end) = ["m3"]%string /\
  get_hot_memories None (Ok (tables [])) hot_query = Ok [].
Proof. vm_compute. split_and!; reflexivity. Qed.

Lemma hot_page_is_safe_witness : exists page, get_hot_memories (Some zset) (Ok (tables [])) hot_query = Ok page /\
  length page = 2%nat /\ NoDup (res_id <$> page).
Proof.
  eexists. split; [vm_compute; reflexivity|]. split; [reflexivity|].
  refine (proj1 (proj2 (proj2 (hot_page_is_safe zset (Ok (tables [])) hot_query _ _)))). vm_compute. reflexivity.
Defined.

Definition vote (agent : UUID) (k : FeedbackKind) : Z * ApplyFeedbackCommand :=
  (7, {| fc_org_id := "org"; fc_agent_id := agent; fc_memory_id := "m1"; fc_feedback := k |}%string).

Lemma feedback_samples :
  let d := foldl feedback_step {| votes := ∅; fb_memories := sn_memories (tables []) |}
    [vote "a" POSITIVE; vote "b" NEGATIVE; vote "a" POSITIVE; vote "c" POSITIVE] in
  (usefulness_score <$> fb_memories d !! "m1"%string) = Some 60 /\ (usefulness_score <$> fb_memories d !! "m3"%string) = Some 50.
Proof. vm_compute. split; reflexivity. Qed.
End HotSample.
