(* ===== verification/Lineage.v ===== *)
(** * Memory lineage ([services/memory/app/read/lineage.py], the function
      [resolve_supersession_tip] of migration 000016)

    The depth-capped walk over [memory_relationships] and the head of a
    supersession chain.  A recursive query is the list of its levels: the rows of
    one level are joined to give the next.  The two statements of a call may see
    different snapshots. *)

From S2P Require Import Prelude Num MemoryStore ReadRank.

Definition MAX_LINEAGE_DEPTH : Z := 5.
Definition DEFAULT_LINEAGE_DEPTH : Z := 3.
Definition MAX_LINEAGE_EDGES : Z := 100.

(** A row of [memory_relationships]. *)
Record EdgeRow := {
  ed_id : UUID;
  ed_org_id : UUID;
  ed_source : UUID;
  ed_target : UUID;
  ed_type : string;
  ed_confidence : Z;
}.

#[global] Instance EdgeRow_eq_dec : EqDecision EdgeRow.
Proof. solve_decision. Defined.

Record LineageTables := {
  lt_memories : gmap UUID Memory;
  lt_edges : list EdgeRow;
}.

Record LineageQuery := {
  lq_org_id : UUID;
  lq_memory_id : UUID;
  lq_agent_id : option UUID;
  lq_max_depth : Z;
}.

Record LineageRoot := {
  root_memory_id : UUID;
  root_status : string;
  root_tombstoned : bool;
  root_tip : option UUID;
}.

Record LineageEndpoint := { end_memory_id : UUID; end_status : string; end_tombstoned : bool }.

Record LineageEdge := {
  le_source : UUID;
  le_target : UUID;
  le_type : string;
  le_confidence : binary64;
  le_depth : Z;
  le_from : UUID;
  le_other : LineageEndpoint;
}.

Record LineageResult := {
  lr_root : LineageRoot;
  lr_edges : list LineageEdge;
  lr_truncated : bool;
  lr_max_depth : Z;
}.

(** ** Recursive walks *)

(** A row of a walk: the node, the path to it (latest first) and the edge it came
    by with the node it came from. *)
Record WalkRow := {
  wr_node : UUID;
  wr_path : list UUID;
  wr_edge : option (EdgeRow * UUID);
}.

Definition wr_depth (w : WalkRow) : Z := Z.of_nat (length (wr_path w)) - 1.

(** [n] rounds of the recursive term after the rows of one level. *)
Fixpoint walk_levels (next : WalkRow -> list WalkRow) (n : nat) (level : list WalkRow) : list WalkRow :=
  level ++ match n with O => [] | S n => walk_levels next n (mjoin (next <$> level)) end.

Definition start_row (id : UUID) : WalkRow := {| wr_node := id; wr_path := [id]; wr_edge := None |}.

(** A step to a node that is not on the path. *)
Definition step_to (w : WalkRow) (e : EdgeRow) (node : UUID) : list WalkRow :=
  if bool_decide (node ∈ wr_path w) then []
  else [{| wr_node := node; wr_path := node :: wr_path w; wr_edge := Some (e, wr_node w) |}].

(** ** The lineage statement *)

(** Tenant and agent conditions, repeated at every level. *)
Definition in_scope (t : LineageTables) (q : LineageQuery) (id : UUID) : bool :=
  match lt_memories t !! id with
  | None => false
  | Some m => (bool_decide (org_id (life m) = lq_org_id q)
               && match lq_agent_id q with None => true | Some a => bool_decide (agent_id (life m) = a) end)%bool
  end.

(** The far end of an edge, seen from a node. *)
Definition far_end (e : EdgeRow) (node : UUID) : UUID :=
  if bool_decide (ed_source e = node) then ed_target e else ed_source e.

Definition touches (e : EdgeRow) (node : UUID) : bool :=
  (bool_decide (ed_source e = node) || bool_decide (ed_target e = node))%bool.

(** The recursive term of [_LINEAGE_SQL]. *)
Definition lineage_next (t : LineageTables) (q : LineageQuery) (w : WalkRow) : list WalkRow :=
  mjoin ((fun e =>
    if (bool_decide (ed_org_id e = lq_org_id q) && touches e (wr_node w) && in_scope t q (far_end e (wr_node w)))%bool
    then step_to w e (far_end e (wr_node w)) else []) <$> lt_edges t).

Definition lineage_walk (t : LineageTables) (q : LineageQuery) : list WalkRow :=
  if in_scope t q (lq_memory_id q)
  then walk_levels (lineage_next t q) (Z.to_nat (lq_max_depth q)) [start_row (lq_memory_id q)]
  else [].

(** A row of the CTE [edges]: edge, depth and the node it was reached from. *)
Definition EdgeHit : Type := EdgeRow * (Z * UUID).

Definition edge_hits (rows : list WalkRow) : list EdgeHit :=
  omap (fun w => (fun ef : EdgeRow * UUID => (ef.1, (wr_depth w, ef.2))) <$> wr_edge w) rows.

(** [DISTINCT ON (edge_id) ... ORDER BY edge_id, depth]: levels come in the order
    of depth, so the first hit of an edge is a shallowest one. *)
Fixpoint distinct_edges (seen : list UUID) (hits : list EdgeHit) : list EdgeHit :=
  match hits with
  | [] => []
  | h :: hits =>
      if bool_decide (ed_id h.1 ∈ seen) then distinct_edges seen hits
      else h :: distinct_edges (ed_id h.1 :: seen) hits
  end.

(** [ORDER BY e.depth, e.relationship_type, e.edge_id] *)
Definition edge_ltb : EdgeHit -> EdgeHit -> bool :=
  key_ltb (fun h : EdgeHit => (h.2.1, (ed_type h.1, ed_id h.1)))
    (pair_ltb Z.eqb Z.ltb (pair_ltb String.eqb str_ltb str_ltb)).

(** The row of the final projection; the join to the far end re-applies the
    scope. *)
Definition lineage_row (t : LineageTables) (q : LineageQuery) (h : EdgeHit) : option LineageEdge :=
  let other := if bool_decide (h.2.2 = ed_source h.1) then ed_target h.1 else ed_source h.1 in
  match lt_memories t !! other with
  | None => None
  | Some m =>
      if in_scope t q other
      then Some {| le_source := ed_source h.1; le_target := ed_target h.1; le_type := ed_type h.1;
                   le_confidence := of_hundredths (ed_confidence h.1); le_depth := h.2.1; le_from := h.2.2;
                   le_other := {| end_memory_id := other; end_status := status (life m);
                                  end_tombstoned := tombstoned (life m) |} |}
      else None
  end.

Definition lineage_sql (t : LineageTables) (q : LineageQuery) (edge_limit : Z) : list LineageEdge :=
  take (Z.to_nat edge_limit)
    (omap (lineage_row t q) (py_sorted edge_ltb (distinct_edges [] (edge_hits (lineage_walk t q))))).

(** ** The root statement *)

(** The recursive term of [resolve_supersession_tip]. *)
Definition tip_next (t : LineageTables) (org : UUID) (w : WalkRow) : list WalkRow :=
  mjoin ((fun e =>
    if (bool_decide (ed_target e = wr_node w) && bool_decide (ed_org_id e = org)
        && bool_decide (ed_type e = "supersedes"%string))%bool
    then step_to w e (ed_source e) else []) <$> lt_edges t).

(** [ORDER BY depth DESC, mem_id ASC LIMIT 1] *)
Definition tip_ltb : WalkRow -> WalkRow -> bool :=
  key_ltb (fun w => (- wr_depth w, wr_node w)) (pair_ltb Z.eqb Z.ltb str_ltb).

Definition resolve_supersession_tip (t : LineageTables) (org id : UUID) (max_depth : Z) : option UUID :=
  if ((max_depth <? 1) || (5 <? max_depth))%bool then Some id else
  match lt_memories t !! id with
  | Some m =>
      if bool_decide (org_id (life m) = org)
      then wr_node <$> head (py_sorted tip_ltb (walk_levels (tip_next t org) (Z.to_nat max_depth) [start_row id]))
      else None
  | None => None
  end.

(** [_ROOT_SQL] *)
Definition root_sql (t : LineageTables) (q : LineageQuery) : option LineageRoot :=
  if in_scope t q (lq_memory_id q) then
    match lt_memories t !! lq_memory_id q with
    | None => None
    | Some m =>
        let tip :=
          match resolve_supersession_tip t (lq_org_id q) (lq_memory_id q) MAX_LINEAGE_DEPTH with
          | Some tip => if in_scope t q tip then Some tip else None
          | None => None
          end in
        Some {| root_memory_id := lq_memory_id q; root_status := status (life m); root_tombstoned := tombstoned (life m);
                root_tip :=
                  match tip with
                  | None => Some (lq_memory_id q)
                  | Some tip =>
                      if existsb (fun e => (bool_decide (ed_org_id e = lq_org_id q) && bool_decide (ed_target e = tip)
                                            && bool_decide (ed_type e = "supersedes"%string))%bool) (lt_edges t)
                      then None else Some tip
                  end |}
    end
  else None.

(** ** The call *)

Definition validate_lineage_query (q : LineageQuery) : result ReadError unit :=
  if ((lq_max_depth q <? 1) || (MAX_LINEAGE_DEPTH <? lq_max_depth q))%bool then Raise ValueError else Ok tt.

(** [get_lineage]: what each statement sees, or its fault (a statement timeout
    among them). *)
Definition get_lineage (at_root at_edges : result ReadError LineageTables) (q : LineageQuery)
    : result ReadError (option LineageResult) :=
  let* _ := validate_lineage_query q in
  let* t := at_root in
  match root_sql t q with
  | None => Ok None
  | Some root =>
      let* t := at_edges in
      let rows := lineage_sql t q (MAX_LINEAGE_EDGES + 1) in
      Ok (Some {| lr_root := root; lr_edges := take (Z.to_nat MAX_LINEAGE_EDGES) rows;
                  lr_truncated := MAX_LINEAGE_EDGES <? Z.of_nat (length rows); lr_max_depth := lq_max_depth q |})
  end.

(** ** What a walk visits *)

Lemma least_nat (P : nat -> Prop) `{forall k, Decision (P k)} n : P n ->
  exists m, (m <= n)%nat /\ P m /\ forall k, P k -> (m <= k)%nat.
Proof.
  induction n as [n IH] using lt_wf_ind. intros Hn. destruct (decide (Exists P (seq 0 n))) as [Hex|Hno].
  - apply Exists_exists in Hex as (k & Hk%elem_of_seq & Hw). destruct (IH k ltac:(lia) Hw) as (m & Hm & Hd).
    exists m. split; [lia|done].
  - exists n. split_and!; [lia|done|]. intros k Hk. destruct (decide (n <= k)%nat); [done|].
    exfalso. apply Hno, Exists_exists. exists k. split; [apply elem_of_seq; lia|done].
Qed.

Section Walk.
Context (t : LineageTables) (q : LineageQuery).

(** An edge of the tenant that joins two nodes in scope. *)
Definition joins (e : EdgeRow) (u v : UUID) : Prop :=
  e ∈ lt_edges t /\ ed_org_id e = lq_org_id q /\ in_scope t q v = true /\
  ((ed_source e = u /\ ed_target e = v) \/ (ed_target e = u /\ ed_source e = v)).

(** A node at the end of [n] steps over nodes in scope, repeats allowed. *)
Inductive within : nat -> UUID -> Prop :=
| within_root : in_scope t q (lq_memory_id q) = true -> within 0 (lq_memory_id q)
| within_step n e u v : within n u -> joins e u v -> within (S n) v.

(** The nodes [n] steps away, as a list: being [within] is decidable. *)
#[local] Instance joins_dec e u v : Decision (joins e u v).
Proof. unfold joins. apply _. Defined.

Fixpoint nodes_at (n : nat) : list UUID :=
  match n with
  | O => if in_scope t q (lq_memory_id q) then [lq_memory_id q] else []
  | S n => mjoin ((fun u => mjoin ((fun e => filter (joins e u) [ed_target e; ed_source e]) <$> lt_edges t)) <$> nodes_at n)
  end.

Lemma nodes_at_spec n : forall u, u ∈ nodes_at n <-> within n u.
Proof.
  induction n as [|n IH]; intros v; cbn [nodes_at].
  - destruct (in_scope t q (lq_memory_id q)) eqn:E.
    + rewrite list_elem_of_singleton. split; [intros ->; by constructor|by inversion 1].
    + rewrite elem_of_nil. split; [done|]. inversion 1; congruence.
  - rewrite list_elem_of_join. split.
    + intros (l & Hl & (u & -> & Hu%IH)%list_elem_of_fmap).
      apply list_elem_of_join in Hl as (l' & Hl' & (e & -> & _)%list_elem_of_fmap).
      apply list_elem_of_filter in Hl' as [Hj _]. by econstructor.
    + inversion 1 as [|? e u ? Hu He]; subst. eexists. split; [|apply list_elem_of_fmap; exists u; split; [reflexivity|by apply IH]].
      apply list_elem_of_join. eexists. split; [|apply list_elem_of_fmap; exists e; split; [reflexivity|apply He]].
      apply list_elem_of_filter. split; [done|]. destruct He as (_ & _ & _ & [[_ <-]|[_ <-]]); [by left|by right; left].
Qed.

#[local] Instance within_dec n u : Decision (within n u).
Proof. refine (cast_if (decide (u ∈ nodes_at n))); by rewrite <- nodes_at_spec. Defined.

(** [n] is the distance of a node from the root. *)
Definition distance (n : nat) (u : UUID) : Prop := within n u /\ forall k, within k u -> (n <= k)%nat.

(** A step of the walk. *)
Definition walk_step (w w' : WalkRow) : Prop :=
  exists e v, joins e (wr_node w) v /\ (ed_source e <> ed_target e) /\ v ∉ wr_path w /\
    w' = {| wr_node := v; wr_path := v :: wr_path w; wr_edge := Some (e, wr_node w) |}.

(** Relationships have two ends; the table has the constraint. *)
Definition no_self_loops : Prop := forall e, e ∈ lt_edges t -> ed_source e <> ed_target e.

Lemma next_spec w w' : no_self_loops -> w' ∈ lineage_next t q w <-> walk_step w w'.
Proof.
  intros Hloop. unfold lineage_next. rewrite list_elem_of_join. split.
  - intros (l & Hl & (e & -> & He)%list_elem_of_fmap). unfold touches, step_to, far_end in Hl.
    destruct (_ && _ && _)%bool eqn:E; [|by apply elem_of_nil in Hl]. pose proof (Hloop e He). bools.
    case_bool_decide as Hp; [by apply elem_of_nil in Hl|]. apply list_elem_of_singleton in Hl as ->.
    case_bool_decide as Hs; [exists e, (ed_target e)|exists e, (ed_source e)]; (split; [|by split_and!]).
    + split_and!; [done|done|done|by left].
    + split_and!; [done|done|done|]. right. split; [|done].
      match goal with Ht : (false || _)%bool = true |- _ => by apply bool_decide_eq_true in Ht end.
  - intros (e & v & (He & Ho & Hsc & Hends) & Hne & Hv & ->).
    exists (step_to w e v). split; [unfold step_to; rewrite bool_decide_eq_false_2 by done; by left|].
    apply list_elem_of_fmap. exists e. split; [|done]. assert (far_end e (wr_node w) = v) as Hf.
    { unfold far_end. destruct Hends as [[Hu Hv']|[Hu Hv']]; case_bool_decide; congruence. }
    rewrite Hf, Ho, Hsc, bool_decide_eq_true_2 by done.
    assert (touches e (wr_node w) = true) as ->; [|done]. unfold touches.
    destruct Hends as [[Hu _]|[Hu _]]; rewrite (bool_decide_eq_true_2 _ Hu); [done|apply orb_true_r].
Qed.

(** Levels are the ends of chains of steps. *)
Lemma levels_spec n : no_self_loops -> forall level w', w' ∈ walk_levels (lineage_next t q) n level <->
  exists k w, (k <= n)%nat /\ w ∈ level /\ nsteps walk_step k w w'.
Proof.
  intros Hloop. induction n as [|n IH]; intros level w'; cbn [walk_levels]; rewrite elem_of_app.
  - rewrite elem_of_nil. split; [intros [Hw|[]]; exists 0%nat, w'; split_and!; [lia|done|constructor]|].
    intros (k & w & Hk & Hw & Hs). assert (k = 0)%nat as -> by lia. inversion Hs; subst. by left.
  - rewrite IH. split.
    + intros [Hw|(k & w & Hk & Hw & Hs)]; [exists 0%nat, w'; split_and!; [lia|done|constructor]|].
      apply list_elem_of_join in Hw as (l & Hl & (w0 & -> & Hw0)%list_elem_of_fmap). apply next_spec in Hl; [|done].
      exists (S k), w0. split_and!; [lia|done|by econstructor].
    + intros (k & w & Hk & Hw & Hs). inversion Hs as [|k' ? w1 ? Hs1 Hs2]; subst; [by left|right].
      exists k', w1. split_and!; [lia| |done]. apply list_elem_of_join. exists (lineage_next t q w).
      split; [by apply next_spec|]. apply list_elem_of_fmap. by exists w.
Qed.

(** A chain of steps from the root: its node is within that many steps, and its
    path as long. *)
Lemma chain_within n w : in_scope t q (lq_memory_id q) = true ->
  nsteps walk_step n (start_row (lq_memory_id q)) w -> within n (wr_node w) /\ length (wr_path w) = S n.
Proof.
  intros Hroot. revert w. induction n as [|n IH]; intros w Hs; [inversion Hs; subst; by split; [constructor|]|].
  apply nsteps_inv_r in Hs as (w0 & Hs & (e & v & He & _ & _ & ->)). destruct (IH w0 Hs) as [Hw Hl]. cbn.
  split; [by econstructor|by rewrite Hl].
Qed.

(** The nodes of a path before the last are nearer. *)
Lemma path_last n w : nsteps walk_step n (start_row (lq_memory_id q)) w ->
  in_scope t q (lq_memory_id q) = true ->
  exists rest, wr_path w = wr_node w :: rest /\ forall v, v ∈ rest -> exists i, (i < n)%nat /\ within i v.
Proof.
  intros Hs Hroot. revert w Hs. induction n as [|n IH]; intros w Hs.
  - inversion Hs; subst. exists []. split; [done|]. by intros v []%elem_of_nil.
  - apply nsteps_inv_r in Hs as (w0 & Hs & (e & v & He & _ & _ & ->)). cbn. exists (wr_path w0). split; [done|].
    destruct (IH w0 Hs) as (rest & -> & Hrest). intros x [->|(i & Hi & Hx)%Hrest]%elem_of_cons.
    + exists n. split; [lia|]. by eapply chain_within.
    + exists i. split; [lia|done].
Qed.

Lemma distance_step n u e v : distance (S n) v -> within n u -> joins e u v -> distance n u.
Proof.
  intros [_ Hmin] Hu He. split; [done|]. intros k Hk. pose proof (Hmin (S k) (within_step _ _ _ _ Hk He)). lia.
Qed.

(** The nearest way to a node is a chain of the walk whose path holds each node at
    its own distance. *)
Lemma nearest_chain n : no_self_loops -> forall u, distance n u ->
  exists w, nsteps walk_step n (start_row (lq_memory_id q)) w /\ wr_node w = u /\
    forall v, v ∈ wr_path w -> exists k, (k <= n)%nat /\ distance k v.
Proof.
  intros Hloop. induction n as [|n IH]; intros v Hd; pose proof Hd as [Hw Hmin].
  - inversion Hw; subst. exists (start_row (lq_memory_id q)). split_and!; [constructor|done|].
    intros v ->%list_elem_of_singleton. by exists 0%nat.
  - inversion Hw as [|? e u ? Hu He]; subst. destruct (IH u) as (w & Hs & <- & Hpath); [by eapply distance_step|].
    exists {| wr_node := v; wr_path := v :: wr_path w; wr_edge := Some (e, wr_node w) |}. split_and!; [|done|].
    + eapply nsteps_r; [exact Hs|]. exists e, v. split_and!; [done|apply Hloop, He| |done].
      intros (k & Hk & [Hk' _])%Hpath. specialize (Hmin k Hk'). lia.
    + intros x [->|(k & Hk & Hx)%Hpath]%elem_of_cons; [by exists (S n)|]. exists k. split; [lia|done].
Qed.

Lemma within_distance n u : within n u -> exists m, (m <= n)%nat /\ distance m u.
Proof. intros (m & Hm & Hw & Hmin)%(least_nat (fun k => within k u)). by exists m. Qed.

(** ** Which edges a walk finds *)

Definition end_within (k : nat) (e : EdgeRow) : Prop := within k (ed_source e) \/ within k (ed_target e).

Lemma least_end k e : end_within k e ->
  exists m, (m <= k)%nat /\ end_within m e /\ forall j, end_within j e -> (m <= j)%nat.
Proof.
  assert (forall j, Decision (end_within j e)) by (intros; unfold end_within; apply _).
  apply (least_nat (fun j => end_within j e)).
Qed.

(** The rows of the walk that came by an edge. *)
Lemma hits_spec e d f : no_self_loops -> (e, (d, f)) ∈ edge_hits (lineage_walk t q) <->
  in_scope t q (lq_memory_id q) = true /\ exists n w v, (S n <= Z.to_nat (lq_max_depth q))%nat /\ d = Z.of_nat (S n) /\
    nsteps walk_step n (start_row (lq_memory_id q)) w /\ wr_node w = f /\ joins e f v /\ v ∉ wr_path w.
Proof.
  intros Hloop. unfold edge_hits, lineage_walk. rewrite list_elem_of_omap.
  destruct (in_scope t q (lq_memory_id q)) eqn:Hroot;
    [|split; [intros (? & []%elem_of_nil & _)|intros [[=] _]]]. split.
  - intros (w' & (k & w0 & Hk & ->%list_elem_of_singleton & Hs)%levels_spec & Hh); [|done]. split; [done|].
    destruct k as [|n]; [inversion Hs; subst; done|]. pose proof (chain_within _ _ Hroot Hs) as [_ Hlen].
    apply nsteps_inv_r in Hs as (w & Hs & (e' & v & He & _ & Hv & ->)). cbn in Hh. injection Hh as <- <- <-.
    exists n, w, v. split_and!; [done| |done|done|done|done]. unfold wr_depth. cbn in Hlen |- *. lia.
  - intros [_ (n & w & v & Hn & -> & Hs & <- & He & Hv)].
    exists {| wr_node := v; wr_path := v :: wr_path w; wr_edge := Some (e, wr_node w) |}. split.
    + apply levels_spec; [done|]. exists (S n), (start_row (lq_memory_id q)). split_and!; [done|by left|].
      eapply nsteps_r; [exact Hs|]. exists e, v. split_and!; [done|apply Hloop, He|done|done].
    + cbn. do 3 f_equal. unfold wr_depth. cbn. pose proof (chain_within _ _ Hroot Hs) as [_ ->]. lia.
Qed.

Lemma hit_within e d f : no_self_loops -> (e, (d, f)) ∈ edge_hits (lineage_walk t q) ->
  exists n, d = Z.of_nat (S n) /\ Z.of_nat (S n) <= lq_max_depth q /\ end_within n e /\ e ∈ lt_edges t /\
    ed_org_id e = lq_org_id q /\ (f = ed_source e \/ f = ed_target e).
Proof.
  intros Hloop (Hroot & n & w & v & Hn & -> & Hs & <- & (He & Ho & _ & Hends) & _)%hits_spec; [|done].
  pose proof (chain_within _ _ Hroot Hs) as [Hw _]. exists n. split_and!; [done|lia| |done|done|].
  - destruct Hends as [[E _]|[E _]]; [left|right]; by rewrite E.
  - destruct Hends as [[E _]|[E _]]; [by left|by right].
Qed.

Lemma within_scope n u : within n u -> in_scope t q u = true.
Proof. induction 1 as [|n e u v _ _ He]; [done|apply He]. Qed.

Lemma hit_scope e d f : no_self_loops -> (e, (d, f)) ∈ edge_hits (lineage_walk t q) ->
  in_scope t q (ed_source e) = true /\ in_scope t q (ed_target e) = true.
Proof.
  intros Hloop (Hroot & n & w & v & _ & _ & Hs & <- & (_ & _ & Hv & Hends) & _)%hits_spec; [|done].
  pose proof (chain_within _ _ Hroot Hs) as [Hw%within_scope _].
  destruct Hends as [[-> ->]|[-> ->]]; done.
Qed.

(** The nearest end of an edge finds it. *)
Lemma nearest_hit e k : no_self_loops -> e ∈ lt_edges t -> ed_org_id e = lq_org_id q ->
  in_scope t q (ed_source e) = true -> in_scope t q (ed_target e) = true ->
  end_within k e -> (forall j, end_within j e -> (k <= j)%nat) -> Z.of_nat (S k) <= lq_max_depth q ->
  exists f, (e, (Z.of_nat (S k), f)) ∈ edge_hits (lineage_walk t q).
Proof.
  intros Hloop He Ho Hsrc Htgt Hk Hmin Hd.
  assert (exists u v, within k u /\ joins e u v /\ forall j, within j v -> (k <= j)%nat) as (u & v & Hu & Hj & Hv).
  { destruct Hk as [Hk|Hk]; [exists (ed_source e), (ed_target e)|exists (ed_target e), (ed_source e)];
      (split; [done|split; [|intros j Hj; apply Hmin; by (left + right)]]); split_and!; try done; by (left + right). }
  assert (distance k u) as Hdu.
  { split; [done|]. intros j Hj'. apply Hmin. destruct Hj as (_ & _ & _ & [[E _]|[E _]]); [left|right]; by rewrite E. }
  destruct (nearest_chain k Hloop u Hdu) as (w & Hs & <- & Hpath). exists (wr_node w). apply hits_spec; [done|].
  assert (in_scope t q (lq_memory_id q) = true) as Hroot by (clear -Hu; induction Hu; done).
  split; [done|]. exists k, w, v. split_and!; try done; [lia|].
  intros Hin. destruct (Hpath v Hin) as (j & Hj' & [Hwj _]). pose proof (Hv j Hwj). assert (j = k) as -> by lia.
  (* a node at distance [k] on the path is the last one *)
  destruct (path_last k w Hs Hroot) as (rest & Hp & Hrest). rewrite Hp in Hin. apply elem_of_cons in Hin as [->|Hin].
  - destruct Hj as (_ & _ & _ & Hends). apply (Hloop e He). destruct Hends as [[-> ->]|[-> ->]]; done.
  - destruct (Hrest v Hin) as (i & Hi & Hwi). pose proof (Hv i Hwi). lia.
Qed.
End Walk.

(** ** One row per edge, the shallowest *)

Definition shallower (h h' : EdgeHit) : Prop := h.2.1 <= h'.2.1.

Lemma levels_depth t q n : forall c level, (forall w, w ∈ level -> length (wr_path w) = c) ->
  StronglySorted (fun w w' => (length (wr_path w) <= length (wr_path w'))%nat) (walk_levels (lineage_next t q) n level) /\
  forall w, w ∈ walk_levels (lineage_next t q) n level -> (c <= length (wr_path w))%nat.
Proof.
  assert (forall c level, (forall w, w ∈ level -> length (wr_path w) = c) ->
    StronglySorted (fun w w' => (length (wr_path w) <= length (wr_path w'))%nat) level) as Hlevel.
  { intros c level Hl. induction level as [|w level IH]; constructor.
    - apply IH. intros. apply Hl. by right.
    - apply Forall_forall. intros w' Hw'. rewrite (Hl w), (Hl w'); [lia|by right|by left]. }
  induction n as [|n IH]; intros c level Hl; cbn [walk_levels].
  { rewrite app_nil_r. split; [by eapply Hlevel|]. intros w Hw. by rewrite (Hl w Hw). }
  assert (forall w', w' ∈ mjoin (lineage_next t q <$> level) -> length (wr_path w') = S c) as Hnext.
  { intros w' (l & Hin & (w & -> & Hw)%list_elem_of_fmap)%list_elem_of_join. unfold lineage_next in Hin.
    apply list_elem_of_join in Hin as (l' & Hin & (e & -> & _)%list_elem_of_fmap).
    destruct (_ && _)%bool; [|by apply elem_of_nil in Hin]. unfold step_to in Hin.
    case_bool_decide; [by apply elem_of_nil in Hin|]. apply list_elem_of_singleton in Hin as ->. cbn. by rewrite (Hl w Hw). }
  destruct (IH (S c) _ Hnext) as [Hs Hge]. split.
  - apply StronglySorted_app_2; [|by eapply Hlevel|done]. intros w w' Hw Hw'. rewrite (Hl w Hw). specialize (Hge w' Hw'). lia.
  - intros w [Hw|Hw]%elem_of_app; [by rewrite (Hl w Hw)|]. specialize (Hge w Hw). lia.
Qed.

Lemma hits_sorted t q : StronglySorted shallower (edge_hits (lineage_walk t q)).
Proof.
  unfold lineage_walk. destruct (in_scope t q _); [|constructor].
  destruct (levels_depth t q (Z.to_nat (lq_max_depth q)) 1 [start_row (lq_memory_id q)]) as [Hs _];
    [by intros w ->%list_elem_of_singleton|].
  induction Hs as [|w l Hs IH Hw]; cbn; [constructor|]. destruct (wr_edge w) as [[e f]|]; cbn; [|done].
  constructor; [done|]. apply Forall_forall. intros h (w' & Hw' & Hh)%list_elem_of_omap.
  destruct (wr_edge w') as [[e' f']|]; [|done]. injection Hh as <-. unfold shallower, wr_depth. cbn.
  rewrite Forall_forall in Hw. specialize (Hw w' Hw'). lia.
Qed.

Lemma distinct_elem hits : forall seen h, h ∈ distinct_edges seen hits -> h ∈ hits /\ ed_id h.1 ∉ seen.
Proof.
  induction hits as [|x hits IH]; intros seen h; cbn; [by intros ?%elem_of_nil|]. case_bool_decide.
  - intros [? ?]%IH. split; [by right|done].
  - intros [->|[Hin Hn]%IH]%elem_of_cons; [split; [by left|done]|]. split; [by right|set_solver].
Qed.

Lemma distinct_covers hits : forall seen h, h ∈ hits -> ed_id h.1 ∉ seen ->
  exists h', h' ∈ distinct_edges seen hits /\ ed_id h'.1 = ed_id h.1.
Proof.
  induction hits as [|x hits IH]; intros seen h Hin Hn; [by apply elem_of_nil in Hin|]. cbn.
  destruct (decide (ed_id x.1 = ed_id h.1)) as [E|E].
  - rewrite bool_decide_eq_false_2 by congruence. exists x. split; [by left|done].
  - apply elem_of_cons in Hin as [->|Hin]; [done|]. case_bool_decide; [by apply IH|].
    destruct (IH (ed_id x.1 :: seen) h Hin) as (h' & Hh' & Eh); [set_solver|]. exists h'. split; [by right|done].
Qed.

Lemma distinct_shallowest hits : StronglySorted shallower hits -> forall seen h h',
  h ∈ distinct_edges seen hits -> h' ∈ hits -> ed_id h'.1 = ed_id h.1 -> shallower h h'.
Proof.
  induction 1 as [|x hits Hs IH Hx]; intros seen h h' Hh Hh' E; [by apply elem_of_nil in Hh'|]. cbn in Hh.
  rewrite Forall_forall in Hx. case_bool_decide as Hb.
  - apply elem_of_cons in Hh' as [->|Hh']; [|by eapply IH]. apply distinct_elem in Hh as [_ Hn]. congruence.
  - apply elem_of_cons in Hh as [->|Hh].
    + apply elem_of_cons in Hh' as [->|Hh']; [unfold shallower; lia|by apply Hx].
    + apply elem_of_cons in Hh' as [->|Hh']; [|by eapply IH]. apply distinct_elem in Hh as [_ Hn]. set_solver.
Qed.

(** The projection keeps every hit: its far end is in scope. *)
Lemma lineage_row_Some t q h : no_self_loops t -> h ∈ edge_hits (lineage_walk t q) ->
  exists le, lineage_row t q h = Some le /\ le_depth le = h.2.1.
Proof.
  destruct h as [e [d f]]. intros Hloop Hh. pose proof Hh as (Hroot & n & w & v & _ & _ & _ & _ & (He & _ & Hsc & Hends) & _)%hits_spec; [|done].
  unfold lineage_row. cbn [fst snd].
  assert ((if bool_decide (f = ed_source e) then ed_target e else ed_source e) = v) as ->.
  { destruct Hends as [[<- <-]|[<- <-]]; [by rewrite bool_decide_eq_true_2|].
    rewrite bool_decide_eq_false_2; [done|]. intros E. by apply (Hloop e He). }
  cbn zeta. rewrite Hsc. unfold in_scope in Hsc. destruct (lt_memories t !! v); [|done]. by eexists.
Qed.

(** ** Properties *)

Lemma get_lineage_Some at_root at_edges q res : get_lineage at_root at_edges q = Ok (Some res) ->
  exists t, at_edges = Ok t /\ 1 <= lq_max_depth q <= 5 /\
    lr_edges res = take 100 (lineage_sql t q 101) /\ lr_truncated res = (100 <? Z.of_nat (length (lineage_sql t q 101))).
Proof.
  unfold get_lineage, validate_lineage_query, MAX_LINEAGE_DEPTH.
  destruct (Z.ltb_spec (lq_max_depth q) 1); [done|]. destruct (Z.ltb_spec 5 (lq_max_depth q)); [done|]. cbn [orb rbind].
  intros (t0 & _ & Hp)%rbind_Ok. destruct (root_sql t0 q); [|done]. apply rbind_Ok in Hp as (t & -> & [= <-]).
  exists t. by split_and!.
Qed.

(** A row of the answer shows an edge. *)
Definition shows (e : EdgeRow) (le : LineageEdge) : Prop :=
  le_source le = ed_source e /\ le_target le = ed_target e /\ le_type le = ed_type e.

(** The primary key and the unique constraint of the table. *)
Definition edges_unique (t : LineageTables) : Prop :=
  forall e e', e ∈ lt_edges t -> e' ∈ lt_edges t ->
    ed_id e = ed_id e' \/ (ed_source e = ed_source e' /\ ed_target e = ed_target e' /\ ed_type e = ed_type e') -> e = e'.

Lemma lineage_row_shows t q h le : lineage_row t q h = Some le -> shows h.1 le /\ le_depth le = h.2.1 /\ le_from le = h.2.2 /\
  in_scope t q (end_memory_id (le_other le)) = true.
Proof.
  unfold lineage_row. cbn zeta. destruct (lt_memories t !! _); [|done]. destruct (in_scope t q _) eqn:E; [|done].
  by intros [= <-].
Qed.

(** The rows of an answer that is not cut. *)
Lemma lineage_rows t q le : Z.of_nat (length (lineage_sql t q 101)) <= 100 ->
  le ∈ take 100 (lineage_sql t q 101) <->
  exists h, h ∈ distinct_edges [] (edge_hits (lineage_walk t q)) /\ lineage_row t q h = Some le.
Proof.
  intros Hlen. rewrite take_ge by lia. unfold lineage_sql in *. rewrite length_take in Hlen.
  rewrite take_ge by (change (Z.to_nat 101) with 101%nat in *; lia).
  rewrite list_elem_of_omap. by setoid_rewrite py_sorted_elem.
Qed.

(** The lineage walk is a breadth-first search: when the answer is not truncated, an
    edge of the tenant between two memories in the caller's scope is listed exactly
    if one of its ends can be reached from the root in fewer than [max_depth] steps
    over memories in scope, in either direction and with cycles anywhere, and it is
    listed with the length of the shortest such way plus one. *)
Theorem lineage_lists_nearest_edges at_root at_edges q t res :
  get_lineage at_root at_edges q = Ok (Some res) -> at_edges = Ok t -> lr_truncated res = false ->
  no_self_loops t -> edges_unique t ->
  forall e, e ∈ lt_edges t -> ed_org_id e = lq_org_id q -> in_scope t q (ed_source e) = true -> in_scope t q (ed_target e) = true ->
  ((exists le, le ∈ lr_edges res /\ shows e le) <-> exists k, Z.of_nat k < lq_max_depth q /\ end_within t q k e) /\
  (forall le, le ∈ lr_edges res -> shows e le ->
     exists k, le_depth le = Z.of_nat k + 1 /\ end_within t q k e /\ forall j, end_within t q j e -> (k <= j)%nat).
Proof.
  intros (t' & Ht & Hd & Hrows & Htr)%get_lineage_Some -> Hnt Hloop Huniq e He Ho Hsrc Htgt. injection Ht as <-.
  rewrite Hnt in Htr. symmetry in Htr. apply Z.ltb_ge in Htr. rewrite Hrows.
  set (hits := edge_hits (lineage_walk t q)). pose proof (hits_sorted t q) as Hsorted.
  assert (forall h, h ∈ hits -> exists n, h.2.1 = Z.of_nat (S n) /\ Z.of_nat (S n) <= lq_max_depth q /\ end_within t q n h.1 /\ h.1 ∈ lt_edges t) as Hhit.
  { intros [e' [d f]] (n & ? & ? & ? & ? & _)%hit_within; [|done]. by exists n. }
  assert (forall le, le ∈ take 100 (lineage_sql t q 101) -> shows e le ->
    exists h, h ∈ distinct_edges [] hits /\ h.1 = e /\ le_depth le = h.2.1) as Hof.
  { intros le (h & Hin & (Hs & Hdep & _)%lineage_row_shows)%lineage_rows Hse; [|done]. exists h. split_and!; [done| |done].
    destruct (distinct_elem _ _ _ Hin) as [Hh _]. destruct (Hhit h Hh) as (_ & _ & _ & _ & Hedge).
    apply Huniq; [done|done|right]. destruct Hs as (Hs1 & Hs2 & Hs3), Hse as (He1 & He2 & He3). by split_and!; congruence. }
  assert (forall k, Z.of_nat k < lq_max_depth q -> end_within t q k e ->
    exists h, h ∈ distinct_edges [] hits /\ h.1 = e /\ h.2.1 <= Z.of_nat k + 1) as Hnear.
  { intros k Hk Hw. destruct (least_end t q k e Hw) as (m & Hm & Hwm & Hleast).
    destruct (nearest_hit t q e m Hloop He Ho Hsrc Htgt Hwm Hleast ltac:(lia)) as [f Hf].
    destruct (distinct_covers hits [] _ Hf ltac:(by intros ?%elem_of_nil)) as (h & Hh & Eid). exists h.
    destruct (distinct_elem _ _ _ Hh) as [Hin _]. destruct (Hhit h Hin) as (_ & _ & _ & _ & Hedge).
    split_and!; [done|apply Huniq; [done|done|by left]|].
    pose proof (distinct_shallowest hits Hsorted [] h _ Hh Hf (eq_sym Eid)) as Hsh. unfold shallower in Hsh. cbn in Hsh. lia. }
  split; [split|].
  - intros (le & Hle & Hs). destruct (Hof le Hle Hs) as (h & Hin & <- & _).
    destruct (distinct_elem _ _ _ Hin) as [Hh _]. destruct (Hhit h Hh) as (n & _ & Hn & Hw & _). exists n. split; [lia|done].
  - intros (k & Hk & Hw). destruct (Hnear k Hk Hw) as (h & Hh & <- & _). destruct (distinct_elem _ _ _ Hh) as [Hin _].
    destruct (lineage_row_Some t q h Hloop Hin) as (le & Hr & _). exists le. split; [apply lineage_rows; eauto|].
    by apply lineage_row_shows in Hr as [? _].
  - intros le Hle Hs. destruct (Hof le Hle Hs) as (h & Hin & <- & ->). destruct (distinct_elem _ _ _ Hin) as [Hh _].
    destruct (Hhit h Hh) as (n & Hdn & Hn & Hw & _). exists n. split_and!; [lia|done|]. intros j Hj.
    destruct (decide (n <= j)%nat); [done|]. destruct (Hnear j ltac:(lia) Hj) as (h' & Hh' & E & Hdep).
    pose proof (distinct_shallowest hits Hsorted [] h h' Hin (proj1 (distinct_elem _ _ _ Hh')) ltac:(congruence)) as Hsh.
    unfold shallower in Hsh. lia.
Qed.

(** A lineage never leaves the caller's scope: whatever edges the tables hold, every
    memory named by an answer (root, chain head, both ends of every edge, the node
    it was reached from) exists in the caller's organization and, for an
    agent-scoped caller, belongs to that agent; a root outside the scope is simply
    not found. *)
Theorem lineage_stays_in_scope at_root at_edges q t0 t res :
  get_lineage at_root at_edges q = Ok (Some res) -> at_root = Ok t0 -> at_edges = Ok t -> no_self_loops t ->
  in_scope t0 q (lq_memory_id q) = true /\ root_memory_id (lr_root res) = lq_memory_id q /\
  (forall tip, root_tip (lr_root res) = Some tip -> in_scope t0 q tip = true) /\
  Z.of_nat (length (lr_edges res)) <= 100 /\
  forall le, le ∈ lr_edges res -> in_scope t q (le_source le) = true /\ in_scope t q (le_target le) = true /\
    (le_from le = le_source le \/ le_from le = le_target le) /\ 1 <= le_depth le <= lq_max_depth q.
Proof.
  intros Hg -> -> Hloop. pose proof Hg as (t' & [= <-] & Hd & Hrows & _)%get_lineage_Some.
  unfold get_lineage in Hg. apply rbind_Ok in Hg as (_ & _ & Hg). cbn [rbind] in Hg.
  destruct (root_sql t0 q) as [root|] eqn:Er; [|done]. injection Hg as Hg. rewrite <- Hg. cbn [lr_root].
  unfold root_sql in Er. destruct (in_scope t0 q (lq_memory_id q)) eqn:Es; [|done].
  destruct (lt_memories t0 !! lq_memory_id q); [|done]. injection Er as <-. cbn [root_memory_id root_tip]. split_and!; [done|done| | |].
  - destruct (resolve_supersession_tip _ _ _ _) as [tip'|]; [|by intros tip [= <-]].
    destruct (in_scope t0 q tip') eqn:Et; [|by intros tip [= <-]]. by destruct (existsb _ _); [|intros tip [= <-]].
  - rewrite Hg, Hrows, length_take. lia.
  - rewrite Hg, Hrows. intros le Hle%(sublist_subseteq _ _ (sublist_take _ _)). unfold lineage_sql in Hle.
    apply (sublist_subseteq _ _ (sublist_take _ _)), list_elem_of_omap in Hle as (h & Hh & Hr).
    apply py_sorted_elem, distinct_elem in Hh as [Hh _]. destruct h as [e [d f]].
    apply lineage_row_shows in Hr as ((-> & -> & _) & -> & -> & _). cbn [fst snd].
    pose proof (hit_within t q e d f Hloop Hh) as (n & -> & Hn & _ & _ & _ & Hf). destruct (hit_scope t q e _ f Hloop Hh).
    split_and!; [done|done|done|lia|lia].
Qed.

(** ** A sample graph: a triangle with a tail, and a successor of another agent *)

Module LineageSample.
Definition memory (agent : UUID) : Memory :=
  {| life := {| org_id := "org"; agent_id := agent; content := []; content_hash := ""; content_tokens := 0;
                category := "factual"; status := "active"; deleted_at := None; valid_from := 0; valid_until := None;
                confidence := 90; source := "api"; superseded_by := None; merged_into := None; metadata := "{}";
                expires_at := None; pii_detected := false; pii_redacted := false; tombstoned := false |}%string;
     session_id := None; embedding := None; retrieval_count := 0; last_retrieved_at := None;
     usefulness_score := 50; updated_at := 0; lifecycle_revision := 1 |}.

Definition edge (id source target type : string) : EdgeRow :=
  {| ed_id := id; ed_org_id := "org"; ed_source := source; ed_target := target; ed_type := type; ed_confidence := 90 |}.

Definition graph : LineageTables :=
  {| lt_memories := {[ "a" := memory "x"; "b" := memory "x"; "c" := memory "x"; "d" := memory "x"; "z" := memory "y" ]}%string;
     lt_edges := [edge "e1" "a" "b" "derived_from"; edge "e2" "b" "c" "derived_from"; edge "e3" "c" "a" "derived_from";
                  edge "e4" "c" "d" "specializes"; edge "e5" "z" "d" "supersedes"]%string |}.

Definition query (id : UUID) (agent : option UUID) : LineageQuery :=
  {| lq_org_id := "org"; lq_memory_id := id; lq_agent_id := agent; lq_max_depth := 2 |}%string.

Definition answer (r : result ReadError (option LineageResult)) : list (string * string * Z) :=
  match r with
  | Ok (Some res) => (fun le => (le_source le, le_target le, le_depth le)) <$> lr_edges res
  | _ => []
  end.

Lemma graph_ok : no_self_loops graph /\ edges_unique graph.
Proof.
  split.
  - intros e. cbn. rewrite !elem_of_cons, elem_of_nil. intros He. by destruct_or!; subst.
  - intros e e'. cbn. rewrite !elem_of_cons, !elem_of_nil. intros He He' Hd.
    destruct He as [->|[->|[->|[->|[->|[]]]]]], He' as [->|[->|[->|[->|[->|[]]]]]]; try done; cbn in Hd; exfalso;
      destruct Hd as [Hd|(Hd & Hd' & Hd'')]; congruence.
Qed.

Lemma lineage_samples :
  answer (get_lineage (Ok graph) (Ok graph) (query "a" None)) =
    [("a", "b", 1); ("c", "a", 1); ("b", "c", 2); ("c", "d", 2)]%string /\
  get_lineage (Ok graph) (Ok graph) (query "z" (Some "x"%string)) = Ok None /\
  answer (get_lineage (Ok graph) (Ok graph) (query "d" (Some "x"%string))) =
    [("c", "d", 1); ("b", "c", 2); ("c", "a", 2)]%string.
Proof. vm_compute. split_and!; reflexivity. Qed.

(** An agent-scoped caller is told that a memory superseded by another agent's is
    current; an organization-wide caller gets the successor. *)
Lemma foreign_successor_hidden :
  (root_tip <$> root_sql graph (query "d" (Some "x"%string))) = Some (Some "d"%string) /\
  (root_tip <$> root_sql graph (query "d" None)) = Some (Some "z"%string).
Proof. vm_compute. split; reflexivity. Qed.

Definition result_of (r : result ReadError (option LineageResult)) : LineageResult :=
  match r with
  | Ok (Some res) => res
  | _ => {| lr_root := {| root_memory_id := ""; root_status := ""; root_tombstoned := false; root_tip := None |};
            lr_edges := []; lr_truncated := true; lr_max_depth := 0 |}
  end.

(** The edge from [b] to [c] is one step away from [a]. *)
Lemma lineage_lists_nearest_edges_witness :
  let res := result_of (get_lineage (Ok graph) (Ok graph) (query "a" None)) in
  exists le, le ∈ lr_edges res /\ shows (edge "e2" "b" "c" "derived_from") le.
Proof.
  intros res. assert (get_lineage (Ok graph) (Ok graph) (query "a" None) = Ok (Some res)) as Hres by (vm_compute; reflexivity).
  destruct graph_ok as [Hloop Huniq].
  refine (proj2 (proj1 (lineage_lists_nearest_edges (Ok graph) (Ok graph) (query "a" None) graph res Hres eq_refl _
    Hloop Huniq (edge "e2" "b" "c" "derived_from") _ eq_refl _ _)) _); [vm_compute; reflexivity|by right; left|vm_compute; reflexivity..|].
  exists 1%nat. split; [reflexivity|]. left.
  refine (within_step graph (query "a" None) 0 (edge "e1" "a" "b" "derived_from") "a" "b" _ _);
    [apply within_root; vm_compute; reflexivity|].
  split_and!; [by left|reflexivity|vm_compute; reflexivity|by left].
Defined.

Lemma lineage_stays_in_scope_witness :
  let res := result_of (get_lineage (Ok graph) (Ok graph) (query "d" (Some "x"%string))) in
  length (lr_edges res) = 3%nat /\
  forall tip, root_tip (lr_root res) = Some tip -> in_scope graph (query "d" (Some "x"%string)) tip = true.
Proof.
  intros res. split; [vm_compute; reflexivity|].
  assert (get_lineage (Ok graph) (Ok graph) (query "d" (Some "x"%string)) = Ok (Some res)) as Hres by (vm_compute; reflexivity).
  exact (proj1 (proj2 (proj2 (lineage_stays_in_scope (Ok graph) (Ok graph) (query "d" (Some "x"%string)) graph graph res
    Hres eq_refl eq_refl (proj1 graph_ok))))).
Defined.
End LineageSample.
