(* ===== verification/Capture.v ===== *)
(** * Capture redaction and archiving ([services/worker/app/tasks/capture_redaction.py])

    The task that applies an organization's capture policy to a session event:
    one database transaction, uploads to the object store in its middle, and
    deletions that compensate for uploads when the transaction does not commit.
    Blobs are kept by key; sealing, signing and JSON text are not modelled.  The
    faults of a run (statements, uploads, deletions, the commit) are its [Env]. *)

From S2P Require Import Prelude MemoryStore.

Section Capture.
(** The values of a payload. *)
Context {V : Type}.

Abbreviation Payload := (list (string * V)).

(** The constraint of the column [mode]. *)
Inductive Mode := none | metadata_only | redacted | full.

#[global] Instance Mode_eq_dec : EqDecision Mode.
Proof. solve_decision. Defined.

Record Policy := { po_org_id : UUID; po_agent_id : option UUID; po_mode : Mode; po_priority : Z }.

Record SessionEvent := { ev_org_id : UUID; ev_data : Payload; ev_archived_to : option string }.

(** An archived object: the body [_put_archive_blob] writes. *)
Record Blob := { bl_org_id : UUID; bl_event_id : option string; bl_payload : Payload }.

Record World := {
  policies : list Policy;
  events : gmap string SessionEvent;
  blobs : gmap string Blob;
}.

Record CaptureJob := {
  cj_org_id : UUID;
  cj_event_id : option string;
  cj_agent_id : option UUID;
  cj_payload : option Payload;
}.

Inductive TaskError := DatabaseError | UploadError | NoRowsMatched.

(** How an upload goes: stored, refused because the store is not configured,
    refused, or stored with the answer lost. *)
Inductive PutOutcome := PutStored | PutUnconfigured | PutRefused | PutLost.

(** How the commit goes: it happens, it does not, or it happens and its answer is
    lost, which the task sees as an exception like the second. *)
Inductive CommitOutcome := CommitDone | CommitFailed | CommitAnswerLost.

(** The faults of one run; [fresh_id] is the [uuid4] of a job without an event. *)
Record Env := {
  policy_read : bool;
  data_update : bool;
  put_outcome : PutOutcome;
  archive_update : bool;
  commit : CommitOutcome;
  delete_works : bool;
  fresh_id : string;
}.

(** [_run] up to the commit: the events of the transaction, the blobs, what was
    uploaded. *)
Record Run := { r_events : gmap string SessionEvent; r_blobs : gmap string Blob; r_uploaded : list string }.

(** ** The policy *)

Definition DEFAULT_MODE : Mode := metadata_only.

Definition agent_rank (p : Policy) : Z := match po_agent_id p with Some _ => 0 | None => 1 end.

Definition policy_ltb : Policy -> Policy -> bool :=
  key_ltb (fun p => (agent_rank p, po_priority p)) (pair_ltb Z.eqb Z.ltb Z.ltb).

Definition policy_applies (org : UUID) (agent : option UUID) (p : Policy) : bool :=
  (bool_decide (po_org_id p = org)
   && match po_agent_id p with
      | None => true
      | Some a => bool_decide (agent = Some a)
      end)%bool.

Definition resolve_capture_mode (w : World) (org : UUID) (agent : option UUID) : Mode :=
  match py_sorted policy_ltb (List.filter (policy_applies org agent) (policies w)) with
  | [] => DEFAULT_MODE
  | p :: _ => po_mode p
  end.

(** ** Uploads *)

(** The event a job names: an empty id is no id. *)
Definition event_of (job : CaptureJob) : option string :=
  match cj_event_id job with
  | Some id => if String.eqb id "" then None else Some id
  | None => None
  end.

Definition STRIP_KEYS : list string := ["raw"; "content"; "prompt"]%string.

Definition archive_key (env : Env) (job : CaptureJob) (kind : string) : string :=
  cj_org_id job +:+ "/capture/" +:+ kind +:+ "/" +:+ default (fresh_id env) (event_of job) +:+ ".json".

(** [_put_archive_blob]; the uri is the key. *)
Definition put_archive_blob (env : Env) (job : CaptureJob) (payload : Payload) (kind : string) (r : Run)
    : PutOutcome * string * Run :=
  let key := archive_key env job kind in
  let stored := {| r_events := r_events r;
                   r_blobs := <[key := {| bl_org_id := cj_org_id job; bl_event_id := cj_event_id job;
                                          bl_payload := payload |}]> (r_blobs r);
                   r_uploaded := r_uploaded r |} in
  match put_outcome env with
  | PutStored => (PutStored, key, stored)
  | PutLost => (PutLost, key, stored)
  | o => (o, key, r)
  end.

(** [_compensate_upload]: a failing deletion is swallowed. *)
Definition compensate_upload (env : Env) (uri : string) (r : Run) : Run :=
  if delete_works env
  then {| r_events := r_events r; r_blobs := delete uri (r_blobs r); r_uploaded := r_uploaded r |} else r.

Definition with_uploaded (l : list string) (r : Run) : Run :=
  {| r_events := r_events r; r_blobs := r_blobs r; r_uploaded := l |}.

(** [list.remove] *)
Fixpoint remove_first (x : string) (l : list string) : list string :=
  match l with [] => [] | y :: l => if String.eqb y x then l else y :: remove_first x l end.

(** ** Statements on [session_events] *)

Definition of_org (org : UUID) (e : SessionEvent) : bool := bool_decide (ev_org_id e = org).

Definition set_archived_to (env : Env) (job : CaptureJob) (id uri : string) (r : Run) : result TaskError Run :=
  if negb (archive_update env) then Raise DatabaseError else
  match r_events r !! id with
  | Some e =>
      if of_org (cj_org_id job) e
      then Ok {| r_events := <[id := {| ev_org_id := ev_org_id e; ev_data := ev_data e; ev_archived_to := Some uri |}]> (r_events r);
                 r_blobs := r_blobs r; r_uploaded := r_uploaded r |}
      else Raise NoRowsMatched
  | None => Raise NoRowsMatched
  end.

Definition set_data (env : Env) (job : CaptureJob) (id : string) (data : Payload) (r : Run) : result TaskError Run :=
  if negb (data_update env) then Raise DatabaseError else
  match r_events r !! id with
  | Some e =>
      if of_org (cj_org_id job) e
      then Ok {| r_events := <[id := {| ev_org_id := ev_org_id e; ev_data := data; ev_archived_to := ev_archived_to e |}]> (r_events r);
                 r_blobs := r_blobs r; r_uploaded := r_uploaded r |}
      else Ok r
  | None => Ok r
  end.

(** The pair of a run's state and what it returns or raises: an exception keeps
    the state, because uploads stay done. *)
Definition Outcome : Type := Run * option TaskError.

(** Recording an upload on its event, and undoing the upload when that fails. *)
Definition record_upload (env : Env) (job : CaptureJob) (id uri : string) (r : Run) : Outcome :=
  match set_archived_to env job id uri r with
  | Ok r => (r, None)
  | Raise e =>
      let r := compensate_upload env uri r in
      (with_uploaded (remove_first uri (r_uploaded r)) r, Some e)
  end.

Definition persist_redacted (env : Env) (job : CaptureJob) (filtered : Payload) (r : Run) : Outcome :=
  match event_of job with
  | None => (r, None)
  | Some id =>
      match set_data env job id filtered r with
      | Raise e => (r, Some e)
      | Ok r =>
          let '(o, uri, r) := put_archive_blob env job filtered "redacted" r in
          match o with
          | PutUnconfigured => (r, None)
          | PutRefused | PutLost => (r, Some UploadError)
          | PutStored => record_upload env job id uri (with_uploaded (r_uploaded r ++ [uri]) r)
          end
      end
  end.

Definition archive_payload (env : Env) (job : CaptureJob) (payload : Payload) (r : Run) : Outcome :=
  let '(o, uri, r) := put_archive_blob env job payload "full" r in
  match o with
  | PutUnconfigured | PutRefused | PutLost => (r, Some UploadError)
  | PutStored =>
      let r := with_uploaded (r_uploaded r ++ [uri]) r in
      match event_of job with
      | None => (r, None)
      | Some id => record_upload env job id uri r
      end
  end.

Definition strip (payload : Payload) : Payload := List.filter (fun kv => negb (bool_decide (kv.1 ∈ STRIP_KEYS))) payload.

Definition apply_mode (env : Env) (job : CaptureJob) (mode : Mode) (r : Run) : Outcome :=
  match mode with
  | none | metadata_only => (r, None)
  | redacted => persist_redacted env job (strip (default [] (cj_payload job))) r
  | full =>
      match default [] (cj_payload job) with
      | [] => (r, None)
      | payload => archive_payload env job payload r
      end
  end.

(** The deletion of everything the ledger of uploads names. *)
Definition compensate_all (env : Env) (r : Run) : Run :=
  foldl (fun r uri => compensate_upload env uri r) r (r_uploaded r).

(** [_run]: the transaction commits, or everything recorded as uploaded is deleted
    and the exception goes on; an exception of the commit does not say whether it
    happened. *)
Definition run (env : Env) (job : CaptureJob) (w : World) : World * option TaskError :=
  if negb (policy_read env) then (w, Some DatabaseError) else
  let '(r, e) := apply_mode env job (resolve_capture_mode w (cj_org_id job) (cj_agent_id job))
                   {| r_events := events w; r_blobs := blobs w; r_uploaded := [] |} in
  match e, commit env with
  | None, CommitDone => ({| policies := policies w; events := r_events r; blobs := r_blobs r |}, None)
  | None, CommitAnswerLost =>
      ({| policies := policies w; events := r_events r; blobs := r_blobs (compensate_all env r) |}, Some DatabaseError)
  | _, _ =>
      ({| policies := policies w; events := events w; blobs := r_blobs (compensate_all env r) |},
       Some match e with Some e => e | None => DatabaseError end)
  end.

(** ** Which policy applies *)

(** The unique constraints of the table: one policy per organization and agent,
    and one default per organization. *)
Definition policies_unique (w : World) : Prop :=
  forall p p', p ∈ policies w -> p' ∈ policies w -> po_org_id p = po_org_id p' -> po_agent_id p = po_agent_id p' -> p = p'.

(** A policy for this organization that names this agent, or nobody. *)
Definition policy_for (w : World) (org : UUID) (agent : option UUID) (p : Policy) : Prop :=
  p ∈ policies w /\ po_org_id p = org /\ po_agent_id p = agent.

(** Every archive an event names is stored. *)
Definition archives_present (w : World) : Prop :=
  forall id e uri, events w !! id = Some e -> ev_archived_to e = Some uri -> is_Some (blobs w !! uri).

Definition kind_of (m : Mode) : string :=
  match m with redacted => "redacted" | _ => "full" end.

(** What a run of a mode archives. *)
Definition archived_payload (m : Mode) (job : CaptureJob) : Payload :=
  match m with redacted => strip (default [] (cj_payload job)) | _ => default [] (cj_payload job) end.

(** The key a run writes to. *)
Definition run_key (env : Env) (job : CaptureJob) (w : World) : string :=
  archive_key env job (kind_of (resolve_capture_mode w (cj_org_id job) (cj_agent_id job))).

#[local] Instance policy_order : PyOrder policy_ltb (fun _ => True).
Proof.
  unfold policy_ltb, key_ltb, pair_ltb. split; cbn.
  - intros a b _ _. destruct (Z.eqb_spec (agent_rank a) (agent_rank b)),
      (Z.eqb_spec (agent_rank b) (agent_rank a)); rewrite ?Z.ltb_lt, ?Z.ltb_ge; lia.
  - intros a b c _ _ _.
    destruct (Z.eqb_spec (agent_rank b) (agent_rank a)), (Z.eqb_spec (agent_rank c) (agent_rank b)),
      (Z.eqb_spec (agent_rank c) (agent_rank a)); rewrite ?Z.ltb_ge; lia.
Qed.

Lemma policy_applies_spec org agent p :
  policy_applies org agent p = true <->
  po_org_id p = org /\ (po_agent_id p = None \/ (po_agent_id p = agent /\ is_Some agent)).
Proof.
  unfold policy_applies. rewrite andb_true_iff, bool_decide_eq_true.
  destruct (po_agent_id p) as [a|]; [rewrite bool_decide_eq_true|]; naive_solver.
Qed.

(** The policy the query answers with: the first of the applicable ones. *)
Lemma resolve_capture_mode_spec w org agent :
  match py_sorted policy_ltb (List.filter (policy_applies org agent) (policies w)) with
  | [] => forall p, p ∈ policies w -> policy_applies org agent p = false
  | p :: _ => p ∈ policies w /\ policy_applies org agent p = true /\
      forall q, q ∈ policies w -> policy_applies org agent q = true -> policy_ltb q p = false
  end.
Proof.
  set (l := List.filter _ _).
  assert (forall q, q ∈ l <-> q ∈ policies w /\ policy_applies org agent q = true) as Hl.
  { intros q. unfold l. by rewrite !list_elem_of_In, filter_In. }
  pose proof (py_sorted_sorted policy_ltb (ok := fun _ => True) l) as Hs.
  specialize (Hs ltac:(by apply Forall_true)).
  pose proof (fun q => py_sorted_elem policy_ltb q l) as He.
  destruct (py_sorted policy_ltb l) as [|p rest].
  - intros p Hp. destruct (policy_applies org agent p) eqn:E; [|done].
    exfalso. by apply (not_elem_of_nil p), He, Hl.
  - apply StronglySorted_inv in Hs as [_ Hs]. rewrite Forall_forall in Hs.
    destruct (proj1 (Hl p) (proj1 (He p) (list_elem_of_here _ _))) as [? ?].
    split; [done|]. split; [done|]. intros q Hq Ha.
    destruct (proj1 (elem_of_cons rest q p) (proj2 (He q) (proj2 (Hl q) (conj Hq Ha)))) as [->|Hr].
    + by apply (po_irrefl (ok := fun _ => True) policy_ltb).
    + by apply Hs.
Qed.

(** The mode that applies: the agent's policy when it has one, else the
    organization's default policy, else [metadata_only]; priorities never
    matter, because the table holds at most one policy for each. *)
Theorem agent_policy_wins w org agent :
  policies_unique w ->
  (forall p, is_Some agent -> policy_for w org agent p -> resolve_capture_mode w org agent = po_mode p) /\
  (forall p, (forall q, is_Some agent -> ~ policy_for w org agent q) -> policy_for w org None p ->
     resolve_capture_mode w org agent = po_mode p) /\
  ((forall q, ~ policy_for w org agent q) -> (forall q, ~ policy_for w org None q) ->
     resolve_capture_mode w org agent = metadata_only).
Proof.
  intros Hu. unfold resolve_capture_mode, policy_for.
  pose proof (resolve_capture_mode_spec w org agent) as Hr.
  destruct (py_sorted _ _) as [|p0 rest]; [|destruct Hr as (Hin & Ha & Hbest);
    apply policy_applies_spec in Ha as [Ho Ha]].
  - split_and!; intros; [| |done]; exfalso; destruct_and!;
      match goal with Hp : ?p ∈ _ |- _ => specialize (Hr _ Hp);
        apply not_true_iff_false in Hr; apply Hr, policy_applies_spec end; naive_solver.
  - split_and!.
    + intros p Hs (Hp & Hpo & Hpa). f_equal. apply Hu; [done..|congruence|].
      destruct Ha as [Ha|[Ha _]]; [|congruence]. exfalso.
      specialize (Hbest p Hp ltac:(apply policy_applies_spec; naive_solver)).
      revert Hbest. unfold policy_ltb, key_ltb, pair_ltb, agent_rank; cbn.
      rewrite Ha, Hpa. destruct Hs as [? ->]. by cbn.
    + intros p Hno (Hp & Hpo & Hpa). f_equal. apply Hu; [done..|congruence|].
      destruct Ha as [Ha|[Ha Hs]]; [congruence|]. exfalso. by apply (Hno p0).
    + intros Hno Hno'. exfalso. destruct Ha as [Ha|[Ha Hs]]; [by apply (Hno' p0)|by apply (Hno p0)].
Qed.

(** ** One run *)

(** Unfolds a mode into its branches. *)
Ltac run_cases :=
  unfold apply_mode, persist_redacted, archive_payload, record_upload, put_archive_blob, set_data,
    set_archived_to, with_uploaded, compensate_all, compensate_upload in *;
  repeat (case_match; simplify_eq/=); rewrite ?String.eqb_refl in *; cbn in *.

(** What a mode does to the transaction, the object store and the ledger of
    uploads: only its own key changes, and deleting what the ledger names undoes
    the upload. *)
Lemma apply_mode_spec env job mode ev bl r e :
  apply_mode env job mode {| r_events := ev; r_blobs := bl; r_uploaded := [] |} = (r, e) ->
  let key := archive_key env job (kind_of mode) in
  (forall k, k <> key -> r_blobs (compensate_all env r) !! k = bl !! k) /\
  (e = None -> forall k, is_Some (bl !! k) -> is_Some (r_blobs r !! k)) /\
  (bl !! key = None -> put_outcome env <> PutLost -> delete_works env = true ->
     r_blobs (compensate_all env r) = bl).
Proof.
  intros Hr key.
  assert (forall (b : Blob), bl !! key = None -> delete key (<[key := b]> bl) = bl) as Hundo
    by (intros; by apply delete_insert_id).
  destruct mode; cbn [kind_of] in key; run_cases; split_and!; intros; simplify_map_eq; eauto;
    rewrite ?lookup_insert_is_Some'; naive_solver.
Qed.

(** The links of a mode that succeeds: old ones, and that of its event to its key. *)
Lemma apply_mode_links env job mode ev bl r :
  apply_mode env job mode {| r_events := ev; r_blobs := bl; r_uploaded := [] |} = (r, None) ->
  let key := archive_key env job (kind_of mode) in
  forall id v uri, r_events r !! id = Some v -> ev_archived_to v = Some uri ->
    (exists v0, ev !! id = Some v0 /\ ev_archived_to v0 = Some uri) \/
    (uri = key /\ event_of job = Some id /\
     r_blobs r !! uri = Some {| bl_org_id := cj_org_id job; bl_event_id := cj_event_id job;
                                bl_payload := archived_payload mode job |}).
Proof.
  intros Hr key. destruct mode; cbn [kind_of] in key; unfold archived_payload; run_cases;
    intros id v uri Hlook Hu;
    repeat (apply lookup_insert_Some in Hlook as [[<- <-]|[? Hlook]]; cbn in Hu); simplify_eq/=; eauto;
    right; (split; [done|]); (split; [congruence|]); by rewrite lookup_insert_eq.
Qed.

(** The mode of a job in a world. *)
Abbreviation mode_of w job := (resolve_capture_mode w (cj_org_id job) (cj_agent_id job)).

(** The ways a run ends: everything commits; or the database is as before and the
    uploads are compensated; or the transaction committed unnoticed and its uploads
    are compensated. *)
Lemma run_ends env job w w' res :
  run env job w = (w', res) ->
  policies w' = policies w /\
  ((policy_read env = false /\ w' = w /\ is_Some res) \/
   exists r e,
     apply_mode env job (mode_of w job) {| r_events := events w; r_blobs := blobs w; r_uploaded := [] |} = (r, e) /\
     ((e = None /\ res = None /\ events w' = r_events r /\ blobs w' = r_blobs r) \/
      (is_Some res /\ events w' = events w /\ blobs w' = r_blobs (compensate_all env r)) \/
      (e = None /\ commit env = CommitAnswerLost /\ is_Some res /\ events w' = r_events r /\
       blobs w' = r_blobs (compensate_all env r)))).
Proof.
  unfold run. destruct (policy_read env); cbn; [|intros; simplify_eq; eauto].
  destruct (apply_mode _ _ _ _) as [r e]. destruct e, (commit env) eqn:?; intros; simplify_eq/=; split; eauto 14.
Qed.

Lemma compensate_nothing env r : delete_works env = false -> compensate_all env r = r.
Proof.
  intros Hd. unfold compensate_all. generalize (r_uploaded r). intros l. revert r.
  induction l as [|u l IH]; intros r; cbn; [done|]. unfold compensate_upload at 2. by rewrite Hd.
Qed.

(** A link of [w'] that [w] does not have: the run's own event now names the run's
    key, and the object there is what the run archived for it. *)
Definition new_link (env : Env) (job : CaptureJob) (w w' : World) (id uri : string) : Prop :=
  uri = run_key env job w /\ event_of job = Some id /\
  blobs w' !! uri = Some {| bl_org_id := cj_org_id job; bl_event_id := cj_event_id job;
                            bl_payload := archived_payload (mode_of w job) job |}.

(** C26: archive links stay good.  If every archive an event names is stored, it is
    so after a run, and the run adds no link but one, from its own event to the
    object it stored for it.  This holds of every run that returns; of a run that
    raises, whichever statement, upload or deletion failed, if no event named the
    key it writes to and the transaction did not commit with its answer lost (or
    the deletions failed too). *)
Theorem archive_links_hold env job w w' res :
  run env job w = (w', res) ->
  archives_present w ->
  res = None \/
  ((forall id e, events w !! id = Some e -> ev_archived_to e <> Some (run_key env job w)) /\
   (commit env <> CommitAnswerLost \/ delete_works env = false)) ->
  archives_present w' /\
  forall id e uri, events w' !! id = Some e -> ev_archived_to e = Some uri ->
    (exists e0, events w !! id = Some e0 /\ ev_archived_to e0 = Some uri) \/ new_link env job w w' id uri.
Proof.
  intros [_ [(_ & -> & _)|(r & e & Hm & Hend)]]%run_ends Hw Hok.
  { split; [done|]. intros id e uri He Hu. left. by exists e. }
  assert (e = None -> apply_mode env job (mode_of w job)
    {| r_events := events w; r_blobs := blobs w; r_uploaded := [] |} = (r, None)) as Hok' by (by intros ->).
  apply apply_mode_spec in Hm as (Hother & Hkeep & _). fold (run_key env job w) in *.
  assert (e = None -> events w' = r_events r -> blobs w' = r_blobs r ->
    archives_present w' /\ forall id e uri, events w' !! id = Some e -> ev_archived_to e = Some uri ->
      (exists e0, events w !! id = Some e0 /\ ev_archived_to e0 = Some uri) \/ new_link env job w w' id uri) as Hdone.
  { intros He Hev Hb. unfold archives_present, new_link. rewrite Hev, Hb.
    split; intros id v uri Hv Hu; 
      destruct (apply_mode_links _ _ _ _ _ _ (Hok' He) id v uri Hv Hu) as [(v0 & H0 & Hu0)|(-> & Hid & Hblob)]; eauto. }
  destruct Hend as [(-> & _ & He & Hb)|[([x ->] & He & Hb)|(-> & Hc & [x ->] & He & Hb)]]; [by apply Hdone| |].
  all: destruct Hok as [Hn|[Hfresh Hcd]]; [discriminate Hn|].
  - split; [|intros id v uri Hv Hu; left; exists v; by rewrite <- He].
    intros id v uri Hv Hu. rewrite He in Hv. rewrite Hb, Hother; [by apply (Hw id v)|].
    intros ->. by apply (Hfresh id v).
  - destruct Hcd as [?|Hd]; [done|]. rewrite compensate_nothing in Hb by done. by apply Hdone.
Qed.

(** A run that raises leaves no trace: rows and objects are as before, when the
    key was unused, deletions work, and neither the upload's nor the commit's
    answer was lost. *)
Theorem failed_capture_leaves_no_trace env job w w' e :
  run env job w = (w', Some e) ->
  blobs w !! run_key env job w = None -> put_outcome env <> PutLost -> commit env <> CommitAnswerLost ->
  delete_works env = true -> w' = w.
Proof.
  intros [Hp [(_ & -> & _)|(r & e' & Hm & Hend)]]%run_ends Hk Hput Hc Hdel; [done|].
  apply apply_mode_spec in Hm as (_ & _ & Hundo).
  destruct Hend as [(_ & Hn & _)|[(_ & He & Hb)|(_ & ? & _)]]; [discriminate Hn| |done].
  destruct w as [pw ew bw], w' as [pw' ew' bw']; cbn in *. subst. f_equal. by apply Hundo.
Qed.

Lemma strip_clean payload kv : kv ∈ strip payload <-> kv ∈ payload /\ kv.1 ∉ STRIP_KEYS.
Proof.
  unfold strip. by rewrite list_elem_of_In, filter_In, <- list_elem_of_In, negb_true_iff, bool_decide_eq_false.
Qed.

(** A redacting run that returns has stored, for its event, the payload without
    its raw, content and prompt keys, both in the row and, when the object store
    is configured, in the archive the row now names. *)
Theorem redacted_event_is_stripped env job w w' id v :
  run env job w = (w', None) ->
  mode_of w job = redacted -> event_of job = Some id ->
  events w !! id = Some v -> ev_org_id v = cj_org_id job ->
  exists v', events w' !! id = Some v' /\ ev_org_id v' = ev_org_id v /\
    (forall kv, kv ∈ ev_data v' <-> kv ∈ default [] (cj_payload job) /\ kv.1 ∉ STRIP_KEYS) /\
    (put_outcome env = PutStored -> exists uri b, ev_archived_to v' = Some uri /\
       blobs w' !! uri = Some b /\ bl_org_id b = cj_org_id job /\ bl_payload b = ev_data v').
Proof.
  intros [_ [(_ & _ & [? Hn])|(r & e & Hm & Hend)]]%run_ends Hmode Hid Hv Horg; [discriminate Hn|].
  rewrite Hmode in Hm.
  destruct Hend as [(-> & _ & He & Hb)|[([? Hn] & _)|(_ & _ & [? Hn] & _)]]; [|discriminate Hn..]. rewrite He, Hb.
  assert (of_org (cj_org_id job) v = true) as Ho by (by apply bool_decide_eq_true).
  run_cases; eexists; split_and!; simplify_map_eq; try done; try apply strip_clean; intros; try done.
  do 2 eexists. split_and!; [done|apply lookup_insert_eq|done..].
Qed.
End Capture.

(** ** Concrete runs *)

Module CaptureSample.

Definition pol (agent : option UUID) (m : Mode) (prio : Z) : Policy :=
  {| po_org_id := "o"; po_agent_id := agent; po_mode := m; po_priority := prio |}.

(** An organization whose default is to keep nothing, with one redacting agent
    and one archiving agent; event 7 is not archived yet. *)
Definition world : World (V := Z) :=
  {| policies := [pol None none 1; pol (Some "a") redacted 50; pol (Some "b") full 50];
     events := {[ "7" := {| ev_org_id := "o"; ev_data := [("raw", 1); ("tool", 2)]; ev_archived_to := None |} ]}%string;
     blobs := ∅ |}.

Definition job (agent : string) : CaptureJob (V := Z) :=
  {| cj_org_id := "o"; cj_event_id := Some "7"; cj_agent_id := Some agent;
     cj_payload := Some [("raw", 1); ("tool", 2)]%string |}.

Definition env (c : CommitOutcome) : Env :=
  {| policy_read := true; data_update := true; put_outcome := PutStored; archive_update := true;
     commit := c; delete_works := true; fresh_id := "f" |}.

(** The world after a redacting run of agent a. *)
Definition archived_world : World := (run (env CommitDone) (job "a") world).1.

Lemma agent_policy_wins_witness :
  resolve_capture_mode world "o" (Some "a") = redacted /\ resolve_capture_mode world "o" (Some "z") = none.
Proof.
  assert (policies_unique world) as Hu.
  { intros p p'. cbn. rewrite !elem_of_cons, !elem_of_nil. intros; destruct_or!; subst; done. }
  destruct (agent_policy_wins world "o" (Some "a") Hu) as (H1 & _ & _).
  destruct (agent_policy_wins world "o" (Some "z") Hu) as (_ & H2 & _).
  split.
  - apply (H1 (pol (Some "a") redacted 50)); [done|]. split; [|done]. right. left.
  - apply (H2 (pol None none 1)); [|split; [left|done]].
    intros q _ (Hq & _ & Ha). repeat (apply elem_of_cons in Hq as [->|Hq]; [done|]).
    by apply not_elem_of_nil in Hq.
Defined.

Lemma archive_links_hold_witness :
  archives_present archived_world /\
  new_link (env CommitDone) (job "a") world archived_world "7" "o/capture/redacted/7.json".
Proof.
  destruct (archive_links_hold (env CommitDone) (job "a") world archived_world None) as [Hp Hlinks].
  - vm_compute. reflexivity.
  - intros id e uri He Hu. unfold world in He; cbn in He. apply lookup_singleton_Some in He as [<- <-]. discriminate Hu.
  - by left.
  - split; [exact Hp|].
    destruct (Hlinks "7" {| ev_org_id := "o"; ev_data := [("tool", 2)]%string;
      ev_archived_to := Some "o/capture/redacted/7.json"%string |} "o/capture/redacted/7.json"%string)
      as [(e0 & He0 & Hu0)|Hn]; [vm_compute; reflexivity|reflexivity| |exact Hn].
    exfalso. vm_compute in He0. injection He0 as <-. discriminate Hu0.
Defined.

Lemma failed_capture_leaves_no_trace_witness : (run (env CommitFailed) (job "a") world).1 = world.
Proof.
  refine (failed_capture_leaves_no_trace (env CommitFailed) (job "a") world _ DatabaseError _ _ _ _ _);
    first [vm_compute; reflexivity | done].
Defined.

Lemma redacted_event_is_stripped_witness :
  exists v', events archived_world !! "7" = Some v' /\ forall kv, kv ∈ ev_data v' -> kv.1 ∉ STRIP_KEYS.
Proof.
  destruct (redacted_event_is_stripped (env CommitDone) (job "a") world archived_world "7"
    {| ev_org_id := "o"; ev_data := [("raw", 1); ("tool", 2)]%string; ev_archived_to := None |})
    as (v' & Hv & _ & Hd & _); try (vm_compute; reflexivity).
  exists v'. split; [exact Hv|]. intros kv Hkv. by apply Hd.
Defined.

(** A commit that happened with its answer lost is compensated like one that did
    not: the event names the archive the task has just deleted. *)
Theorem lost_commit_destroys_archive :
  archives_present world /\
  let '(w, res) := run (env CommitAnswerLost) (job "a") world in
  res = Some DatabaseError /\ ((events w !! "7") ≫= ev_archived_to) = Some "o/capture/redacted/7.json"%string /\
  blobs w = ∅.
Proof.
  split; [|vm_compute; done].
  intros id e uri He Hu. unfold world in He; cbn in He. apply lookup_singleton_Some in He as [<- <-]. discriminate Hu.
Qed.

(** The archive key is derived from the event, so a second run of the same event
    writes over the archive of the first; when the second run fails, its
    compensation deletes the archive the first one committed, and the event goes
    on naming it. *)
Theorem failed_rerun_destroys_archive :
  archives_present archived_world /\
  let '(w, res) := run (env CommitFailed) (job "a") archived_world in
  res = Some DatabaseError /\ events w = events archived_world /\ ~ archives_present w.
Proof.
  split.
  - assert (events archived_world = <["7" := {| ev_org_id := "o"; ev_data := [("tool", 2)]%string;
      ev_archived_to := Some "o/capture/redacted/7.json" |}]> ∅) as Hev by (vm_compute; reflexivity).
    intros id e uri He Hu. rewrite Hev in He. apply lookup_insert_Some in He as [[<- <-]|[_ He]]; [|done].
    simplify_eq/=. vm_compute. eauto.
  - vm_compute. split; [done|]. split; [done|].
    intros Hp. specialize (Hp "7" _ _ eq_refl eq_refl). by destruct Hp.
Qed.
End CaptureSample.
