(* ===== verification/CreateMemory.v ===== *)
(** * POST /v1/memories
    ([services/memory/app/routers/memories.py] [create_memory],
    [routers/memory_write_support.py], [write/labels.py]; the client half in
    [services/worker/app/extraction/memory_writer.py])

    The handler around the write transaction: it claims the caller's idempotency
    key in the ledger, runs the write, and finalizes or releases the claim.  The
    ledger is the model of [Idempotency], the write that of [MemoryStore]; other
    requests act between the handler's own statements.  What the pipeline decides
    about the content is an input, and JSON texts are read back by a codec. *)

From S2P Require Import Prelude PyText Idempotency MemoryStore.

(** ** Requests and responses *)

(** A validated body.  Confidences are hundredths, as the column holds them. *)
Record CreateMemoryRequest := {
  req_agent_id : UUID;
  req_content : pystr;
  req_category : string;
  req_confidence : Z;
  req_labels : option (list (string * Z));
  req_session_id : option UUID;
  req_metadata : string;
  req_valid_from : option Z;
  req_valid_until : option Z;
  req_expires_at : option Z;
  req_expected_session_revision : option Z;
}.

(** [CreateMemoryResponse] and [QuarantineMemoryResponse]. *)
Inductive Payload :=
| CreatedPayload (id : UUID) (memory : Memory) (processing_time_ms : Z)
| QuarantinedPayload (id : UUID) (revision : Z).

Record Response := { rs_status : Z; rs_body : Payload; rs_replayed : bool }.

(** [HTTPException]: the status and the detail's code. *)
Record HttpError := { he_status : Z; he_code : string }.

(** [model_dump_json] and [json.loads]: what was written reads back. *)
Class JsonCodec := {
  model_dump_json : Payload -> string;
  json_loads : string -> option Payload;
  loads_dump : forall p, json_loads (model_dump_json p) = Some p;
}.

(** ** Labels ([write/labels.py]) *)

Definition MAX_LABELS : nat := 5.

(** The loop of [validate_write_labels]: each label in turn, against those seen. *)
Fixpoint check_labels (seen : list string) (ls : list (string * Z)) : result Error unit :=
  match ls with
  | [] => Ok tt
  | (l, c) :: ls =>
      if negb (mem l VALID_LABELS) then Raise (ValidationError "Invalid label" "labels" "invalid_label")
      else if ((c <? 0) || (100 <? c))%bool
      then Raise (ValidationError "Confidence must be between 0.0 and 1.0" "labels" "confidence_out_of_range")
      else if mem l seen then Raise (ValidationError "Duplicate label in request" "labels" "duplicate_label")
      else check_labels (l :: seen) ls
  end.

Definition validate_write_labels (ls : list (string * Z)) : result Error unit :=
  if (length ls <? 1)%nat then Raise (ValidationError "At least one label is required" "labels" "labels_required")
  else if (MAX_LABELS <? length ls)%nat then Raise (ValidationError "At most 5 labels allowed" "labels" "too_many_labels")
  else check_labels [] ls.

(** [resolve_write_labels]: the labels, the first one apart. *)
Definition resolve_write_labels (category : string) (confidence : Z) (labels : option (list (string * Z)))
    : result Error ((string * Z) * list (string * Z)) :=
  match labels with
  | None => let* _ := check_labels [] [(category, confidence)] in Ok ((category, confidence), [])
  | Some [] => Raise (ValidationError "At least one label is required" "labels" "labels_required")
  | Some (l :: ls) => let* _ := validate_write_labels (l :: ls) in Ok (l, ls)
  end.

(** [memory_command_from_request] *)
Definition memory_command_from_request (r : CreateMemoryRequest) (org : UUID) : result Error CreateMemoryCommand :=
  let* '(l, ls) := resolve_write_labels (req_category r) (req_confidence r) (req_labels r) in
  Ok {| cm_org_id := org; cm_agent_id := req_agent_id r; cm_confidence := req_confidence r;
        cm_session_id := req_session_id r; cm_metadata := req_metadata r; cm_valid_from := req_valid_from r;
        cm_valid_until := req_valid_until r; cm_expires_at := req_expires_at r;
        cm_expected_session_revision := req_expected_session_revision r; cm_label := l; cm_more_labels := ls |}.

(** ** The idempotency key *)

Definition MAX_IDEMPOTENCY_KEY_LENGTH : nat := 256.

(** [str.isspace] on the characters a header value can hold. *)
Definition header_space (c : ascii) : bool :=
  let n := Z.of_nat (nat_of_ascii c) in
  ((9 <=? n) && (n <=? 13) || (28 <=? n) && (n <=? 32) || (n =? 133) || (n =? 160))%bool.

Fixpoint lstrip (l : list ascii) : list ascii :=
  match l with [] => [] | c :: l' => if header_space c then lstrip l' else l end.

Definition strip (s : string) : string :=
  string_of_list_ascii (rev (lstrip (rev (lstrip (list_ascii_of_string s))))).

Definition http_error (status : Z) (code : string) : HttpError := {| he_status := status; he_code := code |}.

Definition idempotency_unavailable : HttpError := http_error 503 "IDEMPOTENCY_UNAVAILABLE".

Definition parse_idempotency_key (raw : option string) : result HttpError (option string) :=
  match raw with
  | None => Ok None
  | Some raw =>
      let key := strip raw in
      if String.eqb key "" then Ok None
      else if (MAX_IDEMPOTENCY_KEY_LENGTH <? String.length key)%nat then Raise (http_error 400 "VALIDATION_ERROR")
      else Ok (Some key)
  end.

(** ** The service: the ledger and the memory tables *)

Record Svc := { ledger : Idempotency.Table; db : DB }.

Definition with_ledger (t : Idempotency.Table) (s : Svc) : Svc := {| ledger := t; db := db s |}.

Section Handler.
Context `{UnicodeDB, JsonCodec}.
(** The ledger's agents table and lease, and the hash of a memory's content. *)
Context (known : UUID -> UUID -> bool) (lease_us : Z) (content_hash_sha256 : pystr -> string).
(** [fingerprint_request] on the request body. *)
Context (fingerprint : CreateMemoryRequest -> string).

(** What the pipeline answers: a context, a failure of the embedder, or another
    exception. *)
Inductive PipelineResult := PipelineContext (ctx : WriteContext) | EmbeddingFailed | PipelineRaised.

(** What one request meets: clocks, drawn ids, driver faults, the pipeline, and
    what other requests do after the claim, after the write and between the
    attempts to finalize. *)
Record Env := {
  e_claim : Idempotency.Env;
  e_claim_fault : Fault;
  e_before_load : Idempotency.Table;
  e_pipeline : PipelineResult;
  e_clock : Clock;
  e_id : UUID;
  e_races : (DB -> DB) * (DB -> DB);
  e_after_claim : Svc -> Svc;
  e_after_write : Svc -> Svc;
  e_release_fault : Fault;
  e_attempt : nat -> Fault * (Svc -> Svc);
  e_elapsed_ms : Z;
}.

(** [_claim_idempotency_slot] *)
Definition claim_idempotency_slot (e : Env) (q : ClaimRequest) (s : Svc) : result HttpError ClaimOutcome * Svc :=
  match Idempotency.claim known lease_us q (e_claim e) (e_claim_fault e) (e_before_load e) (ledger s) with
  | (Ok o, t) => (Ok o, with_ledger t s)
  | (Raise LedgerValidationError, t) => (Raise (http_error 400 "VALIDATION_ERROR"), with_ledger t s)
  | (Raise NullFieldTypeError, t) => (Raise (http_error 500 "INTERNAL_ERROR"), with_ledger t s)
  | (Raise _, t) => (Raise idempotency_unavailable, with_ledger t s)
  end.

(** What [begin_idempotency] returns: a handle, with its claim when it is active,
    or a stored response. *)
Inductive Begin := Handle (claim : option ClaimToken) | Replayed (r : Response).

(** [_finalize_idempotency_claim] with [_replay_cached_response] and
    [_reject_idempotency_conflict]. *)
Definition finalize_idempotency_claim (o : ClaimOutcome) : result HttpError Begin :=
  match o with
  | Replay _ status body =>
      match json_loads body with
      | Some p => Ok (Replayed {| rs_status := if status =? 0 then 200 else status; rs_body := p; rs_replayed := true |})
      | None => Raise (http_error 500 "INTERNAL_ERROR")
      end
  | Conflict _ => Raise (http_error 409 "IDEMPOTENCY_CONFLICT")
  | InProgress _ _ => Raise (http_error 409 "IDEMPOTENCY_IN_PROGRESS")
  | Owned c => Ok (Handle (Some c))
  end.

Definition claim_request (org agent : UUID) (key hash : string) : ClaimRequest :=
  {| rq_org := org; rq_agent := agent; rq_key := key; rq_hash := hash |}.

Definition begin_idempotency (e : Env) (has_ledger : bool) (org agent : UUID) (key : option string) (hash : string)
    (s : Svc) : result HttpError Begin * Svc :=
  match parse_idempotency_key key with
  | Raise h => (Raise h, s)
  | Ok None => (Ok (Handle None), s)
  | Ok (Some key) =>
      if has_ledger then
        let '(o, s) := claim_idempotency_slot e (claim_request org agent key hash) s in
        (rbind o finalize_idempotency_claim, s)
      else (Raise idempotency_unavailable, s)
  end.

(** [release_idempotency]: a ledger failure is logged. *)
Definition release_idempotency (e : Env) (handle : option ClaimToken) (s : Svc) : Svc :=
  match handle with
  | Some c => with_ledger (Idempotency.release c (e_release_fault e) (ledger s)).2 s
  | None => s
  end.

Definition FINALIZE_ATTEMPTS : nat := 3.

(** [commit_idempotency_fail_closed]: whether the claim was finalized. *)
Fixpoint commit_attempts (e : Env) (n : nat) (c : ClaimToken) (status : Z) (body : string) (s : Svc)
    : bool * Svc :=
  match n with
  | O => (false, s)
  | S n =>
      let '(fault, others) := e_attempt e (FINALIZE_ATTEMPTS - S n)%nat in
      match Idempotency.finalize c status body fault (ledger s) with
      | (Ok _, t) => (true, with_ledger t s)
      | (Raise LedgerConflictError, t) => (false, with_ledger t s)
      | (Raise _, t) => commit_attempts e n c status body (others (with_ledger t s))
      end
  end.

Definition commit_idempotency_fail_closed (e : Env) (handle : option ClaimToken) (status : Z) (p : Payload) (s : Svc)
    : result HttpError unit * Svc :=
  match handle with
  | None => (Ok tt, s)
  | Some c =>
      let '(done, s) := commit_attempts e FINALIZE_ATTEMPTS c status (model_dump_json p) s in
      (if done then Ok tt else Raise idempotency_unavailable, s)
  end.

(** ** The write and its errors *)

Inductive WriteError := StoreError (x : Error) | EmbeddingServiceError | OtherException.

(** [orchestrator.create] *)
Definition orchestrator_create (e : Env) (cmd : CreateMemoryCommand) (d : DB) : result WriteError Memory * DB :=
  match e_pipeline e with
  | EmbeddingFailed => (Raise EmbeddingServiceError, d)
  | PipelineRaised => (Raise OtherException, d)
  | PipelineContext ctx =>
      match MemoryStore.create content_hash_sha256 (e_races e) (e_clock e) (e_id e) cmd ctx d with
      | (Ok m, d) => (Ok m, d)
      | (Raise x, d) => (Raise (StoreError x), d)
      end
  end.

(** The two [except] clauses of [create_memory] with [http_error_for_write]. *)
Definition http_error_for_write (x : WriteError) : HttpError :=
  match x with
  | StoreError MemoryOrganizationUnavailableError => http_error 409 "ORG_UNAVAILABLE"
  | StoreError (StaleLifecycleError _) => http_error 409 "STALE_LIFECYCLE_REVISION"
  | StoreError StaleMemoryRevisionError => http_error 409 "STALE_MEMORY_REVISION"
  | StoreError (DuplicateMemoryError _) => http_error 409 "DUPLICATE_CONTENT"
  | StoreError (ValidationError _ _ _) => http_error 400 "VALIDATION_ERROR"
  | EmbeddingServiceError => http_error 503 "EMBEDDING_FAILED"
  | _ => http_error 500 "INTERNAL_ERROR"
  end.

Definition is_quarantined (e : Env) : bool :=
  match e_pipeline e with PipelineContext ctx => String.eqb (wc_status ctx) "quarantined" | _ => false end.

(** [finalize_quarantine_response] and [finalize_created_response] *)
Definition outcome_response (e : Env) (m : Memory) : Response :=
  if is_quarantined e
  then {| rs_status := 202; rs_body := QuarantinedPayload (e_id e) (lifecycle_revision m); rs_replayed := false |}
  else {| rs_status := 201; rs_body := CreatedPayload (e_id e) m (e_elapsed_ms e); rs_replayed := false |}.

(** [create_memory]: an exception of [memory_command_from_request] has no handler
    and answers 500. *)
Definition create_memory (e : Env) (has_ledger : bool) (org : UUID) (key : option string) (r : CreateMemoryRequest)
    (s : Svc) : result HttpError Response * Svc :=
  match begin_idempotency e has_ledger org (req_agent_id r) key (fingerprint r) s with
  | (Raise h, s) => (Raise h, s)
  | (Ok (Replayed resp), s) => (Ok resp, s)
  | (Ok (Handle handle), s) =>
      match memory_command_from_request r org with
      | Raise _ => (Raise (http_error 500 "INTERNAL_ERROR"), s)
      | Ok cmd =>
          let s := e_after_claim e s in
          let '(res, d) := orchestrator_create e cmd (db s) in
          let s := e_after_write e {| ledger := ledger s; db := d |} in
          match res with
          | Raise x => (Raise (http_error_for_write x), release_idempotency e handle s)
          | Ok m =>
              let resp := outcome_response e m in
              let '(done, s) := commit_idempotency_fail_closed e handle (rs_status resp) (rs_body resp) s in
              (let* _ := done in Ok resp, s)
          end
      end
  end.

(** ** What an answer guarantees *)

(** The labels a request resolves to are known, distinct and within range, so the
    label rows of the write never collide. *)
Lemma check_labels_spec seen ls :
  check_labels seen ls = Ok tt ->
  NoDup (ls.*1) /\ Forall (fun lc => mem lc.1 VALID_LABELS = true /\ 0 <= lc.2 <= 100 /\ mem lc.1 seen = false) ls.
Proof.
  revert seen. induction ls as [|[l c] ls IH]; intros seen; cbn [check_labels]; [by split; constructor|].
  destruct (mem l VALID_LABELS) eqn:?; [|done]. destruct ((c <? 0) || (100 <? c))%bool eqn:?; [done|].
  destruct (mem l seen) eqn:Hs; [done|]. intros [Hnd Hall]%IH. bools. split.
  - constructor; [|done]. intros ([l' c'] & Heq & Hin)%list_elem_of_fmap. simpl in Heq. subst l'.
    rewrite Forall_forall in Hall. destruct (Hall _ Hin) as (_ & _ & Hn).
    unfold mem in Hn. cbn in Hn. by rewrite String.eqb_refl in Hn.
  - constructor; [cbn [fst snd]; split_and!; first [done|lia]|]. eapply Forall_impl; [done|].
    intros [l' c'] (? & ? & Hn). split; [done|]. split; [done|]. by apply orb_false_elim in Hn as [_ ?].
Qed.

Lemma resolved_labels_valid category confidence labels l ls :
  resolve_write_labels category confidence labels = Ok (l, ls) ->
  NoDup ((l :: ls).*1) /\ (length (l :: ls) <= MAX_LABELS)%nat /\
  Forall (fun lc => mem lc.1 VALID_LABELS = true /\ 0 <= lc.2 <= 100) (l :: ls).
Proof.
  unfold resolve_write_labels, validate_write_labels. destruct labels as [[|l0 ls0]|]; [done|..].
  - destruct (_ <? _)%nat; [done|]. destruct (_ <? length _)%nat eqn:Hlen; [done|].
    intros ([] & Hc & [= <- <-])%rbind_Ok. apply check_labels_spec in Hc as [? Hall].
    apply Nat.ltb_ge in Hlen. split_and!; [done|done|]. eapply Forall_impl; [done|naive_solver].
  - intros ([] & Hc & [= <- <-])%rbind_Ok. apply check_labels_spec in Hc as [? Hall].
    split_and!; [done|by cbv; lia|]. eapply Forall_impl; [done|naive_solver].
Qed.

(** The ledger holds the answer of a request. *)
Definition recorded (t : Idempotency.Table) (q : ClaimRequest) (resp : Response) : Prop :=
  exists row st txt, t !! rq_index q = Some row /\ row_hash row = rq_hash q /\ row_state row = Finalized /\
    status_code row = Some st /\ response_payload row = Some txt /\
    json_loads txt = Some (rs_body resp) /\ rs_status resp = (if st =? 0 then 200 else st).

Lemma commit_attempts_ok e n c status body s s' :
  commit_attempts e n c status body s = (true, s') ->
  exists row, ledger s' !! tok_index c = Some (finalized_row status body row) /\ row_hash row = request_hash c.
Proof.
  revert s. induction n as [|n IH]; intros s; cbn; [done|]. destruct (e_attempt e _) as [f others].
  destruct (Idempotency.finalize _ _ _ _ _) as [[u|x] t] eqn:Hf.
  - intros [= <-]. cbn. apply ledger_finalize_spec in Hf as [[_ [? ?]]|(row & Hr & Hfe & -> & _)]; [done|].
    exists row. rewrite lookup_insert_eq. split; [done|]. by apply token_fence_true in Hfe as (_ & ? & _).
  - destruct x; first [by intros ?|by apply IH|intros Hc; by eapply IH].
Qed.

Lemma claim_effect_owned lease q env t t' c :
  claim_effect lease q env t t' (Owned c) -> tok_index c = rq_index q /\ request_hash c = rq_hash q.
Proof. inversion 1; subst; cbn; [done|by split]. Qed.

(** A keyed request that is answered has its answer in the ledger. *)
Lemma answer_is_recorded e org key k r s resp s' :
  create_memory e true org key r s = (Ok resp, s') ->
  parse_idempotency_key key = Ok (Some k) ->
  let q := claim_request org (req_agent_id r) k (fingerprint r) in
  e_before_load e = ledger s \/ is_Some (e_before_load e !! rq_index q) ->
  recorded (ledger s') q resp /\
  validate_claim (rq_key q) (rq_hash q) = Ok tt /\ hash_ok (rq_hash q) = true.
Proof.
  intros Hc Hk q Ht0. unfold create_memory, begin_idempotency, claim_idempotency_slot in Hc.
  rewrite Hk in Hc. fold q in Hc.
  destruct (Idempotency.claim _ _ _ _ _ _ _) as [[out|x] t] eqn:Hcl; [|by destruct x].
  pose proof (claim_ok_valid _ _ _ _ _ _ _ _ _ Hcl) as [? ?]. split; [|done].
  apply claim_spec in Hcl as [[_ [? ?]]|(out' & Heff & Ho)]; [done| |done].
  destruct Ho as [[= <-]|?]; [|done].
  destruct out as [c|c st txt|c|c n]; cbn [rbind finalize_idempotency_claim] in Hc; [|..|done|done].
  - destruct (memory_command_from_request r org) as [cmd|]; [|done]. cbn zeta in Hc.
    destruct (orchestrator_create _ _ _) as [[m|x] d]; [|done].
    unfold commit_idempotency_fail_closed in Hc. destruct (commit_attempts _ _ _ _ _ _) as [[] s2] eqn:Hca; [|done].
    injection Hc as <- <-. apply commit_attempts_ok in Hca as (row & Hrow & Hh).
    apply claim_effect_owned in Heff as [Hi Hq]. rewrite Hi in Hrow.
    do 3 eexists. split_and!; [exact Hrow|exact (eq_trans Hh Hq)|done..|cbn; apply loads_dump|].
    unfold outcome_response. by destruct (is_quarantined e).
  - destruct (json_loads txt) as [p|] eqn:Hp; [|done]. injection Hc as <- <-.
    inversion Heff; subst. cbn. unfold recorded. eauto 12.
Qed.

(** C19: A repeat of an answered request is answered alike: whatever other requests
    did to the ledger since, it gets the recorded status and body, marked as
    replayed, and neither the ledger nor the memory tables change. *)
Theorem answered_request_replays e org key k r s resp s' u evs w e2 s2 :
  let q := claim_request org (req_agent_id r) k (fingerprint r) in
  create_memory e true org key r s = (Ok resp, s') ->
  parse_idempotency_key key = Ok (Some k) ->
  e_before_load e = ledger s \/ is_Some (e_before_load e !! rq_index q) ->
  history known lease_us {| table := ledger s'; used := u |} evs w ->
  ledger s2 = table w -> e_claim_fault e2 = NoFault -> is_Some (e_before_load e2 !! rq_index q) ->
  create_memory e2 true org key r s2 =
    (Ok {| rs_status := rs_status resp; rs_body := rs_body resp; rs_replayed := true |}, s2).
Proof.
  intros q Hc Hk Ht0 Hh Hs2 Hf Hload. destruct (answer_is_recorded _ _ _ _ _ _ _ _ Hc Hk Ht0)
    as [(row & st & txt & Hrow & Hhash & Hst & Hsc & Hrp & Hl & Hstat) [Hv Hok]].
  eapply terminal_row_stable in Hh; [|exact Hrow|by rewrite Hst]. rewrite <- Hs2 in Hh.
  unfold create_memory, begin_idempotency, claim_idempotency_slot. rewrite Hk. fold q. rewrite Hf.
  rewrite (claim_replays known lease_us q (e_claim e2) (e_before_load e2) (ledger s2) row st txt) by done.
  cbn. rewrite Hl. cbn. rewrite Hstat. by destruct s2.
Qed.

(** A keyed write that fails frees its key: when nobody else touched the claim and
    the ledger answers, the row is gone and the request can be retried at once. *)
Theorem failed_write_frees_key e org key k r cmd s h s' :
  let q := claim_request org (req_agent_id r) k (fingerprint r) in
  create_memory e true org key r s = (Raise h, s') ->
  parse_idempotency_key key = Ok (Some k) -> ledger s !! rq_index q = None ->
  e_before_load e = ledger s -> e_claim_fault e = NoFault -> e_release_fault e = NoFault ->
  validate_claim (rq_key q) (rq_hash q) = Ok tt -> hash_ok (rq_hash q) = true -> known org (req_agent_id r) = true ->
  memory_command_from_request r org = Ok cmd ->
  (forall s1, ledger (e_after_claim e s1) !! rq_index q = ledger s1 !! rq_index q) ->
  (forall s1, ledger (e_after_write e s1) !! rq_index q = ledger s1 !! rq_index q) ->
  (forall s1, is_ok (orchestrator_create e cmd (db s1)).1 = false) ->
  ledger s' !! rq_index q = None.
Proof.
  intros q Hc Hk Hnone Ht0 Hcf Hrf Hv Hok Hkn Hcmd Hac Haw Hfail.
  unfold create_memory, begin_idempotency, claim_idempotency_slot in Hc. rewrite Hk in Hc. fold q in Hc.
  unfold Idempotency.claim, insert_or_load in Hc. rewrite Hv, Ht0, Hok, Hnone, Hcf in Hc.
  change (rq_org q) with org in Hc. change (rq_agent q) with (req_agent_id r) in Hc. rewrite Hkn in Hc.
  unfold resolve_row in Hc. cbn [negb row_hash claimed_row] in Hc. rewrite String.eqb_refl in Hc.
  cbn [negb org_session rbind finalize_idempotency_claim] in Hc. rewrite Hcmd in Hc. cbn zeta in Hc.
  set (s1 := e_after_claim e _) in Hc. specialize (Hfail s1).
  destruct (orchestrator_create e cmd (db s1)) as [[m|x] d]; [done|]. injection Hc as _ <-.
  set (s3 := e_after_write e _). unfold release_idempotency, with_ledger. rewrite Hrf.
  assert (ledger s3 !! rq_index q = Some (claimed_row (lease_interval lease_us) q (e_claim e))) as Hrow.
  { unfold s3. rewrite Haw. cbn. unfold s1. rewrite Hac. cbn. by rewrite lookup_insert_eq. }
  set (c := claim_from_row _ _). assert (tok_index c = rq_index q) as Hix by done.
  unfold Idempotency.release, mutate_claim, release_sql. rewrite Hix, Hrow.
  assert (fence c (claimed_row (lease_interval lease_us) q (e_claim e)) = true) as ->.
  { unfold fence, c, claim_from_row. cbn. by rewrite !bool_decide_eq_true_2. }
  cbn. by rewrite lookup_delete_eq.
Qed.
End Handler.

(** ** Concrete requests *)

Module CreateSample.

(** A codec: a payload is a flat list of atoms, and a positive is written in
    binary. *)
Abbreviation Atom := (list Z + list string)%type.

Definition nums (l : list Z) : Atom := inl l.
Definition opt_num (o : option Z) : Atom := inl (option_list o).
Definition opt_str (o : option string) : Atom := inr (option_list o).
Definition bit (b : bool) : Z := if b then 1 else 0.

Definition atoms_of_life (l : Life) : list Atom :=
  [inr [org_id l; agent_id l; content_hash l; category l; status l; source l; metadata l];
   nums (content l);
   nums [content_tokens l; valid_from l; confidence l; bit (pii_detected l); bit (pii_redacted l); bit (tombstoned l)];
   opt_num (deleted_at l); opt_num (valid_until l); opt_num (expires_at l);
   opt_str (superseded_by l); opt_str (merged_into l)].

Definition life_of_atoms (a : list Atom) : option (Life * list Atom) :=
  match a with
  | inr [o; ag; h; cat; st; so; me] :: inl c :: inl [tk; vf; cf; p1; p2; tb] :: inl del :: inl vu :: inl ex
    :: inr sup :: inr mer :: rest =>
      Some ({| org_id := o; agent_id := ag; content := c; content_hash := h; content_tokens := tk; category := cat;
               status := st; deleted_at := head del; valid_from := vf; valid_until := head vu; confidence := cf;
               source := so; superseded_by := head sup; merged_into := head mer; metadata := me;
               expires_at := head ex; pii_detected := (p1 =? 1); pii_redacted := (p2 =? 1);
               tombstoned := (tb =? 1) |}, rest)
  | _ => None
  end.

Definition atoms_of (p : Payload) : list Atom :=
  match p with
  | CreatedPayload i m n =>
      inr [i] :: atoms_of_life (life m) ++
        [opt_str (session_id m); opt_str (fst <$> embedding m); opt_num (snd <$> embedding m);
         opt_num (last_retrieved_at m);
         nums [retrieval_count m; usefulness_score m; updated_at m; lifecycle_revision m; n]]
  | QuarantinedPayload i r => [nums [r]; inr [i]]
  end.

Definition of_atoms (a : list Atom) : option Payload :=
  match a with
  | inr [i] :: a =>
      match life_of_atoms a with
      | Some (l, [inr s; inr e1; inl e2; inl lr; inl [rc; us; up; rev; n]]) =>
          Some (CreatedPayload i {| life := l; session_id := head s;
            embedding := match e1, e2 with x :: _, y :: _ => Some (x, y) | _, _ => None end;
            retrieval_count := rc; last_retrieved_at := head lr; usefulness_score := us; updated_at := up;
            lifecycle_revision := rev |} n)
      | _ => None
      end
  | [inl [r]; inr [i]] => Some (QuarantinedPayload i r)
  | _ => None
  end.

Lemma head_option_list {A} (o : option A) : head (option_list o) = o.
Proof. by destruct o. Qed.

Lemma bit_read b : (bit b =? 1) = b.
Proof. by destruct b. Qed.

Lemma of_atoms_of p : of_atoms (atoms_of p) = Some p.
Proof.
  destruct p as [i [[] s e] n|i r]; [|done]. cbn. rewrite !head_option_list, !bit_read.
  by destruct e as [[]|].
Qed.

Fixpoint print_pos (p : positive) : string :=
  match p with xH => "" | xO p => String "0" (print_pos p) | xI p => String "1" (print_pos p) end.

Fixpoint scan_pos (s : string) : positive :=
  match s with
  | EmptyString => xH
  | String c s => if Ascii.eqb c "0" then xO (scan_pos s) else xI (scan_pos s)
  end.

Lemma scan_print p : scan_pos (print_pos p) = p.
Proof. induction p as [p IH|p IH|]; cbn; congruence. Qed.

#[export, refine] Instance sample_codec : JsonCodec := {|
  model_dump_json p := print_pos (encode (atoms_of p));
  json_loads s := decode (scan_pos s) ≫= of_atoms;
|}.
Proof.
  intros p. rewrite scan_print, decode_encode. apply of_atoms_of.
Defined.

(** A hash that tells two contents apart. *)
Definition digit (b : bool) : string := if b then "1" else "0".
Definition hex64 (b : bool) : string :=
  digit b +:+ "123456789abcdef0123456789abcdef0123456789abcdef0123456789abcdef".
Definition fingerprint (r : CreateMemoryRequest) : string := hex64 (Nat.even (length (req_content r))).

Definition request (c : string) (ls : option (list (string * Z))) : CreateMemoryRequest :=
  {| req_agent_id := "a1"; req_content := lit c; req_category := "factual"; req_confidence := 80;
     req_labels := ls; req_session_id := None; req_metadata := "{}"; req_valid_from := None;
     req_valid_until := None; req_expires_at := None; req_expected_session_revision := None |}.

Definition context (c : string) : WriteContext :=
  {| wc_content := lit c; wc_status := "active"; wc_pii_detected := false; wc_pii_redacted := false;
     wc_content_hash := Some c; wc_valid_from := Some 40; wc_valid_until := None; wc_decisions := [];
     wc_supersede_targets := []; wc_supersede_revisions := ∅; wc_exact_duplicate := None; wc_error := None |}.

(** A request at second [t], answered by the pipeline with [p]. *)
Definition env_at (t : Z) (i : UUID) (p : PipelineResult) (load : Idempotency.Table) (release : Fault) : Env :=
  {| e_claim := {| db_now := t * Idempotency.second; Idempotency.py_now := t * Idempotency.second; new_id := i |};
     e_claim_fault := NoFault; e_before_load := load; e_pipeline := p;
     e_clock := {| MemoryStore.now := t; MemoryStore.py_now := t |}; e_id := i; e_races := (id, id);
     e_after_claim := id; e_after_write := id; e_release_fault := release;
     e_attempt := fun n => (if (n =? 0)%nat then RolledBack else NoFault, id); e_elapsed_ms := 7 |}.

Definition s0 : Svc := {| ledger := ∅; db := MemorySample.d0 |}.

Abbreviation post := (create_memory (H := ascii_db) (fun _ _ => true) LEDGER_LEASE (fun _ => "h"%string) fingerprint).

Definition tea : CreateMemoryRequest := request "likes tea" None.
Definition answered : result HttpError Response * Svc :=
  post (env_at 0 "m3" (PipelineContext (context "h3")) ∅ NoFault) true "o1" (Some " k "%string) tea s0.

Lemma answered_request_replays_witness :
  exists resp, answered.1 = Ok resp /\ rs_status resp = 201 /\
    post (env_at 9 "m4" EmbeddingFailed (ledger answered.2) NoFault) true "o1" (Some " k "%string) tea answered.2 =
    (Ok {| rs_status := rs_status resp; rs_body := rs_body resp; rs_replayed := true |}, answered.2).
Proof.
  eexists. split; [vm_compute; reflexivity|]. split; [reflexivity|].
  refine (answered_request_replays (H := ascii_db) (fun _ _ => true) LEDGER_LEASE (fun _ => "h"%string) fingerprint
    (env_at 0 "m3" (PipelineContext (context "h3")) ∅ NoFault) "o1" (Some " k ") "k" tea s0 _ answered.2 ∅ []
    {| table := ledger answered.2; used := ∅ |} (env_at 9 "m4" EmbeddingFailed (ledger answered.2) NoFault) answered.2
    _ _ _ _ _ _ _).
  - vm_compute. reflexivity.
  - vm_compute. reflexivity.
  - by left.
  - constructor.
  - reflexivity.
  - reflexivity.
  - vm_compute. eauto.
Defined.

Lemma failed_write_frees_key_witness :
  ledger (post (env_at 0 "m3" EmbeddingFailed ∅ NoFault) true "o1" (Some "k"%string) tea s0).2 !! ("o1", "a1", "k")%string = None.
Proof.
  eapply (failed_write_frees_key (H := ascii_db) (fun _ _ => true) LEDGER_LEASE (fun _ => "h"%string) fingerprint
    (env_at 0 "m3" EmbeddingFailed ∅ NoFault) "o1" (Some "k"%string) "k" tea _ s0);
    first [vm_compute; reflexivity | reflexivity | intros; reflexivity].
Defined.

(** A claim that outlives its failed write blocks the key for the other wording
    of the same request: the embedder was down and the release did not reach the
    ledger; the retry, reworded, is told the key belongs to another request,
    although no memory was ever written for it. *)
Theorem unwritten_key_reports_conflict :
  let s1 := (post (env_at 0 "m3" EmbeddingFailed ∅ RolledBack) true "o1" (Some "k"%string) tea s0).2 in
  db s1 = db s0 /\
  post (env_at 500 "m4" (PipelineContext (context "h4")) (ledger s1) NoFault) true "o1" (Some "k"%string)
    (request "enjoys tea" None) s1 = (Raise (http_error 409 "IDEMPOTENCY_CONFLICT"), s1).
Proof. vm_compute. done. Qed.

(** Labels are checked after the key is claimed and outside the handler's [try]:
    a request with a repeated label answers 500 instead of 400, and its claim
    stays, so that the corrected request meets a key in use. *)
Theorem invalid_labels_leak_claim :
  let '(res, s1) := post (env_at 0 "m3" (PipelineContext (context "h3")) ∅ NoFault) true "o1" (Some "k"%string)
    (request "likes tea" (Some [("factual", 80); ("factual", 90)]%string)) s0 in
  res = Raise (http_error 500 "INTERNAL_ERROR") /\ is_Some (ledger s1 !! ("o1", "a1", "k")%string) /\
  (post (env_at 1 "m4" (PipelineContext (context "h3")) (ledger s1) NoFault) true "o1" (Some "k"%string)
    (request "likes tea" (Some [("factual", 80)]%string)) s1).1 = Raise (http_error 409 "IDEMPOTENCY_IN_PROGRESS").
Proof. vm_compute. eauto. Qed.
End CreateSample.
