(* ===== verification/WritePipeline.v ===== *)
(** * The write pipeline ([services/memory/app/]: [pipeline/], [conflict/], [dedup/],
      [pii/service.py], [write/orchestrator.py], [write/factory.py])

    What happens to a memory between the request and the write transaction:
    validation, redaction, exact and near duplicates, the embedding, and the
    judgement of conflicts, then the transaction itself, which is that of
    [MemoryStore].  Presidio, spaCy, the conflict classifier, SHA-256, the vector
    index and the embedder are parameters; other transactions of the service run
    before every statement.  Subject keys, intervals and decisions are not: they
    decide which memories are superseded. *)

From Stdlib Require Import SpecFloat.
From S2P Require Import Prelude PyText Num Idempotency MemoryStore PiiGuard ReadRank MemoryRead ModelClients CreateMemory.

(** ** Subject keys ([conflict/subjects.py]) *)

(** A token of spaCy, with the tokens that depend on it. *)
Record Token := {
  tk_dep : string;
  tk_lemma : pystr;
  tk_is_stop : bool;
  tk_is_alpha : bool;
  tk_children : list (string * pystr);
}.

Abbreviation Doc := (list Token).

Definition OBJ_DEPS : list string := ["dobj"; "attr"; "pobj"]%string.
Definition NSUBJ_DEPS : list string := ["nsubj"; "nsubjpass"]%string.

Definition one_of (l : list string) (s : string) : bool := existsb (String.eqb s) l.

Definition SPACE : Z := 32.

Fixpoint join_words (ws : list pystr) : pystr :=
  match ws with
  | [] => []
  | [w] => w
  | w :: ws => w ++ [SPACE] ++ join_words ws
  end.

Section Subjects.
Context `{UnicodeDB}.

(** [_WS.sub(" ", s)]: each run of white space becomes one space. *)
Fixpoint collapse_space (in_space : bool) (s : pystr) : pystr :=
  match s with
  | [] => []
  | c :: s =>
      if is_space c then (if in_space then collapse_space true s else SPACE :: collapse_space true s)
      else c :: collapse_space false s
  end.

Definition normalize_subject_key (raw : pystr) : pystr := collapse_space false (u_lower (strip_space raw)).

Definition find_root (doc : Doc) : option Token := List.find (fun t => String.eqb (tk_dep t) "ROOT") doc.

Definition object_lemmas (root : Token) : list pystr :=
  snd <$> List.filter (fun c => one_of OBJ_DEPS c.1) (tk_children root).

Definition subject_predicate_key (subject : pystr) (root : option Token) : pystr :=
  match root with
  | None => subject
  | Some root =>
      join_words (List.filter (fun p => negb (bool_decide (p = [])))
        ([subject; tk_lemma root] ++ match object_lemmas root with [] => [] | o :: _ => [o] end))
  end.

Definition key_from_nominal_subject (doc : Doc) (root : option Token) : pystr :=
  match List.find (fun t => one_of NSUBJ_DEPS (tk_dep t) && negb (tk_is_stop t))%bool doc with
  | None => []
  | Some t => normalize_subject_key (subject_predicate_key (tk_lemma t) root)
  end.

Definition key_from_root (root : option Token) : pystr :=
  match root with
  | None => []
  | Some root =>
      match object_lemmas root with
      | [] => normalize_subject_key (tk_lemma root)
      | o :: _ => normalize_subject_key (tk_lemma root ++ [SPACE] ++ o)
      end
  end.

Definition key_from_content_tokens (doc : Doc) : pystr :=
  normalize_subject_key (join_words (take 2 (tk_lemma <$> List.filter (fun t => tk_is_alpha t && negb (tk_is_stop t))%bool doc))).

(** [_subject_key_from_doc] and [_first_nonempty] *)
Definition subject_key_from_doc (doc : Doc) : pystr :=
  let root := find_root doc in
  match key_from_nominal_subject doc root with
  | [] => match key_from_root root with
          | [] => key_from_content_tokens doc
          | k => k
          end
  | k => k
  end.

Definition extract_subject_key (nlp : pystr -> Doc) (content : pystr) : pystr :=
  match strip_space content with
  | [] => []
  | text => subject_key_from_doc (nlp text)
  end.
End Subjects.

(** [sub in s] *)
Fixpoint contains (sub s : pystr) : bool :=
  (bool_decide (take (length sub) s = sub) || match s with [] => false | _ :: s => contains sub s end)%bool.

Definition subjects_match (left right : pystr) : bool :=
  (negb (bool_decide (left = [])) && negb (bool_decide (right = []))
   && (bool_decide (left = right) || contains left right || contains right left))%bool.

(** ** Intervals ([conflict/intervals.py]) *)

(** [datetime.max] in microseconds: the end of an open interval. *)
Definition OPEN : Z := 253402300799999999.

Record ValidityInterval := { iv_from : Z; iv_until : option Z }.

(** [__post_init__] *)
Definition validity_interval (from : Z) (until : option Z) : option ValidityInterval :=
  match until with
  | Some u => if u <=? from then None else Some {| iv_from := from; iv_until := Some u |}
  | None => Some {| iv_from := from; iv_until := None |}
  end.

Definition end_exclusive (i : ValidityInterval) : Z := default OPEN (iv_until i).

Definition intervals_overlap (l r : ValidityInterval) : bool :=
  ((iv_from l <? end_exclusive r) && (iv_from r <? end_exclusive l))%bool.

(** ** Conflict decisions ([conflict/service.py], [conflict/types.py]) *)

Record CandidateMemory := {
  ca_memory_id : UUID;
  ca_content : pystr;
  ca_interval : ValidityInterval;
  ca_confidence : Z;
  ca_lifecycle_revision : Z;
}.

Record IncomingMemory := { im_content : pystr; im_interval : ValidityInterval; im_memory_id : option UUID }.

(** [ConflictClassifier] *)
Class ConflictClassifier := {
  classify : IncomingMemory -> CandidateMemory -> ConflictOutcome;
  invokes_llm : bool;
}.

(** [NoopConflictClassifier] *)
Definition noop_classifier : ConflictClassifier := {| classify _ _ := ESCALATE_PENDING; invokes_llm := false |}.

Definition is_sequential_supersede (same_subject newer overlap : bool) : bool :=
  if negb same_subject then false else if negb newer then false else negb overlap.

Section Conflicts.
Context `{UnicodeDB, ConflictClassifier} (nlp : pystr -> Doc).

(** [_escalate]: a classifier never supersedes. *)
Definition escalate (incoming : IncomingMemory) (candidate : CandidateMemory) (subject_key : pystr) (reason : string)
    : ConflictDecision * bool :=
  let outcome := classify incoming candidate in
  ({| cd_candidate_id := ca_memory_id candidate;
      cd_outcome := if bool_decide (outcome = SUPERSEDES) then ESCALATE_PENDING else outcome;
      cd_llm_call_made := invokes_llm; cd_subject_key := subject_key; cd_notes := reason |}, invokes_llm).

Definition decide_one (incoming : IncomingMemory) (incoming_subject : pystr) (candidate : CandidateMemory)
    : ConflictDecision * bool :=
  let cand_subject := extract_subject_key nlp (ca_content candidate) in
  let subject_key := match incoming_subject with [] => cand_subject | k => k end in
  let newer := iv_from (ca_interval candidate) <? iv_from (im_interval incoming) in
  let overlap := intervals_overlap (im_interval incoming) (ca_interval candidate) in
  if is_sequential_supersede (subjects_match incoming_subject cand_subject) newer overlap
  then ({| cd_candidate_id := ca_memory_id candidate; cd_outcome := SUPERSEDES; cd_llm_call_made := false;
           cd_subject_key := subject_key; cd_notes := "sequential_non_overlapping" |}, false)
  else if overlap then escalate incoming candidate subject_key "interval_overlap"
  else ({| cd_candidate_id := ca_memory_id candidate; cd_outcome := NO_CONFLICT; cd_llm_call_made := false;
           cd_subject_key := subject_key; cd_notes := "non_overlapping_distinct_or_older" |}, false).

Definition count_true (l : list bool) : Z := Z.of_nat (length (List.filter (fun b => b) l)).

(** [ConflictService.evaluate]: the decisions and the model calls. *)
Definition evaluate (incoming : IncomingMemory) (candidates : list CandidateMemory) : list ConflictDecision * Z :=
  let subject := extract_subject_key nlp (im_content incoming) in
  let judged := decide_one incoming subject <$> candidates in
  (judged.*1, count_true (judged.*2)).

(** [_escalate_missing_validity]; [now] is the placeholder's start. *)
Definition escalate_missing_validity (content : pystr) (memory_id : option UUID) (now : Z) (candidates : list CandidateMemory)
    : list ConflictDecision * Z :=
  let placeholder := {| im_content := content; im_interval := {| iv_from := now; iv_until := None |}; im_memory_id := memory_id |} in
  let ds := (fun c => (escalate placeholder c [] "missing_validity").1) <$> candidates in
  (ds, count_true (cd_llm_call_made <$> ds)).
End Conflicts.

(** ** The context ([pipeline/context.py]) *)

Record PiiFinding := { pf_entity_type : string; pf_start : Z; pf_end : Z; pf_score : binary64 }.

Record Ctx := {
  cx_org_id : UUID;
  cx_content : pystr;
  cx_agent_id : option UUID;
  cx_status : string;
  cx_pii_detected : bool;
  cx_pii_redacted : bool;
  cx_findings : list PiiFinding;
  cx_quarantine_reason : option string;
  cx_embedding : option (list binary64);
  cx_content_hash : option string;
  cx_is_exact_duplicate : bool;
  cx_existing_memory_id : option UUID;
  cx_near_duplicate_candidates : list UUID;
  cx_valid_from : option Z;
  cx_valid_until : option Z;
  cx_conflict_decisions : list ConflictDecision;
  cx_conflict_llm_calls : Z;
  cx_pending_supersede_targets : list UUID;
  cx_pending_supersede_revisions : gmap UUID Z;
  cx_stop : bool;
  cx_error : option string;
}.

Definition new_ctx (org agent : UUID) (content : pystr) (valid_from valid_until : option Z) : Ctx :=
  {| cx_org_id := org; cx_content := content; cx_agent_id := Some agent; cx_status := "active"; cx_pii_detected := false;
     cx_pii_redacted := false; cx_findings := []; cx_quarantine_reason := None; cx_embedding := None; cx_content_hash := None;
     cx_is_exact_duplicate := false; cx_existing_memory_id := None; cx_near_duplicate_candidates := [];
     cx_valid_from := valid_from; cx_valid_until := valid_until; cx_conflict_decisions := []; cx_conflict_llm_calls := 0;
     cx_pending_supersede_targets := []; cx_pending_supersede_revisions := ∅; cx_stop := false; cx_error := None |}.

Definition stop_with (error : string) (x : Ctx) : Ctx :=
  {| cx_org_id := cx_org_id x; cx_content := cx_content x; cx_agent_id := cx_agent_id x; cx_status := cx_status x;
     cx_pii_detected := cx_pii_detected x; cx_pii_redacted := cx_pii_redacted x; cx_findings := cx_findings x;
     cx_quarantine_reason := cx_quarantine_reason x; cx_embedding := cx_embedding x; cx_content_hash := cx_content_hash x;
     cx_is_exact_duplicate := cx_is_exact_duplicate x; cx_existing_memory_id := cx_existing_memory_id x;
     cx_near_duplicate_candidates := cx_near_duplicate_candidates x; cx_valid_from := cx_valid_from x;
     cx_valid_until := cx_valid_until x; cx_conflict_decisions := cx_conflict_decisions x;
     cx_conflict_llm_calls := cx_conflict_llm_calls x; cx_pending_supersede_targets := cx_pending_supersede_targets x;
     cx_pending_supersede_revisions := cx_pending_supersede_revisions x; cx_stop := true; cx_error := Some error |}.

Record PiiProcessResult := {
  pr_findings : list PiiFinding;
  pr_content : pystr;
  pr_pii_detected : bool;
  pr_pii_redacted : bool;
  pr_status : string;
  pr_quarantine_reason : option string;
}.

Definition with_pii (r : PiiProcessResult) (x : Ctx) : Ctx :=
  {| cx_org_id := cx_org_id x; cx_content := pr_content r; cx_agent_id := cx_agent_id x; cx_status := pr_status r;
     cx_pii_detected := pr_pii_detected r; cx_pii_redacted := pr_pii_redacted r; cx_findings := pr_findings r;
     cx_quarantine_reason := pr_quarantine_reason r; cx_embedding := cx_embedding x; cx_content_hash := cx_content_hash x;
     cx_is_exact_duplicate := cx_is_exact_duplicate x; cx_existing_memory_id := cx_existing_memory_id x;
     cx_near_duplicate_candidates := cx_near_duplicate_candidates x; cx_valid_from := cx_valid_from x;
     cx_valid_until := cx_valid_until x; cx_conflict_decisions := cx_conflict_decisions x;
     cx_conflict_llm_calls := cx_conflict_llm_calls x; cx_pending_supersede_targets := cx_pending_supersede_targets x;
     cx_pending_supersede_revisions := cx_pending_supersede_revisions x;
     cx_stop := (cx_stop x || String.eqb (pr_status r) "quarantined")%bool; cx_error := cx_error x |}.

(** The hash, and the memory that has it already. *)
Definition with_hash (h : string) (existing : option UUID) (x : Ctx) : Ctx :=
  {| cx_org_id := cx_org_id x; cx_content := cx_content x; cx_agent_id := cx_agent_id x; cx_status := cx_status x;
     cx_pii_detected := cx_pii_detected x; cx_pii_redacted := cx_pii_redacted x; cx_findings := cx_findings x;
     cx_quarantine_reason := cx_quarantine_reason x; cx_embedding := cx_embedding x; cx_content_hash := Some h;
     cx_is_exact_duplicate := (cx_is_exact_duplicate x || bool_decide (is_Some existing))%bool;
     cx_existing_memory_id := match existing with Some i => Some i | None => cx_existing_memory_id x end;
     cx_near_duplicate_candidates := cx_near_duplicate_candidates x; cx_valid_from := cx_valid_from x;
     cx_valid_until := cx_valid_until x; cx_conflict_decisions := cx_conflict_decisions x;
     cx_conflict_llm_calls := cx_conflict_llm_calls x; cx_pending_supersede_targets := cx_pending_supersede_targets x;
     cx_pending_supersede_revisions := cx_pending_supersede_revisions x;
     cx_stop := (cx_stop x || bool_decide (is_Some existing))%bool; cx_error := cx_error x |}.

Definition with_embedding (v : list binary64) (x : Ctx) : Ctx :=
  {| cx_org_id := cx_org_id x; cx_content := cx_content x; cx_agent_id := cx_agent_id x; cx_status := cx_status x;
     cx_pii_detected := cx_pii_detected x; cx_pii_redacted := cx_pii_redacted x; cx_findings := cx_findings x;
     cx_quarantine_reason := cx_quarantine_reason x; cx_embedding := Some v; cx_content_hash := cx_content_hash x;
     cx_is_exact_duplicate := cx_is_exact_duplicate x; cx_existing_memory_id := cx_existing_memory_id x;
     cx_near_duplicate_candidates := cx_near_duplicate_candidates x; cx_valid_from := cx_valid_from x;
     cx_valid_until := cx_valid_until x; cx_conflict_decisions := cx_conflict_decisions x;
     cx_conflict_llm_calls := cx_conflict_llm_calls x; cx_pending_supersede_targets := cx_pending_supersede_targets x;
     cx_pending_supersede_revisions := cx_pending_supersede_revisions x; cx_stop := cx_stop x; cx_error := cx_error x |}.

Definition with_candidates (ids : list UUID) (x : Ctx) : Ctx :=
  {| cx_org_id := cx_org_id x; cx_content := cx_content x; cx_agent_id := cx_agent_id x; cx_status := cx_status x;
     cx_pii_detected := cx_pii_detected x; cx_pii_redacted := cx_pii_redacted x; cx_findings := cx_findings x;
     cx_quarantine_reason := cx_quarantine_reason x; cx_embedding := cx_embedding x; cx_content_hash := cx_content_hash x;
     cx_is_exact_duplicate := cx_is_exact_duplicate x; cx_existing_memory_id := cx_existing_memory_id x;
     cx_near_duplicate_candidates := ids; cx_valid_from := cx_valid_from x;
     cx_valid_until := cx_valid_until x; cx_conflict_decisions := cx_conflict_decisions x;
     cx_conflict_llm_calls := cx_conflict_llm_calls x; cx_pending_supersede_targets := cx_pending_supersede_targets x;
     cx_pending_supersede_revisions := cx_pending_supersede_revisions x; cx_stop := cx_stop x; cx_error := cx_error x |}.

Definition with_decisions (ds : list ConflictDecision) (calls : Z) (targets : list UUID) (revisions : gmap UUID Z) (x : Ctx) : Ctx :=
  {| cx_org_id := cx_org_id x; cx_content := cx_content x; cx_agent_id := cx_agent_id x; cx_status := cx_status x;
     cx_pii_detected := cx_pii_detected x; cx_pii_redacted := cx_pii_redacted x; cx_findings := cx_findings x;
     cx_quarantine_reason := cx_quarantine_reason x; cx_embedding := cx_embedding x; cx_content_hash := cx_content_hash x;
     cx_is_exact_duplicate := cx_is_exact_duplicate x; cx_existing_memory_id := cx_existing_memory_id x;
     cx_near_duplicate_candidates := cx_near_duplicate_candidates x; cx_valid_from := cx_valid_from x;
     cx_valid_until := cx_valid_until x; cx_conflict_decisions := ds; cx_conflict_llm_calls := calls;
     cx_pending_supersede_targets := targets; cx_pending_supersede_revisions := revisions; cx_stop := cx_stop x;
     cx_error := cx_error x |}.

(** What the write transaction takes from the context. *)
Definition to_write_context (x : Ctx) : WriteContext :=
  {| wc_content := cx_content x; wc_status := cx_status x; wc_pii_detected := cx_pii_detected x;
     wc_pii_redacted := cx_pii_redacted x; wc_content_hash := cx_content_hash x; wc_valid_from := cx_valid_from x;
     wc_valid_until := cx_valid_until x; wc_decisions := cx_conflict_decisions x;
     wc_supersede_targets := cx_pending_supersede_targets x; wc_supersede_revisions := cx_pending_supersede_revisions x;
     wc_exact_duplicate := if cx_is_exact_duplicate x then Some (cx_existing_memory_id x) else None;
     wc_error := cx_error x |}.

(** ** Stages *)

Record PipelineSettings := {
  max_content_chars : Z;
  pii_redact_min_confidence : binary64;
  dedup_exact_enabled : bool;
  near_duplicate_sim_threshold : binary64;
  near_duplicate_candidate_limit : Z;
  conflict_detection_enabled : bool;
  pl_hnsw_ef_search : Z;
  embedder_max_retries : Z;
}.

Inductive PipeExn := PxClient (e : ClientError) | PxStore (e : Error) | PxSearch (e : ReadError) | PxValueError | PxDatabase.

(** The statements of a write, in order. *)
Inductive Step := AtLookup | AtBump | AtSearch | AtLoad | AtWrite | AtIndex.

(** One write: what other transactions do before each statement, which statements
    reach the database, the clocks, the index and the embedder. *)
Record PipelineEnv := {
  pe_others : Step -> list Op;
  pe_db_ok : Step -> bool;
  pe_clock : Step -> Clock;
  pe_now : Z;
  pe_index : list (UUID * binary64);
  pe_posts : nat -> HttpOutcome;
  pe_id : UUID;
  pe_races : (DB -> DB) * (DB -> DB);
}.

(** The tables, and the texts handed to the embedder so far. *)
Record World := { w_db : DB; w_embedded : list pystr }.

Definition with_db (d : DB) (w : World) : World := {| w_db := d; w_embedded := w_embedded w |}.

Definition NIL_UUID : UUID := "00000000-0000-0000-0000-000000000000".

Section Pipeline.
Context `{UnicodeDB, ConflictClassifier} (u_digit : Z -> bool) (nlp : pystr -> Doc) (sha256 : bytes -> string).
(** Presidio: what it finds in a text, and the text with the findings replaced. *)
Context (analyze : pystr -> list PiiFinding) (anonymize : pystr -> list PiiFinding -> pystr).
Context (st : PipelineSettings) (env : PipelineEnv).

(** [normalize_content]; the hash of a text that UTF-8 cannot encode is never
    taken. *)
Definition normalize_content (s : pystr) : pystr := u_lower (collapse_space false (strip_space s)).
Definition content_hash_of (s : pystr) : option string := sha256 <$> utf8_encode (normalize_content s).
Definition content_hash_sha256 (s : pystr) : string := default "" (content_hash_of s).

Abbreviation Stage := (Ctx -> World -> result PipeExn Ctx * World).

(** The tables as a statement meets them. *)
Definition visit (s : Step) (w : World) : World := with_db (run_ops content_hash_sha256 (pe_others env s) (w_db w)) w.

Definition validate_content (content : pystr) (max_chars : Z) : option string :=
  if (bool_decide (content = []) || bool_decide (strip_space content = []))%bool then Some "content_empty"%string
  else if max_chars <? Z.of_nat (length content) then Some "content_too_long"%string
  else None.

Definition validate_stage : Stage := fun x w =>
  (Ok match validate_content (cx_content x) (max_content_chars st) with Some e => stop_with e x | None => x end, w).

(** [PiiService.process] *)
Definition process (content : pystr) : PiiProcessResult :=
  let findings := analyze content in
  let threshold := pii_redact_min_confidence st in
  match findings with
  | [] => {| pr_findings := []; pr_content := content; pr_pii_detected := false; pr_pii_redacted := false;
             pr_status := "active"; pr_quarantine_reason := None |}
  | _ =>
      if existsb (fun f => f_ltb (pf_score f) threshold) findings
      then {| pr_findings := findings; pr_content := content; pr_pii_detected := true; pr_pii_redacted := false;
              pr_status := "quarantined"; pr_quarantine_reason := Some "pii_low_confidence"%string |}
      else {| pr_findings := findings; pr_content := anonymize content findings; pr_pii_detected := true;
              pr_pii_redacted := existsb (fun f => SFleb threshold (pf_score f)) findings;
              pr_status := "active"; pr_quarantine_reason := None |}
  end.

Definition pii_stage : Stage := fun x w => (Ok (with_pii (process (cx_content x)) x), w).

(** [DedupService.check_exact] *)
Definition exact_dedup_stage : Stage := fun x w =>
  match cx_agent_id x with
  | None => (Ok (stop_with "agent_id_required" x), w)
  | Some agent =>
      match content_hash_of (cx_content x) with
      | None => (Raise PxValueError, w)
      | Some h =>
          if negb (dedup_exact_enabled st) then (Ok (with_hash h None x), w)
          else if negb (pe_db_ok env AtLookup) then (Raise PxDatabase, w)
          else
            let w := visit AtLookup w in
            match find_active_by_content_hash (cx_org_id x) agent h (w_db w) with
            | None => (Ok (with_hash h None x), w)
            | Some existing =>
                if negb (pe_db_ok env AtBump) then (Raise PxDatabase, w)
                else
                  let w := visit AtBump w in
                  match transaction (increment_retrieval_count_session (pe_clock env AtBump) (cx_org_id x) existing) (w_db w) with
                  | (Ok _, d) => (Ok (with_hash h (Some existing) x), with_db d w)
                  | (Raise e, d) => (Raise (PxStore e), with_db d w)
                  end
            end
      end
  end.

(** [EmbedStage] with [build_embedding_callable]. *)
Definition embed_stage : Stage := fun x w =>
  let w := {| w_db := w_db w; w_embedded := w_embedded w ++ [cx_content x] |} in
  match embed u_digit (embedder_max_retries st) (pe_posts env) [cx_content x] with
  | Raise e => (Raise (PxClient e), w)
  | Ok r => match vectors r with v :: _ => (Ok (with_embedding v x), w) | [] => (Raise PxValueError, w) end
  end.

(** [SEARCH_SQL] for historical candidates: no condition on validity or expiry. *)
Definition historical_sql (d : DB) (r : SearchRequest) (threshold : binary64) (scan : list (UUID * binary64))
    : list (UUID * binary64) :=
  let eligible := List.filter (fun h : UUID * binary64 =>
    match memories d !! h.1 with
    | None => false
    | Some m => (in_scope (sr_org_id r) (sr_agent_id r) m && live_active m && bool_decide (is_Some (embedding m)))%bool
    end) scan in
  let ranked := List.filter (fun h => pg_geb h.2 threshold) (take (Z.to_nat (sr_limit r)) eligible) in
  py_sorted (key_ltb (fun h => b64_sub (b64_of_Z 1) h.2) f_ltb) ranked.

(** [HistoricalConflictCapability.search] and [PgVectorStore.search] *)
Definition historical_search (d : DB) (r : SearchRequest) : result ReadError (list (UUID * binary64)) :=
  raise_if (String.eqb (sr_org_id r) NIL_UUID || String.eqb (sr_agent_id r) NIL_UUID)%bool with ReadRank.ValueError ;;
  let* _ := validate_search_request r in
  raise_if pl_hnsw_ef_search st <? 1 with ReadRank.ValueError ;;
  rmap search_hit (historical_sql d r (default f_zero (sr_min_similarity r)) (pe_index env)).

(** [NearDedupStage] with [find_near_duplicates]: strictly above the threshold. *)
Definition near_dedup_stage : Stage := fun x w =>
  match cx_agent_id x, cx_embedding x with
  | None, _ => (Ok (stop_with "agent_id_required" x), w)
  | Some _, None => (Ok (stop_with "embedding_required" x), w)
  | Some agent, Some v =>
      if negb (pe_db_ok env AtSearch) then (Raise PxDatabase, w) else
      let w := visit AtSearch w in
      let threshold := near_duplicate_sim_threshold st in
      match historical_search (w_db w)
              {| sr_org_id := cx_org_id x; sr_agent_id := agent; sr_embedding := v;
                 sr_limit := near_duplicate_candidate_limit st; sr_min_similarity := Some threshold |} with
      | Raise e => (Raise (PxSearch e), w)
      | Ok hits => (Ok (with_candidates (fst <$> List.filter (fun h => f_ltb threshold h.2) hits) x), w)
      end
  end.

(** One row of [load_candidate_memories] *)
Definition candidate_of (org agent : UUID) (d : DB) (i : UUID) : result PipeExn (option CandidateMemory) :=
  match memories d !! i with
  | Some m =>
      if (in_scope org agent m && live_active m)%bool then
        match validity_interval (valid_from (life m)) (valid_until (life m)) with
        | None => Raise PxValueError
        | Some iv =>
            if ((confidence (life m) <? 0) || (100 <? confidence (life m)) || (lifecycle_revision m <? 1))%bool
            then Raise PxValueError
            else Ok (Some {| ca_memory_id := i; ca_content := content (life m); ca_interval := iv;
                             ca_confidence := confidence (life m); ca_lifecycle_revision := lifecycle_revision m |})
        end
      else Ok None
  | None => Ok None
  end.

Definition load_candidate_memories (org agent : UUID) (ids : list UUID) (d : DB) : result PipeExn (list CandidateMemory) :=
  let* rows := rmap (candidate_of org agent d) ids in Ok (omap id rows).

(** The last part of [ConflictStage.process]. *)
Definition record_decisions (ds : list ConflictDecision) (calls : Z) (candidates : list CandidateMemory) (x : Ctx) : Ctx :=
  let targets := cd_candidate_id <$> List.filter (fun d => bool_decide (cd_outcome d = SUPERSEDES)) ds in
  let observed : gmap UUID Z := foldl (fun o c => <[ca_memory_id c := ca_lifecycle_revision c]> o) ∅ candidates in
  with_decisions ds calls targets (filter (fun kv => kv.1 ∈ targets) observed) x.

Definition conflict_stage : Stage := fun x w =>
  if (negb (conflict_detection_enabled st) || bool_decide (cx_near_duplicate_candidates x = []))%bool then (Ok x, w) else
  match cx_agent_id x with
  | None => (Ok (stop_with "agent_id_required" x), w)
  | Some agent =>
      if negb (pe_db_ok env AtLoad) then (Raise PxDatabase, w) else
      let w := visit AtLoad w in
      match load_candidate_memories (cx_org_id x) agent (cx_near_duplicate_candidates x) (w_db w) with
      | Raise e => (Raise e, w)
      | Ok [] => (Ok x, w)
      | Ok candidates =>
          match cx_valid_from x with
          | None =>
              let '(ds, calls) := escalate_missing_validity (cx_content x) (cx_existing_memory_id x) (pe_now env) candidates in
              (Ok (record_decisions ds calls candidates x), w)
          | Some from =>
              match validity_interval from (cx_valid_until x) with
              | None => (Raise PxValueError, w)
              | Some iv =>
                  let '(ds, calls) := evaluate nlp {| im_content := cx_content x; im_interval := iv;
                                                      im_memory_id := cx_existing_memory_id x |} candidates in
                  (Ok (record_decisions ds calls candidates x), w)
              end
          end
      end
  end.

(** ** The pipeline and the orchestrator *)

(** [WritePipeline.run] *)
Fixpoint run_stages (stages : list Stage) (x : Ctx) (w : World) : result PipeExn Ctx * World :=
  match stages with
  | [] => (Ok x, w)
  | s :: stages =>
      if cx_stop x then (Ok x, w) else
      match s x w with
      | (Ok x, w) => run_stages stages x w
      | (Raise e, w) => (Raise e, w)
      end
  end.

(** [build_write_pipeline] *)
Definition write_stages : list Stage :=
  [validate_stage; pii_stage; exact_dedup_stage; embed_stage; near_dedup_stage; conflict_stage].

(** [_run_pipeline] *)
Definition run_pipeline (cmd : CreateMemoryCommand) (content : pystr) (w : World) : result PipeExn Ctx * World :=
  run_stages write_stages
    (new_ctx (cm_org_id cmd) (cm_agent_id cmd) content (Some (default (pe_now env) (cm_valid_from cmd))) (cm_valid_until cmd)) w.

(** [_is_embedding_failure] compares the name of the class, not its bases. *)
Definition is_embedding_failure (e : PipeExn) : bool :=
  match e with
  | PxClient ClientTimeout | PxClient (ClientUnavailable _) | PxClient ClientRejected => true
  | _ => false
  end.

(** The persistence half of [create]. *)
Definition persist (cmd : CreateMemoryCommand) (x : Ctx) (w : World) : result WriteError Memory * World :=
  let w := visit AtWrite w in
  match MemoryStore.create content_hash_sha256 (pe_races env) (pe_clock env AtWrite) (pe_id env) cmd (to_write_context x) (w_db w) with
  | (Ok m, d) => (Ok m, with_db d w)
  | (Raise e, d) => (Raise (StoreError e), with_db d w)
  end.

(** [AfterCommitHandler] on the vector index: a created memory gets its embedding at
    the revision it was created at; every failure is logged. *)
Definition index_created (x : Ctx) (m : Memory) (w : World) : World :=
  match cx_embedding x with
  | Some v =>
      if (String.eqb (cx_status x) "quarantined" || negb (pe_db_ok env AtIndex)
          || negb (Z.of_nat (length v) =? EMBEDDING_DIM) || (lifecycle_revision m <? 1))%bool then w
      else
        let w := visit AtIndex w in
        with_db (transaction (write_embedding (pe_clock env AtIndex) (org_id (life m)) (pe_id env)
                                (Some ("bge-m3"%string, EMBEDDING_DIM)) (lifecycle_revision m)) (w_db w)).2 w
  | None => w
  end.

(** [MemoryWriteOrchestrator.create]: the result, the tables as the transaction left
    them, and as the work after the commit left them. *)
Definition write (cmd : CreateMemoryCommand) (content : pystr) (w : World) : result WriteError Memory * World * World :=
  match run_pipeline cmd content w with
  | (Raise e, w) => (Raise (if is_embedding_failure e then EmbeddingServiceError else OtherException), w, w)
  | (Ok x, w) =>
      match persist cmd x w with
      | (Ok m, w) => (Ok m, w, index_created x m w)
      | (Raise e, w) => (Raise e, w, w)
      end
  end.
End Pipeline.
