(* ===== verification/WriteEffects.v ===== *)
(** * What a write does ([WritePipeline] and the write transaction of [MemoryStore])

    Which text leaves the service and which text is stored, which other memories a
    write may change, and what the vector index gets. *)

From Stdlib Require Import SpecFloat.
From S2P Require Import Prelude PyText Num Idempotency MemoryStore PiiGuard ReadRank MemoryRead ModelClients CreateMemory WritePipeline.

(** ** The transaction *)

(** Two lifecycle states that differ in the category at most: labels choose it. *)
Record same_but_category (l l' : Life) : Prop := {
  sc_org : org_id l' = org_id l;
  sc_agent : agent_id l' = agent_id l;
  sc_content : content l' = content l;
  sc_status : status l' = status l;
  sc_from : valid_from l' = valid_from l;
  sc_pii : pii_redacted l' = pii_redacted l;
}.

#[local] Instance same_but_category_preorder : PreOrder same_but_category.
Proof. split; [by split|]. intros a b c [] []. split; congruence. Qed.

(** An update of one row: the others stay. *)
Lemma update_memory_frame i cond f d r d' : update_memory i cond f d = Ok (r, d') ->
  forall t, t <> i -> memories d' !! t = memories d !! t.
Proof.
  intros Hu%update_memory_Ok t Ht. destruct r as [m'|].
  - destruct Hu as (m & _ & _ & _ & -> & _). cbn. by rewrite lookup_insert_ne.
  - by destruct Hu as [-> _].
Qed.

(** Labels touch the labelled row only, and only its category. *)
Definition label_effect (i : UUID) (d d' : DB) : Prop :=
  (forall t, t <> i -> memories d' !! t = memories d !! t) /\
  (forall m, memories d !! i = Some m -> exists m', memories d' !! i = Some m' /\ same_but_category (life m) (life m')).

Lemma insert_label_effect org i lc d x d' : insert_label org i lc d = Ok (x, d') -> label_effect i d d'.
Proof.
  unfold insert_label, sync_memory_primary_category. intros (x1 & d1 & Hl & Hs)%tbind_Ok.
  assert (memories d1 = memories d) as Hm by (repeat case_match; by simplify_eq). unfold label_effect. rewrite <- Hm.
  apply tbind_Ok in Hs as (lab & d2 & [= <- <-] & Hs). destruct (primary_label _ _) as [l|].
  - apply tbind_Ok in Hs as (r & d3 & Hu & Hs). injection Hs as _ <-.
    split; [by eapply update_memory_frame|]. intros m Hmi. apply update_memory_Ok in Hu. destruct r as [m'|].
    + destruct Hu as (m0 & Hm0 & _ & Hb & -> & _). rewrite Hmi in Hm0. injection Hm0 as <-.
      apply bump_memory_le in Hb as (_ & Hlife & _). cbn. rewrite lookup_insert_eq. exists m'. split; [done|].
      rewrite Hlife. by split.
    + destruct Hu as [-> _]. by exists m.
  - injection Hs as _ <-. split; [done|]. intros m Hmi. by exists m.
Qed.

Lemma insert_labels_effect org i ls d x d' : insert_labels_session org i ls d = Ok (x, d') -> label_effect i d d'.
Proof.
  revert d. induction ls as [|lc ls IH]; intros d; unfold insert_labels_session; cbn [tfor].
  - intros [= _ <-]. split; [done|]. intros m Hm. by exists m.
  - intros (x1 & d1 & H1 & H2)%tbind_Ok. apply insert_label_effect in H1 as [F1 R1]. apply IH in H2 as [F2 R2].
    split; [intros t Ht; by rewrite F2, F1|]. intros m Hm. destruct (R1 m Hm) as (m1 & Hm1 & S1), (R2 m1 Hm1) as (m2 & Hm2 & S2).
    exists m2. split; [done|]. by etrans.
Qed.

(** One supersession: it meets a live row of the same agent at the expected
    revision, and changes no other. *)
Lemma supersede_effect c a d x d' : apply_supersession_session c a d = Ok (x, d') ->
  sa_target_id a <> sa_new_memory_id a /\
  (forall t, t <> sa_target_id a -> memories d' !! t = memories d !! t) /\
  exists m m', memories d !! sa_target_id a = Some m /\ memories d' !! sa_target_id a = Some m' /\
    in_scope (sa_org_id a) (sa_agent_id a) m = true /\ live_active m = true /\ lifecycle_revision m = sa_expected_revision a /\
    life m' = life (supersede (sa_new_memory_id a) (default (py_now c) (sa_closed_at a)) (now c) m).
Proof.
  intros Hs. pose proof (supersede_Ok _ _ _ _ _ Hs) as (_ & Hne & _). split; [congruence|].
  unfold apply_supersession_session in Hs. apply tbind_Ok in Hs as ([] & d1 & Hlock & Hs). apply lock_Ok in Hlock as ->.
  apply tbind_Ok in Hs as ([m'|] & d1 & Hu & Hs); [|done]. pose proof (update_memory_frame _ _ _ _ _ _ Hu) as Hframe.
  apply update_memory_Ok in Hu as (m & Hm & Hc & Hb & -> & _). apply bump_memory_le in Hb as (_ & Hlife & _).
  apply tbind_Ok in Hs as ([] & d2 & Hrel & Hs). apply relationship_Ok in Hrel as (_ & Hmem & _).
  apply enqueue_Ok in Hs as (_ & _ & ->). cbn in *. rewrite Hmem. split; [done|]. exists m, m'.
  rewrite lookup_insert_eq. apply andb_prop in Hc as [[Hsc Hla]%andb_prop Hr%Z.eqb_eq]. done.
Qed.

Section Transaction.
Context `{UnicodeDB} (hash : pystr -> string) (c : Clock) (i : UUID) (cmd : CreateMemoryCommand) (ctx : WriteContext).

(** How a write supersedes a row. *)
Definition superseded_in (t : UUID) (old new : Memory) : Prop :=
  t ∈ wc_supersede_targets ctx /\ wc_supersede_revisions ctx !! t = Some (lifecycle_revision old) /\
  in_scope (cm_org_id cmd) (cm_agent_id cmd) old = true /\ live_active old = true /\
  life new = life (supersede i (py_now c) (now c) old).

(** Every row of [d] is in [d'] as it was, or superseded, and no other row but
    the new one appears. *)
Definition frame (d d' : DB) : Prop :=
  (forall t old, memories d !! t = Some old ->
     memories d' !! t = Some old \/ exists new, memories d' !! t = Some new /\ superseded_in t old new) /\
  (forall t, t <> i -> memories d !! t = None -> memories d' !! t = None).

Lemma superseded_inactive t old new : superseded_in t old new -> live_active new = false.
Proof. intros (_ & _ & _ & _ & Hl). unfold live_active, hash_indexed. by rewrite Hl. Qed.

Lemma supersede_loop ts d0 d x d' :
  (forall t, t ∈ ts -> t ∈ wc_supersede_targets ctx) -> frame d0 d ->
  tfor ts (fun target =>
    match wc_supersede_revisions ctx !! target with
    | None => traise StaleMemoryRevisionError
    | Some r => apply_supersession_session c
                  {| sa_org_id := cm_org_id cmd; sa_agent_id := cm_agent_id cmd; sa_new_memory_id := i;
                     sa_target_id := target; sa_expected_revision := r; sa_confidence := 90; sa_closed_at := None |}
    end) d = Ok (x, d') ->
  frame d0 d' /\ memories d' !! i = memories d !! i.
Proof.
  revert d. induction ts as [|t ts IH]; intros d Hts Hd; cbn [tfor]; [by intros [= _ <-]|].
  intros (x1 & d1 & H1 & H2)%tbind_Ok. destruct (wc_supersede_revisions ctx !! t) as [r|] eqn:Hr; [|done].
  apply supersede_effect in H1 as (Hne & Hother & m & m' & Hm & Hm' & Hsc & Hla & Hrev & Hlife). cbn in *.
  destruct Hd as [Hd Hnew0].
  destruct (IH d1) as [Hf Hi]; [intros u Hu; apply Hts; by right| |done|].
  - split; intros u.
    + intros old Hu. destruct (decide (u = t)) as [->|Hut]; [|rewrite Hother by done; by apply Hd].
      right. destruct (Hd t old Hu) as [Hcur|(new & Hcur & Hnew)]; rewrite Hm in Hcur; injection Hcur as <-.
      * exists m'. split; [done|]. split_and!; [apply Hts; by left|by rewrite Hrev|done..].
      * apply superseded_inactive in Hnew. congruence.
    + intros Hui Hu. specialize (Hnew0 u Hui Hu). rewrite Hother; congruence.
  - split; [done|]. rewrite Hi. by apply Hother.
Qed.

Lemma escalations_same es d x d' : tfor es insert_escalation d = Ok (x, d') -> memories d' = memories d.
Proof.
  revert d. induction es as [|e es IH]; intros d; cbn [tfor]; [by intros [= _ <-]|].
  intros (x1 & d1 & H1 & H2)%tbind_Ok. apply IH in H2. rewrite H2. unfold insert_escalation in H1.
  repeat case_if; try done. by injection H1 as _ <-.
Qed.

Lemma fence_same f d x d' : require_extraction_session f d = Ok (x, d') -> d' = d.
Proof.
  unfold require_extraction_session. destruct (validate_session_fence_revision f) as [[s|]|e]; [|by intros [= _ <-]|done].
  intros (? & ? & [= <- <-] & Hf)%tbind_Ok. unfold tguard in Hf. case_if; [by injection Hf as _ <-|done].
Qed.

Lemma insert_effect d x d' : insert_memory_session hash c i cmd ctx d = Ok (x, d') ->
  memories d !! i = None /\ memories d' = <[i := memory_of hash cmd ctx c]> (memories d).
Proof.
  unfold insert_memory_session, store_memory. destruct (memories d !! i); [done|].
  destruct (violation _ _ _ _); [done|]. by intros [= _ <-].
Qed.

Lemma reload_effect org d m d' : reload_memory_session org i d = Ok (m, d') -> d' = d /\ memories d !! i = Some m.
Proof.
  unfold reload_memory_session. intros (r & d1 & [= <- <-] & Hr)%tbind_Ok.
  destruct (memories d !! i); [|done]. case_if; [|done]. by injection Hr as <- <-.
Qed.

(** The write transaction inserts one row, whose labels may choose its category,
    and changes no row but those it supersedes. *)
Definition created_in (d d' : DB) (m : Memory) : Prop :=
  memories d !! i = None /\ memories d' !! i = Some m /\
  same_but_category (life (memory_of hash cmd ctx c)) (life m) /\ frame d d'.

Lemma created_by_labels d d1 d2 x : memories d !! i = None ->
  memories d1 = <[i := memory_of hash cmd ctx c]> (memories d) ->
  insert_labels_session (cm_org_id cmd) i (cm_labels cmd) d1 = Ok (x, d2) ->
  frame d d2 /\ exists m, memories d2 !! i = Some m /\ same_but_category (life (memory_of hash cmd ctx c)) (life m).
Proof.
  intros Hnone Hins [Hother Hrow]%insert_labels_effect. split.
  - split; [intros t old Ht; left|intros t Hti Ht]; rewrite Hother by congruence;
      rewrite Hins, lookup_insert_ne; [done|congruence|done|congruence].
  - apply Hrow. by rewrite Hins, lookup_insert_eq.
Qed.

Lemma create_tx_effect d m d' : insert_active_memory_tx hash c i cmd ctx d = Ok (m, d') -> created_in d d' m.
Proof.
  unfold insert_active_memory_tx, apply_supersession_and_escalations.
  intros ([] & d1 & Hl%lock_Ok & Htx)%tbind_Ok. subst d1.
  apply tbind_Ok in Htx as ([] & d1 & Hf%fence_same & Htx). subst d1.
  apply tbind_Ok in Htx as ([] & d1 & (Hnone & Hins)%insert_effect & Htx).
  apply tbind_Ok in Htx as ([] & d2 & Hlab%labels_checked_Ok & Htx).
  apply tbind_Ok in Htx as ([] & d3 & Hconf & Htx). apply tbind_Ok in Hconf as ([] & d4 & Hloop & Hesc%escalations_same).
  apply tbind_Ok in Htx as (m1 & d5 & [-> Hm]%reload_effect & Htx).
  apply tbind_Ok in Htx as ([] & d6 & (_ & _ & ->)%enqueue_Ok & Htx). injection Htx as <- <-.
  destruct (created_by_labels d d1 d2 tt Hnone Hins Hlab) as (Hfr & m2 & Hm2 & Hs).
  apply (supersede_loop _ d) in Hloop as [Hfr' Hi]; [|done..].
  split; [done|]. cbn. split; [done|]. rewrite Hesc in Hm. rewrite Hi, Hm2 in Hm. injection Hm as <-.
  split; [done|]. unfold frame. cbn. by rewrite Hesc.
Qed.

Lemma quarantine_tx_effect d m d' : persist_quarantine hash c i cmd ctx d = Ok (m, d') ->
  created_in d d' m.
Proof.
  unfold persist_quarantine. intros ([] & d1 & Hl%lock_Ok & Htx)%tbind_Ok. subst d1.
  apply tbind_Ok in Htx as ([] & d1 & Hf%fence_same & Htx). subst d1.
  apply tbind_Ok in Htx as ([] & d1 & (Hnone & Hins)%insert_effect & Htx).
  apply tbind_Ok in Htx as ([] & d2 & Hlab & Htx).
  apply tbind_Ok in Htx as (m1 & d5 & [-> Hm]%reload_effect & Htx).
  apply tbind_Ok in Htx as ([] & d6 & (_ & _ & ->)%enqueue_Ok & Htx). injection Htx as <- <-.
  destruct (created_by_labels d d1 d2 tt Hnone Hins Hlab) as (Hfr & m2 & Hm2 & Hs).
  split; [done|]. cbn. split; [done|]. rewrite Hm2 in Hm. by injection Hm as <-.
Qed.

(** [create], when it returns. *)
Lemma create_effect races d m d' : MemoryStore.create hash races c i cmd ctx d = (Ok m, d') ->
  created_in d d' m /\ wc_error ctx = None /\ wc_exact_duplicate ctx = None.
Proof.
  unfold MemoryStore.create, insert_active_memory. destruct (wc_error ctx); [done|].
  destruct (wc_exact_duplicate ctx) as [[]|]; [done..|]. intros Hc. split; [|done]. revert Hc.
  assert (forall (t : T Memory) r, transaction t d = r -> r = (Ok m, d') -> t d = Ok (m, d')) as Htx.
  { intros t r <-. unfold transaction. destruct (t d) as [[]|]; [|done]. by intros [= -> ->]. }
  case_if; [intros Hq; apply quarantine_tx_effect; by eapply Htx|].
  destruct (wc_content_hash ctx); [|done].
  destruct (transaction _ d) as [[m1|e] d1] eqn:Ht.
  - intros Hc. apply create_tx_effect. by eapply Htx.
  - destruct e; try done. case_if; [|done]. by destruct (handle_hash_race _ _ _ _ _) as [[] ?].
Qed.
End Transaction.

(** ** The stages *)

Section Effects.
Context `{UnicodeDB, ConflictClassifier} (u_digit : Z -> bool) (nlp : pystr -> Doc) (sha256 : bytes -> string).
Context (analyze : pystr -> list PiiFinding) (anonymize : pystr -> list PiiFinding -> pystr).
Context (st : PipelineSettings) (env : PipelineEnv).

Abbreviation hash := (content_hash_sha256 sha256).
Abbreviation process_ := (process analyze anonymize st).
Abbreviation run_pipeline_ := (run_pipeline u_digit nlp sha256 analyze anonymize st env).
Abbreviation write_ := (write u_digit nlp sha256 analyze anonymize st env).

(** What every stage but the redaction leaves alone. *)
Record kept (x x' : Ctx) : Prop := {
  k_org : cx_org_id x' = cx_org_id x;
  k_agent : cx_agent_id x' = cx_agent_id x;
  k_content : cx_content x' = cx_content x;
  k_status : cx_status x' = cx_status x;
  k_from : cx_valid_from x' = cx_valid_from x;
  k_until : cx_valid_until x' = cx_valid_until x;
}.

#[local] Instance kept_preorder : PreOrder kept.
Proof. split; [by split|]. intros a b c [] []. split; congruence. Qed.

Lemma visit_evolves s w : evolves (w_db w) (w_db (visit sha256 env s w)).
Proof. apply run_ops_evolves. Qed.

(** A stage that leaves the tables, the texts and the context as they were, up to
    other transactions and its own fields. *)
Definition tame (s : Ctx -> World -> result PipeExn Ctx * World) : Prop :=
  forall x w r w', s x w = (r, w') ->
    evolves (w_db w) (w_db w') /\ w_embedded w' = w_embedded w /\
    (forall x', r = Ok x' -> kept x x' /\ cx_pending_supersede_targets x' = cx_pending_supersede_targets x).

Lemma validate_tame : tame (validate_stage st).
Proof. intros x w r w' [= <- <-]. split; [done|]. split; [done|]. intros x' [= <-]. by case_match. Qed.

Lemma exact_dedup_tame : tame (exact_dedup_stage sha256 st env).
Proof.
  intros x w r w'. unfold exact_dedup_stage. destruct (cx_agent_id x) as [agent|].
  2: { intros [= <- <-]. split; [done|]. split; [done|]. by intros ? [= <-]. }
  destruct (content_hash_of _ _) as [h|]; [|by intros [= <- <-]].
  destruct (dedup_exact_enabled st); cbn [negb]; [|intros [= <- <-]; split; [done|]; split; [done|]; by intros ? [= <-]].
  destruct (pe_db_ok env AtLookup); cbn [negb]; [|by intros [= <- <-]].
  pose proof (visit_evolves AtLookup w) as H1. set (w1 := visit sha256 env AtLookup w) in *.
  destruct (find_active_by_content_hash _ _ _ _) as [e|].
  2: { intros [= <- <-]. split; [done|]. split; [done|]. by intros ? [= <-]. }
  destruct (pe_db_ok env AtBump); cbn [negb]; [|intros [= <- <-]; by split].
  pose proof (visit_evolves AtBump w1) as H2. set (w2 := visit sha256 env AtBump w1) in *.
  pose proof (transaction_evolves (increment_retrieval_count_session (pe_clock env AtBump) (cx_org_id x) e) (w_db w2)
    (steady_bump _ _ _)) as H3. unfold outcome in H3. cbn [snd] in H3.
  destruct (transaction _ _) as [[n|er] d]; intros [= <- <-]; (split; [by do 2 (etrans; [done|])|]); (split; [done|]);
    intros x' [= <-]; by split.
Qed.

Lemma near_dedup_tame : tame (near_dedup_stage sha256 st env).
Proof.
  intros x w r w'. unfold near_dedup_stage.
  destruct (cx_agent_id x) as [agent|]; [|intros [= <- <-]; split; [done|]; split; [done|]; by intros ? [= <-]].
  destruct (cx_embedding x) as [v|]; [|intros [= <- <-]; split; [done|]; split; [done|]; by intros ? [= <-]].
  destruct (pe_db_ok env AtSearch); cbn [negb]; [|by intros [= <- <-]].
  pose proof (visit_evolves AtSearch w) as H1. destruct (historical_search _ _ _ _);
    intros [= <- <-]; (split; [done|]); (split; [done|]); intros x' [= <-]; by split.
Qed.

(** What the conflict stage proposes to supersede: rows it has just loaded, of the
    same agent, live, at the revision it saw, on the same subject, begun before the
    new memory and not overlapping it. *)
Definition proposed (x : Ctx) (d : DB) (t : UUID) : Prop :=
  exists agent m from iv iv', cx_agent_id x = Some agent /\ memories d !! t = Some m /\
    in_scope (cx_org_id x) agent m = true /\ live_active m = true /\
    cx_pending_supersede_revisions x !! t = Some (lifecycle_revision m) /\
    cx_valid_from x = Some from /\ validity_interval from (cx_valid_until x) = Some iv /\
    validity_interval (valid_from (life m)) (valid_until (life m)) = Some iv' /\
    valid_from (life m) < from /\ intervals_overlap iv iv' = false /\
    subjects_match (extract_subject_key nlp (cx_content x)) (extract_subject_key nlp (content (life m))) = true.

Lemma candidate_of_Ok org agent d i c : candidate_of org agent d i = Ok (Some c) ->
  exists m, memories d !! i = Some m /\ in_scope org agent m = true /\ live_active m = true /\ ca_memory_id c = i /\
    ca_content c = content (life m) /\ ca_lifecycle_revision c = lifecycle_revision m /\
    validity_interval (valid_from (life m)) (valid_until (life m)) = Some (ca_interval c).
Proof.
  unfold candidate_of. destruct (memories d !! i) as [m|]; [|done].
  destruct (in_scope org agent m && live_active m)%bool eqn:Hc; [|done]. apply andb_prop in Hc as [? ?].
  destruct (validity_interval _ _) eqn:Hiv; [|done]. case_if; [done|]. intros [= <-]. by exists m.
Qed.

Lemma load_Ok org agent ids d cs : load_candidate_memories org agent ids d = Ok cs ->
  forall c, c ∈ cs -> candidate_of org agent d (ca_memory_id c) = Ok (Some c).
Proof.
  unfold load_candidate_memories. intros (rows & Hr & [= <-])%rbind_Ok c. apply rmap_Ok in Hr.
  induction Hr as [|j row ids rows Hj Hr IH]; [by intros Hc%not_elem_of_nil|].
  destruct row as [c'|]; cbn [omap list_omap id]; [|done]. intros [->|?]%elem_of_cons; [|by apply IH].
  destruct (candidate_of_Ok _ _ _ _ _ Hj) as (? & _ & _ & _ & -> & _). done.
Qed.

(** The observed revisions are those of the loaded rows. *)
Lemma observed_lookup (cs : list CandidateMemory) (o : gmap UUID Z) t r :
  foldl (fun o c => <[ca_memory_id c := ca_lifecycle_revision c]> o) o cs !! t = Some r ->
  o !! t = Some r \/ exists c, c ∈ cs /\ ca_memory_id c = t /\ ca_lifecycle_revision c = r.
Proof.
  revert o. induction cs as [|c cs IH]; intros o; cbn [foldl]; [by left|].
  intros [Ho|(c' & Hc & Hx)]%IH; [|right; exists c'; split; [by right|done]].
  apply lookup_insert_Some in Ho as [[<- <-]|[_ Ho]]; [|by left]. right. exists c. split; [by left|done].
Qed.

Lemma observed_total (cs : list CandidateMemory) (o : gmap UUID Z) t :
  is_Some (o !! t) \/ (exists c, c ∈ cs /\ ca_memory_id c = t) ->
  is_Some (foldl (fun o c => <[ca_memory_id c := ca_lifecycle_revision c]> o) o cs !! t).
Proof.
  revert o. induction cs as [|c cs IH]; intros o; cbn [foldl]; [intros [?|(c & Hc & _)]; [done|by apply not_elem_of_nil in Hc]|].
  intros Ho. apply IH. rewrite lookup_insert_is_Some'. destruct Ho as [?|(c' & [->|Hc]%elem_of_cons & <-)]; [by left; right|by left; left|].
  right. by exists c'.
Qed.

Lemma escalate_never_supersedes inc c key reason : cd_outcome (escalate inc c key reason).1 <> SUPERSEDES.
Proof. cbn. case_bool_decide; [done|]. done. Qed.

Lemma decide_supersedes inc subject c :
  cd_candidate_id (decide_one nlp inc subject c).1 = ca_memory_id c /\
  (cd_outcome (decide_one nlp inc subject c).1 = SUPERSEDES ->
   subjects_match subject (extract_subject_key nlp (ca_content c)) = true /\
   iv_from (ca_interval c) < iv_from (im_interval inc) /\ intervals_overlap (im_interval inc) (ca_interval c) = false).
Proof.
  unfold decide_one, is_sequential_supersede.
  destruct (subjects_match _ _), (Z.ltb_spec (iv_from (ca_interval c)) (iv_from (im_interval inc))),
    (intervals_overlap _ _); cbn [negb]; split; try done; by intros ?%escalate_never_supersedes.
Qed.

Lemma evaluate_targets inc cs d t :
  d ∈ (evaluate nlp inc cs).1 -> cd_outcome d = SUPERSEDES -> cd_candidate_id d = t ->
  exists c, c ∈ cs /\ ca_memory_id c = t /\
    subjects_match (extract_subject_key nlp (im_content inc)) (extract_subject_key nlp (ca_content c)) = true /\
    iv_from (ca_interval c) < iv_from (im_interval inc) /\ intervals_overlap (im_interval inc) (ca_interval c) = false.
Proof.
  unfold evaluate. cbn [fst]. intros (p & -> & (c & -> & Hc)%list_elem_of_fmap)%list_elem_of_fmap Ho <-.
  destruct (decide_supersedes inc (extract_subject_key nlp (im_content inc)) c) as [Hid Hs].
  exists c. split; [done|]. split; [done|]. by apply Hs.
Qed.

Lemma missing_validity_escalates content mid t cs d :
  d ∈ (escalate_missing_validity content mid t cs).1 -> cd_outcome d <> SUPERSEDES.
Proof. intros (c & -> & _)%list_elem_of_fmap. apply escalate_never_supersedes. Qed.

Lemma validity_interval_from from until iv : validity_interval from until = Some iv -> iv_from iv = from /\ iv_until iv = until.
Proof. unfold validity_interval. destruct until; [case_if; [done|]|]; by intros [= <-]. Qed.

Lemma record_decisions_spec ds calls cs x :
  let x' := record_decisions ds calls cs x in
  kept x x' /\
  (forall t, t ∈ cx_pending_supersede_targets x' -> exists d, d ∈ ds /\ cd_outcome d = SUPERSEDES /\ cd_candidate_id d = t) /\
  (forall c, c ∈ cs -> ca_memory_id c ∈ cx_pending_supersede_targets x' ->
     exists c', c' ∈ cs /\ ca_memory_id c' = ca_memory_id c /\
       cx_pending_supersede_revisions x' !! ca_memory_id c = Some (ca_lifecycle_revision c')).
Proof.
  cbn. split; [by split|]. split.
  - intros t (d & -> & [Hd Ho]%list_elem_of_In%filter_In)%list_elem_of_fmap.
    exists d. apply bool_decide_eq_true in Ho. by rewrite <- list_elem_of_In in Hd.
  - intros c Hc Ht.
    destruct (observed_total cs ∅ (ca_memory_id c)) as [r Hr]; [right; by exists c|].
    destruct (observed_lookup _ _ _ _ Hr) as [Hn|(c' & Hc' & Hid & <-)]; [by rewrite lookup_empty in Hn|].
    exists c'. split; [done|]. split; [done|]. apply map_lookup_filter_Some. by split.
Qed.

Lemma conflict_stage_effect x w r w' : conflict_stage nlp sha256 st env x w = (r, w') -> cx_pending_supersede_targets x = [] ->
  evolves (w_db w) (w_db w') /\ w_embedded w' = w_embedded w /\
  forall x', r = Ok x' -> kept x x' /\ forall t, t ∈ cx_pending_supersede_targets x' -> proposed x' (w_db w') t.
Proof.
  intros Hs Hnil. unfold conflict_stage in Hs.
  assert (forall x', Ok (E := PipeExn) x = Ok x' -> kept x x' /\ forall t, t ∈ cx_pending_supersede_targets x' -> proposed x' (w_db w') t) as Hsame.
  { intros x' [= <-]. split; [done|]. rewrite Hnil. by intros t ?%not_elem_of_nil. }
  destruct (_ || _)%bool; [injection Hs as <- <-; by split|].
  destruct (cx_agent_id x) as [agent|] eqn:Hagent.
  2: { injection Hs as <- <-. split; [done|]. split; [done|]. intros x' [= <-]. split; [by split|]. cbn. rewrite Hnil.
       by intros t ?%not_elem_of_nil. }
  destruct (pe_db_ok env AtLoad); cbn [negb] in Hs; [|injection Hs as <- <-; by split].
  pose proof (visit_evolves AtLoad w) as Hev. set (w1 := visit sha256 env AtLoad w) in *.
  destruct (load_candidate_memories _ _ _ _) as [cs|e] eqn:Hload; [|injection Hs as <- <-; by split].
  destruct cs as [|c0 cs0]; [injection Hs as <- <-; by split|]. set (cs := c0 :: cs0) in *.
  pose proof (load_Ok _ _ _ _ _ Hload) as Hrow.
  destruct (cx_valid_from x) as [from|] eqn:Hfrom.
  - destruct (validity_interval from (cx_valid_until x)) as [iv|] eqn:Hiv; [|injection Hs as <- <-; by split].
    set (inc := {| im_content := _ |}) in Hs. destruct (evaluate nlp inc cs) as [ds calls] eqn:He.
    injection Hs as <- <-. split; [done|]. split; [done|]. intros x' [= <-].
    destruct (record_decisions_spec ds calls cs x) as (Hk & Htargets & Hrevs). split; [done|]. intros t Ht.
    destruct (Htargets t Ht) as (dec & Hdec & Ho & Hid).
    destruct (evaluate_targets inc cs dec t) as (c & Hc & <- & Hsub & Hnew & Hov); [by rewrite He|done..|].
    destruct (Hrevs c Hc Ht) as (c' & Hc' & Hsame' & Hrev). pose proof (Hrow c Hc) as Hrc. pose proof (Hrow c' Hc') as Hrc'.
    rewrite Hsame', Hrc in Hrc'. injection Hrc' as <-.
    destruct (candidate_of_Ok _ _ _ _ _ Hrc) as (m & Hm & Hsc & Hla & _ & Hcont & Hlr & Hmiv).
    destruct Hk as [Ko Ka Kc _ Kf Ku]. exists agent, m, from, iv, (ca_interval c). rewrite Ko, Ka, Kc, Kf, Ku, Hrev, Hlr, <- Hcont.
    destruct (validity_interval_from _ _ _ Hiv) as [Hf1 _], (validity_interval_from _ _ _ Hmiv) as [Hf2 _].
    split_and!; try done. rewrite <- Hf1, <- Hf2. done.
  - destruct (escalate_missing_validity _ _ _ _) as [ds calls] eqn:He. injection Hs as <- <-.
    split; [done|]. split; [done|]. intros x' [= <-]. destruct (record_decisions_spec ds calls cs x) as (Hk & Htargets & _).
    split; [done|]. intros t (dec & Hdec & Ho & _)%Htargets. exfalso.
    apply (f_equal fst) in He. cbn [fst] in He. rewrite <- He in Hdec. by apply missing_validity_escalates in Hdec.
Qed.

(** ** The pipeline *)

Lemma exact_dedup_stops x w x' w' : exact_dedup_stage sha256 st env x w = (Ok x', w') -> cx_stop x = false ->
  cx_stop x' = true -> cx_error x' <> None \/ cx_is_exact_duplicate x' = true.
Proof.
  unfold exact_dedup_stage. intros Hs Hx. repeat case_match; simplify_eq/=; try (by left);
    rewrite ?Hx, ?orb_false_r; try done; by right; rewrite orb_true_r.
Qed.

Lemma near_dedup_stops x w x' w' : near_dedup_stage sha256 st env x w = (Ok x', w') -> cx_stop x = false ->
  cx_stop x' = true -> cx_error x' <> None.
Proof. unfold near_dedup_stage. intros Hs Hx. repeat case_match; simplify_eq/=; congruence. Qed.

(** What the pipeline hands over and what it has shown the embedder. *)
Definition handed_over (cmd : CreateMemoryCommand) (text : pystr) (w : World) (x : Ctx) (w' : World) : Prop :=
  let p := process_ text in
  cx_org_id x = cm_org_id cmd /\ cx_agent_id x = Some (cm_agent_id cmd) /\
  cx_content x = pr_content p /\ cx_status x = pr_status p /\
  cx_valid_from x = Some (default (pe_now env) (cm_valid_from cmd)) /\ cx_valid_until x = cm_valid_until cmd /\
  w_embedded w' = w_embedded w ++ (if String.eqb (pr_status p) "quarantined" then [] else [pr_content p]) /\
  (forall t, t ∈ cx_pending_supersede_targets x -> proposed x (w_db w') t).

Lemma run_pipeline_effect cmd text w r w' : run_pipeline_ cmd text w = (r, w') ->
  evolves (w_db w) (w_db w') /\
  (w_embedded w' = w_embedded w \/
   pr_status (process_ text) <> "quarantined"%string /\ w_embedded w' = w_embedded w ++ [pr_content (process_ text)]) /\
  forall x, r = Ok x -> cx_error x = None -> cx_is_exact_duplicate x = false -> handed_over cmd text w x w'.
Proof.
  unfold run_pipeline, write_stages. set (x0 := new_ctx _ _ _ _ _). cbn [run_stages]. change (cx_stop x0) with false. cbn match.
  unfold validate_stage at 1. change (cx_content x0) with text.
  destruct (validate_content text (max_content_chars st)) as [e|].
  { cbn [cx_stop stop_with]. intros [= <- <-]. split; [done|]. split; [by left|]. by intros x [= <-]. }
  change (cx_stop x0) with false. cbn match. unfold pii_stage at 1. change (cx_content x0) with text.
  set (p := process_ text). set (x2 := with_pii p x0). change (cx_stop x2) with (String.eqb (pr_status p) "quarantined").
  unfold handed_over. fold p. destruct (String.eqb_spec (pr_status p) "quarantined") as [Hq|Hq].
  { intros [= <- <-]. split; [done|]. split; [by left|]. intros x [= <-] _ _. rewrite app_nil_r.
    split_and!; try done. by intros t ?%not_elem_of_nil. }
  destruct (exact_dedup_stage sha256 st env x2 w) as [[x3|e] w3] eqn:H3; destruct (exact_dedup_tame _ _ _ _ H3) as (E3 & T3 & K3).
  2: { intros [= <- <-]. split; [done|]. split; [by left|]. done. }
  destruct (K3 x3 eq_refl) as [Kept3 Tg3]. destruct (cx_stop x3) eqn:Hstop3.
  { intros [= <- <-]. split; [done|]. split; [by left|]. intros x [= <-] He Hd.
    destruct (exact_dedup_stops _ _ _ _ H3) as [?|?]; [|done|done|congruence].
    change (cx_stop x2) with (String.eqb (pr_status p) "quarantined"). by apply String.eqb_neq. }
  unfold embed_stage at 1. set (w4 := {| w_db := w_db w3; w_embedded := _ |}).
  assert (w_embedded w4 = w_embedded w ++ [pr_content p]) as Hw4 by (cbn; by rewrite T3, (k_content _ _ Kept3)).
  destruct (embed _ _ _ _) as [er|e]; [destruct (vectors er) as [|v vs]|].
  1,3: intros [= <- <-]; (split; [done|]); (split; [by right|]); done.
  set (x4 := with_embedding v x3). assert (kept x2 x4) as Kept4 by (etrans; [done|by split]).
  change (cx_stop x4) with (cx_stop x3). rewrite Hstop3.
  destruct (near_dedup_stage sha256 st env x4 w4) as [[x5|e] w5] eqn:H5; destruct (near_dedup_tame _ _ _ _ H5) as (E5 & T5 & K5).
  2: { intros [= <- <-]. split; [by etrans|]. rewrite T5. split; [by right|]. done. }
  destruct (K5 x5 eq_refl) as [Kept5 Tg5]. destruct (cx_stop x5) eqn:Hstop5.
  { intros [= <- <-]. split; [by etrans|]. rewrite T5. split; [by right|]. intros x [= <-] He _.
    by apply near_dedup_stops in H5; [|done|done]. }
  destruct (conflict_stage nlp sha256 st env x5 w5) as [r6 w6] eqn:H6.
  destruct (conflict_stage_effect _ _ _ _ H6) as (E6 & T6 & K6); [by rewrite Tg5; cbn; rewrite Tg3|].
  assert (evolves (w_db w) (w_db w6)) as Hev by (do 2 (etrans; [done|]); done).
  destruct r6 as [x6|e]; intros [= <- <-]; (split; [done|]); rewrite T6, T5; (split; [by right|]); [|done].
  intros x [= <-] _ _. destruct (K6 x6 eq_refl) as [Kept6 Hprop].
  assert (kept x2 x6) as [Ko Ka Kc Ks Kf Ku] by (do 2 (etrans; [done|]); done). by split_and!.
Qed.

(** ** What leaves the service and what is stored *)

(** A text cleared of what Presidio found: nothing was found, or every finding was
    certain enough to be replaced and was. *)
Definition cleared (text t : pystr) : Prop :=
  (analyze text = [] /\ t = text) \/
  (analyze text <> [] /\ t = anonymize text (analyze text) /\
   forall f, f ∈ analyze text -> f_ltb (pf_score f) (pii_redact_min_confidence st) = false).

(** A doubtful finding. *)
Definition doubtful (text : pystr) : Prop :=
  exists f, f ∈ analyze text /\ f_ltb (pf_score f) (pii_redact_min_confidence st) = true.

Lemma process_spec text :
  (pr_status (process_ text) = "quarantined"%string /\ doubtful text) \/
  (pr_status (process_ text) = "active"%string /\ cleared text (pr_content (process_ text))).
Proof.
  unfold process, cleared, doubtful. destruct (analyze text) as [|f fs]; [right; split; [done|]; by left|].
  destruct (existsb _ (f :: fs)) eqn:He.
  - left. split; [done|]. apply existsb_exists in He as (g & Hg & Hs). exists g. by rewrite list_elem_of_In.
  - right. split; [done|]. right. split; [done|]. split; [done|]. intros g Hg%list_elem_of_In.
    destruct (f_ltb (pf_score g) _) eqn:Hs; [|done]. rewrite <- He. symmetry. apply existsb_exists. by exists g.
Qed.

(** The write, step by step: what it handed over, the tables the transaction met,
    and its effect on them. *)
Lemma write_course cmd text w m w1 w2 : write_ cmd text w = (Ok m, w1, w2) ->
  let judged := (run_pipeline_ cmd text w).2 in
  exists x, handed_over cmd text w x judged /\ w_embedded w1 = w_embedded judged /\
    evolves (w_db w) (w_db judged) /\ w2 = index_created sha256 env x m w1 /\
    created_in hash (pe_clock env AtWrite) (pe_id env) cmd (to_write_context x)
      (w_db (visit sha256 env AtWrite judged)) (w_db w1) m.
Proof.
  unfold write, persist. destruct (run_pipeline_ cmd text w) as [[x|e] w0] eqn:Hp; [|done].
  destruct (MemoryStore.create _ _ _ _ _ _ _) as [[m0|e0] d0] eqn:Hc; [|done]. intros [= <- <- <-]. cbn [snd].
  apply run_pipeline_effect in Hp as (Hev & _ & Hx). apply create_effect in Hc as (Hc & Herr & Hdup).
  exists x. cbn in Herr, Hdup. split_and!; try done.
  apply Hx; [done|done|]. by destruct (cx_is_exact_duplicate x).
Qed.

(** The text of a stored memory. *)
Lemma write_stored cmd text w m w1 w2 : write_ cmd text w = (Ok m, w1, w2) ->
  (status (life m) = "quarantined"%string /\ doubtful text /\ w_embedded w1 = w_embedded w) \/
  (status (life m) = "active"%string /\ cleared text (content (life m)) /\ w_embedded w1 = w_embedded w ++ [content (life m)]).
Proof.
  intros (x & Hx & He & _ & _ & Hc)%write_course.
  destruct Hx as (_ & _ & Hcont & Hst & _ & _ & Hemb & _), Hc as (_ & _ & [_ _ Sc Ss _ _] & _). cbn in Sc, Ss.
  rewrite Sc, Ss, Hcont, Hst, He, Hemb.
  destruct (process_spec text) as [[Hs ?]|[Hs ?]]; rewrite Hs; cbn; [left|right]; by rewrite ?app_nil_r.
Qed.

(** C13: Only cleared text leaves the service: whatever a write ends in, the embedder
    has been given nothing, or one text, in which every finding of the detector was
    certain and replaced.  A stored active memory holds exactly the text that was
    embedded; a memory with a doubtful finding is quarantined and never embedded. *)
Theorem only_cleared_text_leaves cmd text w res w1 w2 :
  write_ cmd text w = (res, w1, w2) ->
  (w_embedded w1 = w_embedded w \/ exists t, cleared text t /\ w_embedded w1 = w_embedded w ++ [t]) /\
  forall m, res = Ok m ->
    (status (life m) = "quarantined"%string /\ doubtful text /\ w_embedded w1 = w_embedded w) \/
    (status (life m) = "active"%string /\ cleared text (content (life m)) /\
     w_embedded w1 = w_embedded w ++ [content (life m)]).
Proof.
  intros Hw. split.
  - unfold write, persist in Hw. destruct (run_pipeline_ cmd text w) as [r w0] eqn:Hp.
    apply run_pipeline_effect in Hp as (_ & Ht & _).
    assert (w_embedded w1 = w_embedded w0) as ->.
    { destruct r as [x|e]; [|by injection Hw as _ <- _].
      destruct (MemoryStore.create _ _ _ _ _ _ _) as [[m0|e0] d0]; by injection Hw as _ <- _. }
    destruct Ht as [?|[Hq Ht]]; [by left|]. right. exists (pr_content (process_ text)). split; [|done].
    by destruct (process_spec text) as [[? _]|[_ ?]].
  - intros m ->. by eapply write_stored.
Qed.

(** ** Which memories a write supersedes *)

(** Two intervals that do not overlap, the second begun before the first: it has
    ended when the first begins. *)
Lemma ended_before from until iv from' until' iv' :
  validity_interval from until = Some iv -> validity_interval from' until' = Some iv' ->
  from' < from -> from < OPEN -> intervals_overlap iv iv' = false -> exists u, until' = Some u /\ u <= from.
Proof.
  intros Hiv Hiv' Hlt Hopen Hov. destruct (validity_interval_from _ _ _ Hiv) as [F1 U1], (validity_interval_from _ _ _ Hiv') as [F2 U2].
  unfold intervals_overlap, end_exclusive in Hov. rewrite F1, F2, U1, U2 in Hov.
  apply andb_false_iff in Hov as [Hov%Z.ltb_ge|Hov%Z.ltb_ge].
  - destruct until' as [u|]; cbn in Hov; [by exists u|lia].
  - destruct until as [u|]; cbn in Hov; [|lia]. unfold validity_interval in Hiv. case_if; [done|]. bools. lia.
Qed.

(** C15: a write touches nothing but its own row and its predecessors.  [judged]
    are the tables when the conflict was judged and [met] those the write
    transaction meets, after whatever other transactions ran in between.  The
    transaction adds the new memory and no other row; each row it meets is left
    exactly as it was, or is superseded by the new memory; and then it was
    already there when the conflict was judged, at the same revision and in the
    same lifecycle state, a live memory of the same organization and agent, about
    the same subject, that began earlier and had ended when the new memory
    begins.  A row that changed or appeared since the judgement is left alone. *)
Theorem supersedes_only_predecessors cmd text w m w1 w2 :
  write_ cmd text w = (Ok m, w1, w2) -> default (pe_now env) (cm_valid_from cmd) < OPEN ->
  let judged := w_db (run_pipeline_ cmd text w).2 in
  let met := run_ops hash (pe_others env AtWrite) judged in
  memories met !! pe_id env = None /\ memories (w_db w1) !! pe_id env = Some m /\
  (forall t, t <> pe_id env -> memories met !! t = None -> memories (w_db w1) !! t = None) /\
  forall t old, memories met !! t = Some old ->
    memories (w_db w1) !! t = Some old \/
    exists seen new u, memories (w_db w1) !! t = Some new /\
      life new = life (supersede (pe_id env) (py_now (pe_clock env AtWrite)) (now (pe_clock env AtWrite)) old) /\
      memories judged !! t = Some seen /\ lifecycle_revision seen = lifecycle_revision old /\ life seen = life old /\
      in_scope (cm_org_id cmd) (cm_agent_id cmd) old = true /\ live_active old = true /\
      valid_until (life old) = Some u /\ u <= valid_from (life m) /\ valid_from (life old) < valid_from (life m) /\
      subjects_match (extract_subject_key nlp (content (life m))) (extract_subject_key nlp (content (life old))) = true.
Proof.
  intros Hw Hopen judged met.
  apply write_course in Hw as (x & Hx & _ & Hev & _ & Hnone & Hrow & Hs & Hframe & Hfresh).
  destruct Hx as (_ & _ & Hcont & _ & Hfrom & _ & _ & Hprop). fold judged in Hprop.
  destruct Hs as [_ _ Sc _ Sf _]. cbn in Sc, Sf. rewrite Hfrom in Sf. cbn in Sf.
  assert (valid_from (life m) = default (pe_now env) (cm_valid_from cmd)) as Hmf by (rewrite Sf; by destruct (cm_valid_from cmd)).
  split_and!; [exact Hnone|done|exact Hfresh|]. intros t old Ht.
  destruct (Hframe t old Ht) as [?|(new & Hnew & Hin & Hrev & Hsc & Hla & Hlife)]; [by left|]. right.
  destruct (Hprop t Hin) as (agent & m1 & from & iv & iv' & _ & Hm1 & _ & _ & Hrev1 & Hf1 & Hiv & Hiv' & Hlt & Hov & Hsub).
  destruct (ev_memories _ _ (visit_evolves AtWrite (run_pipeline_ cmd text w).2) t m1 Hm1) as (old' & Hold' & [_ _ Hsame]).
  cbn [w_db visit with_db] in Hold'. fold judged met in Hold'. rewrite Ht in Hold'. injection Hold' as <-.
  cbn in Hrev. rewrite Hrev1 in Hrev. injection Hrev as Hrev. specialize (Hsame (eq_sym Hrev)).
  rewrite Hfrom in Hf1. injection Hf1 as <-.
  destruct (ended_before _ _ _ _ _ _ Hiv Hiv' Hlt Hopen Hov) as (u & Hu & Hle).
  exists m1, new, u. rewrite Hmf, Sc, Hsame. by split_and!.
Qed.

(** C14: the index holds the vector of the text it is filed under.  [met] are the
    tables the work after the commit meets, whatever other transactions did in
    between.  That work sends nothing and leaves the tables as the write left
    them; or it changes nothing in [met]; or it files the embedding on the new
    memory, and then that row is in [met] still at the revision and in the
    lifecycle state in which it was created, its text the one that was embedded,
    and no other row changes. *)
Theorem index_holds_current_text cmd text w m w1 w2 :
  write_ cmd text w = (Ok m, w1, w2) ->
  let met := run_ops hash (pe_others env AtIndex) (w_db w1) in
  w2 = w1 \/ w_db w2 = met \/
  exists m1 m2, memories met !! pe_id env = Some m1 /\
    lifecycle_revision m1 = lifecycle_revision m /\ life m1 = life m /\
    memories (w_db w2) = <[pe_id env := m2]> (memories met) /\
    life m2 = life m /\ lifecycle_revision m2 = lifecycle_revision m /\ is_Some (embedding m2) /\
    w_embedded w2 = w_embedded w ++ [content (life m2)].
Proof.
  intros Hw met. pose proof (write_stored _ _ _ _ _ _ Hw) as Hstored.
  apply write_course in Hw as (x & _ & _ & _ & -> & _ & Hrow & [_ _ _ Ss _ _] & _). cbn in Ss.
  unfold index_created. destruct (cx_embedding x) as [v|]; [|by left].
  destruct (_ || _ || _ || _)%bool eqn:Hguard; [by left|right].
  pose proof (visit_evolves AtIndex w1) as Hev. cbn [w_db visit with_db] in *. fold met in Hev |- *.
  unfold transaction. destruct (write_embedding _ _ _ _ _ _) as [[[] d2]|e] eqn:He; [right|by left]. cbn [snd].
  apply tbind_Ok in He as ([m2|] & d3 & Hu & He); [|done]. apply update_memory_Ok in Hu as (m1 & Hm1 & Hc & Hb & -> & _).
  injection He as <-. unfold at_revision in Hc. apply andb_prop in Hc as [_ Hr%Z.eqb_eq].
  assert (life m1 = life m) as Hsame.
  { destruct (ev_memories _ _ Hev _ _ Hrow) as (m1' & Hm1' & [_ _ Hs]). rewrite Hm1 in Hm1'. injection Hm1' as <-.
    by apply Hs. }
  assert (embedding m2 = Some ("bge-m3"%string, EMBEDDING_DIM) /\ lifecycle_revision m2 = lifecycle_revision m1) as [Hemb Hrev].
  { unfold bump_memory_lifecycle_revision in Hb. case_if; [done|]. injection Hb as <-. cbn. by rewrite bool_decide_eq_true_2. }
  apply bump_memory_le in Hb as (_ & Hlife & _). exists m1, m2. cbn in Hlife.
  rewrite Hlife, Hsame, Hemb, Hrev. split_and!; try done.
  change (w_embedded _) with (w_embedded w1) at 1.
  destruct Hstored as [[Hq _]|(_ & _ & Hlast)]; [|exact Hlast]. exfalso.
  rewrite Hq in Ss. rewrite <- Ss in Hguard. done.
Qed.
End Effects.

(** ** Concrete writes *)

Module WriteSample.
Import ClientSample.
#[local] Existing Instance ascii_db.
#[local] Existing Instance noop_classifier.

Definition half : binary64 := b64_lit 4503599627370496 (-53).

Definition settings : PipelineSettings :=
  {| max_content_chars := 10000; pii_redact_min_confidence := half; dedup_exact_enabled := true;
     near_duplicate_sim_threshold := half; near_duplicate_candidate_limit := 10; conflict_detection_enabled := true;
     pl_hnsw_ef_search := 100; embedder_max_retries := 2 |}.

(** Every text is about what Ann drinks. *)
Definition nlp (_ : pystr) : Doc :=
  [{| tk_dep := "nsubj"; tk_lemma := lit "Ann"; tk_is_stop := false; tk_is_alpha := true; tk_children := [] |};
   {| tk_dep := "ROOT"; tk_lemma := lit "drink"; tk_is_stop := false; tk_is_alpha := true; tk_children := [] |}].

Definition sha (b : bytes) : string := string_of_list_ascii ((fun c => ascii_of_nat (Z.to_nat c)) <$> b).

(** A detector that is sure of names and unsure of numbers. *)
Definition found (s : binary64) : PiiFinding := {| pf_entity_type := "PERSON"; pf_start := 0; pf_end := 3; pf_score := s |}.
Definition analyze (s : pystr) : list PiiFinding :=
  match s with 65 :: _ => [found (b64_of_Z 1)] | 49 :: _ => [found (b64_of_Z 0)] | _ => [] end.
Definition anonymize (s : pystr) (_ : list PiiFinding) : pystr := lit "[PERSON]" ++ drop 3 s.

(** A memory that ended at 20. *)
Definition tea : Memory :=
  {| life := {| org_id := "o1"; agent_id := "a1"; content := lit "[PERSON] drinks tea"; content_hash := "t";
                content_tokens := 3; category := "factual"; status := "active"; deleted_at := None; valid_from := 1;
                valid_until := Some 20; confidence := 80; source := "user_provided"; superseded_by := None;
                merged_into := None; metadata := "{}"; expires_at := None; pii_detected := false; pii_redacted := false;
                tombstoned := false |};
     session_id := None; embedding := Some ("bge-m3"%string, 1024); retrieval_count := 0; last_retrieved_at := None;
     usefulness_score := 50; updated_at := 1; lifecycle_revision := 1 |}.

Definition d0 : DB :=
  {| organizations := {[ "o1"%string := {| o_status := "active"; o_deleted_at := None |} ]};
     agents := {[ ("a1", "o1")%string ]}; sessions := ∅; memories := {[ "tea"%string := tea ]};
     labels := ∅; relationships := []; escalations := []; outbox := [] |}.

Definition w0 : World := {| w_db := d0; w_embedded := [] |}.

Definition cmd (until : option Z) : CreateMemoryCommand :=
  {| cm_org_id := "o1"; cm_agent_id := "a1"; cm_confidence := 80; cm_session_id := None; cm_metadata := "{}";
     cm_valid_from := None; cm_valid_until := until; cm_expires_at := None; cm_expected_session_revision := None;
     cm_label := ("factual"%string, 80); cm_more_labels := [] |}.

Definition env (index : list (UUID * binary64)) (o : HttpOutcome) : PipelineEnv :=
  {| pe_others := fun _ => []; pe_db_ok := fun _ => true; pe_clock := fun _ => {| now := 50; py_now := 50 |}; pe_now := 40;
     pe_index := index; pe_posts := fun _ => o; pe_id := "new"; pe_races := (id, id) |}.

Definition answered : HttpOutcome := Responded 200 None (Some (reply (JInt 1))).

Abbreviation write_in e := (write latin1_digit nlp sha analyze anonymize settings e).

Definition coffee : pystr := lit "Ann drinks coffee".
Definition e0 : PipelineEnv := env [("tea"%string, b64_of_Z 1)] answered.
Definition w1 : World := (write_in e0 (cmd None) coffee w0).1.2.
Definition w2 : World := (write_in e0 (cmd None) coffee w0).2.
Definition created : Memory := default tea (memories (w_db w1) !! "new"%string).

Lemma written : write_in e0 (cmd None) coffee w0 = (Ok created, w1, w2).
Proof. vm_compute. reflexivity. Qed.

Lemma only_cleared_text_leaves_witness :
  w_embedded w1 = [lit "[PERSON] drinks coffee"] /\ status (life created) = "active"%string.
Proof.
  destruct (only_cleared_text_leaves latin1_digit nlp sha analyze anonymize settings e0 _ _ _ _ _ _ written) as [_ Hm].
  destruct (Hm created eq_refl) as [(Hq & _)|(Ha & _ & He)]; [vm_compute in Hq; discriminate Hq|].
  split; [rewrite He; vm_compute; reflexivity|exact Ha].
Defined.

Lemma supersedes_only_predecessors_witness :
  memories (w_db w1) !! "tea"%string <> Some tea /\
  exists seen new u, memories (w_db w1) !! "tea"%string = Some new /\ life seen = life tea /\
    superseded_by (life new) = Some "new"%string /\ valid_until (life tea) = Some u /\ u <= valid_from (life created).
Proof.
  assert (memories (w_db w1) !! "tea"%string <> Some tea) as Hne by (intros Heq; vm_compute in Heq; discriminate Heq).
  split; [exact Hne|].
  destruct (supersedes_only_predecessors latin1_digit nlp sha analyze anonymize settings e0 _ _ _ _ _ _ written)
    as (_ & _ & _ & Hrows); [vm_compute; reflexivity|].
  destruct (Hrows "tea"%string tea) as [Heq|(seen & new & u & Hnew & Hlife & _ & _ & Hseen & _ & _ & Hu & Hle & _)];
    [vm_compute; reflexivity|contradiction|].
  exists seen, new, u. rewrite Hlife. exact (conj Hnew (conj Hseen (conj eq_refl (conj Hu Hle)))).
Defined.

Lemma index_holds_current_text_witness :
  w_db w2 <> w_db w1 /\
  exists m2, memories (w_db w2) = <["new"%string := m2]> (memories (w_db w1)) /\ life m2 = life created /\ is_Some (embedding m2).
Proof.
  assert (embedding <$> memories (w_db w2) !! "new"%string <> embedding <$> memories (w_db w1) !! "new"%string) as Hne
    by (vm_compute; discriminate).
  assert (w_db w2 <> w_db w1) as Hd by (intros Heq; apply Hne; by rewrite Heq).
  split; [exact Hd|].
  destruct (index_holds_current_text latin1_digit nlp sha analyze anonymize settings e0 _ _ _ _ _ _ written)
    as [Heq|[Heq|(m1 & m2 & _ & _ & _ & Hins & Hlife & _ & Hemb & _)]];
    [exfalso; apply Hd; by rewrite Heq|exfalso; apply Hd; exact Heq|].
  exists m2. exact (conj Hins (conj Hlife Hemb)).
Defined.

(** The decision record asks that a memory without a start be escalated.  The
    orchestrator stamps it with the present instead, so it is judged like any other,
    and may supersede without review. *)
Theorem undated_memory_supersedes :
  cm_valid_from (cmd None) = None /\
  match (run_pipeline latin1_digit nlp sha analyze anonymize settings e0 (cmd None) coffee w0).1 with
  | Ok x => (cd_outcome <$> cx_conflict_decisions x) = [SUPERSEDES] /\ cx_pending_supersede_targets x = ["tea"%string]
  | Raise _ => False
  end.
Proof. vm_compute. done. Qed.

(** A reply of the embedder that does not parse is answered like a fault of the
    service itself, where a timeout or a refusal is an outage of the embedder: the
    class of the error is missing from the list of names. *)
Theorem unreadable_embedding_is_internal_error :
  let status o := match (write_in (env [] o) (cmd None) coffee w0).1.1 with Raise e => he_status (http_error_for_write e) | Ok _ => 201 end in
  status (Responded 200 None None) = 500 /\ status TimedOut = 503 /\ status (Responded 422 None None) = 503.
Proof. vm_compute. done. Qed.

(** An end before the present without a start passes the request's validation,
    which compares the two only when both are given; the write then fails, in the
    table's own constraint or, when there is a near duplicate, in the conflict
    stage, and the answer is an internal error. *)
Theorem past_end_is_internal_error :
  let failure index := match (write_in (env index answered) (cmd (Some 30)) coffee w0).1.1 with Raise e => Some e | Ok _ => None end in
  failure [] = Some (StoreError (IntegrityError "memories_valid_interval_chk")) /\
  failure [("tea"%string, b64_of_Z 1)] = Some OtherException /\
  he_status (http_error_for_write (StoreError (IntegrityError "memories_valid_interval_chk"))) = 500 /\
  he_status (http_error_for_write OtherException) = 500.
Proof. vm_compute. done. Qed.

(** Subject keys match when one contains the other as a string, inside a word too. *)
Theorem subjects_match_inside_words : subjects_match (lit "ann own cat") (lit "ann own caterpillar") = true.
Proof. reflexivity. Qed.
End WriteSample.
