(* ===== verification/Extraction.v ===== *)
(** * Session-close extraction
    ([services/worker/app/extraction/]: [schema.py], [batch.py], [memory_writer.py],
    [session_store.py], [provider.py])

    The batch that turns the turns of a completed session into memories.  It is a
    program over the services it calls (session store, budget ledger, model
    provider, memory service): [prog] is the tree of its calls, one branch per
    reply, so that a statement about all its [runs] holds for every failure and
    every interleaving with other workers.  Traces of model calls are recorded but
    not inspected; JSON decoding is a parameter, schema validation is not. *)

From Stdlib Require Import SpecFloat.
From S2P Require Import Prelude PyText Num Pricing BudgetLedger.
From stdpp Require Import pretty.
#[local] Open Scope Z_scope.

(** ** Exceptions *)

Inductive Exn :=
| ExtractionTransportError
| ExtractionProviderError
| ExtractionLifecycleConflict
| ValueError                         (* with [ValidationError] and [UnicodeEncodeError] *)
| TypeError
| BudgetError (e : LedgerError)
| SQLAlchemyError
| OSError.

#[global] Instance DenyKind_eq_dec : EqDecision DenyKind.
Proof. solve_decision. Defined.
#[global] Instance BudgetError_eq_dec : EqDecision LedgerError.
Proof. solve_decision. Defined.
#[global] Instance Exn_eq_dec : EqDecision Exn.
Proof. solve_decision. Defined.

(** ** The reply schema ([schema.py]) *)

Definition EXTRACTION_LABELS : list string := ["factual"; "preference"; "behavioral"; "episodic"; "procedural"]%string.
Definition CONTENT_MIN_LENGTH : Z := 5.
Definition CONTENT_MAX_LENGTH : Z := 10000.
Definition CONTENT_MAX_BYTES : Z := 10000.
Definition MAX_CATEGORIES_PER_MEMORY : Z := 3.
Definition MAX_MEMORIES_PER_TURN : Z := 10.

(** A [datetime]: whether it has a time zone, and microseconds. *)
Record DateTime := { dt_aware : bool; dt_us : Z }.

Record ExtractedMemoryLabel := { el_label : string; el_confidence : binary64 }.

Record ExtractedMemory := {
  em_content : pystr;
  em_categories : list ExtractedMemoryLabel;
  em_confidence : binary64;
  em_valid_from : option DateTime;
  em_valid_until : option DateTime;
}.

Record TurnExtraction := { te_turn_index : Z; te_memories : list ExtractedMemory }.

Abbreviation BatchExtractionResult := (list TurnExtraction).

(** [len] *)
Definition len {A} (l : list A) : Z := Z.of_nat (length l).

Definition utf8_len (s : pystr) : option Z := len <$> utf8_encode s.

(** [Field(ge=0.0, le=1.0)] *)
Definition unit_range (x : binary64) : bool := (SFleb (S754_zero false) x && SFleb x (b64_of_Z 1))%bool.

(** [categories_unique_and_known] *)
Fixpoint categories_unique_and_known (seen : list string) (l : list ExtractedMemoryLabel) : bool :=
  match l with
  | [] => true
  | c :: l => (existsb (String.eqb (el_label c)) EXTRACTION_LABELS && negb (existsb (String.eqb (el_label c)) seen)
               && categories_unique_and_known (el_label c :: seen) l)%bool
  end.

(** [valid_interval_matches_db] *)
Definition valid_interval_matches_db (m : ExtractedMemory) : bool :=
  match em_valid_from m, em_valid_until m with
  | Some a, Some b => (Bool.eqb (dt_aware a) (dt_aware b) && (dt_us a <? dt_us b))%bool
  | _, _ => true
  end.

Definition valid_memory (m : ExtractedMemory) : bool :=
  ((CONTENT_MIN_LENGTH <=? len (em_content m)) && (len (em_content m) <=? CONTENT_MAX_LENGTH)
   && match utf8_len (em_content m) with Some n => n <=? CONTENT_MAX_BYTES | None => false end
   && (1 <=? len (em_categories m)) && (len (em_categories m) <=? MAX_CATEGORIES_PER_MEMORY)
   && forallb (fun c => unit_range (el_confidence c)) (em_categories m)
   && categories_unique_and_known [] (em_categories m)
   && unit_range (em_confidence m) && valid_interval_matches_db m)%bool.

Definition valid_turn (t : TurnExtraction) : bool :=
  ((0 <=? te_turn_index t) && (len (te_memories t) <=? MAX_MEMORIES_PER_TURN)
   && forallb valid_memory (te_memories t))%bool.

(** [unique_turn_indexes]; also [len(l) != len(set(l))] of [_reject_duplicate_indexes]. *)
Definition unique_indexes (l : list Z) : bool := bool_decide (NoDup l).

Definition valid_batch (b : BatchExtractionResult) : bool :=
  (forallb valid_turn b && unique_indexes (te_turn_index <$> b))%bool.

(** ** Turns *)

Definition MAX_TURNS_PER_BATCH : Z := 50.
Definition MAX_BATCH_CONTENT_BYTES : Z := 500000.

Record TurnPayload := { tp_turn_index : Z; tp_role : pystr; tp_content : pystr }.

(** [html.escape] of one character. *)
Definition html_escape_char (quote : bool) (c : Z) : pystr :=
  if c =? 38 then lit "&amp;"
  else if c =? 60 then lit "&lt;"
  else if c =? 62 then lit "&gt;"
  else if (quote && (c =? 34))%bool then lit "&quot;"
  else if (quote && (c =? 39))%bool then lit "&#x27;"
  else [c].

Definition html_escape (quote : bool) (s : pystr) : pystr := s ≫= html_escape_char quote.

Definition quote_mark : pystr := [34].
Definition newline : pystr := [10].

(** The f-string of [format_batch_user_content]; [html.escape] quotes by default. *)
Definition format_turn (t : TurnPayload) : pystr :=
  lit "<turn index=" ++ quote_mark ++ lit (pretty (tp_turn_index t)) ++ quote_mark
  ++ lit " role=" ++ quote_mark ++ html_escape true (tp_role t) ++ quote_mark ++ lit ">" ++ newline
  ++ html_escape true (tp_content t) ++ newline ++ lit "</turn>".

Fixpoint join (sep : pystr) (l : list pystr) : pystr :=
  match l with
  | [] => []
  | [x] => x
  | x :: l => x ++ sep ++ join sep l
  end.

Definition format_batch_user_content (ts : list TurnPayload) : pystr := join newline (format_turn <$> ts).

Definition within_byte_cap (s : pystr) : bool :=
  match utf8_len s with Some n => n <=? MAX_BATCH_CONTENT_BYTES | None => false end.

(** [TurnPayload.model_validate] *)
Definition valid_payload (t : TurnPayload) : bool :=
  ((0 <=? tp_turn_index t) && (1 <=? len (tp_role t)) && (len (tp_role t) <=? 32)
   && (1 <=? len (tp_content t)) && (len (tp_content t) <=? 100000))%bool.

(** [parse_turns] on a list of objects. *)
Definition parse_turns (raw : list TurnPayload) : result Exn (list TurnPayload) :=
  raise_if (MAX_TURNS_PER_BATCH <? len raw) with ValueError ;;
  raise_if negb (forallb valid_payload raw) with ValueError ;;
  raise_if negb (unique_indexes (tp_turn_index <$> raw)) with ValueError ;;
  raise_if negb (within_byte_cap (format_batch_user_content raw)) with ValueError ;;
  Ok raw.

Definition select_unprocessed_turns (ts : list TurnPayload) (last : Z) : list TurnPayload :=
  List.filter (fun t => last <? tp_turn_index t) ts.

(** [require_exact_turn_indexes] *)
Definition same_index_set (a b : list Z) : bool :=
  ((length a =? length b)%nat && forallb (fun i => bool_decide (i ∈ b)) a && forallb (fun i => bool_decide (i ∈ a)) b)%bool.

Definition require_exact_turn_indexes (pending : list TurnPayload) (b : BatchExtractionResult) : result Exn unit :=
  let expected := tp_turn_index <$> pending in
  let got := te_turn_index <$> b in
  raise_if negb (unique_indexes expected) with ValueError ;;
  raise_if negb (unique_indexes got) with ValueError ;;
  raise_if negb (same_index_set expected got) with ValueError ;;
  Ok tt.

(** ** Requests to the services *)

Record SessionSnapshot := {
  ss_last_extracted_turn : Z;
  ss_status : string;
  ss_deleted_at : option Z;
  ss_lifecycle_revision : Z;
}.

Record ExtractionCall := {
  ec_raw_json : string;
  ec_model : string;
  ec_input_tokens : Z;
  ec_output_tokens : Z;
  ec_latency_ms : Z;
}.

Record MemoryWriteRequest := {
  mw_org_id : UUID;
  mw_agent_id : UUID;
  mw_session_id : UUID;
  mw_turn_index : Z;
  mw_memory : ExtractedMemory;
  mw_ordinal : Z;
  mw_expected_session_revision : Z;
}.

(** [memory_idempotency_digest] before the hash: the slot a memory is written to. *)
Definition slot_material (r : MemoryWriteRequest) : string :=
  mw_org_id r +:+ ":" +:+ mw_session_id r +:+ ":" +:+ pretty (mw_turn_index r) +:+ ":" +:+ pretty (mw_ordinal r).

(** An answer of the memory service: its status and the code of its detail. *)
Record HttpReply := { hr_status : Z; hr_code : option string }.

Inductive ProviderFailure := ProviderTransport | ProviderRejected.

Record TraceRow := { tr_complete : bool; tr_model : string; tr_input_tokens : Z; tr_output_tokens : Z }.

(** The calls of the batch, each with the type of its reply.  A [PostMemory]
    without a reply timed out or lost its connection; [AdvancePointer] answers
    whether a row matched. *)
Inductive Call : Type -> Type :=
| LoadSession (org session : UUID) : Call (result Exn (option SessionSnapshot))
| ClaimBudget (q : BudgetClaimRequest) : Call (result LedgerError (option BudgetClaim))
| FinalizeBudget (c : BudgetClaim) (input_tokens output_tokens : Z) : Call (result LedgerError unit)
| ReleaseBudget (c : BudgetClaim) : Call (result LedgerError unit)
| ProviderExtract (user_content : pystr) : Call (result ProviderFailure ExtractionCall)
| PostMemory (key : string) (r : MemoryWriteRequest) : Call (option HttpReply)
| AdvancePointer (org session : UUID) (turn expected_revision : Z) : Call (result Exn bool)
| InsertTrace (row : TraceRow) : Call unit.

(** ** Programs *)

Inductive prog (A : Type) : Type :=
| Ret (a : A)
| Do {X : Type} (c : Call X) (k : X -> prog A).
Arguments Ret {A} a.
Arguments Do {A X} c k.

Fixpoint pbind {A B : Type} (p : prog A) (f : A -> prog B) : prog B :=
  match p with
  | Ret a => f a
  | Do c k => Do c (fun x => pbind (k x) f)
  end.

Definition call {X : Type} (c : Call X) : prog X := Do c Ret.

(** A program that may raise. *)
Abbreviation M A := (prog (result Exn A)).
Definition ok {A} (a : A) : M A := Ret (Ok a).
Definition throw {A} (e : Exn) : M A := Ret (Raise e).
Definition lift {A} (r : result Exn A) : M A := Ret r.
Definition mbind_ {A B : Type} (p : M A) (f : A -> M B) : M B :=
  pbind p (fun r => match r with Ok a => f a | Raise e => throw e end).

Declare Scope batch_scope.
Delimit Scope batch_scope with batch.
Notation "x '<~' m ';;' k" := (mbind_ m (fun x => k))
  (at level 100, m at level 99, k at level 200, only parsing) : batch_scope.
Notation "x '<-!' c ';;' k" := (Do c (fun x => k))
  (at level 100, c at level 99, k at level 200, only parsing) : batch_scope.
#[local] Open Scope batch_scope.

(** ** The memory writer *)

Definition RETRYABLE : list Z := [408; 429; 500; 502; 503; 504].
Definition SUCCESS_409_CODES : list string := ["IDEMPOTENCY_CONFLICT"; "DUPLICATE_CONTENT"]%string.

(** [_raise_for_memory_conflict] *)
Definition raise_for_memory_conflict (code : option string) : result Exn unit :=
  match code with
  | Some c =>
      if existsb (String.eqb c) SUCCESS_409_CODES then Ok tt
      else if String.eqb c "IDEMPOTENCY_IN_PROGRESS" then Raise ExtractionTransportError
      else if String.eqb c "STALE_MEMORY_REVISION" then Raise ExtractionTransportError
      else if String.eqb c "STALE_LIFECYCLE_REVISION" then Raise ExtractionLifecycleConflict
      else Raise ValueError
  | None => Raise ValueError
  end.

(** [_raise_for_memory_status] *)
Definition raise_for_memory_status (r : HttpReply) : result Exn unit :=
  if hr_status r <? 400 then Ok tt
  else if existsb (Z.eqb (hr_status r)) RETRYABLE then Raise ExtractionTransportError
  else if hr_status r =? 409 then raise_for_memory_conflict (hr_code r)
  else Raise ValueError.

Section Batch.
(** [uuid5] of the SHA-256 digest of a slot, the fingerprint of a model call, the
    JSON reader for replies, and the prompt. *)
Context (slot_key : string -> string) (fingerprint : pystr -> pystr -> pystr -> pystr -> string).
Context (decode_batch : string -> option BatchExtractionResult) (SYSTEM_PROMPT : pystr).

(** [parse_batch_result] *)
Definition parse_batch_result (raw_json : string) : result Exn BatchExtractionResult :=
  match decode_batch raw_json with
  | Some b => if valid_batch b then Ok b else Raise ValueError
  | None => Raise ValueError
  end.

Definition memory_idempotency_key (r : MemoryWriteRequest) : string := slot_key (slot_material r).

(** [HttpMemoryWriter.write] *)
Definition write_memory (r : MemoryWriteRequest) : M unit :=
  reply <-! PostMemory (memory_idempotency_key r) r ;;
  match reply with
  | None => throw ExtractionTransportError
  | Some h => lift (raise_for_memory_status h)
  end.

(** ** The batch *)

Record BatchJob := {
  bj_org_id : UUID;
  bj_agent_id : UUID;
  bj_session_id : UUID;
  bj_turns : list TurnPayload;
  bj_provider : pystr;
  bj_models : list pystr;
  bj_has_ledger : bool;
}.

Record BatchRunResult := { br_memories_written : Z; br_turns_processed : Z; br_skipped : option string }.

Definition skipped (why : string) : BatchRunResult :=
  {| br_memories_written := 0; br_turns_processed := 0; br_skipped := Some why |}.

(** [_filter_pending]: the pending turns and the session's revision, or a result. *)
Definition filter_pending (job : BatchJob) : M (list TurnPayload * Z + BatchRunResult) :=
  loaded <-! LoadSession (bj_org_id job) (bj_session_id job) ;;
  match loaded with
  | Raise e => throw e
  | Ok None => ok (inr (skipped "session_not_found"))
  | Ok (Some snap) =>
      if (bool_decide (ss_deleted_at snap <> None) || negb (String.eqb (ss_status snap) "completed"))%bool
      then ok (inr (skipped "session_not_ready"))
      else match select_unprocessed_turns (bj_turns job) (ss_last_extracted_turn snap) with
           | [] => ok (inr (skipped "no_unprocessed_turns"))
           | pending => ok (inl (pending, ss_lifecycle_revision snap))
           end
  end.

(** [budget_reservation_key] *)
Definition budget_reservation_key (session : UUID) (first : Z) : string :=
  "extraction:" +:+ session +:+ ":" +:+ pretty first.

(** [_admit_budget] *)
Definition admit_budget (job : BatchJob) (pending : list TurnPayload) (user_content : pystr) : M (option BudgetClaim) :=
  if negb (bj_has_ledger job) then ok None else
  let model := default [] (head (bj_models job)) in
  match estimate_prompt_tokens SYSTEM_PROMPT user_content, pending with
  | Some (i, o), first :: _ =>
      let q := {| rq_org := bj_org_id job; rq_agent := bj_agent_id job;
                  rq_key := budget_reservation_key (bj_session_id job) (tp_turn_index first);
                  rq_hash := fingerprint (bj_provider job) model SYSTEM_PROMPT user_content;
                  rq_provider := bj_provider job; rq_model := model;
                  rq_input_tokens := i; rq_output_tokens := o |} in
      claimed <-! ClaimBudget q ;;
      match claimed with
      | Ok c => ok c
      | Raise Unavailable => throw ExtractionTransportError
      | Raise (AdmissionDenied (DenyInProgress _)) => throw ExtractionTransportError
      | Raise e => throw (BudgetError e)
      end
  | _, _ => throw ValueError
  end.

(** [_settle_budget] and [_release_budget]: a ledger error is logged. *)
Definition settle_budget (claim : option BudgetClaim) (c : ExtractionCall) : prog unit :=
  match claim with
  | None => Ret tt
  | Some b => _ <-! FinalizeBudget b (ec_input_tokens c) (ec_output_tokens c) ;; Ret tt
  end.

Definition release_budget (claim : option BudgetClaim) : prog unit :=
  match claim with
  | None => Ret tt
  | Some b => _ <-! ReleaseBudget b ;; Ret tt
  end.

Definition write_request (job : BatchJob) (turn : Z) (revision ordinal : Z) (m : ExtractedMemory) : MemoryWriteRequest :=
  {| mw_org_id := bj_org_id job; mw_agent_id := bj_agent_id job; mw_session_id := bj_session_id job;
     mw_turn_index := turn; mw_memory := m; mw_ordinal := ordinal; mw_expected_session_revision := revision |}.

(** [_write_turn_memories] *)
Fixpoint write_turn_memories (job : BatchJob) (turn revision ordinal : Z) (ms : list ExtractedMemory) : M Z :=
  match ms with
  | [] => ok 0
  | m :: ms =>
      _ <~ write_memory (write_request job turn revision ordinal m) ;;
      n <~ write_turn_memories job turn revision (ordinal + 1) ms ;;
      ok (1 + n)
  end.

(** [_update_pointer_after_turn] with [PostgresSessionStore._update] *)
Definition update_pointer_after_turn (job : BatchJob) (turn revision : Z) : M unit :=
  moved <-! AdvancePointer (bj_org_id job) (bj_session_id job) turn revision ;;
  match moved with
  | Ok true => ok tt
  | Ok false => throw ExtractionLifecycleConflict
  | Raise SQLAlchemyError | Raise OSError => throw ExtractionTransportError
  | Raise e => throw e
  end.

(** The loop of [_write_memories_per_turn]. *)
Fixpoint write_turns (job : BatchJob) (revision : Z) (ts : list TurnExtraction) : M Z :=
  match ts with
  | [] => ok 0
  | t :: ts =>
      n <~ write_turn_memories job (te_turn_index t) revision 0 (te_memories t) ;;
      _ <~ update_pointer_after_turn job (te_turn_index t) revision ;;
      rest <~ write_turns job revision ts ;;
      ok (n + rest)
  end.

Definition turn_ltb : TurnExtraction -> TurnExtraction -> bool := key_ltb te_turn_index Z.ltb.

Definition write_memories_per_turn (job : BatchJob) (b : BatchExtractionResult) (revision : Z) : M Z :=
  write_turns job revision (py_sorted turn_ltb b).

(** [_persist_parsed] *)
Definition persist_parsed (job : BatchJob) (pending : list TurnPayload) (c : ExtractionCall) (revision : Z) : M Z :=
  b <~ lift (parse_batch_result (ec_raw_json c)) ;;
  _ <~ lift (require_exact_turn_indexes pending b) ;;
  write_memories_per_turn job b revision.

Definition log_trace (c : ExtractionCall) (complete : bool) : prog unit :=
  call (InsertTrace {| tr_complete := complete; tr_model := ec_model c; tr_input_tokens := ec_input_tokens c;
                       tr_output_tokens := ec_output_tokens c |}).

(** [run_batch_extraction] after the pending turns are known. *)
Definition extract_pending (job : BatchJob) (pending : list TurnPayload) (revision : Z) : M BatchRunResult :=
  let user_content := format_batch_user_content pending in
  if negb (within_byte_cap user_content) then throw ValueError else
  claim <~ admit_budget job pending user_content ;;
  reply <-! ProviderExtract user_content ;;
  match reply with
  | Raise ProviderTransport => pbind (release_budget claim) (fun _ => throw ExtractionTransportError)
  | Raise ProviderRejected => throw ExtractionProviderError
  | Ok c =>
      pbind (settle_budget claim c) (fun _ =>
      pbind (persist_parsed job pending c revision) (fun written =>
      match written with
      | Raise e => pbind (log_trace c false) (fun _ => throw e)
      | Ok n => pbind (log_trace c true) (fun _ =>
          ok {| br_memories_written := n; br_turns_processed := Z.of_nat (length pending); br_skipped := None |})
      end))
  end.

Definition run_batch_extraction (job : BatchJob) : M BatchRunResult :=
  selected <~ filter_pending job ;;
  match selected with
  | inr r => ok r
  | inl (pending, revision) => extract_pending job pending revision
  end.
End Batch.

(** ** Runs *)

(** A call with the reply it got. *)
Inductive Event :=
| Ev {X : Type} (c : Call X) (x : X).

(** The runs of a program: any reply may come to any call. *)
Fixpoint runs {A : Type} (p : prog A) (tr : list Event) (a : A) : Prop :=
  match p with
  | Ret a' => tr = [] /\ a = a'
  | Do c k => exists x tr', tr = Ev c x :: tr' /\ runs (k x) tr' a
  end.

(** A run against services with a state. *)
Fixpoint exec {A W : Type} (h : forall X, Call X -> W -> X * W) (p : prog A) (w : W) : list Event * A * W :=
  match p with
  | Ret a => ([], a, w)
  | Do c k =>
      let '(x, w) := h _ c w in
      let '(tr, a, w) := exec h (k x) w in
      (Ev c x :: tr, a, w)
  end.

Lemma exec_runs {A W : Type} (h : forall X, Call X -> W -> X * W) (p : prog A) w tr a w' :
  exec h p w = (tr, a, w') -> runs p tr a.
Proof.
  revert w tr a w'. induction p as [a0|X c k IH]; intros w tr a w'; cbn.
  - by intros [= <- <- <-].
  - destruct (h X c w) as [x w1]. destruct (exec h (k x) w1) as [[tr1 a1] w2] eqn:He.
    intros [= <- <- <-]. exists x, tr1. split; [done|]. by eapply IH.
Qed.

Lemma runs_pbind {A B : Type} (p : prog A) (f : A -> prog B) tr b :
  runs (pbind p f) tr b <-> exists tr1 tr2 a, tr = tr1 ++ tr2 /\ runs p tr1 a /\ runs (f a) tr2 b.
Proof.
  revert tr. induction p as [a|X c k IH]; intros tr; cbn.
  - split; [by exists [], tr, a|]. by intros (? & ? & ? & -> & [-> ->] & ?).
  - split.
    + intros (x & tr' & -> & (tr1 & tr2 & a & -> & H1 & H2)%IH). by exists (Ev c x :: tr1), tr2, a; eauto 10.
    + intros (tr1 & tr2 & a & -> & (x & tr' & -> & H1) & H2). exists x, (tr' ++ tr2). split; [done|].
      apply IH. eauto 10.
Qed.

Lemma runs_mbind {A B : Type} (p : M A) (f : A -> M B) tr r :
  runs (mbind_ p f) tr r <->
  (exists e, runs p tr (Raise e) /\ r = Raise e) \/
  (exists tr1 tr2 a, tr = tr1 ++ tr2 /\ runs p tr1 (Ok a) /\ runs (f a) tr2 r).
Proof.
  unfold mbind_. rewrite runs_pbind. split.
  - intros (tr1 & tr2 & [a|e] & -> & H1 & H2); [right; eauto 10|]. left. destruct H2 as [-> ->].
    rewrite app_nil_r. eauto.
  - intros [(e & H1 & ->)|(tr1 & tr2 & a & -> & H1 & H2)].
    + exists tr, [], (Raise e). by rewrite app_nil_r.
    + eauto 10.
Qed.

(** ** What a run shows *)

Inductive Seen :=
| SawSession (org session : UUID) (snap : SessionSnapshot)
| SawHold (c : BudgetClaim)
| SettleTried (c : BudgetClaim) (input_tokens output_tokens : Z) (acknowledged : bool)
| ReleaseTried (c : BudgetClaim) (acknowledged : bool)
| Replied (c : ExtractionCall)
| Acked (r : MemoryWriteRequest)
| Refused (r : MemoryWriteRequest)
| Advanced (org session : UUID) (turn revision : Z) (moved : bool).

(** The facts of a run: what was loaded, held, answered, acknowledged and advanced.
    An attempt to settle or release a hold, or to move the pointer, is recorded
    with whether it was acknowledged. *)
Definition seen (e : Event) : option Seen :=
  match e with
  | @Ev X c x =>
      match c in Call X return X -> option Seen with
      | LoadSession o s => fun x => match x with Ok (Some snap) => Some (SawSession o s snap) | _ => None end
      | ClaimBudget _ => fun x => match x with Ok (Some b) => Some (SawHold b) | _ => None end
      | FinalizeBudget b i o => fun x => Some (SettleTried b i o (is_ok x))
      | ReleaseBudget b => fun x => Some (ReleaseTried b (is_ok x))
      | ProviderExtract _ => fun x => match x with Ok c => Some (Replied c) | Raise _ => None end
      | PostMemory _ r => fun x =>
          match x with
          | Some h => if is_ok (raise_for_memory_status h) then Some (Acked r) else Some (Refused r)
          | None => Some (Refused r)
          end
      | AdvancePointer o s t rev => fun x => Some (Advanced o s t rev match x with Ok b => b | Raise _ => false end)
      | InsertTrace _ => fun _ => None
      end x
  end.

Abbreviation facts tr := (omap seen tr).

Definition is_post (f : Seen) : bool := match f with Acked _ | Refused _ => true | _ => false end.

Section BatchFacts.
Context (slot_key : string -> string) (fingerprint : pystr -> pystr -> pystr -> pystr -> string).
Context (decode_batch : string -> option BatchExtractionResult) (SYSTEM_PROMPT : pystr).

(** Every memory of a turn was acknowledged. *)
Definition turn_written (job : BatchJob) (revision : Z) (fs : list Seen) (t : TurnExtraction) : Prop :=
  forall n m, te_memories t !! n = Some m ->
    Acked (write_request job (te_turn_index t) revision (Z.of_nat n) m) ∈ fs.

Lemma write_memory_runs r tr res :
  runs (write_memory slot_key r) tr res ->
  facts tr = [match res with Ok _ => Acked r | Raise _ => Refused r end].
Proof.
  intros ([h|] & tr' & -> & Hr); cbn in Hr; destruct Hr as [-> ->]; cbn; [|done].
  by destruct (raise_for_memory_status h).
Qed.

Lemma write_turn_memories_runs job turn rev ord ms tr res :
  runs (write_turn_memories slot_key job turn rev ord ms) tr res ->
  Forall is_post (facts tr) /\
  (forall n, res = Ok n -> n = Z.of_nat (length ms) /\
     forall k m, ms !! k = Some m -> Acked (write_request job turn rev (ord + Z.of_nat k) m) ∈ facts tr).
Proof.
  revert ord tr res. induction ms as [|m ms IH]; intros ord tr res; cbn [write_turn_memories].
  { intros [-> ->]. split; [constructor|]. by intros n [= <-]. }
  intros [(e & Hw & ->)|(tr1 & tr2 & [] & -> & Hw & Hr)]%runs_mbind.
  { apply write_memory_runs in Hw as ->. by split; [repeat constructor|]. }
  apply write_memory_runs in Hw as Hf. rewrite omap_app, Hf.
  apply runs_mbind in Hr as [(e & Hr & ->)|(tr3 & tr4 & n & -> & Hr & [-> ->])].
  - destruct (IH _ _ _ Hr) as [Hp _]. split; [by constructor|done].
  - rewrite app_nil_r. destruct (IH _ _ _ Hr) as [Hp Hok]. destruct (Hok n eq_refl) as [-> Hall].
    split; [by constructor|]. intros n' [= <-]. split; [cbn [length]; lia|].
    intros [|k] m' Hk; cbn in Hk.
    + simplify_eq. change (Z.of_nat 0) with 0. rewrite Z.add_0_r. left.
    + right. replace (ord + Z.of_nat (S k)) with (ord + 1 + Z.of_nat k) by lia. by apply Hall.
Qed.

Lemma update_pointer_runs job turn rev tr res :
  runs (update_pointer_after_turn job turn rev) tr res ->
  facts tr = [Advanced (bj_org_id job) (bj_session_id job) turn rev match res with Ok _ => true | Raise _ => false end].
Proof.
  intros (x & tr' & -> & Hr). destruct x as [[]|[]]; cbn in Hr; destruct Hr as [-> ->]; reflexivity.
Qed.

(** The shape of the writes of a batch: for each turn its posts, then its advance;
    the last turn may break off. *)
Fixpoint turns_shape (job : BatchJob) (rev : Z) (ts : list TurnExtraction) (fs : list Seen) (done : bool) : Prop :=
  match ts with
  | [] => fs = [] /\ done = true
  | t :: ts =>
      exists posts rest, fs = posts ++ rest /\ Forall is_post posts /\
        ((rest = [] /\ done = false) \/
         (turn_written job rev posts t /\ exists moved rest',
            rest = Advanced (bj_org_id job) (bj_session_id job) (te_turn_index t) rev moved :: rest' /\
            (if moved then turns_shape job rev ts rest' done else rest' = [] /\ done = false)))
  end.

Lemma write_turns_runs job rev ts tr res :
  runs (write_turns slot_key job rev ts) tr res ->
  turns_shape job rev ts (facts tr) (is_ok res) /\
  (forall n, res = Ok n -> n = sumZ (fun t => Z.of_nat (length (te_memories t))) ts).
Proof.
  revert tr res. induction ts as [|t ts IH]; intros tr res; cbn [write_turns turns_shape].
  { intros [-> ->]. split; [done|]. by intros n [= <-]. }
  intros [(e & Hw & ->)|(tr1 & tr2 & n & -> & Hw & Hr)]%runs_mbind;
    apply write_turn_memories_runs in Hw as [Hp Hok].
  { split; [|done]. exists (facts tr), []. rewrite app_nil_r. auto. }
  destruct (Hok n eq_refl) as [-> Hall]. rewrite omap_app.
  assert (turn_written job rev (facts tr1) t) as Hwr by (intros k m Hk; exact (Hall k m Hk)).
  apply runs_mbind in Hr as [(e & Hu & ->)|(tr3 & tr4 & [] & -> & Hu & Hr)]; apply update_pointer_runs in Hu.
  { split; [|done]. exists (facts tr1), (facts tr2). split_and!; [done|done|]. right. split; [done|].
    exists false, []. by rewrite Hu. }
  rewrite omap_app, Hu.
  apply runs_mbind in Hr as [(e & Hr & ->)|(tr5 & tr6 & m & -> & Hr & [-> ->])];
    rewrite ?app_nil_r; destruct (IH _ _ Hr) as [Hs Hn].
  all: split; [exists (facts tr1); eexists; split_and!; [done|done|]; right; split; [done|]; by exists true; eexists|].
  - done.
  - intros n' [= <-]. rewrite (Hn m eq_refl), sumZ_cons. lia.
Qed.

Lemma turn_written_mono job rev fs fs' t : fs ⊆ fs' -> turn_written job rev fs t -> turn_written job rev fs' t.
Proof. intros Hs Ht n m Hn. by apply Hs, Ht. Qed.

Lemma split_after_posts (posts rest pre post : list Seen) a :
  Forall is_post posts -> is_post a = false -> posts ++ rest = pre ++ a :: post ->
  exists pre', pre = posts ++ pre' /\ rest = pre' ++ a :: post.
Proof.
  intros Hp Ha. revert pre. induction Hp as [|f posts Hf Hp IH]; intros pre Heq; [by exists pre|].
  destruct pre as [|g pre]; cbn in Heq; [injection Heq as -> _; by rewrite Ha in Hf|].
  injection Heq as <- Heq. destruct (IH pre Heq) as (pre' & -> & ->). by exists pre'.
Qed.

(** An advance comes after all the posts of its turn and of the turns before it. *)
Lemma turns_shape_advanced job rev ts fs done pre o s turn rev' moved post :
  turns_shape job rev ts fs done -> fs = pre ++ Advanced o s turn rev' moved :: post ->
  o = bj_org_id job /\ s = bj_session_id job /\ rev' = rev /\
  exists ts1 t ts2, ts = ts1 ++ t :: ts2 /\ te_turn_index t = turn /\ Forall (turn_written job rev pre) (ts1 ++ [t]).
Proof.
  revert fs pre. induction ts as [|t ts IH]; cbn; intros fs pre.
  { intros [-> _] Heq. by destruct pre. }
  intros (posts & rest & -> & Hp & Hcase) Heq.
  destruct (split_after_posts posts rest pre post (Advanced o s turn rev' moved) Hp eq_refl Heq) as (pre' & -> & ->).
  destruct Hcase as [[Hn _]|(Hwr & mv & rest' & Hrest & Hnext)]; [by destruct pre'|].
  assert (turn_written job rev (posts ++ pre') t) as Hwr'
    by (eapply turn_written_mono; [apply list_subseteq_app_l; reflexivity|done]).
  destruct pre' as [|g pre']; cbn in Hrest.
  - injection Hrest as -> -> Ht -> _ _. split_and!; [done..|]. exists [], t, ts. split_and!; [done|done|].
    by constructor.
  - injection Hrest as -> Hr. destruct mv; [|destruct Hnext as [-> _]; by destruct pre'].
    destruct (IH _ pre' Hnext (eq_sym Hr)) as (-> & -> & -> & ts1 & u & ts2 & -> & Hu & Hall).
    split_and!; [done..|]. exists (t :: ts1), u, ts2. split_and!; [done|done|]. cbn. constructor; [done|].
    eapply Forall_impl; [done|]. intros x. apply turn_written_mono. apply list_subseteq_app_r. set_solver.
Qed.

(** A finished loop has written every turn, and moved the pointer to each. *)
Lemma turns_shape_done job rev ts fs :
  turns_shape job rev ts fs true ->
  Forall (fun t => turn_written job rev fs t /\
    Advanced (bj_org_id job) (bj_session_id job) (te_turn_index t) rev true ∈ fs) ts.
Proof.
  revert fs. induction ts as [|t ts IH]; cbn; intros fs; [constructor|].
  intros (posts & rest & -> & Hp & [[_ ?]|(Hwr & [] & rest' & -> & Hnext)]); [done| |by destruct Hnext].
  constructor.
  - split; [|set_solver]. eapply turn_written_mono; [|done]. apply list_subseteq_app_l. reflexivity.
  - eapply Forall_impl; [by apply IH|]. intros x [Hx Ha]. split; [|set_solver].
    eapply turn_written_mono; [|done]. set_solver.
Qed.

(** The holds a run took, and its attempts to settle or release one. *)
Definition holds (fs : list Seen) : list BudgetClaim :=
  omap (fun f => match f with SawHold c => Some c | _ => None end) fs.
Definition attempts (fs : list Seen) : list BudgetClaim :=
  omap (fun f => match f with SettleTried c _ _ _ | ReleaseTried c _ => Some c | _ => None end) fs.

Definition quiet (f : Seen) : bool := match f with Acked _ | Refused _ | Advanced _ _ _ _ _ => false | _ => true end.

(** What the batch was to do, as its first calls answered. *)
Record AcceptedBatch (job : BatchJob) (start : list Seen) (snap : SessionSnapshot) (c : ExtractionCall)
    (b : BatchExtractionResult) : Prop := {
  ab_session : SawSession (bj_org_id job) (bj_session_id job) snap ∈ start;
  ab_completed : ss_status snap = "completed"%string;
  ab_live : ss_deleted_at snap = None;
  ab_reply : Replied c ∈ start;
  ab_parsed : parse_batch_result decode_batch (ec_raw_json c) = Ok b;
  ab_exact : require_exact_turn_indexes (select_unprocessed_turns (bj_turns job) (ss_last_extracted_turn snap)) b = Ok tt;
}.

(** Once writing has begun, a run only posts memories and moves the pointer. *)
Definition writes (fs : list Seen) : Prop := Forall (fun f => quiet f = false) fs.

Lemma posts_write posts : Forall is_post posts -> writes posts.
Proof. intros Hp. eapply Forall_impl; [exact Hp|]. by intros []. Qed.

Lemma turns_shape_writes job rev ts fs done : turns_shape job rev ts fs done -> writes fs.
Proof.
  revert fs. induction ts as [|t ts IH]; cbn; intros fs; [intros [-> _]; constructor|].
  intros (posts & rest & -> & Hp%posts_write & Hcase). apply Forall_app. split; [done|].
  destruct Hcase as [[-> _]|(_ & [] & rest' & -> & Hnext)]; [constructor|constructor; [done|by apply IH]|].
  destruct Hnext as [-> _]. by repeat constructor.
Qed.

(** What becomes of a hold, from the facts after the session was loaded: there is
    none, or one [h], and the provider's reply decides the one attempt to close it. *)
Definition hold_course (fs : list Seen) (res : result Exn BatchRunResult) : Prop :=
  (holds fs = [] /\ attempts fs = []) \/
  exists h,
    (exists c acknowledged rest,
       fs = SawHold h :: Replied c :: SettleTried h (ec_input_tokens c) (ec_output_tokens c) acknowledged :: rest /\
       writes rest) \/
    (exists acknowledged, fs = [SawHold h; ReleaseTried h acknowledged] /\ res = Raise ExtractionTransportError) \/
    (fs = [SawHold h] /\ res = Raise ExtractionProviderError).

(** The course of a run: it ends before any write, or an accepted batch writes its
    turns in order. *)
Definition course (job : BatchJob) (fs : list Seen) (res : result Exn BatchRunResult) : Prop :=
  (Forall quiet fs /\ forall r, res = Ok r -> is_Some (br_skipped r) /\ holds fs = []) \/
  exists snap c b start rest, fs = start ++ rest /\ Forall quiet start /\ AcceptedBatch job start snap c b /\
    turns_shape job (ss_lifecycle_revision snap) (py_sorted turn_ltb b) rest (is_ok res) /\
    forall r, res = Ok r -> br_skipped r = None /\
      br_memories_written r = sumZ (fun t => Z.of_nat (length (te_memories t))) (py_sorted turn_ltb b) /\
      br_turns_processed r = Z.of_nat (length (select_unprocessed_turns (bj_turns job) (ss_last_extracted_turn snap))).

Lemma admit_budget_runs job pending u tr res :
  runs (admit_budget fingerprint SYSTEM_PROMPT job pending u) tr res ->
  facts tr = match res with Ok (Some h) => [SawHold h] | _ => [] end.
Proof.
  unfold admit_budget. destruct (bj_has_ledger job); cbn [negb]; [|by intros [-> ->]].
  destruct (estimate_prompt_tokens _ _) as [[i o]|]; [|by intros [-> ->]].
  destruct pending as [|p pending]; [by intros [-> ->]|].
  intros (x & tr' & -> & Hr). destruct x as [[h|]|e]; [by destruct Hr as [-> ->]..|].
  destruct e as [| | | | | | |[]]; by destruct Hr as [-> ->].
Qed.

Lemma settle_budget_runs h c tr u :
  runs (settle_budget h c) tr u ->
  exists acknowledged, facts tr =
    match h with Some b => [SettleTried b (ec_input_tokens c) (ec_output_tokens c) acknowledged] | None => [] end.
Proof. destruct h; [intros (x & tr' & -> & -> & _); by exists (is_ok x)|intros [-> _]; by exists true]. Qed.

Lemma release_budget_runs h tr u :
  runs (release_budget h) tr u ->
  exists acknowledged, facts tr = match h with Some b => [ReleaseTried b acknowledged] | None => [] end.
Proof. destruct h; [intros (x & tr' & -> & -> & _); by exists (is_ok x)|intros [-> _]; by exists true]. Qed.

Lemma log_trace_runs c b tr u : runs (log_trace c b) tr u -> facts tr = [].
Proof. by intros (x & tr' & -> & -> & _). Qed.

Lemma persist_parsed_runs job pending c rev tr res :
  runs (persist_parsed slot_key decode_batch job pending c rev) tr res ->
  (facts tr = [] /\ is_ok res = false) \/
  exists b, parse_batch_result decode_batch (ec_raw_json c) = Ok b /\ require_exact_turn_indexes pending b = Ok tt /\
    turns_shape job rev (py_sorted turn_ltb b) (facts tr) (is_ok res) /\
    forall n, res = Ok n -> n = sumZ (fun t => Z.of_nat (length (te_memories t))) (py_sorted turn_ltb b).
Proof.
  unfold persist_parsed. intros [(e & [-> He] & ->)|(tr1 & tr2 & b & -> & [-> Hb] & Hr)]%runs_mbind; [by left|].
  apply runs_mbind in Hr as [(e & [-> He] & ->)|(tr3 & tr4 & [] & -> & [-> Hx] & Hr)]; [by left|].
  right. exists b. apply write_turns_runs in Hr as [? ?]. split_and!; try done; by rewrite <- ?Hb, <- ?Hx.
Qed.

Lemma writes_no_hold fs : writes fs -> holds fs = [] /\ attempts fs = [].
Proof. induction 1 as [|[] fs Hf Hw IH]; cbn in *; try done. Qed.

Lemma extract_pending_course job snap tr res :
  let pending := select_unprocessed_turns (bj_turns job) (ss_last_extracted_turn snap) in
  ss_status snap = "completed"%string -> ss_deleted_at snap = None ->
  runs (extract_pending slot_key fingerprint decode_batch SYSTEM_PROMPT job pending (ss_lifecycle_revision snap)) tr res ->
  course job (SawSession (bj_org_id job) (bj_session_id job) snap :: facts tr) res /\ hold_course (facts tr) res.
Proof.
  intros pending Hst Hdel. unfold extract_pending.
  destruct (within_byte_cap _); cbn [negb]; [|intros [-> ->]; split; [left; by repeat constructor|by left]].
  intros [(e & Ha & ->)|(tr1 & tr2 & h & -> & Ha & Hr)]%runs_mbind; apply admit_budget_runs in Ha as Hf.
  { rewrite Hf. split; [left; by repeat constructor|by left]. }
  destruct Hr as (reply & tr3 & -> & Hr). rewrite omap_app, Hf.
  destruct reply as [c|[]].
  - apply runs_pbind in Hr as (tr4 & tr5 & u & -> & [ack Hset]%settle_budget_runs & Hr).
    apply runs_pbind in Hr as (tr6 & tr7 & written & -> & Hp & Hr). apply persist_parsed_runs in Hp.
    assert (facts tr7 = [] /\ is_ok written = is_ok res /\ (forall n, written = Ok n -> res =
      Ok {| br_memories_written := n; br_turns_processed := Z.of_nat (length pending); br_skipped := None |})) as (Ht & Hok & Hres).
    { destruct written as [n|e]; apply runs_pbind in Hr as (tr8 & tr9 & ? & -> & Hl%log_trace_runs & [-> ->]);
        rewrite app_nil_r, Hl; split_and!; try done; naive_solver. }
    cbn [omap list_omap seen]. rewrite !omap_app, Ht, app_nil_r, Hset, Hok in *.
    set (head_ := match h with Some b => [SawHold b] | None => [] end).
    set (tail_ := match h with Some b => [SettleTried b (ec_input_tokens c) (ec_output_tokens c) ack] | None => [] end).
    assert (Forall quiet (SawSession (bj_org_id job) (bj_session_id job) snap :: head_ ++ Replied c :: tail_)) as Hq
      by (unfold head_, tail_; destruct h; repeat constructor).
    destruct Hp as [[Hn Hno]|(b & Hb & Hx & Hshape & Hsum)].
    + rewrite Hn, app_nil_r. split.
      * left. split; [done|]. intros r ->. done.
      * unfold head_, tail_. destruct h as [b|]; [right; exists b; left; exists c, ack, []; split; [done|constructor]|by left].
    + split.
      * right. exists snap, c, b, (SawSession (bj_org_id job) (bj_session_id job) snap :: head_ ++ Replied c :: tail_), (facts tr6). split_and!.
        -- cbn. by rewrite <- app_assoc.
        -- done.
        -- split; try done; [by left|]. right. apply elem_of_app. right. left.
        -- done.
        -- intros r ->. destruct written as [n|]; [|done]. specialize (Hres n eq_refl). simplify_eq/=.
           by rewrite (Hsum n eq_refl).
      * apply turns_shape_writes in Hshape. unfold head_, tail_.
        destruct h as [b'|]; [right; exists b'; left; by exists c, ack, (facts tr6)|left].
        cbn. by apply writes_no_hold.
  - apply runs_pbind in Hr as (tr4 & tr5 & u & -> & [ack Hrel]%release_budget_runs & [-> ->]).
    cbn [omap list_omap seen]. rewrite app_nil_r, Hrel. split.
    + left. split; [|done]. destruct h; repeat constructor.
    + destruct h as [b|]; [right; exists b; right; left; by exists ack|by left].
  - destruct Hr as [-> ->]. cbn [omap list_omap seen]. split.
    + left. split; [|done]. destruct h; repeat constructor.
    + destruct h as [b|]; [right; exists b; right; by right|by left].
Qed.

Lemma filter_pending_runs job tr res :
  runs (filter_pending job) tr res ->
  match res with
  | Ok (inl (pending, rev)) => exists snap, facts tr = [SawSession (bj_org_id job) (bj_session_id job) snap] /\ ss_status snap = "completed"%string /\
      ss_deleted_at snap = None /\ rev = ss_lifecycle_revision snap /\
      pending = select_unprocessed_turns (bj_turns job) (ss_last_extracted_turn snap)
  | Ok (inr r) => Forall quiet (facts tr) /\ holds (facts tr) = [] /\ attempts (facts tr) = [] /\ is_Some (br_skipped r)
  | Raise _ => facts tr = []
  end.
Proof.
  intros (x & tr' & -> & Hr). destruct x as [[snap|]|e]; [|by destruct Hr as [-> ->]; eauto..].
  destruct (bool_decide_reflect (ss_deleted_at snap <> None)) as [Hd|Hd]; cbn [orb] in Hr;
    [destruct Hr as [-> ->]; split_and!; repeat constructor; eauto|].
  destruct (String.eqb_spec (ss_status snap) "completed") as [Hc|Hc]; cbn [negb] in Hr;
    [|destruct Hr as [-> ->]; split_and!; repeat constructor; eauto].
  destruct (select_unprocessed_turns _ _) eqn:Hsel; destruct Hr as [-> ->];
    [split_and!; repeat constructor; eauto|].
  exists snap. rewrite Hsel. split_and!; try done. by apply dec_stable.
Qed.

(** Every run of the batch follows its course, and that of its hold. *)
Lemma run_course job tr res :
  runs (run_batch_extraction slot_key fingerprint decode_batch SYSTEM_PROMPT job) tr res ->
  course job (facts tr) res /\
  ((holds (facts tr) = [] /\ attempts (facts tr) = []) \/
   exists snap fs, facts tr = SawSession (bj_org_id job) (bj_session_id job) snap :: fs /\ hold_course fs res).
Proof.
  intros [(e & Hf & ->)|(tr1 & tr2 & sel & -> & Hf & Hr)]%runs_mbind; apply filter_pending_runs in Hf.
  { rewrite Hf. split; [left; by repeat constructor|by left]. }
  rewrite omap_app. destruct sel as [[pending rev]|r].
  - destruct Hf as (snap & -> & Hs & Hd & -> & ->).
    destruct (extract_pending_course job snap tr2 res Hs Hd Hr) as [Hc Hh]. split; [done|]. right. by exists snap, (facts tr2).
  - destruct Hr as [-> ->], Hf as (Hq & Hh & Hst & Hsk). rewrite app_nil_r. split; [|by left].
    left. split; [done|]. by intros ? [= <-].
Qed.

Lemma exact_indexes pending b :
  require_exact_turn_indexes pending b = Ok tt ->
  NoDup (te_turn_index <$> b) /\
  (forall i, i ∈ tp_turn_index <$> pending <-> i ∈ te_turn_index <$> b).
Proof.
  unfold require_exact_turn_indexes, same_index_set, unique_indexes.
  repeat case_bool_decide; cbn; try done. destruct (_ && _ && _)%bool eqn:Hs; [|done]. intros _. bools.
  rewrite !forallb_forall in *. split; [done|]. intros i. rewrite !list_elem_of_In.
  split; intros Hi; [specialize (H3 i Hi)|specialize (H2 i Hi)]; bools; by apply list_elem_of_In.
Qed.

Lemma sorted_turn_before b ts1 t ts2 u :
  py_sorted turn_ltb b = ts1 ++ t :: ts2 -> u ∈ b -> te_turn_index u <= te_turn_index t ->
  NoDup (te_turn_index <$> b) -> u ∈ ts1 ++ [t].
Proof.
  intros Hsort Hu Hle Hnd. rewrite <- (py_sorted_elem turn_ltb), Hsort in Hu.
  apply elem_of_app in Hu as [Hu|Hu]; [set_solver|]. apply elem_of_cons in Hu as [->|Hu]; [set_solver|].
  exfalso. pose proof (key_ltb_order te_turn_index Z.ltb (fun _ => True)) as Hord. cbn in Hord.
  pose proof (py_sorted_sorted turn_ltb (ok := fun _ => True) b ltac:(by apply Forall_true)) as Hss.
  rewrite Hsort in Hss. apply StronglySorted_app_1_r in Hss. apply StronglySorted_inv in Hss as [_ Hall].
  rewrite Forall_forall in Hall. specialize (Hall u Hu). unfold leb_of, turn_ltb, key_ltb in Hall. bools.
  rewrite <- (py_sorted_perm turn_ltb b), Hsort, fmap_app, fmap_cons in Hnd.
  apply NoDup_app in Hnd as (_ & _ & Hnd). apply NoDup_cons in Hnd as [Hnd _]. apply Hnd.
  assert (te_turn_index t = te_turn_index u) as -> by lia. by apply list_elem_of_fmap_2.
Qed.


Lemma completed_course job tr r :
  runs (run_batch_extraction slot_key fingerprint decode_batch SYSTEM_PROMPT job) tr (Ok r) ->
  br_skipped r = None ->
  exists snap c b, SawSession (bj_org_id job) (bj_session_id job) snap ∈ facts tr /\ Replied c ∈ facts tr /\
    ss_status snap = "completed"%string /\ ss_deleted_at snap = None /\
    parse_batch_result decode_batch (ec_raw_json c) = Ok b /\
    br_memories_written r = sumZ (fun t => Z.of_nat (length (te_memories t))) b /\
    br_turns_processed r = Z.of_nat (length (select_unprocessed_turns (bj_turns job) (ss_last_extracted_turn snap))) /\
    forall p, p ∈ bj_turns job -> ss_last_extracted_turn snap < tp_turn_index p ->
      Advanced (bj_org_id job) (bj_session_id job) (tp_turn_index p) (ss_lifecycle_revision snap) true ∈ facts tr /\
      exists t, t ∈ b /\ te_turn_index t = tp_turn_index p /\
        turn_written job (ss_lifecycle_revision snap) (facts tr) t.
Proof.
  intros [[[_ Hs]|(snap & c & b & start & rest & -> & _ & [] & Hshape & Hr)] _]%run_course Hsk.
  { destruct (Hs r eq_refl) as [[? ?] _]. congruence. }
  destruct (Hr r eq_refl) as (_ & Hw & Hn). destruct (exact_indexes _ _ ab_exact0) as [_ Hiff].
  exists snap, c, b. split_and!; try done; try (apply elem_of_app; by left).
  { rewrite Hw. apply sumZ_perm, py_sorted_perm. }
  intros p Hp Hlt. apply turns_shape_done in Hshape. rewrite Forall_forall in Hshape.
  assert (tp_turn_index p ∈ te_turn_index <$> b) as Hin.
  { apply Hiff, list_elem_of_fmap_2. apply list_elem_of_In, filter_In. split; [by apply list_elem_of_In|].
    by apply Z.ltb_lt. }
  apply list_elem_of_fmap in Hin as (u & Hu & Hin).
  destruct (Hshape u) as [Hwr Ha]; [by apply py_sorted_elem|]. rewrite Hu. split; [apply elem_of_app; by right|].
  exists u. split_and!; [done|done|]. eapply turn_written_mono; [|done]. apply list_subseteq_app_r. reflexivity.
Qed.

(** A completed batch is complete: every pending turn's memories were acknowledged,
    the pointer was moved to each of those turns, and the counts it returns are
    those of the provider's answer. *)
Theorem completed_batch_wrote_everything job tr r :
  runs (run_batch_extraction slot_key fingerprint decode_batch SYSTEM_PROMPT job) tr (Ok r) ->
  br_skipped r = None ->
  exists snap c b, SawSession (bj_org_id job) (bj_session_id job) snap ∈ facts tr /\ Replied c ∈ facts tr /\
    parse_batch_result decode_batch (ec_raw_json c) = Ok b /\
    br_memories_written r = sumZ (fun t => Z.of_nat (length (te_memories t))) b /\
    br_turns_processed r = Z.of_nat (length (select_unprocessed_turns (bj_turns job) (ss_last_extracted_turn snap))) /\
    forall p, p ∈ bj_turns job -> ss_last_extracted_turn snap < tp_turn_index p ->
      Advanced (bj_org_id job) (bj_session_id job) (tp_turn_index p) (ss_lifecycle_revision snap) true ∈ facts tr /\
      exists t, t ∈ b /\ te_turn_index t = tp_turn_index p /\
        turn_written job (ss_lifecycle_revision snap) (facts tr) t.
Proof.
  intros Hr Hs. destruct (completed_course _ _ _ Hr Hs) as (snap & c & b & H1 & H2 & _ & _ & Hrest).
  by exists snap, c, b.
Qed.

End BatchFacts.
