(* ===== verification/ExtractionRuns.v ===== *)
(** * Extraction against its services
    ([services/worker/app/extraction/session_store.py], [batch.py],
    [memory_writer.py]; [services/memory/app/routers/memories.py])

    The batch of [Extraction] run against the session table, and against the
    memory service of [CreateMemory]; the slots memories are written to, and the
    size cap of a batch. *)

From stdpp Require Import pretty.
From S2P Require Import Prelude PyText Num Pricing Idempotency MemoryStore CreateMemory BudgetLedger Extraction.
#[local] Open Scope Z_scope.

(** ** The size cap *)

Lemma sublist_bind {A B} (f : A -> list B) (l k : list A) :
  l `sublist_of` k -> mjoin (f <$> l) `sublist_of` mjoin (f <$> k).
Proof. induction 1; cbn; [done|by apply sublist_app|by apply sublist_inserts_l]. Qed.

Lemma join_sublist sep (l k : list pystr) : l `sublist_of` k -> join sep l `sublist_of` join sep k.
Proof.
  induction 1 as [|x l k Hs IH|x l k Hs IH]; [done| |].
  - destruct l as [|y l], k as [|z k]; cbn; [done|by apply sublist_inserts_r|by inversion Hs|].
    by apply sublist_app, sublist_app.
  - destruct k as [|z k]; cbn; [apply sublist_nil_r in Hs as ->; apply sublist_nil_l|].
    by apply sublist_inserts_l, sublist_inserts_l.
Qed.

Lemma within_byte_cap_sublist s t : s `sublist_of` t -> within_byte_cap t = true -> within_byte_cap s = true.
Proof.
  intros Hs. unfold within_byte_cap, utf8_len, utf8_encode.
  destruct (forallb scalar t) eqn:Ht; [|done]. intros Hle%Z.leb_le.
  assert (forallb scalar s = true) as ->.
  { apply forallb_forall. intros c Hc. rewrite forallb_forall in Ht. apply Ht.
    apply list_elem_of_In. eapply sublist_subseteq; [done|]. by apply list_elem_of_In. }
  apply Z.leb_le. etrans; [|exact Hle]. unfold len. apply Nat2Z.inj_le, sublist_length, sublist_bind, Hs.
Qed.

(** A batch that was accepted never outgrows the cap later: whatever part of its
    turns is still pending, its text stays within the byte limit, so the check
    before the provider call never raises. *)
Theorem parsed_batch_stays_within_cap raw ts last :
  parse_turns raw = Ok ts ->
  within_byte_cap (format_batch_user_content (select_unprocessed_turns ts last)) = true.
Proof.
  unfold parse_turns. do 3 (destruct (_ : bool); [done|]). destruct (within_byte_cap _) eqn:Hw; [|done].
  intros [= <-]. eapply within_byte_cap_sublist; [|exact Hw].
  apply join_sublist, fmap_sublist. unfold select_unprocessed_turns. clear.
  induction raw as [|t raw IH]; cbn; [done|]. destruct (_ <? _); [by constructor|by apply sublist_cons].
Qed.

(** ** Slots *)

Fixpoint has_colon (s : string) : bool :=
  match s with EmptyString => false | String c s => (Ascii.eqb c ":" || has_colon s)%bool end.

Lemma colon_split s t u v :
  has_colon s = false -> has_colon t = false -> s +:+ ":" +:+ u = t +:+ ":" +:+ v -> s = t /\ u = v.
Proof.
  revert t. induction s as [|c s IH]; intros [|d t] Hs Ht Heq; cbn in *.
  - by injection Heq as Heq.
  - injection Heq as <- _. done.
  - injection Heq as -> _. done.
  - injection Heq as -> Heq. apply orb_false_elim in Hs as [_ Hs], Ht as [_ Ht].
    destruct (IH t Hs Ht Heq) as [-> ->]. done.
Qed.

Lemma pretty_N_char_colon x : Ascii.eqb (pretty_N_char x) ":" = false.
Proof. unfold pretty_N_char. by repeat case_match. Qed.

Lemma pretty_N_go_colon x s : has_colon (pretty_N_go x s) = has_colon s.
Proof.
  revert s. induction (N.lt_wf_0 x) as [x _ IH]. intros s.
  destruct (decide (0 < x)%N) as [Hx|Hx].
  - rewrite pretty_N_go_step by done. rewrite IH by (apply N.div_lt; lia).
    cbn. by rewrite pretty_N_char_colon.
  - assert (x = 0%N) as -> by lia. by rewrite pretty_N_go_0.
Qed.

Lemma pretty_Z_colon (z : Z) : has_colon (pretty z) = false.
Proof.
  assert (forall n : N, has_colon (pretty n) = false) as HN.
  { intros n. unfold pretty, pretty_N. case_decide; [done|]. apply pretty_N_go_colon. }
  destruct z as [|p|p]; [done|exact (HN (N.pos p))|exact (HN (N.pos p))].
Qed.

(** Two memories share a slot exactly when they are the same ordinal of the same
    turn of the same session: retries meet their own slot and nobody else's.  Ids
    are UUID texts, without colons. *)
Theorem slots_are_identities (r r' : MemoryWriteRequest) :
  has_colon (mw_org_id r) = false -> has_colon (mw_session_id r) = false ->
  has_colon (mw_org_id r') = false -> has_colon (mw_session_id r') = false ->
  slot_material r = slot_material r' <->
  mw_org_id r = mw_org_id r' /\ mw_session_id r = mw_session_id r' /\
  mw_turn_index r = mw_turn_index r' /\ mw_ordinal r = mw_ordinal r'.
Proof.
  intros H1 H2 H3 H4. unfold slot_material. split; [|by intros (-> & -> & -> & ->)].
  intros Heq. apply colon_split in Heq as [Horg Heq]; [|done..]. apply colon_split in Heq as [Hses Heq]; [|done..].
  apply colon_split in Heq as [Ht Ho]; [|apply pretty_Z_colon..]. by apply (inj pretty) in Ht, Ho.
Qed.

(** ** The session table *)

(** The rows [ibex_core.sessions] shows the worker, beside the other services. *)
Record World (R : Type) := { rows : gmap (UUID * UUID) SessionSnapshot; rest : R }.
Arguments rows {R}.
Arguments rest {R}.

Definition pointer_fence (rev : Z) (s : SessionSnapshot) : bool :=
  ((ss_lifecycle_revision s =? rev) && String.eqb (ss_status s) "completed" && bool_decide (ss_deleted_at s = None))%bool.

(** [SET last_extracted_turn = GREATEST(last_extracted_turn, :turn)] *)
Definition move_pointer (turn : Z) (s : SessionSnapshot) : SessionSnapshot :=
  {| ss_last_extracted_turn := Z.max (ss_last_extracted_turn s) turn; ss_status := ss_status s;
     ss_deleted_at := ss_deleted_at s; ss_lifecycle_revision := ss_lifecycle_revision s |}.

(** [PostgresSessionStore._load] and [_update] on the table; other calls go to the
    other services. *)
Definition session_store {R : Type} (others : forall X, Call X -> R -> X * R) (X : Type) (c : Call X) (w : World R)
    : X * World R :=
  match c in Call X return (X -> R -> X * World R) -> X * World R with
  | LoadSession o s => fun _ => (Ok (rows w !! (o, s)), w)
  | AdvancePointer o s turn rev => fun _ =>
      match rows w !! (o, s) with
      | Some row =>
          if pointer_fence rev row
          then (Ok true, {| rows := <[(o, s) := move_pointer turn row]> (rows w); rest := rest w |})
          else (Ok false, w)
      | None => (Ok false, w)
      end
  | c => fun _ => let '(x, r) := others _ c (rest w) in (x, {| rows := rows w; rest := r |})
  end (fun x r => (x, {| rows := rows w; rest := r |})).

(** A row only moves forward: everything but the pointer stays. *)
Definition row_forward (s s' : SessionSnapshot) : Prop :=
  ss_last_extracted_turn s <= ss_last_extracted_turn s' /\ ss_status s' = ss_status s /\
  ss_deleted_at s' = ss_deleted_at s /\ ss_lifecycle_revision s' = ss_lifecycle_revision s.

#[local] Instance row_forward_preorder : PreOrder row_forward.
Proof.
  split; [by intros s; split_and!; [lia|..]|].
  intros a b c (Hab & ? & ? & ?) (Hbc & ? & ? & ?). split_and!; [lia|congruence..].
Qed.

Definition forward (t t' : gmap (UUID * UUID) SessionSnapshot) : Prop :=
  forall k s, t !! k = Some s -> exists s', t' !! k = Some s' /\ row_forward s s'.

#[local] Instance forward_preorder : PreOrder forward.
Proof.
  split; [intros t k s Hs; by exists s|].
  intros t1 t2 t3 H1 H2 k s Hs. destruct (H1 k s Hs) as (s' & Hs' & ?), (H2 k s' Hs') as (s'' & ? & ?).
  exists s''. split; [done|]. by etrans.
Qed.

Section Store.
Context {R : Type} (others : forall X, Call X -> R -> X * R).

Lemma session_store_step X (c : Call X) (w w' : World R) x :
  session_store others X c w = (x, w') ->
  forward (rows w) (rows w') /\
  match seen (Ev c x) with
  | Some (SawSession o s snap) => rows w !! (o, s) = Some snap
  | Some (Advanced o s turn _ true) =>
      exists row, rows w' !! (o, s) = Some row /\ turn <= ss_last_extracted_turn row
  | _ => True
  end.
Proof.
  destruct c; cbn.
  2-6,8: destruct (others _ _ _) as [y r0]; intros [= <- <-]; cbn; (split; [done|]); by repeat case_match.
  - intros [= <- <-]. split; [done|]. by destruct (rows w !! _) eqn:Hrow.
  - destruct (rows w !! _) as [row|] eqn:Hrow; [|by intros [= <- <-]].
    destruct (pointer_fence _ row); intros [= <- <-]; cbn; [|done]. split.
    + intros k s Hs. destruct (decide ((org, session) = k)) as [<-|Hne].
      * rewrite lookup_insert_eq. simplify_eq. eexists. split; [done|]. split_and!; cbn; [lia|done..].
      * rewrite lookup_insert_ne by done. by exists s.
    + rewrite lookup_insert_eq. eexists. split; [done|]. cbn. lia.
Qed.

(** What a run against the table leaves there. *)
Lemma exec_store {A} (p : prog A) (w w' : World R) tr a :
  exec (session_store others) p w = (tr, a, w') ->
  forward (rows w) (rows w') /\
  (forall o s turn rev, Advanced o s turn rev true ∈ facts tr ->
     exists row, rows w' !! (o, s) = Some row /\ turn <= ss_last_extracted_turn row) /\
  (forall o s snap, SawSession o s snap ∈ facts tr -> exists row, rows w' !! (o, s) = Some row /\ row_forward snap row).
Proof.
  revert w tr a w'. induction p as [a0|X c k IH]; intros w tr a w'; cbn [exec].
  { intros [= <- <- <-]. split; [done|]. split; intros; by apply not_elem_of_nil in H. }
  destruct (session_store others X c w) as [x w1] eqn:Hst.
  destruct (exec (session_store others) (k x) w1) as [[tr1 a1] w2] eqn:He. intros [= <- <- <-].
  destruct (session_store_step _ _ _ _ _ Hst) as [Hf Hseen]. destruct (IH _ _ _ _ _ He) as (Hf2 & Ha & Hs).
  split; [by etrans|]. cbn [omap list_omap]. destruct (seen (Ev c x)) as [f|]; [|done].
  split.
  - intros o s turn rev [<-|Hin]%elem_of_cons; [|by eapply Ha].
    destruct Hseen as (row & Hrow & Hle). destruct (Hf2 _ _ Hrow) as (row' & Hrow' & Hfw).
    exists row'. split; [done|]. destruct Hfw as [? _]. lia.
  - intros o s snap [<-|Hin]%elem_of_cons; [|by eapply Hs].
    destruct (Hf _ _ Hseen) as (row & Hrow & H1), (Hf2 _ _ Hrow) as (row' & Hrow' & H2).
    exists row'. split; [done|]. by etrans.
Qed.

(** C23: Extraction is idempotent on the session table: once a batch has completed, the
    same batch against the same rows does nothing but find that no turn is left,
    whatever the other services would answer. *)
Theorem completed_batch_reruns_to_nothing slot_key fingerprint decode_batch prompt job (w w' w2 : World R) tr r
    (others' : forall X, Call X -> R -> X * R) :
  let batch := run_batch_extraction slot_key fingerprint decode_batch prompt job in
  exec (session_store others) batch w = (tr, Ok r, w') -> br_skipped r = None -> rows w2 = rows w' ->
  exists e, exec (session_store others') batch w2 = ([e], Ok (skipped "no_unprocessed_turns"), w2).
Proof.
  intros batch He Hs Hw2. pose proof (exec_runs _ _ _ _ _ _ He) as Hr.
  apply exec_store in He as (_ & Hadv & Hsess).
  destruct (completed_course _ _ _ _ _ _ _ Hr Hs) as (snap & c & b & Hsaw & _ & Hst & Hdel & _ & _ & _ & Hall).
  destruct (Hsess _ _ _ Hsaw) as (row & Hrow & Hle & Hst' & Hdel' & _).
  unfold batch, run_batch_extraction, mbind_, filter_pending.
  cbn [pbind exec session_store]. rewrite Hw2, Hrow. cbn [exec].
  rewrite Hdel', Hdel, Hst', Hst. rewrite bool_decide_eq_false_2 by (intros Hn; by apply Hn).
  assert (select_unprocessed_turns (bj_turns job) (ss_last_extracted_turn row) = []) as ->.
  { destruct (select_unprocessed_turns _ _) as [|p l] eqn:Hsel; [done|]. exfalso.
    assert (p ∈ select_unprocessed_turns (bj_turns job) (ss_last_extracted_turn row)) as Hp by (rewrite Hsel; left).
    apply list_elem_of_In, filter_In in Hp as [Hp%list_elem_of_In Hgt%Z.ltb_lt].
    destruct (decide (ss_last_extracted_turn snap < tp_turn_index p)) as [Hlt|]; [|lia].
    destruct (Hall p Hp Hlt) as [Ha _]. destruct (Hadv _ _ _ _ Ha) as (row' & Hrow' & ?). simplify_eq. lia. }
  cbn. eauto.
Qed.
End Store.

(** ** The memory service *)

(** [_memory_payload]: the body of the POST; [cents] rounds a confidence to the
    column's two digits. *)
Definition memory_payload (cents : binary64 -> Z) (r : MemoryWriteRequest) : CreateMemoryRequest :=
  let m := mw_memory r in
  {| req_agent_id := mw_agent_id r; req_content := em_content m; req_category := "factual";
     req_confidence := cents (em_confidence m);
     req_labels := Some ((fun l => (el_label l, cents (el_confidence l))) <$> em_categories m);
     req_session_id := Some (mw_session_id r); req_metadata := ""; req_valid_from := dt_us <$> em_valid_from m;
     req_valid_until := dt_us <$> em_valid_until m; req_expires_at := None;
     req_expected_session_revision := Some (mw_expected_session_revision r) |}.

Definition http_reply (res : result HttpError Response) : HttpReply :=
  match res with
  | Ok resp => {| hr_status := rs_status resp; hr_code := None |}
  | Raise h => {| hr_status := he_status h; hr_code := Some (he_code h) |}
  end.

(** The services beside the session table: the memory service with what its next
    requests meet, the provider's next answers, and the answer of the ledger. *)
Record Peers := {
  svc : Svc;
  requests : list CreateMemory.Env;
  answers : list (result ProviderFailure ExtractionCall);
  grant : option BudgetClaim;
}.

Section Peers.
Context `{UnicodeDB, JsonCodec} (known : UUID -> UUID -> bool) (lease_us : Z) (content_hash : pystr -> string).
Context (body_hash : CreateMemoryRequest -> string) (cents : binary64 -> Z).

Definition peers (X : Type) (c : Call X) (p : Peers) : X * Peers :=
  match c in Call X return X * Peers with
  | LoadSession _ _ => (Ok None, p)
  | AdvancePointer _ _ _ _ => (Ok false, p)
  | ClaimBudget _ => (Ok (grant p), p)
  | FinalizeBudget _ _ _ => (Ok tt, p)
  | ReleaseBudget _ => (Ok tt, p)
  | InsertTrace _ => (tt, p)
  | ProviderExtract _ =>
      match answers p with
      | [] => (Raise ProviderTransport, p)
      | a :: l => (a, {| svc := svc p; requests := requests p; answers := l; grant := grant p |})
      end
  | PostMemory key r =>
      match requests p with
      | [] => (None, p)
      | e :: l =>
          let '(res, s) := create_memory known lease_us content_hash body_hash e true (mw_org_id r) (Some key)
                             (memory_payload cents r) (svc p) in
          (Some (http_reply res), {| svc := s; requests := l; answers := answers p; grant := grant p |})
      end
  end.
End Peers.

(** ** Concrete runs *)

Module ExtractionSample.
#[local] Existing Instance CreateSample.sample_codec.

Definition half : binary64 := b64_lit 4503599627370496 (-53).
Definition cents (_ : binary64) : Z := 50.

Definition memory (c : string) : ExtractedMemory :=
  {| em_content := lit c; em_categories := [{| el_label := "preference"; el_confidence := half |}];
     em_confidence := half; em_valid_from := None; em_valid_until := None |}.

(** Two wordings of one memory of turn 0. *)
Definition decode (s : string) : option BatchExtractionResult :=
  if String.eqb s "A" then Some [{| te_turn_index := 0; te_memories := [memory "likes tea"] |}]
  else if String.eqb s "B" then Some [{| te_turn_index := 0; te_memories := [memory "enjoys tea"] |}]
  else None.

Definition answer (s : string) : ExtractionCall :=
  {| ec_raw_json := s; ec_model := "m"; ec_input_tokens := 10; ec_output_tokens := 5; ec_latency_ms := 3 |}.

Definition turn : TurnPayload := {| tp_turn_index := 0; tp_role := lit "user"; tp_content := lit "I like <tea>" |}.

Definition job (ledger : bool) : BatchJob :=
  {| bj_org_id := "o1"; bj_agent_id := "a1"; bj_session_id := "s1"; bj_turns := [turn]; bj_provider := lit "openai";
     bj_models := [lit "gpt"]; bj_has_ledger := ledger |}.

Definition session : SessionSnapshot :=
  {| ss_last_extracted_turn := -1; ss_status := "completed"; ss_deleted_at := None; ss_lifecycle_revision := 3 |}.

Abbreviation batch ledger := (run_batch_extraction (fun s => s) (fun _ _ _ _ => "f"%string) decode (lit "prompt") (job ledger)).

Abbreviation services := (session_store (peers (H := ascii_db) (fun _ _ => true) LEDGER_LEASE (fun _ => "h"%string)
  CreateSample.fingerprint cents)).

Definition world (es : list CreateMemory.Env) (l : list (result ProviderFailure ExtractionCall)) (g : option BudgetClaim)
    : World Peers :=
  {| rows := {[ ("o1", "s1")%string := session ]};
     rest := {| svc := CreateSample.s0; requests := es; answers := l; grant := g |} |}.

Definition good (t : Z) (i : UUID) (load : Idempotency.Table) : CreateMemory.Env :=
  CreateSample.env_at t i (PipelineContext (CreateSample.context "h3")) load NoFault.

(** A run in which everything works. *)
Definition w_good : World Peers := world [good 0 "m3" ∅] [Ok (answer "A")] None.
Definition good_run : list Event * result Exn BatchRunResult * World Peers := exec services (batch false) w_good.

Definition slot : string := "o1:s1:0:0".
Definition w_request : MemoryWriteRequest := write_request (job false) 0 3 0 (memory "likes tea").

Example good_run_facts :
  (facts good_run.1.1, good_run.1.2, rows good_run.2 !! ("o1", "s1")%string) =
  ([SawSession "o1" "s1" session; Replied (answer "A"); Acked w_request; Advanced "o1" "s1" 0 3 true],
   Ok {| br_memories_written := 1; br_turns_processed := 1; br_skipped := None |}, Some (move_pointer 0 session)).
Proof. vm_compute. reflexivity. Qed.

Example turn_text : format_turn turn =
  lit "<turn index=" ++ quote_mark ++ lit "0" ++ quote_mark ++ lit " role=" ++ quote_mark ++ lit "user" ++ quote_mark
  ++ lit ">" ++ newline ++ lit "I like &lt;tea&gt;" ++ newline ++ lit "</turn>".
Proof. vm_compute. reflexivity. Qed.

Lemma good_run_runs : runs (batch false) good_run.1.1 good_run.1.2.
Proof.
  destruct good_run as [[tr a] w'] eqn:He. exact (exec_runs services (batch false) w_good tr a w' He).
Qed.


Lemma completed_batch_wrote_everything_witness :
  exists snap, SawSession "o1" "s1" snap ∈ facts good_run.1.1 /\
    (ss_last_extracted_turn snap < 0 -> Advanced "o1" "s1" 0 (ss_lifecycle_revision snap) true ∈ facts good_run.1.1).
Proof.
  assert (good_run.1.2 = Ok {| br_memories_written := 1; br_turns_processed := 1; br_skipped := None |}) as Hres
    by (vm_compute; reflexivity).
  pose proof good_run_runs as Hr. rewrite Hres in Hr.
  destruct (completed_batch_wrote_everything (fun s => s) (fun _ _ _ _ => "f"%string) decode (lit "prompt") (job false)
    good_run.1.1 _ Hr eq_refl) as (snap & c & b & Hs & _ & _ & _ & _ & Hall).
  exists snap. split; [exact Hs|]. intros Hlt. apply (Hall turn); [left|exact Hlt].
Defined.

Lemma completed_batch_reruns_to_nothing_witness :
  exists e, exec services (batch false) good_run.2 = ([e], Ok (skipped "no_unprocessed_turns"), good_run.2).
Proof.
  eapply (completed_batch_reruns_to_nothing
    (peers (H := ascii_db) (fun _ _ => true) LEDGER_LEASE (fun _ => "h"%string) CreateSample.fingerprint cents)
    (fun s => s) (fun _ _ _ _ => "f"%string) decode (lit "prompt") (job false) w_good good_run.2 good_run.2 good_run.1.1
    {| br_memories_written := 1; br_turns_processed := 1; br_skipped := None |});
    [vm_compute; reflexivity|reflexivity|reflexivity].
Defined.

Lemma parsed_batch_stays_within_cap_witness :
  within_byte_cap (format_batch_user_content (select_unprocessed_turns [turn] 0)) = true.
Proof. apply (parsed_batch_stays_within_cap [turn]). vm_compute. reflexivity. Defined.

Lemma slots_are_identities_witness : slot_material w_request <> slot_material (write_request (job false) 0 3 1 (memory "likes tea")).
Proof.
  intros Heq. apply (slots_are_identities w_request (write_request (job false) 0 3 1 (memory "likes tea"))
    eq_refl eq_refl eq_refl eq_refl) in Heq as (_ & _ & _ & Ho). discriminate Ho.
Defined.

(** A retry can lose a memory.  The embedder fails while the first attempt writes,
    and the release of its claim does not reach the ledger; the batch is retried,
    the model words the memory differently, and the memory service answers that the
    key belongs to another request, which the writer takes for a memory that is
    already stored: the pointer passes the turn, one memory is reported written,
    and none is. *)
Theorem reworded_retry_loses_memory :
  let w0 := world [CreateSample.env_at 0 "m3" EmbeddingFailed ∅ RolledBack] [Ok (answer "A")] None in
  let '(_, res1, w1) := exec services (batch false) w0 in
  let w1' := {| rows := rows w1; rest := {| svc := svc (rest w1); requests := [good 500 "m4" (ledger (svc (rest w1)))];
                answers := [Ok (answer "B")]; grant := None |} |} in
  let '(_, res2, w2) := exec services (batch false) w1' in
  res1 = Raise ExtractionTransportError /\
  res2 = Ok {| br_memories_written := 1; br_turns_processed := 1; br_skipped := None |} /\
  ss_last_extracted_turn <$> rows w2 !! ("o1", "s1")%string = Some 0 /\
  memories (db (svc (rest w2))) = memories (db (svc (rest w0))).
Proof. vm_compute. done. Qed.

Definition hold : BudgetClaim :=
  {| bc_id := "b1"; bc_org := "o1"; bc_agent := "a1"; bc_key := "k"; bc_hash := "f"; bc_period := "p";
     bc_provider := lit "openai"; bc_model := lit "gpt"; bc_version := 1 |}.

(** A run with a ledger that grants [hold]. *)
Definition held_run : list Event * result Exn BatchRunResult * World Peers :=
  exec services (batch true) (world [good 0 "m3" ∅] [Ok (answer "A")] (Some hold)).

Example held_run_facts :
  facts held_run.1.1 =
  [SawSession "o1" "s1" session; SawHold hold; Replied (answer "A"); SettleTried hold 10 5 true;
   Acked (write_request (job true) 0 3 0 (memory "likes tea")); Advanced "o1" "s1" 0 3 true].
Proof. vm_compute. reflexivity. Qed.

Lemma held_run_runs : runs (batch true) held_run.1.1 held_run.1.2.
Proof. destruct held_run as [[tr a] w'] eqn:He. exact (exec_runs services (batch true) _ tr a w' He). Qed.


(** The services, with a ledger that takes holds and then cannot be reached. *)
Definition deaf_ledger (X : Type) (c : Call X) (w : World Peers) : X * World Peers :=
  match c in Call X return X * World Peers -> X * World Peers with
  | FinalizeBudget _ _ _ | ReleaseBudget _ => fun _ => (Raise Unavailable, w)
  | _ => fun r => r
  end (services X c w).

(** A settlement the ledger does not take is not repeated: the batch completes and
    leaves the hold open. *)
Theorem refused_settlement_leaves_hold :
  let '(tr, res, _) := exec deaf_ledger (batch true) (world [good 0 "m3" ∅] [Ok (answer "A")] (Some hold)) in
  res = Ok {| br_memories_written := 1; br_turns_processed := 1; br_skipped := None |} /\
  List.filter (fun f => match f with SettleTried _ _ _ _ | ReleaseTried _ _ => true | _ => false end) (facts tr)
  = [SettleTried hold 10 5 false].
Proof. vm_compute. done. Qed.

(** A call the provider rejects keeps its hold: nothing settles or releases it. *)
Theorem rejected_call_keeps_hold :
  let '(tr, res, _) := exec services (batch true) (world [] [Raise ProviderRejected] (Some hold)) in
  res = Raise ExtractionProviderError /\ holds (facts tr) = [hold] /\ attempts (facts tr) = [].
Proof. vm_compute. done. Qed.
End ExtractionSample.
