(* ===== verification/Retrieval.v ===== *)
(** * Parallel retrieval ([services/context/app/retrieval.py],
      [clients/memory.py], [clients/directive.py])

    Three branches (directive, hot memories, cold memories) run concurrently
    under their own timeouts and an outer wall; what a branch yields when it is
    cut off, fails or answers for another tenant.

    The services behind the branches are functions of the [World]: which reply
    a call gets, whether it came within the branch's timeout, and whether the
    branch finished before the wall.  JSON texts are the values [json.loads]
    gives for them; messages of exceptions are constructors. *)

From Stdlib Require Import SpecFloat.
From S2P Require Import Prelude Num Packer PyText Redaction Formatter TokenBudget.

Definition UUID : Type := Z.

(** [str(u)], as a text. *)
Definition uuid_text (u : UUID) : string :=
  string_of_list_ascii ((fun c => ascii_of_nat (Z.to_nat c)) <$> uuid_str u).

(** ** The memory service client ([clients/memory.py]) *)

Inductive MemoryError :=
| MemoryHttpTimeout
| MemoryTransport
| MemoryStatus (status_code : Z)
| InvalidJson
| NonObjectJson
| MissingField (label : string)
| ItemNotObject
| ItemNoMemory
| NotString (label : string)
| NotUuid (label : string)
| NotNumber (label : string)
| NotFinite (label : string)
| NotUnit (label : string)
| NotInteger (label : string)
| BelowOne (label : string)
| GroupsNotList
| FloatOverflow.

Record MemoryHttpConfig := { base_url : string; token : string }.

Record HttpRequest := {
  rq_method : string;
  rq_url : string;
  rq_bearer : string;
  rq_params : option dict;
  rq_json : option dict;
}.

(** What [AsyncClient.request] answers; a body that is not JSON is [None]. *)
Inductive HttpReply :=
| HttpTimedOut
| HttpTransportError
| HttpResponse (status_code : Z) (body : option Json).

Record HotMemoriesRequest := { hm_agent_id : UUID; hm_limit : Z; hm_min_confidence : binary64 }.
Record SearchMemoriesRequest := {
  sm_agent_id : UUID; sm_query : string; sm_limit : Z; sm_min_confidence : binary64 }.

Inductive MemoryRequest := HotRequest (q : HotMemoriesRequest) | SearchRequest (q : SearchMemoriesRequest).

Record MemoryCall := {
  mc_method : string;
  mc_path : string;
  mc_params : option dict;
  mc_json : option dict;
}.

Definition build_memory_call (q : MemoryRequest) : MemoryCall :=
  match q with
  | HotRequest q =>
      {| mc_method := "GET"; mc_path := "/v1/memories/hot";
         mc_params := Some [("agent_id"%string, JStr (uuid_text (hm_agent_id q))); ("limit"%string, JInt (hm_limit q));
                            ("min_confidence"%string, JFloat (hm_min_confidence q))];
         mc_json := None |}
  | SearchRequest q =>
      {| mc_method := "POST"; mc_path := "/v1/memories/search"; mc_params := None;
         mc_json := Some [("agent_id"%string, JStr (uuid_text (sm_agent_id q))); ("query"%string, JStr (sm_query q));
                          ("limit"%string, JInt (sm_limit q)); ("min_confidence"%string, JFloat (sm_min_confidence q))] |}
  end.

(** [MemoryHttpClient.__init__] *)
Definition memory_http_client (c : MemoryHttpConfig) : option MemoryHttpConfig :=
  if String.eqb (str_strip (base_url c)) "" then None
  else if String.eqb (str_strip (token c)) "" then None
  else Some c.

(** [s.rstrip('/')] *)
Fixpoint rstrip_slash (s : string) : string :=
  match s with
  | EmptyString => ""
  | String c s =>
      let r := rstrip_slash s in
      if (String.eqb r "" && Ascii.eqb c "/")%bool then "" else String c r
  end.

Section Client.
Context `{UnicodeDB}.

Definition require_str (v : option Json) (label : string) : result MemoryError string :=
  match v with Some (JStr s) => Ok s | _ => Raise (NotString label) end.

Definition require_uuid_str (v : option Json) (label : string) : result MemoryError string :=
  let* text := require_str v label in
  match uuid_parse (lit text) with Some u => Ok (uuid_text u) | None => Raise (NotUuid label) end.

(** [float(value)] of an integer too large for a double raises OverflowError. *)
Definition require_finite_float (v : option Json) (label : string) : result MemoryError binary64 :=
  match v with
  | Some (JInt z) => if b64_is_finite (b64_of_Z z) then Ok (b64_of_Z z) else Raise FloatOverflow
  | Some (JFloat f) => if b64_is_finite f then Ok f else Raise (NotFinite label)
  | _ => Raise (NotNumber label)
  end.

Definition require_unit_float (v : option Json) (label : string) : result MemoryError binary64 :=
  let* number := require_finite_float v label in
  if (f_ltb number f_zero || f_ltb (b64_of_Z 1) number)%bool then Raise (NotUnit label) else Ok number.

Definition require_positive_int (v : option Json) (label : string) : result MemoryError Z :=
  match v with
  | Some (JInt z) => if z <? 1 then Raise (BelowOne label) else Ok z
  | _ => Raise (NotInteger label)
  end.

Definition conflict_groups (v : option Json) : result MemoryError (list string) :=
  match v with
  | None | Some JNull => Ok []
  | Some (JList l) => rmap (fun j => require_uuid_str (Some j) "memory.conflict_groups[]") l
  | Some _ => Raise GroupsNotList
  end.

Definition hit_from_item (item : Json) : result MemoryError (MemoryHit binary64) :=
  match item with
  | JObj item =>
      match get "memory" item with
      | Some (JObj memory) =>
          let* memory_id_ := require_uuid_str (get "id" memory) "memory.id" in
          let* org_id_ := require_uuid_str (get "org_id" memory) "memory.org_id" in
          let* agent_id_ := require_uuid_str (get "agent_id" memory) "memory.agent_id" in
          let* content_ := require_str (get "content" memory) "memory.content" in
          let* category_ := require_str (get "category" memory) "memory.category" in
          let* confidence_ := require_unit_float (get "confidence" memory) "memory.confidence" in
          let* similarity_ := require_finite_float (get "similarity" item) "similarity" in
          let* rank_ := require_positive_int (get "rank" item) "rank" in
          let* source_ := require_str (get "source" item) "source" in
          let* groups := conflict_groups (get "conflict_groups" memory) in
          Ok {| hit_memory_id := memory_id_; hit_org_id := org_id_; hit_agent_id := agent_id_;
                hit_content := content_; hit_category := category_; hit_confidence := confidence_;
                hit_similarity := similarity_; hit_rank := rank_; hit_source := source_;
                hit_conflict_groups := groups |}
      | _ => Raise ItemNoMemory
      end
  | _ => Raise ItemNotObject
  end.

Definition json_object (body : option Json) : result MemoryError dict :=
  match body with
  | None => Raise InvalidJson
  | Some (JObj o) => Ok o
  | Some _ => Raise NonObjectJson
  end.

Definition require_mapping (v : option Json) (label : string) : result MemoryError dict :=
  match v with Some (JObj o) => Ok o | _ => Raise (MissingField label) end.

Definition results_list (body : option Json) : result MemoryError (list Json) :=
  let* payload := json_object body in
  let* data := require_mapping (get "data" payload) "data" in
  match get "results" data with Some (JList l) => Ok l | _ => Raise (MissingField "results") end.

Definition hits_from_search_response (body : option Json) : result MemoryError (list (MemoryHit binary64)) :=
  let* items := results_list body in rmap hit_from_item items.

(** [_send]: the reply's body, or the exception it becomes. *)
Definition send (reply : HttpReply) : result MemoryError (option Json) :=
  match reply with
  | HttpTimedOut => Raise MemoryHttpTimeout
  | HttpTransportError => Raise MemoryTransport
  | HttpResponse code body => if 400 <=? code then Raise (MemoryStatus code) else Ok body
  end.

(** [_execute] over the service [service]. *)
Definition execute (service : HttpRequest -> HttpReply) (cfg : MemoryHttpConfig) (call : MemoryCall)
    : result MemoryError (list (MemoryHit binary64)) :=
  let url := rstrip_slash (base_url cfg) +:+ mc_path call in
  let* body := send (service {| rq_method := mc_method call; rq_url := url; rq_bearer := token cfg;
                                rq_params := mc_params call; rq_json := mc_json call |}) in
  hits_from_search_response body.

(** ** The directive cache ([clients/directive.py]) *)

Inductive DirectiveError :=
| RedisGetFailed
| EnvelopeNotUtf8
| EnvelopeNotJson
| EnvelopeNotObject
| UnsupportedVersion (v : option Json)
| ContentNotString
| ModeNotString
| VersionIdNotString
| VersionIdNotUuid.

(** What a [GET] of the cache key gives; [json.loads] of the text is [None]
    where it is not JSON. *)
Inductive RedisReply :=
| RedisFailed
| RedisMissing
| RedisUndecodable
| RedisText (envelope : option Json).

Definition DEFAULT_INJECTION_MODE : string := "system_first".
Definition KNOWN_INJECTION_MODES : list string := ["system_first"; "system_append"; "user_prepend"]%string.

Definition empty_payload : ResolvedDirective :=
  {| dir_content := ""; injection_mode := DEFAULT_INJECTION_MODE; version_id := None |}.

Definition normalize_injection_mode (raw : string) : string :=
  let mode := str_strip raw in
  let mode := if String.eqb mode "" then DEFAULT_INJECTION_MODE else mode in
  if bool_decide (mode ∈ KNOWN_INJECTION_MODES) then mode else DEFAULT_INJECTION_MODE.

(** [data.get(key, "")] with [None] read as the empty text. *)
Definition string_or (v : option Json) (e : DirectiveError) : result DirectiveError string :=
  match v with
  | None | Some JNull => Ok ""%string
  | Some (JStr s) => Ok s
  | Some _ => Raise e
  end.

Definition optional_version_id (v : option Json) : result DirectiveError (option string) :=
  match v with
  | None | Some JNull => Ok None
  | Some (JStr s) =>
      if String.eqb s "" then Ok None
      else match uuid_parse (lit s) with Some u => Ok (Some (uuid_text u)) | None => Raise VersionIdNotUuid end
  | Some _ => Raise VersionIdNotString
  end.

(** [version == 1]: the numbers equal to one, [True] included. *)
Definition is_version_1 (v : option Json) : bool :=
  match v with
  | Some (JInt z) => z =? 1
  | Some (JBool b) => b
  | Some (JFloat f) => f_eqb f (b64_of_Z 1)
  | _ => false
  end.

Definition payload_from_envelope (data : dict) : result DirectiveError ResolvedDirective :=
  let* content_ := string_or (get "content" data) ContentNotString in
  let* mode_raw := string_or (get "injection_mode" data) ModeNotString in
  let* version_ := optional_version_id (get "version_id" data) in
  Ok {| dir_content := content_; injection_mode := normalize_injection_mode mode_raw; version_id := version_ |}.

Definition parse_envelope (raw : option Json) : result DirectiveError ResolvedDirective :=
  match raw with
  | None => Raise EnvelopeNotJson
  | Some (JObj data) =>
      if is_version_1 (get "v" data) then payload_from_envelope data
      else Raise (UnsupportedVersion (get "v" data))
  | Some _ => Raise EnvelopeNotObject
  end.

Definition directive_key (org_id agent_id : UUID) : string :=
  uuid_text org_id +:+ ":directive:" +:+ uuid_text agent_id.

(** [RedisDirectiveLookup.lookup] *)
Definition directive_lookup (redis : string -> RedisReply) (org_id agent_id : UUID)
    : result DirectiveError ResolvedDirective :=
  match redis (directive_key org_id agent_id) with
  | RedisFailed => Raise RedisGetFailed
  | RedisMissing => Ok empty_payload
  | RedisUndecodable => Raise EnvelopeNotUtf8
  | RedisText t => parse_envelope t
  end.
End Client.

(** ** Branches *)

Inductive BranchStatus := success | timeout | error.
Inductive SourceName := directive | hot | cold.

#[global] Instance BranchStatus_eq_dec : EqDecision BranchStatus.
Proof. solve_decision. Defined.
#[global] Instance SourceName_eq_dec : EqDecision SourceName.
Proof. solve_decision. Defined.

(** The [detail] of an outcome. *)
Inductive Detail :=
| BranchTimeout (name : SourceName)
| BranchHttpTimeout (name : SourceName)
| OfDirective (e : DirectiveError)
| OfMemory (e : MemoryError)
| MEMORY_TENANT_MISMATCH
| OuterDeadline
| ExceptionName (name : string)
| UnexpectedBranchResult.

Record BranchOutcome := { status : BranchStatus; latency_ms : binary64; detail : option Detail }.

Record BranchResult := {
  br_name : SourceName;
  outcome : BranchOutcome;
  br_directive_ : option ResolvedDirective;
  br_memories : list (MemoryHit binary64);
}.

Record RetrievalRequest := {
  rr_org_id : UUID;
  rr_agent_id : UUID;
  rr_query : string;
  rr_model : string;
  rr_recent_messages : list Message;
  rr_hot_limit : Z;
  rr_cold_limit : Z;
  rr_min_confidence : binary64;
}.

Record RetrievalResult := {
  rs_directive : option ResolvedDirective;
  rs_directive_outcome : BranchOutcome;
  rs_hot_memories : list (MemoryHit binary64);
  rs_hot_outcome : BranchOutcome;
  rs_cold_memories : list (MemoryHit binary64);
  rs_cold_outcome : BranchOutcome;
  rs_recent_messages : list Message;
  rs_history_tokens : Z;
  rs_sources_available : list SourceName;
}.

(** How a task stands when the wall is reached: pending or cancelled, or done
    with a value, which is a branch result, an exception or something else. *)
Inductive TaskValue := VBranch (b : BranchResult) | VException (name : string) | VOther.
Inductive TaskState := Pending | Cancelled | Returned (v : TaskValue) | Raised (name : string).

(** One run of the three branches. *)
Record World := {
  memory_service : HttpRequest -> HttpReply;
  directive_cache : string -> RedisReply;
  (** the call came back within the branch's own timeout *)
  in_time : SourceName -> bool;
  elapsed_ms : SourceName -> binary64;
  (** the branch ended before the wall *)
  before_wall : SourceName -> bool;
}.

Section Branches.
Context `{UnicodeDB} (cfg : MemoryHttpConfig) (wall_ms : binary64) (w : World).

Definition branch_failed (name : SourceName) (st : BranchStatus) (d : Detail) : BranchResult :=
  {| br_name := name; outcome := {| status := st; latency_ms := elapsed_ms w name; detail := Some d |};
     br_directive_ := None; br_memories := [] |}.

Definition timeout_memories (name : SourceName) (d : Detail) : BranchResult := branch_failed name timeout d.
Definition error_memories (name : SourceName) (d : Detail) : BranchResult := branch_failed name error d.

Definition directive_branch (q : RetrievalRequest) : BranchResult :=
  if in_time w directive then
    match directive_lookup (directive_cache w) (rr_org_id q) (rr_agent_id q) with
    | Raise e => branch_failed directive error (OfDirective e)
    | Ok resolved =>
        {| br_name := directive;
           outcome := {| status := success; latency_ms := elapsed_ms w directive; detail := None |};
           br_directive_ := if String.eqb (dir_content resolved) "" then None else Some resolved;
           br_memories := [] |}
    end
  else branch_failed directive timeout (BranchTimeout directive).

(** [_foreign_hit]: the first hit of another org or agent. *)
Definition foreign_hit (hits : list (MemoryHit binary64)) (q : RetrievalRequest) : option (MemoryHit binary64) :=
  List.find (fun h => (negb (String.eqb (hit_org_id h) (uuid_text (rr_org_id q)))
                       || negb (String.eqb (hit_agent_id h) (uuid_text (rr_agent_id q))))%bool) hits.

Definition success_memories (name : SourceName) (hits : list (MemoryHit binary64)) (q : RetrievalRequest)
    : BranchResult :=
  match foreign_hit hits q with
  | Some _ => error_memories name MEMORY_TENANT_MISMATCH
  | None => {| br_name := name;
               outcome := {| status := success; latency_ms := elapsed_ms w name; detail := None |};
               br_directive_ := None; br_memories := hits |}
  end.

Definition fetch_memories (name : SourceName) (q : RetrievalRequest) : result MemoryError (list (MemoryHit binary64)) :=
  execute (memory_service w) cfg (build_memory_call
    match name with
    | hot => HotRequest {| hm_agent_id := rr_agent_id q; hm_limit := rr_hot_limit q;
                           hm_min_confidence := rr_min_confidence q |}
    | _ => SearchRequest {| sm_agent_id := rr_agent_id q; sm_query := rr_query q; sm_limit := rr_cold_limit q;
                            sm_min_confidence := rr_min_confidence q |}
    end).

(** [_memory_branch]: the exception handlers in their order. *)
Definition memory_branch (name : SourceName) (q : RetrievalRequest) : BranchResult :=
  if in_time w name then
    match fetch_memories name q with
    | Ok hits => success_memories name hits q
    | Raise MemoryHttpTimeout => timeout_memories name (BranchHttpTimeout name)
    | Raise FloatOverflow => error_memories name (ExceptionName "OverflowError")
    | Raise e => error_memories name (OfMemory e)
    end
  else timeout_memories name (BranchTimeout name).

Definition branch (name : SourceName) (q : RetrievalRequest) : BranchResult :=
  match name with directive => directive_branch q | _ => memory_branch name q end.

(** The task of a branch when [asyncio.wait] returns; the rest are cancelled. *)
Definition task_of (name : SourceName) (q : RetrievalRequest) : TaskState :=
  if before_wall w name then Returned (VBranch (branch name q)) else Pending.

Definition plain_failure (name : SourceName) (st : BranchStatus) (ms : binary64) (d : Detail) : BranchResult :=
  {| br_name := name; outcome := {| status := st; latency_ms := ms; detail := Some d |};
     br_directive_ := None; br_memories := [] |}.

Definition coerce_branch (name : SourceName) (v : TaskValue) : BranchResult :=
  match v with
  | VBranch b => b
  | VException e => plain_failure name error f_zero (ExceptionName e)
  | VOther => plain_failure name error f_zero UnexpectedBranchResult
  end.

Definition result_for_task (name : SourceName) (t : TaskState) : BranchResult :=
  match t with
  | Returned v => coerce_branch name v
  | Raised e => plain_failure name error f_zero (ExceptionName e)
  | Pending | Cancelled => plain_failure name timeout wall_ms OuterDeadline
  end.

Definition gather_branches (q : RetrievalRequest) : list BranchResult :=
  (fun name => result_for_task name (task_of name q)) <$> [directive; hot; cold].

(** [by_name[name]]: the last branch filed under the name. *)
Definition by_name (branches : list BranchResult) (name : SourceName) : option BranchResult :=
  List.find (fun b => bool_decide (br_name b = name)) (rev branches).

Inductive RetrievalError := OfBudget (e : BudgetError) | KeyError.

Definition get_branch (branches : list BranchResult) (name : SourceName) : result RetrievalError BranchResult :=
  match by_name branches name with Some b => Ok b | None => Raise KeyError end.

Definition merge_results (branches : list BranchResult) (messages : list Message) (history_tokens : Z)
    : result RetrievalError RetrievalResult :=
  let* directive_b := get_branch branches directive in
  let* hot_b := get_branch branches hot in
  let* cold_b := get_branch branches cold in
  Ok {| rs_directive := br_directive_ directive_b; rs_directive_outcome := outcome directive_b;
        rs_hot_memories := br_memories hot_b; rs_hot_outcome := outcome hot_b;
        rs_cold_memories := br_memories cold_b; rs_cold_outcome := outcome cold_b;
        rs_recent_messages := messages; rs_history_tokens := history_tokens;
        rs_sources_available :=
          List.filter (fun n => match n with
                                | directive => bool_decide (status (outcome directive_b) = success)
                                | hot => bool_decide (status (outcome hot_b) = success)
                                | cold => bool_decide (status (outcome cold_b) = success)
                                end) [directive; hot; cold] |}.

(** [ParallelRetriever.retrieve] *)
Definition retrieve (cat : CapabilityCatalog) (q : RetrievalRequest) : result RetrievalError RetrievalResult :=
  let* b := match calculate cat {| br_model := rr_model q; br_messages := rr_recent_messages q; br_directive := "";
                                   br_tool_schemas := []; br_nonce_bytes := DEFAULT_NONCE_BYTES |} with
            | Ok b => Ok b | Raise e => Raise (OfBudget e) end in
  merge_results (gather_branches q) (rr_recent_messages q) (messages_tokens b).

(** ** What reaches the assembler *)

(** The hit belongs to the requesting principal. *)
Definition belongs (q : RetrievalRequest) (h : MemoryHit binary64) : Prop :=
  hit_org_id h = uuid_text (rr_org_id q) /\ hit_agent_id h = uuid_text (rr_agent_id q).

(** A branch is one of this name, and what it carries is the principal's. *)
Record branch_ok (q : RetrievalRequest) (name : SourceName) (b : BranchResult) : Prop := {
  bo_name : br_name b = name;
  bo_hits : Forall (belongs q) (br_memories b);
  bo_failed : status (outcome b) <> success -> br_memories b = [] /\ br_directive_ b = None;
  bo_detail : detail (outcome b) = None <-> status (outcome b) = success;
}.

Lemma plain_failure_ok q name st ms d : st <> success -> branch_ok q name (plain_failure name st ms d).
Proof. intros Hst. split; cbn; [done|constructor|done|done]. Qed.

Lemma branch_failed_ok q name st d : st <> success -> branch_ok q name (branch_failed name st d).
Proof. apply plain_failure_ok. Qed.

Lemma foreign_hit_None hits q : foreign_hit hits q = None -> Forall (belongs q) hits.
Proof.
  intros Hn. apply Forall_forall. intros h Hh%list_elem_of_In. unfold foreign_hit in Hn.
  apply (List.find_none _ _ Hn), orb_false_elim in Hh as [H1 H2].
  apply negb_false_iff, String.eqb_eq in H1, H2. by split.
Qed.

Lemma success_memories_ok q name hits : branch_ok q name (success_memories name hits q).
Proof.
  unfold success_memories. destruct (foreign_hit hits q) eqn:E; [by apply branch_failed_ok|].
  split; cbn; [done|by apply foreign_hit_None|done|done].
Qed.

Lemma memory_branch_ok q name : branch_ok q name (memory_branch name q).
Proof.
  unfold memory_branch. destruct (in_time w name); [|by apply branch_failed_ok].
  destruct (fetch_memories name q) as [hits|[]]; try (by apply branch_failed_ok).
  apply success_memories_ok.
Qed.

Lemma directive_branch_ok q : branch_ok q directive (directive_branch q).
Proof.
  unfold directive_branch. destruct (in_time w directive); [|by apply branch_failed_ok].
  destruct (directive_lookup _ _ _) as [r|e]; [|by apply branch_failed_ok].
  split; cbn; [done|constructor|done|done].
Qed.

Lemma gathered_ok q name : branch_ok q name (result_for_task name (task_of name q)).
Proof.
  unfold task_of. destruct (before_wall w name); cbn; [|by apply plain_failure_ok].
  destruct name; cbn; [apply directive_branch_ok|apply memory_branch_ok..].
Qed.

Lemma get_branch_gathered q name :
  get_branch (gather_branches q) name = Ok (result_for_task name (task_of name q)).
Proof.
  pose proof (bo_name _ _ _ (gathered_ok q directive)) as Hd. pose proof (bo_name _ _ _ (gathered_ok q hot)) as Hh.
  pose proof (bo_name _ _ _ (gathered_ok q cold)) as Hc.
  unfold get_branch, by_name, gather_branches. cbn [fmap list_fmap rev app List.find]. rewrite Hd, Hh, Hc.
  by destruct name.
Qed.

(** Retrieval returns whatever the services do, as soon as the model is known. *)
Lemma retrieve_Ok cat q b :
  calculate cat {| br_model := rr_model q; br_messages := rr_recent_messages q; br_directive := "";
                   br_tool_schemas := []; br_nonce_bytes := DEFAULT_NONCE_BYTES |} = Ok b ->
  exists r, retrieve cat q = Ok r /\
    Forall (belongs q) (rs_hot_memories r ++ rs_cold_memories r) /\
    rs_recent_messages r = rr_recent_messages q /\ rs_history_tokens r = messages_tokens b /\
    (status (rs_hot_outcome r) <> success -> rs_hot_memories r = []) /\
    (status (rs_cold_outcome r) <> success -> rs_cold_memories r = []) /\
    (status (rs_directive_outcome r) <> success -> rs_directive r = None) /\
    rs_sources_available r = List.filter (fun n => bool_decide (status (outcome (result_for_task n (task_of n q))) = success))
                               [directive; hot; cold].
Proof.
  intros Hb. unfold retrieve. rewrite Hb. cbn [rbind]. unfold merge_results.
  rewrite !get_branch_gathered. cbn [rbind]. eexists. split; [reflexivity|]. cbn -[result_for_task].
  split_and!; try done.
  - apply Forall_app. split; [apply (bo_hits _ _ _ (gathered_ok q hot))|apply (bo_hits _ _ _ (gathered_ok q cold))].
  - intros Hs. by apply (bo_failed _ _ _ (gathered_ok q hot)).
  - intros Hs. by apply (bo_failed _ _ _ (gathered_ok q cold)).
  - intros Hs. by apply (bo_failed _ _ _ (gathered_ok q directive)).
Qed.

Lemma retrieve_belongs cat q r : retrieve cat q = Ok r ->
  Forall (belongs q) (rs_hot_memories r ++ rs_cold_memories r) /\ rs_recent_messages r = rr_recent_messages q.
Proof.
  intros Hr. destruct (calculate cat {| br_model := rr_model q; br_messages := rr_recent_messages q; br_directive := "";
    br_tool_schemas := []; br_nonce_bytes := DEFAULT_NONCE_BYTES |}) as [b|e] eqn:E.
  - destruct (retrieve_Ok cat q b E) as (r' & Hr' & H1 & H2 & _). rewrite Hr in Hr'. by injection Hr' as <-.
  - unfold retrieve in Hr. by rewrite E in Hr.
Qed.

(** Retrieval fails open: for a request whose model the catalog knows,
    whatever the memory service, the cache and the clock do, it returns; a
    branch that is cut off, fails, is malformed or carries one hit of another
    org or agent contributes nothing, and every memory it returns belongs to
    the requesting org and agent. *)
Theorem retrieval_fails_open_within_tenant cat q b :
  calculate cat {| br_model := rr_model q; br_messages := rr_recent_messages q; br_directive := "";
                   br_tool_schemas := []; br_nonce_bytes := DEFAULT_NONCE_BYTES |} = Ok b ->
  exists r, retrieve cat q = Ok r /\
    Forall (belongs q) (rs_hot_memories r ++ rs_cold_memories r) /\
    rs_history_tokens r = messages_tokens b /\
    (hot ∉ rs_sources_available r -> rs_hot_memories r = []) /\
    (cold ∉ rs_sources_available r -> rs_cold_memories r = []) /\
    (directive ∉ rs_sources_available r -> rs_directive r = None).
Proof.
  intros Hb. destruct (retrieve_Ok cat q b Hb) as (r & Hr & H1 & H2 & H3 & _ & _ & _ & H7).
  exists r. split; [done|]. split; [done|]. split; [done|].
  assert (forall n, n ∉ rs_sources_available r ->
    status (outcome (result_for_task n (task_of n q))) <> success) as Hn.
  { intros n Hn Hs. apply Hn. rewrite H7, list_elem_of_In, filter_In. split; [by destruct n; cbn; auto|].
    by apply bool_decide_eq_true. }
  unfold retrieve in Hr. rewrite Hb in Hr. cbn [rbind] in Hr. unfold merge_results in Hr.
  rewrite !get_branch_gathered in Hr. cbn [rbind] in Hr. injection Hr as <-. cbn -[result_for_task] in *.
  split_and!; intros Hs%Hn; by apply (bo_failed _ _ _ (gathered_ok q _)).
Qed.
End Branches.

Module RetrievalSample.
#[local] Existing Instance ascii_db.
Definition item (id org agent : UUID) (text : string) (groups : list Json) : Json :=
  JObj [("memory"%string, JObj [("id"%string, JStr (uuid_text id)); ("org_id"%string, JStr (uuid_text org));
          ("agent_id"%string, JStr (uuid_text agent)); ("content"%string, JStr text);
          ("category"%string, JStr "factual"); ("confidence"%string, JFloat (b64_of_Z 1));
          ("conflict_groups"%string, JList groups)]);
        ("similarity"%string, JInt 1); ("rank"%string, JInt 1); ("source"%string, JStr "vector")].
Definition answer (items : list Json) : HttpReply :=
  HttpResponse 200 (Some (JObj [("data"%string, JObj [("results"%string, JList items)])])).

(** The hot page is the agent's own; the cold page has a hit of org 8. *)
Definition world : World :=
  {| memory_service := fun r => if String.eqb (rq_method r) "GET" then answer [item 1 7 9 "tea" []]
                                else answer [item 2 7 9 "milk" []; item 3 8 9 "secret" []];
     directive_cache := fun _ => RedisText (Some (JObj [("v"%string, JInt 1); ("content"%string, JStr "Be brief.")]));
     in_time := fun _ => true; elapsed_ms := fun _ => b64_of_Z 1; before_wall := fun _ => true |}.
Definition cfg : MemoryHttpConfig := {| base_url := "http://memory/"; token := "t" |}.
Definition request : RetrievalRequest :=
  {| rr_org_id := 7; rr_agent_id := 9; rr_query := "drink?"; rr_model := "m"; rr_recent_messages := [];
     rr_hot_limit := 20; rr_cold_limit := 10; rr_min_confidence := f_zero |}.

Example foreign_branch_dropped :
  match retrieve cfg (b64_of_Z 40) world BudgetSample.cat request with
  | Ok r => (hit_content <$> rs_hot_memories r, hit_content <$> rs_cold_memories r, detail (rs_cold_outcome r),
             dir_content <$> rs_directive r)
            = (["tea"%string], [], Some MEMORY_TENANT_MISMATCH, Some "Be brief."%string)
  | Raise _ => False
  end.
Proof. vm_compute. reflexivity. Qed.

Lemma retrieval_fails_open_within_tenant_witness : exists r,
  retrieve cfg (b64_of_Z 40) world BudgetSample.cat request = Ok r /\
  Forall (belongs request) (rs_hot_memories r ++ rs_cold_memories r).
Proof.
  destruct (calculate BudgetSample.cat {| br_model := rr_model request; br_messages := rr_recent_messages request;
    br_directive := ""; br_tool_schemas := []; br_nonce_bytes := DEFAULT_NONCE_BYTES |}) as [b|e] eqn:E;
    [|vm_compute in E; discriminate].
  destruct (retrieval_fails_open_within_tenant cfg (b64_of_Z 40) world BudgetSample.cat request b E)
    as (r & Hr & Hf & _).
  exists r. split; [exact Hr|exact Hf].
Defined.
End RetrievalSample.
