(* ===== verification/Candidates.v ===== *)
(** * Packing candidates ([services/context/app/scoring.py], [pipeline.py],
      [conflict.py])

    Hot and cold hits merged: one copy per memory with the union of its pending
    conflicts, one side of every conflict, and the interim packer score. *)

From Stdlib Require Import SpecFloat.
From S2P Require Import Prelude Num Packer Collapse.

Abbreviation Hit := (MemoryHit binary64).
Abbreviation conflicting := (share_conflict hit_conflict_groups).
Abbreviation collapsed := (collapsed_by hit_conflict_groups).

(** ** Scores ([scoring.py]) *)

(** 0.85 and 0.15 *)
Definition SIMILARITY_WEIGHT : binary64 := b64_lit 7656119366529843 (-53).
Definition CONFIDENCE_WEIGHT : binary64 := b64_lit 5404319552844595 (-55).

Definition as_finite_float (x : binary64) : result PackError binary64 :=
  if b64_is_finite x then Ok x else Raise ValueError.

Definition require_unit (x : binary64) : result PackError unit :=
  let* number := as_finite_float x in
  if (f_ltb number f_zero || f_ltb (b64_of_Z 1) number)%bool then Raise ValueError else Ok tt.

Definition score_memory_hit (h : Hit) : result PackError binary64 :=
  let* _ := require_unit (hit_similarity h) in
  let* _ := require_unit (hit_confidence h) in
  Ok (b64_add (b64_mul SIMILARITY_WEIGHT (hit_similarity h)) (b64_mul CONFIDENCE_WEIGHT (hit_confidence h))).

Definition score_hits (hits : list Hit) : result PackError (list (ScoredMemory binary64)) :=
  rmap (fun h => let* s := score_memory_hit h in Ok {| hit := h; composite_score := s |}) hits.

(** ** One copy per memory ([pipeline.py]) *)

(** [_prefer] *)
Definition prefer (candidate incumbent : Hit) : result PackError bool :=
  let* cand_score := score_memory_hit candidate in
  let* inc_score := score_memory_hit incumbent in
  if negb (f_eqb cand_score inc_score) then Ok (f_ltb inc_score cand_score)
  else Ok (hit_rank candidate <? hit_rank incumbent).

Definition with_groups (h : Hit) (groups : list string) : Hit :=
  {| hit_memory_id := hit_memory_id h; hit_org_id := hit_org_id h; hit_agent_id := hit_agent_id h;
     hit_content := hit_content h; hit_category := hit_category h; hit_confidence := hit_confidence h;
     hit_similarity := hit_similarity h; hit_rank := hit_rank h; hit_source := hit_source h;
     hit_conflict_groups := groups |}.

Abbreviation Best := (list (string * Hit)).
Abbreviation GroupSets := (gmap string (gset string)).

(** The groups filed under a memory so far. *)
Definition groups_of (g : GroupSets) (k : string) : gset string := default ∅ (g !! k).

(** One iteration of the loop of [_dedupe_hits]. *)
Definition dedupe_step (st : Best * GroupSets) (h : Hit) : result PackError (Best * GroupSets) :=
  let '(best, groups) := st in
  let k := hit_memory_id h in
  let groups := <[k := groups_of groups k ∪ list_to_set (hit_conflict_groups h)]> groups in
  match od_get k best with
  | None => Ok (od_set k h best, groups)
  | Some existing =>
      let* better := prefer h existing in
      Ok (if better then od_set k h best else best, groups)
  end.

Definition dedupe_hits (hits : list Hit) : result PackError (list Hit) :=
  let* '(best, groups) := rfold dedupe_step ([], ∅) hits in
  Ok ((fun kh => with_groups kh.2 (py_sorted str_ltb (elements (groups_of groups (hit_memory_id kh.2))))) <$> best).

(** ** One side of every conflict ([conflict.py]) *)

(** The sort key [(-score, memory_id)], computed for every hit first. *)
Definition conflict_key (h : Hit) : result PackError (binary64 * Hit) :=
  let* s := score_memory_hit h in Ok (f_opp s, h).

Definition conflict_ltb : binary64 * Hit -> binary64 * Hit -> bool :=
  key_ltb (fun p => (p.1, hit_memory_id p.2)) (pair_ltb f_eqb f_ltb str_ltb).

Definition collapse_conflicts (hits : list Hit) : result PackError (list Hit) :=
  let* keyed := rmap conflict_key hits in
  Ok (collapse_loop hit_conflict_groups (py_sorted conflict_ltb keyed).*2 [] ∅).

(** [score_retrieval_hits] *)
Definition score_retrieval_hits (hits : list Hit) : result PackError (list (ScoredMemory binary64)) :=
  let* deduped := dedupe_hits hits in
  let* kept := collapse_conflicts deduped in
  score_hits kept.

(** [pack_retrieval], for the usable tokens of a budget. *)
Definition pack_retrieval (p : ContextPacker) (hot cold : list Hit) (usable : Z)
    : result PackError (PackedMemories binary64) :=
  let* scored := score_retrieval_hits (hot ++ cold) in
  pack p scored usable None.

(** ** Scores are numbers *)

Lemma require_unit_Ok x : require_unit x = Ok tt -> b64_is_finite x = true /\ nonneg_num x.
Proof.
  unfold require_unit, as_finite_float. destruct (b64_is_finite x) eqn:E; [|done]. cbn [rbind].
  destruct (f_ltb x f_zero) eqn:E1; [done|]. intros _. split; [done|].
  by destruct x as [|[]| |[] m e].
Qed.

Lemma score_memory_hit_num h s : score_memory_hit h = Ok s -> nonneg_num s.
Proof.
  unfold score_memory_hit. intros ([] & [H1 H2]%require_unit_Ok & H)%rbind_Ok.
  apply rbind_Ok in H as ([] & [H3 H4]%require_unit_Ok & H).
  assert (s = b64_add (b64_mul SIMILARITY_WEIGHT (hit_similarity h)) (b64_mul CONFIDENCE_WEIGHT (hit_confidence h)))
    as -> by congruence.
  apply b64_add_nonneg; by apply b64_mul_nonneg.
Qed.


(** The score of a hit that has one. *)
Definition hit_score (h : Hit) : binary64 := match score_memory_hit h with Ok s => s | Raise _ => f_zero end.

(** [h] does not score below [h']. *)
Definition no_worse (h h' : Hit) : Prop := f_ltb (hit_score h) (hit_score h') = false.

Lemma hit_score_num h : f_num (hit_score h).
Proof.
  unfold hit_score. destruct (score_memory_hit h) eqn:E; [|done].
  by apply nonneg_num_num, (score_memory_hit_num h).
Qed.

Lemma no_worse_refl h : no_worse h h.
Proof. apply (po_irrefl f_ltb (ok := f_num)), hit_score_num. Qed.

Lemma no_worse_trans h1 h2 h3 : no_worse h1 h2 -> no_worse h2 h3 -> no_worse h1 h3.
Proof.
  unfold no_worse. intros H1 H2.
  apply (po_neg_trans (ok := f_num) (hit_score h3) (hit_score h2) (hit_score h1)); auto using hit_score_num.
Qed.

(** [h] is [h'], or both have a score and [h] does not score below. *)
Definition scorable (h : Hit) : bool := is_ok (score_memory_hit h).
Definition beats (h h' : Hit) : Prop := no_worse h h' /\ (scorable h = true -> scorable h' = true).

Lemma beats_refl h : beats h h.
Proof. split; [apply no_worse_refl|done]. Qed.

Lemma beats_trans h1 h2 h3 : beats h1 h2 -> beats h2 h3 -> beats h1 h3.
Proof. intros [H1 H2] [H3 H4]. split; [by apply (no_worse_trans _ h2)|auto]. Qed.

(** The copy a comparison prefers does not score below the other. *)
Lemma prefer_spec h e b : prefer h e = Ok b -> if b then beats h e else beats e h.
Proof.
  unfold prefer. intros (s & Hs & (s' & Hs' & H)%rbind_Ok)%rbind_Ok. unfold beats, no_worse, hit_score, scorable.
  rewrite Hs, Hs'. cbn [is_ok].
  pose proof (hit_score_num h) as Hn. pose proof (hit_score_num e) as Hn'.
  unfold hit_score in Hn, Hn'. rewrite Hs in Hn. rewrite Hs' in Hn'.
  rewrite f_eqb_spec in H by done.
  destruct (f_ltb s s') eqn:E1, (f_ltb s' s) eqn:E2; cbn in H; injection H as <-; try done.
  - by rewrite <- E1, (po_asym (ok := f_num) s' s).
  - by destruct (_ <? _).
Qed.

(** ** Deduplication *)

(** What the two dicts hold after the loop has read [seen]. *)
Record dedupe_inv (seen : list Hit) (st : Best * GroupSets) : Prop := {
  di_nodup : NoDup st.1.*1;
  di_best : forall k h, od_get k st.1 = Some h -> h ∈ seen /\ hit_memory_id h = k;
  di_cover : forall h, h ∈ seen -> is_Some (od_get (hit_memory_id h) st.1);
  di_groups : forall k g, g ∈ groups_of st.2 k <->
    exists h, h ∈ seen /\ hit_memory_id h = k /\ g ∈ hit_conflict_groups h;
  di_max : forall k b h, od_get k st.1 = Some b -> h ∈ seen -> hit_memory_id h = k -> beats b h;
}.

Lemma groups_of_insert k s (g : GroupSets) k' :
  groups_of (<[k := s]> g) k' = if decide (k = k') then s else groups_of g k'.
Proof.
  unfold groups_of. case_decide as Hk; [subst; by rewrite lookup_insert_eq|by rewrite lookup_insert_ne].
Qed.

(** A key of the dict set to the hit just read, or left alone. *)
Lemma dedupe_inv_step seen best groups h best' :
  dedupe_inv seen (best, groups) ->
  ((best' = od_set (hit_memory_id h) h best
    /\ forall e, od_get (hit_memory_id h) best = Some e -> beats h e)
   \/ (best' = best /\ exists e, od_get (hit_memory_id h) best = Some e /\ beats e h)) ->
  dedupe_inv (seen ++ [h])
    (best', <[hit_memory_id h := groups_of groups (hit_memory_id h) ∪ list_to_set (hit_conflict_groups h)]> groups).
Proof.
  intros [Hnd Hb Hc Hg Hm] Hcase; cbn in *. split; cbn.
  - destruct Hcase as [[-> _]|[-> _]]; [|done]. rewrite od_set_keys.
    destruct (od_get (hit_memory_id h) best) eqn:E; [done|]. apply NoDup_app. split; [done|].
    split; [|apply NoDup_singleton]. intros k Hk ->%list_elem_of_singleton. by apply od_get_None in E.
  - intros k h'. destruct Hcase as [[-> _]|[-> _]]; [rewrite od_get_set; destruct (String.eqb _ k) eqn:E|].
    + intros [= <-]. apply String.eqb_eq in E. set_solver.
    + intros [? ?]%Hb. set_solver.
    + intros [? ?]%Hb. set_solver.
  - intros h' [Hh'| ->%list_elem_of_singleton]%elem_of_app.
    + apply Hc in Hh'. destruct Hcase as [[-> _]|[-> _]]; [|done]. rewrite od_get_set. by destruct (String.eqb _ _).
    + destruct Hcase as [[-> _]|[-> (e & He & _)]]; [by rewrite od_get_set, String.eqb_refl|by exists e].
  - intros k g. rewrite groups_of_insert. destruct (decide (hit_memory_id h = k)) as [<-|Hk].
    + rewrite elem_of_union, Hg, elem_of_list_to_set. set_solver.
    + rewrite Hg. set_solver.
  - intros k b h' Hk Hh' <-. apply elem_of_app in Hh'. rewrite list_elem_of_singleton in Hh'.
    destruct Hcase as [[-> Hbe]|[-> (e & He & Hne)]].
    + rewrite od_get_set in Hk. destruct (String.eqb _ _) eqn:E; [injection Hk as <-|].
      * apply String.eqb_eq in E. destruct Hh' as [Hh'| ->]; [|apply beats_refl].
        destruct (Hc h' Hh') as [e He]. apply (beats_trans _ e); [apply Hbe; by rewrite E|by apply (Hm _ _ _ He)].
      * destruct Hh' as [Hh'| ->]; [by apply (Hm _ _ _ Hk)|]. by rewrite String.eqb_refl in E.
    + destruct Hh' as [Hh'| ->]; [by apply (Hm _ _ _ Hk)|]. rewrite He in Hk. by injection Hk as <-.
Qed.

Lemma dedupe_step_inv seen st h st' : dedupe_inv seen st -> dedupe_step st h = Ok st' ->
  dedupe_inv (seen ++ [h]) st'.
Proof.
  destruct st as [best groups]. intros Hi. cbn [dedupe_step].
  destruct (od_get (hit_memory_id h) best) as [e|] eqn:E; [intros (better & Hp & [= <-])%rbind_Ok|intros [= <-]].
  - apply (dedupe_inv_step _ best); [done|]. apply prefer_spec in Hp. rewrite E.
    destruct better; [left|right; eauto]. split; [done|]. by intros e' [= <-].
  - apply (dedupe_inv_step _ best); [done|]. left. split; [done|]. by rewrite E.
Qed.

Lemma dedupe_fold_inv hits : forall seen st st', dedupe_inv seen st -> rfold dedupe_step st hits = Ok st' ->
  dedupe_inv (seen ++ hits) st'.
Proof.
  induction hits as [|h hits IH]; cbn; intros seen st st' Hi.
  - intros [= <-]. by rewrite app_nil_r.
  - intros (st1 & H1 & H2)%rbind_Ok. rewrite (cons_middle h seen hits), app_assoc.
    eapply IH; [|done]. by eapply dedupe_step_inv.
Qed.

(** Same hit, conflict groups aside. *)
Definition same_hit (h h' : Hit) : Prop := with_groups h [] = with_groups h' [].

Lemma same_hit_id h h' : same_hit h h' -> hit_memory_id h = hit_memory_id h'.
Proof. by intros [= ?]. Qed.

Lemma same_hit_score h h' : same_hit h h' -> hit_score h = hit_score h'.
Proof.
  intros Hs. change (hit_score h) with (hit_score (with_groups h [])).
  change (hit_score h') with (hit_score (with_groups h' [])). by rewrite Hs.
Qed.

(** One copy per memory, with the conflicts of all its copies. *)
Lemma dedupe_spec hits out : dedupe_hits hits = Ok out ->
  NoDup (hit_memory_id <$> out) /\
  (forall d, d ∈ out -> exists h, h ∈ hits /\ same_hit d h) /\
  (forall h, h ∈ hits -> exists d, d ∈ out /\ hit_memory_id d = hit_memory_id h /\ beats d h) /\
  (forall d g, d ∈ out -> g ∈ hit_conflict_groups d <->
     exists h, h ∈ hits /\ hit_memory_id h = hit_memory_id d /\ g ∈ hit_conflict_groups h).
Proof.
  unfold dedupe_hits. intros ([best groups] & Hf & [= <-])%rbind_Ok.
  assert (dedupe_inv hits (best, groups)) as [Hnd Hb Hc Hg Hm].
  { apply (dedupe_fold_inv hits [] ([], ∅)); [|done]. split; cbn; [constructor|done|set_solver| |done].
    intros k g. unfold groups_of. rewrite lookup_empty. set_solver. }
  cbn in *. assert (forall k h, (k, h) ∈ best -> h ∈ hits /\ hit_memory_id h = k) as Hbest.
  { intros k h Hin. by apply Hb, od_get_elem. }
  split_and!.
  - rewrite <- list_fmap_compose. replace (_ <$> best) with best.*1; [done|].
    apply list_fmap_ext. intros i [k h] Hi%list_elem_of_lookup_2. cbn. by destruct (Hbest k h Hi).
  - intros d ([k h] & -> & Hin)%list_elem_of_fmap. exists h. split; [by destruct (Hbest k h Hin)|done].
  - intros h Hh. destruct (Hc h Hh) as [b Hb']. destruct (Hb _ _ Hb') as [_ Hid].
    assert ((hit_memory_id h, b) ∈ best) as Hin.
    { clear - Hb'. induction best as [|[a c] best IH]; cbn in *; [done|].
      destruct (String.eqb a (hit_memory_id h)) eqn:E; [apply String.eqb_eq in E as ->|right; by apply IH].
      injection Hb' as ->. left. }
    eexists. split; [apply list_elem_of_fmap; exists (hit_memory_id h, b); split; [reflexivity|done]|].
    split; [exact Hid|]. exact (Hm _ b h Hb' Hh eq_refl).
  - intros d g ([k h] & -> & Hin)%list_elem_of_fmap. cbn. rewrite py_sorted_elem, elem_of_elements, Hg. done.
Qed.

(** ** Conflicts *)

#[local] Instance conflict_ltb_order : PyOrder conflict_ltb (fun p => f_num p.1 /\ True).
Proof.
  exact (key_ltb_order _ _ _
           (PyOrder0 := pair_ltb_order f_eqb f_ltb str_ltb f_num (fun _ => True) f_eqb_spec)).
Qed.

(** A key is the negated score of its hit. *)
Definition keyed_ok (p : binary64 * Hit) : Prop := p.1 = f_opp (hit_score p.2) /\ is_ok (score_memory_hit p.2) = true.

Lemma conflict_keys hits keyed : rmap conflict_key hits = Ok keyed -> keyed.*2 = hits /\ Forall keyed_ok keyed.
Proof.
  rewrite rmap_Ok. induction 1 as [|h p hits keyed Hp _ [IH1 IH2]]; [done|].
  unfold conflict_key in Hp. apply rbind_Ok in Hp as (s & Hs & [= <-]). cbn. rewrite IH1. split; [done|].
  constructor; [|done]. split; cbn; unfold hit_score; by rewrite Hs.
Qed.

Lemma conflict_ltb_no_worse p q : keyed_ok p -> keyed_ok q -> leb_of conflict_ltb p q -> no_worse p.2 q.2.
Proof.
  intros [Hp _] [Hq _]. unfold leb_of, conflict_ltb, key_ltb, pair_ltb, no_worse. cbn [fst snd]. rewrite Hp, Hq.
  rewrite f_eqb_spec by (apply f_num_opp, hit_score_num). rewrite !f_ltb_opp.
  by destruct (f_ltb (hit_score p.2) (hit_score q.2)), (f_ltb (hit_score q.2) (hit_score p.2)).
Qed.

Lemma StronglySorted_fmap_impl {A B : Type} (R : A -> A -> Prop) (S : B -> B -> Prop) (P : A -> Prop) (f : A -> B) l :
  (forall x y, P x -> P y -> R x y -> S (f x) (f y)) -> Forall P l -> StronglySorted R l -> StronglySorted S (f <$> l).
Proof.
  intros Himp HP. induction 1 as [|x l Hl IH Hx]; cbn; [constructor|].
  apply Forall_cons in HP as [HPx HPl]. constructor; [by apply IH|]. apply Forall_fmap.
  rewrite Forall_forall in *. intros y Hy. apply Himp; auto.
Qed.

Lemma collapse_spec hits out : collapse_conflicts hits = Ok out ->
  exists ordered, ordered ≡ₚ hits /\ StronglySorted no_worse ordered /\ collapsed ordered out.
Proof.
  unfold collapse_conflicts. intros (keyed & [Hk Hok]%conflict_keys & [= <-])%rbind_Ok.
  exists (py_sorted conflict_ltb keyed).*2. split_and!.
  - by rewrite py_sorted_perm, Hk.
  - apply (StronglySorted_fmap_impl (leb_of conflict_ltb) _ keyed_ok); [apply conflict_ltb_no_worse|by rewrite py_sorted_perm|].
    apply (py_sorted_sorted _ (ok := fun p => f_num p.1 /\ True)). apply (Forall_impl _ _ _ Hok).
    intros p [-> _]. split; [apply f_num_opp, hit_score_num|done].
  - apply (collapse_loop_spec _ _ [] [] ∅).
    + intros g. set_solver.
    + split; [by exists []|done|done].
Qed.

Lemma score_hits_Ok hits scored : score_hits hits = Ok scored ->
  hit <$> scored = hits /\ Forall (fun m => composite_score m = hit_score (hit m)) scored.
Proof.
  unfold score_hits. rewrite rmap_Ok. induction 1 as [|h m hits scored Hm _ [IH1 IH2]]; [done|].
  apply rbind_Ok in Hm as (s & Hs & [= <-]). cbn. rewrite IH1. split; [done|]. constructor; [|done].
  cbn. unfold hit_score. by rewrite Hs.
Qed.

Lemma no_worse_before (l : list Hit) i j h h' : StronglySorted no_worse l -> l !! i = Some h -> l !! j = Some h' ->
  (i < j)%nat -> no_worse h h'.
Proof.
  intros Hs. revert i j. induction Hs as [|x l Hl IH Hx]; intros i j Hi Hj Hij; [done|].
  destruct i as [|i], j as [|j]; cbn in *; try lia.
  - injection Hi as <-. rewrite Forall_forall in Hx. by apply Hx, (list_elem_of_lookup_2 _ j).
  - apply (IH i j); [done|done|lia].
Qed.

(** The candidates: who they are and where they come from. *)
Lemma candidates_spec hits scored : score_retrieval_hits hits = Ok scored ->
  exists deduped ordered, dedupe_hits hits = Ok deduped /\ ordered ≡ₚ deduped /\ StronglySorted no_worse ordered /\
    collapsed ordered (hit <$> scored) /\ Forall (fun m => composite_score m = hit_score (hit m)) scored.
Proof.
  unfold score_retrieval_hits. intros (d & Hd & (k & Hk & Hs)%rbind_Ok)%rbind_Ok.
  apply collapse_spec in Hk as (ordered & Hp & Hsort & Hc). apply score_hits_Ok in Hs as [<- Hf].
  by exists d, ordered.
Qed.

Lemma candidates_nodup hits scored : score_retrieval_hits hits = Ok scored -> NoDup (memory_id <$> scored).
Proof.
  intros (d & o & [Hnd _]%dedupe_spec & Hp & _ & [[rest Hsub] _ _] & _)%candidates_spec.
  rewrite <- Hp, <- Hsub, fmap_app in Hnd. apply NoDup_app in Hnd as [Hnd _]. by rewrite <- list_fmap_compose in Hnd.
Qed.

(** A candidate is one of the hits, conflict groups aside. *)
Lemma candidate_origin hits scored m : score_retrieval_hits hits = Ok scored -> m ∈ scored ->
  exists h, h ∈ hits /\ same_hit (hit m) h.
Proof.
  intros (d & o & (_ & Ho & _)%dedupe_spec & Hp & _ & [[rest Hsub] _ _] & _)%candidates_spec Hm.
  apply Ho. rewrite <- Hp, <- Hsub, elem_of_app. left. apply list_elem_of_fmap. by exists m.
Qed.

Lemma candidate_groups hits scored m h g : score_retrieval_hits hits = Ok scored -> m ∈ scored -> h ∈ hits ->
  hit_memory_id h = memory_id m -> g ∈ hit_conflict_groups h -> g ∈ hit_conflict_groups (hit m).
Proof.
  intros (d & o & (_ & _ & _ & Hg)%dedupe_spec & Hp & _ & [[rest Hsub] _ _] & _)%candidates_spec Hm Hh Hid Hgh.
  apply Hg; [|by exists h]. rewrite <- Hp, <- Hsub, elem_of_app. left. apply list_elem_of_fmap. by exists m.
Qed.

(** Scoring succeeds only when every hit has a score. *)
Lemma candidates_scorable hits scored h : score_retrieval_hits hits = Ok scored -> h ∈ hits -> scorable h = true.
Proof.
  unfold score_retrieval_hits. intros (d & Hd & (k & Hk & _)%rbind_Ok)%rbind_Ok Hh.
  apply dedupe_spec in Hd as (_ & _ & Hcov & _). destruct (Hcov h Hh) as (c & Hc & _ & [_ Hw]). apply Hw.
  unfold collapse_conflicts in Hk. apply rbind_Ok in Hk as (keyed & [<- Hok]%conflict_keys & _).
  apply list_elem_of_fmap in Hc as (p & -> & Hp). rewrite Forall_forall in Hok. by apply Hok.
Qed.

(** ** Scoring returns *)

Lemma prefer_total h e : scorable h = true -> scorable e = true -> is_ok (prefer h e) = true.
Proof.
  unfold scorable, prefer. destruct (score_memory_hit h), (score_memory_hit e); cbn; try done. intros _ _. by case_if.
Qed.

Lemma dedupe_fold_total hits : forall best groups, (forall h, h ∈ hits -> scorable h = true) ->
  (forall k h, od_get k best = Some h -> scorable h = true) ->
  exists st, rfold dedupe_step (best, groups) hits = Ok st.
Proof.
  induction hits as [|h hits IH]; intros best groups Hh Hb; cbn [rfold]; [eauto|].
  assert (scorable h = true) as Hsc by (apply Hh; left).
  assert (forall k h', od_get k (od_set (hit_memory_id h) h best) = Some h' -> scorable h' = true) as Hset.
  { intros k h'. rewrite od_get_set. destruct (String.eqb _ k); [by intros [= <-]|apply Hb]. }
  cbn [dedupe_step]. destruct (od_get (hit_memory_id h) best) as [e|] eqn:E; cbn [rbind].
  - pose proof (prefer_total h e Hsc (Hb _ _ E)) as Hp. destruct (prefer h e) as [better|]; [|done]. cbn [rbind].
    apply IH; [intros; apply Hh; by right|]. by destruct better.
  - apply IH; [intros; apply Hh; by right|done].
Qed.

Lemma candidates_total hits : (forall h, h ∈ hits -> scorable h = true) ->
  exists scored, score_retrieval_hits hits = Ok scored.
Proof.
  intros Hh. assert (exists d, dedupe_hits hits = Ok d) as [d Hd].
  { unfold dedupe_hits. destruct (dedupe_fold_total hits [] ∅ Hh) as [[best groups] ->]; [done|]. cbn. eauto. }
  assert (forall c, c ∈ d -> scorable c = true) as Hc.
  { intros c Hc. apply dedupe_spec in Hd as (_ & Ho & _). destruct (Ho c Hc) as (h & Hin & Hs).
    unfold scorable. change (score_memory_hit c) with (score_memory_hit (with_groups c [])). rewrite Hs. exact (Hh h Hin). }
  assert (exists k, collapse_conflicts d = Ok k) as [k Hk].
  { unfold collapse_conflicts. destruct (rmap_total conflict_key d) as [ks ->]; [|cbn; eauto].
    intros c Hin. apply Hc in Hin. unfold scorable in Hin. unfold conflict_key. by destruct (score_memory_hit c). }
  unfold score_retrieval_hits. rewrite Hd. cbn [rbind]. rewrite Hk. cbn [rbind]. apply rmap_total.
  intros c Hin. apply collapse_spec in Hk as (o & Hp & _ & [[rest Hsub] _ _]).
  assert (c ∈ d) as Hcd%Hc by (rewrite <- Hp, <- Hsub; set_solver).
  unfold scorable in Hcd. by destruct (score_memory_hit c).
Qed.

(** At most one side of a pending conflict becomes a candidate.  Merging
    hot and cold hits keeps one copy per memory; two kept memories share no
    escalation that any copy of either carries; and a memory that is not kept
    was beaten: some kept memory, in conflict with it and scoring no lower than
    any of its copies, is there instead. *)
Theorem conflicts_keep_best_side hits scored : score_retrieval_hits hits = Ok scored ->
  NoDup (memory_id <$> scored) /\
  (forall m m' h h', m ∈ scored -> m' ∈ scored -> memory_id m <> memory_id m' -> h ∈ hits -> h' ∈ hits ->
     hit_memory_id h = memory_id m -> hit_memory_id h' = memory_id m' -> ~ conflicting h h') /\
  (forall h, h ∈ hits -> hit_memory_id h ∈ memory_id <$> scored \/
     exists m h1 h2, m ∈ scored /\ f_ltb (composite_score m) (hit_score h) = false /\ h1 ∈ hits /\ h2 ∈ hits /\
       hit_memory_id h1 = memory_id m /\ hit_memory_id h2 = hit_memory_id h /\ conflicting h1 h2).
Proof.
  intros Hs. split; [by apply (candidates_nodup hits)|].
  pose proof (candidates_spec _ _ Hs) as (d & o & Hd & Hp & Hsort & [_ Hfree Hbeat] & Hsc).
  apply dedupe_spec in Hd as (_ & _ & Hcov & Hgr). split.
  - intros m m' h h' Hm Hm' Hne Hh Hh' Hid Hid' (g & Hg & Hg').
    apply list_elem_of_lookup in Hm as Hi; destruct Hi as [i Hi].
    apply list_elem_of_lookup in Hm' as Hj; destruct Hj as [j Hj].
    apply (Hfree i j (hit m) (hit m')); [by rewrite list_lookup_fmap, Hi|by rewrite list_lookup_fmap, Hj| |].
    + intros ->. congruence.
    + exists g. split; [by apply (candidate_groups hits scored m h)|by apply (candidate_groups hits scored m' h')].
  - intros h Hh. destruct (Hcov h Hh) as (c & Hc & Hid & Hw).
    assert (c ∈ o) as [i Hi]%list_elem_of_lookup by (by rewrite Hp).
    destruct (Hbeat i c Hi) as [Hk|(j & k & Hji & Hj & Hk & g & Hg1 & Hg2)].
    + left. rewrite <- Hid. apply list_elem_of_fmap in Hk as (m & -> & Hm). apply list_elem_of_fmap. by exists m.
    + right. pose proof (no_worse_before o j i k c Hsort Hj Hi Hji) as Hkc.
      apply list_elem_of_fmap in Hk as (m & -> & Hm). rewrite Forall_forall in Hsc.
      assert (hit m ∈ d) as Hmd by (rewrite <- Hp; by apply (list_elem_of_lookup_2 _ j)).
      apply (Hgr _ _ Hmd) in Hg1 as (h1 & ? & ? & ?). apply (Hgr _ _ Hc) in Hg2 as (h2 & ? & ? & ?).
      exists m, h1, h2. rewrite (Hsc m Hm). split_and!; try done; [|congruence|by exists g].
      exact (no_worse_trans _ _ _ Hkc (proj1 Hw)).
Qed.

Module CandidatesSample.
Definition mk (id : string) (similarity rank : Z) (groups : list string) : Hit :=
  {| hit_memory_id := id; hit_org_id := "o"; hit_agent_id := "a"; hit_content := id; hit_category := "factual";
     hit_confidence := b64_of_Z 1; hit_similarity := b64_div (b64_of_Z similarity) (b64_of_Z 100); hit_rank := rank;
     hit_source := "cold"; hit_conflict_groups := groups |}.
(** The conflict [g] between [x] and [y] is seen by one copy of [x] only. *)
Definition hits : list Hit := [mk "x" 90 1 []; mk "y" 80 2 ["g"%string]; mk "z" 70 3 []; mk "x" 60 4 ["g"%string]].

Example y_suppressed :
  match score_retrieval_hits hits with
  | Ok scored => memory_id <$> scored = ["x"; "z"]%string
  | Raise _ => False
  end.
Proof. vm_compute. reflexivity. Qed.

Lemma conflicts_keep_best_side_witness : exists scored, score_retrieval_hits hits = Ok scored /\
  NoDup (memory_id <$> scored).
Proof.
  destruct (score_retrieval_hits hits) as [scored|e] eqn:E; [|vm_compute in E; discriminate].
  exists scored. split; [reflexivity|]. exact (proj1 (conflicts_keep_best_side hits scored E)).
Defined.
End CandidatesSample.
