(* ===== verification/Assemble.v ===== *)
(** * Context assembly ([services/context/app/assemble.py])

    Retrieve, budget, score, pack and format one request, with the fitting of
    the packed memories to what their markup really costs.  The readings of
    [time.perf_counter] and the nonce [secrets] draws are arguments. *)

From Stdlib Require Import SpecFloat.
From S2P Require Import Prelude Num Packer Formatter TokenBudget PyText Wire AuthCodec Redaction Retrieval Candidates.

Abbreviation Memory := (ScoredMemory binary64).
Abbreviation Packed := (PackedMemories binary64).

Inductive AssembleError :=
| RetrievalFailed (e : RetrievalError)
| BudgetFailed (e : BudgetError)
| PackFailed (e : PackError)
| FormatFailed (e : FormatError).

(** Exceptions of a callee, unchanged. *)
Definition lift {E A : Type} (f : E -> AssembleError) (r : result E A) : result AssembleError A :=
  match r with Ok a => Ok a | Raise e => Raise (f e) end.

Inductive DegradationLevel := L0 | L1 | L2.

Record AssemblyOptions := { skip_cold_memories : bool; skip_hot_memories : bool; max_memories : Z }.

Record AssemblyMetricsSnapshot := {
  budget_calculation_ms : Z;
  directive_load_ms : Z;
  hot_memory_retrieval_ms : Z;
  cold_memory_retrieval_ms : Z;
  ranking_ms : Z;
  packing_ms : Z;
  formatting_ms : Z;
  total_ms : Z;
  am_candidates_evaluated : Z;
}.

Inductive Exclusion := included | excluded_budget | excluded_filter.

#[global] Instance Exclusion_eq_dec : EqDecision Exclusion.
Proof. solve_decision. Defined.

Record MemoryUsedRecord := {
  mu_memory_id : string;
  mu_composite_score : binary64;
  mu_relevance_score : binary64;
  mu_recency_score : binary64;
  mu_usefulness_score : binary64;
  mu_rank : Z;
  mu_category : string;
  mu_exclusion : Exclusion;
  mu_similarity : binary64;
  mu_confidence : binary64;
  mu_token_estimate : Z;
}.

Record AssembleRequest := {
  ar_org_id : UUID;
  ar_agent_id : UUID;
  ar_query : string;
  ar_model : string;
  ar_recent_messages : list Message;
  ar_session_id : string;
  ar_directive_version_id : string;
  ar_request_id : string;
  ar_trace_id : string;
  ar_span_id : string;
  ar_available_tokens : Z;
  ar_options : AssemblyOptions;
  ar_tool_schemas : list string;
}.

Record AssemblyResult := {
  formatted : FormattedContext;
  packed : Packed;
  budget : TokenBudget;
  retrieval : RetrievalResult;
  metrics : AssemblyMetricsSnapshot;
  degradation_level : DegradationLevel;
  memories_used_ : list MemoryUsedRecord;
  tokens_used : Z;
  as_request_id : string;
  as_trace_id : string;
  as_span_id : string;
}.

Record ContextSettings := {
  st_timeout_ms : binary64;
  st_deadline_ms : binary64;
  st_packer_dp_cell_ceiling : Z;
  st_packer_max_consecutive_skips : Z;
  st_formatter_nonce_bytes : Z;
}.

(** [min(timeout_ms, deadline_ms)] *)
Definition retrieval_wall_ms (s : ContextSettings) : binary64 :=
  if f_ltb (st_deadline_ms s) (st_timeout_ms s) then st_deadline_ms s else st_timeout_ms s.

(** ** Degradation *)

Definition apply_skip_options (r : RetrievalResult) (o : AssemblyOptions) : RetrievalResult :=
  {| rs_directive := rs_directive r; rs_directive_outcome := rs_directive_outcome r;
     rs_hot_memories := if skip_hot_memories o then [] else rs_hot_memories r; rs_hot_outcome := rs_hot_outcome r;
     rs_cold_memories := if skip_cold_memories o then [] else rs_cold_memories r; rs_cold_outcome := rs_cold_outcome r;
     rs_recent_messages := rs_recent_messages r; rs_history_tokens := rs_history_tokens r;
     rs_sources_available := rs_sources_available r |}.

Definition source_usable (skipped : bool) (st : BranchStatus) : bool :=
  (negb skipped && bool_decide (st = success))%bool.

Definition classify_degradation (r : RetrievalResult) (o : AssemblyOptions) : DegradationLevel * bool :=
  let hot_usable := source_usable (skip_hot_memories o) (status (rs_hot_outcome r)) in
  let cold_usable := source_usable (skip_cold_memories o) (status (rs_cold_outcome r)) in
  let intentional := (skip_hot_memories o || skip_cold_memories o)%bool in
  if (hot_usable && cold_usable)%bool then (L0, false)
  else if (negb hot_usable && negb cold_usable)%bool then (L2, intentional)
  else (L1, intentional).

Definition score_candidates (r : RetrievalResult) (o : AssemblyOptions) (level : DegradationLevel)
    : result PackError (list Memory) :=
  match level with
  | L2 => Ok []
  | _ =>
      let* scored := score_retrieval_hits (rs_hot_memories r ++ rs_cold_memories r) in
      Ok (if 0 <? max_memories o then take (Z.to_nat (max_memories o)) scored else scored)
  end.

Definition apply_available_tokens (b : TokenBudget) (available_tokens : Z) : TokenBudget :=
  if ((available_tokens <=? 0) || (usable_budget b <=? available_tokens))%bool then b
  else {| tb_context_window := tb_context_window b; response_reserve := response_reserve b;
          safety_buffer := safety_buffer b; usable_budget := available_tokens;
          directive_tokens := directive_tokens b; messages_tokens := messages_tokens b;
          is_constrained := available_tokens <? MIN_VIABLE_MEMORY_BUDGET; tb_estimate_kind := tb_estimate_kind b;
          tool_schemas_tokens := tool_schemas_tokens b; formatter_overhead_tokens := formatter_overhead_tokens b |}.

(** ** Costs that count the markup *)

Definition tokens_of_text (text : string) (policy : TokenizerFamilyPolicy) : result BudgetError Z :=
  let* r := estimate text policy in Ok r.1.

Definition memory_wrap_delta (item : Memory) (policy : TokenizerFamilyPolicy) (nonce : string) (raw_tokens : option Z)
    : result BudgetError Z :=
  let* raw := match raw_tokens with Some r => Ok r | None => tokens_of_text (content item) policy end in
  let* wrapped := estimate_wrapped_memory_tokens nonce (memory_id item) (category item) (content item) policy in
  Ok (Z.max 0 (wrapped.1 - Z.max 0 raw)).

Definition wrap_aware_cost (policy : TokenizerFamilyPolicy) (nonce : string) (item : Memory)
    : result BudgetError (string * Z) :=
  let* raw := tokens_of_text (content item) policy in
  let* wrap := memory_wrap_delta item policy nonce (Some raw) in
  Ok (memory_id item, Z.max 0 raw + wrap).

Definition wrap_aware_costs (scored : list Memory) (policy : TokenizerFamilyPolicy) (nonce : string)
    : result BudgetError (gmap string Z) :=
  let* kvs := rmap (wrap_aware_cost policy nonce) scored in Ok (dict_of kvs).

Definition raw_token_estimate (item : Memory) (estimates : gmap string Z) (policy : TokenizerFamilyPolicy)
    : result BudgetError Z :=
  match estimates !! memory_id item with Some t => Ok t | None => tokens_of_text (content item) policy end.

Definition memory_separator_tokens (count : Z) (policy : TokenizerFamilyPolicy) : result BudgetError Z :=
  if count <=? 1 then Ok 0
  else let* sep := tokens_of_text newline policy in Ok ((count - 1) * sep).

Record WrapCostContext := {
  wc_policy : TokenizerFamilyPolicy;
  wc_nonce : string;
  wc_estimates : gmap string Z;
  wc_cost_by_id : option (gmap string Z);
}.

Definition item_wrap_tokens (item : Memory) (raw : Z) (ctx : WrapCostContext) : result BudgetError Z :=
  match wc_cost_by_id ctx with
  | Some costs =>
      match costs !! memory_id item with
      | Some c => Ok (Z.max 0 (c - Z.max 0 raw))
      | None => memory_wrap_delta item (wc_policy ctx) (wc_nonce ctx) (Some raw)
      end
  | None => memory_wrap_delta item (wc_policy ctx) (wc_nonce ctx) (Some raw)
  end.

Definition add_item_cost (ctx : WrapCostContext) (acc : Z * Z) (item : Memory) : result BudgetError (Z * Z) :=
  let* raw := raw_token_estimate item (wc_estimates ctx) (wc_policy ctx) in
  let* wrap := item_wrap_tokens item raw ctx in
  Ok (acc.1 + Z.max 0 raw, acc.2 + wrap).

Definition selection_raw_and_wrap (remaining : list Memory) (ctx : WrapCostContext) : result BudgetError (Z * Z) :=
  let* '(raw_total, wrap_total) := rfold (add_item_cost ctx) (0, 0) remaining in
  let* sep := memory_separator_tokens (Z.of_nat (length remaining)) (wc_policy ctx) in
  Ok (raw_total, wrap_total + sep).

Definition selection_fits_budget (remaining : list Memory) (usable : Z) (ctx : WrapCostContext)
    : result BudgetError bool :=
  let* '(raw_total, wrap_total) := selection_raw_and_wrap remaining ctx in
  Ok (raw_total + wrap_total <=? usable).

(** ** Dropping and refilling *)

(** The index [_drop_lowest_score] pops. *)
Definition lowest_score (remaining : list Memory) : nat :=
  argmin (key_ltb (fun m => (composite_score m, memory_id m)) (pair_ltb f_eqb f_ltb str_ltb)) remaining.

(** [while remaining and not fits: dropped.add(pop the lowest)]; every
    iteration removes one memory, so [length remaining] iterations suffice. *)
Fixpoint drop_wrap_loop (fuel : nat) (usable : Z) (ctx : WrapCostContext) (remaining : list Memory)
    (dropped : gset string) : result BudgetError (list Memory * gset string) :=
  match remaining, fuel with
  | [], _ | _, O => Ok (remaining, dropped)
  | _, S fuel =>
      let* fits := selection_fits_budget remaining usable ctx in
      if fits then Ok (remaining, dropped)
      else
        let at_ := lowest_score remaining in
        drop_wrap_loop fuel usable ctx (delete at_ remaining) ({[ memory_id (remaining !!! at_) ]} ∪ dropped)
  end.

Definition drop_until_wrap_fits (remaining : list Memory) (usable : Z) (ctx : WrapCostContext)
    : result BudgetError (list Memory * gset string) :=
  drop_wrap_loop (length remaining) usable ctx remaining ∅.

(** [_try_append_if_fits] as the new list, or [None]. *)
Definition try_append_if_fits (out : list Memory) (item : Memory) (usable : Z) (ctx : WrapCostContext)
    : result BudgetError (option (list Memory)) :=
  let trial := out ++ [item] in
  let* fits := selection_fits_budget trial usable ctx in
  Ok (if fits then Some trial else None).

Definition refill_step (usable : Z) (ctx : WrapCostContext) (st : list Memory * gset string) (item : Memory)
    : result BudgetError (list Memory * gset string) :=
  let '(out, chosen_ids) := st in
  if bool_decide (memory_id item ∈ chosen_ids) then Ok st
  else
    let* trial := try_append_if_fits out item usable ctx in
    Ok (match trial with Some out' => (out', chosen_ids ∪ {[ memory_id item ]}) | None => st end).

Definition ids_of (ms : list Memory) : gset string := list_to_set (memory_id <$> ms).

Definition greedy_wrap_refill (chosen scored : list Memory) (usable : Z) (ctx : WrapCostContext)
    : result BudgetError (list Memory) :=
  let* r := rfold (refill_step usable ctx) (chosen, ids_of chosen) (py_sorted score_ltb scored) in Ok r.1.

Definition dropped_after_refill (remaining refilled : list Memory) (prior_excluded already_dropped : gset string)
    : gset string :=
  let final_ids := ids_of refilled in
  (already_dropped ∖ final_ids) ∪ (ids_of remaining ∖ final_ids) ∪ (prior_excluded ∖ final_ids).

Definition add_wrapped_total (estimates : gmap string Z) (policy : TokenizerFamilyPolicy) (costs : gmap string Z)
    (total : Z) (item : Memory) : result BudgetError Z :=
  match costs !! memory_id item with
  | Some c => Ok (total + Z.max 0 c)
  | None => let* raw := raw_token_estimate item estimates policy in Ok (total + Z.max 0 raw)
  end.

Definition wrapped_total_tokens (remaining : list Memory) (estimates : gmap string Z) (policy : TokenizerFamilyPolicy)
    (costs : gmap string Z) : result BudgetError Z :=
  rfold (add_wrapped_total estimates policy costs) 0 remaining.

Definition rebuild_after_wrap_trim (pk : Packed) (remaining : list Memory) (dropped_ids : gset string)
    (estimates : gmap string Z) (policy : TokenizerFamilyPolicy) (costs : gmap string Z) : result BudgetError Packed :=
  let prior_ids := ids_of (memories pk) in
  let final_ids := ids_of remaining in
  let refilled := final_ids ∖ prior_ids in
  let dropped_from_selection := prior_ids ∖ final_ids in
  let* total := wrapped_total_tokens remaining estimates policy costs in
  Ok {| memories := remaining; total_tokens := total; total_score := f_sum (composite_score <$> remaining);
        skipped_count := skipped_count pk + Z.of_nat (size dropped_from_selection) - Z.of_nat (size refilled);
        was_budget_reached := negb (bool_decide (dropped_ids = ∅)); path := path pk;
        candidates_evaluated := candidates_evaluated pk; budget_excluded_ids := dropped_ids;
        token_estimates := estimates |}.

Definition trim_packed_for_wrap (pk : Packed) (scored : list Memory) (usable : Z) (policy : TokenizerFamilyPolicy)
    (nonce : string) (costs : gmap string Z) : result BudgetError Packed :=
  if usable <=? 0 then Ok pk
  else
    let estimates := token_estimates pk in
    let ctx := {| wc_policy := policy; wc_nonce := nonce; wc_estimates := estimates; wc_cost_by_id := Some costs |} in
    let* '(remaining, dropped) := drop_until_wrap_fits (memories pk) usable ctx in
    let* refilled := greedy_wrap_refill remaining scored usable ctx in
    let dropped_ids := dropped_after_refill remaining refilled (budget_excluded_ids pk) dropped in
    if (bool_decide (dropped_ids = ∅) && (Nat.eqb (length refilled) (length (memories pk))))%bool then Ok pk
    else rebuild_after_wrap_trim pk refilled dropped_ids estimates policy costs.

(** [_memory_wrap_reserve] *)
Definition reserve_step (usable : Z) (policy : TokenizerFamilyPolicy) (nonce : string) (acc : Z * Z) (item : Memory)
    : result BudgetError (Z * Z) :=
  let '(used, reserve) := acc in
  let* raw := tokens_of_text (content item) policy in
  let* wrap := memory_wrap_delta item policy nonce (Some raw) in
  let cost := Z.max 0 raw + wrap in
  Ok (if ((cost <=? 0) || (usable - used <? cost))%bool then acc else (used + cost, reserve + wrap)).

Definition memory_wrap_reserve (scored : list Memory) (usable : Z) (policy : TokenizerFamilyPolicy) (nonce : string)
    : result BudgetError Z :=
  if ((usable <=? 0) || bool_decide (scored = []))%bool then Ok 0
  else let* acc := rfold (reserve_step usable policy nonce) (0, 0) (py_sorted score_ltb scored) in Ok acc.2.

(** ** The result *)

Definition memory_used (item : Memory) (exclusion : Exclusion) (token_estimate : Z) : MemoryUsedRecord :=
  {| mu_memory_id := memory_id item; mu_composite_score := composite_score item;
     mu_relevance_score := hit_similarity (hit item); mu_recency_score := f_zero; mu_usefulness_score := f_zero;
     mu_rank := hit_rank (hit item); mu_category := category item; mu_exclusion := exclusion;
     mu_similarity := hit_similarity (hit item); mu_confidence := hit_confidence (hit item);
     mu_token_estimate := token_estimate |}.

Definition exclusion_of (pk : Packed) (item : Memory) : Exclusion :=
  if bool_decide (memory_id item ∈ ids_of (memories pk)) then included
  else if bool_decide (memory_id item ∈ budget_excluded_ids pk) then excluded_budget
  else excluded_filter.

Definition memories_used (scored : list Memory) (pk : Packed) (policy : TokenizerFamilyPolicy)
    : result BudgetError (list MemoryUsedRecord) :=
  rmap (fun item =>
    let* t := raw_token_estimate item (token_estimates pk) policy in
    Ok (memory_used item (exclusion_of pk item) t)) scored.

(** [max(0, round(...))] of a latency and of two readings of the clock. *)
Definition outcome_ms (latency : binary64) : Z := Z.max 0 (b64_round latency).
Definition elapsed (now started : binary64) : Z :=
  Z.max 0 (b64_round (b64_mul (b64_sub now started) (b64_of_Z 1000))).

Record StageTimings := { tm_budget : Z; tm_ranking : Z; tm_packing : Z; tm_formatting : Z; tm_total : Z }.

Definition build_metrics (r : RetrievalResult) (t : StageTimings) (evaluated : Z) : AssemblyMetricsSnapshot :=
  {| budget_calculation_ms := tm_budget t;
     directive_load_ms := outcome_ms (latency_ms (rs_directive_outcome r));
     hot_memory_retrieval_ms := outcome_ms (latency_ms (rs_hot_outcome r));
     cold_memory_retrieval_ms := outcome_ms (latency_ms (rs_cold_outcome r));
     ranking_ms := tm_ranking t; packing_ms := tm_packing t; formatting_ms := tm_formatting t;
     total_ms := tm_total t; am_candidates_evaluated := evaluated |}.

(** The clock: the [n]-th reading of [time.perf_counter] in [assemble]. *)
Definition stage_timings (clock : nat -> binary64) : StageTimings :=
  {| tm_budget := elapsed (clock 2%nat) (clock 1%nat); tm_ranking := elapsed (clock 4%nat) (clock 3%nat);
     tm_packing := elapsed (clock 6%nat) (clock 5%nat); tm_formatting := elapsed (clock 8%nat) (clock 7%nat);
     tm_total := elapsed (clock 9%nat) (clock 0%nat) |}.

Definition build_assembly_result (q : AssembleRequest) (r : RetrievalResult) (level : DegradationLevel)
    (b : TokenBudget) (scored : list Memory) (pk : Packed) (f : FormattedContext) (t : StageTimings)
    (policy : TokenizerFamilyPolicy) : result AssembleError AssemblyResult :=
  let* used := lift BudgetFailed (memories_used scored pk policy) in
  Ok {| formatted := f; packed := pk; budget := b; retrieval := r;
        metrics := build_metrics r t (candidates_evaluated pk); degradation_level := level;
        memories_used_ := used; tokens_used := directive_tokens b + messages_tokens b + total_tokens pk;
        as_request_id := ar_request_id q; as_trace_id := ar_trace_id q; as_span_id := ar_span_id q |}.

Definition make_packer (s : ContextSettings) (cat : CapabilityCatalog) (model : string) : result AssembleError ContextPacker :=
  let* cap := lift BudgetFailed (for_model cat model) in
  let* policy := lift BudgetFailed (family_policy cat (tokenizer_family cap)) in
  lift PackFailed (context_packer policy BUCKET_SIZE (st_packer_dp_cell_ceiling s) (st_packer_max_consecutive_skips s)).

Definition pack_scored (s : ContextSettings) (cat : CapabilityCatalog) (scored : list Memory) (usable : Z)
    (model : string) (policy : TokenizerFamilyPolicy) : result AssembleError Packed :=
  let nonce := representative_nonce (st_formatter_nonce_bytes s) in
  let* costs := lift BudgetFailed (wrap_aware_costs scored policy nonce) in
  let* packer := make_packer s cat model in
  let* pk := lift PackFailed (pack packer scored usable (Some costs)) in
  lift BudgetFailed (trim_packed_for_wrap pk scored usable policy nonce costs).

(** [_pack_and_format]; [generated] is the nonce [secrets.token_urlsafe] draws. *)
Definition pack_and_format (s : ContextSettings) (cat : CapabilityCatalog) (clock : nat -> binary64)
    (generated : string) (q : AssembleRequest) (r : RetrievalResult) (level : DegradationLevel)
    : result AssembleError AssemblyResult :=
  let messages := ar_recent_messages q in
  let directive_text := match rs_directive r with Some d => dir_content d | None => ""%string end in
  let* b := lift BudgetFailed (calculate cat
    {| br_model := ar_model q; br_messages := messages; br_directive := directive_text;
       br_tool_schemas := ar_tool_schemas q; br_nonce_bytes := st_formatter_nonce_bytes s |}) in
  let b := apply_available_tokens b (ar_available_tokens q) in
  let* scored := lift PackFailed (score_candidates r (ar_options q) level) in
  let* cap := lift BudgetFailed (for_model cat (ar_model q)) in
  let* policy := lift BudgetFailed (family_policy cat (tokenizer_family cap)) in
  let* pk := pack_scored s cat scored (usable_budget b) (ar_model q) policy in
  let* f := lift FormatFailed (format generated
    {| fr_directive := rs_directive r; fr_recent_messages := messages; fr_packed := pk;
       fr_tool_schemas := ar_tool_schemas q; fr_nonce := None |}) in
  build_assembly_result q r level b scored pk f (stage_timings clock) policy.

(** The request [_retrieve] makes; limits are the defaults of its type. *)
Definition retrieval_request (q : AssembleRequest) : RetrievalRequest :=
  {| rr_org_id := ar_org_id q; rr_agent_id := ar_agent_id q; rr_query := ar_query q; rr_model := ar_model q;
     rr_recent_messages := ar_recent_messages q; rr_hot_limit := 20; rr_cold_limit := 10;
     rr_min_confidence := f_zero |}.

(** [assemble] *)
Definition assemble `{UnicodeDB} (s : ContextSettings) (cfg : MemoryHttpConfig) (cat : CapabilityCatalog) (w : World)
    (clock : nat -> binary64) (generated : string) (q : AssembleRequest) : result AssembleError AssemblyResult :=
  let* r := lift RetrievalFailed (retrieve cfg (retrieval_wall_ms s) w cat (retrieval_request q)) in
  let r := apply_skip_options r (ar_options q) in
  let '(level, _) := classify_degradation r (ar_options q) in
  pack_and_format s cat clock generated q r level.
