(* ===== verification/AssembleFit.v ===== *)
(** * What assembly guarantees

    The assembled prompt fits the model's window, holds only the tenant's own
    memories and at most one side of a conflict, and the response accounts for
    every candidate. *)

From Stdlib Require Import SpecFloat.
From S2P Require Import Prelude Num Packer Formatter TokenBudget PyText Redaction Retrieval Candidates Assemble.

(** ** What a selection costs *)

Section Costs.
Context (policy : TokenizerFamilyPolicy) (nonce : string) (Hpol : supported_policy policy = true).

Definition raw_cost (m : Memory) : Z := est policy (str_len (content m)).
Definition wrapped_cost (m : Memory) : Z := est policy (str_len (wrap_memory nonce m)).
Definition item_cost (m : Memory) : Z := Z.max (raw_cost m) (wrapped_cost m).
Definition separators (n : nat) : Z := Z.max 0 (Z.of_nat n - 1) * est policy 1.
Definition sel_cost (ms : list Memory) : Z := sumZ item_cost ms + separators (length ms).

Lemma raw_cost_nonneg m : 0 <= raw_cost m.
Proof. apply est_nonneg, str_len_nonneg. Qed.

Lemma item_cost_nonneg m : 0 <= item_cost m.
Proof. pose proof (raw_cost_nonneg m). unfold item_cost. lia. Qed.

Lemma tokens_of_text_est t : tokens_of_text t policy = Ok (est policy (str_len t)).
Proof. unfold tokens_of_text. by rewrite estimate_supported. Qed.

Lemma memory_wrap_delta_est m raw : memory_wrap_delta m policy nonce (Some raw)
  = Ok (Z.max 0 (wrapped_cost m - Z.max 0 raw)).
Proof.
  unfold memory_wrap_delta, estimate_wrapped_memory_tokens, serialize_memory_element_for_estimate.
  cbn [rbind]. by rewrite estimate_supported.
Qed.

Lemma wrap_aware_cost_est m : wrap_aware_cost policy nonce m = Ok (memory_id m, item_cost m).
Proof.
  unfold wrap_aware_cost. rewrite tokens_of_text_est. cbn [rbind]. rewrite memory_wrap_delta_est. cbn [rbind].
  pose proof (raw_cost_nonneg m). unfold item_cost, raw_cost in *. do 2 f_equal. lia.
Qed.

Lemma wrap_aware_costs_est scored :
  wrap_aware_costs scored policy nonce = Ok (dict_of ((fun m => (memory_id m, item_cost m)) <$> scored)).
Proof.
  unfold wrap_aware_costs.
  assert (rmap (wrap_aware_cost policy nonce) scored = Ok ((fun m => (memory_id m, item_cost m)) <$> scored)) as ->.
  { apply rmap_Ok. induction scored as [|m l IH]; [constructor|]. constructor; [apply wrap_aware_cost_est|exact IH]. }
  done.
Qed.

Lemma separators_est n : memory_separator_tokens (Z.of_nat n) policy = Ok (separators n).
Proof.
  unfold memory_separator_tokens, separators. destruct (Z.of_nat n <=? 1) eqn:E; bools.
  - f_equal. lia.
  - rewrite tokens_of_text_est. cbn [rbind]. change (str_len newline) with 1. f_equal. lia.
Qed.

Lemma separators_mono n k : (n <= k)%nat -> separators n <= separators k.
Proof. intros H. pose proof (est_nonneg policy 1). unfold separators. apply Z.mul_le_mono_nonneg_r; lia. Qed.

Lemma sel_cost_sub ms ms' rest : ms ++ rest ≡ₚ ms' -> sel_cost ms <= sel_cost ms'.
Proof.
  intros Hp. unfold sel_cost. rewrite <- (sumZ_perm _ _ _ Hp), sumZ_app.
  pose proof (sumZ_nonneg item_cost rest (fun m _ => item_cost_nonneg m)).
  pose proof (separators_mono (length ms) (length ms')) as Hs.
  apply Permutation_length in Hp. rewrite length_app in Hp. lia.
Qed.

Lemma sel_cost_perm ms ms' : ms ≡ₚ ms' -> sel_cost ms = sel_cost ms'.
Proof. intros Hp. unfold sel_cost. by rewrite (sumZ_perm _ _ _ Hp), (Permutation_length Hp). Qed.

Lemma sel_cost_nil : sel_cost [] = 0.
Proof.
  unfold sel_cost, separators. cbn [length]. rewrite sumZ_nil. change (Z.max 0 (Z.of_nat 0 - 1)) with 0. lia.
Qed.

(** A context whose tables are those of the candidates [scored]. *)
Record ctx_ok (scored : list Memory) (ctx : WrapCostContext) : Prop := {
  cx_policy : wc_policy ctx = policy;
  cx_nonce : wc_nonce ctx = nonce;
  cx_raw : forall m t, m ∈ scored -> wc_estimates ctx !! memory_id m = Some t -> t = raw_cost m;
  cx_cost : forall m costs c, m ∈ scored -> wc_cost_by_id ctx = Some costs -> costs !! memory_id m = Some c ->
    c = item_cost m;
}.

Section Selection.
Context (scored : list Memory) (ctx : WrapCostContext) (Hctx : ctx_ok scored ctx).

Lemma raw_token_estimate_est m : m ∈ scored -> raw_token_estimate m (wc_estimates ctx) policy = Ok (raw_cost m).
Proof.
  intros Hm. unfold raw_token_estimate. destruct (wc_estimates ctx !! memory_id m) as [t|] eqn:E.
  - by rewrite (cx_raw _ _ Hctx m t Hm E).
  - apply tokens_of_text_est.
Qed.

Lemma item_wrap_tokens_est m : m ∈ scored -> item_wrap_tokens m (raw_cost m) ctx = Ok (item_cost m - raw_cost m).
Proof.
  intros Hm. pose proof (raw_cost_nonneg m) as Hn.
  assert (memory_wrap_delta m (wc_policy ctx) (wc_nonce ctx) (Some (raw_cost m)) = Ok (item_cost m - raw_cost m)) as Hd.
  { rewrite (cx_policy _ _ Hctx), (cx_nonce _ _ Hctx), memory_wrap_delta_est. f_equal. unfold item_cost. lia. }
  unfold item_wrap_tokens. destruct (wc_cost_by_id ctx) as [costs|] eqn:Ec; [|done].
  destruct (costs !! memory_id m) as [c|] eqn:E; [|done].
  rewrite (cx_cost _ _ Hctx m costs c Hm Ec E). f_equal. unfold item_cost. lia.
Qed.

Lemma fold_costs l : forall a b, (forall m, m ∈ l -> m ∈ scored) ->
  rfold (add_item_cost ctx) (a, b) l = Ok (a + sumZ raw_cost l, b + (sumZ item_cost l - sumZ raw_cost l)).
Proof.
  induction l as [|m l IH]; intros a b Hl; cbn [rfold]; [by rewrite !sumZ_nil, !Z.add_0_r|].
  unfold add_item_cost at 1. rewrite (cx_policy _ _ Hctx), raw_token_estimate_est by (apply Hl; left). cbn [rbind].
  rewrite item_wrap_tokens_est by (apply Hl; left). cbn [rbind fst snd]. rewrite IH by (intros; apply Hl; by right).
  pose proof (raw_cost_nonneg m). rewrite !sumZ_cons. do 2 f_equal; lia.
Qed.

Lemma selection_fits_est l usable : (forall m, m ∈ l -> m ∈ scored) ->
  selection_fits_budget l usable ctx = Ok (sel_cost l <=? usable).
Proof.
  intros Hl. unfold selection_fits_budget, selection_raw_and_wrap. rewrite fold_costs by done. cbn [rbind].
  rewrite (cx_policy _ _ Hctx), separators_est. cbn [rbind]. unfold sel_cost. do 2 f_equal. lia.
Qed.

Lemma lowest_score_delete l : l <> [] -> l !!! lowest_score l :: delete (lowest_score l) l ≡ₚ l.
Proof.
  intros Hne. symmetry. apply delete_Permutation, list_lookup_lookup_total_lt. by apply argmin_lt.
Qed.

(** The drop loop ends with a selection that fits; when it dropped something,
    the last memory dropped would not have fitted. *)
Lemma drop_wrap_loop_spec usable : 0 <= usable -> forall fuel l dropped, (length l <= fuel)%nat ->
  (forall m, m ∈ l -> m ∈ scored) ->
  exists l' dropped', drop_wrap_loop fuel usable ctx l dropped = Ok (l', dropped') /\
    sel_cost l' <= usable /\ (exists rest, l' ++ rest ≡ₚ l) /\ dropped ⊆ dropped' /\
    (l' = l \/ exists z rest, l' ++ z :: rest ≡ₚ l /\ memory_id z ∈ dropped' /\ usable < sel_cost (l' ++ [z])).
Proof.
  intros Hu. induction fuel as [|fuel IH]; intros l dropped Hlen Hl.
  { destruct l; [|cbn in Hlen; lia]. exists [], dropped. split; [done|]. split; [rewrite sel_cost_nil; lia|].
    split; [by exists []|]. auto. }
  destruct (decide (l = [])) as [->|Hne].
  { exists [], dropped. split; [done|]. split; [rewrite sel_cost_nil; lia|]. split; [by exists []|]. auto. }
  assert (drop_wrap_loop (S fuel) usable ctx l dropped =
    if sel_cost l <=? usable then Ok (l, dropped)
    else drop_wrap_loop fuel usable ctx (delete (lowest_score l) l) ({[ memory_id (l !!! lowest_score l) ]} ∪ dropped)) as ->.
  { destruct l as [|m l]; [done|]. cbn [drop_wrap_loop]. by rewrite selection_fits_est. }
  destruct (sel_cost l <=? usable) eqn:Efit; bools.
  { exists l, dropped. split; [done|]. split; [done|]. split; [exists []; by rewrite app_nil_r|]. auto. }
  pose proof (lowest_score_delete l Hne) as Hp. set (z := l !!! lowest_score l) in *.
  set (l1 := delete (lowest_score l) l) in *. pose proof (Permutation_length Hp) as Hpl. cbn in Hpl.
  destruct (IH l1 ({[ memory_id z ]} ∪ dropped)) as (l' & d' & Hrun & Hfit & (rest & Hrest) & Hsub & Hlast).
  { lia. } { intros m Hm. apply Hl. rewrite <- Hp. by right. }
  exists l', d'. split; [done|]. split; [done|]. split; [|split; [set_solver|right]].
  - exists (z :: rest). by rewrite <- Hp, <- Hrest, Permutation_middle.
  - destruct Hlast as [->|(z' & rest' & Hp' & Hid & Hover)].
    + exists z, []. split; [by rewrite Permutation_app_comm|]. split; [set_solver|].
      rewrite (sel_cost_perm (l1 ++ [z]) l); [done|]. by rewrite <- Hp, Permutation_app_comm.
    + exists z', (z :: rest'). split; [|done]. rewrite <- Hp, <- Hp'.
      by rewrite (Permutation_swap z z' rest'), <- (Permutation_middle l' (z' :: rest') z).
Qed.

(** Refilling keeps the selection, adds candidates it does not have, and
    fits. *)
Lemma refill_fold_spec usable order : forall out ids, (forall m, m ∈ order -> m ∈ scored) ->
  (forall m, m ∈ out -> m ∈ scored) -> sel_cost out <= usable -> ids = ids_of out -> NoDup (memory_id <$> out) ->
  exists ext, rfold (refill_step usable ctx) (out, ids) order = Ok (out ++ ext, ids_of (out ++ ext)) /\
    sel_cost (out ++ ext) <= usable /\ NoDup (memory_id <$> out ++ ext) /\ (forall m, m ∈ ext -> m ∈ order).
Proof.
  induction order as [|m order IH]; intros out ids Hord Hout Hfit -> Hnd.
  { exists []. rewrite app_nil_r. split_and!; try done; set_solver. }
  cbn [rfold]. unfold refill_step at 1. case_bool_decide as Hin; cbn [rbind].
  { destruct (IH out (ids_of out)) as (ext & H1 & H2 & H3 & H4); try done; [intros; apply Hord; by right|].
    exists ext. split_and!; try done. intros. right. auto. }
  assert (forall x, x ∈ out ++ [m] -> x ∈ scored) as Hout'.
  { intros x [Hx| ->%list_elem_of_singleton]%elem_of_app; [auto|apply Hord; left]. }
  unfold try_append_if_fits. rewrite selection_fits_est by done. cbn [rbind].
  destruct (sel_cost (out ++ [m]) <=? usable) eqn:E; bools; cbn [rbind].
  - destruct (IH (out ++ [m]) (ids_of out ∪ {[memory_id m]})) as (ext & H1 & H2 & H3 & H4).
    + intros; apply Hord; by right.
    + done.
    + done.
    + unfold ids_of. rewrite fmap_app, list_to_set_app_L. cbn. set_solver.
    + rewrite fmap_app. cbn. apply NoDup_app. split; [done|]. split; [|apply NoDup_singleton].
      intros i Hi ->%list_elem_of_singleton. apply Hin, elem_of_list_to_set, Hi.
    + exists (m :: ext). rewrite <- app_assoc in H1, H2, H3. split_and!; try done.
      intros x [->|Hx]%elem_of_cons; [left|right; auto].
  - destruct (IH out (ids_of out)) as (ext & H1 & H2 & H3 & H4); try done; [intros; apply Hord; by right|].
    exists ext. split_and!; try done. intros. right. auto.
Qed.
End Selection.

(** A packing of candidates of distinct ids whose tables are theirs. *)
Record packing_ok (scored : list Memory) (usable : Z) (pk : Packed) : Prop := {
  pa_sub : exists rest, memories pk ++ rest ≡ₚ scored;
  pa_zero : usable <= 0 -> memories pk = [];
  pa_total : total_tokens pk = sumZ item_cost (memories pk);
  pa_raw : forall m t, m ∈ scored -> token_estimates pk !! memory_id m = Some t -> t = raw_cost m;
}.

(** A packing that fits with its markup. *)
Record fitted (scored : list Memory) (usable : Z) (pk : Packed) : Prop := {
  ft_sub : exists rest, memories pk ++ rest ≡ₚ scored;
  ft_fits : sel_cost (memories pk) <= Z.max 0 usable;
  ft_total : total_tokens pk = sumZ item_cost (memories pk);
  ft_raw : forall m t, m ∈ scored -> token_estimates pk !! memory_id m = Some t -> t = raw_cost m;
}.

Section Trim.
Context (scored : list Memory) (Hnd : NoDup (memory_id <$> scored)).

Definition cost_table : gmap string Z := dict_of ((fun m => (memory_id m, item_cost m)) <$> scored).

Lemma cost_table_lookup m : m ∈ scored -> cost_table !! memory_id m = Some (item_cost m).
Proof.
  intros Hm. destruct (dict_of_is_Some ((fun m => (memory_id m, item_cost m)) <$> scored) (memory_id m)) as [c Hc].
  { rewrite <- list_fmap_compose. apply list_elem_of_fmap. by exists m. }
  unfold cost_table. rewrite Hc. apply dict_of_Some, list_elem_of_fmap in Hc as (m' & [= Hid ->] & Hm').
  by rewrite (ids_inj scored m m').
Qed.

Lemma sub_elem {A : Type} (l rest l' : list A) x : l ++ rest ≡ₚ l' -> x ∈ l -> x ∈ l'.
Proof. intros Hp Hx. rewrite <- Hp. apply elem_of_app. by left. Qed.

Lemma sub_nodup l rest : l ++ rest ≡ₚ scored -> NoDup (memory_id <$> l).
Proof. intros Hp. rewrite <- Hp, fmap_app in Hnd. by apply NoDup_app in Hnd as [? _]. Qed.

Lemma nodup_submultiset l : NoDup (memory_id <$> l) -> (forall m, m ∈ l -> m ∈ scored) ->
  exists rest, l ++ rest ≡ₚ scored.
Proof.
  intros Hl Hin. assert (l ⊆+ scored) as [k Hk]%submseteq_Permutation; [|by exists k].
  apply NoDup_submseteq; [by apply NoDup_fmap_1 in Hl|done].
Qed.

Lemma wrapped_total_est estimates l : (forall m, m ∈ l -> m ∈ scored) ->
  wrapped_total_tokens l estimates policy cost_table = Ok (sumZ item_cost l).
Proof.
  unfold wrapped_total_tokens. intros Hl.
  assert (forall t, rfold (add_wrapped_total estimates policy cost_table) t l = Ok (t + sumZ item_cost l)) as H;
    [|by rewrite H].
  induction l as [|m l IH]; intros t; cbn [rfold]; [by rewrite sumZ_nil, Z.add_0_r|].
  unfold add_wrapped_total at 1. rewrite cost_table_lookup by (apply Hl; left). cbn [rbind].
  rewrite IH by (intros; apply Hl; by right). rewrite sumZ_cons. pose proof (item_cost_nonneg m). f_equal. lia.
Qed.

(** What the drop loop took out for good cannot come back in the refill. *)
Lemma dropped_stays_out l l' ext z rest usable : l ++ rest ≡ₚ scored ->
  (exists r, l' ++ z :: r ≡ₚ l) -> usable < sel_cost (l' ++ [z]) ->
  (forall m, m ∈ ext -> m ∈ scored) -> sel_cost (l' ++ ext) <= usable -> memory_id z ∉ ids_of (l' ++ ext).
Proof.
  intros Hsub (r & Hr) Hover Hext Hfit Hin. unfold ids_of in Hin. rewrite elem_of_list_to_set in Hin.
  apply list_elem_of_fmap in Hin as (x & Hid & Hx). pose proof (sub_nodup l rest Hsub) as Hl.
  assert (z ∈ scored) as Hz by (apply (sub_elem l rest); [done|]; rewrite <- Hr; set_solver).
  assert (forall m, m ∈ l' -> m ∈ scored) as Hl'
    by (intros m Hm; apply (sub_elem l rest); [done|]; rewrite <- Hr; set_solver).
  assert (x = z) as ->.
  { apply (ids_inj scored); try done. apply elem_of_app in Hx as [?|?]; auto. }
  apply elem_of_app in Hx as [Hx|Hx].
  - rewrite <- Hr, fmap_app in Hl. apply NoDup_app in Hl as (_ & Hdis & _). apply (Hdis (memory_id z)).
    + apply list_elem_of_fmap. by exists z.
    + left.
  - apply list_elem_of_split in Hx as (e1 & e2 & ->). apply (Zlt_not_le _ _ Hover).
    etrans; [|exact Hfit]. apply (sel_cost_sub _ _ (e1 ++ e2)). rewrite <- app_assoc. cbn.
    by rewrite (Permutation_middle e1 e2 z).
Qed.

Lemma trim_spec pk usable : packing_ok scored usable pk ->
  exists pk', trim_packed_for_wrap pk scored usable policy nonce cost_table = Ok pk' /\ fitted scored usable pk'.
Proof.
  intros [[rest Hsub] Hzero Htot Hraw]. unfold trim_packed_for_wrap. destruct (usable <=? 0) eqn:Eu; bools.
  { exists pk. split; [done|]. split; [by exists rest| |done|done]. rewrite Hzero, sel_cost_nil by done. lia. }
  cbn zeta. set (ctx := {| wc_policy := policy; wc_nonce := nonce; wc_estimates := token_estimates pk;
                           wc_cost_by_id := Some cost_table |}).
  assert (ctx_ok scored ctx) as Hctx.
  { split; cbn; try done. intros m costs c Hm [= <-]. rewrite cost_table_lookup by done. by intros [= ->]. }
  unfold drop_until_wrap_fits.
  destruct (drop_wrap_loop_spec scored ctx Hctx usable ltac:(lia) (length (memories pk)) (memories pk) ∅)
    as (l' & dropped & Hrun & Hfit & (r' & Hr') & _ & Hlast); [done|intros m; by apply (sub_elem (memories pk) rest)|].
  rewrite Hrun. cbn [rbind]. unfold greedy_wrap_refill.
  assert (l' ++ (r' ++ rest) ≡ₚ scored) as Hl' by (by rewrite app_assoc, Hr').
  destruct (refill_fold_spec scored ctx Hctx usable (py_sorted score_ltb scored) l' (ids_of l'))
    as (ext & Hfold & Hfit2 & Hnd2 & Hext).
  { intros m. by rewrite py_sorted_elem. } { intros m. by apply (sub_elem l' (r' ++ rest)). } { done. } { done. }
  { by apply (sub_nodup l' (r' ++ rest)). }
  assert (forall m, m ∈ ext -> m ∈ scored) as Hext' by (intros m Hm; apply Hext in Hm; by rewrite py_sorted_elem in Hm).
  rewrite Hfold. cbn [rbind fst]. case_if; bools.
  - exists pk. split; [done|]. split; [by exists rest| |done|done].
    destruct Hlast as [->|(z & r & Hz & Hdrop & Hover)]; [lia|]. exfalso.
    apply (dropped_stays_out (memories pk) l' ext z rest usable Hsub (ex_intro _ r Hz) Hover Hext' Hfit2).
    match goal with H : dropped_after_refill _ _ _ _ = ∅ |- _ =>
      unfold dropped_after_refill in H; revert H; generalize (ids_of (l' ++ ext)); intros F H end.
    set_solver.
  - assert (forall m, m ∈ l' ++ ext -> m ∈ scored) as Hall.
    { intros m [Hm|Hm]%elem_of_app; [by apply (sub_elem l' (r' ++ rest))|auto]. }
    unfold rebuild_after_wrap_trim. rewrite wrapped_total_est by done. cbn [rbind]. eexists. split; [reflexivity|].
    split; cbn; [by apply nodup_submultiset|lia|done|done].
Qed.
End Trim.
End Costs.

(** ** How long the formatted text is *)

Definition opt_len (o : option string) : Z := match o with Some t => str_len t | None => 0 end.
Definition is_some {A : Type} (o : option A) : bool := match o with Some _ => true | None => false end.

Lemma str_len_app s t : str_len (s +:+ t) = str_len s + str_len t.
Proof. unfold str_len. rewrite str_length_app. lia. Qed.

Lemma str_len_strip s : str_len (str_strip s) <= str_len s.
Proof. pose proof (str_strip_length s). unfold str_len. lia. Qed.

Lemma str_len_join sep l : str_len (str_join sep l)
  = sumZ str_len l + str_len sep * Z.max 0 (Z.of_nat (length l) - 1).
Proof. apply str_join_length. Qed.

Lemma str_len_repeat n s : str_len (repeat_str n s) = Z.of_nat n * str_len s.
Proof.
  induction n as [|n IH]; [done|]. change (repeat_str (S n) s) with (s +:+ repeat_str n s).
  rewrite str_len_app, IH. lia.
Qed.

(** An attribute value of the length of the one estimated with. *)
Definition nonce_like (n n' : string) : Prop := str_len (escape_attr n) = str_len (escape_attr n').

Lemma wrap_memory_len n n' (m : Memory) : nonce_like n n' -> str_len (wrap_memory n m) = str_len (wrap_memory n' m).
Proof.
  unfold nonce_like, wrap_memory, serialize_memory_element, memory_open_tag. intros Hn.
  rewrite !str_len_app, Hn. lia.
Qed.

Lemma est_mul p k : 0 <= k -> est p k <= k * est p 1.
Proof.
  intros Hk. rewrite <- (Z2Nat.id k Hk). generalize (Z.to_nat k). intros n. induction n as [|n IH].
  { change (Z.of_nat 0) with 0. rewrite est_0. lia. }
  pose proof (est_add p (Z.of_nat n) 1). replace (Z.of_nat (S n)) with (Z.of_nat n + 1) by lia. lia.
Qed.

Lemma est_add5 p a b c d e : est p (a + b + c + d + e) <= est p a + est p b + est p c + est p d + est p e.
Proof.
  pose proof (est_add p (a + b + c + d) e). pose proof (est_add p (a + b + c) d).
  pose proof (est_add p (a + b) c). pose proof (est_add p a b). lia.
Qed.

(** The memory section costs no more than its selection. *)
Lemma format_memories_cost policy n n' (ms : list Memory) : nonce_like n n' ->
  est policy (opt_len (format_memories ms n)) <= sel_cost policy n' ms.
Proof.
  intros Hn. destruct ms as [|m ms]; [cbn [format_memories opt_len]; by rewrite est_0, sel_cost_nil|].
  set (l := m :: ms). change (format_memories l n)
    with (Some (str_join newline (emit_ordered_memory_blocks (group_by_category l) n))).
  cbn [opt_len]. rewrite str_len_join. unfold emit_ordered_memory_blocks.
  destruct (emission_order_spec l) as [Hp _]. rewrite length_fmap, sumZ_fmap, (Permutation_length Hp).
  rewrite (sumZ_perm _ _ _ Hp). change (str_len newline) with 1. unfold sel_cost, separators.
  set (k := Z.max 0 (Z.of_nat (length l) - 1)).
  pose proof (est_add policy (sumZ (fun x => str_len (wrap_memory n x)) l) (1 * k)) as H1.
  pose proof (est_sum policy (fun x => str_len (wrap_memory n x)) l) as H2.
  pose proof (est_mul policy (1 * k) ltac:(lia)) as H3.
  assert (sumZ (fun x => est policy (str_len (wrap_memory n x))) l <= sumZ (item_cost policy n') l) as H4.
  { apply sumZ_le. intros x _. rewrite (wrap_memory_len n n') by done. unfold item_cost, wrapped_cost. lia. }
  rewrite !Z.mul_1_l in H3. rewrite Z.mul_1_l in H1 |- *.
  etrans; [exact H1|]. apply Z.add_le_mono; [|exact H3]. etrans; [exact H2|exact H4].
Qed.

Lemma history_line_len m t : history_line m = Some t -> str_len t <= str_len (role m +:+ ": " +:+ msg_content m).
Proof.
  unfold history_line. cbn zeta. case_if; [done|]. intros [= <-]. rewrite !str_len_app.
  pose proof (str_len_strip (role m)). lia.
Qed.

Lemma history_lines_len ms :
  sumZ str_len (omap history_line ms) <= sumZ str_len ((fun m => role m +:+ ": " +:+ msg_content m) <$> ms)
  /\ (length (omap history_line ms) <= length ms)%nat.
Proof.
  induction ms as [|m ms [IH1 IH2]]; [done|].
  change ((fun m => role m +:+ ": " +:+ msg_content m) <$> m :: ms)
    with ((role m +:+ ": " +:+ msg_content m) :: ((fun m => role m +:+ ": " +:+ msg_content m) <$> ms)).
  cbn [omap list_omap length]. rewrite sumZ_cons. destruct (history_line m) as [t|] eqn:E.
  - apply history_line_len in E. cbn [length]. rewrite sumZ_cons. split; [lia|]. apply le_n_S, IH2.
  - pose proof (str_len_nonneg (role m +:+ ": " +:+ msg_content m)). split; [lia|]. by apply le_S.
Qed.

Lemma format_history_len ms : opt_len (format_history ms) <= str_len (concat_messages ms)
  /\ (is_some (format_history ms) = true -> ms <> []).
Proof.
  unfold format_history, concat_messages. destruct (history_lines_len ms) as [H1 H2].
  destruct (omap history_line ms) as [|l ls] eqn:E; [split; [apply str_len_nonneg|done]|].
  cbn [opt_len is_some]. split; [|by intros _ ->]. rewrite !str_len_join, length_fmap.
  change (str_len newline) with 1. lia.
Qed.

Lemma format_tools_len ts : opt_len (format_tools ts) = str_len (format_tools_text ts)
  /\ (is_some (format_tools ts) = true -> format_tools_text ts <> ""%string).
Proof.
  unfold format_tools, format_tools_text.
  destruct (List.filter (fun s => negb (String.eqb (str_strip s) "")) ts) as [|s l] eqn:E; [done|].
  split; [done|]. intros _ He.
  assert (In s ts /\ negb (String.eqb (str_strip s) "") = true) as [_ Hs]
    by (apply (filter_In (fun s => negb (String.eqb (str_strip s) ""))); rewrite E; left; done).
  assert (0 < str_len s).
  { apply negb_true_iff, String.eqb_neq in Hs. destruct s as [|c s]; [done|]. unfold str_len. cbn [String.length]. lia. }
  assert (str_len (str_join newline (s :: l)) = 0) as H0 by (by rewrite He).
  rewrite str_len_join, sumZ_cons in H0. change (str_len newline) with 1 in H0.
  pose proof (sumZ_nonneg str_len l (fun x _ => str_len_nonneg x)). lia.
Qed.

Lemma format_directive_len d n n' : nonce_like n n' -> escape_attr n' = n' ->
  let text := match d with Some d => dir_content d | None => ""%string end in
  let has := negb (String.eqb (str_strip text) "") in
  opt_len (format_directive d n) <= str_len text + str_len (directive_safety_overhead_text has n')
  /\ (is_some (format_directive d n) = true -> has = true).
Proof.
  intros Hn He. unfold nonce_like in Hn. rewrite He in Hn. destruct d as [d|]; [|done]. cbn zeta. cbn [format_directive].
  destruct (String.eqb (str_strip (dir_content d)) "") eqn:E; cbn [negb opt_len is_some].
  { split; [|done]. pose proof (str_len_nonneg (dir_content d)). cbn [directive_safety_overhead_text]. unfold str_len at 2. cbn. lia. }
  split; [|done]. unfold directive_safety_overhead_text, memory_open_tag, memory_open_tag_for_estimate.
  unfold DIRECTIVE_SAFETY_PREFIX, DIRECTIVE_SAFETY_SUFFIX. rewrite !str_len_app, Hn.
  pose proof (str_len_strip (dir_content d)). change (str_len "") with 0. lia.
Qed.

(** Everything but the memories, and the memories. *)
Lemma sections_len (r : FormatRequest binary64) n n' : nonce_like n n' -> escape_attr n' = n' ->
  let text := match fr_directive r with Some d => dir_content d | None => ""%string end in
  let tools := format_tools_text (fr_tool_schemas r) in
  str_len (str_join (newline +:+ newline) (sections_of r n))
  <= str_len text + str_len (concat_messages (fr_recent_messages r)) + str_len tools
     + str_len (formatter_fixed_overhead_text (negb (String.eqb (str_strip text) ""))
                  (negb (bool_decide (fr_recent_messages r = []))) (negb (String.eqb tools "")) n')
     + opt_len (format_memories (memories (fr_packed r)) n).
Proof.
  intros Hn He text tools.
  destruct (format_directive_len (fr_directive r) n n' Hn He) as [Hd Hhd].
  destruct (format_history_len (fr_recent_messages r)) as [Hh Hhh].
  destruct (format_tools_len (fr_tool_schemas r)) as [Ht Hht].
  fold text in Hd, Hhd. fold tools in Ht, Hht. set (has := negb (String.eqb (str_strip text) "")) in *.
  assert (is_some (format_history (fr_recent_messages r)) = true -> negb (bool_decide (fr_recent_messages r = [])) = true)
    as Hhm by (intros H; by rewrite bool_decide_eq_false_2 by auto).
  assert (is_some (format_tools (fr_tool_schemas r)) = true -> negb (String.eqb tools "") = true) as Hhq.
  { intros H%Hht. by apply negb_true_iff, String.eqb_neq. }
  generalize dependent (negb (String.eqb tools "")). intros hq Hhq.
  generalize dependent (negb (bool_decide (fr_recent_messages r = []))). intros hm Hhm.
  unfold formatter_fixed_overhead_text. rewrite str_len_app, str_len_repeat, str_len_join.
  change (str_len (newline +:+ newline)) with 2. unfold reserved_joins, MAX_SECTION_JOINS, sections_of.
  generalize dependent (str_len (directive_safety_overhead_text has n')). intros ov Hd. clear Hn He Hht Hhh.
  destruct (format_directive (fr_directive r) n), (format_history (fr_recent_messages r)),
    (format_memories (memories (fr_packed r)) n), (format_tools (fr_tool_schemas r));
    cbn [omap list_omap option_bind id opt_len is_some length] in *; rewrite ?sumZ_cons, ?sumZ_nil;
    rewrite ?Hhd, ?Hhm, ?Hhq by done; destruct has, hm, hq; cbn [Z.b2z]; lia.
Qed.

(** ** The nonce *)

(** The characters of URL-safe base64. *)
Definition urlsafe_char (c : ascii) : bool :=
  let n := Z.of_nat (nat_of_ascii c) in
  ((48 <=? n) && (n <=? 57) || (65 <=? n) && (n <=? 90) || (97 <=? n) && (n <=? 122) || (n =? 45) || (n =? 95))%bool.

Fixpoint all_chars (p : ascii -> bool) (s : string) : bool :=
  match s with EmptyString => true | String c s => (p c && all_chars p s)%bool end.

(** What [secrets.token_urlsafe(n)] returns: [n] bytes in unpadded base64. *)
Definition token_urlsafe (n : Z) (s : string) : Prop :=
  str_len s = (4 * n + 2) / 3 /\ all_chars urlsafe_char s = true.

Lemma urlsafe_escape_char q c : urlsafe_char c = true -> escape_char q c = chr c.
Proof. by destruct c as [[] [] [] [] [] [] [] []], q; vm_compute. Qed.

Lemma urlsafe_escape q s : all_chars urlsafe_char s = true -> escape q s = s.
Proof.
  induction s as [|c s IH]; [done|]. cbn [all_chars escape]. intros [Hc Hs]%andb_prop.
  rewrite (urlsafe_escape_char q c Hc), IH by done. done.
Qed.

Lemma repeat_A_urlsafe n : all_chars urlsafe_char (repeat_str n "A") = true.
Proof. induction n as [|n IH]; [done|]. change (repeat_str (S n) "A") with (String "A" (repeat_str n "A")). exact IH. Qed.

Lemma representative_nonce_ok n : escape_attr (representative_nonce n) = representative_nonce n.
Proof. apply urlsafe_escape, repeat_A_urlsafe. Qed.

Lemma generated_nonce_like n generated : 1 <= n <= MAX_NONCE_BYTES -> token_urlsafe n generated ->
  nonce_like generated (representative_nonce n) /\ generated <> ""%string.
Proof.
  intros Hn [Hlen Hsafe]. unfold nonce_like, escape_attr. rewrite !urlsafe_escape by (done || apply repeat_A_urlsafe).
  unfold MAX_NONCE_BYTES in Hn. assert (1 <= (4 * n + 2) / 3) by (apply Z.div_le_lower_bound; lia). split.
  - unfold representative_nonce, MAX_NONCE_BYTES. rewrite str_len_repeat, Hlen.
    replace (Z.max 1 (Z.min n 64)) with n by lia. change (str_len "A") with 1. lia.
  - intros ->. unfold str_len in Hlen. cbn in Hlen. lia.
Qed.

(** ** The pipeline *)

Lemma lift_Ok {E A : Type} (f : E -> AssembleError) (r : result E A) a : lift f r = Ok a <-> r = Ok a.
Proof. destruct r; cbn; split; congruence. Qed.

(** A request that was packed: the pieces of its result. *)
Record assembled (s : ContextSettings) (cat : CapabilityCatalog) (generated : string) (q : AssembleRequest)
    (r : RetrievalResult) (level : DegradationLevel) (scored : list Memory) (cap : ModelCapability)
    (policy : TokenizerFamilyPolicy) (b0 : TokenBudget) (res : AssemblyResult) : Prop := {
  ab_budget : calculate cat
    {| br_model := ar_model q; br_messages := ar_recent_messages q;
       br_directive := match rs_directive r with Some d => dir_content d | None => ""%string end;
       br_tool_schemas := ar_tool_schemas q; br_nonce_bytes := st_formatter_nonce_bytes s |} = Ok b0;
  ab_capped : budget res = apply_available_tokens b0 (ar_available_tokens q);
  ab_scored : score_candidates r (ar_options q) level = Ok scored;
  ab_cap : for_model cat (ar_model q) = Ok cap;
  ab_policy : family_policy cat (tokenizer_family cap) = Ok policy;
  ab_packed : pack_scored s cat scored (usable_budget (budget res)) (ar_model q) policy = Ok (packed res);
  ab_format : format generated
    {| fr_directive := rs_directive r; fr_recent_messages := ar_recent_messages q; fr_packed := packed res;
       fr_tool_schemas := ar_tool_schemas q; fr_nonce := None |} = Ok (formatted res);
  ab_used : memories_used scored (packed res) policy = Ok (memories_used_ res);
  ab_result : retrieval res = r /\ degradation_level res = level /\
    tokens_used res = directive_tokens (budget res) + messages_tokens (budget res) + total_tokens (packed res);
}.

Arguments ab_budget {s cat generated q r level scored cap policy b0 res}.
Arguments ab_capped {s cat generated q r level scored cap policy b0 res}.
Arguments ab_scored {s cat generated q r level scored cap policy b0 res}.
Arguments ab_cap {s cat generated q r level scored cap policy b0 res}.
Arguments ab_policy {s cat generated q r level scored cap policy b0 res}.
Arguments ab_packed {s cat generated q r level scored cap policy b0 res}.
Arguments ab_format {s cat generated q r level scored cap policy b0 res}.
Arguments ab_used {s cat generated q r level scored cap policy b0 res}.
Arguments ab_result {s cat generated q r level scored cap policy b0 res}.

Lemma pack_and_format_Ok s cat clock generated q r level res :
  pack_and_format s cat clock generated q r level = Ok res ->
  exists scored cap policy b0, assembled s cat generated q r level scored cap policy b0 res.
Proof.
  unfold pack_and_format, build_assembly_result. cbn zeta. intros H.
  apply rbind_Ok in H as (b0 & Hb%lift_Ok & H). apply rbind_Ok in H as (scored & Hs%lift_Ok & H).
  apply rbind_Ok in H as (cap & Hc%lift_Ok & H). apply rbind_Ok in H as (policy & Hp%lift_Ok & H).
  apply rbind_Ok in H as (pk & Hpk & H). apply rbind_Ok in H as (f & Hf%lift_Ok & H).
  apply rbind_Ok in H as (used & Hu%lift_Ok & H). injection H as <-.
  exists scored, cap, policy, b0. by split.
Qed.

Lemma make_packer_eq s cat model cap policy : for_model cat model = Ok cap ->
  family_policy cat (tokenizer_family cap) = Ok policy ->
  make_packer s cat model = lift PackFailed (context_packer policy BUCKET_SIZE (st_packer_dp_cell_ceiling s)
                                               (st_packer_max_consecutive_skips s)).
Proof. intros Hc Hp. unfold make_packer. rewrite Hc. cbn [lift rbind]. by rewrite Hp. Qed.

Lemma context_packer_policy policy bs dc ms p : context_packer policy bs dc ms = Ok p -> pk_policy p = policy.
Proof. unfold context_packer. repeat (case_if; [done|]). by intros [= <-]. Qed.

(** Packing with the costs of the markup, then trimming, returns and fits. *)
Lemma pack_trim_spec policy nonce scored usable packer : supported_policy policy = true ->
  NoDup (memory_id <$> scored) -> pk_policy packer = policy ->
  exists pk0 pk, pack packer scored usable (Some (cost_table policy nonce scored)) = Ok pk0 /\
    trim_packed_for_wrap pk0 scored usable policy nonce (cost_table policy nonce scored) = Ok pk /\
    fitted policy nonce scored usable pk.
Proof.
  intros Hpol Hnd Hpp.
  destruct (pack_facts packer scored usable (Some (cost_table policy nonce scored)))
    as (pk0 & rest & Hpack & Hsub & Hzero & Htot & Hest).
  { by rewrite Hpp. }
  { intros k c (m & [= -> ->] & Hm)%dict_of_Some%list_elem_of_fmap. apply item_cost_nonneg. }
  destruct (trim_spec policy nonce Hpol scored Hnd pk0 usable) as (pk & Htrim & Hfit); [|by exists pk0, pk].
  split; [by exists rest|done| |].
  - rewrite Htot. apply sumZ_ext. intros m Hm. unfold charge, pack_cost.
    by rewrite cost_table_lookup by (done || by apply (sub_elem (memories pk0) rest)).
  - intros m t Hm Ht. rewrite Hest in Ht. apply dict_of_Some, list_elem_of_fmap in Ht as (m' & [= Hid ->] & Hm').
    rewrite py_sorted_elem in Hm'. assert (m' = m) as -> by (by apply (ids_inj scored)).
    unfold raw_estimate, tokens_of. rewrite Hpp. pose proof (estimate_supported (content m) policy Hpol) as He.
    unfold estimate in He. destruct (estimate_tokens (content m) policy) as [r1|]; [|done].
    by injection He as ->.
Qed.

Section Assembled.
Context {s : ContextSettings} {cat : CapabilityCatalog} {generated : string} {q : AssembleRequest}
  {r : RetrievalResult} {level : DegradationLevel} {scored : list Memory} {cap : ModelCapability}
  {policy : TokenizerFamilyPolicy} {b0 : TokenBudget} {res : AssemblyResult}
  (Ha : assembled s cat generated q r level scored cap policy b0 res).

Lemma assembled_supported : supported_policy policy = true.
Proof.
  destruct (calculate_Ok _ _ _ (ab_budget Ha)) as (cap' & pol' & Hc & Hp & Hs & _).
  cbn in Hc. rewrite (ab_cap Ha) in Hc. injection Hc as <-.
  rewrite (ab_policy Ha) in Hp. by injection Hp as <-.
Qed.

(** The candidates are a prefix of the scored hits. *)
Lemma assembled_candidates : scored = [] \/
  exists all rest, score_retrieval_hits (rs_hot_memories r ++ rs_cold_memories r) = Ok all /\ all = scored ++ rest.
Proof.
  pose proof (ab_scored Ha) as Hs. unfold score_candidates in Hs.
  destruct level; [right|right|by injection Hs as <-; left].
  all: apply rbind_Ok in Hs as (all & Hall & H); destruct (0 <? max_memories (ar_options q)); injection H as <-.
  all: try (exists all, (drop (Z.to_nat (max_memories (ar_options q))) all); by rewrite take_drop).
  all: exists all, []; by rewrite app_nil_r.
Qed.

Lemma assembled_nodup : NoDup (memory_id <$> scored).
Proof.
  destruct assembled_candidates as [->|(all & rest & Hall & ->)]; [constructor|].
  apply candidates_nodup in Hall. rewrite fmap_app in Hall. by apply NoDup_app in Hall as [? _].
Qed.

Lemma pack_scored_fitted usable pk : pack_scored s cat scored usable (ar_model q) policy = Ok pk ->
  fitted policy (representative_nonce (st_formatter_nonce_bytes s)) scored usable pk.
Proof.
  pose proof assembled_supported as Hpol. pose proof assembled_nodup as Hnd. unfold pack_scored. cbn zeta.
  set (nonce := representative_nonce _). rewrite wrap_aware_costs_est by done. cbn [lift rbind].
  fold (cost_table policy nonce scored). intros (packer & Hpk & H)%rbind_Ok.
  rewrite (make_packer_eq s cat (ar_model q) cap policy) in Hpk by (apply (ab_cap Ha) || apply (ab_policy Ha)).
  apply lift_Ok, context_packer_policy in Hpk.
  apply rbind_Ok in H as (pk0 & Hpack%lift_Ok & Htrim%lift_Ok).
  destruct (pack_trim_spec policy nonce scored usable packer) as (pk1 & pk' & Hp1 & Ht1 & Hfit); try done.
  rewrite Hpack in Hp1. injection Hp1 as <-. rewrite Htrim in Ht1. by injection Ht1 as <-.
Qed.

Lemma assembled_fitted :
  fitted policy (representative_nonce (st_formatter_nonce_bytes s)) scored (usable_budget (budget res)) (packed res).
Proof. apply pack_scored_fitted, (ab_packed Ha). Qed.

Lemma capped_budget : let b := budget res in
  directive_tokens b = directive_tokens b0 /\ messages_tokens b = messages_tokens b0 /\
  tool_schemas_tokens b = tool_schemas_tokens b0 /\ formatter_overhead_tokens b = formatter_overhead_tokens b0 /\
  response_reserve b = response_reserve b0 /\ safety_buffer b = safety_buffer b0 /\
  tb_context_window b = tb_context_window b0 /\ 0 <= usable_budget b <= usable_budget b0.
Proof.
  cbn zeta. rewrite (ab_capped Ha).
  destruct (calculate_Ok _ _ _ (ab_budget Ha))
    as (? & ? & _ & _ & _ & _ & _ & _ & _ & _ & _ & _ & Hu & _).
  unfold apply_available_tokens. case_if; [split_and!; try done; lia|]. bools. cbn. split_and!; try done; lia.
Qed.

(** The text stays within the parts of the budget. *)
Lemma assembled_length : nonce_like generated (representative_nonce (st_formatter_nonce_bytes s)) ->
  generated <> ""%string ->
  est policy (str_len (assembled_context (formatted res)))
  <= directive_tokens b0 + messages_tokens b0 + tool_schemas_tokens b0 + formatter_overhead_tokens b0
     + usable_budget (budget res).
Proof.
  intros Hn Hne. pose proof (ab_format Ha) as Hf. unfold format in Hf. cbn [fr_nonce default] in Hf.
  rewrite (proj2 (String.eqb_neq _ _) Hne) in Hf. injection Hf as <-. cbn [assembled_context].
  match goal with |- context [sections_of ?r _] =>
    pose proof (sections_len r generated _ Hn (representative_nonce_ok _)) as Hlen end.
  cbn [fr_directive fr_recent_messages fr_packed fr_tool_schemas] in Hlen.
  destruct (calculate_Ok _ _ _ (ab_budget Ha))
    as (cap' & pol' & Hc & Hp & _ & Hd & Hm & Ht & Ho & _). cbn [br_model br_directive br_messages br_tool_schemas br_nonce_bytes] in *.
  rewrite (ab_cap Ha) in Hc. injection Hc as <-.
  rewrite (ab_policy Ha) in Hp. injection Hp as <-.
  rewrite Hd, Hm, Ht, Ho. etrans; [apply est_mono, Hlen|].
  etrans; [apply est_add5|].
  pose proof (format_memories_cost policy generated _ (memories (packed res)) Hn) as Hmem.
  pose proof (ft_fits _ _ _ _ _ assembled_fitted) as Hfit.
  destruct capped_budget as (_ & _ & _ & _ & _ & _ & _ & Hu). lia.
Qed.
End Assembled.

(** The result of [assemble], taken apart. *)
Lemma assemble_Ok `{UnicodeDB} s cfg cat w clock generated q res :
  assemble s cfg cat w clock generated q = Ok res ->
  exists r0 scored cap policy b0, let r := apply_skip_options r0 (ar_options q) in
    retrieve cfg (retrieval_wall_ms s) w cat (retrieval_request q) = Ok r0 /\
    assembled s cat generated q r (classify_degradation r (ar_options q)).1 scored cap policy b0 res.
Proof.
  unfold assemble. intros (r0 & Hr%lift_Ok & Hp)%rbind_Ok. cbn zeta in Hp.
  destruct (classify_degradation (apply_skip_options r0 (ar_options q)) (ar_options q)) as [level i] eqn:E.
  apply pack_and_format_Ok in Hp as (scored & cap & policy & b0 & Ha).
  exists r0, scored, cap, policy, b0. cbn zeta. rewrite E. auto.
Qed.

(** C3: The prompt fits the model: with a nonce as [token_urlsafe] draws them,
    the estimate of the whole assembled text, markup, section joins and
    separators included, is at most the parts the budget set aside for it, so
    that as long as any token was left for memories it fits the context window
    together with the response reserve and the safety buffer. *)
Theorem assembled_context_fits_window `{UnicodeDB} s cfg cat w clock generated q res :
  1 <= st_formatter_nonce_bytes s <= MAX_NONCE_BYTES ->
  token_urlsafe (st_formatter_nonce_bytes s) generated ->
  assemble s cfg cat w clock generated q = Ok res ->
  exists cap policy tokens, for_model cat (ar_model q) = Ok cap /\
    family_policy cat (tokenizer_family cap) = Ok policy /\
    estimate (assembled_context (formatted res)) policy = Ok (tokens, estimate_kind policy) /\
    let b := budget res in
    tokens <= directive_tokens b + messages_tokens b + tool_schemas_tokens b + formatter_overhead_tokens b
              + usable_budget b /\
    (0 < usable_budget b -> tokens + response_reserve b + safety_buffer b <= tb_context_window b).
Proof.
  intros Hn Hgen (r0 & scored & cap & policy & b0 & _ & Ha)%assemble_Ok.
  destruct (generated_nonce_like _ _ Hn Hgen) as [Hlike Hne]. exists cap, policy.
  exists (est policy (str_len (assembled_context (formatted res)))).
  split; [exact (ab_cap Ha)|]. split; [exact (ab_policy Ha)|].
  split; [apply estimate_supported, (assembled_supported Ha)|].
  pose proof (assembled_length Ha Hlike Hne) as Hlen. cbn zeta.
  destruct (capped_budget Ha) as (-> & -> & -> & -> & -> & -> & -> & Hu).
  destruct (calculate_Ok _ _ _ (ab_budget Ha)) as (? & ? & _ & _ & _ & _ & _ & _ & _ & _ & _ & _ & Hub & _).
  lia.
Qed.

(** Every packed memory is a retrieved hit. *)
Lemma packed_origin s cat generated q r level scored cap policy b0 res m :
  assembled s cat generated q r level scored cap policy b0 res -> m ∈ memories (packed res) ->
  exists h, h ∈ rs_hot_memories r ++ rs_cold_memories r /\ same_hit (hit m) h.
Proof.
  intros Ha Hm. destruct (ft_sub _ _ _ _ _ (assembled_fitted Ha)) as [rest Hsub].
  apply (sub_elem _ _ _ m Hsub) in Hm. destruct (assembled_candidates Ha) as [->|(all & k & Hall & ->)].
  - by apply elem_of_nil in Hm.
  - apply (candidate_origin _ _ m Hall). apply elem_of_app. by left.
Qed.

Lemma skipped_belongs rq r o : Forall (belongs rq) (rs_hot_memories r ++ rs_cold_memories r) ->
  Forall (belongs rq) (rs_hot_memories (apply_skip_options r o) ++ rs_cold_memories (apply_skip_options r o)).
Proof.
  intros [Hh Hc]%Forall_app. apply Forall_app. unfold apply_skip_options. cbn.
  split; by destruct (skip_hot_memories o), (skip_cold_memories o).
Qed.

(** Every packed memory is the tenant's own. *)
Lemma packed_belongs `{UnicodeDB} s cfg cat w clock generated q res m :
  assemble s cfg cat w clock generated q = Ok res -> m ∈ memories (packed res) ->
  hit_org_id (hit m) = uuid_text (ar_org_id q) /\ hit_agent_id (hit m) = uuid_text (ar_agent_id q).
Proof.
  intros (r0 & scored & cap & policy & b0 & Hr & Ha)%assemble_Ok Hm. apply retrieve_belongs in Hr as [Hbel _].
  apply (skipped_belongs _ _ (ar_options q)) in Hbel. rewrite Forall_forall in Hbel.
  destruct (packed_origin _ _ _ _ _ _ _ _ _ _ _ m Ha Hm) as (h & [Ho Hag]%Hbel & Hs).
  cbn in Ho, Hag. rewrite <- Ho, <- Hag. by injection Hs.
Qed.

(** Tenant isolation of assembly: whatever the memory service answers,
    every memory that reaches the prompt was stored by the org and the agent of
    the request, and no two of them are the two sides of a conflict either page
    reported. *)
Theorem assembly_within_tenant `{UnicodeDB} s cfg cat w clock generated q res :
  assemble s cfg cat w clock generated q = Ok res ->
  NoDup (memory_id <$> memories (packed res)) /\
  (forall m, m ∈ memories (packed res) ->
     hit_org_id (hit m) = uuid_text (ar_org_id q) /\ hit_agent_id (hit m) = uuid_text (ar_agent_id q)) /\
  (forall m m', m ∈ memories (packed res) -> m' ∈ memories (packed res) -> memory_id m <> memory_id m' ->
     ~ conflicting (hit m) (hit m')).
Proof.
  intros Hres. pose proof (assemble_Ok _ _ _ _ _ _ _ _ Hres) as (r0 & scored & cap & policy & b0 & _ & Ha).
  destruct (ft_sub _ _ _ _ _ (assembled_fitted Ha)) as [rest Hsub]. split_and!.
  - exact (sub_nodup scored (assembled_nodup Ha) _ _ Hsub).
  - intros m. by apply (packed_belongs s cfg cat w clock generated).
  - intros m m' Hm%(sub_elem _ _ _ m Hsub) Hm'%(sub_elem _ _ _ m' Hsub) Hne.
    destruct (assembled_candidates Ha) as [->|(all & k & Hall & ->)]; [by apply elem_of_nil in Hm|].
    apply candidates_spec in Hall as (d & o & _ & _ & _ & [_ Hfree _] & _).
    apply list_elem_of_lookup in Hm as [i Hi], Hm' as [j Hj].
    apply (Hfree i j); rewrite ?list_lookup_fmap, ?(lookup_app_l_Some _ _ _ _ Hi), ?(lookup_app_l_Some _ _ _ _ Hj); try done.
    intros ->. congruence.
Qed.

(** A similarity outside [[0, 1]] that the client lets through fails the
    whole assembly instead of its branch: if a page that is not skipped carries
    a hit whose similarity is finite but out of range, [assemble] does not
    return, whatever the other branches hold. *)
Theorem one_bad_similarity_fails_assembly `{UnicodeDB} s cfg cat w clock generated q r0 h :
  retrieve cfg (retrieval_wall_ms s) w cat (retrieval_request q) = Ok r0 ->
  let r := apply_skip_options r0 (ar_options q) in
  (classify_degradation r (ar_options q)).1 <> L2 ->
  h ∈ rs_hot_memories r ++ rs_cold_memories r ->
  (f_ltb (hit_similarity h) f_zero || f_ltb (b64_of_Z 1) (hit_similarity h))%bool = true ->
  forall res, assemble s cfg cat w clock generated q <> Ok res.
Proof.
  intros Hr r Hl Hh Hbad res (r1 & scored & cap & policy & b0 & Hr1 & Ha)%assemble_Ok.
  rewrite Hr in Hr1. injection Hr1 as <-. fold r in Ha.
  pose proof (ab_scored Ha) as Hs. unfold score_candidates in Hs.
  assert (exists all, score_retrieval_hits (rs_hot_memories r ++ rs_cold_memories r) = Ok all) as (all & Hall).
  { destruct (classify_degradation r (ar_options q)).1; [| |done].
    all: apply rbind_Ok in Hs as (all & Hall & _); by exists all. }
  apply (candidates_scorable _ _ h Hall) in Hh. revert Hh. unfold scorable, score_memory_hit, require_unit, as_finite_float.
  destruct (b64_is_finite (hit_similarity h)); cbn [rbind]; [|done]. by rewrite Hbad.
Qed.

(** ** Accounting for the candidates *)

Lemma memories_used_Ok scored pk policy used : memories_used scored pk policy = Ok used ->
  Forall2 (fun m u => mu_memory_id u = memory_id m /\ mu_exclusion u = exclusion_of pk m) scored used.
Proof.
  unfold memories_used. rewrite rmap_Ok. intros H. apply (Forall2_impl _ _ _ _ H).
  intros m u (t & _ & [= <-])%rbind_Ok. done.
Qed.

Lemma exclusion_included pk m : exclusion_of pk m = included <-> memory_id m ∈ ids_of (memories pk).
Proof. unfold exclusion_of. by repeat case_bool_decide. Qed.

Lemma filter_perm_length {A : Type} (p : A -> bool) (l k : list A) : l ≡ₚ k ->
  length (List.filter p l) = length (List.filter p k).
Proof.
  induction 1 as [|x l k _ IH|x y l|l k j _ IH1 _ IH2]; cbn; [done| | |congruence].
  - destruct (p x); cbn; congruence.
  - by destruct (p x), (p y).
Qed.

Lemma filter_all {A : Type} (p : A -> bool) (b : bool) (l : list A) : (forall x, x ∈ l -> p x = b) ->
  List.filter p l = if b then l else [].
Proof.
  induction l as [|x l IH]; intros Hl; cbn; [by destruct b|]. rewrite (Hl x) by left.
  rewrite IH by (intros; apply Hl; by right). by destruct b.
Qed.

(** The records marked as included are as many as the packed memories. *)
Lemma included_count (scored sel rest : list Memory) : NoDup (memory_id <$> scored) -> sel ++ rest ≡ₚ scored ->
  length (List.filter (fun m => bool_decide (memory_id m ∈ ids_of sel)) scored) = length sel.
Proof.
  intros Hnd Hsub. rewrite <- (filter_perm_length _ _ _ Hsub), List.filter_app, length_app.
  rewrite <- Hsub, fmap_app in Hnd. apply NoDup_app in Hnd as (_ & Hdis & _).
  rewrite (filter_all _ true sel), (filter_all _ false rest); [cbn; lia| |].
  - intros m Hm. apply bool_decide_eq_false. unfold ids_of. rewrite elem_of_list_to_set. intros Hin. apply (Hdis _ Hin).
    apply list_elem_of_fmap. by exists m.
  - intros m Hm. apply bool_decide_eq_true, elem_of_list_to_set, list_elem_of_fmap. by exists m.
Qed.

Lemma used_filter scored pk used :
  Forall2 (fun m u => mu_memory_id u = memory_id m /\ mu_exclusion u = exclusion_of pk m) scored used ->
  (mu_memory_id <$> used = memory_id <$> scored) /\
  length (List.filter (fun u => bool_decide (mu_exclusion u = included)) used)
  = length (List.filter (fun m => bool_decide (memory_id m ∈ ids_of (memories pk))) scored).
Proof.
  induction 1 as [|m u scored used [Hid Hex] _ [IH1 IH2]]; [done|]. cbn. rewrite Hid, IH1. split; [done|].
  rewrite (bool_decide_ext (mu_exclusion u = included) (memory_id m ∈ ids_of (memories pk)))
    by (rewrite Hex; apply exclusion_included).
  case_bool_decide; cbn; by rewrite IH2.
Qed.

(** The response accounts for every candidate once: [memories_used] lists
    each scored memory exactly once, it is marked included exactly when it is in
    the prompt, the number of included records is [memories_included], and
    [tokens_used] is the directive, the history and the charged cost of the
    packed memories, markup included. *)
Theorem response_accounts_for_candidates `{UnicodeDB} s cfg cat w clock generated q res :
  assemble s cfg cat w clock generated q = Ok res ->
  NoDup (mu_memory_id <$> memories_used_ res) /\
  (forall m, m ∈ memories (packed res) -> memory_id m ∈ mu_memory_id <$> memories_used_ res) /\
  (forall u, u ∈ memories_used_ res ->
     mu_exclusion u = included <-> mu_memory_id u ∈ memory_id <$> memories (packed res)) /\
  memories_included (formatted res)
    = Z.of_nat (length (List.filter (fun u => bool_decide (mu_exclusion u = included)) (memories_used_ res))) /\
  tokens_used res = directive_tokens (budget res) + messages_tokens (budget res) + total_tokens (packed res).
Proof.
  intros (r0 & scored & cap & policy & b0 & _ & Ha)%assemble_Ok.
  pose proof (memories_used_Ok _ _ _ _ (ab_used Ha)) as Hu. pose proof (used_filter _ _ _ Hu) as [Hids Hlen].
  destruct (ft_sub _ _ _ _ _ (assembled_fitted Ha)) as [rest Hsub]. rewrite Hids. split_and!.
  - exact (assembled_nodup Ha).
  - intros m Hm. apply list_elem_of_fmap. exists m. split; [done|]. by apply (sub_elem _ _ _ m Hsub).
  - intros u [i Hi]%list_elem_of_lookup. destruct (Forall2_lookup_r _ _ _ _ _ Hu Hi) as (m & _ & Hid & Hex).
    rewrite Hex, exclusion_included, Hid. unfold ids_of. by rewrite elem_of_list_to_set.
  - rewrite Hlen, (included_count scored _ rest (assembled_nodup Ha) Hsub).
    pose proof (ab_format Ha) as Hf. unfold format in Hf. cbn [fr_nonce default] in Hf.
    destruct (String.eqb generated ""); [done|]. by injection Hf as <-.
  - apply (ab_result Ha).
Qed.

(** ** Assembly returns *)

(** Settings [ContextPacker] accepts. *)
Definition settings_ok (s : ContextSettings) : Prop :=
  1 <= st_packer_dp_cell_ceiling s /\ 0 <= st_packer_max_consecutive_skips s.

Lemma pack_scored_total s cat scored usable model cap policy : settings_ok s ->
  for_model cat model = Ok cap -> family_policy cat (tokenizer_family cap) = Ok policy ->
  supported_policy policy = true -> NoDup (memory_id <$> scored) ->
  exists pk, pack_scored s cat scored usable model policy = Ok pk /\
    fitted policy (representative_nonce (st_formatter_nonce_bytes s)) scored usable pk.
Proof.
  intros [H1 H2] Hc Hp Hpol Hnd. unfold pack_scored. cbn zeta. set (nonce := representative_nonce _).
  rewrite wrap_aware_costs_est by done. cbn [lift rbind]. fold (cost_table policy nonce scored).
  rewrite (make_packer_eq s cat model cap policy) by done. unfold context_packer. change (BUCKET_SIZE <? 1) with false.
  assert ((st_packer_dp_cell_ceiling s <? 1) = false) as -> by lia.
  assert ((st_packer_max_consecutive_skips s <? 0) = false) as -> by lia. cbn [lift rbind].
  match goal with |- context [pack ?p scored usable _] =>
    destruct (pack_trim_spec policy nonce scored usable p Hpol Hnd eq_refl) as (pk0 & pk & -> & Ht & Hf) end.
  cbn [lift rbind]. rewrite Ht. cbn [lift]. eauto.
Qed.

(** C40: Assembly always returns: for a known model, settings the packer
    accepts and a non-empty nonce, whatever the services answer (timeouts,
    errors, malformed pages included), [assemble] produces a result as soon as
    every similarity that reached it lies in [[0, 1]]; no exception of the
    budget, the packer, the trim loop or the formatter can surface. *)
Theorem assembly_returns `{UnicodeDB} s cfg cat w clock generated q b0 :
  calculate cat {| br_model := ar_model q; br_messages := ar_recent_messages q; br_directive := "";
                   br_tool_schemas := []; br_nonce_bytes := DEFAULT_NONCE_BYTES |} = Ok b0 ->
  settings_ok s -> generated <> ""%string ->
  (forall r h, retrieve cfg (retrieval_wall_ms s) w cat (retrieval_request q) = Ok r ->
     h ∈ rs_hot_memories r ++ rs_cold_memories r -> scorable h = true) ->
  exists res, assemble s cfg cat w clock generated q = Ok res.
Proof.
  intros Hb Hset Hgen Hscor. unfold assemble.
  destruct (retrieve_Ok cfg (retrieval_wall_ms s) w cat (retrieval_request q) b0 Hb) as (r0 & Hr & _).
  specialize (Hscor r0). rewrite Hr. cbn [lift rbind]. cbn zeta. set (r := apply_skip_options r0 (ar_options q)).
  destruct (classify_degradation r (ar_options q)) as [level i].
  assert (exists scored, score_candidates r (ar_options q) level = Ok scored /\ NoDup (memory_id <$> scored))
    as (scored & Hs & Hnd).
  { destruct (candidates_total (rs_hot_memories r ++ rs_cold_memories r)) as [all Hall].
    { intros h Hh. apply Hscor; [done|]. revert Hh. unfold r, apply_skip_options. cbn.
      destruct (skip_hot_memories _), (skip_cold_memories _); set_solver. }
    pose proof (candidates_nodup _ _ Hall) as Hnd. unfold score_candidates.
    destruct level; [| |exists []; split; [done|constructor]].
    all: rewrite Hall; cbn [rbind]; eexists; split; [reflexivity|]; case_if; [|done].
    all: rewrite <- (take_drop (Z.to_nat (max_memories (ar_options q))) all), fmap_app in Hnd.
    all: by apply NoDup_app in Hnd as [? _]. }
  destruct (calculate_Ok _ _ _ Hb) as (cap & policy & Hc & Hp & Hpol & _). cbn in Hc.
  unfold pack_and_format. cbn zeta.
  match goal with |- context [calculate cat ?q'] =>
    destruct (calculate_total cat _ _ q' Hb eq_refl) as [b1 ->] end.
  cbn [lift rbind]. rewrite Hs. cbn [lift rbind]. rewrite Hc. cbn [lift rbind]. rewrite Hp. cbn [lift rbind].
  destruct (pack_scored_total s cat scored (usable_budget (apply_available_tokens b1 (ar_available_tokens q)))
              (ar_model q) cap policy Hset Hc Hp Hpol Hnd) as (pk & -> & Hfit).
  cbn [rbind]. unfold format. cbn [fr_nonce default]. rewrite (proj2 (String.eqb_neq _ _) Hgen). cbn [lift rbind].
  unfold build_assembly_result, memories_used.
  match goal with |- context [rmap ?f scored] => destruct (rmap_total f scored) as [us ->] end; [|cbn; eauto].
  intros m _. unfold raw_token_estimate. destruct (token_estimates pk !! memory_id m); [done|].
  by rewrite tokens_of_text_est.
Qed.

Module AssembleSample.
#[local] Existing Instance ascii_db.
Definition settings : ContextSettings :=
  {| st_timeout_ms := b64_of_Z 45; st_deadline_ms := b64_of_Z 40; st_packer_dp_cell_ceiling := DEFAULT_DP_CELL_CEILING;
     st_packer_max_consecutive_skips := 5; st_formatter_nonce_bytes := 16 |}.
Definition no_options : AssemblyOptions :=
  {| skip_cold_memories := false; skip_hot_memories := false; max_memories := 0 |}.
Definition request (available : Z) : AssembleRequest :=
  {| ar_org_id := 7; ar_agent_id := 9; ar_query := "drink?"; ar_model := "m";
     ar_recent_messages := [{| role := "user"; msg_content := "hello" |}]; ar_session_id := "";
     ar_directive_version_id := ""; ar_request_id := ""; ar_trace_id := ""; ar_span_id := "";
     ar_available_tokens := available; ar_options := no_options; ar_tool_schemas := [] |}.
Definition clock (n : nat) : binary64 := b64_of_Z (Z.of_nat n).
Definition generated : string := "abcdefghijklmnopqrstuv".

(** The hot page has a tea memory, the cold page two more. *)
Definition world : World :=
  {| memory_service := fun r => if String.eqb (rq_method r) "GET" then RetrievalSample.answer [RetrievalSample.item 1 7 9 "tea" []]
       else RetrievalSample.answer [RetrievalSample.item 2 7 9 "milk & <sugar>" []; RetrievalSample.item 3 7 9 "no milk" []];
     directive_cache := directive_cache RetrievalSample.world; in_time := fun _ => true;
     elapsed_ms := fun _ => b64_of_Z 1; before_wall := fun _ => true |}.

Abbreviation run w available :=
  (assemble settings RetrievalSample.cfg BudgetSample.cat w clock generated (request available)).

Definition summary (r : result AssembleError AssemblyResult) : option (Z * Z * list string * Z * DegradationLevel) :=
  match r with
  | Ok r => Some (usable_budget (budget r), memories_included (formatted r), content <$> memories (packed r),
                  str_len (assembled_context (formatted r)), degradation_level r)
  | Raise _ => None
  end.

(** With 80 tokens two wrapped memories fit, with the default budget all three. *)
Example everything_fits : summary (run world 0) = Some (6844, 3, ["tea"; "milk & <sugar>"; "no milk"]%string, 550, L0).
Proof. vm_compute. reflexivity. Qed.
Example two_fit : summary (run world 80) = Some (80, 2, ["tea"; "milk & <sugar>"]%string, 421, L0).
Proof. vm_compute. reflexivity. Qed.

Lemma run_budget : exists b, calculate BudgetSample.cat
  {| br_model := "m"; br_messages := ar_recent_messages (request 80); br_directive := ""; br_tool_schemas := [];
     br_nonce_bytes := DEFAULT_NONCE_BYTES |} = Ok b.
Proof. eexists. vm_compute. reflexivity. Qed.

Lemma generated_urlsafe : token_urlsafe 16 generated.
Proof. by split; vm_compute. Qed.

Lemma run_returns : exists res, run world 80 = Ok res.
Proof. eexists. vm_compute. reflexivity. Qed.

Lemma assembled_context_fits_window_witness : exists res tokens,
  run world 80 = Ok res /\ estimate (assembled_context (formatted res)) BudgetSample.policy = Ok (tokens, ESTIMATE_CHARS_DIV_4) /\
  tokens + response_reserve (budget res) + safety_buffer (budget res) <= tb_context_window (budget res).
Proof.
  destruct run_returns as [res E].
  destruct (assembled_context_fits_window settings RetrievalSample.cfg BudgetSample.cat world clock generated (request 80) res)
    as (cap & policy & tokens & Hc & Hp & He & _ & Hw); [vm_compute; split; discriminate|exact generated_urlsafe|exact E|].
  exists res, tokens. split; [exact E|]. vm_compute in Hc. injection Hc as <-. vm_compute in Hp. injection Hp as <-.
  split; [exact He|]. apply Hw. vm_compute in E. injection E as <-. vm_compute. reflexivity.
Defined.

Lemma assembly_within_tenant_witness : exists res, run world 80 = Ok res /\
  forall m, m ∈ memories (packed res) -> hit_org_id (hit m) = uuid_text 7 /\ hit_agent_id (hit m) = uuid_text 9.
Proof.
  destruct run_returns as [res E]. exists res. split; [exact E|].
  exact (proj1 (proj2 (assembly_within_tenant settings RetrievalSample.cfg BudgetSample.cat world clock generated
                         (request 80) res E))).
Defined.

Lemma response_accounts_for_candidates_witness : exists res, run world 80 = Ok res /\
  NoDup (mu_memory_id <$> memories_used_ res).
Proof.
  destruct run_returns as [res E]. exists res. split; [exact E|].
  exact (proj1 (response_accounts_for_candidates settings RetrievalSample.cfg BudgetSample.cat world clock generated
                  (request 80) res E)).
Defined.

(** A service whose cold hit has the cosine similarity -1/2. *)
Definition negative_item : Json :=
  match RetrievalSample.item 2 7 9 "milk" [] with
  | JObj (m :: _ :: rest) => JObj (m :: ("similarity"%string, JFloat (b64_div (b64_of_Z (-1)) (b64_of_Z 2))) :: rest)
  | j => j
  end.
Definition negative_world : World :=
  {| memory_service := fun r => if String.eqb (rq_method r) "GET" then RetrievalSample.answer [RetrievalSample.item 1 7 9 "tea" []]
       else RetrievalSample.answer [negative_item];
     directive_cache := directive_cache world; in_time := in_time world; elapsed_ms := elapsed_ms world;
     before_wall := before_wall world |}.

Example negative_similarity_raises : run negative_world 0 = Raise (PackFailed ValueError).
Proof. vm_compute. reflexivity. Qed.

Lemma negative_retrieval : exists r0 h,
  retrieve RetrievalSample.cfg (retrieval_wall_ms settings) negative_world BudgetSample.cat
    (retrieval_request (request 0)) = Ok r0 /\
  (classify_degradation (apply_skip_options r0 no_options) no_options).1 <> L2 /\
  h ∈ rs_hot_memories (apply_skip_options r0 no_options) ++ rs_cold_memories (apply_skip_options r0 no_options) /\
  (f_ltb (hit_similarity h) f_zero || f_ltb (b64_of_Z 1) (hit_similarity h))%bool = true.
Proof.
  eexists _, _. split; [vm_compute; reflexivity|]. split; [vm_compute; discriminate|].
  split; [cbn; right; left|vm_compute; reflexivity].
Qed.

Lemma one_bad_similarity_fails_assembly_witness : ~ exists res, run negative_world 0 = Ok res.
Proof.
  destruct negative_retrieval as (r0 & h & H1 & H2 & H3 & H4). intros [res Hres].
  exact (one_bad_similarity_fails_assembly settings RetrievalSample.cfg BudgetSample.cat negative_world clock generated
           (request 0) r0 h H1 H2 H3 H4 res Hres).
Defined.

Lemma world_scorable r h :
  retrieve RetrievalSample.cfg (retrieval_wall_ms settings) world BudgetSample.cat (retrieval_request (request 0)) = Ok r ->
  h ∈ rs_hot_memories r ++ rs_cold_memories r -> scorable h = true.
Proof.
  intros Hr. vm_compute in Hr. injection Hr as <-. cbn [rs_hot_memories rs_cold_memories app].
  rewrite !elem_of_cons, elem_of_nil. intros [->|[->|[->|[]]]]; vm_compute; reflexivity.
Qed.

Lemma assembly_returns_witness : exists res, run world 0 = Ok res.
Proof.
  destruct run_budget as [b Hb].
  exact (assembly_returns settings RetrievalSample.cfg BudgetSample.cat world clock generated (request 0) b Hb
           ltac:(split; vm_compute; discriminate) ltac:(discriminate) world_scorable).
Defined.
End AssembleSample.
