(* ===== verification/ContextServer.v ===== *)
(** * The assembly service boundary ([services/context/app/grpc_auth.py],
      [principal.py], [server.py])

    What a call passes before the assembler runs: the caller token, the verified
    principal, the binding of the selectors, and the bounds of the request; the
    address the server may bind.  A protobuf message is a record of its fields;
    an [abort] ends the call with its status. *)

From Stdlib Require Import SpecFloat.
From S2P Require Import Prelude Num Packer Formatter TokenBudget PyText Redaction Retrieval Candidates Assemble AssembleFit.

(** An ASCII text as a [string]. *)
Definition text_of (s : pystr) : string := string_of_list_ascii ((fun c => ascii_of_nat (Z.to_nat c)) <$> s).

Inductive StatusCode := UNAUTHENTICATED | PERMISSION_DENIED | INVALID_ARGUMENT | DEADLINE_EXCEEDED | UNIMPLEMENTED.

(** Why a request field is refused. *)
Inductive FieldError :=
| Required (label : string)
| TooLong (label : string)
| TooMany (label : string)
| OutOfRange (label : string)
| NotAUuid (label : string)
| NotHex (label : string)
| ZeroId (label : string).

Inductive RpcDetails :=
| CallerAuthenticationRequired
| PrincipalRequired
| PrincipalInvalidDetails
| SelectorMismatch
| BadField (e : FieldError)
| CallCancelled
| DeadlineExceededDetails
| Deferred (method : string).

(** How a call fails: an abort, or an exception the handler lets through. *)
Inductive RpcError :=
| Abort (code : StatusCode) (details : RpcDetails)
| Unhandled (e : AssembleError)
| UnicodeEncodeError.

(** ** Caller authentication ([grpc_auth.py]) *)

Definition CALLER_AUTH_HEADER : pystr := lit "x-ibex-context-service-token".
Definition SERVICE_TOKEN_MIN_CHARS : Z := 32.
Definition SERVICE_TOKEN_MAX_CHARS : Z := 512.

Inductive Reason := REASON_MISSING | REASON_DUPLICATE | REASON_MISMATCH | REASON_INVALID.

(** A metadata key or value: a [str], a [bytes], or anything else. *)
Inductive MdValue := MdStr (s : pystr) | MdBytes (b : bytes) | MdOther.

(** An entry that unpacks into a pair, or one that does not. *)
Inductive MdEntry := MdPair (key value : MdValue) | MdBroken.

Inductive StartupError := TokenRequired | TokenMalformed | TokenReused | BadAddress | NotLoopback | BindFailed
| TokenNotEncodable.

(** [[A-Za-z0-9_-]{32,512}] on the whole text. *)
Definition token_char (c : Z) : bool :=
  ((48 <=? c) && (c <=? 57) || (65 <=? c) && (c <=? 90) || (97 <=? c) && (c <=? 122) || (c =? 45) || (c =? 95))%bool.

Definition token_shape (s : pystr) : bool :=
  (forallb token_char s && (SERVICE_TOKEN_MIN_CHARS <=? Z.of_nat (length s))
   && (Z.of_nat (length s) <=? SERVICE_TOKEN_MAX_CHARS))%bool.

Definition validate_service_token (value : pystr) : result StartupError pystr :=
  if bool_decide (value = []) then Raise TokenRequired
  else if token_shape value then Ok value else Raise TokenMalformed.

Section Auth.
Context `{UnicodeDB}.

(** [tokens_match]; a text that does not encode raises past the handler. *)
Definition tokens_match (presented : option pystr) (expected : pystr) : result RpcError bool :=
  match presented with
  | None => Ok false
  | Some p =>
      if bool_decide (expected = []) then Ok false
      else match utf8_encode p, utf8_encode expected with
           | Some a, Some b => Ok (bool_decide (a = b))
           | _, _ => Raise UnicodeEncodeError
           end
  end.

(** [b.decode("ascii")] *)
Definition ascii_decode (b : bytes) : option pystr := if forallb (fun c => c <? 128) b then Some b else None.

Definition normalized_key (k : MdValue) : option pystr :=
  match k with
  | MdBytes b => option_map u_lower (ascii_decode b)
  | MdStr s => Some (u_lower s)
  | MdOther => None
  end.

Definition as_text (v : MdValue) : option pystr :=
  match v with MdStr s => Some s | MdBytes b => utf8_decode b | MdOther => None end.

Definition token_size (text : pystr) : option Z := option_map (fun b => Z.of_nat (length b)) (utf8_encode text).

Definition validated_token (v : MdValue) : option Reason * option pystr :=
  match as_text v with
  | None => (Some REASON_INVALID, None)
  | Some text =>
      match token_size text with
      | Some n => if ((SERVICE_TOKEN_MIN_CHARS <=? n) && (n <=? SERVICE_TOKEN_MAX_CHARS))%bool
                  then (None, Some text) else (Some REASON_INVALID, None)
      | None => (Some REASON_INVALID, None)
      end
  end.

(** [_metadata_entries]; [None] where the metadata cannot be read. *)
Fixpoint metadata_entries (raw : list MdEntry) : option (list (MdValue * MdValue)) :=
  match raw with
  | [] => Some []
  | MdPair k v :: raw => option_map (cons (k, v)) (metadata_entries raw)
  | MdBroken :: _ => None
  end.

Definition token_values (entries : list (MdValue * MdValue)) : list MdValue :=
  snd <$> List.filter (fun kv => bool_decide (normalized_key kv.1 = Some CALLER_AUTH_HEADER)) entries.

Definition presented_token (metadata : option (list MdEntry)) : option Reason * option pystr :=
  match metadata with
  | None => (Some REASON_INVALID, None)
  | Some raw =>
      match metadata_entries raw with
      | None => (Some REASON_INVALID, None)
      | Some entries =>
          match token_values entries with
          | [] => (Some REASON_MISSING, None)
          | [v] => validated_token v
          | _ => (Some REASON_DUPLICATE, None)
          end
      end
  end.

Definition require_service_token (metadata : option (list MdEntry)) (expected : pystr) : result RpcError unit :=
  let '(reason, presented) := presented_token metadata in
  match reason with
  | Some _ => Raise (Abort UNAUTHENTICATED CallerAuthenticationRequired)
  | None =>
      let* same := tokens_match presented expected in
      if same then Ok tt else Raise (Abort UNAUTHENTICATED CallerAuthenticationRequired)
  end.

(** [guard_handler] around a handler. *)
Definition guarded {A : Type} (metadata : option (list MdEntry)) (expected : pystr) (handler : result RpcError A)
    : result RpcError A :=
  let* _ := require_service_token metadata expected in handler.

(** ** The principal ([principal.py]) *)

Definition AUTHORITY_AUTH_SERVICE : string := "AuthService".
Definition MAX_PRINCIPAL_SKEW_SECONDS : binary64 := b64_of_Z 30.
Definition MAX_PRINCIPAL_ID_CHARS : Z := 256.
Definition MAX_CORRELATION_CHARS : Z := 128.
Definition MAX_TIMESTAMP_NANOS : Z := 999999999.

Record Timestamp := { seconds : Z; nanos : Z }.

Record PrincipalContext := {
  pc_authority : string;
  pc_org_id : string;
  pc_agent_id : string;
  pc_principal_id : string;
  pc_request_id : string;
  pc_trace_id : string;
  pc_issued_at : option Timestamp;
  pc_expires_at : option Timestamp;
}.

Inductive PrincipalError := PrincipalMissing | PrincipalInvalid | PrincipalMismatch.

Record VerifiedPrincipal := { vp_org_id : UUID; vp_agent_id : UUID; vp_request_id : string; vp_trace_id : string }.

Definition nanos_seconds (n : Z) : result PrincipalError binary64 :=
  if ((0 <=? n) && (n <=? MAX_TIMESTAMP_NANOS))%bool then Ok (b64_div (b64_of_Z n) (b64_of_Z 1000000000))
  else Raise PrincipalInvalid.

Definition holder_seconds (t : Timestamp) : result PrincipalError binary64 :=
  let* frac := nanos_seconds (nanos t) in Ok (b64_add (b64_of_Z (seconds t)) frac).

Definition timestamp_seconds (t : option Timestamp) : result PrincipalError (option binary64) :=
  match t with None => Ok None | Some t => let* s := holder_seconds t in Ok (Some s) end.

Definition require_issued_at (p : PrincipalContext) (current : binary64) : result PrincipalError unit :=
  let* issued := timestamp_seconds (pc_issued_at p) in
  match issued with
  | None => Raise PrincipalInvalid
  | Some issued =>
      if f_ltb MAX_PRINCIPAL_SKEW_SECONDS (SFabs (b64_sub current issued)) then Raise PrincipalInvalid else Ok tt
  end.

Definition require_not_expired (p : PrincipalContext) (current : binary64) : result PrincipalError unit :=
  let* expires := timestamp_seconds (pc_expires_at p) in
  match expires with
  | None => Ok tt
  | Some e => if f_ltb MAX_PRINCIPAL_SKEW_SECONDS (b64_sub current e) then Raise PrincipalInvalid else Ok tt
  end.

Definition require_authority (p : PrincipalContext) : result PrincipalError unit :=
  if String.eqb (pc_authority p) AUTHORITY_AUTH_SERVICE then Ok tt else Raise PrincipalInvalid.

Definition require_principal_id (i : string) : result PrincipalError unit :=
  if (String.eqb i "" || negb (String.eqb i (str_strip i)))%bool then Raise PrincipalInvalid
  else if MAX_PRINCIPAL_ID_CHARS <? str_len i then Raise PrincipalInvalid else Ok tt.

Definition canonical_uuid (raw : string) : result PrincipalError UUID :=
  match uuid_parse (lit raw) with
  | None => Raise PrincipalInvalid
  | Some u => if String.eqb (uuid_text u) raw then Ok u else Raise PrincipalInvalid
  end.

Definition correlation (raw : string) : result PrincipalError string :=
  if MAX_CORRELATION_CHARS <? str_len raw then Raise PrincipalInvalid else Ok raw.

(** ** The request ([server.py]) *)

Record ProtoOptions := { po_skip_cold_memories : bool; po_skip_hot_memories : bool; po_max_memories : Z }.

Record AssembleContextRequest := {
  rq_org_id : string;
  rq_agent_id : string;
  rq_query : string;
  rq_model : string;
  rq_recent_messages : list Message;
  rq_session_id : string;
  rq_directive_version_id : string;
  rq_request_id : string;
  rq_trace_id : string;
  rq_span_id : string;
  rq_available_tokens : Z;
  rq_options : ProtoOptions;
  rq_principal_context : option PrincipalContext;
}.

Definition verify_principal (q : AssembleContextRequest) (now : binary64) : result PrincipalError VerifiedPrincipal :=
  match rq_principal_context q with
  | None => Raise PrincipalMissing
  | Some p =>
      let* _ := require_authority p in
      let* org_id := canonical_uuid (pc_org_id p) in
      let* agent_id := canonical_uuid (pc_agent_id p) in
      let* _ := require_principal_id (pc_principal_id p) in
      let* _ := require_issued_at p now in
      let* _ := require_not_expired p now in
      let* request_id := correlation (pc_request_id p) in
      let* trace_id := correlation (pc_trace_id p) in
      Ok {| vp_org_id := org_id; vp_agent_id := agent_id; vp_request_id := request_id; vp_trace_id := trace_id |}
  end.

Definition bind_selectors (q : AssembleContextRequest) (v : VerifiedPrincipal) : result PrincipalError unit :=
  if negb (String.eqb (rq_org_id q) (uuid_text (vp_org_id v))) then Raise PrincipalMismatch
  else if negb (String.eqb (rq_agent_id q) (uuid_text (vp_agent_id v))) then Raise PrincipalMismatch
  else Ok tt.

Definition principal_abort (e : PrincipalError) : RpcError :=
  match e with
  | PrincipalMismatch => Abort PERMISSION_DENIED SelectorMismatch
  | PrincipalMissing => Abort UNAUTHENTICATED PrincipalRequired
  | PrincipalInvalid => Abort UNAUTHENTICATED PrincipalInvalidDetails
  end.

Definition require_principal (q : AssembleContextRequest) (now : binary64) : result RpcError VerifiedPrincipal :=
  match (let* v := verify_principal q now in let* _ := bind_selectors q v in Ok v) with
  | Ok v => Ok v
  | Raise e => Raise (principal_abort e)
  end.

Definition MAX_QUERY_CHARS : Z := 8192.
Definition MAX_MODEL_CHARS : Z := 256.
Definition MAX_RECENT_MESSAGES : Z := 100.
Definition MAX_ROLE_CHARS : Z := 64.
Definition MAX_CONTENT_CHARS : Z := 32768.
Definition MAX_AVAILABLE_TOKENS : Z := 10000000.
Definition MAX_ASSEMBLY_OPTION_MEMORIES : Z := 100.

Definition bounded_text (raw label : string) (max_chars : Z) (required : bool) : result FieldError string :=
  let text := if required then str_strip raw else raw in
  if (required && String.eqb text "")%bool then Raise (Required label)
  else if max_chars <? str_len text then Raise (TooLong label)
  else Ok text.

Definition available_tokens_from_proto (raw : Z) : result FieldError Z :=
  if raw <? 0 then Raise (OutOfRange "available_tokens")
  else if MAX_AVAILABLE_TOKENS <? raw then Raise (OutOfRange "available_tokens")
  else Ok raw.

Definition options_from_proto (o : ProtoOptions) : result FieldError AssemblyOptions :=
  if ((po_max_memories o <? 0) || (MAX_ASSEMBLY_OPTION_MEMORIES <? po_max_memories o))%bool
  then Raise (OutOfRange "max_memories")
  else Ok {| skip_cold_memories := po_skip_cold_memories o; skip_hot_memories := po_skip_hot_memories o;
             max_memories := po_max_memories o |}.

Definition messages_from_proto (raw : list Message) : result FieldError (list Message) :=
  rmap (fun m =>
    let* r := bounded_text (role m) "message.role" MAX_ROLE_CHARS false in
    let* c := bounded_text (msg_content m) "message.content" MAX_CONTENT_CHARS false in
    Ok {| role := r; msg_content := c |}) raw.

Definition optional_uuid (raw label : string) : result FieldError string :=
  let text := str_strip raw in
  if String.eqb text "" then Ok ""%string
  else match uuid_parse (lit text) with Some u => Ok (uuid_text u) | None => Raise (NotAUuid label) end.

Definition is_w3c_hex (text : pystr) (len : Z) : bool :=
  ((Z.of_nat (length text) =? len)
   && forallb (fun c => (48 <=? c) && (c <=? 57) || (97 <=? c) && (c <=? 102)) text)%bool.

Definition optional_w3c_hex_id (raw label : string) (len : Z) : result FieldError string :=
  let text := u_lower (lit (str_strip raw)) in
  if bool_decide (text = []) then Ok ""%string
  else if negb (is_w3c_hex text len) then Raise (NotHex label)
  else if forallb (fun c => c =? 48) text then Raise (ZeroId label)
  else Ok (text_of text).

Definition request_from_proto (q : AssembleContextRequest) (v : VerifiedPrincipal) : result FieldError AssembleRequest :=
  let* model := bounded_text (rq_model q) "model" MAX_MODEL_CHARS true in
  let* query := bounded_text (rq_query q) "query" MAX_QUERY_CHARS false in
  if MAX_RECENT_MESSAGES <? Z.of_nat (length (rq_recent_messages q)) then Raise (TooMany "recent_messages")
  else
    let* messages := messages_from_proto (rq_recent_messages q) in
    let* session_id := optional_uuid (rq_session_id q) "session_id" in
    let* directive_version_id := optional_uuid (rq_directive_version_id q) "directive_version_id" in
    let* request_id := optional_uuid (rq_request_id q) "request_id" in
    let* trace_id := optional_w3c_hex_id (rq_trace_id q) "trace_id" 32 in
    let* span_id := optional_w3c_hex_id (rq_span_id q) "span_id" 16 in
    let* available := available_tokens_from_proto (rq_available_tokens q) in
    let* options := options_from_proto (rq_options q) in
    Ok {| ar_org_id := vp_org_id v; ar_agent_id := vp_agent_id v; ar_query := query; ar_model := model;
          ar_recent_messages := messages; ar_session_id := session_id; ar_directive_version_id := directive_version_id;
          ar_request_id := request_id; ar_trace_id := trace_id; ar_span_id := span_id;
          ar_available_tokens := available; ar_options := options; ar_tool_schemas := [] |}.

Definition parse_assemble_request (q : AssembleContextRequest) (v : VerifiedPrincipal) : result RpcError AssembleRequest :=
  match request_from_proto q v with
  | Ok r => Ok r
  | Raise e => Raise (Abort INVALID_ARGUMENT (BadField e))
  end.
End Auth.

(** ** The handlers *)

Record AssembleContextResponse := {
  rp_assembled_context : string;
  rp_tokens_used : Z;
  rp_memories_included : Z;
  rp_memories_used : list MemoryUsedRecord;
  rp_directive_tokens : Z;
  rp_history_tokens : Z;
  rp_memory_tokens : Z;
  rp_metrics : AssemblyMetricsSnapshot;
  rp_request_id : string;
  rp_trace_id : string;
  rp_span_id : string;
}.

Definition response_to_proto (r : AssemblyResult) : AssembleContextResponse :=
  {| rp_assembled_context := assembled_context (formatted r); rp_tokens_used := tokens_used r;
     rp_memories_included := memories_included (formatted r); rp_memories_used := memories_used_ r;
     rp_directive_tokens := directive_tokens (budget r); rp_history_tokens := messages_tokens (budget r);
     rp_memory_tokens := total_tokens (packed r); rp_metrics := metrics r;
     rp_request_id := as_request_id r; rp_trace_id := as_trace_id r; rp_span_id := as_span_id r |}.

(** One call as the transport presents it: its metadata, whether it is
    cancelled before the handler runs, during assembly and after it, and the
    clocks it reads. *)
Record Call := {
  cl_metadata : option (list MdEntry);
  cl_cancelled_before : bool;
  cl_cancelled_during : bool;
  cl_cancelled_after : bool;
  cl_now : binary64;
  cl_clock : nat -> binary64;
  cl_nonce : string;
  cl_world : World;
}.

Definition abort_if_cancelled (cancelled : bool) : result RpcError unit :=
  if cancelled then Raise (Abort DEADLINE_EXCEEDED CallCancelled) else Ok tt.

(** A server: what [ContextAssemblyServicer] holds. *)
Record Server := {
  sv_settings : ContextSettings;
  sv_memory : MemoryHttpConfig;
  sv_catalog : CapabilityCatalog;
  sv_token : pystr;
}.

Section Handlers.
Context `{UnicodeDB} (sv : Server) (c : Call).

Definition assemble_or_deadline (q : AssembleRequest) : result RpcError AssemblyResult :=
  if cl_cancelled_during c then Raise (Abort DEADLINE_EXCEEDED DeadlineExceededDetails)
  else match assemble (sv_settings sv) (sv_memory sv) (sv_catalog sv) (cl_world c) (cl_clock c) (cl_nonce c) q with
       | Ok r => Ok r
       | Raise e => Raise (Unhandled e)
       end.

(** [assemble_context] *)
Definition assemble_context (q : AssembleContextRequest) : result RpcError AssembleContextResponse :=
  let* _ := abort_if_cancelled (cl_cancelled_before c) in
  let* _ := require_service_token (cl_metadata c) (sv_token sv) in
  let* verified := require_principal q (cl_now c) in
  let* domain := parse_assemble_request q verified in
  let* r := assemble_or_deadline domain in
  let* _ := abort_if_cancelled (cl_cancelled_after c) in
  Ok (response_to_proto r).

Definition unimplemented (method : string) : result RpcError AssembleContextResponse :=
  let* _ := require_service_token (cl_metadata c) (sv_token sv) in
  Raise (Abort UNIMPLEMENTED (Deferred method)).

Inductive Method := AssembleContext (q : AssembleContextRequest) | SearchMemories | RecordMemoryFeedback.

(** A registered RPC: the guard, then the servicer's method. *)
Definition rpc (m : Method) : result RpcError AssembleContextResponse :=
  guarded (cl_metadata c) (sv_token sv)
    match m with
    | AssembleContext q => assemble_context q
    | SearchMemories => unimplemented "SearchMemories"
    | RecordMemoryFeedback => unimplemented "RecordMemoryFeedback"
    end.
End Handlers.

(** ** Startup: the address and the token *)

Definition LOOPBACK_HOSTS : list pystr := [lit "127.0.0.1"; lit "::1"].

Section Startup.
Context `{UnicodeDB}.

Definition require_bind_shape (addr : pystr) : result StartupError unit :=
  if bool_decide (addr = []) then Raise BadAddress
  else if negb (bool_decide (addr = strip_space addr)) then Raise BadAddress
  else Ok tt.

(** [addr.rpartition(c)] as the text before the last [c] and after it. *)
Fixpoint rpartition (c : Z) (s : pystr) : option (pystr * pystr) :=
  match s with
  | [] => None
  | d :: s =>
      match rpartition c s with
      | Some (a, b) => Some (d :: a, b)
      | None => if d =? c then Some ([], s) else None
      end
  end.

Definition split_host_and_port_text (addr : pystr) : result StartupError (pystr * pystr) :=
  let* _ := require_bind_shape addr in
  match rpartition 58 addr with
  | None => Raise BadAddress
  | Some (host, port_text) => if bool_decide (host = []) then Raise BadAddress else Ok (host, port_text)
  end.

(** [int(text)] of ASCII digits. *)
Definition decimal (s : pystr) : Z := foldl (fun acc c => acc * 10 + (c - 48)) 0 s.

Definition parse_bind_port (port_text : pystr) : result StartupError Z :=
  if (bool_decide (port_text = []) || negb (forallb (fun c => (48 <=? c) && (c <=? 57)) port_text))%bool
  then Raise BadAddress
  else let port := decimal port_text in
       if (port <=? 65535) then Ok port else Raise BadAddress.

Definition starts_with (c : Z) (s : pystr) : bool := match s with d :: _ => d =? c | [] => false end.
Definition ends_with (c : Z) (s : pystr) : bool := match last s with Some d => d =? c | None => false end.

(** The host: brackets must pair up, and a bare host has no colon. *)
Definition normalized_host (host : pystr) : result StartupError pystr :=
  if negb (Bool.eqb (starts_with 91 host) (ends_with 93 host)) then Raise BadAddress
  else if (negb (starts_with 91 host) && bool_decide (58 ∈ host))%bool then Raise BadAddress
  else Ok (u_lower (strip (lit "[]") host)).

Definition split_host_port (addr : pystr) : result StartupError (pystr * Z) :=
  let* '(host, port_text) := split_host_and_port_text addr in
  let* port := parse_bind_port port_text in
  let* host := normalized_host host in
  Ok (host, port).

Definition host_from_addr (addr : pystr) : pystr :=
  match split_host_port addr with Ok (host, _) => host | Raise _ => [] end.

Definition is_loopback_addr (addr : pystr) : bool := bool_decide (host_from_addr addr ∈ LOOPBACK_HOSTS).

Definition require_loopback_bind (addr : pystr) : result StartupError unit :=
  let* '(host, _) := split_host_port addr in
  if bool_decide (host ∈ LOOPBACK_HOSTS) then Ok tt else Raise NotLoopback.

(** [_startup_service_token]: the caller token is not the memory token. *)
Definition startup_service_token (service_token memory_token : pystr) : result StartupError pystr :=
  let* t := validate_service_token service_token in
  if bool_decide (memory_token = []) then Ok t
  else match utf8_encode t, utf8_encode memory_token with
       | Some a, Some b => if bool_decide (a = b) then Raise TokenReused else Ok t
       | _, _ => Raise TokenNotEncodable
       end.

(** [build_server], for the port the transport binds. *)
Definition build_server (settings : ContextSettings) (memory : MemoryHttpConfig) (cat : CapabilityCatalog)
    (service_token memory_token addr : pystr) (bound_port : Z) : result StartupError (Server * Z) :=
  let* t := startup_service_token service_token memory_token in
  let* _ := require_loopback_bind addr in
  let* t := validate_service_token t in
  if bound_port =? 0 then Raise BindFailed
  else Ok ({| sv_settings := settings; sv_memory := memory; sv_catalog := cat; sv_token := t |}, bound_port).
End Startup.

(** ** Who is answered *)

Section Boundary.
Context `{UnicodeDB}.

(** The call carries exactly one token entry, and its text is [t]. *)
Definition presents (metadata : option (list MdEntry)) (t : pystr) : Prop :=
  exists raw entries v, metadata = Some raw /\ metadata_entries raw = Some entries /\
    token_values entries = [v] /\ as_text v = Some t.

Lemma validated_token_spec v :
  match validated_token v with
  | (None, Some text) => as_text v = Some text /\ is_Some (utf8_encode text) /\
      exists b, utf8_encode text = Some b /\ SERVICE_TOKEN_MIN_CHARS <= Z.of_nat (length b) <= SERVICE_TOKEN_MAX_CHARS
  | (None, None) => False
  | (Some _, _) => forall text b, as_text v = Some text -> utf8_encode text = Some b ->
      ~ (SERVICE_TOKEN_MIN_CHARS <= Z.of_nat (length b) <= SERVICE_TOKEN_MAX_CHARS)
  end.
Proof.
  unfold validated_token, token_size. destruct (as_text v) as [text|]; [|done].
  destruct (utf8_encode text) as [b|] eqn:E; cbn [option_map].
  - destruct (SERVICE_TOKEN_MIN_CHARS <=? Z.of_nat (length b)) eqn:E1,
      (Z.of_nat (length b) <=? SERVICE_TOKEN_MAX_CHARS) eqn:E2; cbn [andb]; bools.
    all: try (split; [done|]; split; [eauto|]; exists b; auto).
    all: intros text' b' [= <-] Hb; rewrite E in Hb; injection Hb as <-; lia.
  - intros text' b' [= <-] Hb. congruence.
Qed.

(** ASCII texts are their own UTF-8 encoding. *)
Lemma utf8_encode_token t : forallb token_char t = true -> utf8_encode t = Some t.
Proof.
  intros Ht. unfold utf8_encode. rewrite forallb_forall in Ht.
  assert (forallb scalar t = true) as ->.
  { apply forallb_forall. intros c Hc%Ht. unfold token_char in Hc. unfold scalar. lia. }
  f_equal. induction t as [|c t IH]; [done|]. cbn [fmap list_fmap mjoin list_join].
  assert (token_char c = true) as Hc by (apply Ht; by left).
  assert (utf8_char c = [c]) as ->.
  { unfold utf8_char. assert ((c <? 0x80) = true) as ->; [|done]. unfold token_char in Hc. lia. }
  cbn. f_equal. apply IH. intros x Hx. apply Ht. by right.
Qed.

(** The guard lets a call through exactly when it presents the token, and
    answers UNAUTHENTICATED otherwise. *)
Lemma require_service_token_spec metadata t : token_shape t = true ->
  (presents metadata t /\ require_service_token metadata t = Ok tt) \/
  (~ presents metadata t /\ require_service_token metadata t = Raise (Abort UNAUTHENTICATED CallerAuthenticationRequired)).
Proof.
  unfold token_shape. intros [[Hchars Hmin]%andb_prop Hmax]%andb_prop. bools.
  pose proof (utf8_encode_token t Hchars) as Henc. unfold require_service_token, presented_token, presents.
  destruct metadata as [raw|]; [|right; split; [by intros (? & ? & ? & ? & _)|done]].
  destruct (metadata_entries raw) as [entries|] eqn:Er; [|right; split; [|done]; intros (? & ? & ? & [= <-] & H1 & _); congruence].
  destruct (token_values entries) as [|v [|v' vs]] eqn:Ev.
  1, 3: right; split; [|done]; intros (? & ? & ? & [= <-] & H1 & H2 & _); rewrite Er in H1; injection H1 as <-; congruence.
  pose proof (validated_token_spec v) as Hv. destruct (validated_token v) as [[reason|] [text|]]; [right..| |done].
  1, 2: split; [|done]; intros (? & ? & ? & [= <-] & H1 & H2 & H3); rewrite Er in H1; injection H1 as <-;
    rewrite Ev in H2; injection H2 as <-; by apply (Hv t t H3 Henc).
  destruct Hv as (Htext & [b Hb] & _). unfold tokens_match.
  rewrite bool_decide_eq_false_2 by (intros ->; cbn in Hmin; unfold SERVICE_TOKEN_MIN_CHARS in Hmin; lia).
  rewrite Hb, Henc. cbn [rbind]. case_bool_decide as Heq; [left|right]; (split; [|done]).
  - subst b. exists raw, entries, v. assert (text = t) as -> by (apply utf8_roundtrip in Hb, Henc; congruence). auto.
  - intros (? & ? & ? & [= <-] & H1 & H2 & H3). rewrite Er in H1. injection H1 as <-. rewrite Ev in H2. injection H2 as <-.
    rewrite Htext in H3. injection H3 as ->. congruence.
Qed.

Lemma build_server_token settings memory cat st mt addr port sv bound :
  build_server settings memory cat st mt addr port = Ok (sv, bound) -> token_shape (sv_token sv) = true.
Proof.
  unfold build_server. intros (t & _ & (_ & _ & (t' & Ht & H0)%rbind_Ok)%rbind_Ok)%rbind_Ok.
  destruct (port =? 0); [done|]. injection H0 as <- _. cbn. unfold validate_service_token in Ht.
  repeat case_if; try done. by injection Ht as <-.
Qed.

Lemma canonical_uuid_Ok raw u : canonical_uuid raw = Ok u -> uuid_text u = raw.
Proof.
  unfold canonical_uuid. destruct (uuid_parse (lit raw)) as [u'|]; [|done].
  destruct (String.eqb (uuid_text u') raw) eqn:E; [|done]. intros [= <-]. by apply String.eqb_eq.
Qed.

(** A claimed instant: its nanoseconds are a fraction of a second, and it reads
    as [s] on the service's clock. *)
Definition claims_instant (t : Timestamp) (s : binary64) : Prop :=
  0 <= nanos t <= MAX_TIMESTAMP_NANOS
  /\ s = b64_add (b64_of_Z (seconds t)) (b64_div (b64_of_Z (nanos t)) (b64_of_Z 1000000000)).

Lemma holder_seconds_Ok t s : holder_seconds t = Ok s -> claims_instant t s.
Proof.
  unfold holder_seconds, nanos_seconds. intros (frac & Hf & [= <-])%rbind_Ok.
  destruct (0 <=? nanos t) eqn:E1, (nanos t <=? MAX_TIMESTAMP_NANOS) eqn:E2; try done. cbn [andb] in Hf.
  injection Hf as <-. bools. done.
Qed.

Lemma timestamp_seconds_Ok t s : timestamp_seconds t = Ok s ->
  match t, s with Some t, Some s => claims_instant t s | None, None => True | _, _ => False end.
Proof.
  destruct t as [t|]; cbn [timestamp_seconds]; [|by intros [= <-]].
  intros (r & Hr%holder_seconds_Ok & [= <-])%rbind_Ok. done.
Qed.

(** The principal a caller asserts (nothing signs it) and the service acts on:
    it names AuthService as its authority and some principal, its org and agent
    are canonical and byte for byte the request's selectors, it claims to be
    issued at most 30 seconds from the server's clock either way, and, if it
    claims an expiry at all, that lies at most 30 seconds back. *)
Record principal_bound (q : AssembleContextRequest) (now : binary64) (p : PrincipalContext) (v : VerifiedPrincipal) : Prop := {
  pb_present : rq_principal_context q = Some p;
  pb_authority : pc_authority p = "AuthService"%string;
  pb_named : pc_principal_id p <> ""%string /\ str_strip (pc_principal_id p) = pc_principal_id p
             /\ str_len (pc_principal_id p) <= 256;
  pb_org : uuid_text (vp_org_id v) = pc_org_id p /\ pc_org_id p = rq_org_id q;
  pb_agent : uuid_text (vp_agent_id v) = pc_agent_id p /\ pc_agent_id p = rq_agent_id q;
  pb_fresh : exists t issued, pc_issued_at p = Some t /\ claims_instant t issued
             /\ f_ltb (b64_of_Z 30) (SFabs (b64_sub now issued)) = false;
  pb_not_stale : forall t, pc_expires_at p = Some t ->
             exists expires, claims_instant t expires /\ f_ltb (b64_of_Z 30) (b64_sub now expires) = false;
}.

Lemma require_issued_at_Ok p now : require_issued_at p now = Ok tt ->
  exists t issued, pc_issued_at p = Some t /\ claims_instant t issued
    /\ f_ltb (b64_of_Z 30) (SFabs (b64_sub now issued)) = false.
Proof.
  unfold require_issued_at. intros (s & Hs%timestamp_seconds_Ok & H1)%rbind_Ok.
  destruct (pc_issued_at p) as [t|], s as [issued|]; try done.
  exists t, issued. split; [done|]. split; [done|]. unfold MAX_PRINCIPAL_SKEW_SECONDS in H1.
  by destruct (f_ltb _ _).
Qed.

Lemma require_not_expired_Ok p now : require_not_expired p now = Ok tt ->
  forall t, pc_expires_at p = Some t ->
    exists expires, claims_instant t expires /\ f_ltb (b64_of_Z 30) (b64_sub now expires) = false.
Proof.
  unfold require_not_expired. intros (s & Hs%timestamp_seconds_Ok & H1)%rbind_Ok t Et.
  rewrite Et in Hs. destruct s as [e|]; [|done]. exists e. split; [done|].
  unfold MAX_PRINCIPAL_SKEW_SECONDS in H1. by destruct (f_ltb _ _).
Qed.

Lemma require_principal_id_Ok i : require_principal_id i = Ok tt ->
  i <> ""%string /\ str_strip i = i /\ str_len i <= 256.
Proof.
  unfold require_principal_id, MAX_PRINCIPAL_ID_CHARS.
  destruct (String.eqb i "") eqn:E1; [done|]. destruct (String.eqb i (str_strip i)) eqn:E2; [|done].
  cbn [orb negb]. destruct (256 <? str_len i) eqn:E3; [done|]. intros _.
  apply String.eqb_neq in E1. apply String.eqb_eq in E2. apply Z.ltb_ge in E3. done.
Qed.

Lemma require_principal_Ok q now v : require_principal q now = Ok v -> exists p, principal_bound q now p v.
Proof.
  unfold require_principal, verify_principal.
  destruct (rq_principal_context q) as [p|] eqn:Ep; [|done]. intros Hv. exists p.
  match type of Hv with match ?m with _ => _ end = _ => destruct m as [v'|] eqn:E end; [|done]. injection Hv as ->.
  apply rbind_Ok in E as (v' & E & (u3 & Hbind & [= ->])%rbind_Ok).
  apply rbind_Ok in E as (u1 & Hauth & E). apply rbind_Ok in E as (org & Horg%canonical_uuid_Ok & E).
  apply rbind_Ok in E as (agent & Hagent%canonical_uuid_Ok & E).
  apply rbind_Ok in E as ([] & Hid%require_principal_id_Ok & E).
  apply rbind_Ok in E as ([] & Hiss%require_issued_at_Ok & E).
  apply rbind_Ok in E as ([] & Hexp & E).
  apply rbind_Ok in E as (rid & _ & E). apply rbind_Ok in E as (tid & _ & [= <-]).
  unfold bind_selectors in Hbind. cbn [vp_org_id vp_agent_id] in Hbind.
  destruct (String.eqb (rq_org_id q) (uuid_text org)) eqn:E1; [|done].
  destruct (String.eqb (rq_agent_id q) (uuid_text agent)) eqn:E2; [|done]. apply String.eqb_eq in E1, E2.
  unfold require_authority in Hauth. destruct (String.eqb (pc_authority p) AUTHORITY_AUTH_SERVICE) eqn:E3; [|done].
  apply String.eqb_eq in E3. split; cbn; try done.
  1, 2: split; [done|congruence].
  by apply require_not_expired_Ok.
Qed.

Lemma request_from_proto_ids q v r : request_from_proto q v = Ok r ->
  ar_org_id r = vp_org_id v /\ ar_agent_id r = vp_agent_id v.
Proof.
  unfold request_from_proto. intros (model & _ & E)%rbind_Ok. apply rbind_Ok in E as (query & _ & E). case_if; [done|].
  do 8 (apply rbind_Ok in E as (? & _ & E)). by injection E as <-.
Qed.

(** C4: a successful [AssembleContext] call came from a holder of the service
    token and stays inside one tenant.  The call presented exactly one token
    entry, the server's token; it carried a principal that names AuthService as
    its authority, with canonical org and agent ids, an issue time at most 30
    seconds from the server's clock and, where it has an expiry, one at most 30
    seconds back; the request's selectors are that principal's ids byte for
    byte, the assembler ran for the principal's org and agent, and every memory
    in the prompt it got back belongs to them.  (The principal is asserted by the
    token holder and unsigned: nothing here shows AuthService issued it.) *)
Theorem answers_only_bound_callers sv c q resp : token_shape (sv_token sv) = true ->
  rpc sv c (AssembleContext q) = Ok resp ->
  presents (cl_metadata c) (sv_token sv) /\
  exists p v domain res, principal_bound q (cl_now c) p v /\
    ar_org_id domain = vp_org_id v /\ ar_agent_id domain = vp_agent_id v /\
    assemble (sv_settings sv) (sv_memory sv) (sv_catalog sv) (cl_world c) (cl_clock c) (cl_nonce c) domain = Ok res /\
    resp = response_to_proto res /\
    forall m, m ∈ memories (packed res) -> hit_org_id (hit m) = rq_org_id q /\ hit_agent_id (hit m) = rq_agent_id q.
Proof.
  intros Ht Hrpc. unfold rpc, guarded in Hrpc. apply rbind_Ok in Hrpc as (u & Htok & Hrpc).
  destruct (require_service_token_spec (cl_metadata c) (sv_token sv) Ht) as [[Hp _]|[_ Hno]]; [|congruence].
  split; [done|]. unfold assemble_context in Hrpc. apply rbind_Ok in Hrpc as (u1 & _ & Hrpc).
  apply rbind_Ok in Hrpc as (u2 & _ & Hrpc). apply rbind_Ok in Hrpc as (v & [p Hv]%require_principal_Ok & Hrpc).
  apply rbind_Ok in Hrpc as (domain & Hd & Hrpc). apply rbind_Ok in Hrpc as (res & Ha & Hrpc).
  apply rbind_Ok in Hrpc as (u3 & _ & [= <-]).
  unfold parse_assemble_request in Hd. destruct (request_from_proto q v) as [d|] eqn:Eq; [|done]. injection Hd as ->.
  apply request_from_proto_ids in Eq as [Ho Hag].
  unfold assemble_or_deadline in Ha. destruct (cl_cancelled_during c); [done|].
  destruct (assemble _ _ _ _ _ _ domain) as [r|] eqn:Er; [|done]. injection Ha as ->.
  exists p, v, domain, res. split_and!; [done..|]. destruct Hv as [_ _ _ [Horg1 Horg2] [Hag1 Hag2] _ _].
  intros m Hm. destruct (packed_belongs _ _ _ _ _ _ _ _ m Er Hm) as [H1 H2]. split; congruence.
Qed.

(** An unauthenticated call learns nothing: on a server that started, a
    call that does not present exactly one entry with the right token gets the
    same UNAUTHENTICATED abort for every method, whatever the request says, and
    neither the memory service nor the directive cache is consulted for it. *)
Theorem unauthenticated_calls_uniform settings memory cat st mt addr port sv bound c m :
  build_server settings memory cat st mt addr port = Ok (sv, bound) -> ~ presents (cl_metadata c) (sv_token sv) ->
  forall w, rpc sv {| cl_metadata := cl_metadata c; cl_cancelled_before := cl_cancelled_before c;
                      cl_cancelled_during := cl_cancelled_during c; cl_cancelled_after := cl_cancelled_after c;
                      cl_now := cl_now c; cl_clock := cl_clock c; cl_nonce := cl_nonce c; cl_world := w |} m
            = Raise (Abort UNAUTHENTICATED CallerAuthenticationRequired).
Proof.
  intros Ht%build_server_token Hno w. unfold rpc, guarded. cbn [cl_metadata].
  destruct (require_service_token_spec (cl_metadata c) (sv_token sv) Ht) as [[Hp _]|[_ ->]]; done.
Qed.
End Boundary.

Module ServerSample.
#[local] Existing Instance ascii_db.
Definition service_token : pystr := lit "0123456789abcdef0123456789abcdef".
Definition entry (t : pystr) : MdEntry := MdPair (MdStr (lit "X-Ibex-Context-Service-Token")) (MdStr t).
Definition principal : PrincipalContext :=
  {| pc_authority := "AuthService"; pc_org_id := uuid_text 7; pc_agent_id := uuid_text 9; pc_principal_id := "proxy";
     pc_request_id := ""; pc_trace_id := ""; pc_issued_at := Some {| seconds := 1000; nanos := 500000000 |};
     pc_expires_at := None |}.
Definition request (org : UUID) : AssembleContextRequest :=
  {| rq_org_id := uuid_text org; rq_agent_id := uuid_text 9; rq_query := "drink?"; rq_model := " m ";
     rq_recent_messages := []; rq_session_id := ""; rq_directive_version_id := ""; rq_request_id := "";
     rq_trace_id := ""; rq_span_id := ""; rq_available_tokens := 0;
     rq_options := {| po_skip_cold_memories := false; po_skip_hot_memories := false; po_max_memories := 0 |};
     rq_principal_context := Some principal |}.
Definition server : Server :=
  {| sv_settings := AssembleSample.settings; sv_memory := RetrievalSample.cfg; sv_catalog := BudgetSample.cat;
     sv_token := service_token |}.
Definition call (md : list MdEntry) : Call :=
  {| cl_metadata := Some md; cl_cancelled_before := false; cl_cancelled_during := false; cl_cancelled_after := false;
     cl_now := b64_of_Z 1010; cl_clock := AssembleSample.clock; cl_nonce := AssembleSample.generated;
     cl_world := AssembleSample.world |}.

Definition outcome_of (r : result RpcError AssembleContextResponse) : Z + RpcError :=
  match r with Ok r => inl (rp_memories_included r) | Raise e => inr e end.

Example answered : outcome_of (rpc server (call [entry service_token]) (AssembleContext (request 7))) = inl 3.
Proof. vm_compute. reflexivity. Qed.
Example other_tenant_denied :
  outcome_of (rpc server (call [entry service_token]) (AssembleContext (request 8)))
  = inr (Abort PERMISSION_DENIED SelectorMismatch).
Proof. vm_compute. reflexivity. Qed.
Example duplicate_token_denied :
  outcome_of (rpc server (call [entry service_token; entry service_token]) (AssembleContext (request 7)))
  = inr (Abort UNAUTHENTICATED CallerAuthenticationRequired).
Proof. vm_compute. reflexivity. Qed.

(** Stray brackets around a loopback literal pass the bind guard. *)
Example addresses :
  (fun a => is_ok (require_loopback_bind (lit a)))
  <$> ["127.0.0.1:9092"; "[::1]:0"; "::1:0"; "localhost:9092"; "0.0.0.0:9092"; "127.0.0.1:70000"; "[[::1]]:0"]%string
  = [true; true; false; false; false; false; true].
Proof. vm_compute. reflexivity. Qed.

Lemma answers_only_bound_callers_witness : exists resp,
  rpc server (call [entry service_token]) (AssembleContext (request 7)) = Ok resp /\
  presents (cl_metadata (call [entry service_token])) service_token.
Proof.
  destruct (rpc server (call [entry service_token]) (AssembleContext (request 7))) as [resp|e] eqn:E.
  - exists resp. split; [reflexivity|].
    exact (proj1 (answers_only_bound_callers server (call [entry service_token]) (request 7) resp eq_refl E)).
  - exfalso. pose proof (f_equal outcome_of E) as H. rewrite answered in H. discriminate.
Defined.

Lemma no_token : ~ presents (cl_metadata (call [])) service_token.
Proof. intros (raw & entries & v & [= <-] & [= <-] & H & _). discriminate. Qed.

Lemma unauthenticated_calls_uniform_witness :
  rpc server (call []) SearchMemories = Raise (Abort UNAUTHENTICATED CallerAuthenticationRequired).
Proof.
  exact (unauthenticated_calls_uniform AssembleSample.settings RetrievalSample.cfg BudgetSample.cat service_token (lit "m")
           (lit "127.0.0.1:9092") 9092 server 9092 (call []) SearchMemories eq_refl no_token AssembleSample.world).
Defined.
End ServerSample.
