(* ===== verification/OrgDeletion.v ===== *)
(** * The organization deletion saga ([services/worker/app/tasks/org_deletion.py],
      [org_deletion_receipts.py], [org_deletion_stores.py], the deletion request
      of [services/api/app/services/organizations.py])

    A deletion job erases an organization from Postgres, ClickHouse, Redis and
    the object store and leaves a receipt per store.  Postgres work is
    transactional; what a stage did to another store stays done when its
    transaction rolls back.  Faults of the environment (failing statements,
    commits, stores, a worker that dies) are arguments of a run.

    Rows are kept per table name; foreign keys between the tables are not
    modelled. *)

From S2P Require Import Prelude.

Inductive Store := postgres | clickhouse | redis | objectstore.

#[global] Instance Store_eq_dec : EqDecision Store.
Proof. solve_decision. Defined.
#[global] Instance Store_countable : Countable Store.
Proof.
  refine (inj_countable' (fun s => match s with postgres => 0 | clickhouse => 1 | redis => 2 | objectstore => 3 end)
    (fun n => if n =? 0 then postgres else if n =? 1 then clickhouse else if n =? 2 then redis else objectstore) _).
  by intros [].
Defined.

(** [STORES] *)
Definition STORES : list Store := [postgres; clickhouse; redis; objectstore].
Definition store_name (s : Store) : string :=
  match s with postgres => "postgres" | clickhouse => "clickhouse" | redis => "redis" | objectstore => "objectstore" end.

Abbreviation OrgId := string (only parsing).
Abbreviation JobId := string (only parsing).

(** ** Postgres *)

Inductive JobStatus := Pending | Running | Succeeded | Failed | HoldBlocked.
Inductive ReceiptStatus := Verified | ReceiptFailed | NotApplicable.

#[global] Instance JobStatus_eq_dec : EqDecision JobStatus.
Proof. solve_decision. Defined.
#[global] Instance ReceiptStatus_eq_dec : EqDecision ReceiptStatus.
Proof. solve_decision. Defined.

(** [org_deletion_jobs]; errors are not kept. *)
Record Job := { j_org : OrgId; j_status : JobStatus; j_snapshot : option (list string) }.

(** A row of a tenant table: an event may name the object it is archived to, a
    memory has a lifecycle revision, a session names a directive version. *)
Record Row := {
  r_org : OrgId;
  r_id : string;
  r_archived_to : option string;
  r_revision : Z;
  r_directive_version : option string;
}.

(** [organizations]: whether the status is cancelled (of the others, active and
    suspended, nothing here depends on which), and whether [deleted_at] is set. *)
Record OrgRow := { o_cancelled : bool; o_deleted : bool }.
Record Hold := { h_org : OrgId; h_cleared : bool }.

Inductive AuditAction := AuditHoldBlocked | AuditCertificate (receipts : list (Store * ReceiptStatus)).
Record AuditEntry := { a_org : OrgId; a_job : JobId; a_action : AuditAction }.

Record Db := {
  (** jobs in the order of their [created_at] *)
  jobs : list (JobId * Job);
  receipts : gmap (JobId * Store) ReceiptStatus;
  holds : list Hold;
  orgs : gmap OrgId OrgRow;
  tables : gmap string (list Row);
  outbox : list Row;
  audit : list AuditEntry;
}.

Definition with_jobs (d : Db) (j : list (JobId * Job)) : Db :=
  {| jobs := j; receipts := receipts d; holds := holds d; orgs := orgs d; tables := tables d; outbox := outbox d; audit := audit d |}.
Definition with_receipts (d : Db) (r : gmap (JobId * Store) ReceiptStatus) : Db :=
  {| jobs := jobs d; receipts := r; holds := holds d; orgs := orgs d; tables := tables d; outbox := outbox d; audit := audit d |}.
Definition with_holds (d : Db) (h : list Hold) : Db :=
  {| jobs := jobs d; receipts := receipts d; holds := h; orgs := orgs d; tables := tables d; outbox := outbox d; audit := audit d |}.
Definition with_orgs (d : Db) (o : gmap OrgId OrgRow) : Db :=
  {| jobs := jobs d; receipts := receipts d; holds := holds d; orgs := o; tables := tables d; outbox := outbox d; audit := audit d |}.
Definition with_rows (d : Db) (t : gmap string (list Row)) (o : list Row) : Db :=
  {| jobs := jobs d; receipts := receipts d; holds := holds d; orgs := orgs d; tables := t; outbox := o; audit := audit d |}.
Definition with_audit (d : Db) (a : list AuditEntry) : Db :=
  {| jobs := jobs d; receipts := receipts d; holds := holds d; orgs := orgs d; tables := tables d; outbox := outbox d; audit := a |}.

(** The rows of a table; a table without rows may be missing from the map. *)
Definition rows_of (t : gmap string (list Row)) (name : string) : list Row := default [] (t !! name).

(** The row of a job id. *)
Fixpoint find_job (id : JobId) (l : list (JobId * Job)) : option Job :=
  match l with [] => None | (i, j) :: l => if String.eqb i id then Some j else find_job id l end.
Definition set_status (st : JobStatus) (j : Job) : Job :=
  {| j_org := j_org j; j_status := st; j_snapshot := j_snapshot j |}.
Definition set_snapshot (uris : list string) (j : Job) : Job :=
  {| j_org := j_org j; j_status := j_status j; j_snapshot := Some uris |}.

(** ** Receipts ([org_deletion_receipts.py]) *)

(** [NON_ERASABLE_STORES] is empty: no store is refused. *)
Definition latest_receipt_status (d : Db) (job : JobId) (s : Store) : option ReceiptStatus := receipts d !! (job, s).
Definition receipt_verified (d : Db) (job : JobId) (s : Store) : bool :=
  bool_decide (latest_receipt_status d job s = Some Verified).
Definition receipt_terminal (d : Db) (job : JobId) (s : Store) : bool :=
  match latest_receipt_status d job s with Some Verified | Some NotApplicable => true | _ => false end.
Definition upsert_receipt (job : JobId) (s : Store) (st : ReceiptStatus) (d : Db) : Db :=
  with_receipts d (<[(job, s) := st]> (receipts d)).

(** [receipt_digests], before hashing. *)
Definition receipt_digests (d : Db) (job : JobId) : list (Store * ReceiptStatus) :=
  omap (fun s => (fun st => (s, st)) <$> latest_receipt_status d job s) STORES.

Inductive SagaError :=
| StoreUnreachableError (s : Store)
| LegalHoldActive
| StoreFailed (s : Store)
| StillPresent (table : string)
| BadUri
| BucketMismatch
| UnknownStores
| DatabaseFailed
| CommitFailed
| PublishFailed
| WorkerLost.

(** A comma-separated list without empty names, lower-cased. *)
Definition lower_ascii (c : ascii) : ascii :=
  let n := nat_of_ascii c in if ((65 <=? n) && (n <=? 90))%nat then ascii_of_nat (n + 32) else c.
Fixpoint lower (s : string) : string := match s with EmptyString => "" | String c s => String (lower_ascii c) (lower s) end.
Fixpoint split_comma (s : string) : list string :=
  match s with
  | EmptyString => [""%string]
  | String c s =>
      if Ascii.eqb c "," then ""%string :: split_comma s
      else match split_comma s with
           | w :: l => String c w :: l
           | [] => [String c ""]
           end
  end.

Definition parse_store (name : string) : option Store := List.find (fun s => String.eqb (store_name s) name) STORES.

Definition parse_deployed_stores (raw : string) : result SagaError (list Store) :=
  if String.eqb (str_strip raw) "" then Ok [postgres]
  else
    let names := List.filter (fun s => negb (String.eqb (str_strip s) "")) (split_comma raw) in
    let parsed := parse_store ∘ lower ∘ str_strip <$> names in
    if bool_decide (None ∈ parsed) then Raise UnknownStores
    else let stores := omap id parsed in
         Ok (if bool_decide (postgres ∈ stores) then stores else postgres :: stores).

(** ** The other stores ([org_deletion_stores.py], [objectstore_client.py]) *)

Record Stores := {
  (** the organizations owning the rows of each existing table *)
  ch_rows : gmap string (list OrgId);
  redis_keys : gset string;
  objects : gset (string * string);
}.

Record Settings := {
  deployed_raw : string;
  clickhouse_dsn : string;
  redis_url : string;
  s3_endpoint : string;
  s3_bucket : string;
}.

Definition clickhouse_configured (s : Settings) : bool := negb (String.eqb (str_strip (clickhouse_dsn s)) "").
Definition redis_configured (s : Settings) : bool := negb (String.eqb (redis_url s) "").
Definition objectstore_configured (s : Settings) : bool := negb (String.eqb (str_strip (s3_endpoint s)) "").

Definition CH_TABLES : list string := ["llm_traces"; "mcp_tool_calls"; "evidence_spans"; "evidence_assembly_metrics"]%string.

Definition redis_prefixes (org : OrgId) : list string :=
  [org +:+ ":directive:"; org +:+ ":memory:"; org +:+ ":hot_memories:"; org +:+ ":embed:v1:"; org +:+ ":session:";
   org +:+ ":idempotency:"; "idempotency:" +:+ org +:+ ":"; "session:" +:+ org +:+ ":"; "ratelimit:" +:+ org +:+ ":"].

(** What the environment does to one phase of a run. *)
Record Faults := {
  f_statement : nat -> bool;             (* a statement of the purge fails *)
  f_commit : bool;                       (* the commit of the transaction fails *)
  f_publish : bool;                      (* the invalidation cannot be published *)
  f_ch_mutate : string -> bool;          (* ClickHouse refuses the mutation of a table *)
  f_ch_late : string -> bool;            (* the mutation is not applied before the deadline *)
  f_ch_count : string -> bool;           (* a count fails *)
  f_redis : string -> option (gset string);  (* the scan of a prefix fails after these keys were deleted *)
  f_endpoint : bool;                     (* [_require_endpoint] refuses the endpoint *)
  f_list : bool;                         (* listing the prefix fails *)
  f_delete : string -> bool;             (* deleting a key fails *)
  f_record : bool;                       (* the failure cannot be recorded *)
}.

(** ** Computations

    Both databases are state; an exception leaves the state as it is at that
    point, and [transaction] undoes what was done to Postgres. *)

Record World := { db : Db; stores : Stores }.
Definition M (A : Type) : Type := World -> result SagaError A * World.

Definition mret {A : Type} (a : A) : M A := fun w => (Ok a, w).
Definition mraise {A : Type} (e : SagaError) : M A := fun w => (Raise e, w).
Definition mbind {A B : Type} (m : M A) (k : A -> M B) : M B := fun w =>
  match m w with (Ok a, w') => k a w' | (Raise e, w') => (Raise e, w') end.
Definition get_db : M Db := fun w => (Ok (db w), w).
Definition get_stores : M Stores := fun w => (Ok (stores w), w).
Definition on_db (f : Db -> Db) : M unit := fun w => (Ok tt, {| db := f (db w); stores := stores w |}).
Definition on_stores (f : Stores -> Stores) : M unit := fun w => (Ok tt, {| db := db w; stores := f (stores w) |}).
Fixpoint mfor {A : Type} (f : A -> M unit) (l : list A) : M unit :=
  match l with [] => mret tt | x :: l => mbind (f x) (fun _ => mfor f l) end.

(** [session_as_service_org]: commit on exit, roll back on an exception or when
    the commit fails. *)
Definition transaction {A : Type} (commit_fails : bool) (body : M A) : M A := fun w =>
  match body w with
  | (Ok a, w') => if commit_fails then (Raise CommitFailed, {| db := db w; stores := stores w' |}) else (Ok a, w')
  | (Raise e, w') => (Raise e, {| db := db w; stores := stores w' |})
  end.

(** [try: m except Exception as exc: h(exc)] *)
Definition mcatch {A : Type} (m : M A) (h : SagaError -> M A) : M A := fun w =>
  match m w with (Ok a, w') => (Ok a, w') | (Raise e, w') => h e w' end.

Notation "'let!' x := m 'in' k" := (mbind m (fun x => k)) (at level 200, x pattern, m at level 100, k at level 200).
Notation "m ;! k" := (mbind m (fun _ => k)) (at level 100, right associativity).

Definition set_ch (c : gmap string (list OrgId)) (s : Stores) : Stores :=
  {| ch_rows := c; redis_keys := redis_keys s; objects := objects s |}.
Definition set_redis (k : gset string) (s : Stores) : Stores :=
  {| ch_rows := ch_rows s; redis_keys := k; objects := objects s |}.
Definition set_objects (o : gset (string * string)) (s : Stores) : Stores :=
  {| ch_rows := ch_rows s; redis_keys := redis_keys s; objects := o |}.

(** [ALTER TABLE t DELETE]; a missing table is not an error. *)
Definition ch_mutate_table (f : Faults) (org : OrgId) (t : string) : M unit :=
  let! s := get_stores in
  match ch_rows s !! t with
  | None => mret tt
  | Some rows =>
      if f_ch_mutate f t then mraise (StoreFailed clickhouse)
      else if f_ch_late f t then mret tt
      else on_stores (set_ch (<[t := List.filter (fun o => negb (String.eqb o org)) rows]> (ch_rows s)))
  end.

Definition ch_count_org (f : Faults) (org : OrgId) (t : string) : M nat :=
  let! s := get_stores in
  match ch_rows s !! t with
  | None => mret 0%nat
  | Some rows => if f_ch_count f t then mraise (StoreFailed clickhouse)
                 else mret (length (List.filter (fun o => String.eqb o org) rows))
  end.

(** The poll until the deadline returns on a zero count only; mutations that
    are applied at all are applied before the first count here. *)
Definition ch_wait_absent (f : Faults) (org : OrgId) (t : string) : M unit :=
  let! n := ch_count_org f org t in
  if (n =? 0)%nat then mret tt else mraise (StillPresent t).

Definition stage_clickhouse (f : Faults) (org : OrgId) : M unit :=
  mfor (ch_mutate_table f org) CH_TABLES ;! mfor (ch_wait_absent f org) CH_TABLES.

(** [scan_delete]: a completed SCAN has visited every key of the pattern. *)
Definition scan_delete (f : Faults) (prefix : string) : M unit :=
  let! s := get_stores in
  match f_redis f prefix with
  | Some deleted =>
      on_stores (set_redis (redis_keys s ∖ filter (fun k => String.prefix prefix k = true) deleted)) ;!
      mraise (StoreFailed redis)
  | None => on_stores (set_redis (filter (fun k => String.prefix prefix k = false) (redis_keys s)))
  end.

Definition stage_redis (f : Faults) (org : OrgId) : M unit := mfor (scan_delete f) (redis_prefixes org).

(** [_parse_s3_uri]: the bucket and the key. *)
Fixpoint cut_slash (s : string) : option (string * string) :=
  match s with
  | EmptyString => None
  | String c s => if Ascii.eqb c "/" then Some (""%string, s)
                  else option_map (fun ab => (String c ab.1, ab.2)) (cut_slash s)
  end.

Definition parse_s3_uri (uri : string) : result SagaError (string * string) :=
  if negb (String.prefix "s3://" uri) then Raise BadUri
  else match cut_slash (String.substring 5 (String.length uri) uri) with
       | Some (bucket, key) => if (String.eqb bucket "" || String.eqb key "")%bool then Raise BadUri else Ok (bucket, key)
       | None => Raise BadUri
       end.

(** [key.lstrip("/")], as the path of the object's URL is built. *)
Fixpoint lstrip_slash (s : string) : string :=
  match s with
  | String c s' => if Ascii.eqb c "/" then lstrip_slash s' else s
  | EmptyString => ""
  end.

Definition delete_key (f : Faults) (st : Settings) (key : string) : M unit :=
  if f_delete f key then mraise (StoreFailed objectstore)
  else let! s := get_stores in on_stores (set_objects (objects s ∖ {[ (s3_bucket st, lstrip_slash key) ]})).

Definition require_endpoint (f : Faults) : M unit := if f_endpoint f then mraise (StoreFailed objectstore) else mret tt.

Definition delete_uri (f : Faults) (st : Settings) (uri : string) : M unit :=
  match parse_s3_uri uri with
  | Raise e => mraise e
  | Ok (bucket, key) =>
      require_endpoint f ;!
      if String.eqb bucket (s3_bucket st) then delete_key f st key else mraise BucketMismatch
  end.

(** [_list_keys]: the keys of the bucket with the prefix, over all pages. *)
Definition list_keys (f : Faults) (st : Settings) (prefix : string) : M (list string) :=
  let! s := get_stores in
  if f_list f then mraise (StoreFailed objectstore)
  else mret (snd <$> List.filter (fun bk => (String.eqb bk.1 (s3_bucket st) && String.prefix prefix bk.2)%bool)
                                 (elements (objects s))).

Definition delete_org_prefix (f : Faults) (st : Settings) (org : OrgId) : M unit :=
  require_endpoint f ;!
  let! keys := list_keys f st (org +:+ "/") in
  mfor (delete_key f st) keys.

(** [delete_objectstore_sync] *)
Definition stage_objectstore (f : Faults) (st : Settings) (org : OrgId) (uris : list string) : M unit :=
  mfor (delete_uri f st) uris ;! delete_org_prefix f st org.

(** ** The Postgres purge *)

Inductive Statement :=
| DeleteOrgRows (table : string)
| DeleteClearedHolds
| PurgeMemories
| ClearDirectiveVersions
| CancelAndDeleteOrg.

(** [_PG_PRE_CASCADE] *)
Definition PG_PRE_CASCADE : list Statement :=
  (DeleteOrgRows <$> ["evidence_outbox"; "evidence_tool_audits"; "evidence_directive_snapshots"; "evidence_score_candidates";
     "evidence_assembly_metrics"; "evidence_events"; "evidence_spans"; "evidence_runs"; "session_events";
     "org_capture_policies"; "org_model_policies"; "org_model_policy_meta"; "provider_credentials"; "rate_limit_overrides";
     "user_totp_secrets"; "operator_action_ledger"]%string) ++ [DeleteClearedHolds].

(** [_CASCADE_STATEMENTS] *)
Definition CASCADE_STATEMENTS : list Statement :=
  (DeleteOrgRows <$> ["memory_feedback"; "memory_conflict_escalations"; "memory_relationships"; "memory_labels"]%string)
  ++ [PurgeMemories; ClearDirectiveVersions]
  ++ (DeleteOrgRows <$> ["sessions"; "directive_versions"; "directives"; "tokens"; "agents"; "organization_invites"; "users"]%string)
  ++ [CancelAndDeleteOrg].

Definition of_org (org : OrgId) (r : Row) : bool := String.eqb (r_org r) org.
Definition without_org (org : OrgId) (rows : list Row) : list Row := List.filter (fun r => negb (of_org org r)) rows.
Definition update_table (t : string) (f : list Row -> list Row) (d : Db) : Db :=
  with_rows d (<[t := f (rows_of (tables d) t)]> (tables d)) (outbox d).

Definition purged_event (r : Row) : Row :=
  {| r_org := r_org r; r_id := r_id r; r_archived_to := None; r_revision := r_revision r + 1; r_directive_version := None |}.
Definition clear_directive_version (r : Row) : Row :=
  {| r_org := r_org r; r_id := r_id r; r_archived_to := r_archived_to r; r_revision := r_revision r; r_directive_version := None |}.

Definition exec_statement (org : OrgId) (stmt : Statement) (d : Db) : Db :=
  match stmt with
  | DeleteOrgRows t => update_table t (without_org org) d
  | DeleteClearedHolds =>
      with_holds d (List.filter (fun h => negb (String.eqb (h_org h) org && h_cleared h)) (holds d))
  | PurgeMemories =>
      let rows := rows_of (tables d) "memories" in
      with_rows d (<["memories"%string := without_org org rows]> (tables d))
                  (outbox d ++ (purged_event <$> List.filter (of_org org) rows))
  | ClearDirectiveVersions =>
      update_table "sessions" (fmap (fun r => if of_org org r then clear_directive_version r else r)) d
  | CancelAndDeleteOrg =>
      with_orgs d (alter (fun _ => {| o_cancelled := true; o_deleted := true |}) org (orgs d))
  end.

Fixpoint exec_statements (f : Faults) (org : OrgId) (n : nat) (l : list Statement) : M unit :=
  match l with
  | [] => mret tt
  | stmt :: l =>
      if f_statement f n then mraise DatabaseFailed
      else on_db (exec_statement org stmt) ;! exec_statements f org (S n) l
  end.

Definition stage_postgres (f : Faults) (org : OrgId) : M unit :=
  exec_statements f org 0 (PG_PRE_CASCADE ++ CASCADE_STATEMENTS).

(** ** The saga ([org_deletion.py]) *)

Inductive Reply := RSkipped | RHoldBlocked | RFailed | RSucceeded.

Definition is_job (job : JobId) (org : OrgId) (ij : JobId * Job) : bool :=
  (String.eqb ij.1 job && String.eqb (j_org ij.2) org)%bool.
Definition update_job (p : JobId * Job -> bool) (g : Job -> Job) (d : Db) : Db :=
  with_jobs d ((fun ij => if p ij then (ij.1, g ij.2) else ij) <$> jobs d).

Definition claimable (ij : JobId * Job) : bool :=
  match j_status ij.2 with Pending | Failed => true | _ => false end.

Definition claim_job (job : JobId) (org : OrgId) : M bool :=
  let p ij := (is_job job org ij && claimable ij)%bool in
  let! d := get_db in
  on_db (update_job p (set_status Running)) ;! mret (existsb p (jobs d)).

Definition active_hold (org : OrgId) (d : Db) : bool :=
  existsb (fun h => String.eqb (h_org h) org && negb (h_cleared h))%bool (holds d).
Definition has_active_legal_hold (org : OrgId) : M bool := let! d := get_db in mret (active_hold org d).

Definition finish_job (job : JobId) (org : OrgId) (st : JobStatus) : M unit :=
  on_db (update_job (is_job job org) (set_status st)).

Definition audit_append (job : JobId) (org : OrgId) (a : AuditAction) : M unit :=
  on_db (fun d => with_audit d (audit d ++ [{| a_org := org; a_job := job; a_action := a |}])).

Definition finish_if_hold_blocked (job : JobId) (org : OrgId) : M (option Reply) :=
  let! held := has_active_legal_hold org in
  if negb held then mret None
  else audit_append job org AuditHoldBlocked ;! finish_job job org HoldBlocked ;! mret (Some RHoldBlocked).

(** The advisory lock is held to the end of the transaction: a hold is not set
    between this test and the stage. *)
Definition require_no_hold (org : OrgId) : M unit :=
  let! held := has_active_legal_hold org in if held then mraise LegalHoldActive else mret tt.

Definition write_receipt (job : JobId) (s : Store) (st : ReceiptStatus) : M unit := on_db (upsert_receipt job s st).

Definition run_one_store (job : JobId) (org : OrgId) (s : Store) (runner : M unit) : M unit :=
  let! d := get_db in
  if receipt_verified d job s then mret tt
  else require_no_hold org ;! runner ;! write_receipt job s Verified.

Definition lift {A : Type} (r : result SagaError A) : M A := match r with Ok a => mret a | Raise e => mraise e end.

Definition store_is_deployed (st : Settings) (s : Store) : result SagaError bool :=
  let* deployed := parse_deployed_stores (deployed_raw st) in Ok (bool_decide (s ∈ deployed)).

Definition run_optional_store (st : Settings) (job : JobId) (org : OrgId) (s : Store) (configured : bool) (runner : M unit) : M unit :=
  let! d := get_db in
  if receipt_terminal d job s then mret tt
  else
    let! deployed := lift (store_is_deployed st s) in
    if negb deployed then write_receipt job s NotApplicable
    else if negb configured then mraise (StoreUnreachableError s)
    else require_no_hold org ;! runner ;! write_receipt job s Verified.

Definition run_optional_store_stages (f : Faults) (st : Settings) (job : JobId) (org : OrgId) (uris : list string) : M unit :=
  run_optional_store st job org clickhouse (clickhouse_configured st) (stage_clickhouse f org) ;!
  run_optional_store st job org redis (redis_configured st) (stage_redis f org) ;!
  run_optional_store st job org objectstore (objectstore_configured st) (stage_objectstore f st org uris).

(** The archived URIs of the organization's events: [DISTINCT], not empty. *)
Definition collect_archived_uris (org : OrgId) (d : Db) : list string :=
  remove_dups (List.filter (fun u => negb (String.eqb u ""))
    (omap r_archived_to (List.filter (of_org org) (rows_of (tables d) "session_events")))).

Definition load_archived_uri_snapshot (job : JobId) (d : Db) : option (list string) :=
  find_job job (jobs d) ≫= j_snapshot.

Definition resolve_archived_uris (job : JobId) (org : OrgId) : M (list string) :=
  let! d := get_db in
  match load_archived_uri_snapshot job d with
  | Some uris => mret uris
  | None =>
      let uris := collect_archived_uris org d in
      on_db (update_job (fun ij => String.eqb ij.1 job) (set_snapshot uris)) ;! mret uris
  end.

(** Finalize gate: deployed stores must be verified, the others not applicable. *)
Definition receipts_satisfied (deployed : list Store) (d : Db) (job : JobId) : bool :=
  forallb (fun s => bool_decide (latest_receipt_status d job s
                                 = Some (if bool_decide (s ∈ deployed) then Verified else NotApplicable))) STORES.

Definition all_receipts_satisfied (st : Settings) (job : JobId) : M bool :=
  let! deployed := lift (parse_deployed_stores (deployed_raw st)) in
  let! d := get_db in mret (receipts_satisfied deployed d job).

Definition finalize_job (st : Settings) (job : JobId) (org : OrgId) : M Reply :=
  let! ok := all_receipts_satisfied st job in
  if negb ok then finish_job job org Failed ;! mret RFailed
  else
    let! d := get_db in
    audit_append job org (AuditCertificate (receipt_digests d job)) ;!
    finish_job job org Succeeded ;! mret RSucceeded.

(** A fresh transaction; what it could not record is lost. *)
Definition record_job_failed {A : Type} (f : Faults) (job : JobId) (org : OrgId) (e : SagaError) : M A :=
  transaction (f_record f)
    (match e with StoreUnreachableError s => write_receipt job s ReceiptFailed | _ => mret tt end ;!
     finish_job job org Failed) ;!
  mraise e.

(** [_claim_and_purge_postgres]: the early reply, or the URIs to delete. *)
Definition claim_and_purge_postgres (f : Faults) (job : JobId) (org : OrgId) : M (Reply + list string) :=
  mcatch
    (transaction (f_commit f)
       (let! claimed := claim_job job org in
        if negb claimed then mret (inl RSkipped)
        else
          let! blocked := finish_if_hold_blocked job org in
          match blocked with
          | Some r => mret (inl r)
          | None =>
              let! uris := resolve_archived_uris job org in
              run_one_store job org postgres (stage_postgres f org) ;!
              mret (inr uris)
          end))
    (record_job_failed f job org).

Definition publish_model_policy_invalidate (f : Faults) (st : Settings) : M unit :=
  if String.eqb (redis_url st) "" then mret tt
  else if f_publish f then mraise PublishFailed else mret tt.

Definition run_post_postgres (f : Faults) (st : Settings) (job : JobId) (org : OrgId) (uris : list string) : M Reply :=
  mcatch (publish_model_policy_invalidate f st) (record_job_failed f job org) ;!
  mcatch
    (transaction (f_commit f)
       (run_optional_store_stages f st job org uris ;! finalize_job st job org))
    (record_job_failed f job org).

(** [_run_delete] with nothing else running; the two phases have their own faults. *)
Definition run_delete (f1 f2 : Faults) (st : Settings) (job : JobId) (org : OrgId) : M Reply :=
  let! early := claim_and_purge_postgres f1 job org in
  match early with inl r => mret r | inr uris => run_post_postgres f2 st job org uris end.

(** ** The deletion request ([services/api/app/services/organizations.py]) *)

Inductive ApiCode := LEGAL_HOLD_ACTIVE | VALIDATION_ERROR | NOT_FOUND | SERVICE_DEGRADED.

(** [get_organization] reads rows with [deleted_at IS NULL] only. *)
Definition get_organization (org : OrgId) (d : Db) : result ApiCode OrgRow :=
  match orgs d !! org with
  | Some o => if o_deleted o then Raise NOT_FOUND else Ok o
  | None => Raise NOT_FOUND
  end.

(** The job created last. *)
Definition latest_deletion_job_status (org : OrgId) (d : Db) : option JobStatus :=
  last ((fun ij => j_status ij.2) <$> List.filter (fun ij => String.eqb (j_org ij.2) org) (jobs d)).

Definition assert_deletion_allowed (org : OrgId) (o : OrgRow) (d : Db) : result ApiCode unit :=
  if active_hold org d then Raise LEGAL_HOLD_ACTIVE
  else if negb (o_cancelled o) then Ok tt
  else if bool_decide (latest_deletion_job_status org d = Some Failed) then Ok tt
  else Raise VALIDATION_ERROR.

Definition create_deletion_job_row (job : JobId) (org : OrgId) (st : JobStatus) (d : Db) : Db :=
  with_jobs d (jobs d ++ [(job, {| j_org := org; j_status := st; j_snapshot := None |})]).

Definition cancel_organization (org : OrgId) (d : Db) : Db :=
  with_orgs d (alter (fun o => if o_deleted o then o else {| o_cancelled := true; o_deleted := false |}) org (orgs d)).

(** [suspend_organization] up to its commit, which the publication follows: any
    row that is not deleted becomes suspended, a cancelled one too. *)
Definition suspend_organization (org : OrgId) (d : Db) : result ApiCode Db :=
  match orgs d !! org with
  | Some o =>
      if o_deleted o then Raise NOT_FOUND
      else Ok (with_orgs d (<[org := {| o_cancelled := false; o_deleted := false |}]> (orgs d)))
  | None => Raise NOT_FOUND
  end.

(** [enqueue_org_deletion] up to the enqueue: the checks of the request. *)
Definition deletion_request_allowed (org : OrgId) (d : Db) : result ApiCode unit :=
  let* o := get_organization org d in assert_deletion_allowed org o d.

(** Its last step when the enqueue succeeded: the job row and the cancelled
    organization become visible together. *)
Definition commit_deletion_request (job : JobId) (org : OrgId) (d : Db) : Db :=
  cancel_organization org (create_deletion_job_row job org Pending d).

(** [_dispatch_deletion_enqueue] when the enqueue failed: the job row is
    committed as failed, the organization is left as it was. *)
Definition commit_failed_enqueue (job : JobId) (org : OrgId) (d : Db) : Db := create_deletion_job_row job org Failed d.

(** ** The system

    Requests, suspensions, workers and legal holds interleave; a request and a worker run
    are two steps each, since their two parts commit separately. *)

Record Sys := {
  world : World;
  (** tasks of the broker *)
  queue : list (JobId * OrgId);
  (** requests that have enqueued their task and not committed yet *)
  requests : list (JobId * OrgId);
  (** workers between the two transactions of a run *)
  running : list (JobId * OrgId * list string);
}.

Definition map_db (g : Db -> Db) (w : World) : World := {| db := g (db w); stores := stores w |}.

(** Organization ids are UUIDs: the code relies on their first character only
    where a key path is built. *)
Definition plain_org (org : OrgId) : bool :=
  match org with String c _ => negb (Ascii.eqb c "/") | EmptyString => false end.

Inductive step (st : Settings) : Sys -> Sys -> Prop :=
| step_request s job org :
    plain_org org = true ->
    deletion_request_allowed org (db (world s)) = Ok tt ->
    step st s {| world := world s; queue := (job, org) :: queue s; requests := (job, org) :: requests s; running := running s |}
| step_request_enqueue_fails s job org (reached_broker : bool) :
    plain_org org = true ->
    deletion_request_allowed org (db (world s)) = Ok tt ->
    find_job job (jobs (db (world s))) = None ->
    step st s {| world := map_db (commit_failed_enqueue job org) (world s);
                 queue := if reached_broker then (job, org) :: queue s else queue s;
                 requests := requests s; running := running s |}
| step_request_commit s job org r1 r2 :
    requests s = r1 ++ (job, org) :: r2 ->
    plain_org org = true ->
    find_job job (jobs (db (world s))) = None ->
    step st s {| world := map_db (commit_deletion_request job org) (world s);
                 queue := queue s; requests := r1 ++ r2; running := running s |}
| step_suspend s org d :
    suspend_organization org (db (world s)) = Ok d ->
    step st s {| world := {| db := d; stores := stores (world s) |};
                 queue := queue s; requests := requests s; running := running s |}
| step_request_abandon s r r1 r2 :
    requests s = r1 ++ r :: r2 ->
    step st s {| world := world s; queue := queue s; requests := r1 ++ r2; running := running s |}
| step_claim s job org f q1 q2 (redelivered : bool) out w :
    queue s = q1 ++ (job, org) :: q2 ->
    claim_and_purge_postgres f job org (world s) = (out, w) ->
    step st s {| world := w; queue := if redelivered then queue s else q1 ++ q2; requests := requests s;
                 running := match out with Ok (inr uris) => (job, org, uris) :: running s | _ => running s end |}
| step_finish s job org uris f r1 r2 out w :
    running s = r1 ++ (job, org, uris) :: r2 ->
    run_post_postgres f st job org uris (world s) = (out, w) ->
    step st s {| world := w; queue := queue s; requests := requests s; running := r1 ++ r2 |}
| step_worker_lost s job org uris r1 r2 :
    running s = r1 ++ (job, org, uris) :: r2 ->
    step st s {| world := world s; queue := (job, org) :: queue s; requests := requests s; running := r1 ++ r2 |}
| step_set_hold s org :
    step st s {| world := map_db (fun d => with_holds d ({| h_org := org; h_cleared := false |} :: holds d)) (world s);
                 queue := queue s; requests := requests s; running := running s |}
| step_clear_hold s org :
    step st s {| world := map_db (fun d => with_holds d ((fun h => if String.eqb (h_org h) org
                                                                   then {| h_org := org; h_cleared := true |} else h) <$> holds d))
                                 (world s);
                 queue := queue s; requests := requests s; running := running s |}.

Definition steps (st : Settings) : Sys -> Sys -> Prop := rtc (step st).

(** ** Erasure *)

(** The tables the purge clears of the organization's rows. *)
Definition purged_tables : list string :=
  omap (fun stmt => match stmt with DeleteOrgRows t => Some t | PurgeMemories => Some "memories"%string | _ => None end)
       (PG_PRE_CASCADE ++ CASCADE_STATEMENTS).

Definition postgres_erased (org : OrgId) (d : Db) : Prop :=
  (forall t r, t ∈ purged_tables -> r ∈ rows_of (tables d) t -> r_org r <> org) /\
  (forall o, orgs d !! org = Some o -> o_cancelled o = true /\ o_deleted o = true).

Definition clickhouse_erased (org : OrgId) (s : Stores) : Prop :=
  forall t rows, t ∈ CH_TABLES -> ch_rows s !! t = Some rows -> org ∉ rows.

Definition redis_erased (org : OrgId) (s : Stores) : Prop :=
  forall p k, p ∈ redis_prefixes org -> k ∈ redis_keys s -> String.prefix p k = false.

Definition objectstore_erased (st : Settings) (org : OrgId) (uris : list string) (s : Stores) : Prop :=
  (forall k, String.prefix (org +:+ "/") k = true -> (s3_bucket st, k) ∉ objects s) /\
  (forall u b k, u ∈ uris -> parse_s3_uri u = Ok (b, k) -> b = s3_bucket st /\ (b, lstrip_slash k) ∉ objects s).

(** What a verified receipt of the job certifies. *)
Definition erased (st : Settings) (j : Job) (s : Store) (w : World) : Prop :=
  match s with
  | postgres => postgres_erased (j_org j) (db w)
  | clickhouse => clickhouse_erased (j_org j) (stores w)
  | redis => redis_erased (j_org j) (stores w)
  | objectstore => exists uris, j_snapshot j = Some uris /\ objectstore_erased st (j_org j) uris (stores w)
  end.
