(* ===== verification/OrgErasure.v ===== *)
(** * What the deletion saga guarantees

    Theorems about [OrgDeletion]: what a verified receipt and a succeeded job
    certify in every interleaving of requests, suspensions, workers and holds,
    what a legal hold protects, what a run leaves alone, when a run succeeds and
    which unfinished deletions can never be finished. *)

From S2P Require Import Prelude OrgDeletion.

(** ** Reasoning about computations *)

Create HintDb keeps discriminated.

(** [keeps R m]: whatever [m] does, also when it raises, is an [R] step. *)
Definition keeps (R : World -> World -> Prop) {A : Type} (m : M A) : Prop := forall w, R w (m w).2.

(** Relations a roll back of Postgres respects. *)
Class Rolls (R : World -> World -> Prop) : Prop := {
  rolls_pre :: PreOrder R;
  rolls_back : forall w w', R w w' -> R w {| db := db w; stores := stores w' |};
}.

Section Keeps.
Context (R : World -> World -> Prop) `{!Rolls R}.

Lemma keeps_ret {A} (a : A) : keeps R (mret a).
Proof. intros w. done. Qed.
Lemma keeps_raise {A} e : keeps R (@mraise A e).
Proof. intros w. done. Qed.
Lemma keeps_get_db : keeps R get_db.
Proof. intros w. done. Qed.
Lemma keeps_get_stores : keeps R get_stores.
Proof. intros w. done. Qed.
Lemma keeps_lift {A} (r : result SagaError A) : keeps R (lift r).
Proof. intros w. destruct r; done. Qed.

Lemma keeps_bind {A B} (m : M A) (k : A -> M B) : keeps R m -> (forall a, keeps R (k a)) -> keeps R (mbind m k).
Proof.
  intros Hm Hk w. unfold mbind. specialize (Hm w). destruct (m w) as [[a|e] w']; [|done].
  transitivity w'; [done|]. apply Hk.
Qed.

Lemma keeps_for {A} (f : A -> M unit) l : (forall x, x ∈ l -> keeps R (f x)) -> keeps R (mfor f l).
Proof.
  induction l as [|x l IH]; intros H; [apply keeps_ret|].
  apply keeps_bind; [apply H; left|]. intros _. apply IH. intros y Hy. apply H. by right.
Qed.

Lemma keeps_transaction {A} b (m : M A) : keeps R m -> keeps R (transaction b m).
Proof.
  intros Hm w. unfold transaction. specialize (Hm w). destruct (m w) as [[a|e] w']; [destruct b|]; cbn [snd] in *; try done.
  all: by apply rolls_back.
Qed.

Lemma keeps_catch {A} (m : M A) h : keeps R m -> (forall e, keeps R (h e)) -> keeps R (mcatch m h).
Proof.
  intros Hm Hh w. unfold mcatch. specialize (Hm w). destruct (m w) as [[a|e] w']; [done|].
  transitivity w'; [done|]. apply Hh.
Qed.

Lemma keeps_if {A} (b : bool) (m1 m2 : M A) : keeps R m1 -> keeps R m2 -> keeps R (if b then m1 else m2).
Proof. by destruct b. Qed.
End Keeps.

#[export] Hint Resolve keeps_ret keeps_raise keeps_get_db keeps_get_stores keeps_lift keeps_bind keeps_for keeps_transaction
  keeps_catch keeps_if : keeps.

(** Walk a computation and keep the primitive updates as goals. *)
Ltac keeps_step :=
  match goal with
  | |- keeps _ (mret _) => apply keeps_ret; exact _
  | |- keeps _ (mraise _) => apply keeps_raise; exact _
  | |- keeps _ get_db => apply keeps_get_db; exact _
  | |- keeps _ get_stores => apply keeps_get_stores; exact _
  | |- keeps _ (lift _) => apply keeps_lift; exact _
  | |- keeps _ (mbind _ _) => apply keeps_bind; [exact _| |intros ?]
  | |- keeps _ (mfor _ _) => apply keeps_for; [exact _|intros ? ?]
  | |- keeps _ (transaction _ _) => apply keeps_transaction; [exact _|]
  | |- keeps _ (mcatch _ _) => apply keeps_catch; [exact _| |intros ?]
  | |- keeps _ (if _ then _ else _) => apply keeps_if
  | |- keeps _ (match ?x with _ => _ end) => destruct x
  end.
Ltac keeps_walk := repeat keeps_step.

(** [hoare P m Q]: run from a world with [P], [m] returns in a world with [Q]
    or raises. *)
Definition hoare {A : Type} (P : World -> Prop) (m : M A) (Q : A -> World -> Prop) : Prop :=
  forall w a w', P w -> m w = (Ok a, w') -> Q a w'.

Lemma mbind_ok {A B} (m : M A) (k : A -> M B) w b w' :
  mbind m k w = (Ok b, w') <-> exists a w1, m w = (Ok a, w1) /\ k a w1 = (Ok b, w').
Proof.
  unfold mbind. split.
  - destruct (m w) as [[a|e] w1]; [eauto|done].
  - intros (a & w1 & -> & H). done.
Qed.

Lemma mbind_raise {A B} (m : M A) (k : A -> M B) w e w' :
  mbind m k w = (Raise e, w') <-> m w = (Raise e, w') \/ exists a w1, m w = (Ok a, w1) /\ k a w1 = (Raise e, w').
Proof.
  unfold mbind. split.
  - destruct (m w) as [[a|e'] w1]; [eauto|]. intros [= -> ->]. by left.
  - intros [-> |(a & w1 & -> & H)]; done.
Qed.

Lemma hoare_bind {A B} P (m : M A) (k : A -> M B) Q R :
  hoare P m Q -> (forall a, hoare (Q a) (k a) R) -> hoare P (mbind m k) R.
Proof. intros Hm Hk w b w' HP (a & w1 & H1 & H2)%mbind_ok. eapply Hk; [eapply Hm|]; done. Qed.

Lemma hoare_for {A} (I : list A -> World -> Prop) (f : A -> M unit) l :
  (forall done x, hoare (I done) (f x) (fun _ => I (done ++ [x]))) ->
  hoare (I []) (mfor f l) (fun _ => I l).
Proof.
  intros H. cut (forall pre, hoare (I pre) (mfor f l) (fun _ => I (pre ++ l))); [intros H'; apply (H' [])|].
  induction l as [|x l IH]; intros pre; cbn.
  - intros w [] w1 HI [= <-]. by rewrite app_nil_r.
  - eapply hoare_bind; [apply H|]. intros ?. specialize (IH (pre ++ [x])). by rewrite <- app_assoc in IH.
Qed.

Ltac inv_m :=
  repeat match goal with
  | H : mbind _ _ _ = (Ok _, _) |- _ => apply mbind_ok in H; destruct H as (? & ? & ? & ?)
  | H : get_stores _ = (Ok _, _) |- _ => unfold get_stores in H; simplify_eq
  | H : get_db _ = (Ok _, _) |- _ => unfold get_db in H; simplify_eq
  | H : on_stores _ _ = (Ok _, _) |- _ => unfold on_stores in H; simplify_eq
  | H : on_db _ _ = (Ok _, _) |- _ => unfold on_db in H; simplify_eq
  | H : mret _ _ = (Ok _, _) |- _ => unfold mret in H; simplify_eq
  | H : mraise _ _ = (Ok _, _) |- _ => discriminate H
  end.

(** ** The other stores only lose data *)

Record stores_shrink (w w' : World) : Prop := {
  ss_ch : forall org t rows', ch_rows (stores w') !! t = Some rows' -> org ∈ rows' ->
            exists rows, ch_rows (stores w) !! t = Some rows /\ org ∈ rows;
  ss_redis : redis_keys (stores w') ⊆ redis_keys (stores w);
  ss_objects : objects (stores w') ⊆ objects (stores w);
}.

#[export] Instance stores_shrink_rolls : Rolls stores_shrink.
Proof.
  split; [split|].
  - intros w. split; [eauto|done|done].
  - intros w1 w2 w3 [a1 b1 c1] [a2 b2 c2]. split.
    + intros org t rows' H1 H2. destruct (a2 _ _ _ H1 H2) as (rows2 & H3 & H4). by apply (a1 _ _ _ H3 H4).
    + by etrans.
    + by etrans.
  - intros w w' [a b c]. by split.
Qed.

Lemma on_db_shrink g : keeps stores_shrink (on_db g).
Proof. intros w. split; cbn; eauto. Qed.

Lemma ch_mutate_shrink f org t : keeps stores_shrink (ch_mutate_table f org t).
Proof.
  intros w. unfold ch_mutate_table, mbind, get_stores. destruct (ch_rows (stores w) !! t) as [rows|] eqn:E; [|done].
  destruct (f_ch_mutate f t); [done|]. destruct (f_ch_late f t); [done|]. cbn. split; cbn; [|done|done].
  intros o t' rows'. destruct (decide (t = t')) as [<- |Hne].
  - rewrite lookup_insert_eq. intros [= <-] (Hi & _)%list_elem_of_In%filter_In. exists rows. split; [done|]. by apply list_elem_of_In.
  - rewrite lookup_insert_ne by done. eauto.
Qed.

Lemma scan_delete_shrink f p : keeps stores_shrink (scan_delete f p).
Proof.
  intros w. unfold scan_delete, mbind, get_stores. destruct (f_redis f p); cbn; split; cbn; eauto; set_solver.
Qed.

Lemma delete_key_shrink f st k : keeps stores_shrink (delete_key f st k).
Proof. intros w. unfold delete_key. destruct (f_delete f k); [done|]. cbn. split; cbn; eauto; set_solver. Qed.

#[export] Hint Resolve on_db_shrink ch_mutate_shrink scan_delete_shrink delete_key_shrink : keeps.

Lemma stage_clickhouse_shrink f org : keeps stores_shrink (stage_clickhouse f org).
Proof. unfold stage_clickhouse, ch_wait_absent, ch_count_org. keeps_walk; auto with keeps. Qed.
Lemma stage_redis_shrink f org : keeps stores_shrink (stage_redis f org).
Proof. unfold stage_redis. keeps_walk; auto with keeps. Qed.
Lemma delete_uri_shrink f st u : keeps stores_shrink (delete_uri f st u).
Proof. unfold delete_uri, require_endpoint. keeps_walk; auto with keeps. Qed.
Lemma stage_objectstore_shrink f st org uris : keeps stores_shrink (stage_objectstore f st org uris).
Proof.
  unfold stage_objectstore, delete_org_prefix, require_endpoint, list_keys. keeps_walk; auto using delete_uri_shrink with keeps.
Qed.

(** ** What a completed stage has erased *)

Lemma filter_length_0 {A} (p : A -> bool) l : length (List.filter p l) = 0%nat -> forall x, x ∈ l -> p x = false.
Proof.
  intros H x Hx%list_elem_of_In. destruct (p x) eqn:E; [|done].
  assert (In x (List.filter p l)) as Hi by (by apply filter_In). by destruct (List.filter p l).
Qed.

Lemma ch_wait_absent_spec f org t w u w' :
  ch_wait_absent f org t w = (Ok u, w') -> w' = w /\ forall rows, ch_rows (stores w) !! t = Some rows -> org ∉ rows.
Proof.
  unfold ch_wait_absent, ch_count_org. intros H. inv_m.
  destruct (ch_rows (stores _) !! t) as [rows|] eqn:E.
  - destruct (f_ch_count f t); [done|]. inv_m.
    destruct (length _ =? 0)%nat eqn:El; [|done]. inv_m. apply Nat.eqb_eq in El.
    split; [done|]. intros rows' [= <-] Hin. pose proof (filter_length_0 _ _ El org Hin) as Hf. cbn in Hf. by rewrite String.eqb_refl in Hf.
  - inv_m. cbn in *. inv_m. done.
Qed.

Lemma stage_clickhouse_erases f org w u w' : stage_clickhouse f org w = (Ok u, w') -> clickhouse_erased org (stores w').
Proof.
  intros (? & w1 & _ & H)%mbind_ok. revert H. unfold clickhouse_erased.
  pose (I := fun (l : list string) (x : World) => forall t rows, t ∈ l -> ch_rows (stores x) !! t = Some rows -> org ∉ rows).
  apply (hoare_for I); [|by intros t rows ?%elem_of_nil].
  intros l t0 w2 [] w3 HI [-> Hx]%ch_wait_absent_spec. intros t rows [Ht|Ht%list_elem_of_singleton]%elem_of_app; [by apply HI|].
  subst. apply Hx.
Qed.

Lemma stage_redis_erases f org w u w' : stage_redis f org w = (Ok u, w') -> redis_erased org (stores w').
Proof.
  pose (I := fun (l : list string) (x : World) => forall p k, p ∈ l -> k ∈ redis_keys (stores x) -> String.prefix p k = false).
  apply (hoare_for I); [|by intros p k ?%elem_of_nil].
  intros l x w2 [] w3 HI H. unfold scan_delete in H. inv_m. destruct (f_redis f x); inv_m.
  intros p k Hp Hk. cbn in Hk. apply elem_of_filter in Hk as [Hk1 Hk2].
  apply elem_of_app in Hp as [Hp| ->%list_elem_of_singleton]; [by apply HI|done].
Qed.

Lemma delete_key_ok f st k w u w' :
  delete_key f st k w = (Ok u, w') -> objects (stores w') = objects (stores w) ∖ {[ (s3_bucket st, lstrip_slash k) ]}.
Proof. unfold delete_key. destruct (f_delete f k); [done|]. intros H. by inv_m. Qed.

Lemma delete_uri_ok f st u w r w' :
  delete_uri f st u w = (Ok r, w') ->
  exists k, parse_s3_uri u = Ok (s3_bucket st, k) /\            objects (stores w') = objects (stores w) ∖ {[ (s3_bucket st, lstrip_slash k) ]}.
Proof.
  unfold delete_uri, require_endpoint. destruct (parse_s3_uri u) as [[b k]|e]; [|done]. intros H. inv_m.
  destruct (f_endpoint f); inv_m. case_if; [|done]. bools. subst. exists k. split; [done|]. by apply delete_key_ok in H0.
Qed.

Lemma lstrip_slash_plain org k : plain_org org = true -> String.prefix org k = true -> lstrip_slash k = k.
Proof.
  destruct org as [|c org]; [done|]. destruct k as [|c' k]; [done|]. cbn. intros Hc.
  destruct (ascii_dec c c') as [<-|]; [|done]. intros _. apply negb_true_iff in Hc. by rewrite Hc.
Qed.

Lemma prefix_app p q k : String.prefix (p +:+ q) k = true -> String.prefix p k = true.
Proof.
  revert k. induction p as [|c p IH]; intros k; [by destruct k|]. change (String c p +:+ q) with (String c (p +:+ q)).
  destruct k as [|c' k]; [done|]. cbn. destruct (ascii_dec c c'); [apply IH|done].
Qed.

Lemma delete_uris_ok f st uris w r w' :
  mfor (delete_uri f st) uris w = (Ok r, w') ->
  forall u b k, u ∈ uris -> parse_s3_uri u = Ok (b, k) -> b = s3_bucket st /\ (b, lstrip_slash k) ∉ objects (stores w').
Proof.
  pose (I := fun (l : list string) (x : World) =>
    forall u b k, u ∈ l -> parse_s3_uri u = Ok (b, k) -> b = s3_bucket st /\ (b, lstrip_slash k) ∉ objects (stores x)).
  apply (hoare_for I); [|by intros u b k ?%elem_of_nil].
  intros l x w2 [] w3 HI (k0 & Hp & Ho)%delete_uri_ok u b k Hu Hk. rewrite Ho.
  apply elem_of_app in Hu as [Hu| ->%list_elem_of_singleton].
  - destruct (HI u b k Hu Hk). set_solver.
  - rewrite Hp in Hk. injection Hk as <- <-. set_solver.
Qed.

Lemma delete_keys_ok f st keys w r w' :
  mfor (delete_key f st) keys w = (Ok r, w') -> forall k, k ∈ keys -> (s3_bucket st, lstrip_slash k) ∉ objects (stores w').
Proof.
  pose (I := fun (l : list string) (x : World) => forall k, k ∈ l -> (s3_bucket st, lstrip_slash k) ∉ objects (stores x)).
  apply (hoare_for I); [|by intros k ?%elem_of_nil].
  intros l x w2 [] w3 HI Ho%delete_key_ok k Hk. rewrite Ho.
  apply elem_of_app in Hk as [Hk| ->%list_elem_of_singleton]; [specialize (HI k Hk)|]; set_solver.
Qed.

Lemma delete_keys_subset f st keys w r w' :
  mfor (delete_key f st) keys w = (Ok r, w') -> objects (stores w') ⊆ objects (stores w).
Proof.
  intros H. pose proof (keeps_for stores_shrink (delete_key f st) keys (fun k _ => delete_key_shrink f st k) w) as Hs.
  rewrite H in Hs. exact (ss_objects _ _ Hs).
Qed.

Lemma delete_org_prefix_erases f st org w r w' :
  plain_org org = true -> delete_org_prefix f st org w = (Ok r, w') ->
  forall k, String.prefix (org +:+ "/") k = true -> (s3_bucket st, k) ∉ objects (stores w').
Proof.
  intros Horg H k Hk. unfold delete_org_prefix, require_endpoint, list_keys in H. inv_m. destruct (f_endpoint f); inv_m.
  destruct (f_list f); inv_m. intros Hin.
  pose proof (delete_keys_subset _ _ _ _ _ _ H1) as Hs. eapply (delete_keys_ok _ _ _ _ _ _ H1 k).
  - apply list_elem_of_fmap. exists (s3_bucket st, k). split; [done|]. apply list_elem_of_In, filter_In. cbn. split.
    + apply list_elem_of_In, elem_of_elements. set_solver.
    + by rewrite String.eqb_refl, Hk.
  - by rewrite (lstrip_slash_plain org) by eauto using prefix_app.
Qed.

Lemma stage_objectstore_erases f st org uris w r w' :
  plain_org org = true -> stage_objectstore f st org uris w = (Ok r, w') -> objectstore_erased st org uris (stores w').
Proof.
  intros Horg ([] & w1 & H1 & H2)%mbind_ok. split; [by eapply delete_org_prefix_erases|].
  intros u b k Hu Hk. destruct (delete_uris_ok _ _ _ _ _ _ H1 u b k Hu Hk) as [-> Hn]. split; [done|].
  assert (keeps stores_shrink (delete_org_prefix f st org)) as Hs.
  { unfold delete_org_prefix, require_endpoint, list_keys. keeps_walk; auto with keeps. }
  specialize (Hs w1). rewrite H2 in Hs. pose proof (ss_objects _ _ Hs) as Hsub. cbn in Hsub. set_solver.
Qed.

(** ** The Postgres purge *)

(** Rows of a table come from rows of the same organization before. *)
Definition rows_from (d d' : Db) : Prop :=
  forall t r', r' ∈ rows_of (tables d') t -> exists r, r ∈ rows_of (tables d) t /\ r_org r = r_org r'.

#[export] Instance rows_from_pre : PreOrder rows_from.
Proof.
  split; [intros d t r; eauto|]. intros d1 d2 d3 H1 H2 t r3 (r2 & Hr2 & <-)%H2. apply H1 in Hr2 as (r1 & Hr1 & <-). eauto.
Qed.

Lemma rows_of_insert t t' rows m :
  rows_of (<[t := rows]> m) t' = if bool_decide (t = t') then rows else rows_of m t'.
Proof.
  unfold rows_of. case_bool_decide as E; [subst; by rewrite lookup_insert_eq|by rewrite lookup_insert_ne].
Qed.

Lemma elem_of_without_org org r rows : r ∈ without_org org rows <-> r ∈ rows /\ r_org r <> org.
Proof.
  unfold without_org, of_org. rewrite !list_elem_of_In, filter_In, negb_true_iff, String.eqb_neq. done.
Qed.

Lemma exec_statement_rows org stmt d : rows_from d (exec_statement org stmt d).
Proof.
  intros t r'. destruct stmt as [t'| | | |]; cbn; try (eauto; fail).
  all: rewrite rows_of_insert; case_bool_decide as E; [subst|eauto].
  - intros [H _]%elem_of_without_org. eauto.
  - intros [H _]%elem_of_without_org. eauto.
  - intros (r & -> & Hr)%list_elem_of_fmap. exists r. split; [done|]. by destruct (of_org org r).
Qed.

Definition target (stmt : Statement) : option string :=
  match stmt with DeleteOrgRows t => Some t | PurgeMemories => Some "memories"%string | _ => None end.

Lemma exec_statement_clears org stmt t d r :
  target stmt = Some t -> r ∈ rows_of (tables (exec_statement org stmt d)) t -> r_org r <> org.
Proof.
  destruct stmt; intros [= <-]; cbn; rewrite rows_of_insert, bool_decide_eq_true_2 by done; by intros [_ H]%elem_of_without_org.
Qed.

(** A deleted organization row stays deleted, and cancelled if it was. *)
Definition orgs_from (d d' : Db) : Prop :=
  forall org o', orgs d' !! org = Some o' -> exists o, orgs d !! org = Some o /\
    (o_deleted o = true -> o_deleted o' = true /\ (o_cancelled o = true -> o_cancelled o' = true)).

#[export] Instance orgs_from_pre : PreOrder orgs_from.
Proof.
  split; [intros d org o; eauto|]. intros d1 d2 d3 H1 H2 org o3 (o2 & Ho2 & Hd)%H2.
  apply H1 in Ho2 as (o1 & Ho1 & Hd1). exists o1. naive_solver.
Qed.

Lemma exec_statement_orgs org stmt d : orgs_from d (exec_statement org stmt d).
Proof.
  intros org' o'. destruct stmt; cbn; try (eauto; fail). destruct (decide (org = org')) as [<- |Hne].
  - rewrite lookup_alter_eq. intros (o & Ho & ->)%fmap_Some. exists o. auto.
  - rewrite lookup_alter_ne by done. eauto.
Qed.

Lemma postgres_erased_from org d d' : rows_from d d' -> orgs_from d d' -> postgres_erased org d -> postgres_erased org d'.
Proof.
  intros Hr Ho [E1 E2]. split.
  - intros t r Ht (r0 & Hr0 & <-)%Hr. by apply (E1 t).
  - intros o (o0 & Ho0 & Hd)%Ho. apply E2 in Ho0 as [??]. naive_solver.
Qed.

(** What a statement leaves to other parts of the database. *)
Lemma exec_statement_frame org stmt d :
  jobs (exec_statement org stmt d) = jobs d /\ receipts (exec_statement org stmt d) = receipts d.
Proof. by destruct stmt. Qed.

Record purges (d d' : Db) : Prop := {
  pu_jobs : jobs d' = jobs d;
  pu_receipts : receipts d' = receipts d;
  pu_rows : rows_from d d';
  pu_orgs : orgs_from d d';
}.

#[export] Instance purges_pre : PreOrder purges.
Proof.
  split; [intros d; by split|]. intros d1 d2 d3 [] []. split; (etrans; eassumption).
Qed.

Lemma exec_statement_purges org stmt d : purges d (exec_statement org stmt d).
Proof.
  destruct (exec_statement_frame org stmt d). split; auto using exec_statement_rows, exec_statement_orgs.
Qed.

Lemma exec_statements_ok f org n l w u w' :
  exec_statements f org n l w = (Ok u, w') ->
  db w' = foldl (fun d stmt => exec_statement org stmt d) (db w) l /\ stores w' = stores w.
Proof.
  revert n w. induction l as [|stmt l IH]; intros n w H; cbn in H; [by inv_m|].
  destruct (f_statement f n); [done|]. inv_m. by apply IH in H0.
Qed.

Lemma foldl_purges org l d : purges d (foldl (fun d stmt => exec_statement org stmt d) d l).
Proof.
  revert d. induction l as [|stmt l IH]; intros d; cbn; [done|]. etrans; [apply exec_statement_purges|apply IH].
Qed.

Lemma foldl_clears org l d t r :
  t ∈ omap target l -> r ∈ rows_of (tables (foldl (fun d stmt => exec_statement org stmt d) d l)) t -> r_org r <> org.
Proof.
  revert d. induction l as [|stmt l IH]; intros d; cbn; [by intros ?%elem_of_nil|].
  destruct (target stmt) as [t'|] eqn:E; [|apply IH]. intros [-> |Ht]%elem_of_cons; [|by apply IH].
  intros (r0 & Hr0 & <-)%(pu_rows _ _ (foldl_purges org l _)). by eapply exec_statement_clears.
Qed.

Lemma foldl_cancels org l d o :
  CancelAndDeleteOrg ∈ l -> orgs (foldl (fun d stmt => exec_statement org stmt d) d l) !! org = Some o ->
  o_cancelled o = true /\ o_deleted o = true.
Proof.
  revert d. induction l as [|stmt l IH]; intros d; cbn; [by intros ?%elem_of_nil|].
  intros [<- |Hl]%elem_of_cons; [|by apply IH].
  intros (o0 & Ho & Hd)%(pu_orgs _ _ (foldl_purges org l _)). cbn in Ho. rewrite lookup_alter_eq in Ho.
  apply fmap_Some in Ho as (o1 & _ & ->). naive_solver.
Qed.

Lemma stage_postgres_ok f org w u w' :
  stage_postgres f org w = (Ok u, w') ->
  purges (db w) (db w') /\ stores w' = stores w /\ postgres_erased org (db w').
Proof.
  intros [-> ->]%exec_statements_ok. split; [apply foldl_purges|]. split; [done|]. split.
  - intros t r. apply foldl_clears.
  - intros o. apply foldl_cancels. rewrite elem_of_app. right. unfold CASCADE_STATEMENTS.
    rewrite !elem_of_app, list_elem_of_singleton. auto.
Qed.

(** ** Jobs *)

Lemma find_job_update id p g d :
  find_job id (jobs (update_job p g d)) = (fun j => if p (id, j) then g j else j) <$> find_job id (jobs d).
Proof.
  unfold update_job. cbn. induction (jobs d) as [|[i j] l IH]; cbn; [done|].
  destruct (i =? id)%string eqn:E; bools; subst.
  - destruct (p (id, j)) eqn:Ep; rewrite String.eqb_refl; simpl; by rewrite Ep.
  - destruct (p (i, j)); cbn; apply String.eqb_neq in E; by rewrite E.
Qed.

Lemma update_job_ids p g d : (jobs (update_job p g d)).*1 = (jobs d).*1.
Proof.
  unfold update_job. cbn. rewrite <- list_fmap_compose. apply list_fmap_ext. intros _ [i j] _. cbn. by destruct (p (i, j)).
Qed.

Lemma find_job_elem id j l : NoDup l.*1 -> (id, j) ∈ l -> find_job id l = Some j.
Proof.
  induction l as [|[i j'] l IH]; cbn; [by intros _ ?%elem_of_nil|]. intros [Hni Hnd]%NoDup_cons [[= <- <-]|Hl]%elem_of_cons.
  - by rewrite String.eqb_refl.
  - destruct (i =? id)%string eqn:E; [|by apply IH]. bools. subst. destruct Hni. apply list_elem_of_fmap. by exists (id, j).
Qed.

Lemma find_job_none_ids id l : find_job id l = None -> id ∉ l.*1.
Proof.
  induction l as [|[i j] l IH]; cbn; [by intros _ ?%elem_of_nil|]. destruct (i =? id)%string eqn:E; [done|]. bools.
  intros H [<- |Hl]%elem_of_cons; [done|]. by apply IH.
Qed.

Lemma find_job_snoc id l i j :
  find_job id (l ++ [(i, j)]) = match find_job id l with Some x => Some x | None => if (i =? id)%string then Some j else None end.
Proof. induction l as [|[i' j'] l IH]; cbn; [done|]. by destruct (i' =? id)%string. Qed.

(** A job keeps its organization and its snapshot once it has one. *)
Definition job_from (j j' : Job) : Prop :=
  j_org j' = j_org j /\ forall u, j_snapshot j = Some u -> j_snapshot j' = Some u.

#[export] Instance job_from_pre : PreOrder job_from.
Proof. split; [by intros j|]. intros j1 j2 j3 [H1 H2] [H3 H4]. split; [congruence|auto]. Qed.

Definition jobs_evolve (w w' : World) : Prop :=
  forall id j, find_job id (jobs (db w)) = Some j -> exists j', find_job id (jobs (db w')) = Some j' /\ job_from j j'.

#[export] Instance jobs_evolve_rolls : Rolls jobs_evolve.
Proof.
  split; [split|].
  - intros w id j H. by exists j.
  - intros w1 w2 w3 H1 H2 id j (j2 & Hj2 & F)%H1. apply H2 in Hj2 as (j3 & Hj3 & F'). exists j3. split; [done|]. by etrans.
  - intros w w' _ id j H. by exists j.
Qed.

Lemma set_status_from st j : job_from j (set_status st j).
Proof. done. Qed.

Lemma update_job_evolves p g w :
  (forall id j, find_job id (jobs (db w)) = Some j -> p (id, j) = true -> job_from j (g j)) ->
  jobs_evolve w {| db := update_job p g (db w); stores := stores w |}.
Proof.
  intros H id j Hj. cbn [db]. rewrite find_job_update, Hj. simpl. eexists. split; [done|]. destruct (p (id, j)) eqn:E; [by apply (H id)|done].
Qed.

(** Updates of the other parts of the database and of the other stores. *)
Lemma on_stores_evolves g : keeps jobs_evolve (on_stores g).
Proof. intros w id j H. by exists j. Qed.
Lemma set_status_evolves p st : keeps jobs_evolve (on_db (update_job p (set_status st))).
Proof. intros w. apply update_job_evolves. intros. apply set_status_from. Qed.
Lemma audit_evolves job org a : keeps jobs_evolve (audit_append job org a).
Proof. intros w id j H. by exists j. Qed.
Lemma receipt_evolves job s r : keeps jobs_evolve (write_receipt job s r).
Proof. intros w id j H. by exists j. Qed.
Lemma statement_evolves org stmt : keeps jobs_evolve (on_db (exec_statement org stmt)).
Proof. intros w id j H. exists j. cbn. by rewrite (proj1 (exec_statement_frame org stmt (db w))). Qed.

Lemma resolve_evolves job org : keeps jobs_evolve (resolve_archived_uris job org).
Proof.
  intros w. unfold resolve_archived_uris, mbind, get_db, load_archived_uri_snapshot.
  destruct (find_job job (jobs (db w))) as [j|] eqn:E; cbn; [destruct (j_snapshot j) eqn:Es; cbn; [done|]|].
  all: apply update_job_evolves; intros id j' Hj' He; cbn in He; bools; subst; split; [done|]; cbn; congruence.
Qed.

#[export] Hint Resolve on_stores_evolves set_status_evolves audit_evolves receipt_evolves statement_evolves resolve_evolves : keeps.
#[export] Hint Unfold finish_job : keeps.

Lemma stage_postgres_evolves f org : keeps jobs_evolve (stage_postgres f org).
Proof.
  unfold stage_postgres. generalize 0%nat. induction (PG_PRE_CASCADE ++ CASCADE_STATEMENTS) as [|stmt l IH]; intros n; cbn;
    keeps_walk; auto with keeps.
Qed.
Lemma stage_postgres_shrink f org : keeps stores_shrink (stage_postgres f org).
Proof.
  unfold stage_postgres. generalize 0%nat. induction (PG_PRE_CASCADE ++ CASCADE_STATEMENTS) as [|stmt l IH]; intros n; cbn;
    keeps_walk; auto with keeps.
Qed.

(** The stages of the other stores leave Postgres alone. *)
Definition same_db (w w' : World) : Prop := db w' = db w.
#[export] Instance same_db_rolls : Rolls same_db.
Proof. split; [split; [by intros w|intros w1 w2 w3 H1 H2; unfold same_db in *; congruence]|done]. Qed.
Lemma on_stores_same g : keeps same_db (on_stores g).
Proof. done. Qed.
#[export] Hint Resolve on_stores_same : keeps.

Lemma stage_clickhouse_same f org : keeps same_db (stage_clickhouse f org).
Proof. unfold stage_clickhouse, ch_mutate_table, ch_wait_absent, ch_count_org. keeps_walk; auto with keeps. Qed.
Lemma stage_redis_same f org : keeps same_db (stage_redis f org).
Proof. unfold stage_redis, scan_delete. keeps_walk; auto with keeps. Qed.
Lemma stage_objectstore_same f st org uris : keeps same_db (stage_objectstore f st org uris).
Proof.
  unfold stage_objectstore, delete_org_prefix, delete_uri, delete_key, require_endpoint, list_keys. keeps_walk; auto with keeps.
Qed.

Lemma same_db_evolves {A} (m : M A) : keeps same_db m -> keeps jobs_evolve m.
Proof. intros H w id j Hj. exists j. by rewrite (H w). Qed.

#[export] Hint Resolve stage_postgres_evolves stage_postgres_shrink stage_clickhouse_shrink stage_redis_shrink stage_objectstore_shrink
  stage_clickhouse_same stage_redis_same stage_objectstore_same same_db_evolves : keeps.

Ltac unfold_saga := unfold claim_and_purge_postgres, run_post_postgres, record_job_failed, publish_model_policy_invalidate,
  run_optional_store_stages, run_optional_store, run_one_store, finalize_job, all_receipts_satisfied, finish_if_hold_blocked,
  require_no_hold, has_active_legal_hold, claim_job, finish_job.

Lemma claim_and_purge_evolves f job org : keeps jobs_evolve (claim_and_purge_postgres f job org).
Proof. unfold_saga. keeps_walk; auto with keeps. Qed.
Lemma run_post_postgres_evolves f st job org uris : keeps jobs_evolve (run_post_postgres f st job org uris).
Proof. unfold_saga. keeps_walk; auto with keeps. Qed.

(** ** Receipts certify erasure *)

Record sound (st : Settings) (w : World) : Prop := {
  so_ids : NoDup (jobs (db w)).*1;
  so_plain : forall id j, find_job id (jobs (db w)) = Some j -> plain_org (j_org j) = true;
  so_receipt : forall id s r, receipts (db w) !! (id, s) = Some r ->
    exists j, find_job id (jobs (db w)) = Some j /\ (r = Verified -> erased st j s w);
  so_succeeded : forall id j, find_job id (jobs (db w)) = Some j -> j_status j = Succeeded ->
    exists deployed, parse_deployed_stores (deployed_raw st) = Ok deployed /\ receipts_satisfied deployed (db w) id = true;
}.

Lemma erased_from st j j' s w w' :
  job_from j j' -> rows_from (db w) (db w') -> orgs_from (db w) (db w') -> stores_shrink w w' ->
  erased st j s w -> erased st j' s w'.
Proof.
  intros [Ho Hu] Hr Hor [Hc Hrd Hob]. destruct s; cbn; rewrite Ho.
  - by apply postgres_erased_from.
  - intros E t rows Ht Hrows Hin. destruct (Hc _ _ _ Hrows Hin) as (rows0 & H1 & H2). by apply (E t rows0).
  - intros E p k Hp Hk. apply E; [done|]. set_solver.
  - intros (uris & Hs & E1 & E2). exists uris. split; [auto|]. split.
    + intros k Hk. specialize (E1 k Hk). set_solver.
    + intros u b k H1 H2. destruct (E2 u b k H1 H2) as [-> Hn]. split; [done|]. set_solver.
Qed.

(** Updates of jobs, receipts and the audit ledger do not touch the data. *)
Lemma erased_frame st j j' s w d' :
  job_from j j' -> tables d' = tables (db w) -> orgs d' = orgs (db w) ->
  erased st j s w -> erased st j' s {| db := d'; stores := stores w |}.
Proof.
  intros Hj Ht Ho. apply erased_from; [done| | |split; cbn; eauto].
  - intros t r. cbn. rewrite Ht. eauto.
  - intros org o. cbn. rewrite Ho. eauto.
Qed.

Lemma receipts_satisfied_ext deployed d d' id :
  (forall s, latest_receipt_status d' id s = latest_receipt_status d id s) ->
  receipts_satisfied deployed d' id = receipts_satisfied deployed d id.
Proof. intros H. unfold receipts_satisfied, STORES. cbn. by rewrite !H. Qed.

Lemma receipts_satisfied_spec deployed d id :
  receipts_satisfied deployed d id = true <->
  forall s, latest_receipt_status d id s = Some (if bool_decide (s ∈ deployed) then Verified else NotApplicable).
Proof.
  unfold receipts_satisfied. rewrite forallb_forall. split.
  - intros H s. specialize (H s). apply bool_decide_eq_true in H; [done|]. destruct s; cbn; auto.
  - intros H s _. apply bool_decide_eq_true. apply H.
Qed.

Lemma satisfied_terminal deployed d id s : receipts_satisfied deployed d id = true -> receipt_terminal d id s = true.
Proof. intros H. unfold receipt_terminal. rewrite (proj1 (receipts_satisfied_spec _ _ _) H s). by case_bool_decide. Qed.

(** Deleting more keeps what the receipts certify. *)
Lemma sound_purges st w w' : sound st w -> purges (db w) (db w') -> stores_shrink w w' -> sound st w'.
Proof.
  intros [S1 S2 S3 S4] [P1 P2 P3 P4] Hs. split; rewrite ?P1, ?P2; try done.
  - intros id s r (j & Hj & E)%S3. exists j. split; [done|]. intros Hr. eapply erased_from; eauto. done.
  - intros id j Hj Hst. destruct (S4 id j Hj Hst) as (dep & Hd & Hsat). exists dep. split; [done|].
    rewrite <- Hsat. apply receipts_satisfied_ext. intros s. unfold latest_receipt_status. by rewrite P2.
Qed.

Lemma sound_rollback st w w' : sound st w -> stores_shrink w w' -> sound st {| db := db w; stores := stores w' |}.
Proof. intros S H. eapply sound_purges; [done|done|]. by apply (rolls_back (R := stores_shrink)). Qed.

(** The gate cannot have passed for this store yet. *)
Definition unsettled (st : Settings) (d : Db) (job : JobId) (s : Store) : Prop :=
  forall deployed, parse_deployed_stores (deployed_raw st) = Ok deployed ->
    latest_receipt_status d job s <> Some (if bool_decide (s ∈ deployed) then Verified else NotApplicable).

Lemma unsettled_terminal st d job s : receipt_terminal d job s = false -> unsettled st d job s.
Proof. unfold receipt_terminal. intros H deployed _ E. rewrite E in H. by case_bool_decide. Qed.

Lemma parse_deployed_postgres raw deployed : parse_deployed_stores raw = Ok deployed -> postgres ∈ deployed.
Proof.
  unfold parse_deployed_stores. case_if; [intros [= <-]; left|]. cbn zeta.
  set (names := List.filter _ _). case_bool_decide; [done|]. intros [= <-].
  destruct (bool_decide_reflect (postgres ∈ omap id (parse_store ∘ lower ∘ str_strip <$> names))); [done|left].
Qed.

Lemma unsettled_postgres st d job : receipt_verified d job postgres = false -> unsettled st d job postgres.
Proof.
  unfold receipt_verified. intros H deployed Hd E. bools. rewrite bool_decide_eq_true_2 in E by (by eapply parse_deployed_postgres).
  done.
Qed.

(** A receipt is written where none has settled the store. *)
Lemma sound_write_receipt st w job j s r :
  sound st w -> find_job job (jobs (db w)) = Some j -> unsettled st (db w) job s ->
  (r = Verified -> erased st j s w) ->
  sound st {| db := upsert_receipt job s r (db w); stores := stores w |}.
Proof.
  intros [S1 S2 S3 S4] Hj Ht Hr. split; cbn [db]; try done.
  - intros id s' r' H. unfold upsert_receipt in *. cbn in H. destruct (decide ((job, s) = (id, s'))) as [[= <- <-]|Hne].
    + rewrite lookup_insert_eq in H. injection H as <-. exists j. split; [done|]. intros Hv. apply (erased_frame _ j); auto; done.
    + rewrite lookup_insert_ne in H by done. apply S3 in H as (j' & Hj' & E). exists j'. split; [done|]. intros Hv.
      apply (erased_frame _ j'); auto; done.
  - intros id j' Hj' Hst. destruct (S4 id j' Hj' Hst) as (dep & Hd & Hsat). exists dep. split; [done|].
    rewrite <- Hsat. apply receipts_satisfied_ext. intros s'. unfold latest_receipt_status, upsert_receipt. cbn.
    destruct (decide ((job, s) = (id, s'))) as [[= <- <-]|Hne]; [|by rewrite lookup_insert_ne].
    by destruct (Ht dep Hd), (proj1 (receipts_satisfied_spec _ _ _) Hsat s).
Qed.

Lemma sound_update_job st w p g :
  sound st w ->
  (forall id j, find_job id (jobs (db w)) = Some j -> p (id, j) = true -> job_from j (g j) /\
     (j_status (g j) = Succeeded ->
      exists deployed, parse_deployed_stores (deployed_raw st) = Ok deployed /\ receipts_satisfied deployed (db w) id = true)) ->
  sound st {| db := update_job p g (db w); stores := stores w |}.
Proof.
  intros [S1 S2 S3 S4] Hg. split; cbn [db].
  - by rewrite update_job_ids.
  - intros id j. rewrite find_job_update. intros (j0 & Hj0 & ->)%fmap_Some. destruct (p (id, j0)) eqn:E; [|by apply (S2 id)].
    destruct (Hg _ _ Hj0 E) as [[-> _] _]. by apply (S2 id).
  - intros id s r (j & Hj & E)%S3. rewrite find_job_update, Hj. simpl. eexists. split; [done|]. intros Hv.
    apply (erased_frame _ j); [|done|done|by apply E]. destruct (p (id, j)) eqn:Ep; [|done]. by apply (Hg id j Hj Ep).
  - intros id j. rewrite find_job_update. intros (j0 & Hj0 & ->)%fmap_Some. destruct (p (id, j0)) eqn:E.
    + intros Hst. by apply (Hg id j0 Hj0 E).
    + intros Hst. by apply (S4 id j0).
Qed.

Lemma sound_audit st w a : sound st w -> sound st {| db := with_audit (db w) a; stores := stores w |}.
Proof. intros S. eapply sound_purges; [done| |split; cbn; eauto]. split; [done|done|intros t r; eauto|intros o r; eauto]. Qed.

(** A job row is added under a fresh id. *)
Lemma sound_new_job st w job org status :
  sound st w -> find_job job (jobs (db w)) = None -> plain_org org = true -> status <> Succeeded ->
  sound st (map_db (create_deletion_job_row job org status) w).
Proof.
  intros [S1 S2 S3 S4] Hn Hp Hst. split; cbn [map_db db create_deletion_job_row with_jobs jobs receipts].
  - rewrite fmap_app. cbn. apply NoDup_app. split; [done|]. split; [|apply NoDup_singleton].
    intros i Hi ->%list_elem_of_singleton. by apply find_job_none_ids in Hn.
  - intros id j. rewrite find_job_snoc. destruct (find_job id (jobs (db w))) eqn:E; [intros [= <-]; eauto|].
    destruct (job =? id)%string; [|done]. by intros [= <-].
  - intros id s r (j & Hj & E)%S3. rewrite find_job_snoc, Hj. exists j. split; [done|]. intros Hv.
    apply (erased_frame _ j); [done|done|done|by apply E].
  - intros id j. rewrite find_job_snoc. destruct (find_job id (jobs (db w))) eqn:E; [intros [= <-]; eauto|].
    destruct (job =? id)%string; [|done]. by intros [= <-].
Qed.

Definition known (job : JobId) (org : OrgId) (w : World) : Prop :=
  exists j, find_job job (jobs (db w)) = Some j /\ j_org j = org.
Definition snapped (job : JobId) (org : OrgId) (uris : list string) (w : World) : Prop :=
  exists j, find_job job (jobs (db w)) = Some j /\ j_org j = org /\ j_snapshot j = Some uris.

Lemma known_evolves job org w w' : jobs_evolve w w' -> known job org w -> known job org w'.
Proof. intros H (j & (j' & Hj' & <- & _)%H & <-). by exists j'. Qed.
Lemma snapped_evolves job org uris w w' : jobs_evolve w w' -> snapped job org uris w -> snapped job org uris w'.
Proof. intros H (j & (j' & Hj' & <- & Hs)%H & <- & Hu). exists j'. auto. Qed.
Lemma snapped_known job org uris w : snapped job org uris w -> known job org w.
Proof. intros (j & H1 & H2 & _). by exists j. Qed.

Lemma kept {A} R (m : M A) w a w' : keeps R m -> m w = (a, w') -> R w w'.
Proof. intros H E. specialize (H w). by rewrite E in H. Qed.

Section Saga.
Context (st : Settings) (f : Faults).

Lemma sound_set_status w p s : sound st w -> s <> Succeeded -> sound st {| db := update_job p (set_status s) (db w); stores := stores w |}.
Proof. intros S Hs. apply sound_update_job; [done|]. intros id j _ _. split; [apply set_status_from|]. done. Qed.

Lemma claim_job_sound job org w b w' :
  sound st w -> claim_job job org w = (Ok b, w') -> sound st w' /\ (b = true -> known job org w').
Proof.
  intros S H. unfold claim_job in H. inv_m. split; [by apply sound_set_status|].
  intros ([i j] & Hin%list_elem_of_In & Hp)%existsb_exists. unfold is_job in Hp. cbn in Hp. bools. subst.
  apply (known_evolves _ _ _ _ (set_status_evolves _ Running _)). exists j. split; [|done]. apply find_job_elem; [apply (so_ids _ _ S)|done].
Qed.

Lemma finish_if_hold_blocked_sound job org w b w' :
  sound st w -> finish_if_hold_blocked job org w = (Ok b, w') -> sound st w' /\ jobs_evolve w w'.
Proof.
  intros S H. split; [|refine (kept _ _ _ _ _ _ H); unfold_saga; keeps_walk; auto with keeps].
  unfold finish_if_hold_blocked, has_active_legal_hold, audit_append, finish_job in H. inv_m.
  destruct (active_hold org _); cbn in *; inv_m; [|done]. apply (sound_set_status {| db := _; stores := _ |}); [|done].
  by apply sound_audit.
Qed.

Lemma resolve_sound job org w uris w' :
  sound st w -> known job org w -> resolve_archived_uris job org w = (Ok uris, w') -> sound st w' /\ snapped job org uris w'.
Proof.
  intros S (j & Hj & Ho) H. unfold resolve_archived_uris, load_archived_uri_snapshot in H. inv_m. rewrite Hj in H0. simpl in H0.
  destruct (j_snapshot j) eqn:Es; inv_m; [split; [done|by exists j]|]. split.
  - apply sound_update_job; [done|]. intros id j' Hj' He. cbn in He. bools. subst. rewrite Hj in Hj'. injection Hj' as <-.
    split; [split; [done|congruence]|]. cbn. intros Hst. by apply (so_succeeded _ _ S _ j).
  - unfold snapped. cbn [db]. rewrite find_job_update, Hj. cbn. rewrite String.eqb_refl. eexists. split; [done|]. done.
Qed.

Lemma run_one_store_sound job org uris w u w' :
  sound st w -> snapped job org uris w -> run_one_store job org postgres (stage_postgres f org) w = (Ok u, w') ->
  sound st w' /\ snapped job org uris w'.
Proof.
  intros S Hs H. split; [|refine (snapped_evolves _ _ _ _ _ (kept _ _ _ _ _ _ H) Hs); unfold_saga; keeps_walk; auto with keeps].
  unfold run_one_store in H. inv_m. destruct (receipt_verified _ _ _) eqn:Ev; inv_m; [done|].
  destruct Hs as (j & Hj & <- & _). unfold require_no_hold, has_active_legal_hold, write_receipt in *. inv_m.
  destruct (active_hold _ _); inv_m.
  match goal with H : stage_postgres _ _ _ = (_, ?w1) |- _ =>
    pose proof (kept _ _ _ _ _ (stage_postgres_shrink f (j_org j)) H) as Hsh; apply stage_postgres_ok in H as (Hp & Hst & He);
    apply (sound_write_receipt st w1 job j) end;
    [by eapply sound_purges|by rewrite (pu_jobs _ _ Hp)| |done].
  apply unsettled_postgres. unfold receipt_verified, latest_receipt_status in *. by rewrite (pu_receipts _ _ Hp).
Qed.

(** A runner of an optional store: it leaves Postgres alone and, when it
    returns, has erased its store. *)
Record erases (job : JobId) (org : OrgId) (uris : list string) (s : Store) (runner : M unit) : Prop := {
  er_same : keeps same_db runner;
  er_shrink : keeps stores_shrink runner;
  er_erased : forall w u w' j, runner w = (Ok u, w') -> plain_org org = true -> j_org j = org -> j_snapshot j = Some uris ->
    erased st j s w';
}.

Lemma clickhouse_runner job org uris : erases job org uris clickhouse (stage_clickhouse f org).
Proof. split; auto with keeps. intros w u w' j H%stage_clickhouse_erases _ <- _. done. Qed.
Lemma redis_runner job org uris : erases job org uris redis (stage_redis f org).
Proof. split; auto with keeps. intros w u w' j H%stage_redis_erases _ <- _. done. Qed.
Lemma objectstore_runner job org uris : erases job org uris objectstore (stage_objectstore f st org uris).
Proof. split; auto with keeps. intros w u w' j H Hp <- Hs. exists uris. split; [done|]. by eapply stage_objectstore_erases. Qed.

Lemma run_optional_store_evolves job org s c runner : keeps same_db runner -> keeps jobs_evolve (run_optional_store st job org s c runner).
Proof. intros H. unfold_saga. keeps_walk; auto with keeps. Qed.
Lemma run_optional_store_shrink job org s c runner :
  keeps stores_shrink runner -> keeps stores_shrink (run_optional_store st job org s c runner).
Proof. intros H. unfold_saga. unfold write_receipt. keeps_walk; auto with keeps. Qed.

Lemma run_optional_store_sound job org uris s c runner w u w' :
  erases job org uris s runner -> sound st w -> snapped job org uris w ->
  run_optional_store st job org s c runner w = (Ok u, w') -> sound st w' /\ snapped job org uris w'.
Proof.
  intros [E1 E2 E3] S Hs H. split; [|exact (snapped_evolves _ _ _ _ _ (kept _ _ _ _ _ (run_optional_store_evolves _ _ _ c _ E1) H) Hs)].
  unfold run_optional_store in H. inv_m. destruct (receipt_terminal _ _ _) eqn:Ev; inv_m; [done|].
  destruct Hs as (j & Hj & <- & Hu). destruct (store_is_deployed st s) as [[]|e]; cbn [lift] in *; inv_m; cbn [negb] in *; [|].
  - destruct c; cbn [negb] in *; inv_m. unfold require_no_hold, has_active_legal_hold, write_receipt in *. inv_m.
    destruct (active_hold _ _); inv_m.
    match goal with H : runner _ = (_, ?w1) |- _ =>
      pose proof (kept _ _ _ _ _ E1 H) as Hd; pose proof (kept _ _ _ _ _ E2 H) as Hsh;
      apply (sound_write_receipt st w1 job j); [eapply sound_purges; [done| |done]| | |intros _; apply (E3 _ _ _ j H); [|done|done]] end;
    rewrite ?Hd; [done|done|by apply unsettled_terminal|by apply (so_plain _ _ S job)].
  - unfold write_receipt in *. inv_m. eapply sound_write_receipt; [done|done|by apply unsettled_terminal|done].
Qed.

Lemma optional_stages_sound job org uris w u w' :
  sound st w -> snapped job org uris w -> run_optional_store_stages f st job org uris w = (Ok u, w') ->
  sound st w' /\ snapped job org uris w'.
Proof.
  intros S Hs ([] & w1 & H1 & ([] & w2 & H2 & H3)%mbind_ok)%mbind_ok.
  eapply run_optional_store_sound in H1 as [S1 Hs1]; [|apply clickhouse_runner|done|done].
  eapply run_optional_store_sound in H2 as [S2 Hs2]; [|apply redis_runner|done|done].
  eapply run_optional_store_sound in H3; [done|apply objectstore_runner|done|done].
Qed.

Lemma finalize_job_sound job org w r w' : sound st w -> finalize_job st job org w = (Ok r, w') -> sound st w'.
Proof.
  intros S H. unfold finalize_job, all_receipts_satisfied in H. inv_m.
  destruct (parse_deployed_stores (deployed_raw st)) as [dep|] eqn:Ed; cbn [lift] in *; inv_m.
  destruct (receipts_satisfied _ _ job) eqn:Esat; cbn [negb] in *; unfold audit_append, finish_job in *; inv_m.
  - apply (sound_update_job _ {| db := _; stores := _ |}); [by apply sound_audit|]. intros id j Hj He. split; [apply set_status_from|].
    intros _. eexists. split; [done|]. unfold is_job in He. cbn in He. bools. subst. rewrite <- Esat. by apply receipts_satisfied_ext.
  - by apply sound_set_status.
Qed.

(** A store reported unreachable has no terminal receipt. *)
Lemma run_optional_store_unreachable job org s c runner w s' w' :
  keeps same_db runner -> (forall w s' w', runner w <> (Raise (StoreUnreachableError s'), w')) ->
  run_optional_store st job org s c runner w = (Raise (StoreUnreachableError s'), w') ->
  s' = s /\ receipt_terminal (db w) job s = false.
Proof.
  intros Hd Hr H. unfold run_optional_store, mbind at 1, get_db in H. destruct (receipt_terminal _ _ _) eqn:Et; [done|].
  apply mbind_raise in H as [H|(b & w1 & H1 & H)].
  - destruct (store_is_deployed st s) as [b|e] eqn:Es; cbn in H; [done|]. exfalso. unfold store_is_deployed in Es.
    destruct (parse_deployed_stores (deployed_raw st)) as [dep|e'] eqn:Ep; cbn in Es; [done|]. injection Es as ->.
    injection H as -> _. unfold parse_deployed_stores in Ep. cbn zeta in Ep. repeat case_if; done.
  - destruct b; cbn [negb] in H; [|done]. destruct c; cbn [negb] in H; [|by injection H as <- _].
    exfalso. apply mbind_raise in H as [H|(_ & w2 & _ & [H|(? & w3 & _ & H)]%mbind_raise)].
    + unfold require_no_hold, has_active_legal_hold, mbind, get_db in H. cbn in H. by destruct (active_hold _ _).
    + by apply Hr in H.
    + done.
Qed.
End Saga.

(** Computations that never report a store unreachable. *)
Definition calm {A : Type} (m : M A) : Prop := forall w s w', m w <> (Raise (StoreUnreachableError s), w').

Lemma calm_bind {A B} (m : M A) (k : A -> M B) : calm m -> (forall a, calm (k a)) -> calm (mbind m k).
Proof. intros Hm Hk w s w' [H|(a & w1 & _ & H)]%mbind_raise; [by apply Hm in H|by apply Hk in H]. Qed.
Lemma calm_for {A} (g : A -> M unit) l : (forall x, calm (g x)) -> calm (mfor g l).
Proof. intros H. induction l as [|x l IH]; cbn; [done|]. by apply calm_bind. Qed.
Lemma calm_if {A} (b : bool) (m1 m2 : M A) : calm m1 -> calm m2 -> calm (if b then m1 else m2).
Proof. by destruct b. Qed.
Lemma calm_transaction {A} b (m : M A) : calm m -> calm (transaction b m).
Proof. intros H w s w' E. unfold transaction in E. destruct (m w) as [[a|e] w1] eqn:Em; [by destruct b|]. injection E as -> _. by apply H in Em. Qed.

Lemma parse_s3_uri_raises u e : parse_s3_uri u = Raise e -> e = BadUri.
Proof.
  unfold parse_s3_uri. destruct (negb _); [by intros [= <-]|]. destruct (cut_slash _) as [[b k]|]; [|by intros [= <-]].
  destruct (_ || _)%bool; [by intros [= <-]|done].
Qed.

Lemma delete_uri_calm f st u : calm (delete_uri f st u).
Proof.
  unfold delete_uri. destruct (parse_s3_uri u) as [[b k]|e] eqn:E.
  - apply calm_bind; [unfold require_endpoint; by destruct (f_endpoint f)|]. intros _. apply calm_if; [|done].
    unfold delete_key. by destruct (f_delete f k).
  - by apply parse_s3_uri_raises in E as ->.
Qed.

Ltac calm_walk :=
  repeat match goal with
  | |- calm (mbind _ _) => apply calm_bind; [|intros ?]
  | |- calm (mfor _ _) => apply calm_for; intros ?
  | |- calm (transaction _ _) => apply calm_transaction
  | |- calm (if _ then _ else _) => apply calm_if
  | |- calm (match ?x with _ => _ end) => destruct x
  | |- calm _ => done
  end.

Lemma stage_clickhouse_calm f org : calm (stage_clickhouse f org).
Proof. unfold stage_clickhouse, ch_wait_absent, ch_count_org, ch_mutate_table. calm_walk. Qed.
Lemma stage_redis_calm f org : calm (stage_redis f org).
Proof. unfold stage_redis, scan_delete. calm_walk. Qed.
Lemma stage_objectstore_calm f st org uris : calm (stage_objectstore f st org uris).
Proof.
  unfold stage_objectstore, delete_org_prefix, require_endpoint, list_keys. calm_walk; [apply delete_uri_calm|].
  unfold delete_key. calm_walk.
Qed.
Lemma stage_postgres_calm f org : calm (stage_postgres f org).
Proof. unfold stage_postgres. generalize 0%nat. induction (_ ++ _) as [|stmt l IH]; intros n; cbn; calm_walk. Qed.

(** The stages only add terminal receipts. *)
Definition terminals (w w' : World) : Prop :=
  forall job s, receipt_terminal (db w) job s = true -> receipt_terminal (db w') job s = true.
#[export] Instance terminals_rolls : Rolls terminals.
Proof. split; [split; [by intros w job s|]|by intros w w' _ job s]. intros w1 w2 w3 H1 H2 job s H. auto. Qed.

Lemma write_terminal job s r : r <> ReceiptFailed -> keeps terminals (write_receipt job s r).
Proof.
  intros Hr w job' s' H. unfold receipt_terminal, latest_receipt_status in *. cbn.
  destruct (decide ((job, s) = (job', s'))) as [[= <- <-]|Hne]; [rewrite lookup_insert_eq; by destruct r|by rewrite lookup_insert_ne].
Qed.

Lemma same_db_terminals {A} (m : M A) : keeps same_db m -> keeps terminals m.
Proof. intros H w job s Hs. by rewrite (H w). Qed.

Lemma run_optional_store_terminals st job org s c runner :
  keeps same_db runner -> keeps terminals (run_optional_store st job org s c runner).
Proof. intros H. unfold_saga. keeps_walk; auto using same_db_terminals, write_terminal with keeps. all: by apply write_terminal. Qed.

Lemma optional_stages_unreachable f st job org uris w s w' :
  run_optional_store_stages f st job org uris w = (Raise (StoreUnreachableError s), w') -> receipt_terminal (db w) job s = false.
Proof.
  intros [H|(? & w1 & H1 & [H|(? & w2 & H2 & H)]%mbind_raise)]%mbind_raise.
  - by apply run_optional_store_unreachable in H as [-> H]; [|apply stage_clickhouse_same|apply stage_clickhouse_calm].
  - apply run_optional_store_unreachable in H as [-> H]; [|apply stage_redis_same|apply stage_redis_calm].
    apply (kept _ _ _ _ _ (run_optional_store_terminals _ _ _ _ _ _ (stage_clickhouse_same f org))) in H1.
    apply not_true_iff_false. intros Ht%H1. congruence.
  - apply run_optional_store_unreachable in H as [-> H]; [|apply stage_objectstore_same|apply stage_objectstore_calm].
    apply (kept _ _ _ _ _ (run_optional_store_terminals _ _ _ _ _ _ (stage_clickhouse_same f org))) in H1.
    apply (kept _ _ _ _ _ (run_optional_store_terminals _ _ _ _ _ _ (stage_redis_same f org))) in H2.
    apply not_true_iff_false. intros Ht%H1%H2. congruence.
Qed.

(** ** The phases of a run *)

Lemma record_job_failed_world {A} f job org e w :
  (record_job_failed (A := A) f job org e w).2 =
  if f_record f then w
  else {| db := update_job (is_job job org) (set_status Failed)
                  (match e with StoreUnreachableError s => upsert_receipt job s ReceiptFailed (db w) | _ => db w end);
          stores := stores w |}.
Proof. unfold record_job_failed, mbind at 1, transaction. by destruct e, (f_record f), w. Qed.

Lemma record_job_failed_sound {A} st f job org e w :
  sound st w ->
  (forall s, e = StoreUnreachableError s -> known job org w /\ receipt_terminal (db w) job s = false) ->
  sound st (record_job_failed (A := A) f job org e w).2.
Proof.
  intros S He. rewrite record_job_failed_world. destruct (f_record f); [done|].
  destruct e as [s| | | | | | | | | |]; try (by apply sound_set_status).
  destruct (He s eq_refl) as [(j & Hj & _) Ht].
  apply (sound_set_status st {| db := _; stores := _ |}); [|done]. eapply sound_write_receipt; [done|done|by apply unsettled_terminal|done].
Qed.

Lemma transaction_ok {A} b (m : M A) w a w' : transaction b m w = (Ok a, w') -> m w = (Ok a, w') /\ b = false.
Proof. unfold transaction. destruct (m w) as [[a'|e] w1]; [|done]. destruct b; [done|]. by intros [= <- <-]. Qed.

Lemma transaction_raise {A} b (m : M A) w e w' :
  transaction b m w = (Raise e, w') ->
  db w' = db w /\ stores w' = stores (m w).2 /\ (m w = (Raise e, (m w).2) \/ e = CommitFailed).
Proof. unfold transaction. destruct (m w) as [[a'|e'] w1]; [destruct b; [|done]|]; intros [= <- <-]; cbn; auto. Qed.

Section Phases.
Context (st : Settings) (f : Faults) (job : JobId) (org : OrgId).

Lemma transaction_raise_sound {A} b (m : M A) w e w' :
  sound st w -> keeps stores_shrink m -> transaction b m w = (Raise e, w') -> sound st w'.
Proof.
  intros S Hm (Hd & Hs & _)%transaction_raise. destruct w' as [d' s']. cbn in *. subst. apply sound_rollback; [done|apply Hm].
Qed.

Lemma claim_and_purge_sound w out w' :
  sound st w -> claim_and_purge_postgres f job org w = (out, w') ->
  sound st w' /\ forall uris, out = Ok (inr uris) -> snapped job org uris w'.
Proof.
  intros S H. unfold claim_and_purge_postgres, mcatch in H. destruct (transaction _ _ w) as [[a|e] w1] eqn:E.
  - injection H as <- <-. apply transaction_ok in E as [E _]. apply mbind_ok in E as (b & w2 & [S2 K2]%(claim_job_sound st) & E); [|done].
    destruct b; cbn [negb] in E; [|inv_m; split; [done|]; by intros uris [= ?]].
    specialize (K2 eq_refl). apply mbind_ok in E as (r & w3 & [S3 K3]%(finish_if_hold_blocked_sound st) & E); [|done].
    apply (known_evolves _ _ _ _ K3) in K2. destruct r as [r|]; [inv_m; split; [done|]; by intros uris [= ?]|].
    apply mbind_ok in E as (uris & w4 & [S4 K4]%(resolve_sound st) & E); [|done|done].
    apply mbind_ok in E as ([] & w5 & [S5 K5]%(run_one_store_sound st f _ _ uris) & E); [|done|done]. inv_m.
    split; [done|]. by intros uris' [= <-].
  - split.
    + assert (w' = (record_job_failed (A := Reply + list string) f job org e w1).2) as -> by (by rewrite H).
      apply record_job_failed_sound.
      * eapply transaction_raise_sound; [done| |done]. unfold_saga. unfold resolve_archived_uris, write_receipt, audit_append.
        keeps_walk; auto with keeps.
      * intros s ->. exfalso. apply transaction_raise in E as (_ & _ & [E|]); [|done].
        match type of E with ?m _ = _ => cut (calm m); [intros Hc; exact (Hc _ _ _ E)|] end.
        unfold_saga. unfold resolve_archived_uris. calm_walk. apply stage_postgres_calm.
    + intros uris ->. unfold record_job_failed in H. apply mbind_ok in H as (? & ? & _ & [=]).
Qed.

Lemma optional_body_shrink uris : keeps stores_shrink (run_optional_store_stages f st job org uris ;! finalize_job st job org).
Proof. unfold_saga. unfold write_receipt, audit_append. keeps_walk; auto with keeps. Qed.

Lemma finalize_job_calm : calm (finalize_job st job org).
Proof.
  unfold_saga. unfold parse_deployed_stores. cbn zeta. destruct (str_strip _ =? "")%string; [by calm_walk|].
  destruct (bool_decide _); by calm_walk.
Qed.

Lemma run_post_postgres_sound uris w out w' :
  sound st w -> snapped job org uris w -> run_post_postgres f st job org uris w = (out, w') -> sound st w'.
Proof.
  intros S Hs H. unfold run_post_postgres in H. unfold mbind at 1 in H.
  destruct (mcatch (publish_model_policy_invalidate f st) _ w) as [[[]|e] w1] eqn:E.
  - assert (w1 = w) as ->.
    { unfold mcatch, publish_model_policy_invalidate in E. destruct (redis_url st =? "")%string; [by injection E|].
      destruct (f_publish f); [|by injection E]. cbn in E. unfold record_job_failed in E. by apply mbind_ok in E as (? & ? & _ & [=]). }
    clear E. unfold mcatch in H. destruct (transaction _ _ w) as [[a|e] w1] eqn:E.
    + injection H as <- <-. apply transaction_ok in E as [E _]. apply mbind_ok in E as ([] & w2 & E1 & E2).
      eapply (optional_stages_sound st) in E1 as [S1 _]; [|done|done]. by eapply finalize_job_sound in E2.
    + assert (w' = (record_job_failed (A := Reply) f job org e w1).2) as -> by (by rewrite H).
      apply record_job_failed_sound; [eapply transaction_raise_sound; [done|apply (optional_body_shrink uris)|done]|].
      intros s ->. apply transaction_raise in E as (Hd & _ & [E|]); [|done]. split.
      * destruct (snapped_known _ _ _ _ Hs) as (j & Hj & Ho). exists j. by rewrite Hd.
      * rewrite Hd. apply mbind_raise in E as [E|(? & w2 & _ & E)]; [by apply optional_stages_unreachable in E|].
        by apply finalize_job_calm in E.
  - injection H as <- <-. unfold mcatch, publish_model_policy_invalidate in E. destruct (redis_url st =? "")%string; [done|].
    destruct (f_publish f); [|done]. cbn in E.
    assert (w1 = (record_job_failed (A := unit) f job org PublishFailed w).2) as -> by (by rewrite E).
    by apply record_job_failed_sound.
Qed.
End Phases.

(** ** Every interleaving *)

Record system_ok (st : Settings) (s : Sys) : Prop := {
  sy_sound : sound st (world s);
  sy_running : forall job org uris, (job, org, uris) ∈ running s -> snapped job org uris (world s);
}.

Lemma sound_no_jobs_change st w d' :
  sound st w -> jobs d' = jobs (db w) -> receipts d' = receipts (db w) -> rows_from (db w) d' -> orgs_from (db w) d' ->
  sound st {| db := d'; stores := stores w |}.
Proof. intros S H1 H2 H3 H4. eapply sound_purges; [done|by split|split; cbn; eauto]. Qed.

Lemma commit_request_sound st w job org :
  sound st w -> find_job job (jobs (db w)) = None -> plain_org org = true ->
  sound st (map_db (commit_deletion_request job org) w).
Proof.
  intros S Hn Hp. unfold commit_deletion_request.
  apply (sound_no_jobs_change st (map_db (create_deletion_job_row job org Pending) w)); try done.
  - by apply sound_new_job.
  - intros t r. eauto.
  - intros org' o'. cbn. destruct (decide (org = org')) as [<- |Hne]; [|rewrite lookup_alter_ne by done; eauto].
    rewrite lookup_alter_eq. intros (o & Ho & ->)%fmap_Some. exists o. split; [done|]. destruct (o_deleted o) eqn:Eo; cbn; auto.
Qed.

Lemma new_job_evolves job org status w g :
  (forall d, jobs (g d) = jobs d) -> jobs_evolve w (map_db (fun d => g (create_deletion_job_row job org status d)) w).
Proof. intros Hg id j Hj. cbn. rewrite Hg. cbn. rewrite find_job_snoc, Hj. by exists j. Qed.

(** A suspension changes one row, and that one only if it is not deleted. *)
Lemma suspend_jobs org d d' : suspend_organization org d = Ok d' ->
  jobs d' = jobs d /\ receipts d' = receipts d /\ tables d' = tables d /\ orgs_from d d' /\
  (forall org', org' <> org -> orgs d' !! org' = orgs d !! org') /\
  (forall o, orgs d !! org = Some o -> o_deleted o = false).
Proof.
  unfold suspend_organization. destruct (orgs d !! org) as [o|] eqn:Eo; [|done].
  destruct (o_deleted o) eqn:Ed; [done|]. intros [= <-]. split_and!; try done; cbn.
  - intros org' o'. cbn. destruct (decide (org = org')) as [<- |Hne]; [|rewrite lookup_insert_ne by done; eauto].
    intros _. exists o. split; [done|]. congruence.
  - intros org' Hne. by rewrite lookup_insert_ne.
  - by intros o' [= <-].
Qed.

Lemma suspend_sound st w org d :
  sound st w -> suspend_organization org (db w) = Ok d -> sound st {| db := d; stores := stores w |}.
Proof.
  intros S (Hj & Hr & Ht & Ho & _)%suspend_jobs. apply sound_no_jobs_change; try done. intros t r. rewrite Ht. eauto.
Qed.

Lemma system_step_ok st s s' : step st s s' -> system_ok st s -> system_ok st s'.
Proof.
  destruct 1 as [s job org Hp Ha|s job org b Hp Ha Hn|s job org r1 r2 Hr Hp Hn|s org d Hsus|s r r1 r2 Hr|s job org f q1 q2 b out w Hq Hc
                |s job org uris f r1 r2 out w Hr Hc|s job org uris r1 r2 Hr|s org|s org]; intros [S R]; split; cbn [world running]; auto.
  - by apply sound_new_job.
  - intros job' org' uris Hin%R. eapply snapped_evolves; [|done]. by apply (new_job_evolves _ _ _ _ id).
  - by apply commit_request_sound.
  - intros job' org' uris Hin%R. eapply snapped_evolves; [|done]. by apply (new_job_evolves _ _ _ _ (cancel_organization org)).
  - by eapply suspend_sound.
  - intros job' org' uris Hin%R. destruct (suspend_jobs _ _ _ Hsus) as [Hj _].
    destruct Hin as (j & Hf & Hrest). exists j. cbn [db]. by rewrite Hj.
  - by apply (claim_and_purge_sound st f job org _ _ _ S) in Hc as [? _].
  - intros job' org' uris Hin. pose proof (kept _ _ _ _ _ (claim_and_purge_evolves f job org) Hc) as Hev.
    apply (claim_and_purge_sound st f job org _ _ _ S) in Hc as [_ Hs].
    destruct out as [[r|uris']|e]; [|apply elem_of_cons in Hin as [[= -> -> ->]|Hin]; [by apply Hs|]|];
      (eapply snapped_evolves; [done|by apply R]).
  - eapply (run_post_postgres_sound st f job org uris); [done| |done]. apply R. rewrite Hr, elem_of_app, elem_of_cons. auto.
  - intros job' org' uris' Hin. pose proof (kept _ _ _ _ _ (run_post_postgres_evolves f st job org uris) Hc) as Hev.
    eapply snapped_evolves; [done|]. apply R. rewrite Hr, elem_of_app, elem_of_cons. apply elem_of_app in Hin as [?|?]; auto.
  - intros job' org' uris' Hin. apply R. rewrite Hr, elem_of_app, elem_of_cons. apply elem_of_app in Hin as [?|?]; auto.
  - apply (sound_no_jobs_change st (world s)); [done..|intros t r; eauto|intros o r; eauto].
  - apply (sound_no_jobs_change st (world s)); [done..|intros t r; eauto|intros o r; eauto].
Qed.

Lemma system_steps_ok st s s' : steps st s s' -> system_ok st s -> system_ok st s'.
Proof. induction 1; eauto using system_step_ok. Qed.

(** Before the first request: no job, no receipt, no worker. *)
Definition initial (s : Sys) : Prop :=
  jobs (db (world s)) = [] /\ receipts (db (world s)) = ∅ /\ running s = [].

Lemma initial_ok st s : initial s -> system_ok st s.
Proof.
  intros (H1 & H2 & H3). split; [split; rewrite ?H1, ?H2; try done|].
  - apply NoDup_nil_2.
  - intros job org uris. by rewrite H3, elem_of_nil.
Qed.

(** C5: A job that reports success has erased the organization: in every
    reachable state, over every interleaving of deletion requests, suspensions,
    workers (redelivered, failing anywhere or lost) and legal holds, the receipts of a
    succeeded job are verified for exactly the deployed stores and not applicable
    for the others, and each deployed store holds nothing of the organization any
    more: no row in the purged tables and a cancelled organization row, no
    ClickHouse row, no key under its prefixes, no object under its prefix and
    none of the archived objects of its snapshot. *)
Theorem succeeded_job_has_erased st s0 s id j :
  initial s0 -> steps st s0 s ->
  find_job id (jobs (db (world s))) = Some j -> j_status j = Succeeded ->
  exists deployed, parse_deployed_stores (deployed_raw st) = Ok deployed /\
    forall store, latest_receipt_status (db (world s)) id store
                  = Some (if bool_decide (store ∈ deployed) then Verified else NotApplicable)
                  /\ (store ∈ deployed -> erased st j store (world s)).
Proof.
  intros Hi Hs Hj Hst. pose proof (sy_sound _ _ (system_steps_ok _ _ _ Hs (initial_ok st s0 Hi))) as S.
  destruct (so_succeeded _ _ S id j Hj Hst) as (dep & Hd & Hsat). exists dep. split; [done|]. intros store.
  pose proof (proj1 (receipts_satisfied_spec _ _ _) Hsat store) as Hr. split; [done|]. intros Hin.
  rewrite bool_decide_eq_true_2 in Hr by done. apply (so_receipt _ _ S) in Hr as (j' & Hj' & E). rewrite Hj in Hj'.
  injection Hj' as <-. by apply E.
Qed.

(** ** Legal holds *)

(** While the organization is held, nothing of any tenant's data changes. *)
Record same_data (w w' : World) : Prop := {
  sd_tables : tables (db w') = tables (db w);
  sd_outbox : outbox (db w') = outbox (db w);
  sd_orgs : orgs (db w') = orgs (db w);
  sd_holds : holds (db w') = holds (db w);
  sd_stores : stores w' = stores w;
}.
Definition protected (org : OrgId) (w w' : World) : Prop := active_hold org (db w) = true -> same_data w w'.

#[export] Instance protected_rolls org : Rolls (protected org).
Proof.
  split; [split|].
  - intros w _. by split.
  - intros w1 w2 w3 H1 H2 H. specialize (H1 H). unfold protected, active_hold in *. rewrite (sd_holds _ _ H1) in H2.
    specialize (H2 H). destruct H1, H2. split; congruence.
  - intros w w' H Hh. destruct (H Hh). by split.
Qed.

Lemma held_raises {B} org (k : unit -> M B) : keeps (protected org) (mbind (require_no_hold org) k).
Proof.
  intros w Hh. unfold mbind, require_no_hold, has_active_legal_hold. cbn. rewrite Hh. by split.
Qed.

Lemma on_jobs_protected org p g : keeps (protected org) (on_db (update_job p g)).
Proof. intros w _. by split. Qed.
Lemma audit_protected org job org' a : keeps (protected org) (audit_append job org' a).
Proof. intros w _. by split. Qed.
Lemma receipt_protected org job s r : keeps (protected org) (write_receipt job s r).
Proof. intros w _. by split. Qed.

#[export] Hint Resolve held_raises on_jobs_protected audit_protected receipt_protected : keeps.

Lemma run_optional_store_protected st job org s c runner : keeps (protected org) (run_optional_store st job org s c runner).
Proof.
  unfold run_optional_store. repeat first [apply held_raises | keeps_step]; auto with keeps.
Qed.

Lemma record_job_failed_protected {A} org f job e : keeps (protected org) (record_job_failed (A := A) f job org e).
Proof. unfold record_job_failed, finish_job. keeps_walk; auto with keeps. Qed.

#[export] Hint Resolve run_optional_store_protected record_job_failed_protected : keeps.

(** C36: A legal hold stops the saga: while an organization has an active hold,
    neither phase of a worker run for it, whatever fails, changes a row of a
    tenant table, the lifecycle outbox, an organization, a hold, or anything in
    ClickHouse, Redis or the object store; the first phase of a job that can be
    claimed reports it as blocked. *)
Theorem hold_blocks_deletion st f job org uris w :
  active_hold org (db w) = true ->
  same_data w (claim_and_purge_postgres f job org w).2 /\
  same_data w (run_post_postgres f st job org uris w).2 /\
  (f_commit f = false -> existsb (fun ij => is_job job org ij && claimable ij)%bool (jobs (db w)) = true ->
   (claim_and_purge_postgres f job org w).1 = Ok (inl RHoldBlocked)).
Proof.
  intros Hh. split; [|split].
  - apply (fun H : keeps (protected org) _ => H w Hh). unfold claim_and_purge_postgres, claim_job, finish_if_hold_blocked,
      has_active_legal_hold, resolve_archived_uris, run_one_store, finish_job.
    repeat first [apply held_raises | keeps_step]; auto with keeps.
  - apply (fun H : keeps (protected org) _ => H w Hh). unfold run_post_postgres, publish_model_policy_invalidate,
      run_optional_store_stages, finalize_job, all_receipts_satisfied, finish_job. keeps_walk; auto with keeps.
  - intros Hc Hj. unfold claim_and_purge_postgres, mcatch, transaction, claim_job, finish_if_hold_blocked, has_active_legal_hold, mbind,
      get_db, on_db, mret. cbn. rewrite Hj. cbn. unfold active_hold in Hh. cbn. fold (active_hold org (db w)).
    unfold active_hold. cbn. rewrite Hh. cbn. by rewrite Hc.
Qed.

(** ** Deletions that cannot be resumed *)

Definition job_statuses (org : OrgId) (d : Db) : list (JobId * JobStatus) :=
  (fun ij => (ij.1, j_status ij.2)) <$> List.filter (fun ij => String.eqb (j_org ij.2) org) (jobs d).

(** A run for another organization leaves the organization row and the jobs'
    statuses alone. *)
Definition elsewhere (org : OrgId) (w w' : World) : Prop :=
  orgs (db w') !! org = orgs (db w) !! org /\ job_statuses org (db w') = job_statuses org (db w).

#[export] Instance elsewhere_rolls org : Rolls (elsewhere org).
Proof. split; [split; [done|]|done]. intros w1 w2 w3 [A1 B1] [A2 B2]. split; congruence. Qed.

Lemma update_statuses p g org d :
  (forall ij, ij ∈ jobs d -> p ij = true -> j_org (g ij.2) = j_org ij.2 /\ (j_org ij.2 = org -> j_status (g ij.2) = j_status ij.2)) ->
  job_statuses org (update_job p g d) = job_statuses org d.
Proof.
  unfold job_statuses, update_job. cbn [jobs with_jobs]. induction (jobs d) as [|[i j] l IH]; intros H; [done|].
  rewrite fmap_cons. cbn [List.filter]. assert (forall ij, ij ∈ l -> ij ∈ (i, j) :: l) as Hl by (intros; by right). specialize (IH (fun ij Hij => H ij (Hl ij Hij))).
  assert (j_org (if p (i, j) then (i, g j) else (i, j)).2 = j_org j /\
          (j_org j = org -> j_status (if p (i, j) then (i, g j) else (i, j)).2 = j_status j) /\
          (if p (i, j) then (i, g j) else (i, j)).1 = i) as (E1 & E2 & E3).
  { destruct (p (i, j)) eqn:E; [|done]. destruct (H (i, j)); [left|done|]. done. }
  cbn [fst snd] in *. rewrite E1. destruct (j_org j =? org)%string eqn:Eo; [|done]. bools. rewrite !fmap_cons, IH. cbn [fst snd]. by rewrite E2, E3.
Qed.

Lemma finish_elsewhere org p org' st :
  org' <> org -> (forall ij, p ij = true -> j_org ij.2 = org') -> keeps (elsewhere org) (on_db (update_job p (set_status st))).
Proof.
  intros Hne Hp w. split; [done|]. cbn [snd on_db db]. apply update_statuses. intros ij _ H%Hp. split; [done|]. congruence.
Qed.

Section Elsewhere.
Context (org org' : OrgId) (Hne : org' <> org).

Lemma statement_elsewhere stmt : keeps (elsewhere org) (on_db (exec_statement org' stmt)).
Proof.
  intros w. split; cbn [snd on_db db].
  - destruct stmt; cbn; try done. by rewrite lookup_alter_ne.
  - unfold job_statuses. by rewrite (proj1 (exec_statement_frame org' stmt (db w))).
Qed.

Lemma status_elsewhere job st : keeps (elsewhere org) (on_db (update_job (is_job job org') (set_status st))).
Proof. apply (finish_elsewhere _ _ org'); [done|]. intros [i j]. unfold is_job. cbn. intros H. by bools. Qed.
Lemma claim_elsewhere job st :
  keeps (elsewhere org) (on_db (update_job (fun ij => is_job job org' ij && claimable ij)%bool (set_status st))).
Proof. apply (finish_elsewhere _ _ org'); [done|]. intros [i j]. unfold is_job. cbn. intros H. by bools. Qed.
Lemma snapshot_elsewhere p uris : keeps (elsewhere org) (on_db (update_job p (set_snapshot uris))).
Proof. intros w. split; [done|]. by apply update_statuses. Qed.
Lemma audit_elsewhere job a : keeps (elsewhere org) (audit_append job org' a).
Proof. done. Qed.
Lemma receipt_elsewhere job s r : keeps (elsewhere org) (write_receipt job s r).
Proof. done. Qed.
Lemma same_db_elsewhere {A} (m : M A) : keeps same_db m -> keeps (elsewhere org) m.
Proof. intros H w. split; by rewrite (H w). Qed.
Lemma stage_postgres_elsewhere f : keeps (elsewhere org) (stage_postgres f org').
Proof.
  unfold stage_postgres. generalize 0%nat. induction (_ ++ _) as [|stmt l IH]; intros n; cbn; keeps_walk; auto using statement_elsewhere.
Qed.

Lemma claim_and_purge_elsewhere f job : keeps (elsewhere org) (claim_and_purge_postgres f job org').
Proof.
  unfold_saga. unfold resolve_archived_uris. keeps_walk; auto using status_elsewhere, claim_elsewhere, snapshot_elsewhere, audit_elsewhere,
    receipt_elsewhere, stage_postgres_elsewhere.
Qed.

Lemma run_post_postgres_elsewhere f st job uris : keeps (elsewhere org) (run_post_postgres f st job org' uris).
Proof.
  unfold_saga. keeps_walk; auto using status_elsewhere, audit_elsewhere, receipt_elsewhere, same_db_elsewhere, stage_clickhouse_same,
    stage_redis_same, stage_objectstore_same.
Qed.
End Elsewhere.

(** Nothing is under way for the organization. *)
Record idle (org : OrgId) (s : Sys) : Prop := {
  id_queue : org ∉ snd <$> queue s;
  id_requests : org ∉ snd <$> requests s;
  id_running : org ∉ (fun r => r.1.2) <$> running s;
}.

(** Nothing is under way for it, and its row is deleted: the purge of Postgres
    has committed. *)
Definition stranded (org : OrgId) (s : Sys) : Prop :=
  idle org s /\ exists o, orgs (db (world s)) !! org = Some o /\ o_deleted o = true.

Lemma deleted_refused org d o : orgs d !! org = Some o -> o_deleted o = true ->
  deletion_request_allowed org d = Raise NOT_FOUND.
Proof. intros Ho Hd. unfold deletion_request_allowed, get_organization. by rewrite Ho, Hd. Qed.

Lemma new_job_elsewhere org org' job status g w :
  org' <> org -> (forall d, jobs (g d) = jobs d /\ orgs (g d) !! org = orgs d !! org) ->
  elsewhere org w (map_db (fun d => g (create_deletion_job_row job org' status d)) w).
Proof.
  intros Hne Hg. split; cbn [map_db db]; [exact (proj2 (Hg _))|]. unfold job_statuses. rewrite (proj1 (Hg _)). cbn. rewrite List.filter_app. cbn.
  apply String.eqb_neq in Hne. by rewrite Hne, app_nil_r.
Qed.

(** A step from a stranded deletion is for another organization. *)
Lemma stranded_step_elsewhere st s s' org : step st s s' -> stranded org s -> elsewhere org (world s) (world s').
Proof.
  intros Hstep [[A1 A2 A3] (o & Ho & Hd)]. pose proof (deleted_refused _ _ _ Ho Hd) as Hno.
  destruct Hstep as [s job org' Hp Ha|s job org' b Hp Ha Hn|s job org' r1 r2 Hr Hp Hn|s org' d Hsus|s r r1 r2 Hr|s job org' f q1 q2 b out w Hq Hc
                |s job org' uris f r1 r2 out w Hr Hc|s job org' uris r1 r2 Hr|s org'|s org']; cbn [world]; try done.
  - apply (new_job_elsewhere org org' job Failed id); [|done]. intros ->. congruence.
  - rewrite Hr, fmap_app, fmap_cons, not_elem_of_app, not_elem_of_cons in A2. destruct A2 as (_ & Hne & _).
    apply (new_job_elsewhere org org' job Pending (cancel_organization org')); [done|]. intros d. split; [done|]. cbn.
    by rewrite lookup_alter_ne.
  - apply suspend_jobs in Hsus as (Hj & _ & _ & _ & Hother & Hdel). split; cbn [db].
    + apply Hother. intros <-. specialize (Hdel o Ho). congruence.
    + unfold job_statuses. by rewrite Hj.
  - rewrite Hq, fmap_app, fmap_cons, not_elem_of_app, not_elem_of_cons in A1. destruct A1 as (_ & Hne & _).
    exact (kept _ _ _ _ _ (claim_and_purge_elsewhere org org' (not_eq_sym Hne) f job) Hc).
  - rewrite Hr, fmap_app, fmap_cons, not_elem_of_app, not_elem_of_cons in A3. destruct A3 as (_ & Hne & _).
    exact (kept _ _ _ _ _ (run_post_postgres_elsewhere org org' (not_eq_sym Hne) f st job uris) Hc).
Qed.

Lemma stranded_step st s s' org : step st s s' -> stranded org s -> stranded org s'.
Proof.
  intros Hstep A. destruct (stranded_step_elsewhere _ _ _ _ Hstep A) as [Hrow _].
  destruct A as [[A1 A2 A3] (o & Ho & Hd)]. pose proof (deleted_refused _ _ _ Ho Hd) as Hno.
  split; [|exists o; by rewrite Hrow].
  destruct Hstep as [s job org' Hp Ha|s job org' b Hp Ha Hn|s job org' r1 r2 Hr Hp Hn|s org' d Hsus|s r r1 r2 Hr|s job org' f q1 q2 b out w Hq Hc
                |s job org' uris f r1 r2 out w Hr Hc|s job org' uris r1 r2 Hr|s org'|s org'];
    split; cbn [queue requests running] in *; try done.
  all: try match goal with
    | H : queue _ = _ |- _ => rewrite H, fmap_app, fmap_cons, not_elem_of_app, not_elem_of_cons in A1
    | H : requests _ = _ |- _ => rewrite H, fmap_app, fmap_cons, not_elem_of_app, not_elem_of_cons in A2
    | H : running _ = _ |- _ => rewrite H, fmap_app, fmap_cons, not_elem_of_app, not_elem_of_cons in A3
    end.
  all: try (destruct b); rewrite ?fmap_app, ?fmap_cons, ?not_elem_of_app, ?not_elem_of_cons; try tauto.
  all: try (assert (org' <> org) by (intros ->; congruence); tauto || auto).
  - by rewrite Hq, fmap_app, fmap_cons, not_elem_of_app, not_elem_of_cons.
  - destruct out as [[r|u]|e]; rewrite ?fmap_cons, ?not_elem_of_cons; tauto.
  - destruct out as [[r|u]|e]; rewrite ?fmap_cons, ?not_elem_of_cons; tauto.
Qed.

(** C38: a deletion that stops after its purge is lost for good: once the
    organization's row is deleted and nothing is queued, requested or running for
    it, then whatever requests, suspensions, workers and holds follow, its row and
    the status of each of its jobs never change, so an unfinished job stays
    unfinished, and every further request to delete it is answered NOT_FOUND. *)
Theorem stranded_deletion_is_final st s s' org :
  stranded org s -> steps st s s' ->
  orgs (db (world s')) !! org = orgs (db (world s)) !! org /\
  job_statuses org (db (world s')) = job_statuses org (db (world s)) /\
  deletion_request_allowed org (db (world s')) = Raise NOT_FOUND.
Proof.
  intros A Hs. assert (elsewhere org (world s) (world s') /\ stranded org s') as [[H1 H2] [_ (o & Ho & Hd)]].
  { induction Hs as [s|s s1 s' H _ IH]; [done|]. destruct IH as [IH A']; [by eapply stranded_step|]. split; [|done].
    transitivity (world s1); [by eapply stranded_step_elsewhere|done]. }
  split; [done|]. split; [done|]. by eapply deleted_refused.
Qed.

(** A cancelled organization whose row is not deleted, and whose latest job is not
    failed, is refused a new deletion until someone suspends it; then only a hold
    stands in the way. *)
Lemma suspension_reopens_deletion org o d :
  orgs d !! org = Some o -> o_deleted o = false -> o_cancelled o = true ->
  latest_deletion_job_status org d <> Some Failed -> active_hold org d = false ->
  deletion_request_allowed org d = Raise VALIDATION_ERROR /\
  exists d', suspend_organization org d = Ok d' /\ deletion_request_allowed org d' = Ok tt.
Proof.
  intros Ho Hd Hc Hl Hh. unfold deletion_request_allowed, get_organization, assert_deletion_allowed, suspend_organization.
  rewrite Ho, Hd. cbn [rbind]. rewrite Hh, Hc, (bool_decide_eq_false_2 _ Hl). cbn [negb]. split; [done|].
  eexists. split; [done|]. cbn [orgs with_orgs]. rewrite lookup_insert_eq. cbn [rbind o_deleted o_cancelled negb].
  unfold active_hold in *. cbn [holds with_orgs]. by rewrite Hh.
Qed.

(** ** What a run leaves alone *)

Record spares (st : Settings) (org : OrgId) (uris : list string) (w w' : World) : Prop := {
  sp_rows : forall t, without_org org (rows_of (tables (db w')) t) = without_org org (rows_of (tables (db w)) t);
  sp_orgs : forall o, o <> org -> orgs (db w') !! o = orgs (db w) !! o;
  sp_holds : List.filter (fun h => negb (h_cleared h && String.eqb (h_org h) org)) (holds (db w'))
             = List.filter (fun h => negb (h_cleared h && String.eqb (h_org h) org)) (holds (db w));
  sp_ch : forall t, List.filter (fun o => negb (String.eqb o org)) <$> (ch_rows (stores w') !! t)
                    = List.filter (fun o => negb (String.eqb o org)) <$> (ch_rows (stores w) !! t);
  sp_redis : forall k, k ∈ redis_keys (stores w) -> (forall p, p ∈ redis_prefixes org -> String.prefix p k = false) ->
    k ∈ redis_keys (stores w');
  sp_objects : forall b k, (b, k) ∈ objects (stores w) ->
    b <> s3_bucket st \/ String.prefix (org +:+ "/") k = false
                         /\ (forall u k', u ∈ uris -> parse_s3_uri u = Ok (b, k') -> lstrip_slash k' <> k) ->
    (b, k) ∈ objects (stores w');
}.

#[export] Instance spares_rolls st org uris : Rolls (spares st org uris).
Proof.
  split; [split|].
  - intros w. by split.
  - intros w1 w2 w3 [a1 a2 a3 a4 a5 a6] [b1 b2 b3 b4 b5 b6].
    split; [by intros; rewrite b1|by intros; rewrite b2, a2|by rewrite b3|by intros; rewrite b4|auto|auto].
  - intros w w' [a1 a2 a3 a4 a5 a6]. by split.
Qed.

Section Spares.
Context (st : Settings) (org : OrgId) (uris : list string).

Lemma db_spares g :
  (forall d, (forall t, without_org org (rows_of (tables (g d)) t) = without_org org (rows_of (tables d) t)) /\
     (forall o, o <> org -> orgs (g d) !! o = orgs d !! o) /\
     List.filter (fun h => negb (h_cleared h && String.eqb (h_org h) org)) (holds (g d))
     = List.filter (fun h => negb (h_cleared h && String.eqb (h_org h) org)) (holds d)) ->
  keeps (spares st org uris) (on_db g).
Proof. intros H w. destruct (H (db w)) as (H1 & H2 & H3). by split. Qed.

Lemma filter_idem {A} (p : A -> bool) l : List.filter p (List.filter p l) = List.filter p l.
Proof. induction l as [|x l IH]; cbn; [done|]. destruct (p x) eqn:E; cbn; [by rewrite E, IH|done]. Qed.

Lemma statement_spares stmt : keeps (spares st org uris) (on_db (exec_statement org stmt)).
Proof.
  apply db_spares. intros d. split; [|split].
  - intros t. destruct stmt; cbn; try done; rewrite rows_of_insert; case_bool_decide as E; try done; subst; unfold without_org.
    + apply filter_idem.
    + apply filter_idem.
    + induction (rows_of (tables d) "sessions") as [|r l IH]; [done|]. rewrite fmap_cons. cbn [List.filter].
      destruct (of_org org r) eqn:E; [|rewrite E; cbn; by rewrite IH].
      change (of_org org (clear_directive_version r)) with (of_org org r). by rewrite E.
  - intros o Ho. destruct stmt; cbn; try done. by rewrite lookup_alter_ne.
  - destruct stmt; cbn; try done. induction (holds d) as [|h l IH]; cbn; [done|].
    rewrite (andb_comm (h_org h =? org)%string). destruct (h_cleared h && (h_org h =? org)%string)%bool eqn:E; cbn; [done|]. by rewrite E, IH.
Qed.

Lemma jobs_spares p g : keeps (spares st org uris) (on_db (update_job p g)).
Proof. by apply db_spares. Qed.
Lemma receipt_spares job s r : keeps (spares st org uris) (write_receipt job s r).
Proof. by apply db_spares. Qed.
Lemma audit_spares job org' a : keeps (spares st org uris) (audit_append job org' a).
Proof. by apply db_spares. Qed.

Lemma ch_mutate_spares f t : keeps (spares st org uris) (ch_mutate_table f org t).
Proof.
  intros w. unfold ch_mutate_table, mbind, get_stores. destruct (ch_rows (stores w) !! t) as [rows|] eqn:E; [|by cbn; split].
  destruct (f_ch_mutate f t); [by split|]. destruct (f_ch_late f t); [by split|]. split; cbn; try done.
  intros t'. destruct (decide (t = t')) as [<- |Hne]; [|by rewrite lookup_insert_ne].
  rewrite lookup_insert_eq, E. cbn. by rewrite filter_idem.
Qed.

Lemma scan_delete_spares f p : p ∈ redis_prefixes org -> keeps (spares st org uris) (scan_delete f p).
Proof.
  intros Hp w. unfold scan_delete, mbind, get_stores. destruct (f_redis f p); split; cbn; try done.
  - intros k Hk Hf. specialize (Hf p Hp). rewrite elem_of_difference, elem_of_filter. split; [done|]. rewrite Hf. by intros [? _].
  - intros k Hk Hf. specialize (Hf p Hp). by apply elem_of_filter.
Qed.

Lemma delete_key_spares f key :
  (forall k, lstrip_slash key = k -> String.prefix (org +:+ "/") k = true \/
             exists u, u ∈ uris /\ parse_s3_uri u = Ok (s3_bucket st, key)) ->
  keeps (spares st org uris) (delete_key f st key).
Proof.
  intros Hk w. unfold delete_key. destruct (f_delete f key); [by split|]. split; cbn; try done.
  intros b k Hin Hsafe. apply elem_of_difference. split; [done|]. intros [= -> ->]%elem_of_singleton.
  destruct Hsafe as [|[Hp Hu]]; [done|]. destruct (Hk _ eq_refl) as [?|(u & Hu1 & Hu2)]; [congruence|]. by apply (Hu u key).
Qed.

Lemma delete_uri_spares f u : u ∈ uris -> keeps (spares st org uris) (delete_uri f st u).
Proof.
  intros Hu. unfold delete_uri, require_endpoint. destruct (parse_s3_uri u) as [[b k]|e] eqn:E; [|apply keeps_raise; exact _].
  apply keeps_bind; [exact _|keeps_walk|]. intros _. destruct (b =? s3_bucket st)%string eqn:Eb; [|apply keeps_raise; exact _].
  bools. subst.
  apply delete_key_spares. intros k' _. right. eauto.
Qed.

Lemma delete_org_prefix_spares f : plain_org org = true -> keeps (spares st org uris) (delete_org_prefix f st org).
Proof.
  intros Hp w. unfold delete_org_prefix, require_endpoint, list_keys, mbind, get_stores. destruct (f_endpoint f); [done|]. cbn.
  destruct (f_list f); [done|]. cbn. apply (keeps_for (spares st org uris)). intros key (bk & -> & Hf)%list_elem_of_fmap.
  apply list_elem_of_In, filter_In in Hf as [_ Hf]. bools. apply delete_key_spares. intros k <-. left.
  by rewrite (lstrip_slash_plain org) by eauto using prefix_app.
Qed.

Lemma stage_objectstore_spares f : plain_org org = true -> keeps (spares st org uris) (stage_objectstore f st org uris).
Proof.
  intros Hp. unfold stage_objectstore. keeps_walk; [by apply delete_uri_spares|by apply delete_org_prefix_spares].
Qed.
Lemma stage_redis_spares f : keeps (spares st org uris) (stage_redis f org).
Proof. unfold stage_redis. keeps_walk. by apply scan_delete_spares. Qed.
Lemma stage_clickhouse_spares f : keeps (spares st org uris) (stage_clickhouse f org).
Proof. unfold stage_clickhouse, ch_wait_absent, ch_count_org. keeps_walk; auto using ch_mutate_spares. Qed.
Lemma stage_postgres_spares f : keeps (spares st org uris) (stage_postgres f org).
Proof.
  unfold stage_postgres. generalize 0%nat. induction (_ ++ _) as [|stmt l IH]; intros n; cbn; keeps_walk; auto using statement_spares.
Qed.
End Spares.

(** Deleting one organization spares the others: whatever fails, either
    phase of a run leaves the rows of other organizations in every table, their
    organization rows, every hold but the organization's own cleared ones, the
    other organizations' ClickHouse rows, every Redis key outside the nine
    prefixes of the organization, and every object that is neither under its
    prefix nor named by its archived URIs. *)
Theorem run_spares_other_organizations st f job org uris w :
  plain_org org = true ->
  spares st org uris w (claim_and_purge_postgres f job org w).2 /\
  spares st org uris w (run_post_postgres f st job org uris w).2.
Proof.
  intros Hp. split.
  - apply (fun H : keeps (spares st org uris) _ => H w). unfold_saga. unfold resolve_archived_uris.
    keeps_walk; auto using jobs_spares, receipt_spares, audit_spares, stage_postgres_spares.
  - apply (fun H : keeps (spares st org uris) _ => H w). unfold_saga.
    keeps_walk; auto using jobs_spares, receipt_spares, audit_spares, stage_objectstore_spares, stage_redis_spares, stage_clickhouse_spares.
Qed.

(** ** When a run succeeds *)

Definition no_faults : Faults := {|
  f_statement := fun _ => false; f_commit := false; f_publish := false; f_ch_mutate := fun _ => false; f_ch_late := fun _ => false;
  f_ch_count := fun _ => false; f_redis := fun _ => None; f_endpoint := false; f_list := false; f_delete := fun _ => false;
  f_record := false |}.

Lemma mfor_total {A} (I : list A -> World -> Prop) (g : A -> M unit) l w :
  (forall pre x w, x ∈ l -> I pre w -> exists w', g x w = (Ok tt, w') /\ I (pre ++ [x]) w') ->
  I [] w -> exists w', mfor g l w = (Ok tt, w') /\ I l w'.
Proof.
  intros H Hw. cut (forall pre w, I pre w -> exists w', mfor g l w = (Ok tt, w') /\ I (pre ++ l) w'); [intros H'; by apply (H' [])|].
  clear w Hw. induction l as [|x l IH]; intros pre w Hw; cbn; [exists w; by rewrite app_nil_r|].
  destruct (H pre x w) as (w1 & E1 & H1); [left|done|].
  edestruct IH as (w2 & E2 & H2); [|exact H1|].
  { intros pre' y w' Hy. apply H. by right. }
  exists w2. unfold mbind. rewrite E1, E2. by rewrite <- app_assoc in H2.
Qed.

Lemma stage_postgres_total org w : exists w', stage_postgres no_faults org w = (Ok tt, w').
Proof.
  unfold stage_postgres. generalize 0%nat, w. clear w. induction (_ ++ _) as [|stmt l IH]; intros n w; cbn; [eauto|]. apply IH.
Qed.

Lemma stage_redis_total org w : exists w', stage_redis no_faults org w = (Ok tt, w').
Proof. destruct (mfor_total (fun _ _ => True) (scan_delete no_faults) (redis_prefixes org) w) as (w' & E & _); [|done|eauto]. intros; cbn; eauto. Qed.

Lemma ch_mutate_total org t w :
  exists w', ch_mutate_table no_faults org t w = (Ok tt, w') /\
    (forall rows, ch_rows (stores w') !! t = Some rows -> org ∉ rows).
Proof.
  unfold ch_mutate_table, mbind, get_stores. destruct (ch_rows (stores w) !! t) as [rows|] eqn:E; cbn.
  - eexists. split; [done|]. cbn. intros rows'. rewrite lookup_insert_eq. intros [= <-] [_ Hf]%list_elem_of_In%filter_In.
    by rewrite String.eqb_refl in Hf.
  - exists w. split; [done|]. congruence.
Qed.

Lemma ch_wait_total org t w :
  (forall rows, ch_rows (stores w) !! t = Some rows -> org ∉ rows) -> ch_wait_absent no_faults org t w = (Ok tt, w).
Proof.
  intros H. unfold ch_wait_absent, ch_count_org, mbind, get_stores. destruct (ch_rows (stores w) !! t) as [rows|]; cbn; [|done].
  assert (List.filter (fun o => (o =? org)%string) rows = []) as ->; [|done].
  specialize (H rows eq_refl). induction rows as [|o rows IH]; [done|]. cbn. apply not_elem_of_cons in H as [H1 H2].
  destruct (o =? org)%string eqn:E; [bools; congruence|auto].
Qed.

Lemma stage_clickhouse_total org w : exists w', stage_clickhouse no_faults org w = (Ok tt, w').
Proof.
  pose (I := fun (l : list string) (x : World) => forall t rows, t ∈ l -> ch_rows (stores x) !! t = Some rows -> org ∉ rows).
  destruct (mfor_total I (ch_mutate_table no_faults org) CH_TABLES w) as (w1 & E1 & H1).
  - intros pre t w0 _ HI. destruct (ch_mutate_total org t w0) as (w1 & E & Ht). exists w1. split; [done|].
    intros t' rows [Hp| ->%list_elem_of_singleton]%elem_of_app Hr Hin; [|by apply (Ht rows)].
    apply (kept _ _ _ _ _ (ch_mutate_shrink _ _ _)) in E. destruct (ss_ch _ _ E _ _ _ Hr Hin) as (rows0 & ? & ?). by eapply HI.
  - by intros t rows ?%elem_of_nil.
  - destruct (mfor_total (fun _ x => x = w1) (ch_wait_absent no_faults org) CH_TABLES w1) as (w2 & E2 & _).
    + intros pre t w0 Ht ->. exists w1. split; [|done]. apply ch_wait_total. intros rows. by apply H1.
    + done.
    + exists w2. unfold stage_clickhouse, mbind. by rewrite E1.
Qed.

(** URIs the object store client accepts. *)
Definition deletable (st : Settings) (uris : list string) : Prop :=
  forall u, u ∈ uris -> exists k, parse_s3_uri u = Ok (s3_bucket st, k).

Lemma stage_objectstore_total st org uris w : deletable st uris -> exists w', stage_objectstore no_faults st org uris w = (Ok tt, w').
Proof.
  intros H. destruct (mfor_total (fun _ _ => True) (delete_uri no_faults st) uris w) as (w1 & E1 & _); [|done|].
  { intros pre u w0 Hu _. destruct (H u Hu) as [k Hk]. unfold delete_uri. rewrite Hk, String.eqb_refl. cbn. eauto. }
  unfold stage_objectstore, mbind at 1. rewrite E1. unfold delete_org_prefix. cbn.
  edestruct (mfor_total (fun _ _ => True) (delete_key no_faults st)) as (w2 & E2 & _); [| |by exists w2]; [|done].
  intros; cbn; eauto.
Qed.

Definition expected (deployed : list Store) (s : Store) : ReceiptStatus :=
  if bool_decide (s ∈ deployed) then Verified else NotApplicable.

(** Earlier attempts left receipts that agree with the deployed stores. *)
Definition receipts_agree (deployed : list Store) (d : Db) (job : JobId) : Prop :=
  forall s r, latest_receipt_status d job s = Some r -> r <> ReceiptFailed -> r = expected deployed s.

Lemma latest_upsert job s r d s' :
  latest_receipt_status (upsert_receipt job s r d) job s' = if bool_decide (s = s') then Some r else latest_receipt_status d job s'.
Proof.
  unfold latest_receipt_status, upsert_receipt. cbn. case_bool_decide as E; [subst; by rewrite lookup_insert_eq|].
  rewrite lookup_insert_ne; [done|]. by intros [= ->].
Qed.

(** What a stage that went through changed: its own receipt. *)
Record stage_done (job : JobId) (deployed : list Store) (s : Store) (d d' : Db) : Prop := {
  sg_own : latest_receipt_status d' job s = Some (expected deployed s);
  sg_other : forall s', s' <> s -> latest_receipt_status d' job s' = latest_receipt_status d job s';
  sg_holds : holds d' = holds d;
  sg_jobs : jobs d' = jobs d;
}.

Lemma run_optional_store_total st deployed job org s c runner w :
  parse_deployed_stores (deployed_raw st) = Ok deployed -> (s ∈ deployed -> c = true) ->
  receipts_agree deployed (db w) job -> active_hold org (db w) = false ->
  keeps same_db runner -> (s ∈ deployed -> exists w', runner w = (Ok tt, w')) ->
  exists w', run_optional_store st job org s c runner w = (Ok tt, w') /\ stage_done job deployed s (db w) (db w').
Proof.
  intros Hd Hc Ha Hh Hs Hr. unfold run_optional_store, mbind at 1, get_db. destruct (receipt_terminal (db w) job s) eqn:Et.
  - exists w. split; [done|]. split; [|done|done|done]. unfold receipt_terminal in Et.
    destruct (latest_receipt_status (db w) job s) as [r|] eqn:El; [|done]. rewrite (Ha _ _ El) by (by intros ->). done.
  - unfold mbind at 1, store_is_deployed. rewrite Hd. cbn [rbind lift mret]. case_bool_decide as Ein; cbn [negb].
    + rewrite Hc by done. cbn [negb]. destruct (Hr Ein) as [w' Hw']. pose proof (kept _ _ _ _ _ Hs Hw') as Hdb.
      eexists. unfold mbind, require_no_hold, has_active_legal_hold, mbind, get_db. cbn. rewrite Hh. cbn. rewrite Hw'. cbn. split; [done|].
      cbn [db]. rewrite Hdb. split; try done; intros; rewrite latest_upsert.
      * rewrite bool_decide_eq_true_2 by done. unfold expected. by rewrite bool_decide_eq_true_2.
      * by rewrite bool_decide_eq_false_2 by congruence.
    + eexists. split; [done|]. cbn [db]. split; try done; intros; rewrite latest_upsert.
      * rewrite bool_decide_eq_true_2 by done. unfold expected. by rewrite bool_decide_eq_false_2.
      * by rewrite bool_decide_eq_false_2 by congruence.
Qed.

Lemma stage_done_agree job deployed s d d' : stage_done job deployed s d d' -> receipts_agree deployed d job -> receipts_agree deployed d' job.
Proof.
  intros [H1 H2 _ _] Ha s' r Hl Hr. destruct (decide (s' = s)) as [-> |Hne]; [congruence|]. rewrite H2 in Hl by done. by apply (Ha s' r).
Qed.

(** Every deployed store has its configuration. *)
Definition configured (st : Settings) (deployed : list Store) : Prop :=
  (clickhouse ∈ deployed -> clickhouse_configured st = true) /\ (redis ∈ deployed -> redis_configured st = true) /\
  (objectstore ∈ deployed -> objectstore_configured st = true).

Lemma optional_stages_total st deployed job org uris w :
  parse_deployed_stores (deployed_raw st) = Ok deployed -> configured st deployed -> receipts_agree deployed (db w) job ->
  active_hold org (db w) = false -> (objectstore ∈ deployed -> deletable st uris) ->
  exists w', run_optional_store_stages no_faults st job org uris w = (Ok tt, w') /\
    (forall s, s <> postgres -> latest_receipt_status (db w') job s = Some (expected deployed s)) /\
    latest_receipt_status (db w') job postgres = latest_receipt_status (db w) job postgres /\ jobs (db w') = jobs (db w).
Proof.
  intros Hd (C1 & C2 & C3) Ha Hh Hu. unfold active_hold in Hh.
  destruct (run_optional_store_total st deployed job org clickhouse (clickhouse_configured st) (stage_clickhouse no_faults org) w)
    as (w1 & E1 & D1); auto using stage_clickhouse_total with keeps.
  destruct (run_optional_store_total st deployed job org redis (redis_configured st) (stage_redis no_faults org) w1)
    as (w2 & E2 & D2); eauto using stage_redis_total, stage_done_agree with keeps.
  { unfold active_hold. by rewrite (sg_holds _ _ _ _ _ D1). }
  destruct (run_optional_store_total st deployed job org objectstore (objectstore_configured st) (stage_objectstore no_faults st org uris) w2)
    as (w3 & E3 & D3); eauto using stage_objectstore_total, stage_done_agree with keeps.
  { unfold active_hold. by rewrite (sg_holds _ _ _ _ _ D2), (sg_holds _ _ _ _ _ D1). }
  exists w3. unfold run_optional_store_stages, mbind. rewrite E1, E2, E3. split; [done|]. destruct D1, D2, D3.
  split; [|split; [|congruence]].
  - intros [] Hs; [done|..]; rewrite ?sg_other2 by done; [rewrite sg_other1 by done|..]; done.
  - by rewrite sg_other2, sg_other1, sg_other0.
Qed.

(** The URIs a run deletes: those of the first attempt. *)
Definition resolved_uris (job : JobId) (org : OrgId) (d : Db) : list string :=
  default (collect_archived_uris org d) (load_archived_uri_snapshot job d).

Lemma active_hold_spares st org uris w w' : spares st org uris w w' -> active_hold org (db w') = active_hold org (db w).
Proof.
  intros H. apply sp_holds in H. unfold active_hold.
  assert (forall l, existsb (fun h => String.eqb (h_org h) org && negb (h_cleared h))%bool l
    = existsb (fun h => String.eqb (h_org h) org && negb (h_cleared h))%bool
        (List.filter (fun h => negb (h_cleared h && String.eqb (h_org h) org)) l)) as E.
  { induction l as [|h l IH]; cbn; [done|]. destruct (h_cleared h) eqn:Ec, (h_org h =? org)%string eqn:Eo; cbn; rewrite ?Ec, ?Eo; cbn; by rewrite ?IH. }
  by rewrite E, H, <- E.
Qed.

Lemma find_job_in id j l : find_job id l = Some j -> (id, j) ∈ l.
Proof.
  induction l as [|[i j'] l IH]; cbn; [done|]. destruct (i =? id)%string eqn:E; [|intros H; right; auto].
  bools. intros [= <-]. subst. left.
Qed.

Lemma claim_job_total job org j w :
  find_job job (jobs (db w)) = Some j -> j_org j = org -> claimable (job, j) = true ->
  claim_job job org w
  = (Ok true, {| db := update_job (fun ij => is_job job org ij && claimable ij)%bool (set_status Running) (db w); stores := stores w |}).
Proof.
  intros Hj Ho Hc. unfold claim_job, mbind, get_db, on_db, mret. cbn.
  assert (existsb (fun ij => is_job job org ij && claimable ij)%bool (jobs (db w)) = true) as ->; [|done].
  apply existsb_exists. exists (job, j). split; [by apply list_elem_of_In, find_job_in|]. unfold is_job. cbn.
  by rewrite String.eqb_refl, Ho, String.eqb_refl, Hc.
Qed.

Lemma resolve_total job org w :
  exists w', resolve_archived_uris job org w = (Ok (resolved_uris job org (db w)), w') /\
    receipts (db w') = receipts (db w) /\ holds (db w') = holds (db w).
Proof.
  unfold resolve_archived_uris, resolved_uris, mbind, get_db. cbn. destruct (load_archived_uri_snapshot job (db w)); eexists; (split; [done|]); done.
Qed.

Lemma require_no_hold_total org w : active_hold org (db w) = false -> require_no_hold org w = (Ok tt, w).
Proof. intros H. unfold require_no_hold, has_active_legal_hold, mbind, get_db, mret. by rewrite H. Qed.

Lemma run_one_store_total (st : Settings) job org w :
  active_hold org (db w) = false ->
  exists w', run_one_store job org postgres (stage_postgres no_faults org) w = (Ok tt, w') /\
    latest_receipt_status (db w') job postgres = Some Verified /\
    (forall s, s <> postgres -> latest_receipt_status (db w') job s = latest_receipt_status (db w) job s) /\
    active_hold org (db w') = false.
Proof.
  intros Hh. unfold run_one_store, mbind at 1, get_db. destruct (receipt_verified (db w) job postgres) eqn:Ev.
  - exists w. unfold receipt_verified in Ev. bools. done.
  - destruct (stage_postgres_total org w) as [w' Hw']. pose proof (kept _ _ _ _ _ (stage_postgres_spares st org [] no_faults) Hw') as Hsp.
    pose proof (active_hold_spares _ _ _ _ _ Hsp) as Ha. apply stage_postgres_ok in Hw' as Hok. destruct Hok as (Hp & _).
    exists {| db := upsert_receipt job postgres Verified (db w'); stores := stores w' |}.
    unfold mbind. rewrite (require_no_hold_total org w Hh), Hw'. split; [reflexivity|]. cbn [db]. split; [by rewrite latest_upsert, bool_decide_eq_true_2|]. split; [|exact (eq_trans Ha Hh)].
    intros s Hs. rewrite latest_upsert, bool_decide_eq_false_2 by congruence. unfold latest_receipt_status. by rewrite (pu_receipts _ _ Hp).
Qed.

Lemma claim_and_purge_total (st : Settings) job org j w :
  find_job job (jobs (db w)) = Some j -> j_org j = org -> claimable (job, j) = true -> active_hold org (db w) = false ->
  exists w', claim_and_purge_postgres no_faults job org w = (Ok (inr (resolved_uris job org (db w))), w') /\
    latest_receipt_status (db w') job postgres = Some Verified /\
    (forall s, s <> postgres -> latest_receipt_status (db w') job s = latest_receipt_status (db w) job s) /\
    active_hold org (db w') = false.
Proof.
  intros Hj Ho Hc Hh. unfold claim_and_purge_postgres, mcatch, transaction.
  set (w1 := {| db := update_job (fun ij => is_job job org ij && claimable ij)%bool (set_status Running) (db w); stores := stores w |}).
  assert (finish_if_hold_blocked job org w1 = (Ok None, w1)) as Hf.
  { unfold finish_if_hold_blocked, has_active_legal_hold, mbind, get_db, active_hold. cbn. unfold active_hold in Hh. by rewrite Hh. }
  assert (resolved_uris job org (db w1) = resolved_uris job org (db w)) as Hu.
  { unfold resolved_uris, load_archived_uri_snapshot, w1. cbn [db]. rewrite find_job_update, Hj. simpl. by destruct (_ && _)%bool. }
  destruct (resolve_total job org w1) as (w2 & E2 & R2 & H2). rewrite Hu in E2.
  assert (active_hold org (db w2) = false) as Hh2 by (unfold active_hold; rewrite H2; exact Hh).
  destruct (run_one_store_total st job org w2 Hh2) as (w3 & E3 & P3 & O3 & A3).
  exists w3. unfold mbind. rewrite (claim_job_total job org j w Hj Ho Hc). cbn [negb]. fold w1. rewrite Hf, E2, E3. cbn [mret f_commit no_faults].
  split; [done|]. split; [done|]. split; [|done]. intros s Hs. rewrite O3 by done. unfold latest_receipt_status. by rewrite R2.
Qed.

(** C37: A deletion without faults completes: a pending or failed job of an
    organization without an active hold, whose deployed stores are configured,
    whose archived URIs name objects of the session bucket and whose earlier
    receipts agree with the deployed stores, ends succeeded when nothing fails
    during the run, whatever earlier attempts did. *)
Theorem faultless_run_succeeds st deployed job org j w :
  find_job job (jobs (db w)) = Some j -> j_org j = org -> claimable (job, j) = true -> active_hold org (db w) = false ->
  parse_deployed_stores (deployed_raw st) = Ok deployed -> configured st deployed -> receipts_agree deployed (db w) job ->
  (objectstore ∈ deployed -> deletable st (resolved_uris job org (db w))) ->
  exists w' j', run_delete no_faults no_faults st job org w = (Ok RSucceeded, w') /\
    find_job job (jobs (db w')) = Some j' /\ j_org j' = org /\ j_status j' = Succeeded.
Proof.
  intros Hj Ho Hc Hh Hd Hcfg Ha Hu. destruct (claim_and_purge_total st job org j w Hj Ho Hc Hh) as (w1 & E1 & P1 & O1 & A1).
  assert (receipts_agree deployed (db w1) job) as Ha1.
  { intros s r Hl Hr. destruct (decide (s = postgres)) as [-> |Hs]; [|rewrite O1 in Hl by done; by apply (Ha s r)].
    rewrite P1 in Hl. injection Hl as <-. unfold expected. rewrite bool_decide_eq_true_2; [done|]. by eapply parse_deployed_postgres. }
  destruct (optional_stages_total st deployed job org _ w1 Hd Hcfg Ha1 A1 Hu) as (w2 & E2 & R2 & P2 & J2).
  destruct (known_evolves job org w w1 (kept _ _ _ _ _ (claim_and_purge_evolves no_faults job org) E1)) as (j1 & Hj1 & Ho1); [by exists j|].
  assert (receipts_satisfied deployed (db w2) job = true) as Hsat.
  { apply receipts_satisfied_spec. intros s. destruct (decide (s = postgres)) as [-> |Hs]; [|by apply R2].
    rewrite P2, P1, bool_decide_eq_true_2; [done|]. by eapply parse_deployed_postgres. }
  eexists _, _. unfold run_delete, mbind at 1. rewrite E1. unfold run_post_postgres, mbind at 1.
  assert (mcatch (publish_model_policy_invalidate no_faults st) (record_job_failed no_faults job org) w1 = (Ok tt, w1)) as ->.
  { unfold mcatch, publish_model_policy_invalidate. by destruct (redis_url st =? "")%string. }
  unfold mcatch at 1, transaction, mbind at 1. rewrite E2. unfold finalize_job, all_receipts_satisfied, mbind. rewrite Hd. cbn [lift mret get_db].
  rewrite Hsat. cbn [negb audit_append on_db finish_job mret f_commit no_faults]. split; [done|]. cbn [db].
  rewrite find_job_update. cbn [jobs with_audit]. rewrite J2, Hj1. simpl. split; [done|].
  unfold is_job. cbn. rewrite String.eqb_refl, Ho1, String.eqb_refl. done.
Qed.

(** ** A sample deployment *)

Module DeletionSample.

Definition settings : Settings := {|
  deployed_raw := "postgres, ClickHouse,redis,objectstore"; clickhouse_dsn := "http://clickhouse:8123"; redis_url := "redis://redis";
  s3_endpoint := "https://s3"; s3_bucket := "sessions" |}.

Definition row (org id : string) (archived : option string) : Row :=
  {| r_org := org; r_id := id; r_archived_to := archived; r_revision := 3; r_directive_version := None |}.

Definition world0 : World := {|
  db := {| jobs := []; receipts := ∅; holds := [{| h_org := "o1"; h_cleared := true |}];
           orgs := {[ "o1"%string := {| o_cancelled := false; o_deleted := false |};
                      "o2"%string := {| o_cancelled := false; o_deleted := false |} ]};
           tables := {[ "session_events"%string := [row "o1" "e1" (Some "s3://sessions/archive/e1"%string); row "o2" "e2" None];
                        "memories"%string := [row "o1" "m1" None; row "o2" "m2" None] ]};
           outbox := []; audit := [] |};
  stores := {| ch_rows := {[ "llm_traces"%string := ["o1"; "o2"; "o1"]%string ]};
               redis_keys := {[ "o1:memory:m1"; "session:o1:x"; "o2:memory:m2" ]}%string;
               objects := {[ ("sessions", "archive/e1"); ("sessions", "o1/s1"); ("sessions", "o2/s2") ]}%string |} |}.

Definition start : Sys := {| world := world0; queue := []; requests := []; running := [] |}.
Definition requested : Sys := {| world := world0; queue := [("j1", "o1")]%string; requests := [("j1", "o1")]%string; running := [] |}.
Definition committed : Sys :=
  {| world := map_db (commit_deletion_request "j1" "o1") world0; queue := [("j1", "o1")]%string; requests := []; running := [] |}.
Definition purge (f : Faults) := claim_and_purge_postgres f "j1" "o1" (world committed).
Definition purged : Sys :=
  {| world := (purge no_faults).2; queue := []; requests := []; running := [("j1", "o1", ["s3://sessions/archive/e1"])]%string |}.
Definition finish (f : Faults) := run_post_postgres f settings "j1" "o1" ["s3://sessions/archive/e1"%string] (world purged).
Definition finished (f : Faults) : Sys := {| world := (finish f).2; queue := []; requests := []; running := [] |}.

(** ClickHouse refuses every mutation. *)
Definition clickhouse_down : Faults := {|
  f_statement := fun _ => false; f_commit := false; f_publish := false; f_ch_mutate := fun _ => true; f_ch_late := fun _ => false;
  f_ch_count := fun _ => false; f_redis := fun _ => None; f_endpoint := false; f_list := false; f_delete := fun _ => false;
  f_record := false |}.

Lemma reaches_purged : steps settings start purged.
Proof.
  apply (rtc_l _ _ requested); [by apply (step_request settings start "j1" "o1")|].
  apply (rtc_l _ _ committed); [by apply (step_request_commit settings requested "j1" "o1" [] [])|].
  apply rtc_once.
  pose proof (step_claim settings committed "j1" "o1" no_faults [] [] false (purge no_faults).1 (purge no_faults).2 eq_refl
    (surjective_pairing _)) as H.
  assert ((purge no_faults).1 = Ok (inr ["s3://sessions/archive/e1"%string])) as E by (vm_compute; reflexivity). rewrite E in H. exact H.
Qed.

Lemma reaches_finished f : steps settings start (finished f).
Proof.
  eapply rtc_r; [apply reaches_purged|].
  exact (step_finish settings purged "j1" "o1" ["s3://sessions/archive/e1"%string] f [] [] (finish f).1 (finish f).2 eq_refl
    (surjective_pairing _)).
Qed.

Definition succeeded_job : Job := {| j_org := "o1"; j_status := Succeeded; j_snapshot := Some ["s3://sessions/archive/e1"%string] |}.

Lemma start_initial : initial start.
Proof. done. Qed.

Lemma succeeded_job_has_erased_witness :
  exists deployed, parse_deployed_stores (deployed_raw settings) = Ok deployed /\
    forall store, latest_receipt_status (db (world (finished no_faults))) "j1" store
                  = Some (if bool_decide (store ∈ deployed) then Verified else NotApplicable)
                  /\ (store ∈ deployed -> erased settings succeeded_job store (world (finished no_faults))).
Proof.
  apply (succeeded_job_has_erased settings start (finished no_faults) "j1" succeeded_job start_initial (reaches_finished no_faults)).
  - vm_compute. reflexivity.
  - reflexivity.
Defined.

(** The hold is set between the two phases. *)
Definition held : World :=
  map_db (fun d => with_holds d ({| h_org := "o1"; h_cleared := false |} :: holds d)) (world purged).

Lemma hold_blocks_deletion_witness : same_data held (run_post_postgres no_faults settings "j1" "o1" [] held).2.
Proof. apply (hold_blocks_deletion settings no_faults "j1" "o1" [] held). vm_compute. reflexivity. Defined.

Lemma run_spares_other_organizations_witness :
  spares settings "o1" ["s3://sessions/archive/e1"%string] (world purged) (finish no_faults).2.
Proof. apply (run_spares_other_organizations settings no_faults "j1" "o1"). reflexivity. Defined.

(** After the purge has committed the organization row is deleted, and the job
    that failed on ClickHouse cannot be requested again. *)
Lemma finished_stranded : stranded "o1" (finished clickhouse_down).
Proof.
  split; [split; by intros ?%elem_of_nil|].
  exists {| o_cancelled := true; o_deleted := true |}. split; [vm_compute; reflexivity|done].
Qed.

Lemma stranded_deletion_is_final_witness :
  job_statuses "o1" (db (world (finished clickhouse_down))) = [("j1"%string, Failed)] /\
  deletion_request_allowed "o1" (db (world (finished clickhouse_down))) = Raise NOT_FOUND.
Proof.
  destruct (stranded_deletion_is_final settings (finished clickhouse_down) (finished clickhouse_down) "o1" finished_stranded
    (rtc_refl _ _)) as (_ & _ & H). split; [vm_compute; reflexivity|exact H].
Defined.

(** The job that failed on ClickHouse, its task sent again. *)
Definition failed_job : Job := {| j_org := "o1"; j_status := Failed; j_snapshot := Some ["s3://sessions/archive/e1"%string] |}.

Lemma retry_receipts : receipts_agree STORES (db (world (finished clickhouse_down))) "j1".
Proof. intros [] r; vm_compute; intros [= <-] _; reflexivity. Qed.

Lemma faultless_run_succeeds_witness :
  exists w' j', run_delete no_faults no_faults settings "j1" "o1" (world (finished clickhouse_down)) = (Ok RSucceeded, w') /\
    find_job "j1" (jobs (db w')) = Some j' /\ j_org j' = "o1"%string /\ j_status j' = Succeeded.
Proof.
  apply (faultless_run_succeeds settings STORES "j1" "o1" failed_job).
  - vm_compute. reflexivity.
  - reflexivity.
  - reflexivity.
  - vm_compute. reflexivity.
  - vm_compute. reflexivity.
  - done.
  - exact retry_receipts.
  - intros _ u Hu. assert (resolved_uris "j1" "o1" (db (world (finished clickhouse_down))) = ["s3://sessions/archive/e1"%string]) as E
      by (vm_compute; reflexivity).
    rewrite E in Hu. apply list_elem_of_singleton in Hu as ->. exists "archive/e1"%string. vm_compute. reflexivity.
Defined.

(** The task is enqueued before the job row is committed: a worker that is
    faster finds no job, and the job stays pending. *)
Definition skipped : Sys := {| world := (claim_and_purge_postgres no_faults "j1" "o1" world0).2; queue := [];
                               requests := [("j1", "o1")]%string; running := [] |}.
Definition overtaken : Sys :=
  {| world := map_db (commit_deletion_request "j1" "o1") (world skipped); queue := []; requests := []; running := [] |}.

Lemma overtaken_request_stays_pending :
  steps settings start overtaken /\ idle "o1" overtaken /\
  job_statuses "o1" (db (world overtaken)) = [("j1"%string, Pending)] /\
  deletion_request_allowed "o1" (db (world overtaken)) = Raise VALIDATION_ERROR.
Proof.
  split; [|split; [split; by intros ?%elem_of_nil|split; vm_compute; reflexivity]].
  apply (rtc_l _ _ requested); [by apply (step_request settings start "j1" "o1")|].
  apply (rtc_l _ _ skipped); [|apply rtc_once; by apply (step_request_commit settings skipped "j1" "o1" [] [])].
  exact (step_claim settings requested "j1" "o1" no_faults [] [] false _ _ eq_refl (surjective_pairing _)).
Qed.

(** A hold set after the request blocks the job; clearing it later does not
    bring the deletion back, and a second request is refused until the
    organization is suspended. *)
Definition held_request : Sys := {|
  world := map_db (fun d => with_holds d ({| h_org := "o1"; h_cleared := false |} :: holds d)) (world committed);
  queue := queue committed; requests := []; running := [] |}.
Definition blocked : Sys :=
  {| world := (claim_and_purge_postgres no_faults "j1" "o1" (world held_request)).2; queue := []; requests := []; running := [] |}.
Definition cleared : Sys := {|
  world := map_db (fun d => with_holds d ((fun h => if String.eqb (h_org h) "o1" then {| h_org := "o1"; h_cleared := true |} else h)
                                          <$> holds d)) (world blocked);
  queue := []; requests := []; running := [] |}.

Lemma cleared_hold_leaves_deletion_blocked :
  steps settings start cleared /\ idle "o1" cleared /\ active_hold "o1" (db (world cleared)) = false /\
  job_statuses "o1" (db (world cleared)) = [("j1"%string, HoldBlocked)] /\
  deletion_request_allowed "o1" (db (world cleared)) = Raise VALIDATION_ERROR /\
  exists d, suspend_organization "o1" (db (world cleared)) = Ok d /\ deletion_request_allowed "o1" d = Ok tt.
Proof.
  split; [|split; [split; by intros ?%elem_of_nil|]].
  - apply (rtc_l _ _ requested); [by apply (step_request settings start "j1" "o1")|].
    apply (rtc_l _ _ committed); [by apply (step_request_commit settings requested "j1" "o1" [] [])|].
    apply (rtc_l _ _ held_request); [exact (step_set_hold settings committed "o1")|].
    apply (rtc_l _ _ blocked); [|apply rtc_once; exact (step_clear_hold settings blocked "o1")].
    pose proof (step_claim settings held_request "j1" "o1" no_faults [] [] false _ _ eq_refl (surjective_pairing _)) as H.
    assert ((claim_and_purge_postgres no_faults "j1" "o1" (world held_request)).1 = Ok (inl RHoldBlocked)) as E by (vm_compute; reflexivity).
    rewrite E in H. exact H.
  - split; [vm_compute; reflexivity|]. split; [vm_compute; reflexivity|].
    apply (suspension_reopens_deletion "o1" {| o_cancelled := true; o_deleted := false |});
      first [vm_compute; reflexivity | vm_compute; discriminate].
Qed.
End DeletionSample.
