(* ===== verification/SessionToken.v ===== *)
(** * Operator session tokens ([services/api/app/session_stub.py])

    The JWT helpers of the management API: splitting and bounding a token, the
    header and payload readers, the two verifiers, the claim checks, the
    provisional HS256 issuer and the CSRF pair.  Signature primitives, the JSON
    text syntax and Python's [str] and [int] of values other than texts are the
    [Jwt] interface; times and random identifiers are arguments. *)

From S2P Require Import Prelude PyText Wire.

(** ** Values *)

(** What [json.loads] returns; a dict has its keys once. *)
Inductive FloatValue := Finite (truncated : Z) (nonzero : bool) | Infinite | NotANumber.

Inductive JsonValue :=
| JvNull
| JvBool (b : bool)
| JvInt (n : Z)
| JvFloat (f : FloatValue)
| JvText (s : pystr)
| JvList (l : list JsonValue)
| JvDict (d : list (pystr * JsonValue)).

(** [json.loads] of bytes: they may not decode as text, which is not a
    [JSONDecodeError]. *)
Inductive JsonOutcome := JsonValueOf (v : JsonValue) | JSONDecodeError | UndecodableBytes.

Inductive PemOutcome (Key : Type) := PemRSA (k : Key) | PemOtherKey | PemValueError.
Arguments PemRSA {Key} k.
Arguments PemOtherKey {Key}.
Arguments PemValueError {Key}.

Class Jwt := {
  RSAKey : Type;
  json_loads : bytes -> JsonOutcome;
  json_dumps : JsonValue -> bytes;
  (** [str(v)] of a value that is not a text *)
  str_value : JsonValue -> pystr;
  (** [int(text)] *)
  int_text : pystr -> option Z;
  (** [hmac.new(key, message, sha256).digest()] *)
  hmac_sha256 : bytes -> bytes -> bytes;
  load_pem_public_key : bytes -> PemOutcome RSAKey;
  (** [key.verify(sig, body, PKCS1v15(), SHA256())] does not raise *)
  rsa_verifies : RSAKey -> bytes -> bytes -> bool;
}.

(** Exceptions: [SessionStubError(message)] and those that escape. *)
Inductive TokenError :=
| SessionStubError (msg : string)
| UnicodeDecodeEscapes
| UnicodeEncodeEscapes
| OverflowEscapes.

Definition SESSION_KIND_ACCESS : pystr := lit "access".
Definition SESSION_KIND_REFRESH : pystr := lit "refresh".
Definition SESSION_KIND_STEP_UP : pystr := lit "step_up".
Definition MAX_SESSION_TOKEN_LEN : Z := 8192.
Definition MAX_JWT_PART_LEN : Z := 4096.

(** ** Base 64 *)

Definition b64_char (v : Z) : Z :=
  if v <? 26 then 65 + v else if v <? 52 then 71 + v else if v <? 62 then v - 4 else if v =? 62 then 45 else 95.

(** The value of a character of either alphabet. *)
Definition b64_value (c : Z) : option Z :=
  if (65 <=? c) && (c <=? 90) then Some (c - 65)
  else if (97 <=? c) && (c <=? 122) then Some (c - 71)
  else if (48 <=? c) && (c <=? 57) then Some (c + 4)
  else if (c =? 43) || (c =? 45) then Some 62
  else if (c =? 47) || (c =? 95) then Some 63
  else None.

(** [_b64url]: no padding. *)
Fixpoint b64url (data : bytes) : pystr :=
  match data with
  | [] => []
  | [a] => [b64_char (a / 4); b64_char (a mod 4 * 16)]
  | [a; b] => [b64_char (a / 4); b64_char (a mod 4 * 16 + b / 16); b64_char (b mod 16 * 4)]
  | a :: b :: c :: rest =>
      b64_char (a / 4) :: b64_char (a mod 4 * 16 + b / 16) :: b64_char (b mod 16 * 4 + c / 64) :: b64_char (c mod 64) :: b64url rest
  end.

(** [binascii.a2b_base64], not strict: characters outside the alphabet are
    skipped, a complete padding ends the input.  [quad] counts the characters of
    the group, [left] holds the bits of the last one that are not emitted. *)
Fixpoint a2b_base64 (s : pystr) (quad pads left : Z) : option bytes :=
  match s with
  | [] => if quad =? 0 then Some [] else None
  | c :: s =>
      if c =? 61 then
        if 2 <=? quad then
          if 4 <=? quad + (pads + 1) then Some [] else a2b_base64 s quad (pads + 1) left
        else a2b_base64 s quad pads left
      else match b64_value c with
           | None => a2b_base64 s quad pads left
           | Some v =>
               if quad =? 0 then a2b_base64 s 1 0 v
               else if quad =? 1 then cons (left * 4 + v / 16) <$> a2b_base64 s 2 0 (v mod 16)
               else if quad =? 2 then cons (left * 16 + v / 4) <$> a2b_base64 s 3 0 (v mod 4)
               else cons (left * 64 + v) <$> a2b_base64 s 0 0 0
           end
  end.

Definition is_ascii (s : pystr) : bool := forallb (fun c => (0 <=? c) && (c <? 128)) s.

(** [_b64url_decode] *)
Definition b64url_decode (data : pystr) : result TokenError bytes :=
  let pad := replicate (Z.to_nat ((- zlen data) mod 4)) 61 in
  if is_ascii data then
    match a2b_base64 (data ++ pad) 0 0 0 with
    | Some b => Ok b
    | None => Raise (SessionStubError "bad encoding")
    end
  else Raise (SessionStubError "bad encoding").

Definition encode_ascii (s : pystr) : result TokenError bytes := if is_ascii s then Ok s else Raise UnicodeEncodeEscapes.

(** ** Claims *)

Record SessionClaims := {
  sc_sub : pystr;
  sc_org_id : Z;
  sc_permissions : Z;
  sc_session_kind : pystr;
  sc_exp : Z;
  sc_iat : Z;
  sc_jti : pystr;
  sc_verify_method : string;
  sc_session_id : pystr;
  sc_family_id : option pystr;
  sc_action : option pystr;
}.

Record TokenIssueOpts := {
  io_secret : bytes;
  io_issuer : pystr;
  io_audience : pystr;
  io_org_id : Z;
  io_permissions : Z;
  io_subject : pystr;
  io_session_kind : pystr;
  io_ttl_seconds : Z;
  io_session_id : option pystr;
  io_family_id : option pystr;
  io_action : option pystr;
}.

(** The secret and the key material as their UTF-8 bytes; an empty one counts as
    absent. *)
Record TokenVerifyOpts := {
  vo_secret : option bytes;
  vo_issuer : pystr;
  vo_audience : pystr;
  vo_expect_kind : pystr;
  vo_public_keys_pem : option bytes;
  vo_key_id : pystr;
}.

Definition present {A : Type} (v : option (list A)) : option (list A) := match v with Some (_ :: _) => v | _ => None end.

(** [d.get(k)] *)
Definition dict_get (d : list (pystr * JsonValue)) (k : pystr) : option JsonValue :=
  snd <$> List.find (fun kv => bool_decide (kv.1 = k)) d.

Definition truthy (v : JsonValue) : bool :=
  match v with
  | JvNull => false
  | JvBool b => b
  | JvInt n => negb (n =? 0)
  | JvFloat (Finite _ nz) => nz
  | JvFloat _ => true
  | JvText s => negb (bool_decide (s = []))
  | JvList l => match l with [] => false | _ => true end
  | JvDict d => match d with [] => false | _ => true end
  end.

Record JWTParts := { header_b64 : pystr; payload_b64 : pystr; sig_b64 : pystr }.

Section Tokens.
Context `{UnicodeDB} `{Jwt}.

(** [str(v)] and [int(v)] *)
Definition py_str (v : JsonValue) : pystr := match v with JvText s => s | _ => str_value v end.

(** [TypeError] and [ValueError] are [None]. *)
Definition py_int (v : JsonValue) : result TokenError (option Z) :=
  match v with
  | JvBool b => Ok (Some (if b then 1 else 0))
  | JvInt n => Ok (Some n)
  | JvFloat (Finite t _) => Ok (Some t)
  | JvFloat Infinite => Raise OverflowEscapes
  | JvText s => Ok (int_text s)
  | JvFloat NotANumber | JvNull | JvList _ | JvDict _ => Ok None
  end.

Definition int_or (msg : string) (v : JsonValue) : result TokenError Z :=
  let* n := py_int v in match n with Some n => Ok n | None => Raise (SessionStubError msg) end.

(** [token.split(".")] *)
Fixpoint split_dot (s : pystr) : list pystr :=
  match s with
  | [] => [[]]
  | c :: s =>
      if c =? 46 then [] :: split_dot s
      else match split_dot s with
           | w :: l => (c :: w) :: l
           | [] => [[c]]
           end
  end.

Definition reject_oversized_parts (parts : list pystr) : bool := existsb (fun p => MAX_JWT_PART_LEN <? zlen p) parts.

Definition split_jwt (token : pystr) : result TokenError JWTParts :=
  if MAX_SESSION_TOKEN_LEN <? zlen token then Raise (SessionStubError "token too large")
  else match split_dot token with
       | [h; p; s] =>
           if reject_oversized_parts [h; p; s] then Raise (SessionStubError "token too large")
           else Ok {| header_b64 := h; payload_b64 := p; sig_b64 := s |}
       | _ => Raise (SessionStubError "malformed token")
       end.

(** [json.loads(_b64url_decode(part))] that must be a dict: a
    [JSONDecodeError] and a decoding [SessionStubError] are renamed, a
    [UnicodeDecodeError] is not caught. *)
Definition read_dict (msg : string) (part : pystr) : result TokenError (list (pystr * JsonValue)) :=
  match b64url_decode part with
  | Raise (SessionStubError _) => Raise (SessionStubError msg)
  | Raise e => Raise e
  | Ok raw =>
      match json_loads raw with
      | JsonValueOf (JvDict d) => Ok d
      | JsonValueOf _ | JSONDecodeError => Raise (SessionStubError msg)
      | UndecodableBytes => Raise UnicodeDecodeEscapes
      end
  end.

(** [str(header.get(k, ""))] *)
Definition header_text (k : string) (header : pystr) : result TokenError pystr :=
  let* d := read_dict "bad header" header in
  Ok (match dict_get d (lit k) with Some v => py_str v | None => [] end).
Definition header_alg : pystr -> result TokenError pystr := header_text "alg".
Definition header_typ : pystr -> result TokenError pystr := header_text "typ".

Definition header_kid (header : pystr) : result TokenError pystr :=
  let* d := read_dict "bad header" header in
  match dict_get d (lit "kid") with
  | Some (JvText s) => match strip_space s with [] => Raise (SessionStubError "key id missing") | k => Ok k end
  | _ => Raise (SessionStubError "key id missing")
  end.

Definition peek_token_alg (token : pystr) : result TokenError pystr := let* p := split_jwt token in header_alg (header_b64 p).

Definition decode_payload : pystr -> result TokenError (list (pystr * JsonValue)) := read_dict "bad payload".

Definition signed_body (p : JWTParts) : result TokenError bytes := encode_ascii (header_b64 p ++ lit "." ++ payload_b64 p).

Definition verify_hs256 (p : JWTParts) (secret : bytes) : result TokenError unit :=
  let* body := signed_body p in
  let expected := hmac_sha256 secret body in
  let* got := b64url_decode (sig_b64 p) in
  if bool_decide (expected = got) then Ok tt else Raise (SessionStubError "bad signature").

(** The position of the first occurrence of [pat] at or after [from]. *)
Fixpoint find_from (pat s : bytes) (from pos : nat) : option nat :=
  if ((from <=? pos)%nat && bool_decide (take (length pat) s = pat))%bool then Some pos
  else match s with [] => None | _ :: s => find_from pat s from (S pos) end.

Fixpoint load_keys (fuel : nat) (rest : bytes) : result TokenError (list RSAKey) :=
  match fuel with
  | O => Ok []
  | S fuel =>
      match find_from (lit "-----BEGIN") rest 0 0 with
      | None => Ok []
      | Some _ =>
          match load_pem_public_key rest with
          | PemValueError => Ok []
          | PemOtherKey => Raise (SessionStubError "bad public key")
          | PemRSA key =>
              match find_from (lit "-----END") rest 0 0 with
              | None => Ok [key]
              | Some stop =>
                  let rest := match find_from [10] rest stop 0 with Some nl => drop (S nl) rest | None => [] end in
                  let* keys := load_keys fuel rest in Ok (key :: keys)
              end
          end
      end
  end.

(** [_load_rsa_public_keys]: every round drops at least a byte. *)
Definition load_rsa_public_keys (pem : bytes) : result TokenError (list RSAKey) := load_keys (S (length pem)) pem.

Definition verify_rs256 (p : JWTParts) (pem : bytes) : result TokenError unit :=
  let* keys := load_rsa_public_keys pem in
  match keys with
  | [] => Raise (SessionStubError "no public keys")
  | _ =>
      let* body := signed_body p in
      let* sig := b64url_decode (sig_b64 p) in
      if existsb (fun k => rsa_verifies k sig body) keys then Ok tt else Raise (SessionStubError "bad signature")
  end.

(** [payload.get("session_kind") or payload.get("token_kind")] *)
Definition session_kind_of (d : list (pystr * JsonValue)) : option pystr :=
  let kind := match dict_get d (lit "session_kind") with
              | Some v => if truthy v then Some v else dict_get d (lit "token_kind")
              | None => dict_get d (lit "token_kind")
              end in
  match kind with None | Some JvNull => None | Some v => Some (py_str v) end.

Definition optional_str (d : list (pystr * JsonValue)) (k : string) : option pystr :=
  match dict_get d (lit k) with None | Some JvNull => None | Some v => Some (py_str v) end.

Definition required (d : list (pystr * JsonValue)) (k : string) : result TokenError JsonValue :=
  match dict_get d (lit k) with Some v => Ok v | None => Raise (SessionStubError "missing required claims") end.

Definition to_claims (d : list (pystr * JsonValue)) (verify_method : string) : result TokenError SessionClaims :=
  let missing := "missing required claims"%string in
  let* sub := required d "sub" in
  let* org := required d "org_id" in
  let* org_id := match uuid_parse (py_str org) with Some u => Ok u | None => Raise (SessionStubError missing) end in
  let* permissions := int_or missing (default (JvInt 0) (dict_get d (lit "permissions"))) in
  let* exp := required d "exp" in
  let* exp := int_or missing exp in
  let* iat := required d "iat" in
  let* iat := int_or missing iat in
  let* jti := required d "jti" in
  Ok {| sc_sub := py_str sub; sc_org_id := org_id; sc_permissions := permissions;
        sc_session_kind := default (str_value JvNull) (session_kind_of d); sc_exp := exp; sc_iat := iat; sc_jti := py_str jti;
        sc_verify_method := verify_method; sc_session_id := match dict_get d (lit "sid") with Some v => py_str v | None => [] end;
        sc_family_id := optional_str d "fid"; sc_action := optional_str d "action" |}.

Definition assert_issuer_audience (d : list (pystr * JsonValue)) (o : TokenVerifyOpts) : result TokenError unit :=
  let claim k (s : pystr) := match dict_get d (lit k) with Some (JvText t) => bool_decide (t = s) | _ => false end in
  if claim "iss"%string (vo_issuer o) && claim "aud"%string (vo_audience o) then Ok tt
  else Raise (SessionStubError "issuer/audience mismatch").

Definition assert_expected_kind (d : list (pystr * JsonValue)) (expect : pystr) : result TokenError unit :=
  if bool_decide (session_kind_of d = Some expect) then Ok tt else Raise (SessionStubError "wrong token kind").

Definition assert_not_before (d : list (pystr * JsonValue)) (now : Z) : result TokenError unit :=
  match dict_get d (lit "nbf") with
  | None => Ok tt
  | Some v =>
      let* nbf := int_or "invalid not-before claim" v in
      if now <? nbf then Raise (SessionStubError "not yet valid") else Ok tt
  end.

Definition assert_temporal_claims (d : list (pystr * JsonValue)) (now : Z) : result TokenError unit :=
  let* exp := int_or "invalid expiration claim" (default (JvInt 0) (dict_get d (lit "exp"))) in
  if exp <? now then Raise (SessionStubError "expired") else assert_not_before d now.

Definition validate_claims (d : list (pystr * JsonValue)) (o : TokenVerifyOpts) (method : string) (now : Z)
    : result TokenError SessionClaims :=
  let* '_ := assert_issuer_audience d o in
  let* '_ := assert_expected_kind d (vo_expect_kind o) in
  let* '_ := assert_temporal_claims d now in
  let* claims := to_claims d method in
  if String.eqb method "RS256" && bool_decide (sc_session_id claims = []) then Raise (SessionStubError "missing session claim")
  else Ok claims.

Definition verify_rs256_token (p : JWTParts) (d : list (pystr * JsonValue)) (o : TokenVerifyOpts) (now : Z)
    : result TokenError SessionClaims :=
  match present (vo_public_keys_pem o) with
  | None => Raise (SessionStubError "no verify material")
  | Some pem =>
      let* typ := header_typ (header_b64 p) in
      if negb (bool_decide (typ = lit "JWT")) then Raise (SessionStubError "typ mismatch")
      else
        let* kid := header_kid (header_b64 p) in
        if negb (bool_decide (kid = strip_space (vo_key_id o))) then Raise (SessionStubError "key id mismatch")
        else let* '_ := verify_rs256 p pem in validate_claims d o "RS256" now
  end.

Definition verify_hs256_token (p : JWTParts) (d : list (pystr * JsonValue)) (o : TokenVerifyOpts) (now : Z)
    : result TokenError SessionClaims :=
  match present (vo_secret o) with
  | None => Raise (SessionStubError "no verify material")
  | Some secret =>
      let* typ := header_typ (header_b64 p) in
      if negb (bool_decide (typ = lit "JWT")) then Raise (SessionStubError "typ mismatch")
      else let* '_ := verify_hs256 p secret in validate_claims d o "HS256" now
  end.

Definition verify_token_opts (token : pystr) (o : TokenVerifyOpts) (now : Z) : result TokenError SessionClaims :=
  let* p := split_jwt token in
  let* alg := header_alg (header_b64 p) in
  let* d := decode_payload (payload_b64 p) in
  if bool_decide (alg = lit "RS256") then verify_rs256_token p d o now
  else if bool_decide (alg = lit "HS256") then verify_hs256_token p d o now
  else Raise (SessionStubError "alg mismatch").

(** ** Issuing *)

Definition issue_header : JsonValue := JvDict [(lit "alg", JvText (lit "HS256")); (lit "typ", JvText (lit "JWT"))].

Definition issue_payload (o : TokenIssueOpts) (now : Z) (jti sid : pystr) : JsonValue :=
  JvDict ([(lit "iss", JvText (io_issuer o)); (lit "aud", JvText (io_audience o)); (lit "sub", JvText (io_subject o));
           (lit "org_id", JvText (uuid_str (io_org_id o))); (lit "permissions", JvInt (io_permissions o));
           (lit "session_kind", JvText (io_session_kind o)); (lit "iat", JvInt now); (lit "nbf", JvInt now);
           (lit "exp", JvInt (now + io_ttl_seconds o)); (lit "jti", JvText jti);
           (lit "sid", JvText (default sid (present (io_session_id o)))); (lit "provisional", JvBool true)]
          ++ match present (io_family_id o) with Some f => [(lit "fid", JvText f)] | None => [] end
          ++ match present (io_action o) with Some a => [(lit "action", JvText a)] | None => [] end).

(** [jti] and [sid] are [secrets.token_urlsafe(16)]. *)
Definition issue_token_opts (o : TokenIssueOpts) (now : Z) (jti sid : pystr) : pystr :=
  let body := b64url (json_dumps issue_header) ++ lit "." ++ b64url (json_dumps (issue_payload o now jti sid)) in
  body ++ lit "." ++ b64url (hmac_sha256 (io_secret o) body).

(** ** CSRF *)

(** [hexdigest()] *)
Definition hexdigest (b : bytes) : pystr := foldr (fun x acc => hexs 2 x ++ acc) [] b.

Definition mint_csrf_token (secret : bytes) (nonce : pystr) : option pystr :=
  (fun raw => nonce ++ lit "." ++ hexdigest (hmac_sha256 secret raw)) <$> utf8_encode nonce.

(** [cookie_value.split(".", 1)] *)
Fixpoint cut_dot (s : pystr) : option (pystr * pystr) :=
  match s with
  | [] => None
  | c :: s => if c =? 46 then Some ([], s) else option_map (fun ab => (c :: ab.1, ab.2)) (cut_dot s)
  end.

(** [compare_digest] refuses texts that are not ASCII: [TypeError], here
    [None]. *)
Definition compare_digest (a b : pystr) : option bool :=
  if is_ascii a && is_ascii b then Some (bool_decide (a = b)) else None.

Definition verify_csrf_token (secret : bytes) (cookie header : option pystr) : option bool :=
  match present cookie, present header with
  | Some c, Some h =>
      match compare_digest c h with
      | Some true =>
          match cut_dot c with
          | Some (nonce, digest) =>
              match utf8_encode nonce with
              | Some raw => compare_digest (hexdigest (hmac_sha256 secret raw)) digest
              | None => None
              end
          | None => Some false
          end
      | r => r
      end
  | _, _ => Some false
  end.
End Tokens.

(** ** Base 64 reads back *)

Lemma b64_value_char v : 0 <= v < 64 -> b64_value (b64_char v) = Some v.
Proof.
  intros Hv. unfold b64_char. destruct (v <? 26) eqn:E1; [|destruct (v <? 52) eqn:E2; [|destruct (v <? 62) eqn:E3; [|destruct (v =? 62) eqn:E4]]]; bools.
  - unfold b64_value. rewrite (proj2 (Z.leb_le 65 _)), (proj2 (Z.leb_le _ 90)) by lia. cbn. f_equal. lia.
  - unfold b64_value. rewrite (proj2 (Z.leb_gt _ 90)), (proj2 (Z.leb_le 97 _)), (proj2 (Z.leb_le _ 122)) by lia. rewrite andb_false_r.
    cbn. f_equal. lia.
  - unfold b64_value. rewrite (proj2 (Z.leb_gt 65 _)), (proj2 (Z.leb_gt 97 _)), (proj2 (Z.leb_le 48 _)), (proj2 (Z.leb_le _ 57)) by lia.
    cbn. f_equal. lia.
  - subst. reflexivity.
  - assert (v = 63) as -> by lia. reflexivity.
Qed.

(** The alphabet: letters, digits, dash and underscore. *)
Definition b64_alphabet (c : Z) : Prop := 48 <= c < 123 /\ c <> 61 /\ c <> 46 \/ c = 45.

Lemma b64_char_alphabet v : 0 <= v < 64 -> b64_alphabet (b64_char v).
Proof.
  intros Hv. unfold b64_char, b64_alphabet. destruct (v <? 26) eqn:E1; [|destruct (v <? 52) eqn:E2; [|destruct (v <? 62) eqn:E3; [|destruct (v =? 62)]]];
    bools; try lia.
Qed.

Lemma a2b_char v s quad pads left :
  0 <= v < 64 ->
  a2b_base64 (b64_char v :: s) quad pads left
  = if quad =? 0 then a2b_base64 s 1 0 v
    else if quad =? 1 then cons (left * 4 + v / 16) <$> a2b_base64 s 2 0 (v mod 16)
    else if quad =? 2 then cons (left * 16 + v / 4) <$> a2b_base64 s 3 0 (v mod 4)
    else cons (left * 64 + v) <$> a2b_base64 s 0 0 0.
Proof.
  intros Hv. cbn [a2b_base64]. assert (b64_char v =? 61 = false) as ->.
  { apply Z.eqb_neq. destruct (b64_char_alphabet v Hv); lia. }
  by rewrite b64_value_char.
Qed.

(** Induction over the groups of three bytes. *)
Lemma bytes_ind3 (P : bytes -> Prop) :
  P [] -> (forall a, P [a]) -> (forall a b, P [a; b]) -> (forall a b c l, P l -> P (a :: b :: c :: l)) -> forall l, P l.
Proof.
  intros H0 H1 H2 H3. fix IH 1. intros [|a [|b [|c l]]]; [exact H0|apply H1|apply H2|apply H3, IH].
Qed.

Ltac byte_bounds :=
  repeat match goal with
  | H : byte ?a |- _ =>
      pose proof (Z.div_mod a 4 ltac:(lia)); pose proof (Z.mod_pos_bound a 4 ltac:(lia)); pose proof (Z.div_mod a 16 ltac:(lia));
      pose proof (Z.mod_pos_bound a 16 ltac:(lia)); pose proof (Z.div_mod a 64 ltac:(lia)); pose proof (Z.mod_pos_bound a 64 ltac:(lia));
      unfold byte in H
  end.

Lemma a2b_group a b c s :
  byte a -> byte b -> byte c ->
  a2b_base64 (b64_char (a / 4) :: b64_char (a mod 4 * 16 + b / 16) :: b64_char (b mod 16 * 4 + c / 64) :: b64_char (c mod 64) :: s) 0 0 0
  = (fun l => a :: b :: c :: l) <$> a2b_base64 s 0 0 0.
Proof.
  intros Ha Hb Hc. byte_bounds. rewrite !a2b_char by lia. cbn [Z.eqb Pos.eqb].
  replace (a / 4 * 4 + (a mod 4 * 16 + b / 16) / 16) with a by (rewrite (Z.add_comm (a mod 4 * 16)), Z.div_add, (Z.div_small (b / 16) 16) by lia; lia).
  replace ((a mod 4 * 16 + b / 16) mod 16) with (b / 16) by (rewrite (Z.add_comm (a mod 4 * 16)), Z.mod_add, Z.mod_small by lia; lia).
  replace ((b mod 16 * 4 + c / 64) / 4) with (b mod 16) by (rewrite (Z.add_comm (b mod 16 * 4)), Z.div_add, (Z.div_small (c / 64) 4) by lia; lia).
  replace ((b mod 16 * 4 + c / 64) mod 4) with (c / 64) by (rewrite (Z.add_comm (b mod 16 * 4)), Z.mod_add, Z.mod_small by lia; lia).
  replace (b / 16 * 16 + b mod 16) with b by lia. replace (c / 64 * 64 + c mod 64) with c by lia.
  by destruct (a2b_base64 s 0 0 0).
Qed.

Lemma b64url_alphabet b : Forall byte b -> Forall b64_alphabet (b64url b).
Proof.
  induction b as [| | |a b c l IH] using bytes_ind3; intros Hb; cbn [b64url]; [done|..].
  all: repeat match goal with H : Forall byte (_ :: _) |- _ => apply Forall_cons in H as [? ?] end; byte_bounds.
  all: repeat (apply Forall_cons; split); try (apply b64_char_alphabet); try apply Forall_nil; auto; lia.
Qed.

Lemma a2b_b64url b :
  Forall byte b -> a2b_base64 (b64url b ++ replicate (Z.to_nat ((- zlen (b64url b)) mod 4)) 61) 0 0 0 = Some b.
Proof.
  induction b as [| | |a b c l IH] using bytes_ind3; intros Hb.
  - reflexivity.
  - apply Forall_cons in Hb as [Ha _]. byte_bounds. cbn [b64url app]. change (Z.to_nat ((- zlen _) mod 4)) with 2%nat. cbn [replicate].
    rewrite !a2b_char by lia. cbn [Z.eqb Pos.eqb]. change (a2b_base64 [61; 61] 2 0 _) with (Some (A := bytes) []). rewrite Z.div_mul by lia.
    unfold fmap, option_fmap, option_map. do 2 f_equal. lia.
  - apply Forall_cons in Hb as [Ha Hb]. apply Forall_cons in Hb as [Hb _]. byte_bounds. cbn [b64url app].
    change (Z.to_nat ((- zlen _) mod 4)) with 1%nat. cbn [replicate]. rewrite !a2b_char by lia. cbn [Z.eqb Pos.eqb]. change (a2b_base64 [61] 3 0 _) with (Some (A := bytes) []).
    rewrite (Z.add_comm (a mod 4 * 16)), Z.div_add, Z.mod_add, (Z.div_small (b / 16) 16), (Z.mod_small (b / 16) 16), Z.div_mul by lia.
    unfold fmap, option_fmap, option_map. f_equal. f_equal; [lia|]. f_equal. lia.
  - apply Forall_cons in Hb as [Ha Hb]. apply Forall_cons in Hb as [Hb Hc]. apply Forall_cons in Hc as [Hc Hl].
    cbn [b64url app]. rewrite a2b_group by done. unfold zlen in *. cbn [length].
    replace (- Z.of_nat (S (S (S (S (length (b64url l))))))) with (- Z.of_nat (length (b64url l)) + (-1) * 4) by lia.
    rewrite Z.mod_add by lia. by rewrite IH.
Qed.

Lemma is_ascii_app s t : is_ascii (s ++ t) = (is_ascii s && is_ascii t)%bool.
Proof. apply forallb_app. Qed.

Lemma alphabet_ascii s : Forall b64_alphabet s -> is_ascii s = true.
Proof.
  intros Hs. apply forallb_forall. intros c Hc%list_elem_of_In. rewrite Forall_forall in Hs. destruct (Hs c Hc); bools.
  all: apply andb_true_intro; split; [apply Z.leb_le|apply Z.ltb_lt]; lia.
Qed.

Lemma b64url_roundtrip b : Forall byte b -> b64url_decode (b64url b) = Ok b.
Proof. intros Hb. unfold b64url_decode. rewrite alphabet_ascii, a2b_b64url by (auto using b64url_alphabet). done. Qed.

(** ** Splitting *)

Lemma split_dot_join s : foldr (fun w acc => 46 :: w ++ acc) [] (split_dot s) = 46 :: s.
Proof.
  induction s as [|c s IH]; [done|]. cbn [split_dot]. destruct (c =? 46) eqn:E; bools.
  - subst. cbn [foldr app]. by rewrite IH.
  - destruct (split_dot s) as [|w l]; [done|]. cbn [foldr app] in *. congruence.
Qed.

Lemma split_jwt_token token p :
  split_jwt token = Ok p -> token = header_b64 p ++ [46] ++ payload_b64 p ++ [46] ++ sig_b64 p.
Proof.
  unfold split_jwt. destruct (_ <? _); [done|]. pose proof (split_dot_join token) as H.
  destruct (split_dot token) as [|h [|q [|g [|? ?]]]] eqn:E; try done. destruct (reject_oversized_parts _); [done|]. intros [= <-].
  cbn [foldr header_b64 payload_b64 sig_b64] in *. rewrite app_nil_r in H. injection H as <-. done.
Qed.

Lemma split_dot_free w s : Forall (fun c => c <> 46) w -> split_dot (w ++ 46 :: s) = w :: split_dot s.
Proof.
  induction 1 as [|c w Hc Hw IH]; cbn [app split_dot]; [done|]. apply Z.eqb_neq in Hc. rewrite Hc. by rewrite IH.
Qed.

Lemma split_dot_last w : Forall (fun c => c <> 46) w -> split_dot w = [w].
Proof. induction 1 as [|c w Hc Hw IH]; cbn [split_dot]; [done|]. apply Z.eqb_neq in Hc. rewrite Hc. by rewrite IH. Qed.

Section Verified.
Context `{UnicodeDB} `{Jwt}.

(** The signature of the token verifies over everything before it, under
    material the verifier was given for the method of the header. *)
Definition signed_by (p : JWTParts) (o : TokenVerifyOpts) (method : string) : Prop :=
  let body := header_b64 p ++ [46] ++ payload_b64 p in
  exists sig, b64url_decode (sig_b64 p) = Ok sig /\
    (method = "HS256"%string /\ (exists secret, present (vo_secret o) = Some secret /\ sig = hmac_sha256 secret body)
     \/ method = "RS256"%string /\ header_kid (header_b64 p) = Ok (strip_space (vo_key_id o)) /\
        exists pem keys k, present (vo_public_keys_pem o) = Some pem /\ load_rsa_public_keys pem = Ok keys /\ k ∈ keys /\
          rsa_verifies k sig body = true).

Record claims_checked (d : list (pystr * JsonValue)) (o : TokenVerifyOpts) (now : Z) (c : SessionClaims) : Prop := {
  cc_issuer : dict_get d (lit "iss") = Some (JvText (vo_issuer o));
  cc_audience : dict_get d (lit "aud") = Some (JvText (vo_audience o));
  cc_kind : session_kind_of d = Some (vo_expect_kind o) /\ sc_session_kind c = vo_expect_kind o;
  cc_exp : now <= sc_exp c;
  cc_nbf : forall v n, dict_get d (lit "nbf") = Some v -> py_int v = Ok (Some n) -> n <= now;
  cc_session : sc_verify_method c = "RS256"%string -> sc_session_id c <> [];
}.

Lemma verify_hs256_ok p secret :
  verify_hs256 p secret = Ok tt ->
  b64url_decode (sig_b64 p) = Ok (hmac_sha256 secret (header_b64 p ++ [46] ++ payload_b64 p)).
Proof.
  unfold verify_hs256, signed_body, encode_ascii. intros Hv. destruct (is_ascii _); [|done]. cbn in Hv.
  destruct (b64url_decode (sig_b64 p)) as [got|]; [|done]. cbn in Hv. case_bool_decide as E; [|done]. by rewrite <- E.
Qed.

Lemma verify_rs256_ok p pem :
  verify_rs256 p pem = Ok tt ->
  exists sig keys k, b64url_decode (sig_b64 p) = Ok sig /\ load_rsa_public_keys pem = Ok keys /\ k ∈ keys /\
    rsa_verifies k sig (header_b64 p ++ [46] ++ payload_b64 p) = true.
Proof.
  unfold verify_rs256. intros (keys & Hk & Hv)%rbind_Ok. destruct keys as [|k0 keys]; [done|].
  apply rbind_Ok in Hv as (body & Hb & (sig & Hs & Hv)%rbind_Ok). unfold signed_body, encode_ascii in Hb.
  destruct (is_ascii _); [|done]. injection Hb as <-. destruct (existsb _ _) eqn:E; [|done].
  apply existsb_exists in E as (k & Hin%list_elem_of_In & Hr). eauto 8.
Qed.

Lemma int_or_ok msg v n : int_or msg v = Ok n <-> py_int v = Ok (Some n).
Proof.
  unfold int_or. split.
  - intros ([m|] & -> & E)%rbind_Ok; [|done]. by injection E as ->.
  - by intros ->.
Qed.

Lemma to_claims_ok d method c :
  to_claims d method = Ok c ->
  sc_verify_method c = method /\ sc_session_kind c = default (str_value JvNull) (session_kind_of d) /\
  exists v, dict_get d (lit "exp") = Some v /\ py_int v = Ok (Some (sc_exp c)).
Proof.
  unfold to_claims. intros (sub & _ & (org & _ & (org_id & _ & (perms & _ & (ev & Hev & (e & He & (iv & _ & (i & _ & (jti & _ &
    [= <-])%rbind_Ok)%rbind_Ok)%rbind_Ok)%rbind_Ok)%rbind_Ok)%rbind_Ok)%rbind_Ok)%rbind_Ok)%rbind_Ok.
  cbn [sc_verify_method sc_session_kind sc_exp]. split; [done|]. split; [done|]. exists ev. unfold required in Hev. destruct (dict_get d (lit "exp")); [|done]. split; [congruence|].
  by apply int_or_ok in He.
Qed.

Lemma expected_kind_ok d k : assert_expected_kind d k = Ok tt -> session_kind_of d = Some k.
Proof. unfold assert_expected_kind. case_bool_decide; done. Qed.

Lemma issuer_audience_ok d o :
  assert_issuer_audience d o = Ok tt ->
  dict_get d (lit "iss") = Some (JvText (vo_issuer o)) /\ dict_get d (lit "aud") = Some (JvText (vo_audience o)).
Proof.
  unfold assert_issuer_audience. destruct (dict_get d (lit "iss")) as [[]|]; try done. destruct (dict_get d (lit "aud")) as [[]|];
    cbn [andb]; rewrite ?andb_false_r; try done. case_bool_decide as E1; [|done]. case_bool_decide as E2; [|done]. by subst.
Qed.

Lemma validate_claims_ok d o method now c :
  validate_claims d o method now = Ok c -> claims_checked d o now c /\ sc_verify_method c = method.
Proof.
  unfold validate_claims. intros ([] & Hia & ([] & Hk & ([] & Ht & (c' & Hc & Hs)%rbind_Ok)%rbind_Ok)%rbind_Ok)%rbind_Ok.
  destruct (String.eqb method "RS256" && bool_decide (sc_session_id c' = []))%bool eqn:Es; [done|]. injection Hs as <-.
  destruct (to_claims_ok _ _ _ Hc) as (Hm & Hkind & v & Hv & He).
  apply expected_kind_ok in Hk. rewrite Hk in Hkind. cbn [from_option id] in Hkind. apply issuer_audience_ok in Hia as [Hi1 Hi2].
  unfold assert_temporal_claims in Ht. rewrite Hv in Ht. cbn [from_option id] in Ht. apply rbind_Ok in Ht as (e & He' & Ht).
  apply int_or_ok in He'. rewrite He in He'. injection He' as <-. destruct (sc_exp c' <? now) eqn:Ee; [done|]. bools.
  split; [split|done]; try done.
  - intros w n Hw Hn. unfold assert_not_before in Ht. rewrite Hw in Ht. apply rbind_Ok in Ht as (m & Hmm & Ht).
    apply int_or_ok in Hmm. rewrite Hn in Hmm. injection Hmm as <-. destruct (now <? n) eqn:En; [done|]. by bools.
  - intros ->%(eq_trans (eq_sym Hm)). intros E. by rewrite E in Es.
Qed.

Lemma validate_claims_to d o method now c : validate_claims d o method now = Ok c -> to_claims d (sc_verify_method c) = Ok c.
Proof.
  intros Hv. pose proof Hv as Hm. apply validate_claims_ok in Hm as [_ ->]. unfold validate_claims in Hv. inv_bind.
  destruct (_ && _)%bool; [done|]. congruence.
Qed.

Lemma verify_rs256_token_ok p d o now c :
  verify_rs256_token p d o now = Ok c ->
  exists pem, present (vo_public_keys_pem o) = Some pem /\ header_kid (header_b64 p) = Ok (strip_space (vo_key_id o)) /\
    verify_rs256 p pem = Ok tt /\ validate_claims d o "RS256" now = Ok c.
Proof.
  unfold verify_rs256_token. destruct (present (vo_public_keys_pem o)) as [pem|]; [|done].
  intros (typ & _ & Hv)%rbind_Ok. destruct (negb (bool_decide (typ = _))); [done|]. apply rbind_Ok in Hv as (kid & Hkid & Hv).
  case_bool_decide as Ek; [|done]. cbn [negb] in Hv. apply rbind_Ok in Hv as ([] & Hs & Hv). subst. eauto.
Qed.

Lemma verify_hs256_token_ok p d o now c :
  verify_hs256_token p d o now = Ok c ->
  exists secret, present (vo_secret o) = Some secret /\ verify_hs256 p secret = Ok tt /\ validate_claims d o "HS256" now = Ok c.
Proof.
  unfold verify_hs256_token. destruct (present (vo_secret o)) as [secret|]; [|done].
  intros (typ & _ & Hv)%rbind_Ok. destruct (negb (bool_decide (typ = _))); [done|]. apply rbind_Ok in Hv as ([] & Hs & Hv). eauto.
Qed.

(** What both verifiers read: the payload of the token. *)
Definition payload_of (token : pystr) : result TokenError (list (pystr * JsonValue)) :=
  let* p := split_jwt token in decode_payload (payload_b64 p).

Lemma verified_payload token o now c :
  verify_token_opts token o now = Ok c ->
  exists d, payload_of token = Ok d /\ claims_checked d o now c /\ to_claims d (sc_verify_method c) = Ok c.
Proof.
  unfold verify_token_opts, payload_of. intros (p & -> & (alg & _ & (d & Hd & Hv)%rbind_Ok)%rbind_Ok)%rbind_Ok. exists d. split; [done|].
  assert (exists m, validate_claims d o m now = Ok c) as [m Hc].
  { case_bool_decide; [apply verify_rs256_token_ok in Hv as (? & _ & _ & _ & ?); eauto|].
    case_bool_decide; [apply verify_hs256_token_ok in Hv as (? & _ & _ & ?); eauto|done]. }
  split; [by apply validate_claims_ok in Hc as [? _]|by eapply validate_claims_to].
Qed.

(** C6: An accepted session token is genuine: whatever text is presented, when
    [verify_token_opts] returns claims, the token is exactly header, payload and
    signature, the signature verifies over every character before it under the
    HMAC secret (only for an HS256 header and only if a secret is given) or under
    one of the configured RSA keys with the configured key id (only for RS256),
    issuer, audience and token kind are the expected ones, the token has not
    expired and is not used before its time, and the claims are those of the
    signed payload. *)
Theorem accepted_token_is_genuine token o now c :
  verify_token_opts token o now = Ok c ->
  exists p d, token = header_b64 p ++ [46] ++ payload_b64 p ++ [46] ++ sig_b64 p /\
    decode_payload (payload_b64 p) = Ok d /\ header_alg (header_b64 p) = Ok (lit (sc_verify_method c)) /\
    to_claims d (sc_verify_method c) = Ok c /\ signed_by p o (sc_verify_method c) /\ claims_checked d o now c.
Proof.
  unfold verify_token_opts. intros (p & Hp & (alg & Ha & (d & Hd & Hv)%rbind_Ok)%rbind_Ok)%rbind_Ok.
  exists p, d. split; [by apply split_jwt_token|]. split; [done|]. rewrite Ha.
  case_bool_decide as E1; [|case_bool_decide as E2; [|done]]; subst.
  - apply verify_rs256_token_ok in Hv as (pem & Ep & Hkid & Hs & Hv). pose proof (validate_claims_to _ _ _ _ _ Hv) as Hto.
    apply validate_claims_ok in Hv as [Hc Hm]. rewrite Hm in *. split; [done|]. split; [done|]. split; [|done].
    apply verify_rs256_ok in Hs as (sig & keys & k & H1 & H2 & H3 & H4). exists sig. split; [done|]. right. eauto 9.
  - apply verify_hs256_token_ok in Hv as (secret & Ep & Hs & Hv). pose proof (validate_claims_to _ _ _ _ _ Hv) as Hto.
    apply validate_claims_ok in Hv as [Hc Hm]. rewrite Hm in *. split; [done|]. split; [done|]. split; [|done].
    apply verify_hs256_ok in Hs. eexists. split; [done|]. left. eauto.
Qed.

(** The kinds of session tokens do not mix: no text is accepted both as one
    kind and as another, whatever keys, issuers and times the two verifiers use:
    an access cookie is not a refresh token and neither is a step-up proof. *)
Theorem token_kinds_do_not_mix token o1 o2 now1 now2 c1 c2 :
  verify_token_opts token o1 now1 = Ok c1 -> verify_token_opts token o2 now2 = Ok c2 ->
  vo_expect_kind o1 = vo_expect_kind o2 /\ sc_sub c1 = sc_sub c2 /\ sc_org_id c1 = sc_org_id c2 /\
  sc_session_id c1 = sc_session_id c2 /\ sc_permissions c1 = sc_permissions c2.
Proof.
  intros (d1 & H1 & K1)%verified_payload (d2 & H2 & K2)%verified_payload. rewrite H1 in H2. injection H2 as <-.
  destruct K1 as [C1 T1], K2 as [C2 T2]. split; [destruct (cc_kind _ _ _ _ C1), (cc_kind _ _ _ _ C2); congruence|].
  unfold to_claims in T1, T2.
  repeat match type of T1 with
  | rbind ?m _ = _ => destruct m as [?|?]; cbn [rbind] in T1, T2; [|done]
  end.
  by injection T1 as <-; injection T2 as <-.
Qed.

(** ** Issued tokens *)

Lemma dict_get_app d1 d2 k : dict_get (d1 ++ d2) k = match dict_get d1 k with Some v => Some v | None => dict_get d2 k end.
Proof.
  unfold dict_get. induction d1 as [|[k' v] d1 IH]; cbn; [done|]. destruct (bool_decide (k' = k)); done.
Qed.

Definition issued_claims (o : TokenIssueOpts) (now : Z) (jti sid : pystr) : SessionClaims :=
  {| sc_sub := io_subject o; sc_org_id := io_org_id o; sc_permissions := io_permissions o; sc_session_kind := io_session_kind o;
     sc_exp := now + io_ttl_seconds o; sc_iat := now; sc_jti := jti; sc_verify_method := "HS256";
     sc_session_id := default sid (present (io_session_id o)); sc_family_id := present (io_family_id o);
     sc_action := present (io_action o) |}.

Definition issued_dict (o : TokenIssueOpts) (now : Z) (jti sid : pystr) : list (pystr * JsonValue) :=
  match issue_payload o now jti sid with JvDict d => d | _ => [] end.

Lemma issued_base o now jti sid k v :
  dict_get [(lit "iss", JvText (io_issuer o)); (lit "aud", JvText (io_audience o)); (lit "sub", JvText (io_subject o));
           (lit "org_id", JvText (uuid_str (io_org_id o))); (lit "permissions", JvInt (io_permissions o));
           (lit "session_kind", JvText (io_session_kind o)); (lit "iat", JvInt now); (lit "nbf", JvInt now);
           (lit "exp", JvInt (now + io_ttl_seconds o)); (lit "jti", JvText jti);
           (lit "sid", JvText (default sid (present (io_session_id o)))); (lit "provisional", JvBool true)] (lit k) = Some v ->
  dict_get (issued_dict o now jti sid) (lit k) = Some v.
Proof. intros E. unfold issued_dict, issue_payload. by rewrite dict_get_app, E. Qed.

Lemma issued_optional o now jti sid :
  optional_str (issued_dict o now jti sid) "fid" = present (io_family_id o) /\
  optional_str (issued_dict o now jti sid) "action" = present (io_action o).
Proof.
  unfold optional_str, issued_dict, issue_payload. rewrite !dict_get_app.
  by destruct (present (io_family_id o)), (present (io_action o)).
Qed.

Lemma issued_to_claims o now jti sid :
  io_session_kind o <> [] -> 0 <= io_org_id o < 2 ^ 128 ->
  to_claims (issued_dict o now jti sid) "HS256" = Ok (issued_claims o now jti sid).
Proof.
  intros Hk Ho. unfold to_claims, required.
  rewrite (issued_base o now jti sid "sub" (JvText (io_subject o)) eq_refl), (issued_base o now jti sid "org_id" (JvText (uuid_str (io_org_id o))) eq_refl),
    (issued_base o now jti sid "permissions" (JvInt (io_permissions o)) eq_refl), (issued_base o now jti sid "exp" (JvInt (now + io_ttl_seconds o)) eq_refl),
    (issued_base o now jti sid "iat" (JvInt now) eq_refl), (issued_base o now jti sid "jti" (JvText jti) eq_refl),
    (issued_base o now jti sid "sid" (JvText (default sid (present (io_session_id o)))) eq_refl).
  cbn [rbind py_str]. rewrite uuid_roundtrip by done. cbn [rbind int_or py_int from_option id].
  destruct (issued_optional o now jti sid) as [-> ->]. unfold issued_claims, session_kind_of.
  rewrite (issued_base o now jti sid "session_kind" (JvText (io_session_kind o)) eq_refl). cbn [truthy].
  rewrite bool_decide_eq_false_2 by done. reflexivity.
Qed.

Lemma issued_claims_valid o vo now now' jti sid :
  io_session_kind o <> [] -> 0 <= io_org_id o < 2 ^ 128 ->
  vo_issuer vo = io_issuer o -> vo_audience vo = io_audience o -> vo_expect_kind vo = io_session_kind o ->
  now <= now' <= now + io_ttl_seconds o ->
  validate_claims (issued_dict o now jti sid) vo "HS256" now' = Ok (issued_claims o now jti sid).
Proof.
  intros Hk Ho Hi Ha He Ht. unfold validate_claims, assert_issuer_audience.
  rewrite (issued_base o now jti sid "iss" (JvText (io_issuer o)) eq_refl), (issued_base o now jti sid "aud" (JvText (io_audience o)) eq_refl).
  rewrite !bool_decide_eq_true_2 by done. cbn [andb rbind]. unfold assert_expected_kind, session_kind_of.
  rewrite (issued_base o now jti sid "session_kind" (JvText (io_session_kind o)) eq_refl). cbn [truthy].
  rewrite (bool_decide_eq_false_2 (io_session_kind o = [])) by done. cbn [negb py_str]. rewrite bool_decide_eq_true_2 by congruence. cbn [rbind].
  unfold assert_temporal_claims, assert_not_before.
  rewrite (issued_base o now jti sid "exp" (JvInt (now + io_ttl_seconds o)) eq_refl), (issued_base o now jti sid "nbf" (JvInt now) eq_refl).
  cbn [from_option id int_or py_int rbind]. rewrite (proj2 (Z.ltb_ge _ _)), (proj2 (Z.ltb_ge now' now)) by lia. cbn [rbind].
  by rewrite issued_to_claims.
Qed.

(** [json.loads(json.dumps(v))] *)
Definition json_reads_back (v : JsonValue) : Prop := json_loads (json_dumps v) = JsonValueOf v /\ Forall byte (json_dumps v).

Lemma read_dict_b64 msg d : json_reads_back (JvDict d) -> read_dict msg (b64url (json_dumps (JvDict d))) = Ok d.
Proof. intros [H1 H2]. unfold read_dict. by rewrite b64url_roundtrip, H1. Qed.

Lemma alphabet_no_dot s : Forall b64_alphabet s -> Forall (fun c => c <> 46) s.
Proof. intros Hs. eapply Forall_impl; [exact Hs|]. intros c [|]; lia. Qed.

(** A session token the API issues is accepted until it expires: for every
    subject, organization, permissions and kind, the verifier with the same
    secret, issuer and audience returns exactly the issued claims at every time
    from the issue to the expiry, as long as the token stays within the size
    limits and the JSON codec reads back what it wrote. *)
Theorem issued_token_verifies o vo now now' jti sid :
  let header := b64url (json_dumps issue_header) in
  let payload := b64url (json_dumps (issue_payload o now jti sid)) in
  let token := issue_token_opts o now jti sid in
  json_reads_back issue_header -> json_reads_back (issue_payload o now jti sid) ->
  Forall byte (hmac_sha256 (io_secret o) (header ++ [46] ++ payload)) ->
  zlen token <= MAX_SESSION_TOKEN_LEN -> zlen header <= MAX_JWT_PART_LEN -> zlen payload <= MAX_JWT_PART_LEN ->
  zlen (b64url (hmac_sha256 (io_secret o) (header ++ [46] ++ payload))) <= MAX_JWT_PART_LEN ->
  present (vo_secret vo) = Some (io_secret o) -> io_session_kind o <> [] -> 0 <= io_org_id o < 2 ^ 128 ->
  vo_issuer vo = io_issuer o -> vo_audience vo = io_audience o -> vo_expect_kind vo = io_session_kind o ->
  now <= now' <= now + io_ttl_seconds o ->
  verify_token_opts token vo now' = Ok (issued_claims o now jti sid).
Proof.
  intros header payload token Hh Hp Hm L1 L2 L3 L4 Hs Hk Ho Hi Ha He Ht.
  set (sig := hmac_sha256 (io_secret o) (header ++ [46] ++ payload)) in *.
  assert (Forall b64_alphabet header) as A1 by (apply b64url_alphabet, Hh).
  assert (Forall b64_alphabet payload) as A2 by (apply b64url_alphabet, Hp).
  assert (Forall b64_alphabet (b64url sig)) as A3 by (by apply b64url_alphabet).
  assert (split_jwt token = Ok {| header_b64 := header; payload_b64 := payload; sig_b64 := b64url sig |}) as Hsplit.
  { unfold split_jwt. rewrite (proj2 (Z.ltb_ge _ _)) by done.
    assert (token = header ++ 46 :: payload ++ 46 :: b64url sig) as ->.
    { unfold token, issue_token_opts. fold header payload. change (lit ".") with [46]. rewrite <- app_assoc. cbn [app].
      rewrite <- ?app_assoc. done. }
    rewrite !split_dot_free, split_dot_last by (by apply alphabet_no_dot). unfold reject_oversized_parts. cbn [existsb].
    rewrite !(proj2 (Z.ltb_ge _ _)) by done. done. }
  assert (read_dict "bad header" header = Ok [(lit "alg", JvText (lit "HS256")); (lit "typ", JvText (lit "JWT"))]) as Hrh
    by (by apply read_dict_b64).
  assert (read_dict "bad payload" payload = Ok (issued_dict o now jti sid)) as Hrp by (by apply read_dict_b64).
  unfold verify_token_opts. rewrite Hsplit. cbn [rbind header_b64 payload_b64 sig_b64].
  unfold header_alg, header_text, decode_payload. rewrite Hrh, Hrp. cbn [rbind].
  change (match dict_get _ (lit "alg") with Some v => py_str v | None => [] end) with (lit "HS256").
  rewrite bool_decide_eq_false_2, bool_decide_eq_true_2 by done. unfold verify_hs256_token. rewrite Hs.
  unfold header_typ, header_text. cbn [header_b64]. rewrite Hrh. cbn [rbind].
  change (match dict_get _ (lit "typ") with Some v => py_str v | None => [] end) with (lit "JWT").
  rewrite bool_decide_eq_true_2 by done. cbn [negb].
  assert (verify_hs256 {| header_b64 := header; payload_b64 := payload; sig_b64 := b64url sig |} (io_secret o) = Ok tt) as ->;
    [|by apply issued_claims_valid].
  unfold verify_hs256, signed_body, encode_ascii. cbn [header_b64 payload_b64 sig_b64]. change (lit ".") with [46].
  assert (is_ascii (header ++ [46] ++ payload) = true) as ->.
  { rewrite !is_ascii_app, (alphabet_ascii header A1), (alphabet_ascii payload A2). done. }
  cbn [rbind]. rewrite b64url_roundtrip by done. cbn [rbind]. by rewrite bool_decide_eq_true_2.
Qed.
End Verified.

(** ** Sample primitives *)

Module TokenSample.

Definition opts : TokenIssueOpts := {|
  io_secret := lit "secret"; io_issuer := lit "ibex"; io_audience := lit "console"; io_org_id := 7; io_permissions := 524288;
  io_subject := lit "user-1"; io_session_kind := SESSION_KIND_ACCESS; io_ttl_seconds := 900; io_session_id := None;
  io_family_id := None; io_action := None |}.
Definition payload : JsonValue := issue_payload opts 1000 (lit "jti") (lit "sid").

(** A codec for the two documents of the sample, and a checksum for the MAC. *)
#[export] Instance jwt : Jwt := {|
  RSAKey := unit;
  json_loads := fun b => match b with [1] => JsonValueOf issue_header | [2] => JsonValueOf payload | [255] => UndecodableBytes | _ => JSONDecodeError end;
  json_dumps := fun v => match v with JvDict [_; _] => [1] | _ => [2] end;
  str_value := fun _ => lit "None";
  int_text := fun _ => None;
  hmac_sha256 := fun k m => [foldr Z.add 0 k mod 256; foldr Z.add 0 m mod 256];
  load_pem_public_key := fun _ => PemValueError;
  rsa_verifies := fun _ _ _ => false |}.
#[export] Existing Instance ascii_db.

Definition verify_opts : TokenVerifyOpts := {|
  vo_secret := Some (lit "secret"); vo_issuer := lit "ibex"; vo_audience := lit "console"; vo_expect_kind := SESSION_KIND_ACCESS;
  vo_public_keys_pem := None; vo_key_id := lit "v1" |}.
Definition token : pystr := issue_token_opts opts 1000 (lit "jti") (lit "sid").
Definition claims : SessionClaims := issued_claims opts 1000 (lit "jti") (lit "sid").

Lemma issued_token_verifies_witness : verify_token_opts token verify_opts 1900 = Ok claims.
Proof.
  apply (issued_token_verifies opts verify_opts 1000 1900 (lit "jti") (lit "sid")).
  - split; [reflexivity|]. repeat constructor; done.
  - split; [reflexivity|]. repeat constructor; done.
  - vm_compute. repeat constructor; done.
  - vm_compute. done.
  - vm_compute. done.
  - vm_compute. done.
  - vm_compute. done.
  - reflexivity.
  - done.
  - done.
  - reflexivity.
  - reflexivity.
  - reflexivity.
  - cbn. lia.
Defined.

Lemma token_accepted : verify_token_opts token verify_opts 1900 = Ok claims.
Proof. vm_compute. reflexivity. Qed.

Lemma accepted_token_is_genuine_witness :
  exists p d, token = header_b64 p ++ [46] ++ payload_b64 p ++ [46] ++ sig_b64 p /\
    decode_payload (payload_b64 p) = Ok d /\ header_alg (header_b64 p) = Ok (lit "HS256") /\
    to_claims d "HS256" = Ok claims /\ signed_by p verify_opts "HS256" /\ claims_checked d verify_opts 1900 claims.
Proof. exact (accepted_token_is_genuine token verify_opts 1900 claims token_accepted). Defined.

Lemma token_kinds_do_not_mix_witness :
  vo_expect_kind verify_opts = vo_expect_kind verify_opts /\ sc_sub claims = sc_sub claims /\ sc_org_id claims = sc_org_id claims /\
  sc_session_id claims = sc_session_id claims /\ sc_permissions claims = sc_permissions claims.
Proof. exact (token_kinds_do_not_mix token verify_opts verify_opts 1900 1900 claims claims token_accepted token_accepted). Defined.

(** One second later the token has expired, and it is no refresh token. *)
Lemma token_refused :
  verify_token_opts token verify_opts 1901 = Raise (SessionStubError "expired") /\
  verify_token_opts token {| vo_secret := Some (lit "secret"); vo_issuer := lit "ibex"; vo_audience := lit "console";
    vo_expect_kind := SESSION_KIND_REFRESH; vo_public_keys_pem := None; vo_key_id := lit "v1" |} 1900
  = Raise (SessionStubError "wrong token kind").
Proof. vm_compute. done. Qed.
End TokenSample.
