(* ===== verification/Pagination.v ===== *)
(** * Cursor pagination
    ([services/api/app/pagination.py], [services/operator_keyset.py], and the list
    functions of [services/users.py] and [services/agents.py] built on them)

    Keyset pages over rows ordered by creation time and id, newest first, and the
    opaque cursors that carry the position from one page to the next.  Base 64 and
    the JSON interface are those of [SessionToken]; ids are 128-bit integers, times
    microseconds, and the text form of a time is a parameter. *)

From S2P Require Import Prelude PyText Wire SessionToken.

(** ** Cursors *)

Inductive ApiError := ValidationError (msg : string) | DatabaseError.

(** [datetime.isoformat] and its reading by [CAST(... AS timestamptz)]. *)
Class TimeText := {
  isoformat : Z -> pystr;
  timestamptz : pystr -> option Z;
  timestamptz_isoformat : forall t, timestamptz (isoformat t) = Some t;
  isoformat_nonempty : forall t, isoformat t <> [];
}.

Definition invalid_cursor : ApiError := ValidationError "Invalid cursor".

Record Cursor := { cu_created_at : Z; cu_id : Z }.

Section Cursors.
Context `{UnicodeDB, Jwt, TimeText}.

(** [keyset_cursor_payload], [_next_user_list_payload] and
    [_next_agent_list_payload]: keys in order, as [sort_keys] writes them. *)
Definition keyset_cursor_payload (c : Cursor) : list (pystr * JsonValue) :=
  [(lit "created_at", JvText (isoformat (cu_created_at c))); (lit "id", JvText (uuid_str (cu_id c)))].

(** [encode_cursor] *)
Definition encode_cursor (payload : list (pystr * JsonValue)) : pystr := b64url (json_dumps (JvDict payload)).

(** [decode_cursor]; its [ValueError] and [TypeError] become one [ApiError] in every
    caller. *)
Definition decode_cursor (cursor : option pystr) : result ApiError (option (list (pystr * JsonValue))) :=
  match cursor with
  | None | Some [] => Ok None
  | Some s =>
      match b64url_decode s with
      | Raise _ => Raise invalid_cursor
      | Ok raw =>
          match json_loads raw with
          | JsonValueOf (JvDict d) => Ok (Some d)
          | _ => Raise invalid_cursor
          end
      end
  end.

Fixpoint dict_get (k : pystr) (d : list (pystr * JsonValue)) : option JsonValue :=
  match d with
  | [] => None
  | (k', v) :: d => if bool_decide (k' = k) then Some v else dict_get k d
  end.

(** [not v] *)
Definition falsy (v : JsonValue) : bool :=
  match v with
  | JvNull | JvBool false | JvInt 0 | JvText [] | JvList [] | JvDict [] => true
  | JvFloat (Finite _ nonzero) => negb nonzero
  | _ => false
  end.

Definition str_of (v : JsonValue) : pystr := match v with JvText s => s | v => str_value v end.

(** [_parse_user_list_cursor] and [_parse_list_cursor]: the texts of a cursor. *)
Definition parse_list_cursor (cursor : option pystr) : result ApiError (option (pystr * pystr)) :=
  let* payload := decode_cursor cursor in
  match payload with
  | None => Ok None
  | Some d =>
      match dict_get (lit "created_at") d, dict_get (lit "id") d with
      | Some c, Some i => if (falsy c || falsy i)%bool then Raise invalid_cursor else Ok (Some (str_of c, str_of i))
      | _, _ => Raise invalid_cursor
      end
  end.

(** The casts of the statement: a text the database cannot read is an error of the
    statement. *)
Definition cast_cursor (c : option (pystr * pystr)) : result ApiError (option Cursor) :=
  match c with
  | None => Ok None
  | Some (t, i) =>
      match timestamptz t, uuid_parse i with
      | Some t, Some i => Ok (Some {| cu_created_at := t; cu_id := i |})
      | _, _ => Raise DatabaseError
      end
  end.
End Cursors.

(** ** Pages *)

Section Pages.
Context {A : Type} (created_at ident : A -> Z).

(** [ORDER BY created_at DESC, id DESC] *)
Definition newest_first : A -> A -> bool :=
  key_ltb (fun a => (- created_at a, - ident a)) (pair_ltb Z.eqb Z.ltb Z.ltb).

(** [created_at < :c OR (created_at = :c AND id < :i)] *)
Definition after_cursor (c : option Cursor) (a : A) : bool :=
  match c with
  | None => true
  | Some c => (created_at a <? cu_created_at c) || ((created_at a =? cu_created_at c) && (ident a <? cu_id c))
  end%bool.

(** The rows of the statement, with the other conditions of its [WHERE]. *)
Definition fetch (p : A -> bool) (c : option Cursor) (n : nat) (table : list A) : list A :=
  take n (py_sorted newest_first (List.filter (fun a => p a && after_cursor c a)%bool table)).

Record CursorPage := { pg_data : list A; pg_has_more : bool; pg_next : option Cursor }.

(** The cursor of the last row of a page. *)
Definition cursor_of (a : A) : Cursor := {| cu_created_at := created_at a; cu_id := ident a |}.

(** [LIMIT :limit + 1], [_next_user_list_payload] and [page_from_rows]. *)
Definition list_page (p : A -> bool) (c : option Cursor) (limit : nat) (table : list A) : CursorPage :=
  let rows := fetch p c (limit + 1) table in
  let has_more := (limit <? length rows)%nat in
  {| pg_data := take limit rows; pg_has_more := has_more;
     pg_next := if has_more then cursor_of <$> rows !! (limit - 1)%nat else None |}.

(** Following [next_cursor] from a position to the end; each page meets the table
    of its own time. *)
Inductive walk (p : A -> bool) (limit : nat) : option Cursor -> list (list A) -> list (list A) -> Prop :=
| walk_last c t : pg_next (list_page p c limit t) = None ->
    walk p limit c [t] [pg_data (list_page p c limit t)]
| walk_more c t c' ts ds : pg_next (list_page p c limit t) = Some c' -> walk p limit (Some c') ts ds ->
    walk p limit c (t :: ts) (pg_data (list_page p c limit t) :: ds).

(** The whole walk over an unchanging table; the table is exhausted after at most
    one page per row. *)
Fixpoint walk_pages (fuel : nat) (p : A -> bool) (limit : nat) (c : option Cursor) (t : list A) : list (list A) :=
  match fuel with
  | O => []
  | S fuel =>
      let pg := list_page p c limit t in
      pg_data pg :: match pg_next pg with Some c => walk_pages fuel p limit (Some c) t | None => [] end
  end.

(** ** The order *)

#[local] Instance newest_first_order : PyOrder newest_first (fun _ => True).
Proof.
  unfold newest_first, key_ltb, pair_ltb. split; cbn.
  - intros a b _ _. rewrite (Z.eqb_sym (- created_at b)). destruct (Z.eqb_spec (- created_at a) (- created_at b));
      rewrite ?Z.ltb_lt, ?Z.ltb_ge; lia.
  - intros a b c _ _ _.
    destruct (Z.eqb_spec (- created_at b) (- created_at a)), (Z.eqb_spec (- created_at c) (- created_at b)),
      (Z.eqb_spec (- created_at c) (- created_at a)); rewrite ?Z.ltb_ge; lia.
Qed.

(** A row comes after the cursor of another exactly when it is older. *)
Lemma after_cursor_of x a : after_cursor (Some (cursor_of x)) a = newest_first x a.
Proof.
  unfold after_cursor, newest_first, key_ltb, pair_ltb, cursor_of; cbn.
  destruct (Z.ltb_spec (created_at a) (created_at x)), (Z.eqb_spec (created_at a) (created_at x)),
    (Z.eqb_spec (- created_at x) (- created_at a)), (Z.ltb_spec (- created_at x) (- created_at a)); cbn; try lia.
  all: destruct (Z.ltb_spec (ident a) (ident x)), (Z.ltb_spec (- ident x) (- ident a)); lia || done.
Qed.

Lemma after_cursor_trans c x a : after_cursor c x = true -> newest_first x a = true -> after_cursor c a = true.
Proof.
  destruct c as [c|]; [|done]. unfold after_cursor, newest_first, key_ltb, pair_ltb; cbn.
  intros Hc Hx. revert Hx. destruct (Z.eqb_spec (- created_at x) (- created_at a)); intros Hx; bools;
    apply orb_true_iff; apply orb_true_iff in Hc as [Hc|Hc]; bools.
  - left. apply Z.ltb_lt. lia.
  - right. apply andb_true_iff. split; [apply Z.eqb_eq|apply Z.ltb_lt]; lia.
  - left. apply Z.ltb_lt. lia.
  - left. apply Z.ltb_lt. lia.
Qed.

Lemma newest_first_irrefl a : newest_first a a = false.
Proof. by apply (po_irrefl (ok := fun _ => True) newest_first). Qed.

Lemma newest_first_total a b : ident a <> ident b -> newest_first a b = false -> newest_first b a = true.
Proof.
  unfold newest_first, key_ltb, pair_ltb; cbn. intros Hne. rewrite (Z.eqb_sym (- created_at b)).
  destruct (Z.eqb_spec (- created_at a) (- created_at b)); rewrite ?Z.ltb_ge, ?Z.ltb_lt; lia.
Qed.

(** The rows a position has before it, in page order. *)
Definition remaining (p : A -> bool) (c : option Cursor) (t : list A) : list A :=
  py_sorted newest_first (List.filter (fun a => p a && after_cursor c a)%bool t).

Definition unique_ids (p : A -> bool) (t : list A) : Prop := NoDup (ident <$> List.filter p t).

Lemma remaining_elem p c t a : a ∈ remaining p c t <-> a ∈ t /\ p a = true /\ after_cursor c a = true.
Proof.
  unfold remaining. rewrite py_sorted_elem, list_elem_of_In, filter_In, andb_true_iff. by rewrite list_elem_of_In.
Qed.

Lemma filter_sublist {B} (f g : B -> bool) (l : list B) :
  (forall b, f b = true -> g b = true) -> List.filter f l `sublist_of` List.filter g l.
Proof.
  intros Hfg. induction l as [|b l IH]; cbn; [done|]. destruct (f b) eqn:Hf; [rewrite (Hfg b Hf); by constructor|].
  destruct (g b); [by apply sublist_cons|done].
Qed.

Lemma remaining_ids p c t : unique_ids p t -> NoDup (ident <$> remaining p c t).
Proof.
  intros Hu. unfold remaining. rewrite py_sorted_perm. apply (sublist_NoDup _ _ Hu).
  apply fmap_sublist, filter_sublist. intros b. by intros [? _]%andb_prop.
Qed.

Lemma strictly_sorted (l : list A) :
  NoDup (ident <$> l) -> StronglySorted (leb_of newest_first) l ->
  StronglySorted (fun x y => newest_first x y = true) l.
Proof.
  intros Hn Hs. induction Hs as [|x l Hs IH Hx]; [constructor|]. rewrite fmap_cons in Hn.
  apply NoDup_cons in Hn as [Hx' Hn]. constructor; [by apply IH|].
  rewrite Forall_forall in Hx |- *. intros y Hy. apply newest_first_total; [|by apply Hx].
  intros Heq. apply Hx'. rewrite <- Heq. by apply list_elem_of_fmap_2.
Qed.

Lemma remaining_sorted p c t :
  unique_ids p t -> StronglySorted (fun x y => newest_first x y = true) (remaining p c t).
Proof.
  intros Hu. apply strictly_sorted; [by apply remaining_ids|]. apply (py_sorted_sorted newest_first (ok := fun _ => True)).
  by apply Forall_true.
Qed.

(** One page: the whole rest, or a full page that ends at the next cursor. *)
Lemma list_page_spec p c limit t :
  (1 <= limit)%nat -> unique_ids p t ->
  let pg := list_page p c limit t in
  (pg_next pg = None /\ pg_has_more pg = false /\ pg_data pg = remaining p c t /\ (length (pg_data pg) <= limit)%nat) \/
  (exists l1 x l2, remaining p c t = l1 ++ x :: l2 /\ pg_data pg = l1 ++ [x] /\ pg_has_more pg = true /\
     pg_next pg = Some (cursor_of x) /\ length (pg_data pg) = limit /\ l2 <> [] /\
     (forall y, y ∈ l1 ++ [x] -> newest_first x y = false) /\ (forall y, y ∈ l2 -> newest_first x y = true)).
Proof.
  intros Hl Hu pg. pose proof (remaining_sorted p c t Hu) as Hs. unfold pg, list_page, fetch.
  fold (remaining p c t). set (L := remaining p c t) in *. cbn [pg_data pg_next pg_has_more].
  rewrite length_take, take_take. replace (limit `min` (limit + 1))%nat with limit by lia.
  destruct (decide (limit < length L)%nat) as [Hlt|Hge].
  - right. rewrite (proj2 (Nat.ltb_lt limit _)) by lia.
    destruct (lookup_lt_is_Some_2 L (limit - 1)) as [x Hx]; [lia|].
    pose proof (take_drop_middle L (limit - 1) x Hx) as Hmid. exists (take (limit - 1) L), x, (drop limit L).
    replace (S (limit - 1)) with limit in Hmid by lia.
    rewrite <- (take_S_r L (limit - 1) x Hx). replace (S (limit - 1)) with limit by lia.
    rewrite lookup_take_lt by lia. rewrite Hx. split_and!; try done.
    + by rewrite length_take_le by lia.
    + intros Hn%(f_equal length). rewrite length_drop in Hn. cbn in Hn. lia.
    + intros y Hy. replace limit with (S (limit - 1)) in Hy by lia. rewrite (take_S_r _ _ _ Hx) in Hy.
      rewrite <- Hmid in Hs.
      apply elem_of_app in Hy as [Hy|Hy%list_elem_of_singleton]; [|subst y; apply newest_first_irrefl].
      apply (po_asym (ok := fun _ => True)); [done..|].
      exact (StronglySorted_app_1_elem_of _ _ _ _ _ Hs Hy (list_elem_of_here _ _)).
    + rewrite <- Hmid in Hs. apply StronglySorted_app_1_r in Hs. apply StronglySorted_inv in Hs as [_ Hs].
      by rewrite Forall_forall in Hs.
  - left. rewrite (proj2 (Nat.ltb_ge limit _)) by lia. rewrite take_ge by lia. split_and!; done || lia.
Qed.

(** ** Walks *)

Lemma mjoin_cons {B} (l : list B) ls : mjoin (l :: ls) = l ++ mjoin ls.
Proof. done. Qed.

(** How often an id occurs. *)
Definition count_id (i : Z) (l : list A) : nat := length (List.filter (fun a => ident a =? i) l).

Lemma count_id_app i l k : count_id i (l ++ k) = (count_id i l + count_id i k)%nat.
Proof. unfold count_id. by rewrite List.filter_app, length_app. Qed.

Lemma count_id_absent i l : (forall a, a ∈ l -> ident a <> i) -> count_id i l = 0%nat.
Proof.
  intros Hl. unfold count_id. induction l as [|a l IH]; cbn; [done|].
  rewrite (proj2 (Z.eqb_neq (ident a) i)) by (apply Hl; left). apply IH. intros b Hb. apply Hl. by right.
Qed.

Lemma count_id_once a l : NoDup (ident <$> l) -> a ∈ l -> count_id (ident a) l = 1%nat.
Proof.
  intros Hn (l1 & l2 & ->)%list_elem_of_split. rewrite fmap_app, fmap_cons in Hn.
  apply NoDup_app in Hn as (_ & Hd & Hn). apply NoDup_cons in Hn as [Hx _].
  rewrite count_id_app. unfold count_id at 2. cbn. rewrite Z.eqb_refl. cbn.
  fold (count_id (ident a) l2). rewrite !count_id_absent; [done|..].
  - intros b Hb Heq. apply Hx. rewrite <- Heq. by apply list_elem_of_fmap_2.
  - intros b Hb Heq. apply (Hd (ident a)); [rewrite <- Heq; by apply list_elem_of_fmap_2|left].
Qed.

(** A row stays listed: it satisfies the filter in every table of the walk, with
    the same key. *)
Definition stays (p : A -> bool) (t : list A) (a : A) : Prop :=
  exists a', a' ∈ t /\ p a' = true /\ ident a' = ident a /\ created_at a' = created_at a.

Lemma same_key_after a a' c : ident a' = ident a -> created_at a' = created_at a -> after_cursor c a' = after_cursor c a.
Proof. intros Hi Hc. destruct c; cbn; by rewrite ?Hi, ?Hc. Qed.

Lemma unique_row p t a b : unique_ids p t -> a ∈ t -> p a = true -> b ∈ t -> p b = true -> ident a = ident b -> a = b.
Proof.
  unfold unique_ids. intros Hn Ha Hpa Hb Hpb Heq.
  assert (a ∈ List.filter p t) as Ha' by (apply list_elem_of_In, filter_In; by rewrite <- list_elem_of_In).
  assert (b ∈ List.filter p t) as Hb' by (apply list_elem_of_In, filter_In; by rewrite <- list_elem_of_In).
  apply list_elem_of_lookup in Ha' as [i Hi], Hb' as [j Hj].
  assert (i = j) as <-; [|congruence].
  eapply NoDup_lookup; [exact Hn|by rewrite list_lookup_fmap, Hi|by rewrite list_lookup_fmap, Hj, Heq].
Qed.

Lemma walk_lists p limit c ts ds a :
  walk p limit c ts ds -> (1 <= limit)%nat ->
  Forall (unique_ids p) ts -> Forall (fun t => stays p t a) ts ->
  count_id (ident a) (mjoin ds) = if after_cursor c a then 1%nat else 0%nat.
Proof.
  intros Hw Hl. induction Hw as [c t Hnext|c t c' ts ds Hnext Hw IH]; intros Hu Hst;
    apply Forall_cons in Hu as [Hut Hu], Hst as [(a' & Ha' & Hp & Hi & Hc) Hst];
    destruct (list_page_spec p c limit t Hl Hut) as [(Hn & _ & Hd & _)|(l1 & x & l2 & HL & Hd & _ & Hn & _ & _ & H1 & H2)];
    cbn [pg_data pg_next] in *; try congruence; rewrite mjoin_cons.
  - rewrite app_nil_r, Hd, <- Hi, <- (same_key_after a a' c Hi Hc).
    destruct (after_cursor c a') eqn:Haft.
    + apply count_id_once; [by apply remaining_ids|]. by apply remaining_elem.
    + apply count_id_absent. intros b (Hb & Hpb & Hab)%remaining_elem Heq.
      assert (b = a') as -> by (by eapply unique_row). congruence.
  - rewrite count_id_app, (IH Hu Hst), Hd. assert (c' = cursor_of x) as -> by congruence.
    rewrite <- Hi, <- (same_key_after a a' c Hi Hc), <- (same_key_after a a' (Some (cursor_of x)) Hi Hc), after_cursor_of.
    assert (x ∈ remaining p c t) as Hx by (rewrite HL; apply elem_of_app; right; left).
    apply remaining_elem in Hx as (_ & _ & Hx).
    destruct (after_cursor c a') eqn:Haft.
    + assert (a' ∈ remaining p c t) as Hin by (by apply remaining_elem).
      pose proof (remaining_ids p c t Hut) as Hnd. rewrite HL, (cons_middle x), app_assoc in Hin, Hnd.
      apply elem_of_app in Hin as [Hin|Hin].
      * rewrite (H1 a' Hin). rewrite fmap_app in Hnd. apply NoDup_app in Hnd as (Hnd & _ & _).
        by rewrite count_id_once.
      * rewrite (H2 a' Hin). rewrite count_id_absent; [done|]. intros b Hb Heq.
        rewrite fmap_app in Hnd. apply NoDup_app in Hnd as (_ & Hnd & _).
        apply (Hnd (ident a')); [rewrite <- Heq|]; by apply list_elem_of_fmap_2.
    + rewrite count_id_absent.
      * destruct (newest_first x a') eqn:Hxa; [|done].
        rewrite (after_cursor_trans c x a' Hx Hxa) in Haft. done.
      * intros b Hb Heq. assert (b ∈ remaining p c t) as Hbr
          by (rewrite HL, (cons_middle x), app_assoc; apply elem_of_app; by left).
        apply remaining_elem in Hbr as (Hbt & Hpb & Hab).
        assert (b = a') as -> by (by eapply unique_row). congruence.
Qed.

(** C35: Paging misses nothing that stays: whatever is inserted, changed or removed
    between the pages, a row that keeps its place and its filter for the whole walk
    is listed exactly once. *)
Theorem stable_rows_listed_once p limit ts ds a :
  walk p limit None ts ds -> (1 <= limit)%nat ->
  Forall (unique_ids p) ts -> Forall (fun t => stays p t a) ts ->
  count_id (ident a) (mjoin ds) = 1%nat.
Proof. intros Hw Hl Hu Hs. by rewrite (walk_lists _ _ _ _ _ _ Hw Hl Hu Hs). Qed.

(** The rest after a full page is what follows its last row. *)
Lemma remaining_next p c t l1 x l2 :
  unique_ids p t -> remaining p c t = l1 ++ x :: l2 ->
  (forall y, y ∈ l1 ++ [x] -> newest_first x y = false) -> (forall y, y ∈ l2 -> newest_first x y = true) ->
  remaining p (Some (cursor_of x)) t = l2.
Proof.
  intros Hu HL H1 H2. pose proof (remaining_sorted p (Some (cursor_of x)) t Hu) as Hs.
  pose proof (remaining_sorted p c t Hu) as Hs'. rewrite HL in Hs'. apply StronglySorted_app_1_r in Hs'.
  apply StronglySorted_inv in Hs' as [Hs' _].
  apply (StronglySorted_unique_strong (fun x y => newest_first x y = true)); [|done|done|].
  - intros a b _ _ Hab Hba. pose proof (po_asym (ok := fun _ => True) a b I I Hab). congruence.
  - apply NoDup_Permutation.
    + eapply NoDup_fmap_1, (remaining_ids p (Some (cursor_of x)) t Hu).
    + pose proof (remaining_ids p c t Hu) as Hn. rewrite HL in Hn. apply NoDup_fmap_1 in Hn.
      apply NoDup_app in Hn as (_ & _ & Hn). by apply NoDup_cons in Hn as [_ Hn].
    + intros a. rewrite remaining_elem, after_cursor_of.
      assert (x ∈ remaining p c t) as Hx by (rewrite HL; apply elem_of_app; right; left).
      apply remaining_elem in Hx as (_ & _ & Hx). split.
      * intros (Ha & Hp & Hxa). pose proof (after_cursor_trans c x a Hx Hxa) as Hc.
        assert (a ∈ remaining p c t) as Hin by (by apply remaining_elem).
        rewrite HL, (cons_middle x), app_assoc in Hin. apply elem_of_app in Hin as [Hin|Hin]; [|done].
        rewrite (H1 a Hin) in Hxa. done.
      * intros Ha. assert (a ∈ remaining p c t) as Hin by (rewrite HL; apply elem_of_app; right; by right).
        apply remaining_elem in Hin as (? & ? & _). auto.
Qed.

Lemma walk_pages_all fuel p limit c t :
  (1 <= limit)%nat -> unique_ids p t -> (length (remaining p c t) < fuel)%nat ->
  mjoin (walk_pages fuel p limit c t) = remaining p c t /\
  Forall (fun d => (length d <= limit)%nat) (walk_pages fuel p limit c t).
Proof.
  intros Hl Hu. revert c. induction fuel as [|fuel IH]; intros c Hf; [lia|]. cbn [walk_pages].
  destruct (list_page_spec p c limit t Hl Hu)
    as [(Hn & _ & Hd & Hlen)|(l1 & x & l2 & HL & Hd & _ & Hn & Hlen & _ & H1 & H2)]; rewrite Hn, mjoin_cons.
  - rewrite app_nil_r. split; [done|]. by repeat constructor.
  - pose proof (remaining_next p c t l1 x l2 Hu HL H1 H2) as Hnext.
    destruct (IH (Some (cursor_of x))) as [Hj Ha].
    { rewrite Hnext. rewrite HL, length_app in Hf. cbn in Hf. lia. }
    split; [|constructor; [lia|done]].
    by rewrite Hj, Hnext, Hd, HL, <- app_assoc.
Qed.

(** Following the cursors of an unchanging table lists every row of the filter,
    each once, newest first, in pages no larger than the limit, and ends. *)
Theorem paging_lists_everything p limit t :
  (1 <= limit)%nat -> unique_ids p t ->
  mjoin (walk_pages (S (length t)) p limit None t) = py_sorted newest_first (List.filter p t) /\
  Forall (fun d => (length d <= limit)%nat) (walk_pages (S (length t)) p limit None t).
Proof.
  intros Hl Hu. assert (remaining p None t = py_sorted newest_first (List.filter p t)) as <-.
  { unfold remaining. f_equal. apply List.filter_ext. intros a. apply andb_true_r. }
  apply walk_pages_all; [done..|]. unfold remaining. rewrite py_sorted_length.
  pose proof (List.filter_length_le (fun a => p a && after_cursor None a)%bool t). lia.
Qed.
End Pages.
Arguments CursorPage : clear implicits.

(** ** The text of a cursor *)

Section Texts.
Context `{UnicodeDB, Jwt, TimeText}.

(** A cursor survives its journey: the text of a position, returned by a client,
    parses to exactly that position. *)
Theorem cursor_roundtrip (c : Cursor) :
  0 <= cu_id c < 2 ^ 128 -> json_reads_back (JvDict (keyset_cursor_payload c)) ->
  json_dumps (JvDict (keyset_cursor_payload c)) <> [] ->
  (let* texts := parse_list_cursor (Some (encode_cursor (keyset_cursor_payload c))) in cast_cursor texts) = Ok (Some c).
Proof.
  intros Hid [Hread Hbytes] Hne. unfold parse_list_cursor, decode_cursor, encode_cursor.
  destruct (b64url _) as [|ch s] eqn:He.
  { exfalso. destruct (json_dumps _) as [|a [|b [|b' l]]] eqn:Hj; cbn in He; done. }
  rewrite <- He, b64url_roundtrip, Hread by done. unfold keyset_cursor_payload. cbn [dict_get rbind].
  rewrite (bool_decide_eq_true_2 (lit "created_at" = lit "created_at")), (bool_decide_eq_true_2 (lit "id" = lit "id")),
    (bool_decide_eq_false_2 (lit "created_at" = lit "id")) by done.
  pose proof (isoformat_nonempty (cu_created_at c)) as Hiso. pose proof (uuid_str_length (cu_id c)) as Hlen.
  destruct (isoformat (cu_created_at c)) as [|i0 iso] eqn:Hi; [done|].
  destruct (uuid_str (cu_id c)) as [|u0 us] eqn:Hus; [done|]. cbn [falsy orb rbind str_of cast_cursor].
  rewrite <- Hi, timestamptz_isoformat, <- Hus, uuid_roundtrip by done. by destruct c.
Qed.
End Texts.

(** ** Concrete walks *)

Module PageSample.

(** Rows are pairs of a time and an id.  Between the two pages of a walk a new row
    arrives and an old one goes. *)
Definition early : list (Z * Z) := [(10, 1); (20, 2); (30, 3); (40, 4)].
Definition later : list (Z * Z) := [(50, 5); (20, 2); (30, 3); (40, 4)].

Lemma stable_rows_listed_once_witness :
  count_id snd 2 (mjoin [[(40, 4); (30, 3)]; [(20, 2)]]) = 1%nat.
Proof.
  refine (stable_rows_listed_once fst snd (fun _ => true) 2 [early; later] [[(40, 4); (30, 3)]; [(20, 2)]] (20, 2) _ _ _ _).
  - apply (walk_more fst snd (fun _ => true) 2 None early {| cu_created_at := 30; cu_id := 3 |} [later] [[(20, 2)]]);
      [vm_compute; reflexivity|].
    exact (walk_last fst snd (fun _ => true) 2 (Some {| cu_created_at := 30; cu_id := 3 |}) later eq_refl).
  - lia.
  - repeat constructor; unfold unique_ids; apply (bool_decide_unpack _); vm_compute; exact I.
  - repeat constructor; (exists (20, 2); split_and!; [by apply list_elem_of_In; cbn; auto|done..]).
Defined.

Lemma paging_lists_everything_witness :
  mjoin (walk_pages fst snd 5 (fun _ => true) 2 None early) = [(40, 4); (30, 3); (20, 2); (10, 1)].
Proof.
  refine (proj1 (paging_lists_everything fst snd (fun _ => true) 2 early _ _)); [lia|].
  unfold unique_ids. apply (bool_decide_unpack _). vm_compute. exact I.
Defined.
End PageSample.
