(* ===== verification/Users.v ===== *)
(** * Users of an organization ([services/api/app/services/users.py])

    Invitations, role changes, removal with token revocation, and the protection of
    the last owner.  Each request is a transaction of several statements under
    READ COMMITTED with row locks; requests interleave, so the component is a step
    relation whose steps are statements.  A statement that waits for a lock is taken
    when it gets it; the UPDATE and its COMMIT are one step, as nothing lies between
    them.  Lists are pages of [Pagination]. *)

From S2P Require Import Prelude PyText Wire SessionToken Pagination.

Definition UUID : Type := string.

Inductive Role := owner | admin | member | viewer.

#[global] Instance Role_eq_dec : EqDecision Role.
Proof. solve_decision. Defined.

Record User := {
  u_org : UUID;
  u_email : string;
  u_name : string;
  u_role : Role;
  u_status : string;
  u_created_at : Z;
  u_deleted : bool;
}.

Record Token := { tk_org : UUID; tk_user : Z; tk_created_at : Z; tk_revoked : bool }.

Inductive ApiError :=
| NotFound
| InsufficientPermissions
| LastOwnerProtected
| ValidationError
| AuthUnavailable
| AuthError.

#[global] Instance UsersError_eq_dec : EqDecision ApiError.
Proof. solve_decision. Defined.

(** ** Statements *)

Definition live_in (org : UUID) (u : User) : bool := (String.eqb (u_org u) org && negb (u_deleted u))%bool.

(** [get_user] *)
Definition get_user (t : gmap Z User) (org : UUID) (i : Z) : result ApiError User :=
  match t !! i with
  | Some u => if live_in org u then Ok u else Raise NotFound
  | None => Raise NotFound
  end.

Definition is_owner_demotion (current : Role) (new : option Role) : bool :=
  match new with Some r => bool_decide (current = owner /\ r <> owner) | None => false end.

(** The rows [_assert_not_last_owner] locks. *)
Definition is_live_owner (org : UUID) (u : User) : bool := (live_in org u && bool_decide (u_role u = owner))%bool.

Definition live_owners (t : gmap Z User) (org : UUID) : gset Z :=
  dom (filter (fun iu => is_live_owner org iu.2 = true) t).

(** ** Requests *)

Inductive Request :=
| Patch (org : UUID) (user : Z) (name : option string) (role : option Role) (caller : Role)
| Delete (org : UUID) (user : Z).

Definition rq_org (q : Request) : UUID := match q with Patch o _ _ _ _ => o | Delete o _ => o end.
Definition rq_user (q : Request) : Z := match q with Patch _ i _ _ _ => i | Delete _ i => i end.

(** Whether the request must check that another owner remains, as it judges from
    the row it read. *)
Definition guarded (q : Request) (current : User) : bool :=
  match q with
  | Patch _ _ _ role _ => is_owner_demotion (u_role current) role
  | Delete _ _ => bool_decide (u_role current = owner)
  end.

Definition set_user (name : string) (role : Role) (status : string) (deleted : bool) (u : User) : User :=
  {| u_org := u_org u; u_email := u_email u; u_name := name; u_role := role; u_status := status;
     u_created_at := u_created_at u; u_deleted := deleted |}.

(** The columns the UPDATE sets, from the row that was read and the row it meets. *)
Definition written (q : Request) (current row : User) : User :=
  match q with
  | Patch _ _ name role _ =>
      set_user (default (u_name current) name) (default (u_role current) role) (u_status row) (u_deleted row) row
  | Delete _ _ => set_user (u_name row) (u_role row) "deactivated" true row
  end.

(** How far a transaction is: it has read the row; it holds its locks, or needs
    none; it has revoked the user's tokens. *)
Inductive Phase := MustLock | Ready | TokensRevoked.

Record Tx := { tx_req : Request; tx_current : User; tx_phase : Phase; tx_locks : gset Z; tx_tokens : list string }.

(** The first statements of [patch_user] and [soft_delete_user]. *)
Definition begin_request (t : gmap Z User) (q : Request) : result ApiError Tx :=
  let* current := get_user t (rq_org q) (rq_user q) in
  raise_if match q with
           | Patch _ _ _ role caller => bool_decide (role = Some owner /\ caller <> owner)
           | Delete _ _ => false
           end with InsufficientPermissions ;;
  Ok {| tx_req := q; tx_current := current; tx_phase := if guarded q current then MustLock else Ready;
        tx_locks := ∅; tx_tokens := [] |}.

(** ** Token revocation *)

Inductive Answer := Revoked | Unavailable | Refused.

Definition revoke_token (id : string) (ts : gmap string Token) : gmap string Token :=
  alter (fun k => {| tk_org := tk_org k; tk_user := tk_user k; tk_created_at := tk_created_at k; tk_revoked := true |}) id ts.

(** One round over the tokens: the error that stopped it, the answers left. *)
Fixpoint revoke_round (ids : list string) (answers : list Answer) (ts : gmap string Token)
    : option Answer * list Answer * gmap string Token :=
  match ids with
  | [] => (None, answers, ts)
  | i :: ids =>
      match answers with
      | Revoked :: answers => revoke_round ids answers (revoke_token i ts)
      | x :: answers => (Some x, answers, ts)
      | [] => (Some Unavailable, [], ts)
      end
  end.

Definition REVOKE_MAX_ATTEMPTS : nat := 3.

(** [_revoke_tokens_before_delete] *)
Fixpoint revoke_attempts (n : nat) (ids : list string) (answers : list Answer) (ts : gmap string Token)
    : result ApiError unit * gmap string Token :=
  match n with
  | O => (Raise AuthUnavailable, ts)
  | S n =>
      match revoke_round ids answers ts with
      | (None, _, ts) => (Ok tt, ts)
      | (Some Unavailable, answers, ts) => revoke_attempts n ids answers ts
      | (Some _, _, ts) => (Raise AuthError, ts)
      end
  end.

Definition revoke_tokens_before_delete := revoke_attempts REVOKE_MAX_ATTEMPTS.

(** [_list_active_token_ids] *)
Definition token_ltb : string * Token -> string * Token -> bool :=
  key_ltb (fun kt => (tk_created_at kt.2, kt.1)) (pair_ltb Z.eqb Z.ltb str_ltb).

Definition list_active_token_ids (ts : gmap string Token) (org : UUID) (user : Z) : list string :=
  (py_sorted token_ltb (List.filter (fun kt => (String.eqb (tk_org kt.2) org && (tk_user kt.2 =? user)
      && negb (tk_revoked kt.2))%bool) (map_to_list ts))).*1.

(** ** Invitations *)

(** [InviteRole] *)
Inductive InviteRole := invite_admin | invite_member | invite_viewer.

Definition invite_role (r : InviteRole) : Role :=
  match r with invite_admin => admin | invite_member => member | invite_viewer => viewer end.

(** [UNIQUE(org_id, email)]: removed users count. *)
Definition email_taken (t : gmap Z User) (org : UUID) (email : string) : bool :=
  existsb (fun iu => (String.eqb (u_org iu.2) org && String.eqb (u_email iu.2) email)%bool) (map_to_list t).

(** [create_user_invite]; [email] is lower case, [i] the id the database draws. *)
Definition create_user_invite (t : gmap Z User) (now i : Z) (org : UUID) (email name : string) (r : InviteRole)
    : result ApiError (gmap Z User) :=
  raise_if email_taken t org email with ValidationError ;;
  Ok (<[i := {| u_org := org; u_email := email; u_name := name; u_role := invite_role r; u_status := "invited";
                u_created_at := now; u_deleted := false |}]> t).

(** ** Interleaved requests *)

Record State := { users : gmap Z User; tokens : gmap string Token; txs : gmap nat Tx }.

Definition with_tx (st : State) (x : nat) (o : option Tx) : State :=
  {| users := users st; tokens := tokens st; txs := partial_alter (fun _ => o) x (txs st) |}.

(** No other transaction holds a lock on one of the rows. *)
Definition unlocked (st : State) (x : nat) (rows : gset Z) : Prop :=
  forall y tx, txs st !! y = Some tx -> y <> x -> tx_locks tx ## rows.

Definition in_phase (ph : Phase) (tx : Tx) : Tx :=
  {| tx_req := tx_req tx; tx_current := tx_current tx; tx_phase := ph; tx_locks := tx_locks tx; tx_tokens := tx_tokens tx |}.

(** A removal updates after its tokens are revoked, a change when it is ready. *)
Definition may_update (tx : Tx) : bool :=
  match tx_req tx, tx_phase tx with
  | Patch _ _ _ _ _, Ready | Delete _ _, TokensRevoked => true
  | _, _ => false
  end.

(** What a step did: [Updated fresh] tells whether the role that was read is the
    role of the row the UPDATE met. *)
Inductive Label := Began | Locked | Denied | Revoking (ok : bool) | Updated (fresh : bool) | Missed | Invited.

Inductive step : State -> Label -> State -> Prop :=
| step_begin st x q tx : txs st !! x = None -> begin_request (users st) q = Ok tx ->
    step st Began (with_tx st x (Some tx))
| step_lock st x tx : txs st !! x = Some tx -> tx_phase tx = MustLock ->
    unlocked st x (live_owners (users st) (rq_org (tx_req tx))) ->
    (1 < size (live_owners (users st) (rq_org (tx_req tx))))%nat ->
    step st Locked (with_tx st x (Some {| tx_req := tx_req tx; tx_current := tx_current tx; tx_phase := Ready;
                                          tx_locks := live_owners (users st) (rq_org (tx_req tx)); tx_tokens := [] |}))
| step_denied st x tx : txs st !! x = Some tx -> tx_phase tx = MustLock ->
    unlocked st x (live_owners (users st) (rq_org (tx_req tx))) ->
    (size (live_owners (users st) (rq_org (tx_req tx))) <= 1)%nat ->
    step st Denied (with_tx st x None)
| step_revoke st x tx org i answers ts' : txs st !! x = Some tx -> tx_req tx = Delete org i -> tx_phase tx = Ready ->
    revoke_tokens_before_delete (list_active_token_ids (tokens st) org i) answers (tokens st) = (Ok tt, ts') ->
    step st (Revoking true)
      {| users := users st; tokens := ts';
         txs := <[x := {| tx_req := tx_req tx; tx_current := tx_current tx; tx_phase := TokensRevoked;
                          tx_locks := tx_locks tx; tx_tokens := list_active_token_ids (tokens st) org i |}]> (txs st) |}
| step_revoke_failed st x tx org i answers e ts' : txs st !! x = Some tx -> tx_req tx = Delete org i -> tx_phase tx = Ready ->
    revoke_tokens_before_delete (list_active_token_ids (tokens st) org i) answers (tokens st) = (Raise e, ts') ->
    step st (Revoking false) {| users := users st; tokens := ts'; txs := delete x (txs st) |}
| step_update st x tx row : txs st !! x = Some tx -> may_update tx = true ->
    unlocked st x {[rq_user (tx_req tx)]} ->
    users st !! rq_user (tx_req tx) = Some row -> live_in (rq_org (tx_req tx)) row = true ->
    step st (Updated (bool_decide (u_role row = u_role (tx_current tx))))
      {| users := <[rq_user (tx_req tx) := written (tx_req tx) (tx_current tx) row]> (users st); tokens := tokens st;
         txs := delete x (txs st) |}
| step_missed st x tx : txs st !! x = Some tx -> may_update tx = true ->
    get_user (users st) (rq_org (tx_req tx)) (rq_user (tx_req tx)) = Raise NotFound ->
    step st Missed (with_tx st x None)
| step_invite st now i org email name r t' : users st !! i = None ->
    create_user_invite (users st) now i org email name r = Ok t' ->
    step st Invited {| users := t'; tokens := tokens st; txs := txs st |}.

Inductive steps : State -> list Label -> State -> Prop :=
| steps_nil st : steps st [] st
| steps_cons st l st' ls st'' : step st l st' -> steps st' ls st'' -> steps st (l :: ls) st''.

(** ** Lists *)

(** [list_users] on the rows with their ids. *)
Definition list_users (t : list (Z * User)) (org : UUID) (c : option Cursor) (limit : nat) : CursorPage (Z * User) :=
  list_page (fun iu => u_created_at iu.2) (fun iu => iu.1) (fun iu => live_in org iu.2) c limit t.

(** ** The last owner *)

Lemma live_owners_elem t org i :
  i ∈ live_owners t org <-> exists u, t !! i = Some u /\ is_live_owner org u = true.
Proof.
  unfold live_owners. rewrite elem_of_dom. split.
  - intros [u (Hu & Ho)%map_lookup_filter_Some]. eauto.
  - intros (u & Hu & Ho). exists u. by apply map_lookup_filter_Some.
Qed.

Definition has_owner (org : UUID) (t : gmap Z User) : Prop := exists i, i ∈ live_owners t org.

(** What a running transaction holds: when it must guard the owners and is past the
    check, it holds at least two rows, all of them live owners. *)
Definition tx_ok (t : gmap Z User) (tx : Tx) : Prop :=
  (tx_locks tx ⊆ live_owners t (rq_org (tx_req tx))) /\
  (tx_phase tx <> MustLock -> guarded (tx_req tx) (tx_current tx) = true -> (1 < size (tx_locks tx))%nat).

Record inv (st : State) : Prop := {
  inv_txs : forall x tx, txs st !! x = Some tx -> tx_ok (users st) tx;
  inv_locks : forall x y tx tx', txs st !! x = Some tx -> txs st !! y = Some tx' -> x <> y -> tx_locks tx ## tx_locks tx';
}.

(** Dropping a transaction, or keeping its locks, keeps the invariant. *)
Lemma inv_sub st st' :
  inv st -> users st' = users st ->
  (forall x tx, txs st' !! x = Some tx -> exists tx0, txs st !! x = Some tx0 /\ tx_locks tx = tx_locks tx0 /\ tx_ok (users st) tx) ->
  inv st'.
Proof.
  intros [Ht Hl] Hu Hsub. split.
  - intros x tx Hx. rewrite Hu. by destruct (Hsub x tx Hx) as (_ & _ & _ & ?).
  - intros x y tx tx' Hx Hy Hne. destruct (Hsub x tx Hx) as (tx0 & H0 & -> & _), (Hsub y tx' Hy) as (tx1 & H1 & -> & _).
    by eapply Hl.
Qed.

Lemma inv_drop st x : inv st -> inv (with_tx st x None).
Proof.
  intros Hi. apply (inv_sub st); [done|done|]. intros y tx Hy. cbn in Hy. exists tx.
  destruct (decide (x = y)) as [->|Hne]; [by rewrite lookup_partial_alter_eq in Hy|].
  rewrite lookup_partial_alter_ne in Hy by done. split_and!; [done|done|]. by eapply inv_txs.
Qed.

(** A write to a row outside a lock set leaves its rows owners. *)
Lemma locks_kept t org L i u : L ⊆ live_owners t org -> i ∉ L -> L ⊆ live_owners (<[i := u]> t) org.
Proof.
  intros HL Hi j Hj. specialize (HL j Hj). apply live_owners_elem in HL as (v & Hv & Ho).
  apply live_owners_elem. exists v. rewrite lookup_insert_ne by set_solver. done.
Qed.

Lemma begin_request_ok t q tx : begin_request t q = Ok tx ->
  tx_locks tx = ∅ /\ tx_req tx = q /\ (tx_phase tx <> MustLock -> guarded (tx_req tx) (tx_current tx) = false).
Proof.
  unfold begin_request. intros (u & Hu & H)%rbind_Ok. destruct (_ : bool); [done|]. injection H as <-. cbn.
  split_and!; [done|done|]. by destruct (guarded q u).
Qed.

Lemma inv_add st x tx :
  inv st -> txs st !! x = None -> tx_locks tx = ∅ -> tx_ok (users st) tx -> inv (with_tx st x (Some tx)).
Proof.
  intros [Ht Hl] Hx He Hok. split; cbn.
  - intros y tx'. destruct (decide (x = y)) as [->|Hne]; [rewrite lookup_partial_alter_eq; by intros [= <-]|].
    rewrite lookup_partial_alter_ne by done. apply Ht.
  - intros y z tx1 tx2. destruct (decide (x = y)) as [<-|Hy], (decide (x = z)) as [<-|Hz];
      rewrite ?lookup_partial_alter_eq, ?lookup_partial_alter_ne by done; intros H1 H2 Hne; simplify_eq.
    + rewrite He. set_solver.
    + rewrite He. set_solver.
    + by eapply Hl.
Qed.

Lemma inv_lock st x tx tx' :
  inv st -> txs st !! x = Some tx -> unlocked st x (tx_locks tx') -> tx_ok (users st) tx' -> inv (with_tx st x (Some tx')).
Proof.
  intros [Ht Hl] Hx Hun Hok. split; cbn.
  - intros y tx0. destruct (decide (x = y)) as [->|Hne]; [rewrite lookup_partial_alter_eq; by intros [= <-]|].
    rewrite lookup_partial_alter_ne by done. apply Ht.
  - intros y z tx1 tx2. destruct (decide (x = y)) as [<-|Hy], (decide (x = z)) as [<-|Hz];
      rewrite ?lookup_partial_alter_eq, ?lookup_partial_alter_ne by done; intros H1 H2 Hne; simplify_eq.
    + symmetry. by eapply Hun.
    + by eapply Hun.
    + by eapply Hl.
Qed.

Lemma create_user_invite_ok t now i org email name r t' :
  create_user_invite t now i org email name r = Ok t' ->
  exists u, t' = <[i := u]> t /\ u_role u <> owner.
Proof.
  unfold create_user_invite. destruct (email_taken _ _ _); [done|]. intros [= <-]. eexists. split; [done|].
  by destruct r.
Qed.

Lemma invite_owners t org i u : t !! i = None -> u_role u <> owner -> live_owners (<[i := u]> t) org = live_owners t org.
Proof.
  intros Hn Hr. apply set_eq. intros j. rewrite !live_owners_elem. destruct (decide (i = j)) as [<-|Hne].
  - rewrite lookup_insert_eq, Hn. split; [|by intros (? & ? & _)]. intros (v & [= <-] & Ho).
    unfold is_live_owner in Ho. bools. done.
  - by rewrite lookup_insert_ne.
Qed.

Lemma users_step_inv st l st' : step st l st' -> inv st -> inv st'.
Proof.
  destruct 1 as [st x q tx Hx Hb|st x tx Hx Hp Hun Hsz|st x tx Hx Hp Hun Hsz|st x tx org i ans ts' Hx Hq Hp Hr
    |st x tx org i ans e ts' Hx Hq Hp Hr|st x tx row Hx Hm Hun Hrow Hlive|st x tx Hx Hm Hg|st now i org em nm r t' Hn Hc];
    intros Hinv; pose proof Hinv as [Ht Hl].
  - apply begin_request_ok in Hb as (He & <- & Hph). apply inv_add; [done..|]. split; [rewrite He; set_solver|].
    intros Hp Hg. rewrite (Hph Hp) in Hg. done.
  - eapply inv_lock; [done|done|done|]. by split.
  - by apply inv_drop.
  - apply (inv_sub st); [done|done|]. intros y tx'. cbn. destruct (decide (x = y)) as [<-|Hne].
    + rewrite lookup_insert_eq. intros [= <-]. exists tx. split_and!; [done|done|].
      destruct (Ht x tx Hx) as [H1 H2]. split; [done|]. intros _ Hg. apply H2; [by rewrite Hp|done].
    + rewrite lookup_insert_ne by done. intros Hy. exists tx'. split_and!; [done|done|by eapply Ht].
  - apply (inv_sub st); [done|done|]. intros y tx'. cbn. intros [Hne Hy]%lookup_delete_Some.
    exists tx'. split_and!; [done|done|by eapply Ht].
  - split; cbn.
    + intros y tx' [Hne Hy]%lookup_delete_Some. destruct (Ht y tx' Hy) as [H1 H2]. split; [|done].
      apply locks_kept; [done|]. pose proof (Hun y tx' Hy (not_eq_sym Hne)). set_solver.
    + intros y z tx1 tx2 [_ Hy]%lookup_delete_Some [_ Hz]%lookup_delete_Some. by eapply Hl.
  - by apply inv_drop.
  - apply create_user_invite_ok in Hc as (u & -> & Hr). split; cbn; [|done].
    intros x tx Hx. unfold tx_ok. rewrite invite_owners by done. by eapply Ht.
Qed.

Lemma owner_kept t org i u j : j ∈ live_owners t org -> i <> j -> has_owner org (<[i := u]> t).
Proof.
  intros Hj Hne. exists j. apply live_owners_elem in Hj as (v & Hv & Ho). apply live_owners_elem.
  exists v. by rewrite lookup_insert_ne.
Qed.

(** A write that takes an owner away was guarded. *)
Lemma unguarded_keeps q row current org :
  u_role row = u_role current -> guarded q current = false -> live_in (rq_org q) row = true ->
  is_live_owner org row = true -> is_live_owner org (written q current row) = true.
Proof.
  unfold is_live_owner, live_in. intros Hr Hg _ Ho. apply andb_prop in Ho as [Ho Hrole]. bools.
  destruct q as [o i nm role caller|o i]; cbn in *; [|bools; congruence].
  rewrite (proj2 (String.eqb_eq _ _) H), H0. destruct role as [r|]; cbn in *.
  - bools. apply bool_decide_eq_true. apply dec_stable. intros Hne. apply Hg. split; congruence.
  - apply bool_decide_eq_true. congruence.
Qed.

Lemma step_owner st l st' org :
  step st l st' -> inv st -> l <> Updated false -> has_owner org (users st) -> has_owner org (users st').
Proof.
  intros Hs Hinv Hl [j Hj]. destruct Hs as [| | | | |st x tx row Hx Hm Hun Hrow Hlive| |st now i o em nm r t' Hn Hc];
    try (by exists j); cbn in *.
  - destruct (bool_decide_reflect (u_role row = u_role (tx_current tx))) as [Hfresh|]; [|done].
    set (i := rq_user (tx_req tx)) in *. destruct (decide (i = j)) as [<-|Hne]; [|by eapply owner_kept].
    apply live_owners_elem in Hj as (u & Hu & Ho). simplify_eq.
    destruct (guarded (tx_req tx) (tx_current tx)) eqn:Hg.
    + destruct (inv_txs st Hinv x tx Hx) as [Hlocks Hsz].
      assert (1 < size (tx_locks tx))%nat as Hsize.
      { apply Hsz; [|done]. unfold may_update in Hm. by destruct (tx_req tx), (tx_phase tx). }
      assert (rq_org (tx_req tx) = org) as <-.
      { unfold live_in in Hlive. unfold is_live_owner, live_in in Ho. bools. congruence. }
      destruct (decide (tx_locks tx ⊆ {[i]})) as [Hsub|Hsub].
      { apply subseteq_size in Hsub. rewrite size_singleton in Hsub. lia. }
      assert (exists k, k ∈ tx_locks tx /\ i <> k) as (k & Hk & Hne).
      { destruct (set_choose_or_empty (tx_locks tx ∖ {[i]})) as [[k Hk]|Hemp].
        - apply elem_of_difference in Hk as [Hk Hn]. exists k. split; [done|]. intros ->. by apply Hn, elem_of_singleton.
        - exfalso. apply Hsub. intros k Hk. apply elem_of_singleton, dec_stable. intros Hn.
          apply (not_elem_of_empty (C := gset Z) k), (Hemp k), elem_of_difference. by rewrite elem_of_singleton. }
      eapply owner_kept; [|exact Hne]. by apply Hlocks.
    + exists i. apply live_owners_elem. exists (written (tx_req tx) (tx_current tx) row).
      rewrite lookup_insert_eq. split; [done|]. by apply unguarded_keeps.
  - apply create_user_invite_ok in Hc as (u & -> & Hr). exists j. by rewrite invite_owners.
Qed.

(** C25: The last owner is protected: however patches, removals and invitations
    interleave, an organization that has an owner keeps one, as long as no UPDATE
    meets a row whose role changed after the request read it. *)
Theorem last_owner_protected st ls st' org :
  steps st ls st' -> txs st = ∅ -> Forall (fun l => l <> Updated false) ls ->
  has_owner org (users st) -> has_owner org (users st').
Proof.
  intros Hs He. assert (inv st) as Hinv by (split; rewrite He; by intros; simplify_map_eq). clear He.
  induction Hs as [|st l st1 ls st2 Hst Hs IH]; [done|]. intros [Hl Hls]%Forall_cons Ho.
  apply IH; [by eapply users_step_inv|done|]. by eapply step_owner.
Qed.

(** ** Tokens of a removed user *)

Definition revoked_in (ts : gmap string Token) (id : string) : Prop :=
  forall k, ts !! id = Some k -> tk_revoked k = true.

Lemma revoke_token_revokes id ts : revoked_in (revoke_token id ts) id.
Proof. intros k Hk. unfold revoke_token in Hk. rewrite lookup_alter_eq in Hk. by destruct (ts !! id); simplify_eq/=. Qed.

Lemma revoke_token_keeps id j ts : revoked_in ts j -> revoked_in (revoke_token id ts) j.
Proof.
  intros Hj. destruct (decide (id = j)) as [->|Hne]; [apply revoke_token_revokes|].
  intros k Hk. unfold revoke_token in Hk. rewrite lookup_alter_ne in Hk by done. by apply Hj.
Qed.

Lemma revoke_round_spec ids answers ts o rest ts' :
  revoke_round ids answers ts = (o, rest, ts') ->
  (forall j, revoked_in ts j -> revoked_in ts' j) /\ (o = None -> Forall (revoked_in ts') ids).
Proof.
  revert answers ts. induction ids as [|i ids IH]; intros answers ts; cbn.
  { intros [= <- <- <-]. split; [done|]. constructor. }
  destruct answers as [|[] answers]; try (intros [= <- <- <-]; by split).
  intros [Hk Hall]%IH. split; [intros j Hj; by apply Hk, revoke_token_keeps|].
  intros Ho. constructor; [apply Hk, revoke_token_revokes|by apply Hall].
Qed.

(** A revocation that succeeds within its attempts has revoked every token, and no
    revocation ever restores one. *)
Lemma revoke_attempts_spec n ids answers ts res ts' :
  revoke_attempts n ids answers ts = (res, ts') ->
  (forall j, revoked_in ts j -> revoked_in ts' j) /\ (res = Ok tt -> Forall (revoked_in ts') ids).
Proof.
  revert answers ts. induction n as [|n IH]; intros answers ts; cbn; [by intros [= <- <-]|].
  destruct (revoke_round ids answers ts) as [[o rest] ts1] eqn:Hr. apply revoke_round_spec in Hr as [Hk Hall].
  destruct o as [[]|].
  1, 3: intros [= <- <-]; by split.
  - intros [Hk2 Hall2]%IH. split; [|done]. intros j Hj. by apply Hk2, Hk.
  - intros [= <- <-]. split; [done|]. intros _. by apply Hall.
Qed.

Definition tokens_inv (st : State) : Prop :=
  forall x tx, txs st !! x = Some tx -> tx_phase tx = TokensRevoked -> Forall (revoked_in (tokens st)) (tx_tokens tx).

Lemma step_tokens st l st' : step st l st' -> tokens_inv st -> tokens_inv st'.
Proof.
  destruct 1 as [st x q tx Hx Hb|st x tx Hx Hp Hun Hsz|st x tx Hx Hp Hun Hsz|st x tx org i ans ts' Hx Hq Hp Hr
    |st x tx org i ans e ts' Hx Hq Hp Hr|st x tx row Hx Hm Hun Hrow Hlive|st x tx Hx Hm Hg|st now i org em nm r t' Hn Hc];
    intros Hinv y tx'; cbn; try (by apply Hinv).
  - destruct (decide (x = y)) as [<-|Hne]; [rewrite lookup_partial_alter_eq|rewrite lookup_partial_alter_ne by done; by apply Hinv].
    intros [= <-] Hp. unfold begin_request in Hb. apply rbind_Ok in Hb as (u & _ & Hb).
    destruct (_ : bool); [done|]. injection Hb as <-. cbn in Hp. by destruct (guarded q u).
  - destruct (decide (x = y)) as [<-|Hne]; [rewrite lookup_partial_alter_eq; by intros [= <-]|].
    rewrite lookup_partial_alter_ne by done. by apply Hinv.
  - destruct (decide (x = y)) as [<-|Hne]; [by rewrite lookup_partial_alter_eq|].
    rewrite lookup_partial_alter_ne by done. by apply Hinv.
  - apply revoke_attempts_spec in Hr as [Hk Hall]. destruct (decide (x = y)) as [<-|Hne].
    + rewrite lookup_insert_eq. intros [= <-] _. by apply Hall.
    + rewrite lookup_insert_ne by done. intros Hy Hph. eapply Forall_impl; [by eapply Hinv|]. exact Hk.
  - apply revoke_attempts_spec in Hr as [Hk _]. intros [_ Hy]%lookup_delete_Some Hph.
    eapply Forall_impl; [by eapply Hinv|]. exact Hk.
  - intros [_ Hy]%lookup_delete_Some. exact (Hinv y tx' Hy).
  - destruct (decide (x = y)) as [<-|Hne]; [by rewrite lookup_partial_alter_eq|].
    rewrite lookup_partial_alter_ne by done. by apply Hinv.
Qed.

(** A user is removed only with revoked tokens: at the moment of the removing
    UPDATE, every token the request found active has been revoked. *)
Theorem removal_follows_revocation st ls st1 st2 x tx org i fresh :
  steps st ls st1 -> txs st = ∅ ->
  txs st1 !! x = Some tx -> tx_req tx = Delete org i -> may_update tx = true -> step st1 (Updated fresh) st2 ->
  Forall (revoked_in (tokens st1)) (tx_tokens tx).
Proof.
  intros Hs He Hx Hq Hm _. assert (tokens_inv st) as Hinv by (intros y t Hy; by rewrite He in Hy). clear He.
  assert (tokens_inv st1) as H1 by (induction Hs; eauto using step_tokens).
  apply (H1 x tx Hx). unfold may_update in Hm. rewrite Hq in Hm. by destruct (tx_phase tx).
Qed.

(** ** Concrete runs *)

Module UsersSample.
Definition user (r : Role) : User :=
  {| u_org := "o"; u_email := "e"; u_name := "n"; u_role := r; u_status := "active"; u_created_at := 0; u_deleted := false |}.

(** One owner (1) and one member (2). *)
Definition st0 : State := {| users := <[1 := user owner]> {[ 2 := user member ]}; tokens := ∅; txs := ∅ |}.

Definition rename : Request := Patch "o" 2 (Some "new"%string) None admin.
Definition promote : Request := Patch "o" 2 None (Some owner) owner.
Definition demote (i : Z) : Request := Patch "o" i None (Some member) owner.

Definition begun (q : Request) (u : User) : Tx :=
  {| tx_req := q; tx_current := u; tx_phase := if guarded q u then MustLock else Ready; tx_locks := ∅; tx_tokens := [] |}.

(** The member is renamed while it is promoted and the old owner steps down. *)
Definition st1 : State := with_tx st0 0 (Some (begun rename (user member))).
Definition st2 : State := with_tx st1 1 (Some (begun promote (user member))).
Definition st3 : State := {| users := <[1 := user owner]> {[ 2 := user owner ]}; tokens := ∅; txs := txs st1 |}.
Definition st4 : State := with_tx st3 1 (Some (begun (demote 1) (user owner))).
Definition st5 : State := with_tx st4 1 (Some {| tx_req := demote 1; tx_current := user owner; tx_phase := Ready;
  tx_locks := live_owners (users st4) "o"; tx_tokens := [] |}).
Definition st6 : State := {| users := <[1 := user member]> {[ 2 := user owner ]}; tokens := ∅; txs := txs st1 |}.
Definition renamed : User :=
  {| u_org := "o"; u_email := "e"; u_name := "new"; u_role := member; u_status := "active"; u_created_at := 0; u_deleted := false |}.
Definition st7 : State := {| users := <[1 := user member]> {[ 2 := renamed ]}; tokens := ∅; txs := ∅ |}.

Lemma promoted : steps st0 [Began; Began; Updated true] st3.
Proof.
  eapply steps_cons; [exact (step_begin st0 0 rename _ eq_refl eq_refl)|].
  eapply steps_cons; [exact (step_begin st1 1 promote _ eq_refl eq_refl)|].
  eapply steps_cons; [|apply steps_nil].
  apply (step_update st2 1 (begun promote (user member)) (user member)); try reflexivity.
  intros y tx Hy Hne. change (txs st2) with (<[1%nat := begun promote (user member)]> ({[0%nat := begun rename (user member)]} : gmap nat Tx)) in Hy.
  apply lookup_insert_Some in Hy as [[<- _]|[_ Hy]]; [done|]. apply lookup_singleton_Some in Hy as [_ <-]. cbn. set_solver.
Qed.

Lemma stepped_down : steps st3 [Began; Locked; Updated true] st6.
Proof.
  eapply steps_cons; [exact (step_begin st3 1 (demote 1) _ eq_refl eq_refl)|].
  assert (forall y tx, txs st4 !! y = Some tx -> y <> 1%nat -> tx_locks tx = ∅) as H4.
  { intros y tx Hy Hne. change (txs st4) with (<[1%nat := begun (demote 1) (user owner)]> ({[0%nat := begun rename (user member)]} : gmap nat Tx)) in Hy.
    apply lookup_insert_Some in Hy as [[<- _]|[_ Hy]]; [done|]. by apply lookup_singleton_Some in Hy as [_ <-]. }
  eapply steps_cons.
  { apply (step_lock st4 1 (begun (demote 1) (user owner))); [reflexivity|reflexivity| |vm_compute; lia].
    intros y tx Hy Hne. rewrite (H4 y tx Hy Hne). set_solver. }
  eapply steps_cons; [|apply steps_nil].
  apply (step_update st5 1 {| tx_req := demote 1; tx_current := user owner; tx_phase := Ready;
    tx_locks := live_owners (users st4) "o"; tx_tokens := [] |} (user owner)); try reflexivity.
  intros y tx Hy Hne. rewrite (H4 y tx); [set_solver| |done].
  unfold st5, with_tx in Hy; cbn in Hy. by rewrite lookup_partial_alter_ne in Hy.
Qed.

(** A rename removes the last owner.  [patch_user] writes back the role it read, so
    renaming a user while she becomes the only owner undoes her promotion without
    the owner check, and leaves the organization without an owner. *)
Theorem rename_can_remove_last_owner :
  has_owner "o" (users st0) /\
  steps st0 [Began; Began; Updated true; Began; Locked; Updated true; Updated false] st7 /\
  ~ has_owner "o" (users st7).
Proof.
  split; [exists 1; vm_compute; done|]. split.
  - assert (forall st ls st' ls' st'', steps st ls st' -> steps st' ls' st'' -> steps st (ls ++ ls') st'') as Happ.
    { intros st ls st' ls' st'' H. induction H; [done|]. intros. econstructor; eauto. }
    eapply (Happ _ [_; _; _] _ [_; _; _; _]); [apply promoted|]. eapply (Happ _ [_; _; _] _ [_]); [apply stepped_down|].
    eapply steps_cons; [|apply steps_nil].
    apply (step_update st6 0 (begun rename (user member)) (user owner)); try reflexivity.
    intros y tx Hy Hne. change (txs st6) with ({[0%nat := begun rename (user member)]} : gmap nat Tx) in Hy.
    apply lookup_singleton_Some in Hy as [<- _]. done.
  - intros [j Hj]. vm_compute in Hj. done.
Qed.

Lemma last_owner_protected_witness : has_owner "o" (users st3).
Proof.
  apply (last_owner_protected st0 [Began; Began; Updated true] st3 "o" promoted); [reflexivity| |].
  - repeat constructor; discriminate.
  - exists 1. vm_compute. reflexivity.
Defined.

(** A removal of user 2, whose one token is revoked at the second attempt. *)
Definition tok (r : bool) : Token := {| tk_org := "o"; tk_user := 2; tk_created_at := 0; tk_revoked := r |}.
Definition sd : State := {| users := users st0; tokens := {[ "t"%string := tok false ]}; txs := ∅ |}.
Definition gone : Tx :=
  {| tx_req := Delete "o" 2; tx_current := user member; tx_phase := TokensRevoked; tx_locks := ∅; tx_tokens := ["t"%string] |}.
Definition sd2 : State := {| users := users st0; tokens := {[ "t"%string := tok true ]}; txs := {[ 0%nat := gone ]} |}.

Lemma removing : steps sd [Began; Revoking true] sd2.
Proof.
  eapply steps_cons; [exact (step_begin sd 0 (Delete "o" 2) _ eq_refl eq_refl)|].
  eapply steps_cons; [|apply steps_nil].
  exact (step_revoke (with_tx sd 0 (Some (begun (Delete "o" 2) (user member)))) 0 _ "o" 2 [Unavailable; Revoked]
    {[ "t"%string := tok true ]} eq_refl eq_refl eq_refl eq_refl).
Qed.

Lemma removal_follows_revocation_witness : Forall (revoked_in (tokens sd2)) ["t"%string].
Proof.
  refine (removal_follows_revocation sd [Began; Revoking true] sd2 _ 0 gone "o" 2 true removing eq_refl eq_refl eq_refl eq_refl _).
  apply (step_update sd2 0 gone (user member)); try reflexivity.
  intros y tx Hy Hne. change (txs sd2) with ({[0%nat := gone]} : gmap nat Tx) in Hy.
  apply lookup_singleton_Some in Hy as [<- _]. contradiction.
Defined.
End UsersSample.
