(* ===== verification/Agents.v ===== *)
(** * Agents of an organization ([services/api/app/services/agents.py])

    Creation, field patches, the status life cycle, soft deletion and lists.  A
    life-cycle request reads the agent and later compares and sets its status, so
    requests interleave between the two; every other request is one step under the
    locks it takes.  JSON columns are opaque texts. *)

From S2P Require Import Prelude PyText Wire SessionToken Pagination.

Definition UUID : Type := string.

Inductive AgentStatus := active | paused | suspended | archived.

#[global] Instance AgentStatus_eq_dec : EqDecision AgentStatus.
Proof. solve_decision. Defined.

Record Agent := {
  a_org : UUID;
  a_created_by : option UUID;
  a_slug : string;
  a_name : string;
  a_description : option string;
  a_status : AgentStatus;
  a_provider : option string;
  a_model : option string;
  a_config : string;
  a_metadata : string;
  a_tags : list string;
  a_total_sessions : Z;
  a_created_at : Z;
  a_deleted : bool;
}.

Inductive ApiError :=
| NotFound
| SlugConflict
| StatusConflict
| HasSessions
| ValidationError
| IntegrityError.                    (* not mapped: the request fails with it *)

#[global] Instance AgentsError_eq_dec : EqDecision ApiError.
Proof. solve_decision. Defined.

(** ** Single statements *)

Definition agent_live (org : UUID) (a : Agent) : bool := (String.eqb (a_org a) org && negb (a_deleted a))%bool.

(** [get_agent] *)
Definition get_agent (t : gmap Z Agent) (org : UUID) (i : Z) : result ApiError Agent :=
  match t !! i with
  | Some a => if agent_live org a then Ok a else Raise NotFound
  | None => Raise NotFound
  end.

Record AgentCreate := {
  ac_name : string;
  ac_slug : string;
  ac_description : option string;
  ac_config : option string;
  ac_metadata : option string;
  ac_tags : option (list string);
  ac_provider : option string;
  ac_model : option string;
}.

(** [UNIQUE(org_id, slug)]: deleted agents count. *)
Definition slug_taken (t : gmap Z Agent) (org : UUID) (slug : string) : bool :=
  existsb (fun ia => (String.eqb (a_org ia.2) org && String.eqb (a_slug ia.2) slug)%bool) (map_to_list t).

Definition EMPTY_OBJECT : string := "{}".

(** [create_agent] and [_create_params]; [i] and [now] are drawn by the database. *)
Definition create_agent (t : gmap Z Agent) (now i : Z) (org : UUID) (by_ : option UUID) (b : AgentCreate)
    : result ApiError (gmap Z Agent) :=
  raise_if slug_taken t org (ac_slug b) with SlugConflict ;;
  Ok (<[i := {| a_org := org; a_created_by := by_; a_slug := ac_slug b; a_name := ac_name b;
                a_description := ac_description b; a_status := active; a_provider := ac_provider b;
                a_model := ac_model b; a_config := default EMPTY_OBJECT (ac_config b);
                a_metadata := default EMPTY_OBJECT (ac_metadata b); a_tags := default [] (ac_tags b);
                a_total_sessions := 0; a_created_at := now; a_deleted := false |}]> t).

(** [AgentPatch] with [model_fields_set]: an absent field, or a field with a value
    that may be null. *)
Record AgentPatch := {
  ap_name : option (option string);
  ap_description : option (option string);
  ap_config : option (option string);
  ap_metadata : option (option string);
  ap_tags : option (option (list string));
  ap_provider : option (option string);
  ap_model : option (option string);
}.

Definition no_fields (b : AgentPatch) : bool :=
  match ap_name b, ap_description b, ap_config b, ap_metadata b, ap_tags b, ap_provider b, ap_model b with
  | None, None, None, None, None, None, None => true
  | _, _, _, _, _, _, _ => false
  end.

(** [_PATCH_AGENT_SQL] on one row; the column [name] is NOT NULL. *)
Definition patched (b : AgentPatch) (a : Agent) : result ApiError Agent :=
  let* name := match ap_name b with
               | None => Ok (a_name a)
               | Some (Some n) => Ok n
               | Some None => Raise IntegrityError
               end in
  Ok {| a_org := a_org a; a_created_by := a_created_by a; a_slug := a_slug a; a_name := name;
        a_description := default (a_description a) (ap_description b); a_status := a_status a;
        a_provider := default (a_provider a) (ap_provider b); a_model := default (a_model a) (ap_model b);
        a_config := match ap_config b with None => a_config a | Some v => default EMPTY_OBJECT v end;
        a_metadata := match ap_metadata b with None => a_metadata a | Some v => default EMPTY_OBJECT v end;
        a_tags := match ap_tags b with None => a_tags a | Some v => default [] v end;
        a_total_sessions := a_total_sessions a; a_created_at := a_created_at a; a_deleted := a_deleted a |}.

(** [patch_agent] *)
Definition patch_agent (t : gmap Z Agent) (org : UUID) (i : Z) (b : AgentPatch) : result ApiError (gmap Z Agent) :=
  let* a := get_agent t org i in
  if no_fields b then Ok t else
  let* a' := patched b a in
  Ok (<[i := a']> t).

(** ** The life cycle *)

Inductive LifecycleAction := activate | pause | archive.

Definition LIFECYCLE_NEXT (act : LifecycleAction) (s : AgentStatus) : option AgentStatus :=
  match act, s with
  | pause, active => Some paused
  | activate, paused | activate, archived | activate, suspended => Some active
  | archive, active | archive, paused | archive, suspended => Some archived
  | _, _ => None
  end.

(** [_assert_lifecycle_transition] *)
Definition assert_lifecycle_transition (s : AgentStatus) (act : LifecycleAction) : result ApiError AgentStatus :=
  match LIFECYCLE_NEXT act s with Some s' => Ok s' | None => Raise ValidationError end.

Definition set_status (s : AgentStatus) (a : Agent) : Agent :=
  {| a_org := a_org a; a_created_by := a_created_by a; a_slug := a_slug a; a_name := a_name a;
     a_description := a_description a; a_status := s; a_provider := a_provider a; a_model := a_model a;
     a_config := a_config a; a_metadata := a_metadata a; a_tags := a_tags a;
     a_total_sessions := a_total_sessions a; a_created_at := a_created_at a; a_deleted := a_deleted a |}.

(** A request between its read and its [_STATUS_CAS_SQL]. *)
Record Pending := { pd_org : UUID; pd_agent : Z; pd_action : LifecycleAction; pd_expected : AgentStatus; pd_new : AgentStatus }.

(** The first half of [set_agent_status]. *)
Definition begin_transition (t : gmap Z Agent) (org : UUID) (i : Z) (act : LifecycleAction) : result ApiError Pending :=
  let* a := get_agent t org i in
  let* s := assert_lifecycle_transition (a_status a) act in
  Ok {| pd_org := org; pd_agent := i; pd_action := act; pd_expected := a_status a; pd_new := s |}.

(** [_STATUS_CAS_SQL] *)
Definition status_cas (t : gmap Z Agent) (p : Pending) : result ApiError (gmap Z Agent) :=
  match t !! pd_agent p with
  | Some a =>
      if (agent_live (pd_org p) a && bool_decide (a_status a = pd_expected p))%bool
      then Ok (<[pd_agent p := set_status (pd_new p) a]> t) else Raise StatusConflict
  | None => Raise StatusConflict
  end.

(** ** Deletion *)

(** A session row: organization, agent, whether it is deleted. *)
Record SessionRow := { se_org : UUID; se_agent : Z; se_deleted : bool }.

Definition live_sessions_exist (l : list SessionRow) (org : UUID) (i : Z) : bool :=
  existsb (fun s => (String.eqb (se_org s) org && (se_agent s =? i) && negb (se_deleted s))%bool) l.

Definition sessions_block_delete (live : bool) (total : Z) : bool := (live || (0 <? total))%bool.

Definition tombstone (a : Agent) : Agent :=
  {| a_org := a_org a; a_created_by := a_created_by a; a_slug := a_slug a; a_name := a_name a;
     a_description := a_description a; a_status := a_status a; a_provider := a_provider a; a_model := a_model a;
     a_config := a_config a; a_metadata := a_metadata a; a_tags := a_tags a;
     a_total_sessions := a_total_sessions a; a_created_at := a_created_at a; a_deleted := true |}.

(** [soft_delete_agent]: the row lock is held from the first statement on, and
    keeps new sessions of the agent, which reference the row, waiting. *)
Definition soft_delete_agent (t : gmap Z Agent) (l : list SessionRow) (org : UUID) (i : Z) : result ApiError (gmap Z Agent) :=
  let* a := get_agent t org i in
  raise_if sessions_block_delete (live_sessions_exist l org i) (a_total_sessions a) with HasSessions ;;
  Ok (<[i := tombstone a]> t).

(** ** Interleaved requests *)

Record State := { agents : gmap Z Agent; sessions : list SessionRow; pending : gmap nat Pending }.

Definition with_agents (st : State) (t : gmap Z Agent) : State :=
  {| agents := t; sessions := sessions st; pending := pending st |}.

Inductive step : State -> State -> Prop :=
| step_create st now i org by_ b t' : agents st !! i = None -> create_agent (agents st) now i org by_ b = Ok t' ->
    step st (with_agents st t')
| step_patch st org i b t' : patch_agent (agents st) org i b = Ok t' -> step st (with_agents st t')
| step_delete st org i t' : soft_delete_agent (agents st) (sessions st) org i = Ok t' -> step st (with_agents st t')
| step_read st x org i act p : pending st !! x = None -> begin_transition (agents st) org i act = Ok p ->
    step st {| agents := agents st; sessions := sessions st; pending := <[x := p]> (pending st) |}
| step_cas st x p t' : pending st !! x = Some p -> status_cas (agents st) p = Ok t' ->
    step st {| agents := t'; sessions := sessions st; pending := delete x (pending st) |}
| step_conflict st x p : pending st !! x = Some p -> status_cas (agents st) p = Raise StatusConflict ->
    step st {| agents := agents st; sessions := sessions st; pending := delete x (pending st) |}
| step_session st s : step st {| agents := agents st; sessions := s :: sessions st; pending := pending st |}.

(** ** Lists *)

Record AgentListFilters := { lf_status : option AgentStatus; lf_tags : list string; lf_search : option string }.

(** [_LIST_AGENTS_SQL]; [ilike] is [name ILIKE pattern]. *)
Definition agent_matches (ilike : string -> string -> bool) (org : UUID) (f : AgentListFilters) (a : Agent) : bool :=
  (agent_live org a
   && match lf_status f with Some s => bool_decide (a_status a = s) | None => true end
   && match lf_tags f with [] => true | tags => existsb (fun t => existsb (String.eqb t) tags) (a_tags a) end
   && match lf_search f with
      | Some s => if String.eqb s "" then true
                  else ilike (a_name a) ("%" +:+ s +:+ "%") || ilike (a_slug a) ("%" +:+ s +:+ "%")
      | None => true
      end)%bool.

Definition list_agents (ilike : string -> string -> bool) (t : list (Z * Agent)) (org : UUID) (f : AgentListFilters)
    (c : option Cursor) (limit : nat) : CursorPage (Z * Agent) :=
  list_page (fun ia => a_created_at ia.2) (fun ia => ia.1) (fun ia => agent_matches ilike org f ia.2) c limit t.

(** ** How agents evolve *)

(** An edge of the life cycle. *)
Definition edge (s s' : AgentStatus) : Prop := exists act, LIFECYCLE_NEXT act s = Some s'.

(** What may become of an agent: its identity stays, a deletion stays, and its
    status follows the life cycle. *)
Record agent_le (a a' : Agent) : Prop := {
  al_org : a_org a' = a_org a;
  al_slug : a_slug a' = a_slug a;
  al_created : a_created_at a' = a_created_at a;
  al_deleted : a_deleted a = true -> a' = a;
  al_status : rtc edge (a_status a) (a_status a');
}.

#[global] Instance agent_le_preorder : PreOrder agent_le.
Proof.
  split; [by split|]. intros a b c [O1 S1 C1 D1 T1] [O2 S2 C2 D2 T2].
  split; [congruence..| |by etrans]. intros Hd. rewrite <- (D1 Hd). apply D2. by rewrite (D1 Hd).
Qed.

Definition evolves (t t' : gmap Z Agent) : Prop :=
  forall i a, t !! i = Some a -> exists a', t' !! i = Some a' /\ agent_le a a'.

#[global] Instance evolves_preorder : PreOrder evolves.
Proof.
  split; [intros t i a Ha; by exists a|]. intros t1 t2 t3 H1 H2 i a Ha.
  destruct (H1 i a Ha) as (b & Hb & ?), (H2 i b Hb) as (c & ? & ?). exists c. split; [done|]. by etrans.
Qed.

Lemma insert_evolves t i a a' : t !! i = Some a -> agent_le a a' -> evolves t (<[i := a']> t).
Proof.
  intros Ha Hle j b Hb. destruct (decide (i = j)) as [<-|Hne].
  - simplify_eq. exists a'. by rewrite lookup_insert_eq.
  - exists b. by rewrite lookup_insert_ne.
Qed.

Lemma get_agent_ok t org i a : get_agent t org i = Ok a -> t !! i = Some a /\ a_org a = org /\ a_deleted a = false.
Proof.
  unfold get_agent, agent_live. destruct (t !! i) as [b|]; [|done]. destruct (_ && _)%bool eqn:He; [|done].
  intros [= <-]. by bools.
Qed.

(** A pending transition is an edge from the status it read. *)
Definition pending_ok (st : State) : Prop :=
  forall x p, pending st !! x = Some p -> LIFECYCLE_NEXT (pd_action p) (pd_expected p) = Some (pd_new p).

Lemma begin_transition_ok t org i act p : begin_transition t org i act = Ok p ->
  LIFECYCLE_NEXT (pd_action p) (pd_expected p) = Some (pd_new p).
Proof.
  unfold begin_transition, assert_lifecycle_transition. intros (a & _ & (s & Hs & [= <-])%rbind_Ok)%rbind_Ok.
  cbn. destruct (LIFECYCLE_NEXT act (a_status a)); by simplify_eq.
Qed.

Lemma status_cas_ok t p t' : status_cas t p = Ok t' ->
  exists a, t !! pd_agent p = Some a /\ a_status a = pd_expected p /\ a_deleted a = false /\
    t' = <[pd_agent p := set_status (pd_new p) a]> t.
Proof.
  unfold status_cas, agent_live. destruct (t !! pd_agent p) as [a|]; [|done].
  destruct (_ && _)%bool eqn:Hc; [|done]. intros [= <-]. bools. eauto.
Qed.

Lemma step_pending st st' : step st st' -> pending_ok st -> pending_ok st'.
Proof.
  destruct 1 as [| | |st x org i act p Hx Hb| | |]; intros Hp y q; cbn; try apply Hp.
  - destruct (decide (x = y)) as [<-|Hne].
    + rewrite lookup_insert_eq. intros [= <-]. by eapply begin_transition_ok.
    + rewrite lookup_insert_ne by done. apply Hp.
  - intros [_ Hy]%lookup_delete_Some. exact (Hp y q Hy).
  - intros [_ Hy]%lookup_delete_Some. exact (Hp y q Hy).
Qed.

Lemma patched_le b a a' : patched b a = Ok a' -> a_deleted a = false -> agent_le a a'.
Proof.
  unfold patched. intros (n & _ & [= <-])%rbind_Ok Hd. split; cbn; try done. congruence.
Qed.

Lemma step_evolves st st' : step st st' -> pending_ok st -> evolves (agents st) (agents st').
Proof.
  destruct 1 as [st now i org by_ b t' Hn Hc|st org i b t' Hp|st org i t' Hd|st x org i act p Hx Hb|st x p t' Hx Hc| |];
    intros Hok; cbn; try done.
  - unfold create_agent in Hc. destruct (slug_taken _ _ _); [done|]. injection Hc as <-.
    intros j a Ha. exists a. rewrite lookup_insert_ne; [done|]. intros ->. congruence.
  - unfold patch_agent in Hp. apply rbind_Ok in Hp as (a & (Ha & _ & Hdel)%get_agent_ok & Hp).
    destruct (no_fields b); [by injection Hp as <-|]. apply rbind_Ok in Hp as (a' & Hpa & [= <-]).
    eapply insert_evolves; [done|]. by eapply patched_le.
  - unfold soft_delete_agent in Hd. apply rbind_Ok in Hd as (a & (Ha & _ & Hdel)%get_agent_ok & Hd).
    destruct (sessions_block_delete _ _); [done|]. injection Hd as <-. eapply insert_evolves; [done|].
    split; cbn; try done. congruence.
  - apply status_cas_ok in Hc as (a & Ha & Hs & Hdel & ->). eapply insert_evolves; [done|].
    split; cbn; try done; [congruence|]. apply rtc_once. exists (pd_action p). rewrite Hs. by eapply Hok.
Qed.

(** Agents follow their life cycle: however requests interleave, an agent keeps its
    organization, slug and creation time, a deleted agent never changes again, and
    its status only ever moves along the edges of the life cycle. *)
Theorem agents_follow_lifecycle st st' :
  rtc step st st' -> pending st = ∅ -> evolves (agents st) (agents st').
Proof.
  intros Hs He. assert (pending_ok st) as Hok by (intros x p Hx; by rewrite He in Hx). clear He.
  induction Hs as [|st st1 st2 Hst Hs IH]; [done|]. etrans; [by eapply step_evolves|].
  apply IH. by eapply step_pending.
Qed.

(** Slugs are unique within an organization, deleted agents included. *)
Definition slugs_unique (t : gmap Z Agent) : Prop :=
  forall i j a b, t !! i = Some a -> t !! j = Some b -> a_org a = a_org b -> a_slug a = a_slug b -> i = j.

Lemma slug_free t org slug : slug_taken t org slug = false ->
  forall i a, t !! i = Some a -> a_org a = org -> a_slug a = slug -> False.
Proof.
  unfold slug_taken. intros Hf i a Ha Ho Hs. apply not_true_iff_false in Hf. apply Hf, existsb_exists.
  exists (i, a). split; [apply list_elem_of_In; by apply elem_of_map_to_list|]. cbn.
  by rewrite (proj2 (String.eqb_eq _ _) Ho), (proj2 (String.eqb_eq _ _) Hs).
Qed.

Lemma evolves_slugs t i a' a : t !! i = Some a -> agent_le a a' -> slugs_unique t -> slugs_unique (<[i := a']> t).
Proof.
  intros Ha [Ho Hs _ _ _] Hu j k x y. destruct (decide (i = j)) as [<-|Hj], (decide (i = k)) as [<-|Hk];
    rewrite ?lookup_insert_eq, ?lookup_insert_ne by done; intros Hx Hy Hox Hsx; simplify_eq; try done.
  - eapply Hu; [exact Ha|exact Hy|congruence..].
  - eapply Hu; [exact Hx|exact Ha|congruence..].
  - by eapply Hu.
Qed.

Lemma step_slugs st st' : step st st' -> pending_ok st -> slugs_unique (agents st) -> slugs_unique (agents st').
Proof.
  destruct 1 as [st now i org by_ b t' Hn Hc|st org i b t' Hp|st org i t' Hd|st x org i act p Hx Hb|st x p t' Hx Hc| |];
    intros Hok Hu; cbn; try done.
  - unfold create_agent in Hc. destruct (slug_taken _ _ _) eqn:Hf; [done|]. injection Hc as <-.
    intros j k x y. destruct (decide (i = j)) as [<-|Hj], (decide (i = k)) as [<-|Hk];
      rewrite ?lookup_insert_eq, ?lookup_insert_ne by done; intros Hx Hy Hox Hsx; simplify_eq/=; try done.
    + exfalso. by eapply slug_free.
    + exfalso. by eapply slug_free.
    + by eapply Hu.
  - unfold patch_agent in Hp. apply rbind_Ok in Hp as (a & (Ha & _ & Hdel)%get_agent_ok & Hp).
    destruct (no_fields b); [by injection Hp as <-|]. apply rbind_Ok in Hp as (a' & Hpa & [= <-]).
    eapply evolves_slugs; [done| |done]. by eapply patched_le.
  - unfold soft_delete_agent in Hd. apply rbind_Ok in Hd as (a & (Ha & _ & Hdel)%get_agent_ok & Hd).
    destruct (sessions_block_delete _ _); [done|]. injection Hd as <-. eapply evolves_slugs; [done| |done].
    split; cbn; try done. congruence.
  - apply status_cas_ok in Hc as (a & Ha & Hs & Hdel & ->). eapply evolves_slugs; [done| |done].
    split; cbn; try done; [congruence|]. apply rtc_once. exists (pd_action p). rewrite Hs. by eapply Hok.
Qed.

(** A slug names one agent of its organization, in every reachable state. *)
Theorem slug_names_one_agent st st' :
  rtc step st st' -> pending st = ∅ -> slugs_unique (agents st) -> slugs_unique (agents st').
Proof.
  intros Hs He. assert (pending_ok st) as Hok by (intros x p Hx; by rewrite He in Hx). clear He.
  induction Hs as [|st st1 st2 Hst Hs IH]; [done|]. intros Hu.
  apply IH; [by eapply step_pending|]. by eapply step_slugs.
Qed.

(** An agent is deleted exactly when it is live, has no live session and no
    session history; then only its deletion mark changes. *)
Theorem delete_needs_no_history t l org i t' :
  soft_delete_agent t l org i = Ok t' <->
  exists a, t !! i = Some a /\ a_org a = org /\ a_deleted a = false /\ a_total_sessions a <= 0 /\
    (forall s, s ∈ l -> se_org s = org -> se_agent s = i -> se_deleted s = true) /\ t' = <[i := tombstone a]> t.
Proof.
  unfold soft_delete_agent, sessions_block_delete. split.
  - intros (a & (Ha & Ho & Hd)%get_agent_ok & H)%rbind_Ok. destruct (_ || _)%bool eqn:Hb; [done|].
    injection H as <-. bools. exists a. split_and!; try done. intros s Hs Hso Hsa.
    apply not_false_iff_true. intros Hdel. apply not_true_iff_false in H. apply H.
    apply existsb_exists. exists s. split; [by apply list_elem_of_In|].
    by rewrite (proj2 (String.eqb_eq _ _) Hso), (proj2 (Z.eqb_eq _ _) Hsa), Hdel.
  - intros (a & Ha & Ho & Hd & Ht & Hl & ->). unfold get_agent, agent_live. rewrite Ha.
    rewrite (proj2 (String.eqb_eq _ _) Ho), Hd. cbn. destruct (live_sessions_exist l org i) eqn:Hex.
    + apply existsb_exists in Hex as (s & Hs & Hb). bools. apply list_elem_of_In in Hs.
      rewrite (Hl s Hs) in *; done.
    + cbn. by rewrite (proj2 (Z.ltb_ge _ _) Ht).
Qed.

Module AgentsSample.
Definition agent (slug : string) (s : AgentStatus) : Agent :=
  {| a_org := "o"; a_created_by := None; a_slug := slug; a_name := "n"; a_description := None; a_status := s;
     a_provider := None; a_model := None; a_config := "{}"; a_metadata := "{}"; a_tags := ["x"%string];
     a_total_sessions := 0; a_created_at := 0; a_deleted := false |}.

Definition st0 : State := {| agents := {[ 1 := agent "a" active ]}; sessions := []; pending := ∅ |}.
Definition pd (act : LifecycleAction) (s : AgentStatus) : Pending :=
  {| pd_org := "o"; pd_agent := 1; pd_action := act; pd_expected := active; pd_new := s |}.

(** Pausing and archiving race: both read an active agent, and the second is told. *)
Definition st3 : State := {| agents := {[ 1 := agent "a" paused ]}; sessions := []; pending := ∅ |}.

Lemma race : rtc step st0 st3.
Proof.
  eapply rtc_l; [exact (step_read st0 0 "o" 1 pause (pd pause paused) eq_refl eq_refl)|].
  eapply rtc_l; [exact (step_read {| agents := agents st0; sessions := []; pending := {[ 0%nat := pd pause paused ]} |} 1
    "o" 1 archive (pd archive archived) eq_refl eq_refl)|].
  eapply rtc_l; [exact (step_cas {| agents := agents st0; sessions := [];
    pending := <[1%nat := pd archive archived]> {[ 0%nat := pd pause paused ]} |} 0 (pd pause paused)
    (agents st3) eq_refl eq_refl)|].
  eapply rtc_l; [|apply rtc_refl].
  exact (step_conflict {| agents := agents st3; sessions := []; pending := {[ 1%nat := pd archive archived ]} |} 1
    (pd archive archived) eq_refl eq_refl).
Qed.

Lemma agents_follow_lifecycle_witness : exists a, agents st3 !! 1 = Some a /\ rtc edge active (a_status a).
Proof.
  destruct (agents_follow_lifecycle st0 st3 race eq_refl 1 (agent "a" active) eq_refl) as (a & Ha & Hle).
  exists a. split; [exact Ha|]. exact (al_status _ _ Hle).
Defined.

Lemma slug_names_one_agent_witness : slugs_unique (agents st3).
Proof.
  apply (slug_names_one_agent st0 st3 race eq_refl). intros i j a b Ha Hb _ _. unfold st0 in Ha, Hb; cbn in Ha, Hb.
  apply lookup_singleton_Some in Ha as [<- _], Hb as [<- _]. reflexivity.
Defined.

(** The schema lets a patch set the name to null, and the NOT NULL constraint it
    meets is not mapped to an answer. *)
Theorem null_name_patch_fails :
  patch_agent (agents st0) "o" 1 {| ap_name := Some None; ap_description := None; ap_config := None; ap_metadata := None;
    ap_tags := None; ap_provider := None; ap_model := None |} = Raise IntegrityError.
Proof. reflexivity. Qed.
End AgentsSample.
