(* ===== verification/OperatorSession.v ===== *)
(** * Operator sessions of the management API
    ([services/api/app/auth/session_refresh.py], [operator_session_auth.py],
     [step_up.py], [authz.py], [middleware/csrf.py], [routers/session.py])

    The calls to the Auth service, the session and step-up checks, the
    authorization dependencies, the CSRF middleware and the session routes.  The
    Auth service is what it answers to each call; the users table, the PAT
    validator, the clock and the random identifiers are arguments.  Logging and
    request ids are omitted. *)

From stdpp Require Import pretty.
From S2P Require Import Prelude PyText Wire AuthCodec RefreshCodec Permissions SessionToken.

(** ** Settings and requests *)

Inductive Environment := Development | Staging | Production.
#[global] Instance Environment_eq_dec : EqDecision Environment.
Proof. solve_decision. Defined.

Record OpSettings := {
  operator_feature_enabled : bool;
  environment : Environment;
  jwt_hmac_secret : option bytes;
  jwt_public_keys_pem : option bytes;
  jwt_issuer : pystr;
  jwt_audience : pystr;
  jwt_key_id : pystr;
  jwt_access_token_ttl_seconds : Z;
  jwt_refresh_token_ttl_seconds : Z;
  dashboard_session_cookie_name : pystr;
  dashboard_refresh_cookie_name : pystr;
  dashboard_csrf_cookie_name : pystr;
  dashboard_csrf_secret : option bytes;
  cookie_secure : bool;
  cookie_samesite : string;
  cookie_domain : option pystr;
  cors_origins : list pystr;
  auth_service_token : option pystr;
  operator_allow_raw_read : bool;
  operator_allow_export : bool;
  operator_allow_delete : bool;
  operator_allow_replay : bool;
  operator_allow_secret_use : bool;
}.

(** A request, with the cookies and headers the code reads; a header or cookie
    that is present may be empty. *)
Record Request := {
  rq_cookies : list (pystr * pystr);
  rq_step_up : option pystr;
  rq_authorization : option pystr;
}.

(** [request.state] *)
Record ReqState := {
  ibex_session_org_id : option pystr;
  ibex_session_sub : option pystr;
  ibex_session_id : option pystr;
  ibex_step_up_ok : option bool;
  ibex_step_up_jti : option pystr;
  ibex_step_up_action : option pystr;
}.
Definition fresh_state : ReqState :=
  {| ibex_session_org_id := None; ibex_session_sub := None; ibex_session_id := None; ibex_step_up_ok := None;
     ibex_step_up_jti := None; ibex_step_up_action := None |}.

Definition cookie (q : Request) (name : pystr) : option pystr :=
  snd <$> List.find (fun kv => bool_decide (kv.1 = name)) (rq_cookies q).

(** Errors of a route: [ApiError], or an exception no handler of the code
    catches. *)
Inductive ApiErrorCode := INVALID_TOKEN | SERVICE_DEGRADED | INSUFFICIENT_PERMISSIONS | NOT_FOUND.
Inductive Escape := EscCodec (e : CodecError) | EscValueError | EscToken (e : TokenError) | EscTypeError.
Inductive RouteError := ApiError (code : ApiErrorCode) (message : string) | Escapes (e : Escape).

Abbreviation Route := (result RouteError).

(** ** The Auth service *)

Inductive StatusCode := UNAVAILABLE | DEADLINE_EXCEEDED | UNAUTHENTICATED | PERMISSION_DENIED | FAILED_PRECONDITION | OtherStatus.

(** What a call ends with: a reply, a timeout, a gRPC status, a CA file that
    cannot be loaded or a target that is refused. *)
Inductive RpcOutcome := RpcReply (raw : bytes) | RpcTimeout | RpcStatus (code : StatusCode) | RpcCAError | RpcBadTarget.

Inductive RpcMethod := IssueOperatorSession | ValidateOperatorSession | RevokeOperatorSession | ConsumeStepUp.

Record RpcCall := { rc_method : RpcMethod; rc_payload : bytes; rc_bearer : option pystr; rc_service_token : pystr }.

Class AuthService := { auth_rpc : RpcCall -> RpcOutcome }.

Inductive AuthError := AuthFailedError | AuthUnavailableError | AuthEscapes (e : Escape).

Record RefreshedSession := { rs_access_token : pystr; rs_refresh_token : pystr }.
Record ValidatedSession := { vs_subject : pystr; vs_org_id : pystr; vs_permissions : Z; vs_session_id : pystr; vs_jti : pystr }.
Record RevokeSessionParams := {
  rp_session_id : pystr; rp_family_id : pystr; rp_access_jti : pystr; rp_access_token : pystr; rp_refresh_token : pystr }.
Record ConsumeStepUpParams := {
  cp_token : pystr; cp_subject : pystr; cp_org_id : pystr; cp_session_id : pystr; cp_action : pystr; cp_permission : Z }.

(** A codec error the caller does not catch. *)
Definition uncaught {A : Type} (r : result CodecError A) : result AuthError A :=
  match r with Ok a => Ok a | Raise e => Raise (AuthEscapes (EscCodec e)) end.

(** A codec error of a decoder that is mapped to [AuthUnavailableError]. *)
Definition codec_unavailable {A : Type} (r : result CodecError A) : result AuthError A :=
  match r with
  | Ok a => Ok a
  | Raise (AuthCodecError _) => Raise AuthUnavailableError
  | Raise e => Raise (AuthEscapes (EscCodec e))
  end.

Section Auth.
Context `{AuthService}.

Definition call_lifecycle (service_token : pystr) (method : RpcMethod) (payload : bytes) : result AuthError bytes :=
  match auth_rpc {| rc_method := method; rc_payload := payload; rc_bearer := None; rc_service_token := service_token |} with
  | RpcReply raw => Ok raw
  | RpcStatus UNAUTHENTICATED | RpcStatus PERMISSION_DENIED => Raise AuthFailedError
  | RpcTimeout | RpcStatus _ | RpcCAError => Raise AuthUnavailableError
  | RpcBadTarget => Raise (AuthEscapes EscValueError)
  end.

Definition required_claim (strings : gmap Z pystr) (field : Z) : result AuthError pystr :=
  match strings !! field with Some (c :: s) => Ok (c :: s) | _ => Raise AuthUnavailableError end.

Definition parse_validated_session (raw : bytes) : result AuthError ValidatedSession :=
  let* strings := codec_unavailable (decode_string_fields raw [1; 2; 4; 5]) in
  let* permissions := codec_unavailable (decode_int64_field raw 3) in
  let* subject := required_claim strings 1 in
  let* org := required_claim strings 2 in
  let* sid := required_claim strings 4 in
  let* jti := required_claim strings 5 in
  Ok {| vs_subject := subject; vs_org_id := org; vs_permissions := default 0 permissions; vs_session_id := sid; vs_jti := jti |}.

Definition validate_operator_session (service_token access_token : pystr) : result AuthError ValidatedSession :=
  let* payload := uncaught (encode_string_fields [(1, access_token)]) in
  let* raw := call_lifecycle service_token ValidateOperatorSession payload in
  parse_validated_session raw.

Definition revoke_payload (p : RevokeSessionParams) : result CodecError bytes :=
  encode_string_fields [(1, rp_session_id p); (2, rp_family_id p); (3, rp_access_jti p); (4, rp_access_token p); (5, rp_refresh_token p)].

Definition revoke_operator_session (service_token : pystr) (p : RevokeSessionParams) : result AuthError unit :=
  let* payload := uncaught (revoke_payload p) in
  let* '_ := call_lifecycle service_token RevokeOperatorSession payload in Ok tt.

Definition step_up_payload (p : ConsumeStepUpParams) : result CodecError bytes :=
  let* fields := encode_string_fields [(1, cp_token p); (2, cp_subject p); (3, cp_org_id p); (4, cp_session_id p); (5, cp_action p)] in
  if cp_permission p =? 0 then Ok fields
  else let* v := encode_varint (cp_permission p) in Ok (fields ++ [0x30] ++ v).

Definition consume_step_up (service_token : pystr) (p : ConsumeStepUpParams) : result AuthError unit :=
  let* payload := uncaught (step_up_payload p) in
  let* '_ := call_lifecycle service_token ConsumeStepUp payload in Ok tt.

(** [_map_rpc_error] *)
Definition map_rpc_error (code : StatusCode) : AuthError :=
  match code with UNAUTHENTICATED | PERMISSION_DENIED => AuthFailedError | _ => AuthUnavailableError end.

Definition parse_refreshed_session (raw : bytes) : result AuthError RefreshedSession :=
  let* access := codec_unavailable (decode_string_field raw 1) in
  let* refresh := codec_unavailable (decode_string_field raw 2) in
  match present access, present refresh with
  | Some a, Some r => Ok {| rs_access_token := a; rs_refresh_token := r |}
  | _, _ => Raise AuthUnavailableError
  end.

Definition issue_call (call : RpcCall) : result AuthError bytes :=
  match auth_rpc call with
  | RpcReply raw => Ok raw
  | RpcTimeout | RpcCAError => Raise AuthUnavailableError
  | RpcStatus code => Raise (map_rpc_error code)
  | RpcBadTarget => Raise (AuthEscapes EscValueError)
  end.

Definition issue_operator_session (service_token pat : pystr) : result AuthError RefreshedSession :=
  let* raw := issue_call {| rc_method := IssueOperatorSession; rc_payload := []; rc_bearer := Some pat; rc_service_token := service_token |} in
  parse_refreshed_session raw.

(** The payload is encoded before the [try] of [_call_issue_operator_session]. *)
Definition refresh_operator_session (service_token refresh_token : pystr) : result AuthError RefreshedSession :=
  let* payload := uncaught (encode_issue_with_refresh refresh_token) in
  let* raw := issue_call {| rc_method := IssueOperatorSession; rc_payload := payload; rc_bearer := None; rc_service_token := service_token |} in
  parse_refreshed_session raw.
End Auth.

(** [settings.auth_service_token or ""] *)
Definition service_token (s : OpSettings) : pystr := default [] (auth_service_token s).

(** [except AuthFailedError: ApiError(...)], [except AuthUnavailableError:
    ApiError(SERVICE_DEGRADED, ...)]. *)
Definition auth_errors {A : Type} (code : ApiErrorCode) (message : string) (r : result AuthError A) : Route A :=
  match r with
  | Ok a => Ok a
  | Raise AuthFailedError => Raise (ApiError code message)
  | Raise AuthUnavailableError => Raise (ApiError SERVICE_DEGRADED "auth unavailable")
  | Raise (AuthEscapes e) => Raise (Escapes e)
  end.

(** [except SessionStubError: ApiError(...)] *)
Definition stub_errors {A : Type} (code : ApiErrorCode) (message : string -> string) (r : result TokenError A) : Route A :=
  match r with
  | Ok a => Ok a
  | Raise (SessionStubError m) => Raise (ApiError code (message m))
  | Raise e => Raise (Escapes (EscToken e))
  end.

Definition verify_opts (s : OpSettings) (secret : option bytes) (kind : pystr) : TokenVerifyOpts :=
  {| vo_secret := secret; vo_issuer := jwt_issuer s; vo_audience := jwt_audience s; vo_expect_kind := kind;
     vo_public_keys_pem := jwt_public_keys_pem s; vo_key_id := jwt_key_id s |}.

(** ** The access cookie ([operator_session_auth.py]) *)

Record OperatorSessionAuthorization := { oa_org_id : Z; oa_permissions : Z; oa_session_id : pystr; oa_subject : pystr }.

Section Sessions.
Context `{UnicodeDB} `{Jwt} `{AuthService} (s : OpSettings) (now : Z).

Definition require_operator_feature : Route unit :=
  if negb (operator_feature_enabled s) then Raise (ApiError SERVICE_DEGRADED "operator feature disabled")
  else match present (jwt_hmac_secret s), present (jwt_public_keys_pem s) with
       | None, None => Raise (ApiError SERVICE_DEGRADED "session verification key not configured")
       | _, _ => Ok tt
       end.

Definition access_cookie (q : Request) : Route pystr :=
  match present (cookie q (dashboard_session_cookie_name s)) with
  | Some raw => Ok raw
  | None => Raise (ApiError INVALID_TOKEN "missing session cookie")
  end.

Definition verified_local_session (raw : pystr) : Route OperatorSessionAuthorization :=
  let* claims := stub_errors INVALID_TOKEN id (verify_token_opts raw (verify_opts s (jwt_hmac_secret s) SESSION_KIND_ACCESS) now) in
  Ok {| oa_org_id := sc_org_id claims; oa_permissions := sc_permissions claims; oa_session_id := sc_session_id claims;
        oa_subject := sc_sub claims |}.

(** [ValueError] of the channel is caught here. *)
Definition validate_remote_session (raw : pystr) : Route ValidatedSession :=
  match validate_operator_session (service_token s) raw with
  | Raise (AuthEscapes EscValueError) => Raise (ApiError SERVICE_DEGRADED "auth unavailable")
  | r => auth_errors INVALID_TOKEN "invalid session" r
  end.

Definition authorization_from_validated (v : ValidatedSession) : Route OperatorSessionAuthorization :=
  if existsb (fun t => bool_decide (t = [])) [vs_subject v; vs_session_id v; vs_jti v]
  then Raise (ApiError INVALID_TOKEN "incomplete session claims")
  else match uuid_parse (vs_org_id v) with
       | Some org => Ok {| oa_org_id := org; oa_permissions := vs_permissions v; oa_session_id := vs_session_id v; oa_subject := vs_subject v |}
       | None => Raise (ApiError INVALID_TOKEN "missing org context in session")
       end.

Definition bind_session (a : OperatorSessionAuthorization) (st : ReqState) : ReqState :=
  {| ibex_session_org_id := Some (uuid_str (oa_org_id a)); ibex_session_sub := Some (oa_subject a); ibex_session_id := Some (oa_session_id a);
     ibex_step_up_ok := ibex_step_up_ok st; ibex_step_up_jti := ibex_step_up_jti st; ibex_step_up_action := ibex_step_up_action st |}.

Definition require_operator_session (q : Request) (st : ReqState) : Route (OperatorSessionAuthorization * ReqState) :=
  let* '_ := require_operator_feature in
  let* raw := access_cookie q in
  let* a := if bool_decide (environment s = Development) then verified_local_session raw
            else let* v := validate_remote_session raw in authorization_from_validated v in
  if bool_decide (oa_subject a = []) then Raise (ApiError INVALID_TOKEN "missing session subject")
  else Ok (a, bind_session a st).

(** ** Step-up ([step_up.py]) *)

Record ValidateResult := { vr_org_id : Z; vr_permissions : Z; vr_user_id : option pystr; vr_token_id : option pystr }.
Record StepUpAction := { su_required_permission : Z; su_action : pystr; su_session_id : option pystr }.
Record StepUpProof := { pf_raw : pystr; pf_token : ValidateResult; pf_subject : pystr; pf_session_id : pystr; pf_action : pystr; pf_permission : Z }.

Definition deny_step_up : RouteError := ApiError INSUFFICIENT_PERMISSIONS "Step-up authentication required".

Definition verify_step_up_token (raw : pystr) : Route SessionClaims :=
  let secret := if bool_decide (environment s = Development) then jwt_hmac_secret s else None in
  stub_errors INSUFFICIENT_PERMISSIONS (fun _ => "Step-up authentication required"%string)
    (verify_token_opts (strip_space raw) (verify_opts s secret SESSION_KIND_STEP_UP) now).

(** [_assert_step_up_binds_session] *)
Definition step_up_binds_session (st : ReqState) (c : SessionClaims) : bool :=
  match ibex_session_org_id st, ibex_session_sub st with
  | Some org, Some sub => bool_decide (uuid_str (sc_org_id c) = org) && negb (bool_decide (sc_sub c = [])) && bool_decide (sc_sub c = sub)
  | _, _ => false
  end.

Definition require_step_up_header (q : Request) (st : ReqState) : Route ReqState :=
  let set_ok ok jti := {| ibex_session_org_id := ibex_session_org_id st; ibex_session_sub := ibex_session_sub st;
    ibex_session_id := ibex_session_id st; ibex_step_up_ok := Some ok; ibex_step_up_jti := jti; ibex_step_up_action := ibex_step_up_action st |} in
  match present (rq_step_up q) with
  | None => Ok (set_ok false (ibex_step_up_jti st))
  | Some raw =>
      let* c := verify_step_up_token raw in
      if step_up_binds_session st c then Ok (set_ok true (Some (sc_jti c))) else Raise deny_step_up
  end.

(** [token.user_id or token.token_id] *)
Definition step_up_subject (t : ValidateResult) : option pystr :=
  match present (vr_user_id t) with Some u => Some u | None => present (vr_token_id t) end.

Definition resolve_step_up_proof (q : Request) (st : ReqState) (t : ValidateResult) (spec : StepUpAction) : Route StepUpProof :=
  match present (rq_step_up q) with
  | None => Raise deny_step_up
  | Some raw =>
      let session_id := match present (su_session_id spec) with Some i => Some i | None => present (ibex_session_id st) end in
      match step_up_subject t, session_id with
      | Some subject, Some sid =>
          Ok {| pf_raw := raw; pf_token := t; pf_subject := subject; pf_session_id := sid; pf_action := su_action spec;
                pf_permission := su_required_permission spec |}
      | _, _ => Raise deny_step_up
      end
  end.

Definition identity_matches (p : StepUpProof) (c : SessionClaims) : bool :=
  (bool_decide (sc_sub c = pf_subject p) && bool_decide (uuid_str (sc_org_id c) = uuid_str (vr_org_id (pf_token p)))
   && bool_decide (sc_session_id c = pf_session_id p))%bool.

Definition action_matches (p : StepUpProof) (c : SessionClaims) : bool :=
  (bool_decide (sc_action c = Some (pf_action p)) && (Z.land (sc_permissions c) (pf_permission p) =? pf_permission p))%bool.

Definition enforce_local_step_up (p : StepUpProof) : Route unit :=
  let* c := verify_step_up_token (pf_raw p) in
  if identity_matches p c && action_matches p c then Ok tt else Raise deny_step_up.

Definition step_up_params (p : StepUpProof) : ConsumeStepUpParams :=
  {| cp_token := pf_raw p; cp_subject := pf_subject p; cp_org_id := uuid_str (vr_org_id (pf_token p)); cp_session_id := pf_session_id p;
     cp_action := pf_action p; cp_permission := pf_permission p |}.

Definition enforce_auth_step_up (p : StepUpProof) : Route unit :=
  auth_errors INSUFFICIENT_PERMISSIONS "Step-up authentication required" (consume_step_up (service_token s) (step_up_params p)).

Definition enforce_step_up (q : Request) (st : ReqState) (t : ValidateResult) (a : StepUpAction) : Route ReqState :=
  let* p := resolve_step_up_proof q st t a in
  let* '_ := if bool_decide (environment s = Development) then enforce_local_step_up p else enforce_auth_step_up p in
  Ok {| ibex_session_org_id := ibex_session_org_id st; ibex_session_sub := ibex_session_sub st; ibex_session_id := ibex_session_id st;
        ibex_step_up_ok := Some true; ibex_step_up_jti := ibex_step_up_jti st; ibex_step_up_action := Some (su_action a) |}.

(** ** Authorization ([authz.py]) *)

Definition AdminRoles : list pystr := [lit "owner"; lit "admin"].
Definition OwnerRoles : list pystr := [lit "owner"].

(** [ibex_core.users]: the role of a live user of the organization. *)
Context (user_role : pystr -> Z -> option pystr).

Definition load_caller_role (t : ValidateResult) : Route pystr :=
  match present (vr_user_id t) with
  | None => Raise (ApiError INSUFFICIENT_PERMISSIONS "User-scoped token required")
  | Some u => match user_role u (vr_org_id t) with
              | Some r => Ok r
              | None => Raise (ApiError NOT_FOUND "User not found")
              end
  end.

Definition require_roles (allowed : list pystr) (required_permission : Z) (t : ValidateResult) : Route ValidateResult :=
  let* role := load_caller_role t in
  if negb (bool_decide (role ∈ allowed)) then Raise (ApiError INSUFFICIENT_PERMISSIONS "Insufficient role")
  else if negb (has_permission (vr_permissions t) required_permission)
       then Raise (ApiError INSUFFICIENT_PERMISSIONS "Insufficient permissions")
  else Ok t.

Definition assert_path_org (token_org path_org : Z) : Route unit :=
  if token_org =? path_org then Ok tt else Raise (ApiError NOT_FOUND "Organization not found").

(** [_KILL_SWITCH_BY_PERM] *)
Definition kill_switch (required : Z) : option bool :=
  if required =? OPERATOR_RAW_READ then Some (operator_allow_raw_read s)
  else if required =? OPERATOR_EXPORT then Some (operator_allow_export s)
  else if required =? OPERATOR_DELETE then Some (operator_allow_delete s)
  else if required =? OPERATOR_REPLAY then Some (operator_allow_replay s)
  else if required =? SECRET_USE then Some (operator_allow_secret_use s)
  else None.

Definition assert_operator_feature_enabled : Route unit :=
  if operator_feature_enabled s then Ok tt else Raise (ApiError SERVICE_DEGRADED "Operator feature disabled").
Definition assert_operator_action_enabled (required : Z) : Route unit :=
  match kill_switch required with
  | Some false => Raise (ApiError INSUFFICIENT_PERMISSIONS "Action disabled by policy")
  | _ => Ok tt
  end.
Definition assert_operator_bitmap (bitmap required : Z) : Route unit :=
  if negb (has_permission bitmap required) then Raise (ApiError INSUFFICIENT_PERMISSIONS "Insufficient permissions")
  else if requires_step_up required then Raise deny_step_up
  else Ok tt.

Definition assert_operator_permission (bitmap required : Z) : Route unit :=
  let* '_ := assert_operator_feature_enabled in
  let* '_ := assert_operator_action_enabled required in
  assert_operator_bitmap bitmap required.

Definition require_operator_metadata_session (q : Request) (st : ReqState) : Route (OperatorSessionAuthorization * ReqState) :=
  let* '(a, st) := require_operator_session q st in
  let* '_ := assert_operator_permission (oa_permissions a) OPERATOR_METADATA_READ in Ok (a, st).

Definition maybe_operator_session (q : Request) (st : ReqState) : Route (option OperatorSessionAuthorization * ReqState) :=
  match present (rq_step_up q) with
  | None => Ok (None, st)
  | Some _ => let* '(a, st) := require_operator_session q st in Ok (Some a, st)
  end.

Definition permission_action (required : Z) : pystr := lit ("operator.permission." +:+ pretty required).

Definition require_operator_permission (required : Z) (q : Request) (st : ReqState) (t : ValidateResult) : Route (ValidateResult * ReqState) :=
  let* '(session, st) := maybe_operator_session q st in
  let* '_ := assert_operator_feature_enabled in
  let* '_ := assert_operator_action_enabled required in
  if negb (has_permission (vr_permissions t) required) then Raise (ApiError INSUFFICIENT_PERMISSIONS "Insufficient permissions")
  else if requires_step_up required then
    let* st := enforce_step_up q st t {| su_required_permission := required; su_action := permission_action required;
                                         su_session_id := oa_session_id <$> session |} in Ok (t, st)
  else Ok (t, st).

Definition require_operator_legal_hold_manage (q : Request) (st : ReqState) : Route (OperatorSessionAuthorization * ReqState) :=
  let* '(a, st) := require_operator_session q st in
  match user_role (oa_subject a) (oa_org_id a) with
  | Some role =>
      if negb (bool_decide (role ∈ AdminRoles)) then Raise (ApiError INSUFFICIENT_PERMISSIONS "Insufficient role")
      else if negb (has_permission (oa_permissions a) LEGAL_HOLD_MANAGE)
           then Raise (ApiError INSUFFICIENT_PERMISSIONS "Insufficient permissions")
      else
        let t := {| vr_org_id := oa_org_id a; vr_permissions := oa_permissions a; vr_user_id := Some (oa_subject a); vr_token_id := Some (oa_session_id a) |} in
        let* st := enforce_step_up q st t {| su_required_permission := LEGAL_HOLD_MANAGE; su_action := lit "legal_hold.manage";
                                             su_session_id := Some (oa_session_id a) |} in
        Ok (a, st)
  | None => Raise (ApiError INSUFFICIENT_PERMISSIONS "Insufficient role")
  end.
End Sessions.

(** ** CSRF ([middleware/csrf.py]) *)

Record HttpScope := {
  hs_is_http : bool;
  hs_safe_method : bool;          (* the upper-cased method is GET, HEAD, OPTIONS or TRACE *)
  hs_path : pystr;
  hs_cookies : list (pystr * pystr);
  hs_origin : option pystr;
  hs_referer_origin : option pystr;   (* scheme and authority of a present referer *)
  hs_csrf_header : option pystr;
}.

Inductive CsrfOutcome := Forwarded | Rejected (code : string) (status : Z) | CsrfTypeError.

Definition CSRF_EXEMPT_PREFIXES : list pystr := [lit "/health"; lit "/ready"; lit "/metrics"; lit "/v1/operator/session/login"].

Definition path_is_csrf_exempt (path : pystr) : bool :=
  existsb (fun p => bool_decide (path = p) || bool_decide (take (length p + 1) path = p ++ lit "/"))%bool CSRF_EXEMPT_PREFIXES.

Definition get_cookie (l : list (pystr * pystr)) (name : pystr) : option pystr :=
  snd <$> List.find (fun kv => bool_decide (kv.1 = name)) l.

Section Csrf.
Context `{Jwt} (s : OpSettings).

Definition should_skip (c : HttpScope) : bool := negb (hs_is_http c) || hs_safe_method c || path_is_csrf_exempt (hs_path c).

Definition session_cookies_present (c : HttpScope) : bool :=
  match present (get_cookie (hs_cookies c) (dashboard_session_cookie_name s)), present (get_cookie (hs_cookies c) (dashboard_refresh_cookie_name s)) with
  | None, None => false
  | _, _ => true
  end.

Definition origin_allowed (c : HttpScope) : bool :=
  if bool_decide (environment s = Development) then true
  else match present (hs_origin c) with
       | Some o => bool_decide (o ∈ cors_origins s)
       | None => match hs_referer_origin c with Some o => bool_decide (o ∈ cors_origins s) | None => false end
       end.

Definition csrf_middleware (c : HttpScope) : CsrfOutcome :=
  if should_skip c then Forwarded
  else if negb (session_cookies_present c) then Forwarded
  else if negb (origin_allowed c) then Rejected "origin_failed" 403
  else match present (dashboard_csrf_secret s) with
       | None => Rejected "csrf_misconfigured" 503
       | Some secret =>
           match verify_csrf_token secret (get_cookie (hs_cookies c) (dashboard_csrf_cookie_name s)) (hs_csrf_header c) with
           | Some true => Forwarded
           | Some false => Rejected "csrf_failed" 403
           | None => CsrfTypeError
           end
       end.
End Csrf.

(** ** Session routes ([routers/session.py]) *)

Record CookieParams := {
  ck_name : pystr; ck_value : pystr; ck_max_age : Z; ck_httponly : bool; ck_secure : bool; ck_samesite : string; ck_domain : option pystr }.

Inductive CookieOp := SetCookie (c : CookieParams) | DeleteCookie (name : pystr) (httponly secure : bool) (samesite : string) (domain : option pystr).

Record Reply := { rp_ok : bool; rp_error : option (ApiErrorCode * string); rp_provisional : bool; rp_org : option pystr; rp_cookies : list CookieOp }.

(** Random identifiers of a login. *)
Record Nonces := { n_access_jti : pystr; n_access_sid : pystr; n_refresh_jti : pystr; n_refresh_sid : pystr; n_csrf : pystr }.

Section Routes.
Context `{UnicodeDB} `{Jwt} `{AuthService} (s : OpSettings) (now : Z) (nonces : Nonces).

(** [validator.validate] *)
Context (validate_pat : pystr -> result AuthError ValidateResult).

Definition require_operator_enabled : Route unit :=
  if operator_feature_enabled s then Ok tt else Raise (ApiError SERVICE_DEGRADED "operator feature disabled").

Definition is_dev : bool := bool_decide (environment s = Development).

Definition require_me_verify_material : Route unit :=
  match present (jwt_public_keys_pem s) with
  | Some _ => Ok tt
  | None =>
      if negb is_dev then Raise (ApiError SERVICE_DEGRADED "session public keys not configured")
      else match present (jwt_hmac_secret s) with
           | Some _ => Ok tt
           | None => Raise (ApiError SERVICE_DEGRADED "session signing secret not configured")
           end
  end.

Definition require_session_me (q : Request) : Route (option pystr) :=
  let* '_ := require_operator_enabled in
  let* '_ := require_me_verify_material in Ok (cookie q (dashboard_session_cookie_name s)).

Definition require_session_refresh (q : Request) : Route pystr :=
  let* '_ := require_operator_enabled in
  match present (cookie q (dashboard_refresh_cookie_name s)) with
  | Some raw => Ok raw
  | None => Raise (ApiError INVALID_TOKEN "missing refresh cookie")
  end.

Definition require_session_logout : Route unit := require_operator_enabled.

Definition require_hmac : Route bytes :=
  if negb is_dev then Raise (ApiError SERVICE_DEGRADED "provisional HMAC operator sessions are disabled outside development")
  else match present (jwt_hmac_secret s) with
       | Some k => Ok k
       | None => Raise (ApiError SERVICE_DEGRADED "provisional session signing secret not configured")
       end.

(** [_cookie_security] *)
Definition cookie_is_secure : bool := cookie_secure s || String.eqb (cookie_samesite s) "none".

Definition http_only_params (name value : pystr) (max_age : Z) : CookieParams :=
  {| ck_name := name; ck_value := value; ck_max_age := max_age; ck_httponly := true; ck_secure := cookie_is_secure;
     ck_samesite := cookie_samesite s; ck_domain := cookie_domain s |}.

Definition csrf_cookie (csrf : pystr) : CookieOp :=
  SetCookie {| ck_name := dashboard_csrf_cookie_name s; ck_value := csrf; ck_max_age := jwt_refresh_token_ttl_seconds s; ck_httponly := false;
               ck_secure := cookie_is_secure; ck_samesite := cookie_samesite s; ck_domain := cookie_domain s |}.

Record SessionPrincipal := { sp_secret : bytes; sp_org_id : Z; sp_permissions : Z; sp_subject : pystr }.

Definition mint (p : SessionPrincipal) (kind : pystr) (ttl : Z) (jti sid : pystr) : pystr :=
  issue_token_opts {| io_secret := sp_secret p; io_issuer := jwt_issuer s; io_audience := jwt_audience s; io_org_id := sp_org_id p;
    io_permissions := sp_permissions p; io_subject := sp_subject p; io_session_kind := kind; io_ttl_seconds := ttl; io_session_id := None;
    io_family_id := None; io_action := None |} now jti sid.

Definition mint_access (p : SessionPrincipal) : pystr :=
  mint p SESSION_KIND_ACCESS (jwt_access_token_ttl_seconds s) (n_access_jti nonces) (n_access_sid nonces).
Definition mint_refresh (p : SessionPrincipal) : pystr :=
  mint p SESSION_KIND_REFRESH (jwt_refresh_token_ttl_seconds s) (n_refresh_jti nonces) (n_refresh_sid nonces).

Definition session_cookies (access : pystr) (refresh : option pystr) : list CookieOp :=
  SetCookie (http_only_params (dashboard_session_cookie_name s) access (jwt_access_token_ttl_seconds s))
  :: match refresh with
     | Some r => [SetCookie (http_only_params (dashboard_refresh_cookie_name s) r (jwt_refresh_token_ttl_seconds s))]
     | None => []
     end.

(** [_mint_and_set_csrf]; the nonce is ASCII. *)
Definition mint_and_set_csrf (secret : bytes) : list CookieOp :=
  let key := default secret (present (dashboard_csrf_secret s)) in
  match mint_csrf_token key (n_csrf nonces) with Some c => [csrf_cookie c] | None => [] end.

Definition maybe_mint_csrf : list CookieOp :=
  match present (dashboard_csrf_secret s) with
  | None => []
  | Some key => match mint_csrf_token key (n_csrf nonces) with Some c => [csrf_cookie c] | None => [] end
  end.

Definition ok_reply (provisional : bool) (org : option pystr) (cookies : list CookieOp) : Reply :=
  {| rp_ok := true; rp_error := None; rp_provisional := provisional; rp_org := org; rp_cookies := cookies |}.

Definition login_via_auth (r : ValidateResult) (pat : pystr) : Route Reply :=
  let* pair := auth_errors INVALID_TOKEN "invalid token" (issue_operator_session (service_token s) pat) in
  Ok (ok_reply false (Some (uuid_str (vr_org_id r)))
        (session_cookies (rs_access_token pair) (Some (rs_refresh_token pair)) ++ mint_and_set_csrf (default [] (dashboard_csrf_secret s)))).

Definition login_subject (r : ValidateResult) : pystr :=
  match present (vr_user_id r), present (vr_token_id r) with
  | Some u, _ => u
  | None, Some t => t
  | None, None => uuid_str (vr_org_id r)
  end.

Definition login_via_hmac (r : ValidateResult) : Route Reply :=
  let* secret := require_hmac in
  let p := {| sp_secret := secret; sp_org_id := vr_org_id r; sp_permissions := vr_permissions r; sp_subject := login_subject r |} in
  Ok (ok_reply true (Some (uuid_str (vr_org_id r))) (session_cookies (mint_access p) (Some (mint_refresh p)) ++ mint_and_set_csrf secret)).

Definition login (pat : pystr) : Route Reply :=
  let* '_ := require_operator_enabled in
  let* r := auth_errors INVALID_TOKEN "invalid token" (validate_pat (strip_space pat)) in
  if is_dev then login_via_hmac r else login_via_auth r (strip_space pat).

(** [_auth_owned_refresh] *)
Definition auth_owned_refresh (alg : pystr) : bool :=
  bool_decide (alg = lit "RS256")
  || match present (jwt_public_keys_pem s) with Some _ => negb (bool_decide (alg = lit "HS256")) | None => false end.

Definition refresh_via_auth (refresh_token : pystr) : Route Reply :=
  match present (jwt_public_keys_pem s) with
  | None => Raise (ApiError SERVICE_DEGRADED "session public keys not configured")
  | Some _ =>
      let* pair := auth_errors INVALID_TOKEN "invalid refresh token" (refresh_operator_session (service_token s) refresh_token) in
      Ok (ok_reply false None (session_cookies (rs_access_token pair) (Some (rs_refresh_token pair)) ++ maybe_mint_csrf))
  end.

Definition refresh_via_hmac (refresh_token : pystr) : Route Reply :=
  let* secret := require_hmac in
  let* c := stub_errors INVALID_TOKEN id (verify_token_opts refresh_token (verify_opts s (Some secret) SESSION_KIND_REFRESH) now) in
  let p := {| sp_secret := secret; sp_org_id := sc_org_id c; sp_permissions := sc_permissions c; sp_subject := sc_sub c |} in
  Ok (ok_reply true (Some (uuid_str (sc_org_id c))) (session_cookies (mint_access p) None ++ mint_and_set_csrf secret)).

Definition refresh_session (q : Request) : Route Reply :=
  let* raw := require_session_refresh q in
  if negb is_dev then refresh_via_auth raw
  else
    let* alg := stub_errors INVALID_TOKEN id (peek_token_alg raw) in
    if auth_owned_refresh alg then refresh_via_auth raw else refresh_via_hmac raw.

(** [_clear_session_cookies] *)
Definition clear_session_cookies : list CookieOp :=
  (fun name => DeleteCookie name (negb (bool_decide (name = dashboard_csrf_cookie_name s))) cookie_is_secure (cookie_samesite s) (cookie_domain s))
  <$> [dashboard_session_cookie_name s; dashboard_refresh_cookie_name s; dashboard_csrf_cookie_name s].

Definition logout_error (code : ApiErrorCode) (message : string) : Reply :=
  {| rp_ok := false; rp_error := Some (code, message); rp_provisional := false; rp_org := None; rp_cookies := clear_session_cookies |}.

(** [_logout_claims] *)
Definition logout_claims (raw : option pystr) (kind : pystr) : Route (option SessionClaims) :=
  match present raw with
  | None => Ok None
  | Some raw =>
      match verify_token_opts raw (verify_opts s None kind) now with
      | Ok c => Ok (Some c)
      | Raise (SessionStubError _) => Ok None
      | Raise e => Raise (Escapes (EscToken e))
      end
  end.

(** [_logout_proofs_mismatch] *)
Definition logout_proofs_mismatch (access refresh : option SessionClaims) : bool :=
  match access, refresh with
  | Some a, Some r => negb (bool_decide (sc_session_id a = sc_session_id r)) || negb (bool_decide (sc_family_id a = sc_family_id r))
  | _, _ => false
  end.

(** [_select_logout_claims] *)
Definition select_logout_claims (access refresh : option SessionClaims) : SessionClaims + Reply :=
  match access, refresh with
  | None, None => inr (logout_error INVALID_TOKEN "no valid session proof")
  | Some a, _ => if logout_proofs_mismatch access refresh then inr (logout_error INVALID_TOKEN "session proofs do not match") else inl a
  | None, Some r => inl r
  end.

Definition logout_params (claims : SessionClaims) (access refresh : option SessionClaims) (raw_access raw_refresh : option pystr) : RevokeSessionParams :=
  {| rp_session_id := sc_session_id claims; rp_family_id := default [] (sc_family_id claims);
     rp_access_jti := match access with Some a => sc_jti a | None => [] end;
     rp_access_token := match access with Some _ => default [] raw_access | None => [] end;
     rp_refresh_token := match refresh with Some _ => default [] raw_refresh | None => [] end |}.

(** [_revoke_logout_session]; [None] is success. *)
Definition revoke_logout_session (p : RevokeSessionParams) : Route (option Reply) :=
  match revoke_operator_session (service_token s) p with
  | Ok _ => Ok None
  | Raise AuthFailedError => Ok (Some (logout_error INVALID_TOKEN "invalid session"))
  | Raise AuthUnavailableError => Ok (Some (logout_error SERVICE_DEGRADED "auth unavailable"))
  | Raise (AuthEscapes e) => Raise (Escapes e)
  end.

Definition logout_via_auth (q : Request) : Route (option Reply) :=
  let raw_access := cookie q (dashboard_session_cookie_name s) in
  let raw_refresh := cookie q (dashboard_refresh_cookie_name s) in
  let* access := logout_claims raw_access SESSION_KIND_ACCESS in
  let* refresh := logout_claims raw_refresh SESSION_KIND_REFRESH in
  match select_logout_claims access refresh with
  | inr r => Ok (Some r)
  | inl claims => revoke_logout_session (logout_params claims access refresh raw_access raw_refresh)
  end.

Definition logout (q : Request) : Route Reply :=
  let* '_ := require_session_logout in
  let* failed := if is_dev then Ok None else logout_via_auth q in
  match failed with
  | Some r => Ok r
  | None => Ok (ok_reply false None clear_session_cookies)
  end.

(** [GET /me]: the organization and the subject of the caller. *)
Definition me_auth (raw : pystr) : Route (pystr * pystr) :=
  let* v := auth_errors INVALID_TOKEN "invalid session" (validate_operator_session (service_token s) raw) in
  Ok (vs_org_id v, vs_subject v).

Definition me_cookie (raw : pystr) (secret : option bytes) : Route (pystr * pystr) :=
  let* c := stub_errors INVALID_TOKEN id (verify_token_opts raw (verify_opts s secret SESSION_KIND_ACCESS) now) in
  Ok (uuid_str (sc_org_id c), sc_sub c).

(** [parse_authorization_header] *)
Context (parse_authorization_header : option pystr -> option pystr).

Definition me_bearer (q : Request) : Route (pystr * pystr) :=
  match parse_authorization_header (rq_authorization q) with
  | None => Raise (ApiError INVALID_TOKEN "missing session cookie")
  | Some bearer =>
      let* r := auth_errors INVALID_TOKEN "invalid token" (validate_pat bearer) in Ok (uuid_str (vr_org_id r), [])
  end.

Definition me (q : Request) : Route (pystr * pystr) :=
  let* raw := require_session_me q in
  match present raw with
  | None => me_bearer q
  | Some raw => if negb is_dev then me_auth raw else me_cookie raw (jwt_hmac_secret s)
  end.
End Routes.
