(* ===== verification/SessionGuards.v ===== *)
(** * What the operator session code guarantees

    Theorems about [OperatorSession]: who a session belongs to, what a
    high-impact action needs, what a logout and the CSRF middleware do. *)

From S2P Require Import Prelude PyText Wire AuthCodec RefreshCodec Permissions SessionToken OperatorSession.

Lemma present_Some {A} (v : option (list A)) l : present v = Some l <-> v = Some l /\ l <> [].
Proof. destruct v as [[|x l']|]; cbn; split; [done|by intros [[= <-] ?]|intros [= <-]; done|by intros [[= <-] _]|done|by intros [? _]]. Qed.

Lemma stub_errors_Ok {A} code f (r : result TokenError A) a : stub_errors code f r = Ok a <-> r = Ok a.
Proof. destruct r as [b|[]]; cbn; split; congruence. Qed.

Lemma auth_errors_Ok {A} code m (r : result AuthError A) a : auth_errors code m r = Ok a <-> r = Ok a.
Proof. destruct r as [b|[]]; cbn; split; congruence. Qed.

Lemma uncaught_Ok {A} (r : result CodecError A) a : uncaught r = Ok a <-> r = Ok a.
Proof. destruct r; cbn; split; congruence. Qed.

Section Guards.
Context `{UnicodeDB} `{Jwt} `{AuthService} (s : OpSettings) (now : Z).

(** The Auth service answered the call. *)
Definition auth_answered (m : RpcMethod) (payload reply : bytes) : Prop :=
  auth_rpc {| rc_method := m; rc_payload := payload; rc_bearer := None; rc_service_token := service_token s |} = RpcReply reply.

Lemma call_lifecycle_Ok m payload reply : call_lifecycle (service_token s) m payload = Ok reply <-> auth_answered m payload reply.
Proof.
  unfold call_lifecycle, auth_answered. destruct (auth_rpc _) as [raw| |[]| |]; split; congruence.
Qed.

(** *** Sessions *)

(** Who vouches for the session [a] of a cookie: a locally verified access token
    in development, the Auth service anywhere else. *)
Definition vouched (raw : pystr) (a : OperatorSessionAuthorization) : Prop :=
  if bool_decide (environment s = Development) then
    exists c, verify_token_opts raw (verify_opts s (jwt_hmac_secret s) SESSION_KIND_ACCESS) now = Ok c /\
      a = {| oa_org_id := sc_org_id c; oa_permissions := sc_permissions c; oa_session_id := sc_session_id c; oa_subject := sc_sub c |}
  else
    exists payload reply v, encode_string_fields [(1, raw)] = Ok payload /\ auth_answered ValidateOperatorSession payload reply /\
      parse_validated_session reply = Ok v /\ uuid_parse (vs_org_id v) = Some (oa_org_id a) /\ oa_permissions a = vs_permissions v /\
      oa_session_id a = vs_session_id v /\ oa_subject a = vs_subject v.

Lemma validate_remote_session_Ok raw v :
  validate_remote_session s raw = Ok v ->
  exists payload reply, encode_string_fields [(1, raw)] = Ok payload /\ auth_answered ValidateOperatorSession payload reply /\
    parse_validated_session reply = Ok v.
Proof.
  unfold validate_remote_session. intros Hv.
  assert (validate_operator_session (service_token s) raw = Ok v) as Hr
    by (destruct (validate_operator_session _ raw) as [w|[| |[]]]; cbn in Hv; congruence).
  unfold validate_operator_session in Hr. apply rbind_Ok in Hr as (payload & Hp%uncaught_Ok & (reply & Hc%call_lifecycle_Ok & Hd)%rbind_Ok). eauto.
Qed.

Lemma require_operator_session_Ok q st a st' :
  require_operator_session s now q st = Ok (a, st') ->
  operator_feature_enabled s = true /\ st' = bind_session a st /\ oa_subject a <> [] /\
  exists raw, cookie q (dashboard_session_cookie_name s) = Some raw /\ raw <> [] /\ vouched raw a.
Proof.
  unfold require_operator_session. intros ([] & Hf & (raw & Hc & (b & Hb & Hs)%rbind_Ok)%rbind_Ok)%rbind_Ok.
  case_bool_decide as Es; [done|]. injection Hs as -> <-. unfold require_operator_feature in Hf.
  destruct (operator_feature_enabled s); [|done]. split; [done|]. split; [done|]. split; [done|].
  unfold access_cookie in Hc. destruct (present (cookie _ _)) as [raw'|] eqn:Ep; [|done]. injection Hc as ->. apply present_Some in Ep as [Ep Hne].
  exists raw. split; [done|]. split; [done|]. unfold vouched. case_bool_decide.
  - unfold verified_local_session in Hb. apply rbind_Ok in Hb as (c & Hc%stub_errors_Ok & [= <-]). eauto.
  - apply rbind_Ok in Hb as (v & (payload & reply & F1 & F2 & F3)%validate_remote_session_Ok & Ha).
    unfold authorization_from_validated in Ha. destruct (existsb _ _); [done|]. destruct (uuid_parse _) eqn:Eu; [|done]. injection Ha as <-.
    exists payload, reply, v. done.
Qed.

(** *** Step-up *)

(** The proof of step-up for one action: bound to the subject and organization of
    the caller, to the session and to the action, by the claims of a verified
    step-up token in development, by the Auth service consuming it elsewhere. *)
Definition stepped_up (raw subject : pystr) (org : Z) (sid action : pystr) (permission : Z) : Prop :=
  if bool_decide (environment s = Development) then
    exists c, verify_token_opts (strip_space raw) (verify_opts s (jwt_hmac_secret s) SESSION_KIND_STEP_UP) now = Ok c /\
      sc_sub c = subject /\ uuid_str (sc_org_id c) = uuid_str org /\ sc_session_id c = sid /\ sc_action c = Some action /\
      Z.land (sc_permissions c) permission = permission
  else
    exists payload reply,
      step_up_payload {| cp_token := raw; cp_subject := subject; cp_org_id := uuid_str org; cp_session_id := sid; cp_action := action;
                         cp_permission := permission |} = Ok payload /\
      auth_answered ConsumeStepUp payload reply.

Lemma enforce_step_up_Ok q st t a st' :
  enforce_step_up s now q st t a = Ok st' ->
  exists raw subject sid, rq_step_up q = Some raw /\ raw <> [] /\ step_up_subject t = Some subject /\
    match present (su_session_id a) with Some i => Some i | None => present (ibex_session_id st) end = Some sid /\
    stepped_up raw subject (vr_org_id t) sid (su_action a) (su_required_permission a).
Proof.
  unfold enforce_step_up. intros (p & Hp & ([] & He & _)%rbind_Ok)%rbind_Ok. unfold resolve_step_up_proof in Hp.
  destruct (present (rq_step_up q)) as [raw|] eqn:Er; [|done]. apply present_Some in Er as [Er Hne].
  destruct (step_up_subject t) as [subject|]; [|done].
  set (sid := match present (su_session_id a) with Some i => Some i | None => present (ibex_session_id st) end) in *.
  destruct sid as [i|]; [|done]. injection Hp as <-. exists raw, subject, i. split; [done|]. split; [done|]. split; [done|]. split; [done|].
  unfold stepped_up. case_bool_decide as Ed.
  - unfold enforce_local_step_up, verify_step_up_token in He. rewrite bool_decide_eq_true_2 in He by done.
    apply rbind_Ok in He as (c & Hc%stub_errors_Ok & He). cbn in *. exists c. split; [done|].
    destruct (identity_matches _ c) eqn:Ei; [|done]. destruct (action_matches _ c) eqn:Ea; [|done].
    unfold identity_matches in Ei. unfold action_matches in Ea. cbn in Ei, Ea. bools. done.
  - unfold enforce_auth_step_up, consume_step_up in He. apply auth_errors_Ok, rbind_Ok in He as (payload & Hpl%uncaught_Ok & He).
    apply rbind_Ok in He as (reply & Hr%call_lifecycle_Ok & _). exists payload, reply. done.
Qed.

(** C7: A high-impact operator action needs everything at once: when the
    dependency of an operator permission lets a request through, the feature is
    enabled, the kill switch of the permission is not off, the caller's token has
    every bit of the permission, and if the permission is one that requires
    step-up the request carries a proof and a live operator session, and that
    proof is bound to the caller's subject and organization, to that session, to
    the action and to the permission; outside development the Auth service has
    consumed it for exactly these values during this request. *)
Theorem operator_action_authorized required q t t' st' :
  require_operator_permission s now required q fresh_state t = Ok (t', st') ->
  t' = t /\ operator_feature_enabled s = true /\ kill_switch s required <> Some false /\ has_permission (vr_permissions t) required = true /\
  (requires_step_up required = true ->
   exists raw subject cookie_raw a, rq_step_up q = Some raw /\ step_up_subject t = Some subject /\
     cookie q (dashboard_session_cookie_name s) = Some cookie_raw /\ vouched cookie_raw a /\ oa_session_id a <> [] /\
     stepped_up raw subject (vr_org_id t) (oa_session_id a) (permission_action required) required).
Proof.
  unfold require_operator_permission. intros ([session st] & Hm & ([] & Hf & ([] & Hk & Hr)%rbind_Ok)%rbind_Ok)%rbind_Ok.
  unfold assert_operator_feature_enabled in Hf. destruct (operator_feature_enabled s) eqn:Ef; [|done].
  unfold assert_operator_action_enabled in Hk. destruct (has_permission (vr_permissions t) required) eqn:Eh; [|done]. cbn [negb] in Hr.
  assert (kill_switch s required <> Some false) as Hks by (by destruct (kill_switch s required) as [[]|]).
  destruct (requires_step_up required); [|by injection Hr as <- <-].
  apply rbind_Ok in Hr as (st2 & He & [= <- <-]). split; [done|]. split; [done|]. split; [done|]. split; [done|]. intros _.
  apply enforce_step_up_Ok in He as (raw & subject & sid & Hraw & Hne & Hsub & Hsid & Hup). cbn [su_session_id su_action su_required_permission] in *.
  unfold maybe_operator_session in Hm. rewrite (proj2 (present_Some _ raw)) in Hm by done. cbn [rbind] in Hm.
  apply rbind_Ok in Hm as ([a st1] & Ha & [= <- <-]). apply require_operator_session_Ok in Ha as (_ & -> & _ & craw & Hcr & _ & Hv).
  exists raw, subject, craw, a. cbn in Hsid. destruct (oa_session_id a) as [|x l] eqn:Es; cbn in Hsid; [done|]. injection Hsid as <-.
  split_and!; done.
Qed.

(** The guard of the legal hold routes. *)
Theorem legal_hold_guard user_role q a st' :
  require_operator_legal_hold_manage s now user_role q fresh_state = Ok (a, st') ->
  exists craw raw role, cookie q (dashboard_session_cookie_name s) = Some craw /\ vouched craw a /\
    user_role (oa_subject a) (oa_org_id a) = Some role /\ role ∈ AdminRoles /\
    has_permission (oa_permissions a) LEGAL_HOLD_MANAGE = true /\ rq_step_up q = Some raw /\
    stepped_up raw (oa_subject a) (oa_org_id a) (oa_session_id a) (lit "legal_hold.manage") LEGAL_HOLD_MANAGE.
Proof.
  unfold require_operator_legal_hold_manage. intros ([b st] & Hs & Hr)%rbind_Ok.
  destruct (user_role (oa_subject b) (oa_org_id b)) as [role|] eqn:Eu; [|done]. case_bool_decide as Ea; [|done]. cbn [negb] in Hr.
  destruct (has_permission (oa_permissions b) LEGAL_HOLD_MANAGE) eqn:Eh; [|done]. cbn [negb] in Hr.
  apply rbind_Ok in Hr as (st2 & He & [= <- <-]). apply require_operator_session_Ok in Hs as (_ & -> & Hsn & craw & Hcr & _ & Hv).
  apply enforce_step_up_Ok in He as (raw & subject & sid & Hraw & Hne & Hsub & Hsid & Hup). cbn in *.
  exists craw, raw, role. destruct (oa_subject b) as [|x u] eqn:Eb; [done|]. cbn in Hsub. injection Hsub as <-.
  destruct (oa_session_id b) as [|y l] eqn:Es; cbn in Hsid; [done|]. injection Hsid as <-. split_and!; done.
Qed.

(** *** Logout *)

Lemma logout_claims_Ok raw kind oc :
  logout_claims s now raw kind = Ok oc ->
  forall c, oc = Some c -> exists r, raw = Some r /\ verify_token_opts r (verify_opts s None kind) now = Ok c.
Proof.
  unfold logout_claims. destruct (present raw) as [r|] eqn:Er; [|by intros [= <-]]. apply present_Some in Er as [-> _].
  intros Hl c ->. exists r. split; [done|]. destruct (verify_token_opts _ _ _) as [c'|[]]; try done. by injection Hl as <-.
Qed.

(** Without a secret only RSA signatures are accepted. *)
Lemma no_secret_rs256 raw kind c : verify_token_opts raw (verify_opts s None kind) now = Ok c -> sc_verify_method c = "RS256"%string.
Proof.
  unfold verify_token_opts. intros (p & _ & (alg & _ & (d & _ & Hv)%rbind_Ok)%rbind_Ok)%rbind_Ok.
  case_bool_decide; [|case_bool_decide; [|done]].
  - apply verify_rs256_token_ok in Hv as (? & _ & _ & _ & Hv). by apply validate_claims_ok in Hv as [_ ?].
  - by apply verify_hs256_token_ok in Hv as (? & ? & _).
Qed.

(** A logout never leaves cookies behind and outside development really ends
    the session: every response, also an error, deletes the session, the refresh
    and the CSRF cookie; and when it reports success outside development, one of
    the two cookies carried a token with a valid RSA signature of the right kind
    and the Auth service has revoked the session that token names. *)
Theorem logout_revokes_and_clears q r :
  logout s now q = Ok r ->
  rp_cookies r = clear_session_cookies s /\
  (rp_ok r = true -> environment s <> Development ->
   exists name kind raw c p payload reply,
     (name, kind) ∈ [(dashboard_session_cookie_name s, SESSION_KIND_ACCESS); (dashboard_refresh_cookie_name s, SESSION_KIND_REFRESH)] /\
     cookie q name = Some raw /\ verify_token_opts raw (verify_opts s None kind) now = Ok c /\ sc_verify_method c = "RS256"%string /\
     rp_session_id p = sc_session_id c /\ revoke_payload p = Ok payload /\ auth_answered RevokeOperatorSession payload reply).
Proof.
  unfold logout. intros ([] & _ & (failed & Hf & Hr)%rbind_Ok)%rbind_Ok. unfold is_dev in Hf. case_bool_decide as Ed.
  { injection Hf as <-. injection Hr as <-. done. }
  unfold logout_via_auth in Hf. apply rbind_Ok in Hf as (oa & Ha & (orf & Hrf & Hs)%rbind_Ok).
  pose proof (logout_claims_Ok _ _ _ Ha) as Hca. pose proof (logout_claims_Ok _ _ _ Hrf) as Hcr.
  destruct (select_logout_claims s oa orf) as [c|e] eqn:Esel.
  - unfold revoke_logout_session in Hs. destruct (revoke_operator_session _ _) as [[]|[| |]] eqn:Erv; try done.
    + injection Hs as <-. injection Hr as <-. split; [done|]. intros _ _. unfold revoke_operator_session in Erv.
      apply rbind_Ok in Erv as (payload & Hp%uncaught_Ok & (reply & Hc%call_lifecycle_Ok & _)%rbind_Ok).
      assert (oa = Some c \/ orf = Some c) as [Hoc|Hoc].
      { unfold select_logout_claims in Esel. destruct oa as [a|]; [destruct (logout_proofs_mismatch _ _); [done|]|destruct orf; [|done]];
          injection Esel as ->; auto. }
      * destruct (Hca c Hoc) as (raw & F1 & F2). eexists _, _, raw, c, _, payload, reply. split; [left|].
        split_and!; [exact F1|exact F2|by eapply no_secret_rs256| |exact Hp|exact Hc]; done.
      * destruct (Hcr c Hoc) as (raw & F1 & F2). eexists _, _, raw, c, _, payload, reply. split; [right; left|].
        split_and!; [exact F1|exact F2|by eapply no_secret_rs256| |exact Hp|exact Hc]; done.
    + injection Hs as <-. injection Hr as <-. done.
    + injection Hs as <-. injection Hr as <-. done.
  - injection Hs as <-. injection Hr as <-. unfold select_logout_claims in Esel.
    destruct oa as [a|]; [destruct (logout_proofs_mismatch _ _); [|done]|destruct orf; [done|]]; by injection Esel as <-.
Qed.

(** A malformed cookie makes logout fail instead of clearing the cookies:
    outside development a session cookie of three parts whose header part decodes
    to bytes that are no text escapes as [UnicodeDecodeError], which none of the
    handlers catches, whatever else the request carries. *)
Theorem undecodable_cookie_escapes_logout q raw p b :
  operator_feature_enabled s = true -> environment s <> Development ->
  cookie q (dashboard_session_cookie_name s) = Some raw -> raw <> [] ->
  split_jwt raw = Ok p -> b64url_decode (header_b64 p) = Ok b -> json_loads b = UndecodableBytes ->
  logout s now q = Raise (Escapes (EscToken UnicodeDecodeEscapes)).
Proof.
  intros Hf Hd Hc Hne Hp Hb Hj. unfold logout, require_session_logout, require_operator_enabled, is_dev. rewrite Hf. cbn [rbind].
  rewrite bool_decide_eq_false_2 by done. unfold logout_via_auth, logout_claims. rewrite Hc, (proj2 (present_Some _ raw)) by done.
  unfold verify_token_opts. rewrite Hp. cbn [rbind]. unfold header_alg, header_text, read_dict. rewrite Hb, Hj. reflexivity.
Qed.
End Guards.

(** ** CSRF *)

Section CsrfGuards.
Context `{Jwt}.

Lemma cut_dot_app s a b : cut_dot s = Some (a, b) -> s = a ++ lit "." ++ b.
Proof.
  revert a b. induction s as [|c s IH]; intros a b; cbn; [done|]. destruct (c =? 46) eqn:E; bools; [by intros [= <- <-]; subst|].
  destruct (cut_dot s) as [[a' b']|]; [|done]. intros [= <- <-]. cbn. by rewrite (IH a' b').
Qed.

Lemma cut_dot_free a b : Forall (fun c => c <> 46) a -> cut_dot (a ++ lit "." ++ b) = Some (a, b).
Proof. induction 1 as [|c a Hc Ha IH]; [done|]. cbn. apply Z.eqb_neq in Hc. rewrite Hc. cbn in IH. by rewrite IH. Qed.

Lemma hexdigest_ascii b : is_ascii (hexdigest b) = true.
Proof.
  unfold hexdigest. induction b as [|x b IH]; [done|]. cbn [foldr]. rewrite is_ascii_app, IH, andb_true_r.
  apply forallb_forall. intros c Hc%list_elem_of_In. pose proof (hexs_chars 2 x) as Hx. rewrite Forall_forall in Hx.
  apply andb_true_intro. destruct (Hx c Hc); split; [apply Z.leb_le|apply Z.ltb_lt|apply Z.leb_le|apply Z.ltb_lt]; lia.
Qed.

Lemma verify_csrf_sound secret ck hd :
  verify_csrf_token secret ck hd = Some true ->
  exists tok nonce raw, ck = Some tok /\ hd = Some tok /\ utf8_encode nonce = Some raw /\
    tok = nonce ++ lit "." ++ hexdigest (hmac_sha256 secret raw).
Proof.
  unfold verify_csrf_token. destruct (present ck) as [c|] eqn:Ec; [|done]. destruct (present hd) as [h|] eqn:Eh; [|done].
  apply present_Some in Ec as [-> _], Eh as [-> _]. unfold compare_digest. destruct (is_ascii c && is_ascii h)%bool; [|done].
  case_bool_decide as E; [subst|done]. destruct (cut_dot h) as [[nonce digest]|] eqn:Ed; [|done].
  destruct (utf8_encode nonce) as [raw|] eqn:Eu; [|done]. destruct (_ && _)%bool; [|done]. case_bool_decide as E; [|done]. intros _.
  exists h, nonce, raw. subst digest. apply cut_dot_app in Ed. done.
Qed.

Lemma minted_csrf_verifies secret nonce tok :
  mint_csrf_token secret nonce = Some tok -> is_ascii nonce = true -> Forall (fun c => c <> 46) nonce ->
  verify_csrf_token secret (Some tok) (Some tok) = Some true.
Proof.
  unfold mint_csrf_token. intros (raw & Hu & ->)%fmap_Some Ha Hd. unfold verify_csrf_token.
  rewrite (proj2 (present_Some (Some _) _)) by (split; [done|]; by destruct nonce). unfold compare_digest.
  rewrite !is_ascii_app, Ha, hexdigest_ascii. cbn [andb lit]. change (is_ascii (lit ".")) with true. cbn [andb].
  rewrite bool_decide_eq_true_2 by done. rewrite cut_dot_free, Hu, hexdigest_ascii by done. cbn [andb]. by rewrite bool_decide_eq_true_2.
Qed.

(** The CSRF middleware guards every cookie session: a mutating request with
    a session or refresh cookie on a path that is not exempt is forwarded exactly
    when its origin is allowed and the CSRF cookie equals the CSRF header and is a
    token minted with the configured secret; the token a login mints is accepted. *)
Theorem csrf_guards_cookie_sessions s c :
  hs_is_http c = true -> hs_safe_method c = false -> path_is_csrf_exempt (hs_path c) = false -> session_cookies_present s c = true ->
  (csrf_middleware s c = Forwarded ->
   origin_allowed s c = true /\
   exists secret tok nonce raw, present (dashboard_csrf_secret s) = Some secret /\
     get_cookie (hs_cookies c) (dashboard_csrf_cookie_name s) = Some tok /\ hs_csrf_header c = Some tok /\
     utf8_encode nonce = Some raw /\ tok = nonce ++ lit "." ++ hexdigest (hmac_sha256 secret raw)) /\
  (forall secret nonce tok, origin_allowed s c = true -> present (dashboard_csrf_secret s) = Some secret ->
     mint_csrf_token secret nonce = Some tok -> is_ascii nonce = true -> Forall (fun x => x <> 46) nonce ->
     get_cookie (hs_cookies c) (dashboard_csrf_cookie_name s) = Some tok -> hs_csrf_header c = Some tok ->
     csrf_middleware s c = Forwarded).
Proof.
  intros Hh Hm Hp Hc. unfold csrf_middleware, should_skip. rewrite Hh, Hm, Hp, Hc. cbn [negb orb]. split.
  - destruct (origin_allowed s c); [|done]. cbn [negb]. destruct (present (dashboard_csrf_secret s)) as [secret|]; [|done].
    destruct (verify_csrf_token _ _ _) as [[]|] eqn:Ev; try done. intros _. split; [done|].
    apply verify_csrf_sound in Ev as (tok & nonce & raw & ?). exists secret, tok, nonce, raw. tauto.
  - intros secret nonce tok -> -> Hmint Ha Hd -> ->. cbn [negb]. by rewrite (minted_csrf_verifies secret nonce tok).
Qed.
End CsrfGuards.

(** ** Sample requests *)

Module GuardSample.
Import TokenSample.

Definition settings (env : Environment) : OpSettings := {|
  operator_feature_enabled := true; environment := env; jwt_hmac_secret := Some (lit "secret"); jwt_public_keys_pem := Some (lit "pem");
  jwt_issuer := lit "ibex"; jwt_audience := lit "console"; jwt_key_id := lit "v1"; jwt_access_token_ttl_seconds := 900;
  jwt_refresh_token_ttl_seconds := 3600; dashboard_session_cookie_name := lit "ibex_session"; dashboard_refresh_cookie_name := lit "ibex_refresh";
  dashboard_csrf_cookie_name := lit "ibex_csrf"; dashboard_csrf_secret := Some (lit "csrf"); cookie_secure := true; cookie_samesite := "lax";
  cookie_domain := None; cors_origins := [lit "https://console"]; auth_service_token := Some (lit "svc"); operator_allow_raw_read := false;
  operator_allow_export := true; operator_allow_delete := false; operator_allow_replay := false; operator_allow_secret_use := false |}.

(** An Auth service that knows one session and consumes every step-up. *)
Definition reply_bytes : bytes :=
  match encode_string_fields [(1, lit "user-1"); (2, uuid_str 7); (4, lit "sid-1"); (5, lit "jti-1")] with Ok b => b | Raise _ => [] end.
#[export] Instance auth : AuthService :=
  {| auth_rpc := fun c => match rc_method c with ValidateOperatorSession => RpcReply reply_bytes | _ => RpcReply [] end |}.

Definition request : Request := {| rq_cookies := [(lit "ibex_session", lit "cookie")]; rq_step_up := Some (lit "proof"); rq_authorization := None |}.
Definition caller : ValidateResult :=
  {| vr_org_id := 7; vr_permissions := OPERATOR_EXPORT; vr_user_id := Some (lit "user-1"); vr_token_id := None |}.

Definition exported := require_operator_permission (settings Production) 1000 OPERATOR_EXPORT request fresh_state caller.
Definition exported_state : ReqState := match exported with Ok (_, st) => st | Raise _ => fresh_state end.

Lemma export_allowed : exported = Ok (caller, exported_state).
Proof. vm_compute. reflexivity. Qed.

Lemma operator_action_authorized_witness :
  exists raw subject craw a, rq_step_up request = Some raw /\ step_up_subject caller = Some subject /\
     cookie request (lit "ibex_session") = Some craw /\ vouched (settings Production) 1000 craw a /\ oa_session_id a <> [] /\
     stepped_up (settings Production) 1000 raw subject 7 (oa_session_id a) (permission_action OPERATOR_EXPORT) OPERATOR_EXPORT.
Proof.
  destruct (operator_action_authorized (settings Production) 1000 OPERATOR_EXPORT request caller caller exported_state export_allowed)
    as (_ & _ & _ & _ & E).
  apply E. vm_compute. reflexivity.
Defined.

(** The sample Auth service answers, the sample keys sign nothing: logout is an
    error that clears the cookies. *)
Definition logged_out : Reply := logout_error (settings Production) INVALID_TOKEN "no valid session proof".
Lemma logout_refused : logout (settings Production) 1000 request = Ok logged_out.
Proof. vm_compute. reflexivity. Qed.

Lemma logout_revokes_and_clears_witness : rp_cookies logged_out = clear_session_cookies (settings Production).
Proof. exact (proj1 (logout_revokes_and_clears (settings Production) 1000 request logged_out logout_refused)). Defined.

(** The header part _w decodes to the byte 255. *)
Definition bad_request : Request :=
  {| rq_cookies := [(lit "ibex_session", lit "_w.Ag.Ag")]; rq_step_up := None; rq_authorization := None |}.

Lemma undecodable_cookie_escapes_logout_witness :
  logout (settings Production) 1000 bad_request = Raise (Escapes (EscToken UnicodeDecodeEscapes)).
Proof.
  apply (undecodable_cookie_escapes_logout (settings Production) 1000 bad_request (lit "_w.Ag.Ag")
    {| header_b64 := lit "_w"; payload_b64 := lit "Ag"; sig_b64 := lit "Ag" |} [255]); try reflexivity; done.
Defined.

Definition nonce : pystr := lit "nonce".
Definition csrf_token : pystr := default [] (mint_csrf_token (lit "csrf") nonce).
Definition scope : HttpScope := {|
  hs_is_http := true; hs_safe_method := false; hs_path := lit "/v1/organizations"; hs_cookies := [(lit "ibex_session", lit "c"); (lit "ibex_csrf", csrf_token)];
  hs_origin := Some (lit "https://console"); hs_referer_origin := None; hs_csrf_header := Some csrf_token |}.

Lemma csrf_guards_cookie_sessions_witness : csrf_middleware (settings Production) scope = Forwarded.
Proof.
  apply (proj2 (csrf_guards_cookie_sessions (settings Production) scope eq_refl eq_refl eq_refl eq_refl) (lit "csrf") nonce csrf_token).
  - reflexivity.
  - reflexivity.
  - vm_compute. reflexivity.
  - reflexivity.
  - repeat constructor; done.
  - reflexivity.
  - reflexivity.
Defined.
End GuardSample.
