(* ===== verification/EventHub.v ===== *)
(** * The operator event stream
    ([services/api/app/sse/operator_events.py], [services/api/app/drain.py] and the
    header of [services/api/app/routers/operator_events.py])

    The hub keeps the last events of every organization and one bounded queue per
    open stream.  Its critical sections never wait, so each is one operation; what a
    stream does between two chunks it hands out is one operation too, and a list of
    operations is an interleaving.  A stream and the hub share the stream's queue. *)

From S2P Require Import Prelude PyText Num ModelClients.

Record OperatorEvent := { event_id : Z; ev_org : Z; payload : list (pystr * Json); event_type : string }.

Definition HISTORY_LIMIT : nat := 256.
Definition QUEUE_SIZE : nat := 64.
#[global] Arguments HISTORY_LIMIT : simpl never.
#[global] Arguments QUEUE_SIZE : simpl never.

(** What a stream hands out. *)
Inductive Chunk := Heartbeat | Sent (e : OperatorEvent).

(** Where a stream is: it has handed out a chunk and its backlog still holds [b];
    it waits for its queue; it is over. *)
Inductive Phase := Yielding (b : list OperatorEvent) | Waiting | Finished.

(** An [asyncio.Queue]; [None] is the sentinel that ends the stream. *)
Definition Queue : Type := list (option OperatorEvent).

Record Stream := {
  st_org : Z;
  st_phase : Phase;
  st_queue : Queue;
  st_chunks : list Chunk;          (* handed out so far *)
}.

(** [OperatorSSEHub] with the streams it has opened and the flag of [DrainState]. *)
Record Hub := {
  next_id : Z;
  history : list OperatorEvent;
  subscribers : list nat;
  streams : gmap nat Stream;
  draining : bool;
}.

Definition initial : Hub := {| next_id := 1; history := []; subscribers := []; streams := ∅; draining := false |}.

Definition set_queue (q : Queue) (s : Stream) : Stream :=
  {| st_org := st_org s; st_phase := st_phase s; st_queue := q; st_chunks := st_chunks s |}.
Definition set_phase (p : Phase) (s : Stream) : Stream :=
  {| st_org := st_org s; st_phase := p; st_queue := st_queue s; st_chunks := st_chunks s |}.
Definition hand_out (c : Chunk) (p : Phase) (q : Queue) (s : Stream) : Stream :=
  {| st_org := st_org s; st_phase := p; st_queue := q; st_chunks := st_chunks s ++ [c] |}.

Definition with_streams (ss : gmap nat Stream) (h : Hub) : Hub :=
  {| next_id := next_id h; history := history h; subscribers := subscribers h; streams := ss; draining := draining h |}.

(** ** Queues and publication *)

(** [put_nowait]; [None] is [QueueFull]. *)
Definition put_nowait (x : option OperatorEvent) (q : Queue) : option Queue :=
  if (length q <? QUEUE_SIZE)%nat then Some (q ++ [x]) else None.

Definition force_sentinel (q : Queue) : Queue :=
  match put_nowait None q with
  | Some q => q
  | None =>
      match q with
      | [] => q
      | _ :: q => match put_nowait None q with Some q => q | None => q end
      end
  end.

(** [list.remove]: the first occurrence. *)
Fixpoint remove_first (x : nat) (l : list nat) : list nat :=
  match l with
  | [] => []
  | y :: l => if (y =? x)%nat then l else y :: remove_first x l
  end.

Definition unsubscribe (i : nat) (h : Hub) : Hub :=
  {| next_id := next_id h; history := history h; subscribers := remove_first i (subscribers h);
     streams := streams h; draining := draining h |}.

Definition end_queue (q : Queue) : Queue :=
  match put_nowait None q with Some q => q | None => force_sentinel q end.

Definition disconnect_subscriber (h : Hub) (i : nat) : Hub :=
  let h := unsubscribe i h in
  with_streams (alter (fun s => set_queue (end_queue (st_queue s)) s) i (streams h)) h.

(** The subscribers' loop of [publish]: the streams and those that lag. *)
Definition offer (e : OperatorEvent) (acc : gmap nat Stream * list nat) (i : nat) : gmap nat Stream * list nat :=
  match acc.1 !! i with
  | Some s =>
      if negb (st_org s =? ev_org e) then acc
      else match put_nowait (Some e) (st_queue s) with
           | Some q => (<[i := set_queue q s]> acc.1, acc.2)
           | None => (acc.1, acc.2 ++ [i])
           end
  | None => acc
  end.

Definition trim (l : list OperatorEvent) : list OperatorEvent :=
  if (HISTORY_LIMIT <? length l)%nat then drop (length l - HISTORY_LIMIT) l else l.

Definition new_event (h : Hub) (org : Z) (ty : string) (p : list (pystr * Json)) : OperatorEvent :=
  {| event_id := next_id h; ev_org := org; payload := p; event_type := ty |}.

Definition publish (org : Z) (ty : string) (p : list (pystr * Json)) (h : Hub) : Hub :=
  let e := new_event h org ty p in
  let '(ss, lagging) := foldl (offer e) (streams h, []) (subscribers h) in
  foldl disconnect_subscriber
    {| next_id := next_id h + 1; history := trim (history h ++ [e]); subscribers := subscribers h;
       streams := ss; draining := draining h |} lagging.

(** ** Streams *)

Definition belongs (org : Z) (last : option Z) (e : OperatorEvent) : bool :=
  ((ev_org e =? org) && match last with Some n => n <? event_id e | None => true end)%bool.

Definition backlog_after (org : Z) (last : option Z) (h : Hub) : list OperatorEvent :=
  List.filter (belongs org last) (history h).

(** [subscribe] up to its first chunk; [None] when the API drains. *)
Definition subscribe (i : nat) (org : Z) (last : option Z) (h : Hub) : option Hub :=
  if draining h then None
  else Some {| next_id := next_id h; history := history h; subscribers := subscribers h ++ [i];
               streams := <[i := {| st_org := org; st_phase := Yielding (backlog_after org last h);
                                    st_queue := []; st_chunks := [] |}]> (streams h);
               draining := draining h |}.

(** The end of a stream and the [finally] of [subscribe]. *)
Definition finish (i : nat) (s : Stream) (h : Hub) : Hub :=
  let h := with_streams (<[i := set_phase Finished s]> (streams h)) h in
  if bool_decide (i ∈ subscribers h) then unsubscribe i h else h.

(** The stream is asked for its next chunk: one from the backlog, or the loop of
    [_live_chunks] up to its [queue.get]. *)
Definition advance (i : nat) (h : Hub) : Hub :=
  match streams h !! i with
  | Some s =>
      match st_phase s with
      | Yielding (e :: b) => with_streams (<[i := hand_out (Sent e) (Yielding b) (st_queue s) s]> (streams h)) h
      | Yielding [] => if draining h then finish i s h else with_streams (<[i := set_phase Waiting s]> (streams h)) h
      | _ => h
      end
  | None => h
  end.

(** [queue.get] returns. *)
Definition receive (i : nat) (h : Hub) : Hub :=
  match streams h !! i with
  | Some s =>
      match st_phase s, st_queue s with
      | Waiting, Some e :: q => with_streams (<[i := hand_out (Sent e) (Yielding []) q s]> (streams h)) h
      | Waiting, None :: q => finish i (set_queue q s) h
      | _, _ => h
      end
  | None => h
  end.

(** [wait_for] gives up first. *)
Definition beat (i : nat) (h : Hub) : Hub :=
  match streams h !! i with
  | Some s =>
      match st_phase s with
      | Waiting => with_streams (<[i := hand_out Heartbeat (Yielding []) (st_queue s) s]> (streams h)) h
      | _ => h
      end
  | None => h
  end.

(** The client goes away, or a write takes too long. *)
Definition close (i : nat) (h : Hub) : Hub :=
  match streams h !! i with
  | Some s => match st_phase s with Finished => h | _ => finish i s h end
  | None => h
  end.

Definition begin_drain (h : Hub) : Hub :=
  {| next_id := next_id h; history := history h; subscribers := subscribers h; streams := streams h; draining := true |}.

Definition close_all (h : Hub) : Hub :=
  with_streams (foldl (fun ss i => alter (fun s => match put_nowait None (st_queue s) with
                                                     | Some q => set_queue q s
                                                     | None => s
                                                     end) i ss) (streams h) (subscribers h)) h.

(** ** The fan-in from Redis *)

Section FanIn.
Context `{UnicodeDB} (py_str : Json -> pystr) (loads : pystr -> option Json) (u_digit : Z -> bool).

(** [_decode_fan_in_payload]; [data] is [None] when it is not text. *)
Definition decode_fan_in_payload (data : option pystr) : option (list (pystr * Json)) :=
  match data with
  | None => None
  | Some t =>
      match loads t with
      | None => Some [(lit "raw", JStr t)]
      | Some (JObj fields) => Some fields
      | Some v => Some [(lit "raw", v)]
      end
  end.

(** [_org_id_from_fan_in_payload]: the organization and the payload without it. *)
Definition org_id_from_fan_in_payload (p : list (pystr * Json)) : option (Z * list (pystr * Json)) :=
  match obj_get (lit "org_id") p with
  | JNull => None
  | v =>
      match uuid_parse (py_str v) with
      | Some org => Some (org, List.filter (fun kv => negb (bool_decide (kv.1 = lit "org_id"))) p)
      | None => None
      end
  end.

Definition EVIDENCE : string := "operator.evidence".

Definition fan_in_event (data : option pystr) : option (Z * list (pystr * Json)) :=
  match decode_fan_in_payload data with Some p => org_id_from_fan_in_payload p | None => None end.

Definition fan_in_publish_message (data : option pystr) (h : Hub) : Hub :=
  match fan_in_event data with Some (org, p) => publish org EVIDENCE p h | None => h end.

(** [_parse_last_event_id]; [Raise] is the [ValueError] of [int]. *)
Definition parse_last_event_id (header : option pystr) : result ClientError (option Z) :=
  match header with
  | None => Ok None
  | Some raw =>
      let t := strip_space raw in
      if (bool_decide (t = []) || negb (forallb (is_digit u_digit) t))%bool then Ok None
      else if MAX_STR_DIGITS <? Z.of_nat (length t) then Raise PyValueError
      else match int_of_digits 0 t with Some n => Ok (Some n) | None => Raise PyValueError end
  end.

(** ** Interleavings *)

Inductive Op :=
| Publish (org : Z) (ty : string) (p : list (pystr * Json))
| FanIn (data : option pystr)
| Subscribe (i : nat) (org : Z) (last : option Z)
| Advance (i : nat)
| Receive (i : nat)
| Beat (i : nat)
| Close (i : nat)
| BeginDrain
| CloseAll.

(** A stream's number is new: it stands for the identity of its generator. *)
Definition exec (op : Op) (h : Hub) : Hub :=
  match op with
  | Publish org ty p => publish org ty p h
  | FanIn data => fan_in_publish_message data h
  | Subscribe i org last =>
      match streams h !! i with Some _ => h | None => default h (subscribe i org last h) end
  | Advance i => advance i h
  | Receive i => receive i h
  | Beat i => beat i h
  | Close i => close i h
  | BeginDrain => begin_drain h
  | CloseAll => close_all h
  end.

Fixpoint run (ops : list Op) (h : Hub) : Hub :=
  match ops with [] => h | op :: ops => run ops (exec op h) end.

(** The events an operation and an interleaving publish. *)
Definition published (op : Op) (h : Hub) : list OperatorEvent :=
  match op with
  | Publish org ty p => [new_event h org ty p]
  | FanIn data => match fan_in_event data with Some (org, p) => [new_event h org EVIDENCE p] | None => [] end
  | _ => []
  end.

Fixpoint log (ops : list Op) (h : Hub) : list OperatorEvent :=
  match ops with [] => [] | op :: ops => published op h ++ log ops (exec op h) end.
End FanIn.

Definition sent (s : Stream) : list OperatorEvent :=
  omap (fun c => match c with Sent e => Some e | Heartbeat => None end) (st_chunks s).

Definition backlog (s : Stream) : list OperatorEvent := match st_phase s with Yielding b => b | _ => [] end.

(** What the stream still holds. *)
Definition pending (s : Stream) : list OperatorEvent := backlog s ++ omap id (st_queue s).

(** ** Removal and publication, in closed form *)

Create HintDb hub.

Lemma remove_first_elem x y l : NoDup l -> y ∈ remove_first x l <-> y ∈ l /\ y <> x.
Proof.
  induction 1 as [|z l Hz Hl IH]; cbn; [set_solver|]. destruct (Nat.eqb_spec z x) as [->|]; [|set_solver].
  split; [intros Hy; split; [by right|]; by intros -> |]. intros [[->|]%elem_of_cons ?]; done.
Qed.

Lemma remove_first_NoDup x l : NoDup l -> NoDup (remove_first x l).
Proof.
  induction 1 as [|z l Hz Hl IH]; cbn; [constructor|]. destruct (Nat.eqb_spec z x); [done|]. constructor; [|done].
  by rewrite remove_first_elem; [intros [? _]|].
Qed.

Definition of_org (org : Z) (e : OperatorEvent) : bool := ev_org e =? org.

(** The stream has no room for an event of its organization. *)
Definition lags (e : OperatorEvent) (s : Stream) : bool :=
  (of_org (st_org s) e && negb (length (st_queue s) <? QUEUE_SIZE)%nat)%bool.

Definition enqueue (e : OperatorEvent) (s : Stream) : Stream :=
  if of_org (st_org s) e then match put_nowait (Some e) (st_queue s) with Some q => set_queue q s | None => s end else s.

Definition cut_off (s : Stream) : Stream := set_queue (end_queue (st_queue s)) s.

Definition lagging_in (e : OperatorEvent) (ss : gmap nat Stream) (i : nat) : bool :=
  match ss !! i with Some s => lags e s | None => false end.

Lemma offer_eq e ss lag i :
  offer e (ss, lag) i = (alter (enqueue e) i ss, if lagging_in e ss i then lag ++ [i] else lag).
Proof.
  unfold offer, lagging_in, lags, enqueue, of_org, put_nowait. cbn [fst snd].
  destruct (ss !! i) as [s|] eqn:Hs; cycle 1.
  { f_equal. apply map_eq. intros j. destruct (decide (j = i)) as [->|]; [by rewrite lookup_alter_eq, Hs|].
    by rewrite lookup_alter_ne. }
  assert (forall f : Stream -> Stream, alter f i ss = <[i := f s]> ss) as Ha.
  { intros f. apply map_eq. intros j. destruct (decide (j = i)) as [->|]; [by rewrite lookup_alter_eq, lookup_insert_eq, Hs|].
    by rewrite lookup_alter_ne, lookup_insert_ne by done. }
  rewrite Ha, Z.eqb_sym. destruct (Z.eqb_spec (ev_org e) (st_org s)); cbn [negb andb]; [|by rewrite insert_id].
  destruct (length (st_queue s) <? QUEUE_SIZE)%nat; cbn [negb]; [done|by rewrite insert_id].
Qed.

Lemma offers e subs ss lag :
  NoDup subs ->
  foldl (offer e) (ss, lag) subs =
    (foldl (fun ss i => alter (enqueue e) i ss) ss subs, lag ++ List.filter (lagging_in e ss) subs).
Proof.
  intros Hn. revert ss lag. induction Hn as [|i subs Hi Hn IH]; intros ss lag; cbn [foldl List.filter]; [by rewrite app_nil_r|].
  rewrite offer_eq, IH. f_equal.
  rewrite (List.filter_ext_in (lagging_in e (alter (enqueue e) i ss)) (lagging_in e ss)).
  - destruct (lagging_in e ss i); [by rewrite <- app_assoc|done].
  - intros j Hj%list_elem_of_In. unfold lagging_in. rewrite lookup_alter_ne; [done|]. by intros ->.
Qed.

Lemma alters f subs (ss : gmap nat Stream) j :
  NoDup subs -> foldl (fun ss i => alter f i ss) ss subs !! j = (if bool_decide (j ∈ subs) then f else id) <$> ss !! j.
Proof.
  intros Hn. revert ss. induction Hn as [|i subs Hi Hn IH]; intros ss; cbn [foldl].
  { rewrite bool_decide_false by set_solver. by rewrite option_fmap_id. }
  rewrite IH. destruct (decide (j = i)) as [->|Hj].
  - rewrite (bool_decide_false (i ∈ subs)), (bool_decide_true (i ∈ i :: subs)) by set_solver.
    by rewrite lookup_alter_eq, option_fmap_id.
  - rewrite lookup_alter_ne by done. case_bool_decide as H1; case_bool_decide as H2; [done| | |done]; set_solver.
Qed.

Lemma disconnects lag h :
  NoDup lag -> NoDup (subscribers h) ->
  let h' := foldl disconnect_subscriber h lag in
  next_id h' = next_id h /\ history h' = history h /\ draining h' = draining h /\ NoDup (subscribers h') /\
  (forall i, i ∈ subscribers h' <-> i ∈ subscribers h /\ i ∉ lag) /\
  streams h' = foldl (fun ss i => alter cut_off i ss) (streams h) lag.
Proof.
  intros Hlag. revert h. induction Hlag as [|i lag Hi Hlag IH]; intros h Hn; cbn [foldl].
  { repeat split; try done; set_solver. }
  destruct (IH (disconnect_subscriber h i)) as (? & ? & ? & ? & Hsub & ?); [by apply remove_first_NoDup|].
  split_and!; try done. intros j. rewrite Hsub. cbn [disconnect_subscriber with_streams unsubscribe subscribers].
  rewrite remove_first_elem by done. set_solver.
Qed.

(** What [publish] does to a stream. *)
Lemma publish_spec org ty p h :
  NoDup (subscribers h) ->
  let e := new_event h org ty p in
  let h' := publish org ty p h in
  next_id h' = next_id h + 1 /\ history h' = trim (history h ++ [e]) /\ draining h' = draining h /\ NoDup (subscribers h') /\
  (forall i, i ∈ subscribers h' <-> i ∈ subscribers h /\ lagging_in e (streams h) i = false) /\
  (forall i, streams h' !! i = (if bool_decide (i ∈ subscribers h)
                                then fun s => if lags e s then cut_off s else enqueue e s else id) <$> streams h !! i).
Proof.
  intros Hn e h'. unfold h', publish. fold e. rewrite offers by done. cbn [app].
  set (lag := List.filter _ _).
  assert (forall i, i ∈ lag <-> i ∈ subscribers h /\ lagging_in e (streams h) i = true) as Hlag.
  { intros i. unfold lag. by rewrite list_elem_of_In, List.filter_In, <- list_elem_of_In. }
  assert (NoDup lag) as Hln.
  { apply NoDup_ListNoDup, List.NoDup_filter, NoDup_ListNoDup, Hn. }
  clearbody lag.
  destruct (disconnects lag {| next_id := next_id h + 1; history := trim (history h ++ [e]); subscribers := subscribers h;
              streams := foldl (fun ss i => alter (enqueue e) i ss) (streams h) (subscribers h); draining := draining h |})
    as (-> & -> & -> & Hn' & Hsub & ->); [done|done|].
  split_and!; try done; [|].
  - intros i. rewrite Hsub, Hlag. cbn [subscribers]. destruct (lagging_in e (streams h) i); naive_solver.
  - intros i. rewrite !alters by done. cbn [streams]. rewrite alters by done.
    destruct (streams h !! i) as [s|] eqn:Hs; [|done]. cbn. f_equal.
    pose proof (Hlag i) as Hi. unfold lagging_in in Hi. rewrite Hs in Hi.
    case_bool_decide as H1; case_bool_decide as H2; cbn [id compose]; [|exfalso; tauto| |done].
    + apply Hi in H1 as [_ Hl]. rewrite Hl. apply andb_prop in Hl as [Ho Hf]. unfold enqueue, put_nowait. rewrite Ho.
      by destruct (length (st_queue s) <? QUEUE_SIZE)%nat.
    + destruct (lags e s); [exfalso; tauto|done].
Qed.

Lemma trim_eq l : trim l = drop (length l - HISTORY_LIMIT) l.
Proof.
  unfold trim. destruct (Nat.ltb_spec HISTORY_LIMIT (length l)); [done|].
  by replace (length l - HISTORY_LIMIT)%nat with 0%nat by lia.
Qed.

Lemma trim_snoc l e : trim (trim l ++ [e]) = trim (l ++ [e]).
Proof.
  assert (HISTORY_LIMIT <> 0%nat) by done. rewrite !trim_eq, !length_app, length_drop. cbn [length].
  rewrite <- (drop_app_le l [e] (length l - HISTORY_LIMIT)) by lia. rewrite drop_drop. f_equal. lia.
Qed.

(** ** What an operation does to one stream *)

Lemma filter_snoc {A} (p : A -> bool) l x : List.filter p (l ++ [x]) = List.filter p l ++ (if p x then [x] else []).
Proof. rewrite List.filter_app. cbn. by destruct (p x). Qed.

Lemma filter_drop {A} (p : A -> bool) n l : List.filter p (drop n l) `sublist_of` List.filter p l.
Proof. rewrite <- (take_drop n l) at 2. rewrite List.filter_app. by apply sublist_inserts_l. Qed.

Lemma held_enqueue e s :
  lags e s = false ->
  sent (enqueue e s) ++ pending (enqueue e s) = (sent s ++ pending s) ++ (if of_org (st_org s) e then [e] else []) /\
  st_org (enqueue e s) = st_org s.
Proof.
  unfold lags, enqueue, put_nowait. destruct (of_org _ e); cbn [andb]; [|by rewrite app_nil_r].
  destruct (_ <? QUEUE_SIZE)%nat; cbn [negb]; [|done]. intros _. split; [|done].
  unfold pending, backlog, sent. cbn [set_queue st_phase st_queue st_chunks]. rewrite omap_app. cbn. by rewrite !app_assoc.
Qed.

Lemma held_sentinel q q' : put_nowait None q = Some q' -> omap id q' = omap id q.
Proof. unfold put_nowait. intros. case_match; simplify_eq. rewrite omap_app. cbn. by rewrite app_nil_r. Qed.

Lemma held_end_queue q : omap id (end_queue q) `sublist_of` omap id q.
Proof.
  unfold end_queue, force_sentinel. destruct (put_nowait None q) as [q'|] eqn:Hq; [by rewrite (held_sentinel q q')|].
  destruct q as [|x q]; [done|]. transitivity (omap id q); [|destruct x; cbn; [by constructor|done]].
  destruct (put_nowait None q) as [q'|] eqn:Hq'; [by rewrite (held_sentinel q q')|done].
Qed.

Lemma held_cut_off s : sent (cut_off s) ++ pending (cut_off s) `sublist_of` sent s ++ pending s.
Proof. unfold pending, backlog, sent. cbn [cut_off set_queue st_phase st_queue st_chunks]. do 2 (apply sublist_app; [done|]). apply held_end_queue. Qed.

(** An operation that publishes and opens nothing: no stream gains an event or
    changes organization, and a stream that is still subscribed loses none. *)
Definition quiet (h h' : Hub) : Prop :=
  next_id h' = next_id h /\ history h' = history h /\ NoDup (subscribers h') /\ subscribers h' ⊆ subscribers h /\
  forall i, match streams h !! i, streams h' !! i with
       | Some s, Some s' =>
           st_org s' = st_org s /\ sent s' ++ pending s' `sublist_of` sent s ++ pending s /\
           (i ∈ subscribers h' -> sent s' ++ pending s' = sent s ++ pending s)
       | None, None => True
       | _, _ => False
       end.

Lemma quiet_refl h : NoDup (subscribers h) -> quiet h h.
Proof. intros Hn. split_and!; try done. intros i. by destruct (streams h !! i). Qed.

Lemma quiet_update h h' i s s' :
  NoDup (subscribers h) -> streams h !! i = Some s ->
  next_id h' = next_id h -> history h' = history h -> streams h' = <[i := s']> (streams h) ->
  subscribers h' = subscribers h \/ subscribers h' = remove_first i (subscribers h) ->
  st_org s' = st_org s -> sent s' ++ pending s' `sublist_of` sent s ++ pending s ->
  (i ∈ subscribers h' -> sent s' ++ pending s' = sent s ++ pending s) -> quiet h h'.
Proof.
  intros Hn Hs Hid Hh Hss Hsub Ho Hsl He. split_and!; try done.
  - destruct Hsub as [->| ->]; [done|by apply remove_first_NoDup].
  - destruct Hsub as [->| ->]; [done|]. intros j Hj. by apply remove_first_elem in Hj as [? _].
  - intros j. rewrite Hss. destruct (decide (j = i)) as [->|Hj].
    + by rewrite Hs, lookup_insert_eq.
    + rewrite lookup_insert_ne by done. by destruct (streams h !! j).
Qed.

Lemma finish_quiet i s s' h :
  NoDup (subscribers h) -> streams h !! i = Some s -> st_org s' = st_org s -> st_chunks s' = st_chunks s ->
  omap id (st_queue s') `sublist_of` omap id (st_queue s) -> quiet h (finish i s' h).
Proof.
  intros Hn Hs Ho Hc Hq. unfold finish.
  assert (sent (set_phase Finished s') ++ pending (set_phase Finished s') `sublist_of` sent s ++ pending s) as Hsl.
  { unfold sent, pending, backlog. cbn [set_phase st_phase st_chunks st_queue]. rewrite Hc. apply sublist_app; [done|].
    by apply sublist_inserts_l. }
  case_bool_decide as Hi; cbn [subscribers with_streams] in Hi.
  - eapply (quiet_update h _ i s); [done|done|done|done|reflexivity|by right|done|done|].
    cbn. intros [_ ?]%remove_first_elem; done.
  - eapply (quiet_update h _ i s); [done|done|done|done|reflexivity|by left|done|done|]. cbn. done.
Qed.

Lemma same_subscribers_quiet i s s' h :
  NoDup (subscribers h) -> streams h !! i = Some s -> st_org s' = st_org s -> sent s' ++ pending s' = sent s ++ pending s ->
  quiet h (with_streams (<[i := s']> (streams h)) h).
Proof. intros Hn Hs Ho He. eapply (quiet_update h _ i s); try done; [by left|by rewrite He]. Qed.

Lemma advance_quiet i h : NoDup (subscribers h) -> quiet h (advance i h).
Proof.
  intros Hn. unfold advance. destruct (streams h !! i) as [s|] eqn:Hs; [|by apply quiet_refl].
  destruct (st_phase s) as [[|e b]| |] eqn:Hp; [| |by apply quiet_refl..].
  - destruct (draining h); [by apply finish_quiet with s|]. eapply same_subscribers_quiet; try done.
    unfold sent, pending, backlog. by rewrite Hp.
  - eapply same_subscribers_quiet; try done. unfold sent, pending, backlog. cbn. rewrite Hp, omap_app. cbn.
    by rewrite <- app_assoc.
Qed.

Lemma receive_quiet i h : NoDup (subscribers h) -> quiet h (receive i h).
Proof.
  intros Hn. unfold receive. destruct (streams h !! i) as [s|] eqn:Hs; [|by apply quiet_refl].
  destruct (st_phase s) eqn:Hp; [by apply quiet_refl| |by apply quiet_refl].
  destruct (st_queue s) as [|[e|] q] eqn:Hq; [by apply quiet_refl| |].
  - eapply same_subscribers_quiet; try done. unfold sent, pending, backlog. cbn. rewrite Hp, Hq, omap_app. cbn.
    by rewrite <- app_assoc.
  - apply finish_quiet with s; try done. by rewrite Hq.
Qed.

Lemma beat_quiet i h : NoDup (subscribers h) -> quiet h (beat i h).
Proof.
  intros Hn. unfold beat. destruct (streams h !! i) as [s|] eqn:Hs; [|by apply quiet_refl].
  destruct (st_phase s) eqn:Hp; [by apply quiet_refl| |by apply quiet_refl].
  eapply same_subscribers_quiet; try done. unfold sent, pending, backlog. cbn. rewrite Hp, omap_app. cbn. by rewrite app_nil_r.
Qed.

Lemma close_quiet i h : NoDup (subscribers h) -> quiet h (close i h).
Proof.
  intros Hn. unfold close. destruct (streams h !! i) as [s|] eqn:Hs; [|by apply quiet_refl].
  destruct (st_phase s) eqn:Hp; [by apply finish_quiet with s..|by apply quiet_refl].
Qed.

Lemma close_all_quiet h : NoDup (subscribers h) -> quiet h (close_all h).
Proof.
  intros Hn. split_and!; try done. intros i. cbn [close_all with_streams streams subscribers]. rewrite alters by done.
  destruct (streams h !! i) as [s|]; [|done]. cbn [fmap option_fmap option_map]. case_bool_decide; [|done].
  destruct (put_nowait None (st_queue s)) as [q|] eqn:Hq; [|done].
  unfold sent, pending, backlog. cbn [set_queue st_phase st_queue st_chunks st_org]. by rewrite (held_sentinel (st_queue s) q).
Qed.
Lemma begin_drain_quiet h : NoDup (subscribers h) -> quiet h (begin_drain h).
Proof. apply quiet_refl. Qed.
#[export] Hint Resolve begin_drain_quiet quiet_refl advance_quiet receive_quiet beat_quiet close_quiet close_all_quiet : hub.

(** ** Invariants of interleavings *)

Section Runs.
Context `{UnicodeDB} (py_str : Json -> pystr) (loads : pystr -> option Json) (u_digit : Z -> bool).

Abbreviation exec := (exec py_str loads).
Abbreviation run := (run py_str loads).
Abbreviation log := (log py_str loads).
Abbreviation published := (published py_str loads).

(** The hub after the events of [l]: they are numbered from 1, the last of them
    are the history, and a stream has and holds some of those of its organization,
    in order. *)
Record tracks (l : list OperatorEvent) (h : Hub) : Prop := {
  tr_ids : forall k e, l !! k = Some e -> event_id e = Z.of_nat k + 1;
  tr_next : next_id h = Z.of_nat (length l) + 1;
  tr_history : history h = trim l;
  tr_nodup : NoDup (subscribers h);
  tr_open : forall i, i ∈ subscribers h -> is_Some (streams h !! i);
  tr_held : forall i s, streams h !! i = Some s -> sent s ++ pending s `sublist_of` List.filter (of_org (st_org s)) l;
}.

Lemma tracks_initial : tracks [] initial.
Proof. by split; cbn; try done; [constructor|set_solver]. Qed.

Lemma tracks_quiet l h h' : tracks l h -> quiet h h' -> tracks l h'.
Proof.
  intros [] (Hid & Hh & Hn & Hsub & Hs). split; [done|congruence|congruence|done| |].
  - intros i Hi%Hsub%tr_open0. specialize (Hs i). destruct Hi as [s Hi]. rewrite Hi in Hs. by destruct (streams h' !! i).
  - intros i s' Hi. specialize (Hs i). rewrite Hi in Hs. destruct (streams h !! i) as [s|] eqn:He; [|done].
    destruct Hs as (-> & Hsl & _). etransitivity; [exact Hsl|]. by apply tr_held0 with i.
Qed.

Lemma tracks_publish l h org ty p :
  tracks l h -> tracks (l ++ [new_event h org ty p]) (publish org ty p h).
Proof.
  intros [Hids Hnext Hh Hn Hopen Hheld]. set (e := new_event h org ty p).
  destruct (publish_spec org ty p h Hn) as (Hnx & Hhs & _ & Hn' & Hsub & Hs). fold e in Hsub, Hs, Hhs |- *. split.
  - intros k x [Hk|[Hk Hx]]%lookup_app_Some; [by apply Hids|]. apply list_lookup_singleton_Some in Hx as [Hz <-].
    cbn. rewrite Hnext. lia.
  - rewrite Hnx, length_app. cbn [length]. lia.
  - by rewrite Hhs, Hh, trim_snoc.
  - done.
  - intros i [Hi _]%Hsub. rewrite Hs. by apply fmap_is_Some, Hopen.
  - intros i s' Hi. rewrite Hs in Hi. apply fmap_Some in Hi as (s & Hi & ->). rewrite filter_snoc.
    pose proof (Hheld i s Hi) as Hsl. case_bool_decide; [|by apply sublist_inserts_r].
    destruct (lags e s) eqn:Hl.
    + apply sublist_inserts_r. etransitivity; [apply held_cut_off|done].
    + destruct (held_enqueue e s Hl) as [-> ->]. by apply sublist_app.
Qed.

Lemma tracks_subscribe l h i org last :
  tracks l h -> streams h !! i = None -> tracks l (default h (subscribe i org last h)).
Proof.
  intros Ht Hi. unfold subscribe. destruct (draining h); [done|]. destruct Ht. split; cbn; try done.
  - apply NoDup_app. split; [done|]. split; [|apply NoDup_singleton].
    intros j Hj ->%list_elem_of_singleton. apply tr_open0 in Hj as [? Hj]. congruence.
  - intros j [Hj| ->%list_elem_of_singleton]%elem_of_app; [|by rewrite lookup_insert_eq].
    apply lookup_insert_is_Some'. right. by apply tr_open0.
  - intros j s [[<- <-]|[_ Hj]]%lookup_insert_Some; [|by apply tr_held0 with j].
    unfold pending, backlog, backlog_after. cbn. rewrite app_nil_r, tr_history0, trim_eq.
    transitivity (List.filter (of_org org) (drop (length l - HISTORY_LIMIT) l)).
    + generalize (drop (length l - HISTORY_LIMIT) l). intros k. induction k as [|e k IH]; [done|]. cbn.
      unfold belongs at 1, of_org at 1. destruct (ev_org e =? org); cbn [andb]; [|done].
      destruct last as [n|]; [destruct (n <? event_id e)|]; by constructor.
    + apply filter_drop.
Qed.

(** A calm operation publishes nothing and opens no stream. *)
Lemma exec_cases op h :
  NoDup (subscribers h) ->
  (exists org ty p, exec op h = publish org ty p h /\ published op h = [new_event h org ty p]) \/
  published op h = [] /\
    (quiet h (exec op h) \/
     exists i org last, op = Subscribe i org last /\ streams h !! i = None /\ exec op h = default h (subscribe i org last h)).
Proof.
  intros Hn. destruct op; cbn [EventHub.exec EventHub.published]; try (right; split; [done|]; left; auto with hub; done).
  - left. by eexists _, _, _.
  - unfold fan_in_publish_message. destruct (fan_in_event _ _ _) as [[org p]|]; [left; by eexists _, _, _|].
    right. split; [done|]. left. auto with hub.
  - right. split; [done|]. destruct (streams h !! i) eqn:Hi; [left; auto with hub|]. right. by eexists _, _, _.
Qed.

Lemma tracks_exec l op h : tracks l h -> tracks (l ++ published op h) (exec op h).
Proof.
  intros Ht. destruct (exec_cases op h (tr_nodup l h Ht)) as [(org & ty & p & -> & ->)|[-> [Hq|(i & org & last & _ & Hi & ->)]]].
  - by apply tracks_publish.
  - rewrite app_nil_r. by apply tracks_quiet with h.
  - rewrite app_nil_r. by apply tracks_subscribe.
Qed.

Lemma tracks_run ops l h : tracks l h -> tracks (l ++ log ops h) (run ops h).
Proof.
  revert l h. induction ops as [|op ops IH]; intros l h Ht; cbn; [by rewrite app_nil_r|].
  rewrite app_assoc. by apply IH, tracks_exec.
Qed.

Lemma log_sorted l h : tracks l h -> StronglySorted Z.lt (event_id <$> l).
Proof.
  intros [Hids _ _ _ _ _]. revert Hids. generalize 1. induction l as [|e l IH]; intros n Hids; cbn; [constructor|].
  constructor; [apply (IH (n + 1)); intros k x Hk; rewrite (Hids (S k) x Hk); lia|].
  apply Forall_fmap, Forall_lookup. intros k x Hk. cbn. rewrite (Hids 0%nat e eq_refl), (Hids (S k) x Hk). lia.
Qed.

(** Stream [i] exists and, while it is subscribed, has been given or holds [l]. *)
Definition owes (i : nat) (org : Z) (l : list OperatorEvent) (h : Hub) : Prop :=
  is_Some (streams h !! i) /\
  (i ∈ subscribers h -> exists s, streams h !! i = Some s /\ st_org s = org /\ sent s ++ pending s = l).

Lemma owes_exec k i org l op h :
  tracks k h -> owes i org l h -> owes i org (l ++ List.filter (of_org org) (published op h)) (exec op h).
Proof.
  intros Ht [[s0 Hi0] Ho].
  destruct (exec_cases op h (tr_nodup k h Ht)) as [(o & ty & p & -> & ->)|[-> [Hq|(j & o & last & _ & Hj & ->)]]];
    [|cbn; rewrite app_nil_r..].
  - destruct (publish_spec o ty p h (tr_nodup k h Ht)) as (_ & _ & _ & _ & Hsub & Hs). split; [by rewrite Hs, Hi0|].
    intros [Hin Hl]%Hsub. destruct (Ho Hin) as (s & Hi & <- & <-). rewrite Hs, Hi, bool_decide_true by done.
    unfold lagging_in in Hl. rewrite Hi in Hl. cbn [fmap option_fmap option_map]. rewrite Hl.
    destruct (held_enqueue _ s Hl) as [He ?]. eexists. split; [done|]. split; [done|]. rewrite He. cbn.
    by destruct (of_org (st_org s) _).
  - destruct Hq as (_ & _ & _ & Hsub & Hs). specialize (Hs i). rewrite Hi0 in Hs.
    unfold owes. destruct (streams (exec op h) !! i) as [s'|]; [|done]. split; [done|]. intros Hin.
    destruct (Ho (Hsub i Hin)) as (s & Hi & <- & <-). rewrite Hi in Hi0. injection Hi0 as ->.
    destruct Hs as (? & _ & He). exists s'. split; [done|]. split; [done|]. by apply He.
  - unfold subscribe. destruct (draining h); [done|]. assert (i <> j) by congruence. split; cbn.
    + by rewrite lookup_insert_ne, Hi0.
    + rewrite lookup_insert_ne by done. intros [Hin|?%list_elem_of_singleton]%elem_of_app; [by apply Ho|done].
Qed.

Lemma owes_run k i org l ops h :
  tracks k h -> owes i org l h -> owes i org (l ++ List.filter (of_org org) (log ops h)) (run ops h).
Proof.
  revert k l h. induction ops as [|op ops IH]; intros k l h Ht Ho; cbn; [by rewrite app_nil_r|].
  rewrite List.filter_app, app_assoc. eapply IH; [by apply tracks_exec|by eapply owes_exec].
Qed.

Lemma owes_subscribe k i org last h h' :
  tracks k h -> subscribe i org last h = Some h' -> owes i org (List.filter (belongs org last) (trim k)) h'.
Proof.
  unfold subscribe. intros Ht Hs. destruct (draining h); simplify_eq. split; cbn; rewrite lookup_insert_eq; [done|].
  intros _. eexists. split; [done|]. split; [done|]. unfold pending, backlog, backlog_after. cbn.
  by rewrite app_nil_r, (tr_history k h Ht).
Qed.

(** The history drops no event a client misses when it was last seen within the window. *)
Lemma window_suffices k h org last :
  tracks k h -> Z.of_nat (length k) - Z.of_nat HISTORY_LIMIT <= default 0 last ->
  List.filter (belongs org last) (trim k) = List.filter (belongs org last) k.
Proof.
  intros [Hids _ _ _ _ _] Hw. rewrite trim_eq. set (n := (length k - HISTORY_LIMIT)%nat).
  rewrite <- (take_drop n k) at 2. rewrite List.filter_app, (List.filter_ext_in _ (fun _ => false) (take n k)).
  { assert (forall l : list OperatorEvent, List.filter (fun _ => false) l = []) as -> by (by induction l). done. }
  intros e (m & [Hm Hlt]%lookup_take_Some)%list_elem_of_In%list_elem_of_lookup. apply Hids in Hm. unfold belongs.
  apply andb_false_iff. right. destruct last as [x|]; cbn in Hw; [apply Z.ltb_ge; lia|lia].
Qed.

(** A stream shows a client only events of its own organization, each at most
    once and in the order of publication: whatever the streams, their clients and
    the fan-in do, what a stream has handed out is a subsequence of the events
    published for its organization, with increasing ids. *)
Theorem streams_show_own_events ops i s :
  streams (run ops initial) !! i = Some s ->
  sent s `sublist_of` List.filter (of_org (st_org s)) (log ops initial) /\
  StronglySorted Z.lt (event_id <$> sent s).
Proof.
  intros Hi. pose proof (tracks_run ops [] initial tracks_initial) as Ht. cbn [app] in Ht.
  assert (sent s `sublist_of` List.filter (of_org (st_org s)) (log ops initial)) as Hsl.
  { etransitivity; [|by apply (tr_held _ _ Ht i)]. by apply sublist_inserts_r. }
  split; [done|]. pose proof (log_sorted _ _ Ht) as Hs. revert Hs Hsl. generalize (log ops initial). intros l Hs Hsl.
  assert (sent s `sublist_of` l) as Hl.
  { etransitivity; [exact Hsl|]. clear. induction l as [|e l IH]; [done|]. cbn.
    destruct (of_org _ e); by constructor. }
  clear -Hs Hl. induction Hl as [|e l k Hl IH|e l k Hl IH]; cbn in *; [constructor| |]; apply StronglySorted_inv in Hs as [Hs Hf].
  - constructor; [by apply IH|]. rewrite Forall_fmap in Hf |- *. rewrite Forall_forall in Hf |- *.
    intros x Hx. apply Hf. by eapply elem_of_submseteq, sublist_submseteq.
  - by apply IH.
Qed.

(** C29: a client that reconnects misses nothing: as long as a stream stays
    subscribed, what it has handed out and what it still holds are, in order, the
    events of its organization after the [Last-Event-ID] it was opened with,
    provided that id was within the last 256 published; a stream that is waiting on
    an empty queue has handed out all of them. *)
Theorem subscribed_stream_is_complete before i org last h after :
  let old := log before initial in
  streams (run before initial) !! i = None ->
  subscribe i org last (run before initial) = Some h ->
  Z.of_nat (length old) - Z.of_nat HISTORY_LIMIT <= default 0 last ->
  i ∈ subscribers (run after h) ->
  let owed := List.filter (belongs org last) old ++ List.filter (of_org org) (log after h) in
  exists s, streams (run after h) !! i = Some s /\ sent s ++ pending s = owed /\
    (st_phase s = Waiting -> st_queue s = [] -> sent s = owed).
Proof.
  intros old Hi Hsub Hw Hin owed. pose proof (tracks_run before [] initial tracks_initial) as Ht. cbn [app] in Ht. fold old in Ht.
  pose proof (tracks_subscribe old _ i org last Ht Hi) as Ht'. rewrite Hsub in Ht'. cbn in Ht'.
  pose proof (owes_subscribe old i org last _ h Ht Hsub) as Ho. rewrite (window_suffices old _ org last Ht Hw) in Ho.
  destruct (owes_run old i org _ after h Ht' Ho) as [_ Hs]. destruct (Hs Hin) as (s & ? & _ & He).
  exists s. split; [done|]. split; [done|]. intros Hp Hq. unfold pending, backlog in He. rewrite Hp, Hq in He. cbn in He.
  by rewrite app_nil_r in He.
Qed.
End Runs.

(** ** Samples *)

Module HubSample.
#[local] Existing Instance ascii_db.

Definition as_text (v : Json) : pystr := match v with JStr s => s | _ => lit "?" end.
Definition no_json (t : pystr) : option Json := None.

(** Two organizations, and a stream of the first that has taken one event. *)
Definition opening : list Op :=
  [Publish 1 EVIDENCE []; Publish 2 EVIDENCE []; Subscribe 0 1 None; Advance 0; Publish 1 EVIDENCE []; Advance 0; Receive 0].

Lemma streams_show_own_events_witness :
  exists s, streams (run as_text no_json opening initial) !! 0%nat = Some s /\ event_id <$> sent s = [1; 3] /\
    sent s `sublist_of` List.filter (of_org (st_org s)) (log as_text no_json opening initial).
Proof.
  destruct (streams (run as_text no_json opening initial) !! 0%nat) as [s|] eqn:Hs; [|by vm_compute in Hs].
  exists s. split; [done|]. split; [|by apply (streams_show_own_events as_text no_json opening 0 s Hs)].
  revert Hs. vm_compute. by intros [= <-].
Defined.

Definition reconnected : option Hub := subscribe 1 1 (Some 1) (run as_text no_json opening initial).
Definition later : list Op := [Publish 2 EVIDENCE []; Publish 1 EVIDENCE []; Advance 1; Advance 1; Receive 1; Advance 1].

Lemma subscribed_stream_is_complete_witness :
  match reconnected with
  | Some h => exists s, streams (run as_text no_json later h) !! 1%nat = Some s /\ event_id <$> sent s = [3; 5] /\
      sent s = List.filter (belongs 1 (Some 1)) (log as_text no_json opening initial)
               ++ List.filter (of_org 1) (log as_text no_json later h)
  | None => False
  end.
Proof.
  destruct reconnected as [h|] eqn:Hh; [|by vm_compute in Hh].
  destruct (subscribed_stream_is_complete as_text no_json opening 1 1 (Some 1) h later) as (s & Hs & _ & Hall);
    [reflexivity|exact Hh|vm_compute; discriminate|vm_compute in Hh; injection Hh as <-; vm_compute; right; left|].
  assert (st_phase s = Waiting /\ st_queue s = [] /\ event_id <$> sent s = [3; 5]) as (Hp & Hq & He).
  { vm_compute in Hh. injection Hh as <-. revert Hs. vm_compute. by intros [= <-]. }
  exists s. split; [exact Hs|]. split; [exact He|]. exact (Hall Hp Hq).
Defined.

(** A stream that lags is told to reconnect, and loses an event on the way:
    [_force_sentinel] makes room for the sentinel by dropping the oldest event of the
    full queue.  The client sees the later ones, ends with a higher id, and the
    backlog of its next stream starts above that id. *)
Definition flood (n : nat) : list Op := replicate n (Publish 1 EVIDENCE []).
Definition lag : list Op :=
  [Subscribe 0 1 None; Publish 1 EVIDENCE []; Advance 0; Receive 0] ++ flood 65
  ++ mjoin (replicate 64 [Advance 0; Receive 0]).
Definition reconnect : list Op := Subscribe 1 1 (Some 65) :: replicate 3 (Advance 1).

Theorem lagging_client_misses_event :
  let h := run as_text no_json (lag ++ reconnect) initial in
  (st_phase <$> streams h !! 0%nat) = Some Finished /\
  ((fun s => event_id <$> sent s) <$> streams h !! 0%nat) = Some (1 :: seqZ 3 63) /\
  ((fun s => event_id <$> sent s) <$> streams h !! 1%nat) = Some [66] /\
  (st_phase <$> streams h !! 1%nat) = Some Waiting.
Proof. vm_compute. done. Qed.

(** A digit without a decimal value in [Last-Event-ID] is an uncaught [ValueError]. *)
Theorem superscript_event_id_escapes :
  parse_last_event_id (fun c => c =? 178) (Some [178]) = Raise PyValueError.
Proof. reflexivity. Qed.
End HubSample.
