(* ===== verification/EmbedService.v ===== *)
(** * The embedder service ([services/embedder/app/])

    Input and output validation ([validate.py]), the TEI and hosted clients and
    backends ([tei/], [hosted/], [backends/]), the content-hash cache ([cache/]) and
    the endpoint ([api/embed.py]).

    A float32 is its bit pattern.  NumPy and SHA-256 are parameters; the network and
    the faults of Redis are arguments.  A cached request reads the cache and later
    resolves what it missed, so requests interleave between the two. *)

From Stdlib Require Import SpecFloat.
From S2P Require Import Prelude PyText Num ModelClients.

(** A vector: the bits of its components. *)
Definition Vec : Type := list Z.

(** An [ndarray]: its rank matters, and at rank 2 its rows. *)
Inductive NdArray :=
| Rank1 (n : nat)
| Rank2 (cols : Z) (rows : list Vec)
| RankMore.

Inductive NpError := NpValueError | NpTypeError | NpOverflowError.

(** What the service uses of NumPy: [np.array(value, dtype=np.float32)], the norm
    and the square of a row, and a row divided by its norm. *)
Class Numpy := {
  np_array : Json -> result NpError NdArray;
  np_norm : Vec -> binary64;
  np_dot : Vec -> binary64;
  np_normalized : Vec -> Vec;
}.

Inductive EmbedError :=
| EmptyBatch
| BatchTooLarge
| TextTooLong
| InvalidVector
| MissingOrgContext
| BackendRejected
| BackendUnavailable (retryable : bool)
| BackendTimeout
| UncaughtPyError.                 (* an exception of Python or NumPy that nothing catches *)

#[global] Instance EmbedError_eq_dec : EqDecision EmbedError.
Proof. solve_decision. Defined.

(** ** Validation ([validate.py], [limits.py]) *)

Definition MAX_BATCH_TEXTS : Z := 64.
Definition MAX_TEXT_BYTES : Z := 32 * 1024.

Definition validate_text_at (t : pystr) : result EmbedError unit :=
  raise_if bool_decide (t = []) with EmptyBatch ;;
  match utf8_encode t with
  | None => Raise UncaughtPyError
  | Some b => raise_if MAX_TEXT_BYTES <? Z.of_nat (length b) with TextTooLong ;; Ok tt
  end.

Definition validate_embed_input (texts : list pystr) : result EmbedError unit :=
  raise_if bool_decide (texts = []) with EmptyBatch ;;
  raise_if MAX_BATCH_TEXTS <? Z.of_nat (length texts) with BatchTooLarge ;;
  let* _ := rmap validate_text_at texts in Ok tt.

(** [np.isfinite]: the exponent is not all ones. *)
Definition finite32 (bits : Z) : bool := negb (Z.land (Z.shiftr bits 23) 255 =? 255).

Definition ONE : binary64 := b64_of_Z 1.
Definition L2_ATOL : binary64 := b64_lit 5902958103587057 (-69).       (* 1e-5 *)

(** [np.allclose(norm, 1.0, atol=1e-5)], whose relative tolerance is 1e-5 too. *)
Definition allclose_one (norm : binary64) : bool :=
  SFleb (SFabs (b64_sub norm ONE)) (b64_add L2_ATOL (b64_mul L2_ATOL ONE)).

Section Service.
Context `{UnicodeDB, Numpy} (u_digit : Z -> bool).

Definition validate_output_vectors (texts : list pystr) (a : NdArray) (dim : Z) : result EmbedError (list Vec) :=
  match a with
  | Rank2 cols rows =>
      if negb (length rows =? length texts)%nat then Raise InvalidVector
      else if negb (cols =? dim) then Raise InvalidVector
      else if negb (forallb (forallb finite32) rows) then Raise InvalidVector
      else if negb (forallb (fun v => allclose_one (np_norm v)) rows) then Raise InvalidVector
      else Ok rows
  | _ => Raise InvalidVector
  end.

(** A zero row, or one whose norm is not finite, cannot be normalized; an array of
    rank 1 has no axis 1.  Of an array of higher rank only the rank matters later. *)
Definition l2_normalize_rows (a : NdArray) : result EmbedError NdArray :=
  match a with
  | Rank1 n => if (n =? 0)%nat then Ok a else Raise UncaughtPyError
  | Rank2 cols rows =>
      if (bool_decide (rows = []) || (cols =? 0))%bool then Ok a
      else if existsb (fun v => SFeqb (np_norm v) (S754_zero false) || negb (b64_is_finite (np_norm v)))%bool rows
      then Raise InvalidVector
      else Ok (Rank2 cols (np_normalized <$> rows))
  | RankMore => Ok a
  end.

(** ** Clients ([tei/client.py], [hosted/client.py] and their [protocol.py]) *)

Definition of_client (e : ClientError) : EmbedError :=
  match e with
  | ClientTimeout => BackendTimeout
  | ClientUnavailable r => BackendUnavailable r
  | ClientRejected => BackendRejected
  | ClientInvalidResponse => InvalidVector
  | PyValueError | PyOverflowError => UncaughtPyError
  end.

(** [np.array] where [ValueError] and [TypeError] are caught. *)
Definition caught_array (v : Json) : result ClientError NdArray :=
  match np_array v with
  | Ok a => Ok a
  | Raise NpOverflowError => Raise PyOverflowError
  | Raise _ => Raise ClientInvalidResponse
  end.

Definition parse_native_embed_response (body : option Json) : result ClientError NdArray :=
  match body with
  | Some (JList l) => caught_array (JList l)
  | _ => Raise ClientInvalidResponse
  end.

Definition raise_tei_http_error (status : Z) : ClientError :=
  if existsb (Z.eqb status) [413; 422; 424] then ClientRejected
  else ClientUnavailable (existsb (Z.eqb status) RETRYABLE_STATUS).

Definition tei_attempt (o : HttpOutcome) : result ClientError NdArray :=
  match o with
  | TimedOut => Raise ClientTimeout
  | TransportFailed => Raise (ClientUnavailable true)
  | Responded status _ body =>
      if status =? 200 then parse_native_embed_response body else Raise (raise_tei_http_error status)
  end.

Definition tei_post (max_retries : Z) (posts : nat -> HttpOutcome) : result ClientError NdArray :=
  (post_with_retries (fun n => tei_attempt (posts n)) 0 (Z.to_nat (Z.max 0 max_retries))).1.

(** [item["key"]]; anything but an object with the key raises. *)
Definition item_get (k : pystr) (v : Json) : result ClientError Json :=
  match v with
  | JObj o => if existsb (fun kv => bool_decide (kv.1 = k)) o then Ok (obj_get k o) else Raise ClientInvalidResponse
  | _ => Raise ClientInvalidResponse
  end.

(** An [index] that compares as an integer. *)
Definition as_index (v : Json) : option Z :=
  match v with JInt z => Some z | JBool b => Some (if b then 1 else 0) | _ => None end.

(** [sorted] by keys that are not all integers: the order Python gives them, or
    [None] for the [TypeError] of its comparison. *)
Context (sort_mixed : list (Json * Json) -> option (list (Json * Json))).

Definition index_ltb (a b : Json * Json) : bool := default 0 (as_index a.1) <? default 0 (as_index b.1).

Definition openai_compat_vectors (data : list Json) : result ClientError (list Json) :=
  let* keyed := rmap (fun item => let* i := item_get (lit "index") item in Ok (i, item)) data in
  let* sorted := if forallb (fun ki => bool_decide (is_Some (as_index ki.1))) keyed then Ok (py_sorted index_ltb keyed)
                 else match sort_mixed keyed with Some l => Ok l | None => Raise ClientInvalidResponse end in
  rmap (fun ki => item_get (lit "embedding") ki.2) sorted.

Definition parse_openai_compat_embed_response (body : Json) : result ClientError NdArray :=
  match body with
  | JObj o =>
      match obj_get (lit "data") o with
      | JList (d :: data) => let* rows := openai_compat_vectors (d :: data) in caught_array (JList rows)
      | _ => Raise ClientRejected
      end
  | _ => Raise ClientRejected
  end.

Definition cohere_rows (raw : Json) : result ClientError (list Json) :=
  match raw with
  | JList l => Ok l
  | JObj o => match obj_get (lit "float") o with JList l => Ok l | _ => Ok [] end
  | _ => Raise ClientRejected
  end.

Definition parse_cohere_embed_response (body : Json) : result ClientError NdArray :=
  match body with
  | JObj o =>
      if existsb (fun kv => bool_decide (kv.1 = lit "embeddings")) o then
        let* rows := cohere_rows (obj_get (lit "embeddings") o) in
        raise_if bool_decide (rows = []) with ClientRejected ;;
        caught_array (JList rows)
      else Raise ClientRejected
  | _ => Raise ClientRejected
  end.

Inductive HostedProvider := openai | cohere.

Definition parse_hosted_body (p : HostedProvider) (body : option Json) : result ClientError NdArray :=
  match body with
  | None => Raise ClientInvalidResponse
  | Some b => match p with openai => parse_openai_compat_embed_response b | cohere => parse_cohere_embed_response b end
  end.

Definition hosted_post (p : HostedProvider) (max_retries : Z) (posts : nat -> HttpOutcome) : result ClientError NdArray :=
  (post_with_retries (fun n => attempt_post u_digit (Z.eqb 429) (parse_hosted_body p) (posts n)) 0
     (Z.to_nat (Z.max 0 max_retries))).1.

(** ** Backends ([backends/]) *)

Inductive Profile := gpu | hosted (p : HostedProvider).

Record Backend := { b_profile : Profile; b_model_id : pystr; b_dimensions : Z; b_max_retries : Z }.

Definition rmap_error {A} (r : result ClientError A) : result EmbedError A :=
  match r with Ok a => Ok a | Raise e => Raise (of_client e) end.

(** [TEIBackend.embed] and [HostedAPIBackend.embed]; [posts] are the outcomes of
    the attempts of this call. *)
Definition backend_embed (b : Backend) (posts : nat -> HttpOutcome) (texts : list pystr) : result EmbedError (list Vec) :=
  let* _ := validate_embed_input texts in
  match b_profile b with
  | gpu =>
      let* vectors := rmap_error (tei_post (b_max_retries b) posts) in
      validate_output_vectors texts vectors (b_dimensions b)
  | hosted p =>
      let* vectors := rmap_error (hosted_post p (b_max_retries b) posts) in
      let* normalized := l2_normalize_rows vectors in
      validate_output_vectors texts normalized (b_dimensions b)
  end.
End Service.

(** ** The cache ([cache/]) *)

(** [encode_vector]: little-endian, four bytes a component. *)
Definition le32 (v : Z) : bytes := [v mod 256; v / 256 mod 256; v / 65536 mod 256; v / 16777216 mod 256].
Definition encode_vector (v : Vec) : bytes := mjoin (le32 <$> v).

Fixpoint of_le32 (b : bytes) : Vec :=
  match b with
  | b0 :: b1 :: b2 :: b3 :: r => b0 + 256 * b1 + 65536 * b2 + 16777216 * b3 :: of_le32 r
  | _ => []
  end.

Definition decode_vector (blob : option bytes) (dimensions : Z) : option Vec :=
  match blob with
  | None => None
  | Some b => if Z.of_nat (length b) =? dimensions * 4 then Some (of_le32 b) else None
  end.

Definition is_contract_vector `{Numpy} (v : Vec) (dimensions : Z) : bool :=
  if negb (Z.of_nat (length v) =? dimensions) then false
  else if negb (forallb finite32 v) then false
  else SFleb (SFabs (b64_sub (np_dot v) ONE)) (b64_mul (b64_of_Z 2) L2_ATOL).

(** [struct.pack(">I", n)] *)
Definition be32 (n : Z) : option bytes :=
  if (0 <=? n) && (n <? 2 ^ 32) then Some [n / 16777216 mod 256; n / 65536 mod 256; n / 256 mod 256; n mod 256] else None.

(** The bytes of [content_digest] before hashing. *)
Definition digest_payload (model_id : pystr) (dimensions : Z) (text : pystr) : option bytes :=
  m ← utf8_encode model_id; t ← utf8_encode text;
  lm ← be32 (Z.of_nat (length m)); d ← be32 dimensions; lt ← be32 (Z.of_nat (length t));
  Some (lm ++ m ++ d ++ lt ++ t).

(** [_dedupe_preserve_order]: the unique texts and, for each text, where it is. *)
Definition dedupe_step (acc : gmap pystr nat * list pystr * list nat) (t : pystr) : gmap pystr nat * list pystr * list nat :=
  let '(index, unique, mapping) := acc in
  match index !! t with
  | Some pos => (index, unique, mapping ++ [pos])
  | None => (<[t := length unique]> index, unique ++ [t], mapping ++ [length unique])
  end.

Definition dedupe_preserve_order (texts : list pystr) : list pystr * list nat :=
  let '(_, unique, mapping) := foldl dedupe_step (∅, [], []) texts in (unique, mapping).

(** [dict[key] = value] on the items in insertion order. *)
Fixpoint dict_set (k : pystr) (v : bytes) (d : list (pystr * bytes)) : list (pystr * bytes) :=
  match d with
  | [] => [(k, v)]
  | (k', v') :: d => if bool_decide (k' = k) then (k, v) :: d else (k', v') :: dict_set k v d
  end.

Definition Store : Type := gmap pystr bytes.

(** The commands of a pipeline, in order. *)
Definition set_many (items : list (pystr * bytes)) (s : Store) : Store := foldl (fun s kv => <[kv.1 := kv.2]> s) s items.

(** A request between its [MGET] and its end; no blobs when Redis failed. *)
Record Reading := {
  rd_texts : list pystr;
  rd_keys : list pystr;
  rd_blobs : option (list (option bytes));
}.

Section Cache.
Context `{Numpy} (sha256 : bytes -> pystr) (model_id : pystr) (dimensions : Z).

Definition cache_key_for_text (org : Z) (text : pystr) : option pystr :=
  p ← digest_payload model_id dimensions text; Some (uuid_str org ++ lit ":embed:v1:" ++ sha256 p).

(** [CachingEmbeddingBackend.embed] up to the answer of [_mget_fail_open]. *)
Definition cache_lookup (org : option Z) (texts : list pystr) (redis_ok : bool) (s : Store) : result EmbedError Reading :=
  let* _ := validate_embed_input texts in
  match org with
  | None => Raise MissingOrgContext
  | Some org =>
      match mapM (cache_key_for_text org) texts with
      | None => Raise UncaughtPyError
      | Some keys =>
          Ok {| rd_texts := texts; rd_keys := keys;
                rd_blobs := if redis_ok then Some ((fun k => s !! k) <$> keys) else None |}
      end
  end.

(** A hit. *)
Definition hit (blob : option bytes) : option Vec :=
  match decode_vector blob dimensions with
  | Some v => if is_contract_vector v dimensions then Some v else None
  | None => None
  end.

(** [_split_hits_and_misses] *)
Definition split_hits_and_misses (blobs : list (option bytes)) : list (option Vec) * list nat :=
  (hit <$> blobs, imap (fun i b => (i, hit b)) blobs ≫= fun ib => match ib.2 with None => [ib.1] | Some _ => [] end).

(** The loop of [_resolve_misses] after the inner call: one missed slot, its place
    among the unique texts. *)
Definition fill_slot (keys : list pystr) (vectors : list Vec) (acc : list (option Vec) * list (pystr * bytes))
    (slot : nat * nat) : option (list (option Vec) * list (pystr * bytes)) :=
  v ← vectors !! slot.2; k ← keys !! slot.1;
  Some (<[slot.1 := Some v]> acc.1, dict_set k (encode_vector v) acc.2).

Fixpoint fill_slots (keys : list pystr) (vectors : list Vec) (acc : list (option Vec) * list (pystr * bytes))
    (slots : list (nat * nat)) : option (list (option Vec) * list (pystr * bytes)) :=
  match slots with
  | [] => Some acc
  | slot :: slots => acc ← fill_slot keys vectors acc slot; fill_slots keys vectors acc slots
  end.

(** [_resolve_misses]; [applied] is how many commands of the pipeline took effect
    when it failed.  An index out of range raises. *)
Definition resolve_misses (inner : list pystr -> result EmbedError (list Vec)) (applied : option nat) (texts keys : list pystr)
    (rows : list (option Vec)) (misses : list nat) (s : Store) : result EmbedError (list (option Vec)) * Store :=
  let miss_texts := omap (fun i => texts !! i) misses in
  let '(unique_texts, unique_of) := dedupe_preserve_order miss_texts in
  match inner unique_texts with
  | Raise e => (Raise e, s)
  | Ok vectors =>
      match fill_slots keys vectors (rows, []) (zip misses unique_of) with
      | None => (Raise UncaughtPyError, s)
      | Some (rows, pending) =>
          (Ok rows, set_many (match applied with None => pending | Some n => take n pending end) s)
      end
  end.

(** [_assemble] *)
Definition assemble (rows : list (option Vec)) : result EmbedError (list Vec) :=
  match mapM id rows with Some l => Ok l | None => Raise UncaughtPyError end.

(** The rest of [_embed_cached]. *)
Definition cache_resolve (inner : list pystr -> result EmbedError (list Vec)) (applied : option nat) (r : Reading) (s : Store)
    : result EmbedError (list Vec) * Store :=
  match rd_blobs r with
  | None => (inner (rd_texts r), s)
  | Some blobs =>
      let '(rows, misses) := split_hits_and_misses blobs in
      match misses with
      | [] => (assemble rows, s)
      | _ =>
          match resolve_misses inner applied (rd_texts r) (rd_keys r) rows misses s with
          | (Ok rows, s) => (assemble rows, s)
          | (Raise e, s) => (Raise e, s)
          end
      end
  end.

(** ** Interleaved requests *)

Record State := {
  store : Store;
  reading : gmap nat Reading;
  answers : gmap nat (list pystr * result EmbedError (list Vec));
}.

Inductive Op :=
| Lookup (i : nat) (org : option Z) (texts : list pystr) (redis_ok : bool)
| Resolve (i : nat) (applied : option nat)
| Expire (key : pystr).

(** [inner n] is the backend as call [n] meets it. *)
Context (inner : nat -> list pystr -> result EmbedError (list Vec)).

Definition exec (n : nat) (op : Op) (st : State) : State :=
  match op with
  | Lookup i org texts redis_ok =>
      match reading st !! i, answers st !! i with
      | None, None =>
          match cache_lookup org texts redis_ok (store st) with
          | Ok r => {| store := store st; reading := <[i := r]> (reading st); answers := answers st |}
          | Raise e => {| store := store st; reading := reading st; answers := <[i := (texts, Raise e)]> (answers st) |}
          end
      | _, _ => st
      end
  | Resolve i applied =>
      match reading st !! i with
      | Some r =>
          let '(res, s) := cache_resolve (inner n) applied r (store st) in
          {| store := s; reading := delete i (reading st); answers := <[i := (rd_texts r, res)]> (answers st) |}
      | None => st
      end
  | Expire key => {| store := delete key (store st); reading := reading st; answers := answers st |}
  end.

Fixpoint run (n : nat) (ops : list Op) (st : State) : State :=
  match ops with [] => st | op :: ops => run (S n) ops (exec n op st) end.

Definition initial : State := {| store := ∅; reading := ∅; answers := ∅ |}.
End Cache.

(** ** The endpoint ([api/embed.py]) *)

(** The status of an answer; 500 is an exception nobody catches. *)
Definition status_of {A} (r : result EmbedError A) : Z :=
  match r with
  | Ok _ => 200
  | Raise (EmptyBatch | BatchTooLarge | TextTooLong | BackendRejected | MissingOrgContext) => 400
  | Raise InvalidVector => 502
  | Raise (BackendUnavailable _ | BackendTimeout) => 503
  | Raise UncaughtPyError => 500
  end.

(** ** Codecs *)

Definition word32 (b : Z) : Prop := 0 <= b < 2 ^ 32.

Lemma of_le32_encode v : Forall word32 v -> of_le32 (encode_vector v) = v.
Proof.
  induction 1 as [|b v Hb Hv IH]; [done|]. unfold encode_vector in *. cbn. f_equal; [|done].
  unfold word32 in Hb. Z.div_mod_to_equations. lia.
Qed.

Lemma encode_vector_length v : Z.of_nat (length (encode_vector v)) = Z.of_nat (length v) * 4.
Proof.
  unfold encode_vector. induction v as [|b v IH]; [done|].
  change (mjoin (le32 <$> b :: v)) with (le32 b ++ mjoin (le32 <$> v)). rewrite length_app, Nat2Z.inj_add, IH. cbn [length le32]. lia.
Qed.

(** An entry reads back as the vector that was stored, or not at all. *)
Lemma decode_encode v dim : Forall word32 v -> decode_vector (Some (encode_vector v)) dim = if Z.of_nat (length v) =? dim then Some v else None.
Proof.
  intros Hv. cbn [decode_vector]. rewrite encode_vector_length, of_le32_encode by done.
  destruct (Z.eqb_spec (Z.of_nat (length v)) dim) as [->|]; [by rewrite Z.eqb_refl|].
  destruct (Z.eqb_spec (Z.of_nat (length v) * 4) (dim * 4)); [lia|done].
Qed.

Lemma hit_encode `{Numpy} dim v u : Forall word32 v -> hit dim (Some (encode_vector v)) = Some u -> u = v.
Proof. unfold hit. intros Hv. rewrite decode_encode by done. destruct (_ =? dim); [|done]. by case_match; intros [= ->]. Qed.

Lemma hit_contract `{Numpy} dim b v : hit dim b = Some v -> is_contract_vector v dim = true.
Proof. unfold hit. repeat case_match; try done. intros. by simplify_eq. Qed.

(** ** Deduplication *)

Lemma dedupe_unique_spec texts unique mapping :
  dedupe_preserve_order texts = (unique, mapping) ->
  Forall2 (fun t pos => unique !! pos = Some t) texts mapping /\ unique ⊆ texts.
Proof.
  unfold dedupe_preserve_order. destruct (foldl _ _ texts) as [[index u] m] eqn:Hf. intros [= <- <-].
  assert (forall done index u m,
    Forall2 (fun t pos => u !! pos = Some t) done m -> u ⊆ done ->
    (forall t pos, index !! t = Some pos -> u !! pos = Some t) ->
    forall texts index' u' m', foldl dedupe_step (index, u, m) texts = (index', u', m') ->
    Forall2 (fun t pos => u' !! pos = Some t) (done ++ texts) m' /\ u' ⊆ done ++ texts) as Hgen.
  { clear. intros done index u m Hm Hu Hi texts. revert done index u m Hm Hu Hi.
    induction texts as [|t texts IH]; intros done index u m Hm Hu Hi index' u' m' Hf.
    { injection Hf as <- <- <-. by rewrite app_nil_r. }
    cbn [foldl] in Hf. rewrite (cons_middle t done texts), app_assoc. unfold dedupe_step in Hf at 2.
    destruct (index !! t) as [pos|] eqn:Ht.
    - apply (IH (done ++ [t]) index u (m ++ [pos])) in Hf; [exact Hf| |set_solver|exact Hi]. apply Forall2_app; [done|]. constructor; [by apply Hi|done].
    - apply (IH (done ++ [t]) (<[t := length u]> index) (u ++ [t]) (m ++ [length u])) in Hf; [exact Hf| | |].
      + apply Forall2_app; [|constructor; [|done]].
        * eapply Forall2_impl; [exact Hm|]. intros x pos Hx. by apply lookup_app_l_Some.
        * by rewrite list_lookup_middle.
      + set_solver.
      + intros x pos [[<- <-]|[_ Hx]]%lookup_insert_Some; [by rewrite list_lookup_middle|].
        apply lookup_app_l_Some. by apply Hi. }
  apply (Hgen [] ∅ [] []) in Hf; [done|constructor|done|]. intros t pos Ht. by rewrite lookup_empty in Ht.
Qed.

(** ** Resolving a request *)

Lemma dict_set_Forall (P : pystr * bytes -> Prop) k v d : Forall P d -> P (k, v) -> Forall P (dict_set k v d).
Proof.
  induction 1 as [|[k' v'] d Hk Hd IH]; intros Hp; cbn; [by constructor|].
  case_bool_decide; constructor; auto.
Qed.

Lemma mapM_id_Some {A} (l : list (option A)) (k : list A) : mapM id l = Some k <-> l = Some <$> k.
Proof.
  rewrite mapM_Some. split.
  - induction 1 as [|x y l k Hx _ IH]; [done|]. cbn in *. by rewrite Hx, IH.
  - intros ->. induction k; constructor; done.
Qed.

Section Resolution.
Context `{Numpy} (dim : Z) (R : pystr -> Vec -> Prop) (texts keys : list pystr).
Hypothesis keys_length : length keys = length texts.

(** The rows filled so far belong to their texts, and so do the pending entries. *)
Definition sound_rows (rows : list (option Vec)) : Prop :=
  length rows = length texts /\ forall i t v, texts !! i = Some t -> rows !! i = Some (Some v) -> R t v.
Definition sound_item (kb : pystr * bytes) : Prop :=
  exists i t v, keys !! i = Some kb.1 /\ texts !! i = Some t /\ R t v /\ kb.2 = encode_vector v.
Definition filled (rows : list (option Vec)) (i : nat) : Prop := exists v, rows !! i = Some (Some v).

Lemma fill_slots_spec vectors slots : forall rows pending,
  Forall (fun slot : nat * nat => exists t v, texts !! slot.1 = Some t /\ vectors !! slot.2 = Some v /\ R t v) slots ->
  sound_rows rows -> Forall sound_item pending ->
  exists rows' pending', fill_slots keys vectors (rows, pending) slots = Some (rows', pending') /\
    sound_rows rows' /\ Forall sound_item pending' /\
    forall i, filled rows i \/ i ∈ slots.*1 -> filled rows' i.
Proof.
  induction slots as [|[i p] slots IH]; intros rows pending Hslots [Hlen Hrows] Hpend; cbn [fill_slots].
  { exists rows, pending. split; [done|]. split; [done|]. split; [done|]. intros i [?|[]%elem_of_nil]. done. }
  apply Forall_cons in Hslots as [(t & v & Ht & Hv & Hr) Hslots]. cbn in Ht, Hv.
  assert (i < length texts)%nat as Hi by (by apply lookup_lt_Some in Ht).
  destruct (lookup_lt_is_Some_2 keys i) as [k Hk]; [by rewrite keys_length|].
  assert (fill_slot keys vectors (rows, pending) (i, p) = Some (<[i := Some v]> rows, dict_set k (encode_vector v) pending)) as ->
    by (unfold fill_slot; cbn; by rewrite Hv; cbn; rewrite Hk).
  cbn [mbind option_bind].
  destruct (IH (<[i := Some v]> rows) (dict_set k (encode_vector v) pending)) as (rows' & pending' & He & Hs & Hp & Hf); [done| | |].
  - split; [by rewrite length_insert|]. intros j t' v' Ht' Hv'. apply list_lookup_insert_Some in Hv' as [(<- & [= ->] & _)|[_ Hv']].
    + congruence.
    + by eapply Hrows.
  - apply dict_set_Forall; [done|]. by exists i, t, v.
  - exists rows', pending'. split; [done|]. split; [done|]. split; [done|]. intros j Hj. apply Hf.
    destruct (decide (j = i)) as [->|Hne].
    + left. exists v. apply list_lookup_insert_eq. by rewrite Hlen.
    + destruct Hj as [[w Hw]|Hj]; [left; exists w; by rewrite list_lookup_insert_ne by done|].
      right. cbn in Hj. by apply elem_of_cons in Hj as [->|].
Qed.

Lemma misses_spec blobs i :
  i ∈ (split_hits_and_misses dim blobs).2 <-> exists b, blobs !! i = Some b /\ hit dim b = None.
Proof.
  unfold split_hits_and_misses. cbn [snd]. rewrite list_elem_of_bind. split.
  - intros ([j o] & Hi & Hj). apply elem_of_lookup_imap in Hj as (j' & b & [= -> ->] & Hb). cbn in Hi.
    destruct (hit dim b) eqn:Hh; [by apply elem_of_nil in Hi|]. apply list_elem_of_singleton in Hi as ->. by exists b.
  - intros (b & Hb & Hh). exists (i, hit dim b). cbn. rewrite Hh. split; [by apply list_elem_of_singleton|].
    rewrite <- Hh. apply elem_of_lookup_imap. by exists i, b.
Qed.

Lemma all_filled rows :
  sound_rows rows -> (forall i, (i < length texts)%nat -> filled rows i) ->
  exists vs, assemble rows = Ok vs /\ Forall2 R texts vs.
Proof.
  intros [Hlen Hr] Hf. unfold assemble. destruct (mapM id rows) as [vs|] eqn:Hm.
  - exists vs. split; [done|]. apply mapM_id_Some in Hm. subst rows. rewrite length_fmap in Hlen.
    apply Forall2_same_length_lookup_2; [done|]. intros i t v Ht Hv. apply (Hr i); [done|]. by rewrite list_lookup_fmap, Hv.
  - exfalso. apply mapM_None in Hm. apply Exists_exists in Hm as (o & [i Hi]%list_elem_of_lookup & Ho).
    cbn in Ho. subst o. destruct (Hf i) as [v Hv]; [rewrite <- Hlen; by apply lookup_lt_Some in Hi|]. congruence.
Qed.

(** A resolved request has a vector in the relation for every text, however Redis
    fared, or the error of the inner call. *)
Lemma resolve_spec inner applied r s :
  rd_texts r = texts -> rd_keys r = keys ->
  (forall blobs, rd_blobs r = Some blobs -> Forall2 (fun t b => forall v, hit dim b = Some v -> R t v) texts blobs) ->
  (forall l vs, l ⊆ texts -> inner l = Ok vs -> Forall2 R l vs) ->
  exists res items, cache_resolve dim inner applied r s = (res, set_many items s) /\ Forall sound_item items /\
    match res with
    | Ok vs => Forall2 R texts vs
    | Raise e => exists l, l ⊆ texts /\ inner l = Raise e
    end.
Proof.
  intros Ht Hk Hblobs Hinner. unfold cache_resolve. destruct (rd_blobs r) as [blobs|] eqn:Hb; cycle 1.
  { rewrite Ht. exists (inner texts), []. split; [done|]. split; [constructor|].
    destruct (inner texts) eqn:Hi; [by apply Hinner|by exists texts]. }
  specialize (Hblobs blobs eq_refl). pose proof (Forall2_length _ _ _ Hblobs) as Hlen.
  pose proof (misses_spec blobs) as Hm. destruct (split_hits_and_misses dim blobs) as [rows misses] eqn:Hsp. cbn in Hm.
  assert (rows = hit dim <$> blobs) as Hrows by (by injection Hsp).
  assert (sound_rows rows) as Hs.
  { subst rows. split; [by rewrite length_fmap|]. intros i t v Hi Hv. apply list_lookup_fmap_Some in Hv as (b & Hv & Hbi).
    by apply (Forall2_lookup_lr _ _ _ i t b Hblobs Hi Hbi). }
  assert (forall i, (i < length texts)%nat -> filled rows i \/ i ∈ misses) as Hsplit.
  { intros i Hi. destruct (lookup_lt_is_Some_2 blobs i) as [b Hbi]; [by rewrite <- Hlen|].
    destruct (hit dim b) as [v|] eqn:Hh; [left; exists v; by rewrite Hrows, list_lookup_fmap, Hbi; cbn; rewrite Hh|].
    right. apply Hm. by exists b. }
  destruct misses as [|m0 misses0] eqn:Hmis.
  { destruct (all_filled rows Hs) as (vs & -> & Hall); [intros i Hi; by destruct (Hsplit i Hi) as [|[]%elem_of_nil]|].
    by exists (Ok vs), []. }
  rewrite <- Hmis in *. clear Hmis m0 misses0. unfold resolve_misses. rewrite Ht, Hk.
  destruct (dedupe_preserve_order _) as [unique unique_of] eqn:Hd. apply dedupe_unique_spec in Hd as [Hmap Hsub].
  assert (Forall (fun i => is_Some (texts !! i)) misses) as Hin.
  { apply Forall_forall. intros i (b & Hbi & _)%Hm. apply lookup_lt_is_Some. rewrite Hlen. by apply lookup_lt_Some in Hbi. }
  assert (unique ⊆ texts) as Hut.
  { intros t Hu%Hsub. apply list_elem_of_omap in Hu as (i & _ & Hi). by apply list_elem_of_lookup_2 in Hi. }
  destruct (inner unique) as [vectors|e] eqn:Hi; [|exists (Raise e), []; split; [done|]; split; [constructor|by exists unique]].
  pose proof (Hinner unique vectors Hut Hi) as Hvs.
  assert (Forall (fun slot : nat * nat => exists t v, texts !! slot.1 = Some t /\ vectors !! slot.2 = Some v /\ R t v)
            (zip misses unique_of) /\ (zip misses unique_of).*1 = misses) as [Hslots Hfst].
  { clear -Hin Hmap Hvs. revert unique_of Hmap. induction Hin as [|i misses [t Hi] Hin IH]; intros mp Hmap; [done|].
    cbn [omap list_omap] in Hmap. rewrite Hi in Hmap. apply Forall2_cons_inv_l in Hmap as (p & mp' & Hp & Hmap & ->).
    destruct (IH mp' Hmap) as [? Hf]. cbn. rewrite Hf. split; [|done]. constructor; [|done].
    destruct (Forall2_lookup_l _ _ _ _ _ Hvs Hp) as (v & Hv & Hr). by exists t, v. }
  destruct (fill_slots_spec vectors (zip misses unique_of) rows [] Hslots Hs) as (rows' & pending & -> & Hs' & Hp & Hf); [constructor|].
  destruct (all_filled rows' Hs') as (vs & -> & Hall).
  { intros i Hlt. apply Hf. rewrite Hfst. by apply Hsplit. }
  eexists (Ok vs), _. split; [done|]. split; [|done]. destruct applied; [by apply Forall_take|done].
Qed.
End Resolution.

(** ** Keys *)

Lemma be32_length n b : be32 n = Some b -> length b = 4%nat.
Proof. unfold be32. intros. by case_match; simplify_eq. Qed.

Lemma utf8_encode_inj s t b : utf8_encode s = Some b -> utf8_encode t = Some b -> s = t.
Proof. intros Hs%utf8_roundtrip Ht%utf8_roundtrip. congruence. Qed.

(** The payload determines the text: every part but the last is as long as its
    prefix says. *)
Lemma digest_payload_inj m d t1 t2 p : digest_payload m d t1 = Some p -> digest_payload m d t2 = Some p -> t1 = t2.
Proof.
  unfold digest_payload. intros H1 H2.
  apply bind_Some in H1 as (mb & Hm & (b1 & Hb1 & (lm & Hlm & (db & Hd & (l1 & Hl1 & [= <-])%bind_Some)%bind_Some)%bind_Some)%bind_Some).
  rewrite Hm in H2. cbn [mbind option_bind] in H2. apply bind_Some in H2 as (b2 & Hb2 & H2).
  rewrite Hlm in H2. cbn [mbind option_bind] in H2. rewrite Hd in H2. cbn [mbind option_bind] in H2.
  apply bind_Some in H2 as (l2 & Hl2 & [= He]).
  do 3 apply app_inv_head in He. apply app_inj_1 in He as [_ <-]; [|by rewrite (be32_length _ _ Hl1), (be32_length _ _ Hl2)].
  by eapply utf8_encode_inj.
Qed.

Section Transparency.
Context `{Numpy} (sha256 : bytes -> pystr) (model_id : pystr) (dimensions : Z).
Context (inner : nat -> list pystr -> result EmbedError (list Vec)).

Abbreviation key := (cache_key_for_text sha256 model_id dimensions).
Abbreviation run := (run sha256 model_id dimensions inner).
Abbreviation exec := (exec sha256 model_id dimensions inner).

Lemma key_parts org t k : key org t = Some k ->
  exists p, digest_payload model_id dimensions t = Some p /\ k = uuid_str org ++ lit ":embed:v1:" ++ sha256 p.
Proof.
  unfold cache_key_for_text. intros (p & Hp & Hk)%bind_Some. exists p. split; [done|]. by apply (inj Some) in Hk.
Qed.

(** The cache is scoped: one organization never reads another's entry. *)
Lemma cache_key_scoped `{UnicodeDB} org1 org2 t1 t2 k :
  0 <= org1 < 2 ^ 128 -> 0 <= org2 < 2 ^ 128 -> key org1 t1 = Some k -> key org2 t2 = Some k -> org1 = org2.
Proof.
  intros H1 H2 (p1 & _ & ->)%key_parts (p2 & _ & He)%key_parts.
  apply app_inj_1 in He as [He _]; [|by rewrite !uuid_str_length].
  pose proof (uuid_roundtrip org1 H1). pose proof (uuid_roundtrip org2 H2). congruence.
Qed.

Definition texts_of (ops : list Op) : list pystr :=
  ops ≫= fun op => match op with Lookup _ _ texts _ => texts | _ => [] end.

Context (T : pystr -> Prop) (f : pystr -> Vec).
Hypothesis no_collision : forall t1 t2 p1 p2, T t1 -> T t2 ->
  digest_payload model_id dimensions t1 = Some p1 -> digest_payload model_id dimensions t2 = Some p2 ->
  sha256 p1 = sha256 p2 -> p1 = p2.
Hypothesis inner_by_text : forall n l vs, inner n l = Ok vs -> vs = f <$> l.
Hypothesis f_words : forall t, Forall word32 (f t).
Hypothesis geometry : is_Some (digest_payload model_id dimensions []).

Lemma key_inj org1 org2 t1 t2 k : T t1 -> T t2 -> key org1 t1 = Some k -> key org2 t2 = Some k -> t1 = t2.
Proof.
  intros HT1 HT2 (p1 & Hp1 & ->)%key_parts (p2 & Hp2 & He)%key_parts.
  apply app_inj_1 in He as [_ He]; [|by rewrite !uuid_str_length]. apply app_inv_head in He.
  assert (p1 = p2) as -> by exact (no_collision t1 t2 p1 p2 HT1 HT2 Hp1 Hp2 He). by eapply digest_payload_inj.
Qed.

Lemma key_exists org t : validate_text_at t = Ok tt -> is_Some (key org t).
Proof.
  unfold validate_text_at. case_bool_decide; [done|]. destruct (utf8_encode t) as [b|] eqn:Hb; [|done].
  destruct (MAX_TEXT_BYTES <? Z.of_nat (length b)) eqn:Hl; [done|]. intros _. apply Z.ltb_ge in Hl.
  assert (is_Some (be32 (Z.of_nat (length b)))) as [lb Hlb].
  { unfold be32. unfold MAX_TEXT_BYTES in Hl. destruct (Z.leb_spec 0 (Z.of_nat (length b))); [|lia].
    destruct (Z.ltb_spec (Z.of_nat (length b)) (2 ^ 32)); [done|lia]. }
  destruct geometry as [p Hp]. unfold digest_payload in Hp.
  apply bind_Some in Hp as (mb & Hm & (b0 & _ & (lm & Hlm & (db & Hd & _)%bind_Some)%bind_Some)%bind_Some).
  unfold cache_key_for_text, digest_payload. rewrite Hm, Hb. cbn. rewrite Hlm. cbn. rewrite Hd. cbn. by rewrite Hlb.
Qed.

(** An answer is the inner backend's, or one of its errors, or a refusal. *)
Definition explained (texts : list pystr) (r : result EmbedError (list Vec)) : Prop :=
  match r with
  | Ok vs => vs = f <$> texts
  | Raise e => validate_embed_input texts = Raise e \/ e = MissingOrgContext \/ exists n l, l ⊆ texts /\ inner n l = Raise e
  end.

Definition store_ok (s : Store) : Prop :=
  forall k b, s !! k = Some b -> exists org t, T t /\ key org t = Some k /\ b = encode_vector (f t).

Definition reading_ok (r : Reading) : Prop :=
  Forall T (rd_texts r) /\ (exists org, mapM (key org) (rd_texts r) = Some (rd_keys r)) /\
  forall blobs, rd_blobs r = Some blobs -> Forall2 (fun t b => forall v, hit dimensions b = Some v -> v = f t) (rd_texts r) blobs.

Record sound (st : State) : Prop := {
  so_store : store_ok (store st);
  so_reading : forall i r, reading st !! i = Some r -> reading_ok r;
  so_answers : forall i texts r, answers st !! i = Some (texts, r) -> explained texts r;
}.

Lemma lookup_sound org texts redis_ok s :
  store_ok s -> Forall T texts ->
  match cache_lookup sha256 model_id dimensions org texts redis_ok s with
  | Ok r => reading_ok r
  | Raise e => explained texts (Raise e)
  end.
Proof.
  intros Hs HT. unfold cache_lookup. destruct (validate_embed_input texts) as [u|e] eqn:Hv; cbn [rbind]; [|by left].
  destruct org as [org|]; [|by right; left]. destruct (mapM (key org) texts) as [keys|] eqn:Hk.
  - split; [done|]. cbn. split; [by exists org|]. intros blobs Hb. destruct redis_ok; [|done]. injection Hb as <-.
    apply mapM_Some in Hk. clear Hv. induction Hk as [|t k texts keys Htk Hk IH]; [constructor|].
    apply Forall_cons in HT as [HTt HT]. constructor; [|by apply IH].
    intros v Hh. destruct (s !! k) as [b|] eqn:Hb; [|done]. destruct (Hs k b Hb) as (org' & t' & HT' & Hk' & ->).
    rewrite <- (key_inj org org' t t' k HTt HT' Htk Hk') in Hh. by apply hit_encode in Hh.
  - exfalso. apply mapM_None in Hk. apply Exists_exists in Hk as (t & Ht & Hn). unfold validate_embed_input in Hv.
    do 2 (case_match; [done|]). apply rbind_Ok in Hv as (ys & Hr%rmap_Ok & _). apply list_elem_of_lookup in Ht as [i Hi].
    destruct (Forall2_lookup_l _ _ _ _ _ Hr Hi) as ([] & _ & Hok).
    destruct (key_exists org t Hok). congruence.
Qed.

Lemma set_many_ok items s :
  store_ok s -> Forall (fun kb : pystr * bytes => exists org t, T t /\ key org t = Some kb.1 /\ kb.2 = encode_vector (f t)) items ->
  store_ok (set_many items s).
Proof.
  intros Hs Hi. revert s Hs. induction Hi as [|[k b] items Hk Hi IH]; intros s Hs; [done|]. apply IH. cbn.
  intros k' b' [[<- <-]|[_ Hk']]%lookup_insert_Some; [exact Hk|by apply Hs].
Qed.

Lemma exec_sound n op st :
  sound st -> (forall i org texts ok, op = Lookup i org texts ok -> Forall T texts) -> sound (exec n op st).
Proof.
  intros [Hs Hr Ha] HT. destruct op as [i org texts ok|i applied|k]; cbn [EmbedService.exec].
  - destruct (reading st !! i); [done|]. destruct (answers st !! i); [done|].
    pose proof (lookup_sound org texts ok (store st) Hs (HT i org texts ok eq_refl)) as Hl.
    destruct (cache_lookup _ _ _ _ _ _ _) as [r|e]; split; cbn; try done.
    + intros j r' [[<- <-]|[_ ?]]%lookup_insert_Some; [done|by eapply Hr].
    + intros j texts' r' [[<- [= <- <-]]|[_ ?]]%lookup_insert_Some; [done|by eapply Ha].
  - destruct (reading st !! i) as [r|] eqn:Hi; [|done]. destruct (Hr i r Hi) as (HTr & (org & Hk) & Hb).
    assert (length (rd_keys r) = length (rd_texts r)) as Hlen by (apply mapM_Some, Forall2_length in Hk; by symmetry).
    destruct (resolve_spec dimensions (fun t v => v = f t) (rd_texts r) (rd_keys r) Hlen (inner n) applied r (store st))
      as (res & items & -> & Hitems & Hres); try done.
    { intros l vs _ ->%inner_by_text. clear. induction l; by constructor. }
    split; cbn.
    + apply set_many_ok; [done|]. eapply Forall_impl; [exact Hitems|]. intros [k b] (j & t & v & Hkj & Htj & -> & ->).
      cbn in *. exists org, t. apply mapM_Some in Hk. split; [by eapply Forall_lookup_1|]. split; [|done].
      by apply (Forall2_lookup_lr _ _ _ j t k Hk Htj Hkj).
    + intros j r' [_ ?]%lookup_delete_Some. by eapply Hr.
    + intros j texts' r' [[<- [= <- <-]]|[_ ?]]%lookup_insert_Some; [|by eapply Ha]. destruct res as [vs|e]; cbn.
      * clear -Hres. induction Hres as [|t v ? ? -> _ IH]; [done|]. cbn. by rewrite IH.
      * right; right. destruct Hres as (l & ? & ?). by exists n, l.
  - split; cbn; try done. intros k' b [_ ?]%lookup_delete_Some. by apply Hs.
Qed.

Lemma run_sound ops : forall n st, sound st -> (forall t, t ∈ texts_of ops -> T t) -> sound (run n ops st).
Proof.
  induction ops as [|op ops IH]; intros n st Hs HT; cbn; [done|]. apply IH.
  - apply exec_sound; [done|]. intros i org texts ok ->. apply Forall_forall. intros t Ht. apply HT. cbn. set_solver.
  - intros t Ht. apply HT. cbn. set_solver.
Qed.
End Transparency.

(** C27: the cache is transparent: however requests of any organizations interleave,
    entries expire and Redis fails, an answer with vectors has exactly the vectors
    the backend gives these texts, and an answer without is a refusal of the request
    or an error of the backend, never one of the cache.  The backend's vectors depend
    on the text alone, and no two texts in use have one digest. *)
Theorem cache_is_transparent `{Numpy} sha256 model_id dimensions inner f ops i texts r :
  (forall t1 t2 p1 p2, t1 ∈ texts_of ops -> t2 ∈ texts_of ops ->
     digest_payload model_id dimensions t1 = Some p1 -> digest_payload model_id dimensions t2 = Some p2 ->
     sha256 p1 = sha256 p2 -> p1 = p2) ->
  (forall n l vs, inner n l = Ok vs -> vs = f <$> l) ->
  (forall t, Forall word32 (f t)) ->
  is_Some (digest_payload model_id dimensions []) ->
  answers (run sha256 model_id dimensions inner 0 ops initial) !! i = Some (texts, r) ->
  match r with
  | Ok vs => vs = f <$> texts
  | Raise e => validate_embed_input texts = Raise e \/ e = MissingOrgContext \/ exists n l, l ⊆ texts /\ inner n l = Raise e
  end.
Proof.
  intros Hc Hi Hw Hg Ha.
  assert (sound sha256 model_id dimensions inner (fun t => t ∈ texts_of ops) f (run sha256 model_id dimensions inner 0 ops initial))
    as [_ _ Hs]; [|by apply (Hs i)].
  by apply run_sound.
Qed.

(** ** The contract of the vectors *)

(** What a served vector satisfies: dimension, finite components, unit norm by one
    of the two tests. *)
Definition meets_contract `{Numpy} (dim : Z) (v : Vec) : Prop :=
  Z.of_nat (length v) = dim /\ Forall (fun b => finite32 b = true) v /\
  (allclose_one (np_norm v) = true \/ is_contract_vector v dim = true).

Section Contract.
Context `{UnicodeDB, Numpy} (u_digit : Z -> bool) (sort_mixed : list (Json * Json) -> option (list (Json * Json))).
Hypothesis array_rows : forall v cols rows, np_array v = Ok (Rank2 cols rows) -> Forall (fun r => Z.of_nat (length r) = cols) rows.
Hypothesis normalized_length : forall v, length (np_normalized v) = length v.

(** An array as NumPy builds it. *)
Definition rectangular (a : NdArray) : Prop :=
  match a with Rank2 cols rows => Forall (fun r => Z.of_nat (length r) = cols) rows | _ => True end.

Lemma caught_array_rect v a : caught_array v = Ok a -> rectangular a.
Proof.
  unfold caught_array. destruct (np_array v) as [[| |]|[]] eqn:Hv; intros [= <-]; cbn; try done. by apply array_rows in Hv.
Qed.

Lemma tei_post_rect max_retries posts a : tei_post max_retries posts = Ok a -> rectangular a.
Proof.
  unfold tei_post. destruct (post_with_retries _ _ _) as [res n] eqn:Hr. cbn. intros ->.
  apply post_with_retries_spec in Hr as (_ & Hok & _). symmetry in Hok. unfold tei_attempt, parse_native_embed_response in Hok.
  repeat (case_match; try done). by eapply caught_array_rect.
Qed.

Lemma hosted_body_rect p body a : parse_hosted_body sort_mixed p body = Ok a -> rectangular a.
Proof.
  unfold parse_hosted_body. destruct body as [b|]; [|done]. destruct p.
  - unfold parse_openai_compat_embed_response. repeat (case_match; try done). intros (rows & _ & Ha)%rbind_Ok.
    by eapply caught_array_rect.
  - unfold parse_cohere_embed_response. repeat (case_match; try done). intros (rows & _ & Ha)%rbind_Ok. case_match; [done|].
    by eapply caught_array_rect.
Qed.

Lemma hosted_post_rect p max_retries posts a : hosted_post u_digit sort_mixed p max_retries posts = Ok a -> rectangular a.
Proof.
  unfold hosted_post. destruct (post_with_retries _ _ _) as [res n] eqn:Hr. cbn. intros ->.
  apply post_with_retries_spec in Hr as (_ & Hok & _). symmetry in Hok. unfold attempt_post in Hok.
  repeat (case_match; try done). by eapply hosted_body_rect.
Qed.

Lemma normalize_rect a a' : rectangular a -> l2_normalize_rows a = Ok a' -> rectangular a'.
Proof.
  unfold l2_normalize_rows. intros Ha. repeat case_match; intros; simplify_eq; try done.
  cbn in *. apply Forall_fmap. eapply Forall_impl; [exact Ha|]. cbn. intros v <-. by rewrite normalized_length.
Qed.

Lemma validate_output_contract texts a dim rows :
  rectangular a -> validate_output_vectors texts a dim = Ok rows -> Forall2 (fun _ v => meets_contract dim v) texts rows.
Proof.
  unfold validate_output_vectors. destruct a as [|cols rows'|]; try done. intros Hr.
  destruct (length rows' =? length texts)%nat eqn:Hl; [|done]. destruct (cols =? dim) eqn:Hd; [|done].
  destruct (forallb (forallb finite32) rows') eqn:Hf; [|done]. destruct (forallb _ rows') eqn:Hn; [|done]. intros [= <-].
  apply Nat.eqb_eq in Hl. apply Z.eqb_eq in Hd as <-. apply Forall2_same_length_lookup_2; [done|].
  intros i t v _ Hv. apply list_elem_of_lookup_2 in Hv. cbn in Hr. rewrite Forall_forall in Hr.
  rewrite forallb_forall in Hf, Hn. split; [by apply Hr|]. split; [|left; by apply Hn, list_elem_of_In].
  apply Forall_forall. intros b Hb. specialize (Hf v). rewrite forallb_forall in Hf. by apply Hf; apply list_elem_of_In.
Qed.

Lemma backend_contract b posts texts rows :
  backend_embed u_digit sort_mixed b posts texts = Ok rows -> Forall2 (fun _ v => meets_contract (b_dimensions b) v) texts rows.
Proof.
  unfold backend_embed. intros (_ & _ & Hb)%rbind_Ok. destruct (b_profile b).
  - apply rbind_Ok in Hb as (a & Ha & Hv). eapply validate_output_contract; [|done].
    unfold rmap_error in Ha. case_match; simplify_eq. by eapply tei_post_rect.
  - apply rbind_Ok in Hb as (a & Ha & (a' & Hn & Hv)%rbind_Ok). eapply validate_output_contract; [|done].
    eapply normalize_rect; [|done]. unfold rmap_error in Ha. case_match; simplify_eq. by eapply hosted_post_rect.
Qed.

Lemma contract_vector_meets dim v : is_contract_vector v dim = true -> meets_contract dim v.
Proof.
  intros Hc. unfold meets_contract. rewrite Hc. unfold is_contract_vector in Hc. destruct (Z.eqb_spec (Z.of_nat (length v)) dim); [|done].
  destruct (forallb finite32 v) eqn:Hf; [|done]. split; [done|]. split; [|by right]. apply Forall_forall. intros b Hb.
  rewrite forallb_forall in Hf. by apply Hf, list_elem_of_In.
Qed.
End Contract.

(** C28: every served vector meets the contract: whatever the network and the content
    of Redis, also a corrupted one, a request answered with vectors gets one per
    text, of the configured dimension, with finite components and of unit norm
    within the tolerance of the output check or of the cache.  NumPy builds
    rectangular arrays and keeps the length of a row it divides. *)
Theorem served_vectors_meet_contract `{UnicodeDB, Numpy} u_digit sort_mixed sha256 b org texts redis_ok s r posts applied s' rows s'' :
  (forall v cols rs, np_array v = Ok (Rank2 cols rs) -> Forall (fun r => Z.of_nat (length r) = cols) rs) ->
  (forall v, length (np_normalized v) = length v) ->
  cache_lookup sha256 (b_model_id b) (b_dimensions b) org texts redis_ok s = Ok r ->
  cache_resolve (b_dimensions b) (backend_embed u_digit sort_mixed b posts) applied r s' = (Ok rows, s'') ->
  length rows = length texts /\ Forall (meets_contract (b_dimensions b)) rows.
Proof.
  intros Hrows Hnorm Hl Hr. unfold cache_lookup in Hl. apply rbind_Ok in Hl as (_ & _ & Hl). destruct org as [org|]; [|done].
  destruct (mapM _ texts) as [keys|] eqn:Hk; [|done]. injection Hl as <-.
  assert (length keys = length texts) as Hlen by (apply mapM_Some, Forall2_length in Hk; by symmetry).
  set (r := {| rd_texts := texts |}) in Hr.
  destruct (resolve_spec (b_dimensions b) (fun _ v => meets_contract (b_dimensions b) v) texts keys Hlen
    (backend_embed u_digit sort_mixed b posts) applied r s') as (res & items & He & _ & Hres); [reflexivity|reflexivity| | |].
  - cbn. intros blobs Hb. destruct redis_ok; [|done]. injection Hb as <-. apply Forall2_same_length_lookup_2; [by rewrite length_fmap|].
    intros i t bl _ _ v Hv. by apply contract_vector_meets, (hit_contract _ bl).
  - intros l vs _ Hi. by eapply backend_contract.
  - rewrite He in Hr. injection Hr as -> _. apply Forall2_flip in Hres. split; [by eapply Forall2_length|].
    clear -Hres. induction Hres; by constructor.
Qed.

(** ** Samples: vectors of one component *)

Module EmbedSample.
#[local] Existing Instance ascii_db.

(** A positive normal float32, and its value as a float64. *)
Definition value32 (bits : Z) : spec_float :=
  if bits =? 0 then S754_zero false
  else S754_finite false (Z.to_pos (2 ^ 23 + Z.land bits (2 ^ 23 - 1))) (Z.land (Z.shiftr bits 23) 255 - 150).
Definition promote (x : spec_float) : binary64 :=
  match x with S754_finite _ m e => binary_normalize 53 1024 (Z.pos m) e false | x => x end.
Definition square32 (b : Z) : spec_float := SFmul 24 128 (value32 b) (value32 b).

Definition one32 : Z := 0x3F800000.
Definition component (v : Json) : option Z := match v with JInt 0 => Some 0 | JInt 1 => Some one32 | _ => None end.
Definition row_of (v : Json) : option Vec := match v with JList [c] => b ← component c; Some [b] | _ => None end.

#[local] Instance one_component : Numpy := {|
  np_array v := match v with
                | JList l =>
                    match mapM row_of l, mapM component l with
                    | Some rows, _ => Ok (Rank2 1 rows)
                    | _, Some l => Ok (Rank1 (length l))
                    | _, _ => Raise NpValueError
                    end
                | _ => Raise NpTypeError
                end;
  np_norm v := match v with [b] => promote (SFsqrt 24 128 (square32 b)) | _ => S754_nan end;
  np_dot v := match v with [b] => promote (square32 b) | _ => S754_nan end;
  np_normalized v := (fun _ => one32) <$> v;
|}.

Definition model : pystr := lit "bge".
Definition unit_vector (t : pystr) : Vec := [one32].

(** The backend answers the first call and is down afterwards. *)
Definition flaky (n : nat) (l : list pystr) : result EmbedError (list Vec) :=
  if (n <=? 1)%nat then Ok (unit_vector <$> l) else Raise BackendTimeout.

(** One request twice: the second is answered from the cache. *)
Definition ops : list Op :=
  [Lookup 0 (Some 7) [lit "tea"; lit "tea"] true; Resolve 0 None; Lookup 1 (Some 7) [lit "tea"] true; Resolve 1 None].

Lemma cache_is_transparent_witness :
  exists vs, answers (run (fun p => p) model 1 flaky 0 ops initial) !! 1%nat = Some ([lit "tea"], Ok vs) /\
    vs = unit_vector <$> [lit "tea"].
Proof.
  exists [[one32]]. assert (answers (run (fun p => p) model 1 flaky 0 ops initial) !! 1%nat = Some ([lit "tea"], Ok [[one32]])) as Ha
    by (vm_compute; reflexivity).
  split; [exact Ha|].
  refine (cache_is_transparent (fun p => p) model 1 flaky unit_vector ops 1 [lit "tea"] (Ok [[one32]]) _ _ _ _ Ha).
  - intros t1 t2 p1 p2 _ _ _ _ He. exact He.
  - intros n l vs. unfold flaky. destruct (n <=? 1)%nat; [|discriminate]. intros [= <-]. reflexivity.
  - intros t. unfold unit_vector, one32, word32. constructor; [lia|constructor].
  - vm_compute. eexists. reflexivity.
Defined.

Definition tei : Backend := {| b_profile := gpu; b_model_id := model; b_dimensions := 1; b_max_retries := 0 |}.
Definition openai_backend : Backend := {| b_profile := hosted openai; b_model_id := model; b_dimensions := 1; b_max_retries := 0 |}.
Definition no_digit (c : Z) : bool := false.
Definition no_sort (l : list (Json * Json)) : option (list (Json * Json)) := None.
Definition answer (body : Json) (n : nat) : HttpOutcome := Responded 200 None (Some body).

Lemma mapM_rows l rows : mapM row_of l = Some rows -> Forall (fun r => Z.of_nat (length r) = 1) rows.
Proof.
  intros Hr%mapM_Some. induction Hr as [|v r l rows Hv _ IH]; constructor; [|done].
  unfold row_of in Hv. repeat (case_match; try done). apply bind_Some in Hv as (b & _ & [= <-]). done.
Qed.

Lemma served_vectors_meet_contract_witness :
  exists r s, cache_lookup (fun p => p) model 1 (Some 7) [lit "tea"] true ∅ = Ok r /\
    cache_resolve 1 (backend_embed no_digit no_sort tei (answer (JList [JList [JInt 1]]))) None r ∅ = (Ok [[one32]], s) /\
    Forall (meets_contract 1) [[one32]].
Proof.
  assert (exists r, cache_lookup (fun p => p) model 1 (Some 7) [lit "tea"] true ∅ = Ok r) as [r Hr]
    by (vm_compute; eexists; reflexivity).
  assert (exists s, cache_resolve 1 (backend_embed no_digit no_sort tei (answer (JList [JList [JInt 1]]))) None r ∅ = (Ok [[one32]], s))
    as [s Hs] by (vm_compute in Hr; injection Hr as <-; vm_compute; eexists; reflexivity).
  exists r, s. split; [exact Hr|]. split; [exact Hs|].
  refine (proj2 (served_vectors_meet_contract no_digit no_sort (fun p => p) tei (Some 7) [lit "tea"] true ∅ r
    (answer (JList [JList [JInt 1]])) None ∅ [[one32]] s _ _ Hr Hs)).
  - intros v cols rs. cbn. destruct v; try discriminate. destruct (mapM row_of l) eqn:Hl; [|destruct (mapM component l); discriminate].
    intros [= <- <-]. exact (mapM_rows l _ Hl).
  - intros v. apply length_fmap.
Defined.

(** The tests of the output and of the cache differ: [np.allclose] adds its default
    relative tolerance, so a vector whose norm is off by 1.5e-5 is served and stored,
    and its entry is a miss on every later request. *)
Theorem accepted_vector_never_hits :
  let v := [0x3F80007E] in
  validate_output_vectors [lit "tea"] (Rank2 1 [v]) 1 = Ok [v] /\ hit 1 (Some (encode_vector v)) = None.
Proof. vm_compute. done. Qed.

(** A reply of numbers instead of rows is a bad gateway from the TEI backend and an
    internal error from a hosted one, which normalizes before it checks the rank. *)
Theorem flat_reply_is_internal_error :
  status_of (backend_embed no_digit no_sort tei (answer (JList [JInt 1])) [lit "tea"]) = 502 /\
  status_of (backend_embed no_digit no_sort openai_backend
    (answer (JObj [(lit "data", JList [JObj [(lit "index", JInt 0); (lit "embedding", JInt 1)]])])) [lit "tea"]) = 500.
Proof. vm_compute. done. Qed.
End EmbedSample.
