(* ===== verification/EmbedStartup.v ===== *)
(** * Startup of the embedder
    ([services/embedder/app/]: [main.py], [factory.py], [config.py], [profiles.py],
    [hosted/providers.py], [tei/protocol.py], [deps.py])

    From validated settings to a service that is ready or refuses: the geometry of
    the profile, the construction of the backend, the health poll of the sidecar, the
    verification of its model and dimensions, the ping of the cache.  What the
    network answers is an argument; URLs are parsed by a parameter. *)

From Stdlib Require Import SpecFloat.
From S2P Require Import Prelude PyText Num ModelClients EmbedService.

Inductive StartupError :=
| ConfigError                        (* ValueError *)
| StartupUnavailable
| GeometryMismatch
| EmbedFailed (e : EmbedError).

Inductive SProfile := cpu | p_gpu | p_hosted.
Inductive SProvider := p_openai | p_cohere | voyage.

Record Settings := {
  profile : SProfile;
  dim : option Z;
  model : option pystr;
  tei_base_url : option pystr;
  tei_api_key : option pystr;
  tei_allow_insecure : bool;
  tei_max_retries : Z;
  api_token : option pystr;
  hosted_provider : SProvider;
  hosted_api_key : option pystr;
  hosted_max_retries : Z;
  cache_enabled : bool;
  cache_redis_url : option pystr;
}.

(** ** Geometry *)

Definition table_get (k : pystr) (t : list (pystr * Z)) : option Z := snd <$> List.find (fun kv => bool_decide (kv.1 = k)) t.

Definition OPENAI_MATRYOSHKA_MAX : list (pystr * Z) :=
  [(lit "text-embedding-3-large", 3072); (lit "text-embedding-3-small", 1536)].
Definition COHERE_FIXED_DIM : list (pystr * Z) :=
  [(lit "embed-english-v3.0", 1024); (lit "embed-multilingual-v3.0", 1024); (lit "embed-english-light-v3.0", 384);
   (lit "embed-multilingual-light-v3.0", 384)].
Definition ADA : pystr := lit "text-embedding-ada-002".

Definition provider_defaults (p : SProvider) : result StartupError (pystr * Z) :=
  match p with
  | p_openai => Ok (lit "text-embedding-3-large", 3072)
  | p_cohere => Ok (lit "embed-english-v3.0", 1024)
  | voyage => Raise StartupUnavailable
  end.

Definition default_dim_for_model (p : SProvider) (model_id : pystr) (default_dim : Z) : Z :=
  match p with
  | p_openai =>
      match table_get model_id OPENAI_MATRYOSHKA_MAX with
      | Some d => d
      | None => if bool_decide (model_id = ADA) then 1536 else default_dim
      end
  | p_cohere => default default_dim (table_get model_id COHERE_FIXED_DIM)
  | voyage => default_dim
  end.

Definition validate_openai_dimensions (model_id : pystr) (d : Z) : result StartupError unit :=
  raise_if match table_get model_id OPENAI_MATRYOSHKA_MAX with Some m => m <? d | None => false end with GeometryMismatch ;;
  raise_if (bool_decide (model_id = ADA) && negb (d =? 1536))%bool with GeometryMismatch ;;
  Ok tt.

Definition validate_cohere_dimensions (model_id : pystr) (d : Z) : result StartupError unit :=
  raise_if match table_get model_id COHERE_FIXED_DIM with Some m => negb (d =? m) | None => false end with GeometryMismatch ;;
  Ok tt.

Definition validate_hosted_dimensions (p : SProvider) (model_id : pystr) (d : Z) : result StartupError unit :=
  raise_if d <? 1 with GeometryMismatch ;;
  match p with
  | p_openai => validate_openai_dimensions model_id d
  | p_cohere => validate_cohere_dimensions model_id d
  | voyage => Ok tt
  end.

(** The [dimensions] of an OpenAI request. *)
Definition openai_request_dimensions (model_id : pystr) (d : Z) : option Z :=
  match table_get model_id OPENAI_MATRYOSHKA_MAX with
  | None => None
  | Some m => if d =? m then None else Some d
  end.

#[global] Arguments table_get : simpl never.

Section Startup.
Context `{UnicodeDB, Numpy} (u_digit : Z -> bool) (sort_mixed : list (Json * Json) -> option (list (Json * Json))).
Context (url_scheme : pystr -> pystr).          (* [urlparse(url).scheme.lower()] *)

Definition blank (t : pystr) : bool := bool_decide (strip_space t = []).

Definition resolve_hosted_geometry (p : SProvider) (model : option pystr) (d : option Z) : result StartupError (Z * pystr) :=
  let* '(default_model, default_dim) := provider_defaults p in
  let model_id := match model with Some m => if blank m then default_model else strip_space m | None => default_model end in
  let dimensions := default (default_dim_for_model p model_id default_dim) d in
  let* _ := validate_hosted_dimensions p model_id dimensions in
  Ok (dimensions, model_id).

Definition default_geometry (p : SProfile) : Z * pystr :=
  match p with
  | cpu => (384, lit "all-MiniLM-L6-v2")
  | p_gpu => (1024, lit "BAAI/bge-m3")
  | p_hosted => (3072, lit "text-embedding-3-large")
  end.

Definition resolved_geometry (s : Settings) : result StartupError (Z * pystr) :=
  match profile s with
  | p_hosted => resolve_hosted_geometry (hosted_provider s) (model s) (dim s)
  | p => let '(d, m) := default_geometry p in Ok (default d (dim s), default m (model s))
  end.

(** ** Settings *)

Definition present (t : option pystr) : bool := match t with Some t => negb (blank t) | None => false end.

Definition require_secure_tei_transport (s : Settings) : result StartupError unit :=
  match tei_base_url s with
  | None => Ok tt
  | Some url =>
      if negb (bool_decide (url_scheme url = lit "http")) then Ok tt
      else
        raise_if negb (tei_allow_insecure s) with ConfigError ;;
        raise_if bool_decide (is_Some (tei_api_key s)) with ConfigError ;;
        Ok tt
  end.

Definition validate_runtime_security (s : Settings) : result StartupError unit :=
  raise_if negb (present (api_token s)) with ConfigError ;;
  let* _ := require_secure_tei_transport s in
  raise_if (match profile s with p_hosted => true | _ => false end && negb (present (hosted_api_key s)))%bool with ConfigError ;;
  raise_if (cache_enabled s && negb (bool_decide (is_Some (cache_redis_url s))))%bool with ConfigError ;;
  Ok tt.

(** ** The backend *)

Inductive Built := Stub (dimensions : Z) (model_id : pystr) | Real (b : Backend).

Definition built_dimensions (b : Built) : Z := match b with Stub d _ => d | Real b => b_dimensions b end.
Definition built_model (b : Built) : pystr := match b with Stub _ m => m | Real b => b_model_id b end.

(** The constructors' checks. *)
Definition checked (d : Z) (m : pystr) (b : Built) : result StartupError Built :=
  raise_if blank m with GeometryMismatch ;; raise_if d <? 1 with GeometryMismatch ;; Ok b.

Definition build_tei_backend (s : Settings) : result StartupError Built :=
  raise_if match tei_base_url s with Some (_ :: _) => false | _ => true end with StartupUnavailable ;;
  let* '(d, m) := resolved_geometry s in
  checked d m (Real {| b_profile := gpu; b_model_id := strip_space m; b_dimensions := d; b_max_retries := tei_max_retries s |}).

Definition build_hosted_backend (s : Settings) : result StartupError Built :=
  let* p := match hosted_provider s with p_openai => Ok openai | p_cohere => Ok cohere | voyage => Raise StartupUnavailable end in
  raise_if negb (present (hosted_api_key s)) with StartupUnavailable ;;
  let* '(d, m) := resolved_geometry s in
  checked d m (Real {| b_profile := hosted p; b_model_id := strip_space m; b_dimensions := d; b_max_retries := hosted_max_retries s |}).

(** [_build_profile_backend] and the check of [_wrap_with_cache]. *)
Definition build_backend (s : Settings) : result StartupError Built :=
  let* inner := match profile s with
                | p_gpu => build_tei_backend s
                | p_hosted => build_hosted_backend s
                | cpu => let* '(d, m) := resolved_geometry s in checked d m (Stub d m)
                end in
  raise_if (cache_enabled s && negb (bool_decide (is_Some (cache_redis_url s))))%bool with StartupUnavailable ;;
  Ok inner.

(** ** Checks against the network *)

(** [_wait_for_tei_health]: what each round of the loop sees, the time that remains
    before and after the poll and whether the sidecar is healthy. *)
Fixpoint wait_for_tei_health (rounds : list (Z * bool * Z)) : result StartupError unit :=
  match rounds with
  | [] => Raise StartupUnavailable
  | (before, healthy, after) :: rounds =>
      if before <=? 0 then Raise StartupUnavailable
      else if healthy : bool then Ok tt
      else if after <=? 0 then Raise StartupUnavailable
      else wait_for_tei_health rounds
  end.

Definition truthy (v : Json) : bool :=
  match v with
  | JNull | JBool false | JStr [] | JList [] | JObj [] => false
  | JInt z => negb (z =? 0)
  | JFloat x => negb (SFeqb x (S754_zero false))
  | _ => true
  end.

(** [TeiClient.info] *)
Definition tei_info (o : HttpOutcome) : result StartupError Json :=
  match o with
  | TimedOut => Raise (EmbedFailed BackendTimeout)
  | TransportFailed => Raise (EmbedFailed (BackendUnavailable false))
  | Responded status _ body =>
      if negb (status =? 200) then Raise (EmbedFailed (BackendUnavailable false))
      else match body with Some v => Ok v | None => Raise ConfigError end
  end.

Definition parse_info_response (body : Json) : option Json :=
  match body with
  | JObj o =>
      let a := obj_get (lit "model_id") o in let b := obj_get (lit "model_id_or_path") o in
      if truthy a then Some a else if truthy b then Some b else None
  | _ => None
  end.

Definition positive_int (v : Json) : option Z :=
  match v with JInt z => if 0 <? z then Some z else None | JBool true => Some 1 | _ => None end.

Definition parse_info_dimensions (body : Json) : option Z :=
  match body with
  | JObj o => head (omap (fun k => positive_int (obj_get k o)) [lit "dim"; lit "embedding_size"; lit "hidden_size"])
  | _ => None
  end.

Definition assert_tei_model_id (b : Backend) (info : Json) : result StartupError unit :=
  match parse_info_response info with
  | None => Raise StartupUnavailable
  | Some (JStr m) => raise_if negb (bool_decide (m = b_model_id b)) with GeometryMismatch ;; Ok tt
  | Some _ => Raise GeometryMismatch
  end.

Definition assert_info_dimensions (b : Backend) (info : Json) : result StartupError unit :=
  match parse_info_dimensions info with
  | Some d => raise_if negb (d =? b_dimensions b) with GeometryMismatch ;; Ok tt
  | None => Ok tt
  end.

(** [_assert_probe_dimensions] on an array of rank 2. *)
Definition assert_probe_dimensions (rows : list Vec) (want : Z) : result StartupError unit :=
  raise_if negb (forallb (fun r => Z.of_nat (length r) =? want) rows) with GeometryMismatch ;; Ok tt.

Definition PROBE : list pystr := [lit "ibex-geometry-probe"].

Record Network := {
  rounds : list (Z * bool * Z);
  info : HttpOutcome;
  probe : nat -> HttpOutcome;
  ping_ok : bool;
}.

Definition verify_tei_geometry (b : Backend) (n : Network) : result StartupError unit :=
  let* i := tei_info (info n) in
  let* _ := assert_tei_model_id b i in
  let* _ := assert_info_dimensions b i in
  match backend_embed u_digit sort_mixed b (probe n) PROBE with
  | Raise e => Raise (EmbedFailed e)
  | Ok rows => assert_probe_dimensions rows (b_dimensions b)
  end.

Definition verify_hosted_geometry (b : Backend) (n : Network) : result StartupError unit :=
  match backend_embed u_digit sort_mixed b (probe n) PROBE with
  | Raise InvalidVector => Raise GeometryMismatch
  | Raise e => Raise (EmbedFailed e)
  | Ok rows => assert_probe_dimensions rows (b_dimensions b)
  end.

(** [validate_geometry] *)
Definition validate_geometry (b : Built) (want_dim : Z) (want_model : pystr) : result StartupError unit :=
  raise_if ((want_dim <? 1) || blank want_model)%bool with GeometryMismatch ;;
  raise_if negb (built_dimensions b =? want_dim) with GeometryMismatch ;;
  raise_if negb (bool_decide (strip_space (built_model b) = strip_space want_model)) with GeometryMismatch ;;
  Ok tt.

(** [_startup]: the backend of a service that is ready. *)
Definition startup (s : Settings) (n : Network) : result StartupError Built :=
  let* _ := validate_runtime_security s in
  let* built := build_backend s in
  let* _ := match built with
            | Stub _ _ => Ok tt
            | Real b =>
                match b_profile b with
                | gpu => let* _ := wait_for_tei_health (rounds n) in verify_tei_geometry b n
                | hosted _ => verify_hosted_geometry b n
                end
            end in
  raise_if (cache_enabled s && negb (ping_ok n))%bool with StartupUnavailable ;;
  let* '(want_dim, want_model) := resolved_geometry s in
  let* _ := validate_geometry built want_dim want_model in
  Ok built.

(** [require_service_auth]: the scheme, lower-cased, and the credentials. *)
Definition require_service_auth (s : Settings) (credentials : option (pystr * pystr)) : bool :=
  let expected := default [] (api_token s) in
  match credentials with
  | Some (scheme, token) =>
      (bool_decide (scheme = lit "bearer") && negb (bool_decide (expected = [])) && bool_decide (token = expected))%bool
  | None => false
  end.
End Startup.

(** ** A ready service *)

(** The dimension an operator's model has, where the catalog knows it. *)
Definition catalog_admits (p : SProvider) (m : pystr) (d : Z) : Prop :=
  match p with
  | p_openai => (forall k, table_get m OPENAI_MATRYOSHKA_MAX = Some k -> 1 <= d <= k) /\ (m = ADA -> d = 1536)
  | p_cohere => forall k, table_get m COHERE_FIXED_DIM = Some k -> d = k
  | voyage => False
  end.

Section Ready.
Context `{UnicodeDB, Numpy} (u_digit : Z -> bool) (sort_mixed : list (Json * Json) -> option (list (Json * Json))).
Context (url_scheme : pystr -> pystr).

Lemma dimensions_admitted p m d u : validate_hosted_dimensions p m d = Ok u -> p <> voyage -> catalog_admits p m d.
Proof.
  unfold validate_hosted_dimensions. case_match eqn:Hd; [done|]. apply Z.ltb_ge in Hd. intros Hv Hp.
  destruct p; [| |done]; unfold catalog_admits.
  - unfold validate_openai_dimensions in Hv. destruct (table_get m OPENAI_MATRYOSHKA_MAX) as [k|] eqn:Hk.
    + destruct (Z.ltb_spec k d); [done|]. case_match eqn:H2; [done|]. split; [intros ? [= <-]; lia|].
      intros Ha. rewrite bool_decide_true in H2 by done. by apply negb_false_iff, Z.eqb_eq in H2.
    + case_match eqn:H2; [done|]. split; [done|].
      intros Ha. rewrite bool_decide_true in H2 by done. by apply negb_false_iff, Z.eqb_eq in H2.
  - unfold validate_cohere_dimensions in Hv. intros k Hk. rewrite Hk in Hv. by destruct (Z.eqb_spec d k).
Qed.

Lemma hosted_geometry_admitted p m d d' m' :
  resolve_hosted_geometry p m d = Ok (d', m') -> catalog_admits p m' d'.
Proof.
  unfold resolve_hosted_geometry. intros ([dm dd] & Hp & (u & Hv & He)%rbind_Ok)%rbind_Ok.
  apply (dimensions_admitted _ _ _ u); [|by intros ->]. by injection He as <- <-.
Qed.

Lemma checked_Ok d m b b' : checked d m b = Ok b' -> b' = b.
Proof. unfold checked. repeat (case_match; try done). by intros [= ->]. Qed.

(** What [build_backend] builds for a profile. *)
Lemma build_backend_Ok s b :
  build_backend s = Ok b ->
  match profile s with
  | cpu => exists d m, b = Stub d m
  | p_gpu => exists r, b = Real r /\ b_profile r = gpu
  | p_hosted => exists r p, b = Real r /\ b_profile r = hosted p
  end.
Proof.
  unfold build_backend. intros (i & Hi & Hw)%rbind_Ok. case_match; [done|]. injection Hw as ->. destruct (profile s).
  - apply rbind_Ok in Hi as ([d m] & _ & ->%checked_Ok). eauto.
  - unfold build_tei_backend in Hi. case_match; [done|]. apply rbind_Ok in Hi as ([d m] & _ & ->%checked_Ok). eauto.
  - apply rbind_Ok in Hi as (p & _ & Hi). case_match; [done|]. apply rbind_Ok in Hi as ([d m] & _ & ->%checked_Ok). eauto.
Qed.

Lemma assert_tei_model_id_Ok b i : assert_tei_model_id b i = Ok tt -> parse_info_response i = Some (JStr (b_model_id b)).
Proof. unfold assert_tei_model_id. repeat (case_match; try done). bools. by subst. Qed.

Lemma validate_geometry_Ok b d m :
  validate_geometry b d m = Ok tt -> d = built_dimensions b /\ strip_space (built_model b) = strip_space m.
Proof. unfold validate_geometry. repeat (case_match; try done). bools. intros _. split; [lia|done]. Qed.

Lemma security_Ok s u :
  validate_runtime_security url_scheme s = Ok u ->
  present (api_token s) = true /\
  (forall url, tei_base_url s = Some url -> url_scheme url = lit "http" -> tei_api_key s = None).
Proof.
  unfold validate_runtime_security. case_match eqn:Ht; [done|]. intros (? & Hx & _)%rbind_Ok. apply negb_false_iff in Ht.
  split; [done|]. intros url Hu Hs. unfold require_secure_tei_transport in Hx. rewrite Hu, Hs, bool_decide_true in Hx by done.
  cbn [negb] in Hx. case_match; [done|]. case_match eqn:Hk; [done|]. apply bool_decide_eq_false in Hk.
  by apply eq_None_not_Some.
Qed.

(** A service that reports ready has verified what it serves: its backend has the
    dimension and the model of the settings, is the stub only under the cpu profile,
    and has embedded a probe text; a sidecar has also named the configured model, and
    a hosted model has a dimension its provider's catalog admits.  The service has a
    token, sends no key of the sidecar over cleartext, and its cache has answered. *)
Theorem ready_backend_is_verified s n b :
  startup u_digit sort_mixed url_scheme s n = Ok b ->
  exists m, resolved_geometry s = Ok (built_dimensions b, m) /\ strip_space (built_model b) = strip_space m /\
  present (api_token s) = true /\
  (forall url, tei_base_url s = Some url -> url_scheme url = lit "http" -> tei_api_key s = None) /\
  (cache_enabled s = true -> ping_ok n = true) /\
  match b with
  | Stub _ _ => profile s = cpu
  | Real r =>
      (exists rows, backend_embed u_digit sort_mixed r (probe n) PROBE = Ok rows) /\
      match b_profile r with
      | gpu => profile s = p_gpu /\ exists i, tei_info (info n) = Ok i /\ parse_info_response i = Some (JStr (b_model_id r))
      | hosted _ => profile s = p_hosted /\ catalog_admits (hosted_provider s) m (b_dimensions r)
      end
  end.
Proof.
  unfold startup. intros (? & Hsec & (b' & Hb & (? & Hnet & Hrest)%rbind_Ok)%rbind_Ok)%rbind_Ok.
  case_match eqn:Hping; [done|]. apply rbind_Ok in Hrest as ([d m] & Hg & ([] & Hv & [= ->])%rbind_Ok).
  apply validate_geometry_Ok in Hv as [-> Hm]. apply security_Ok in Hsec as [Htok Hhttp].
  exists m. split; [done|]. split; [done|]. split; [done|]. split; [done|].
  split; [intros Hc; rewrite Hc in Hping; by apply negb_false_iff in Hping|].
  apply build_backend_Ok in Hb. destruct (profile s) eqn:Hp.
  - by destruct Hb as (? & ? & ->).
  - destruct Hb as (r & -> & Hr). rewrite Hr in *. apply rbind_Ok in Hnet as (? & _ & (i & Hi & ([] & Hid & Hrest)%rbind_Ok)%rbind_Ok).
    apply rbind_Ok in Hrest as (? & _ & Hrest). split; [case_match; [eauto|done]|]. split; [done|]. exists i. split; [done|].
    by apply assert_tei_model_id_Ok.
  - destruct Hb as (r & p & -> & Hr). rewrite Hr in *. unfold verify_hosted_geometry in Hnet.
    split; [case_match; [eauto|by case_match]|]. split; [done|]. unfold resolved_geometry in Hg. rewrite Hp in Hg.
    by apply hosted_geometry_admitted in Hg.
Qed.
End Ready.

(** ** A ready sidecar *)

Module StartupSample.
#[local] Existing Instance ascii_db.
#[local] Existing Instance EmbedSample.one_component.

Definition settings : Settings :=
  {| profile := p_gpu; dim := Some 1; model := Some (lit "bge"); tei_base_url := Some (lit "https://tei"); tei_api_key := None;
     tei_allow_insecure := false; tei_max_retries := 0; api_token := Some (lit "t"); hosted_provider := p_openai;
     hosted_api_key := None; hosted_max_retries := 0; cache_enabled := true; cache_redis_url := Some (lit "redis://r") |}.

(** Healthy on the second poll. *)
Definition network : Network :=
  {| rounds := [(30, false, 29); (28, true, 27)];
     info := Responded 200 None (Some (JObj [(lit "model_id", JStr (lit "bge"))]));
     probe := EmbedSample.answer (JList [JList [JInt 1]]); ping_ok := true |}.

Definition scheme (url : pystr) : pystr := take 5 url.

Lemma ready_backend_is_verified_witness :
  startup EmbedSample.no_digit EmbedSample.no_sort scheme settings network = Ok (Real EmbedSample.tei) /\
  exists rows, backend_embed EmbedSample.no_digit EmbedSample.no_sort EmbedSample.tei (probe network) PROBE = Ok rows.
Proof.
  assert (startup EmbedSample.no_digit EmbedSample.no_sort scheme settings network = Ok (Real EmbedSample.tei)) as Hs
    by (vm_compute; reflexivity).
  split; [exact Hs|].
  destruct (ready_backend_is_verified EmbedSample.no_digit EmbedSample.no_sort scheme settings network _ Hs)
    as (m & _ & _ & _ & _ & _ & Hrows & _). exact Hrows.
Defined.
End StartupSample.
