(* ===== verification/ModelPolicy.v ===== *)
(** * Model policies of an organization
    ([services/api/app/services/model_policies.py], [services/api/app/schemas/]:
    [model_policies.py], [model_pattern_normalize.py], [model_pattern_glob.py],
    [model_pattern_charclass.py])

    The scanner that decides whether Go's [filepath.Match] accepts a pattern, the
    normalization of requests, and the policy table with the epoch that tells the
    proxies to reload.  A position in a pattern is the text from it on. *)

From S2P Require Import Prelude PyText.

(** ** The scanner *)

Inductive PatternError := TrailingBackslash | InvalidClassItem | UnclosedClass | EmptyClass.

Abbreviation BACKSLASH := 92.
Abbreviation OPEN := 91.
Abbreviation CLOSE := 93.
Abbreviation CARET := 94.
Abbreviation DASH := 45.

Definition get_esc_backslash (s : pystr) : result PatternError pystr :=
  match s with
  | [] => Raise TrailingBackslash
  | [_] => Raise InvalidClassItem
  | _ :: r => Ok r
  end.

Definition consume_plain (r : pystr) : result PatternError pystr :=
  match r with [] => Raise InvalidClassItem | _ => Ok r end.

Definition get_esc (s : pystr) : result PatternError pystr :=
  match s with
  | [] => Raise InvalidClassItem
  | c :: r =>
      if ((c =? DASH) || (c =? CLOSE))%bool then Raise InvalidClassItem
      else if c =? BACKSLASH then get_esc_backslash r
      else consume_plain r
  end.

Definition maybe_range (s : pystr) : result PatternError pystr :=
  match s with
  | c :: r => if c =? DASH then get_esc r else Ok s
  | [] => Ok s
  end.

Definition scan_class_item (s : pystr) : result PatternError pystr := let* s := get_esc s in maybe_range s.

(** The loop of [_scan_class_contents]; [nrange] is whether an item was read.  Every
    item is at least one character, so the length of the text bounds the rounds. *)
Fixpoint scan_class_contents (fuel : nat) (nrange : bool) (s : pystr) : result PatternError pystr :=
  match s, fuel with
  | [], _ => Raise UnclosedClass
  | c :: r, S fuel =>
      if ((c =? CLOSE) && nrange)%bool then Ok r
      else let* s := scan_class_item s in scan_class_contents fuel true s
  | _, O => Raise UnclosedClass
  end.

Definition skip_negation (s : pystr) : pystr :=
  match s with c :: r => if c =? CARET then r else s | [] => s end.

Definition skip_character_class (s : pystr) : result PatternError pystr :=
  match skip_negation s with
  | [] => Raise UnclosedClass
  | c :: r => if c =? CLOSE then Raise EmptyClass else scan_class_contents (length (c :: r)) false (c :: r)
  end.

Definition skip_escape (s : pystr) : result PatternError pystr :=
  match s with [] => Raise TrailingBackslash | _ :: r => Ok r end.

Definition advance_pattern (c : Z) (r : pystr) : result PatternError pystr :=
  if c =? BACKSLASH then skip_escape r else if c =? OPEN then skip_character_class r else Ok r.

Fixpoint match_error_loop (fuel : nat) (s : pystr) : option PatternError :=
  match s, fuel with
  | [], _ => None
  | c :: r, S fuel => match advance_pattern c r with Ok s => match_error_loop fuel s | Raise e => Some e end
  | _, O => None
  end.

Definition go_filepath_match_error (pattern : pystr) : option PatternError := match_error_loop (length pattern) pattern.

(** ** The grammar of [filepath.Match] *)

(** A character of a class, plain or escaped. *)
Inductive class_char : pystr -> Prop :=
| cc_plain c : c <> DASH -> c <> CLOSE -> c <> BACKSLASH -> class_char [c]
| cc_escaped c : class_char [BACKSLASH; c].

Inductive class_item : pystr -> Prop :=
| ci_single p : class_char p -> class_item p
| ci_range lo hi : class_char lo -> class_char hi -> class_item (lo ++ DASH :: hi).

Inductive class_items : pystr -> Prop :=
| cis_one p : class_item p -> class_items p
| cis_more p q : class_item p -> class_items q -> class_items (p ++ q).

Inductive term : pystr -> Prop :=
| t_char c : c <> BACKSLASH -> c <> OPEN -> term [c]
| t_escaped c : term [BACKSLASH; c]
| t_negated p : class_items p -> term (OPEN :: CARET :: p ++ [CLOSE])
| t_class p : class_items p -> head p <> Some CARET -> term (OPEN :: p ++ [CLOSE]).

Inductive glob : pystr -> Prop :=
| g_nil : glob []
| g_term p q : term p -> glob q -> glob (p ++ q).

(** ** The scanner accepts the grammar *)

Lemma get_esc_Ok s r : get_esc s = Ok r <-> exists p, s = p ++ r /\ class_char p /\ r <> [].
Proof.
  split.
  - unfold get_esc. destruct s as [|c s]; [done|]. destruct (_ || _)%bool eqn:Hc; [done|].
    apply orb_false_iff in Hc as [H1%Z.eqb_neq H2%Z.eqb_neq]. destruct (Z.eqb_spec c BACKSLASH) as [->|H3].
    + destruct s as [|d [|e s]]; [done..|]. intros [= <-]. exists [BACKSLASH; d]. by repeat constructor.
    + destruct s as [|d s]; [done|]. intros [= <-]. exists [c]. split; [done|]. split; [by constructor|done].
  - intros (p & -> & Hp & Hr). destruct r as [|d r]; [done|]. destruct Hp as [c H1 H2 H3|c].
    + cbn. rewrite (proj2 (Z.eqb_neq _ _) H1), (proj2 (Z.eqb_neq _ _) H2), (proj2 (Z.eqb_neq _ _) H3). done.
    + done.
Qed.

Lemma class_char_head p : class_char p -> exists c q, p = c :: q /\ c <> DASH /\ c <> CLOSE.
Proof. destruct 1; eexists _, _; done. Qed.

Lemma scan_class_item_sound s r : scan_class_item s = Ok r -> exists p, s = p ++ r /\ class_item p.
Proof.
  intros (s' & (p & -> & Hp & Hs')%get_esc_Ok & Hm)%rbind_Ok. destruct s' as [|c s']; [done|]. cbn in Hm.
  destruct (Z.eqb_spec c DASH) as [->|].
  - apply get_esc_Ok in Hm as (q & -> & Hq & _). exists (p ++ DASH :: q). split; [by rewrite <- app_assoc|by constructor].
  - injection Hm as <-. exists p. split; [done|by constructor].
Qed.

Lemma scan_class_item_complete p r : class_item p -> r <> [] -> head r <> Some DASH -> scan_class_item (p ++ r) = Ok r.
Proof.
  intros Hp Hr Hd. apply rbind_Ok. destruct Hp as [p Hp|lo hi Hlo Hhi].
  - exists r. split; [apply get_esc_Ok; by exists p|]. destruct r as [|c r]; [done|]. cbn.
    destruct (Z.eqb_spec c DASH) as [->|]; done.
  - rewrite <- app_assoc. exists (DASH :: hi ++ r). split; [apply get_esc_Ok; by exists lo|].
    cbn. apply get_esc_Ok. by exists hi.
Qed.

Lemma scan_class_item_rest s r : scan_class_item s = Ok r -> r <> [] /\ (length r < length s)%nat.
Proof.
  intros (s' & (p & -> & Hp & Hs')%get_esc_Ok & Hm)%rbind_Ok. apply class_char_head in Hp as (c & q & -> & _).
  destruct s' as [|d s']; [done|]. cbn in Hm. destruct (d =? DASH).
  - apply get_esc_Ok in Hm as (h & -> & _ & Hr). split; [done|]. cbn. rewrite !length_app. cbn. rewrite length_app. lia.
  - injection Hm as <-. split; [done|]. cbn. rewrite length_app. cbn. lia.
Qed.

Lemma class_item_head p : class_item p -> exists c q, p = c :: q /\ c <> DASH /\ c <> CLOSE.
Proof.
  destruct 1 as [p Hp|lo hi Hlo _]; [by apply class_char_head|].
  apply class_char_head in Hlo as (c & q & -> & ? & ?). by exists c, (q ++ DASH :: hi).
Qed.

Lemma class_items_head p : class_items p -> exists c q, p = c :: q /\ c <> DASH /\ c <> CLOSE.
Proof.
  destruct 1 as [p Hp|p q Hp _]; [by apply class_item_head|].
  apply class_item_head in Hp as (c & p' & -> & ? & ?). by exists c, (p' ++ q).
Qed.

Lemma scan_class_contents_sound fuel : forall nrange s r, scan_class_contents fuel nrange s = Ok r ->
  exists p, s = p ++ CLOSE :: r /\ (class_items p \/ p = [] /\ nrange = true).
Proof.
  induction fuel as [|fuel IH]; intros nrange [|c s] r; [done..|]. cbn [scan_class_contents].
  destruct ((c =? CLOSE) && nrange)%bool eqn:Hc.
  { apply andb_prop in Hc as [->%Z.eqb_eq ->]. intros [= <-]. exists []. split; [done|by right]. }
  intros (s' & (p & -> & Hp)%scan_class_item_sound & (q & -> & Hq)%IH)%rbind_Ok. exists (p ++ q).
  split; [by rewrite <- app_assoc|]. left. destruct Hq as [Hq|[-> _]]; [by constructor|]. rewrite app_nil_r. by constructor.
Qed.

Lemma scan_class_contents_complete p : class_items p -> forall fuel nrange r,
  (length (p ++ CLOSE :: r) <= fuel)%nat -> scan_class_contents fuel nrange (p ++ CLOSE :: r) = Ok r.
Proof.
  assert (forall fuel r, (length (CLOSE :: r) <= fuel)%nat -> scan_class_contents fuel true (CLOSE :: r) = Ok r) as Hclose.
  { intros [|fuel] r Hf; [cbn in Hf; lia|done]. }
  assert (forall p t fuel nrange r, class_item p -> t <> [] -> head t <> Some DASH ->
            (forall fuel, (length t <= fuel)%nat -> scan_class_contents fuel true t = Ok r) ->
            (length (p ++ t) <= fuel)%nat -> scan_class_contents fuel nrange (p ++ t) = Ok r) as Hitem.
  { clear. intros p t fuel nrange r Hp Ht Hd Hrest Hf.
    pose proof (scan_class_item_complete p t Hp Ht Hd) as Hs. pose proof (scan_class_item_rest _ _ Hs) as [_ Hlt].
    destruct (class_item_head p Hp) as (c & q & -> & _ & Hc). destruct fuel as [|fuel]; [cbn in Hf; lia|].
    cbn [app scan_class_contents]. rewrite (proj2 (Z.eqb_neq _ _) Hc). cbn [andb].
    change (c :: q ++ t) with ((c :: q) ++ t). rewrite Hs. cbn [rbind]. apply Hrest. lia. }
  induction 1 as [p Hp|p q Hp Hq IH]; intros fuel nrange r Hf.
  - apply Hitem; [done..|auto|done].
  - rewrite <- app_assoc in Hf |- *. destruct (class_items_head q Hq) as (c & q' & -> & Hc & _).
    apply Hitem; [done|done|cbn; congruence|auto|done].
Qed.

Lemma skip_character_class_Ok s r :
  skip_character_class s = Ok r <->
  exists p, class_items p /\ (s = CARET :: p ++ CLOSE :: r \/ (s = p ++ CLOSE :: r /\ head p <> Some CARET)).
Proof.
  unfold skip_character_class. split.
  - intros Hs. assert (exists p, class_items p /\ skip_negation s = p ++ CLOSE :: r) as (p & Hp & He).
    { destruct (skip_negation s) as [|c t]; [done|]. destruct (c =? CLOSE) eqn:Hc; [done|].
      apply scan_class_contents_sound in Hs as (p & -> & [Hp|[-> ?]]); [by exists p|done]. }
    exists p. split; [done|]. unfold skip_negation in He. destruct s as [|c t]; [by destruct p|].
    destruct (Z.eqb_spec c CARET) as [->|Hc]; [left; by rewrite He|]. right. split; [done|].
    destruct p; injection He as -> ->; cbn; congruence.
  - intros (p & Hp & Hs). assert (skip_negation s = p ++ CLOSE :: r) as ->.
    { destruct Hs as [->|[-> Hh]]; [done|]. destruct (class_items_head p Hp) as (c & q & -> & _). cbn.
      destruct (Z.eqb_spec c CARET) as [->|]; [by cbn in Hh|done]. }
    destruct (class_items_head p Hp) as (c & q & -> & _ & Hc). cbn [app]. rewrite (proj2 (Z.eqb_neq _ _) Hc).
    by apply (scan_class_contents_complete (c :: q)).
Qed.

Lemma advance_pattern_Ok c s r : advance_pattern c s = Ok r <-> exists p, c :: s = p ++ r /\ term p.
Proof.
  unfold advance_pattern. split.
  - destruct (Z.eqb_spec c BACKSLASH) as [->|H1].
    { destruct s as [|d s]; [done|]. intros [= <-]. exists [BACKSLASH; d]. split; [done|constructor]. }
    destruct (Z.eqb_spec c OPEN) as [->|H2]; [|intros [= <-]; exists [c]; split; [done|by constructor]].
    intros (p & Hp & [->|[-> Hh]])%skip_character_class_Ok.
    + exists (OPEN :: CARET :: p ++ [CLOSE]). split; [cbn; by rewrite <- app_assoc|by constructor].
    + exists (OPEN :: p ++ [CLOSE]). split; [cbn; by rewrite <- app_assoc|by constructor].
  - intros (p & He & Ht). destruct Ht as [d H1 H2|d|p Hp|p Hp Hh]; cbn in He; injection He as -> ->.
    + by rewrite (proj2 (Z.eqb_neq _ _) H1), (proj2 (Z.eqb_neq _ _) H2).
    + done.
    + cbn. apply skip_character_class_Ok. exists p. split; [done|]. left. by rewrite <- app_assoc.
    + cbn. apply skip_character_class_Ok. exists p. split; [done|]. right. by rewrite <- app_assoc.
Qed.

Lemma term_nonempty p : term p -> p <> [].
Proof. by destruct 1. Qed.

Lemma match_error_loop_None fuel : forall s, (length s <= fuel)%nat -> match_error_loop fuel s = None <-> glob s.
Proof.
  induction fuel as [|fuel IH]; intros [|c s] Hf; cbn [match_error_loop]; try (split; [constructor|done]); [cbn in Hf; lia|].
  destruct (advance_pattern c s) as [r|e] eqn:Ha.
  - apply advance_pattern_Ok in Ha as Hp. destruct Hp as (p & He & Ht). pose proof (term_nonempty p Ht).
    assert (length r < length (c :: s))%nat as Hlt by (rewrite He, length_app; destruct p; [done|cbn; lia]).
    rewrite IH by lia. split.
    + intros Hg. rewrite He. by constructor.
    + intros Hg. inversion Hg as [|p' q Hp' Hq He']. subst.
      assert (advance_pattern c s = Ok q) as Hq' by (apply advance_pattern_Ok; by exists p'). congruence.
  - split; [done|]. intros Hg. inversion Hg as [|p q Hp Hq He].
    assert (advance_pattern c s = Ok q) as Hq' by (apply advance_pattern_Ok; by exists p). congruence.
Qed.

(** C32: the scanner of the management API decides the pattern grammar of Go's
    [filepath.Match]: it finds no error in a pattern exactly when the pattern is a
    sequence of terms, each a character, an escaped character or a closed class of
    at least one character or range. *)
Theorem scanner_decides_grammar pattern : go_filepath_match_error pattern = None <-> glob pattern.
Proof. by apply match_error_loop_None. Qed.

(** ** Requests ([model_policies.py], [model_pattern_normalize.py]) *)

Definition MAX_PATTERN_LEN : Z := 256.
Definition MODEL_ID_MAX : Z := 256.
Definition FALLBACK_CHAIN_MAX : Z := 8.
Definition PRIORITY_MAX : Z := 1000000.

Inductive ApiError := ValidationError | PatternConflict | NotFound.

#[global] Instance PolicyError_eq_dec : EqDecision ApiError.
Proof. solve_decision. Defined.

Record Policy := {
  p_org : Z;
  p_pattern : pystr;
  p_allowed : bool;
  p_priority : Z;
  p_fallback : list pystr;
}.

#[global] Instance Policy_eq_dec : EqDecision Policy.
Proof. solve_decision. Defined.

(** The table, the epochs, and what reached the channel. *)
Record State := { policies : gmap Z Policy; epochs : gmap Z Z; published : list (Z * Z) }.

Section Policies.
Context `{UnicodeDB} (golden_reject : list pystr).

Definition normalize_model_pattern (pattern : pystr) : result ApiError pystr :=
  let normalized := strip_space pattern in
  raise_if bool_decide (normalized = []) with ValidationError ;;
  raise_if MAX_PATTERN_LEN <? Z.of_nat (length normalized) with ValidationError ;;
  raise_if bool_decide (normalized ∈ golden_reject) with ValidationError ;;
  match go_filepath_match_error normalized with Some _ => Raise ValidationError | None => Ok normalized end.

Definition normalize_fallback_entry (raw : pystr) : result ApiError pystr :=
  let m := strip_space raw in
  raise_if bool_decide (m = []) with ValidationError ;;
  raise_if MODEL_ID_MAX <? Z.of_nat (length m) with ValidationError ;;
  Ok m.

Definition normalize_fallback_chain (chain : list pystr) : result ApiError (list pystr) :=
  raise_if FALLBACK_CHAIN_MAX <? Z.of_nat (length chain) with ValidationError ;;
  rmap normalize_fallback_entry chain.

Definition check_priority (p : Z) : result ApiError Z :=
  if ((- PRIORITY_MAX <=? p) && (p <=? PRIORITY_MAX))%bool then Ok p else Raise ValidationError.

Definition optional {A B} (f : A -> result ApiError B) (x : option A) : result ApiError (option B) :=
  match x with Some x => let* y := f x in Ok (Some y) | None => Ok None end.

Record PolicyCreate := { c_pattern : pystr; c_allowed : bool; c_priority : Z; c_fallback : list pystr }.
Record PolicyPatch := {
  u_pattern : option pystr;
  u_allowed : option bool;
  u_priority : option Z;
  u_fallback : option (list pystr);
}.

(** [ModelPolicyCreate] and [ModelPolicyPatch] after validation. *)
Definition validate_create (b : PolicyCreate) : result ApiError PolicyCreate :=
  let* pattern := normalize_model_pattern (c_pattern b) in
  let* priority := check_priority (c_priority b) in
  let* chain := normalize_fallback_chain (c_fallback b) in
  Ok {| c_pattern := pattern; c_allowed := c_allowed b; c_priority := priority; c_fallback := chain |}.

Definition validate_patch (b : PolicyPatch) : result ApiError PolicyPatch :=
  let* pattern := optional normalize_model_pattern (u_pattern b) in
  let* priority := optional check_priority (u_priority b) in
  let* chain := optional normalize_fallback_chain (u_fallback b) in
  Ok {| u_pattern := pattern; u_allowed := u_allowed b; u_priority := priority; u_fallback := chain |}.

(** ** The table ([services/model_policies.py]) *)

(** [UNIQUE (org_id, model_pattern)] against the rows other than [i]. *)
Definition pattern_taken (t : gmap Z Policy) (i org : Z) (pattern : pystr) : bool :=
  existsb (fun ip => negb (ip.1 =? i) && (p_org ip.2 =? org) && bool_decide (p_pattern ip.2 = pattern))%bool (map_to_list t).

Definition get_policy (t : gmap Z Policy) (org i : Z) : result ApiError Policy :=
  match t !! i with
  | Some p => if p_org p =? org then Ok p else Raise NotFound
  | None => Raise NotFound
  end.

(** [_bump_policy_epoch]: the first change of an organization makes epoch 2. *)
Definition epoch_of (org : Z) (e : gmap Z Z) : Z := default 1 (e !! org).
Definition bump_policy_epoch (org : Z) (e : gmap Z Z) : gmap Z Z := <[org := epoch_of org e + 1]> e.

(** The commit of a change and [_publish_best_effort]. *)
Definition commit (org : Z) (t : gmap Z Policy) (publish_ok : bool) (st : State) : State :=
  let e := bump_policy_epoch org (epochs st) in
  {| policies := t; epochs := e;
     published := if publish_ok then published st ++ [(org, epoch_of org e)] else published st |}.

(** [create_policy]; the id [i] is drawn by the database. *)
Definition create_policy (org i : Z) (b : PolicyCreate) (publish_ok : bool) (st : State) : result ApiError State :=
  let* b := validate_create b in
  raise_if pattern_taken (policies st) i org (c_pattern b) with PatternConflict ;;
  Ok (commit org (<[i := {| p_org := org; p_pattern := c_pattern b; p_allowed := c_allowed b; p_priority := c_priority b;
                            p_fallback := c_fallback b |}]> (policies st)) publish_ok st).

Definition patch_has_fields (b : PolicyPatch) : bool :=
  match u_pattern b, u_allowed b, u_priority b, u_fallback b with None, None, None, None => false | _, _, _, _ => true end.

(** [_UPDATE_SQL] *)
Definition patched (b : PolicyPatch) (p : Policy) : Policy :=
  {| p_org := p_org p; p_pattern := default (p_pattern p) (u_pattern b); p_allowed := default (p_allowed p) (u_allowed b);
     p_priority := default (p_priority p) (u_priority b); p_fallback := default (p_fallback p) (u_fallback b) |}.

Definition patch_policy (org i : Z) (b : PolicyPatch) (publish_ok : bool) (st : State) : result ApiError State :=
  let* b := validate_patch b in
  let* p := get_policy (policies st) org i in
  if negb (patch_has_fields b) then Ok st
  else
    raise_if pattern_taken (policies st) i org (p_pattern (patched b p)) with PatternConflict ;;
    Ok (commit org (<[i := patched b p]> (policies st)) publish_ok st).

Definition delete_policy (org i : Z) (publish_ok : bool) (st : State) : result ApiError State :=
  let* _ := get_policy (policies st) org i in
  Ok (commit org (delete i (policies st)) publish_ok st).

Inductive Op :=
| Create (org i : Z) (b : PolicyCreate) (publish_ok : bool)
| Patch (org i : Z) (b : PolicyPatch) (publish_ok : bool)
| Delete (org i : Z) (publish_ok : bool).

Definition op_org (op : Op) : Z := match op with Create o _ _ _ | Patch o _ _ _ | Delete o _ _ => o end.

(** A refused request changes nothing; a created row has a new id. *)
Definition exec (op : Op) (st : State) : State :=
  match (match op with
         | Create org i b ok => match policies st !! i with None => create_policy org i b ok st | Some _ => Raise PatternConflict end
         | Patch org i b ok => patch_policy org i b ok st
         | Delete org i ok => delete_policy org i ok st
         end) with
  | Ok st' => st'
  | Raise _ => st
  end.

Fixpoint run (ops : list Op) (st : State) : State := match ops with [] => st | op :: ops => run ops (exec op st) end.

Definition empty : State := {| policies := ∅; epochs := ∅; published := [] |}.

(** The policies a proxy loads for an organization. *)
Definition policies_of (org : Z) (st : State) : gmap Z Policy := filter (fun ip => p_org ip.2 = org) (policies st).

(** A row a proxy can load: a pattern that [filepath.Match] accepts, no longer than
    the column, a bounded priority and fallback chain. *)
Definition loadable (p : Policy) : Prop :=
  glob (p_pattern p) /\ p_pattern p <> [] /\ Z.of_nat (length (p_pattern p)) <= MAX_PATTERN_LEN /\
  - PRIORITY_MAX <= p_priority p <= PRIORITY_MAX /\ Z.of_nat (length (p_fallback p)) <= FALLBACK_CHAIN_MAX.
End Policies.

(** ** Stored policies *)

Section Invariants.
Context `{UnicodeDB} (golden_reject : list pystr).

Abbreviation exec := (exec golden_reject).
Abbreviation run := (run golden_reject).

Lemma normalize_model_pattern_Ok s p :
  normalize_model_pattern golden_reject s = Ok p -> glob p /\ p <> [] /\ Z.of_nat (length p) <= MAX_PATTERN_LEN.
Proof.
  unfold normalize_model_pattern. case_bool_decide; [done|]. case_match eqn:Hl; [done|]. case_bool_decide; [done|].
  case_match eqn:Hg; [done|]. intros [= <-]. apply Z.ltb_ge in Hl. split; [by apply match_error_loop_None in Hg|done].
Qed.

Lemma check_priority_Ok p q : check_priority p = Ok q -> - PRIORITY_MAX <= q <= PRIORITY_MAX.
Proof. unfold check_priority. case_match; intros; simplify_eq. bools. lia. Qed.

Lemma normalize_fallback_chain_Ok l k : normalize_fallback_chain l = Ok k -> Z.of_nat (length k) <= FALLBACK_CHAIN_MAX.
Proof.
  unfold normalize_fallback_chain. case_match eqn:Hl; [done|]. intros Hr%rmap_Ok%Forall2_length. apply Z.ltb_ge in Hl. lia.
Qed.

Lemma optional_Ok {A B} (f : A -> result ApiError B) x y (P : B -> Prop) :
  optional f x = Ok y -> (forall a b, f a = Ok b -> P b) -> forall b, y = Some b -> P b.
Proof. destruct x as [a|]; cbn; [intros (b & Hb & [= <-])%rbind_Ok|intros [= <-]]; intros Hf c [= <-]. by eapply Hf. Qed.

Lemma create_loadable org b b' :
  validate_create golden_reject b = Ok b' ->
  loadable {| p_org := org; p_pattern := c_pattern b'; p_allowed := c_allowed b'; p_priority := c_priority b'; p_fallback := c_fallback b' |}.
Proof.
  intros (p & (? & ? & ?)%normalize_model_pattern_Ok & (q & Hq%check_priority_Ok & (c & Hc%normalize_fallback_chain_Ok & [= <-])%rbind_Ok)%rbind_Ok)%rbind_Ok.
  unfold loadable. cbn. split_and!; (done || lia).
Qed.

Lemma patched_loadable b b' p : validate_patch golden_reject b = Ok b' -> loadable p -> loadable (patched b' p).
Proof.
  intros (x & Hx & (q & Hq & (c & Hc & [= <-])%rbind_Ok)%rbind_Ok)%rbind_Ok (Hg & Hn & Hl & Hp & Hf). unfold loadable, patched. cbn.
  pose proof (optional_Ok _ _ _ _ Hx normalize_model_pattern_Ok) as Hx'. pose proof (optional_Ok _ _ _ _ Hq check_priority_Ok) as Hq'.
  pose proof (optional_Ok _ _ _ _ Hc normalize_fallback_chain_Ok) as Hc'.
  assert (- PRIORITY_MAX <= default (p_priority p) q <= PRIORITY_MAX) by (destruct q; [by apply Hq'|done]).
  assert (Z.of_nat (length (default (p_fallback p) c)) <= FALLBACK_CHAIN_MAX) by (destruct c; [by apply Hc'|done]).
  destruct x as [x|]; cbn; [destruct (Hx' x eq_refl) as (? & ? & ?)|]; tauto.
Qed.

Lemma pattern_taken_false t i org pattern j p :
  pattern_taken t i org pattern = false -> t !! j = Some p -> j <> i -> p_org p = org -> p_pattern p <> pattern.
Proof.
  intros Ht Hj Hne Ho He. apply (eq_true_false_abs _ ) in Ht; [done|]. apply existsb_exists. exists (j, p).
  split; [by apply list_elem_of_In, elem_of_map_to_list|]. cbn. rewrite (proj2 (Z.eqb_neq _ _) Hne), Ho, Z.eqb_refl. cbn.
  by apply bool_decide_eq_true.
Qed.

(** What the invariant says of the table. *)
Definition table_ok (t : gmap Z Policy) : Prop :=
  (forall i p, t !! i = Some p -> loadable p) /\
  (forall i j p q, t !! i = Some p -> t !! j = Some q -> p_org p = p_org q -> p_pattern p = p_pattern q -> i = j).

Lemma policy_table_insert t i p :
  table_ok t -> loadable p -> pattern_taken t i (p_org p) (p_pattern p) = false -> table_ok (<[i := p]> t).
Proof.
  intros [Hl Hu] Hp Ht. split.
  - intros j q [[_ <-]|[_ Hq]]%lookup_insert_Some; [done|by eapply Hl].
  - intros j k q r [[<- <-]|[Hj Hq]]%lookup_insert_Some [[<- <-]|[Hk Hr]]%lookup_insert_Some Ho He; [done| | |by eapply Hu].
    + exfalso. by eapply (pattern_taken_false t i _ _ k r Ht Hr).
    + exfalso. by eapply (pattern_taken_false t i _ _ j q Ht Hq).
Qed.

(** A request leaves everything as it is, or commits a table that agrees with the
    old one on every row of another organization. *)
Lemma policy_exec_cases op st :
  table_ok (policies st) ->
  exec op st = st \/
  exists t ok, exec op st = commit (op_org op) t ok st /\ table_ok t /\
    forall i p, p_org p <> op_org op -> t !! i = Some p <-> policies st !! i = Some p.
Proof.
  intros Ht. unfold ModelPolicy.exec. destruct op as [org i b ok|org i b ok|org i ok]; cbn [op_org].
  - destruct (policies st !! i) eqn:Hi; [by left|]. destruct (create_policy _ _ _ _ _ _) as [st'|] eqn:Hc; [right|by left].
    apply rbind_Ok in Hc as (b' & Hb & Hc). case_match eqn:Hp; [done|]. injection Hc as <-. eexists _, ok. split; [done|]. split.
    + apply policy_table_insert; [done|by eapply create_loadable|done].
    + intros j p Hj. destruct (decide (j = i)) as [->|]; [|by rewrite lookup_insert_ne]. rewrite lookup_insert_eq, Hi.
      split; [intros [= <-]|]; done.
  - destruct (patch_policy _ _ _ _ _ _) as [st'|] eqn:Hc; [|by left]. apply rbind_Ok in Hc as (b' & Hb & (p & Hg & Hc)%rbind_Ok).
    unfold get_policy in Hg. destruct (policies st !! i) as [p'|] eqn:Hi; [|done]. destruct (Z.eqb_spec (p_org p') org) as [<-|]; [|done].
    injection Hg as ->. case_match; [left; by injection Hc as <-|]. right. case_match eqn:Hp; [done|]. injection Hc as <-.
    eexists _, ok. split; [done|]. split.
    + apply policy_table_insert; [done|eapply patched_loadable; [done|by apply (proj1 Ht) in Hi]|done].
    + intros j q Hj. destruct (decide (j = i)) as [->|]; [|by rewrite lookup_insert_ne]. rewrite lookup_insert_eq, Hi.
      split; intros [= <-]; done.
  - destruct (delete_policy _ _ _ _) as [st'|] eqn:Hc; [right|by left]. apply rbind_Ok in Hc as (p & Hg & [= <-]).
    unfold get_policy in Hg. destruct (policies st !! i) as [p'|] eqn:Hi; [|done]. destruct (Z.eqb_spec (p_org p') org) as [<-|]; [|done].
    eexists _, ok. split; [done|]. split.
    + split; [intros j q [_ ?]%lookup_delete_Some; by eapply (proj1 Ht)|].
      intros j k q r [_ ?]%lookup_delete_Some [_ ?]%lookup_delete_Some. by eapply (proj2 Ht).
    + intros j q Hj. destruct (decide (j = i)) as [->|]; [|by rewrite lookup_delete_ne]. rewrite lookup_delete_eq, Hi.
      split; [done|]. intros [= <-]. done.
Qed.

Lemma run_table_ok ops : forall st, table_ok (policies st) -> table_ok (policies (run ops st)).
Proof.
  induction ops as [|op ops IH]; intros st Ht; [done|]. cbn. apply IH.
  destruct (policy_exec_cases op st Ht) as [->|(t & ok & -> & Hok & _)]; done.
Qed.

Lemma epoch_of_bump org org' e :
  epoch_of org (bump_policy_epoch org' e) = if decide (org = org') then epoch_of org e + 1 else epoch_of org e.
Proof.
  unfold bump_policy_epoch. case_decide as Ho; [subst; unfold epoch_of at 1; by rewrite lookup_insert_eq|].
  unfold epoch_of at 1. by rewrite lookup_insert_ne.
Qed.

(** One request and the epoch of an organization. *)
Lemma exec_epoch op st org :
  table_ok (policies st) ->
  epoch_of org (epochs st) <= epoch_of org (epochs (exec op st)) /\
  (policies_of org (exec op st) <> policies_of org st -> epoch_of org (epochs st) < epoch_of org (epochs (exec op st))).
Proof.
  intros Ht. destruct (policy_exec_cases op st Ht) as [->|(t & ok & -> & _ & Hother)]; [done|].
  cbn [commit epochs policies]. rewrite epoch_of_bump. destruct (decide (org = op_org op)) as [->|Hne]; [lia|].
  split; [lia|]. intros []. unfold policies_of. cbn. apply map_eq.
  intros i. apply option_eq. intros p. rewrite !map_lookup_filter_Some. cbn.
  split; intros [Hp Ho]; split; try done; apply Hother; congruence.
Qed.

Lemma run_epoch ops : forall st org, table_ok (policies st) ->
  epoch_of org (epochs st) <= epoch_of org (epochs (run ops st)) /\
  (policies_of org (run ops st) <> policies_of org st -> epoch_of org (epochs st) < epoch_of org (epochs (run ops st))).
Proof.
  induction ops as [|op ops IH]; intros st org Ht; [done|]. cbn. destruct (exec_epoch op st org Ht) as [H1 H2].
  destruct (IH (exec op st) org) as [H3 H4]; [by apply (run_table_ok [op])|]. split; [lia|]. intros Hne.
  destruct (decide (policies_of org (exec op st) = policies_of org st)) as [He|He]; [|specialize (H2 He); lia].
  rewrite <- He in Hne. specialize (H4 Hne). lia.
Qed.

(** The epoch tells a proxy when to reload: along any requests the epoch of an
    organization never falls, and it has risen whenever its policies differ from
    what they were.  Whatever was requested, the policies it loads have distinct
    patterns, each one [filepath.Match] accepts, and bounded priorities and fallback
    chains. *)
Theorem changed_policies_raise_epoch before after org :
  let st := run before empty in
  let st' := run after st in
  epoch_of org (epochs st) <= epoch_of org (epochs st') /\
  (policies_of org st' <> policies_of org st -> epoch_of org (epochs st) < epoch_of org (epochs st')) /\
  (forall i p, policies_of org st' !! i = Some p -> loadable p) /\
  (forall i j p q, policies_of org st' !! i = Some p -> policies_of org st' !! j = Some q ->
     p_pattern p = p_pattern q -> i = j).
Proof.
  intros st st'. assert (table_ok (policies st)) as Ht by (apply run_table_ok; split; intros *; cbn; by rewrite lookup_empty).
  assert (table_ok (policies st')) as [Hl Hu] by (by apply run_table_ok).
  destruct (run_epoch after st org Ht) as [Hle Hlt]. split; [done|]. split; [done|]. split.
  - intros i p [Hp _]%map_lookup_filter_Some. by eapply Hl.
  - intros i j p q [Hp Ho]%map_lookup_filter_Some [Hq Ho']%map_lookup_filter_Some. cbn in *. apply Hu; [done|done|congruence].
Qed.
End Invariants.

(** ** Samples *)

Module PolicySample.
#[local] Existing Instance ascii_db.

(** Patterns the scanner accepts and refuses. *)
Example scanned_patterns :
  (fun s => go_filepath_match_error (lit s)) <$> ["gpt-4*"; "claude-[3-5]?"; "[^a\]]x"; "[]a]"; "[a-]"; "[a"; "x\"]%string =
  [None; None; None; Some EmptyClass; Some InvalidClassItem; Some InvalidClassItem; Some TrailingBackslash].
Proof. reflexivity. Qed.

Definition create (pattern : string) (priority : Z) : PolicyCreate :=
  {| c_pattern := lit pattern; c_allowed := true; c_priority := priority; c_fallback := [] |}.

(** The second request repeats a pattern, the third publishes nothing. *)
Example epochs_of_a_run :
  let st := run [] [Create 1 10 (create " gpt-* " 5) true; Create 1 11 (create "gpt-*" 7) true; Delete 1 10 false] empty in
  (policies st, epochs st, published st) = (∅, {[1 := 3]}, [(1, 2)]).
Proof. vm_compute. reflexivity. Qed.
End PolicySample.
