(* ===== verification/DeletionEvidence.v ===== *)
(** * Deletion evidence for operators
    ([services/api/app/services/operator_evidence_deletions.py])

    The read model of erasure: tombstone events and their backlog, the visibility
    fence, deletion jobs with their receipts, and the structural check of the audit
    ledger.  Every statement is a function of the tables. *)

From S2P Require Import Prelude.

Definition JOBS_LIMIT : nat := 20.
#[global] Arguments JOBS_LIMIT : simpl never.
Definition HOUR : Z := 3600000000.

(** ** Tables *)

Record OutboxRow := { ob_org : Z; ob_event_type : string; ob_occurred_at : Z; ob_delivered_at : option Z }.
Record MemoryRow := { me_org : Z; me_tombstoned : bool }.
Record JobRow := { jb_id : Z; jb_org : Z; jb_status : string; jb_created_at : Z; jb_finished_at : option Z }.
Record ReceiptRow := { rc_job : Z; rc_store : string; rc_status : string; rc_verified_absent_at : option Z }.
Record AuditRow := { au_org : Z; au_seq : Z; au_prev_hash : string; au_row_hash : string }.

Record DB := {
  outbox : list OutboxRow;
  memories : list MemoryRow;
  jobs : list JobRow;
  receipts : list ReceiptRow;
  ledger : list AuditRow;
}.

(** ** Answers *)

Record TombstoneSummary := {
  forgotten : nat;
  expired : nat;
  purged : nat;
  pending : nat;
  oldest_pending_at : option Z;
  last_event_at : option Z;
  tombstoned_memories : nat;
}.

Record ErasureJob := {
  ej_id : Z;
  ej_status : string;
  ej_created_at : Z;
  ej_finished_at : option Z;
  ej_receipts : list (string * string * option Z);
}.

Record AuditChainSummary := {
  entries : nat;
  first_seq : option Z;
  last_seq : option Z;
  continuity_ok : bool;
  broken_at_seq : option Z;
  last_row_hash : option string;
}.

Record Evidence := {
  window : Z * Z;
  tombstones : TombstoneSummary;
  erasures : list (string * nat);
  erasure_jobs : list ErasureJob;
  jobs_truncated : bool;
  audit : AuditChainSummary;
}.

(** ** Statements *)

Definition TOMBSTONE_EVENTS : list string := ["forgotten"; "expired"; "purged"]%string.
Definition ERASURE_STATUSES : list string := ["pending"; "running"; "succeeded"; "failed"; "hold_blocked"]%string.
Definition GENESIS_PREV_HASH : string := String.concat "" (replicate 64 "0"%string).

Definition is_tombstone (e : string) : bool := existsb (String.eqb e) TOMBSTONE_EVENTS.

Definition list_min (l : list Z) : option Z := match l with [] => None | x :: l => Some (foldr Z.min x l) end.
Definition list_max (l : list Z) : option Z := match l with [] => None | x :: l => Some (foldr Z.max x l) end.

(** [_tombstone_statement]: the events of the window. *)
Definition tombstone_rows (d : DB) (org start : Z) : list OutboxRow :=
  List.filter (fun r => (ob_org r =? org) && (start <=? ob_occurred_at r) && is_tombstone (ob_event_type r))%bool (outbox d).

(** [_backlog_statement]: undelivered events of any age. *)
Definition backlog_rows (d : DB) (org : Z) : list OutboxRow :=
  List.filter (fun r => (ob_org r =? org) && negb (bool_decide (is_Some (ob_delivered_at r))) && is_tombstone (ob_event_type r))%bool
    (outbox d).

Definition count_event (e : string) (rows : list OutboxRow) : nat :=
  length (List.filter (fun r => String.eqb (ob_event_type r) e) rows).

Definition fence (d : DB) (org : Z) : nat :=
  length (List.filter (fun m => (me_org m =? org) && me_tombstoned m)%bool (memories d)).

(** [_tombstone_summary] *)
Definition tombstone_summary (d : DB) (org start : Z) : TombstoneSummary :=
  let rows := tombstone_rows d org start in
  let backlog := backlog_rows d org in
  {| forgotten := count_event "forgotten" rows; expired := count_event "expired" rows; purged := count_event "purged" rows;
     pending := length backlog; oldest_pending_at := list_min (ob_occurred_at <$> backlog);
     last_event_at := list_max (ob_occurred_at <$> rows); tombstoned_memories := fence d org |}.

Definition window_jobs (d : DB) (org start : Z) : list JobRow :=
  List.filter (fun j => (jb_org j =? org) && (start <=? jb_created_at j))%bool (jobs d).

(** [_erasure_statement] and [_erasure_counts] *)
Definition erasure_counts (d : DB) (org start : Z) : list (string * nat) :=
  (fun s => (s, length (List.filter (fun j => String.eqb (jb_status j) s) (window_jobs d org start)))) <$> ERASURE_STATUSES.

(** [_jobs_statement]: the newest jobs, one more than is shown. *)
Definition job_rows (d : DB) (org start : Z) : list JobRow :=
  take (S JOBS_LIMIT) (py_sorted (fun a b => jb_created_at b <? jb_created_at a) (window_jobs d org start)).

(** [_receipts_statement]: the organization comes from the job. *)
Definition receipt_rows (d : DB) (org : Z) (ids : list Z) : list ReceiptRow :=
  py_sorted (fun a b => str_ltb (rc_store a) (rc_store b))
    (List.filter (fun r => bool_decide (rc_job r ∈ ids)
                           && existsb (fun j => (jb_id j =? rc_job r) && (jb_org j =? org)) (jobs d))%bool (receipts d)).

(** [_erasure_jobs] *)
Definition erasure_job (rs : list ReceiptRow) (j : JobRow) : ErasureJob :=
  {| ej_id := jb_id j; ej_status := jb_status j; ej_created_at := jb_created_at j; ej_finished_at := jb_finished_at j;
     ej_receipts := (fun r => (rc_store r, rc_status r, rc_verified_absent_at r)) <$> List.filter (fun r => rc_job r =? jb_id j) rs |}.

(** ** The audit ledger *)

(** [lag(...) OVER (ORDER BY seq)]: every row with the row before it. *)
Fixpoint edges (prior : option AuditRow) (l : list AuditRow) : list (option AuditRow * AuditRow) :=
  match l with [] => [] | r :: l => (prior, r) :: edges (Some r) l end.

Definition broken_edge (e : option AuditRow * AuditRow) : bool :=
  match e.1 with
  | None => false
  | Some p => (negb (au_seq e.2 =? au_seq p + 1) || negb (String.eqb (au_prev_hash e.2) (au_row_hash p)))%bool
  end.

Definition by_seq (l : list AuditRow) : list AuditRow := py_sorted (fun a b => au_seq a <? au_seq b) l.

(** [_audit_statement] and [_audit_from_row] *)
Definition audit_summary (rows : list AuditRow) : AuditChainSummary :=
  let sorted := by_seq rows in
  let first_break := list_min ((fun e => au_seq e.2) <$> List.filter broken_edge (edges None sorted)) in
  match head sorted with
  | None => {| entries := 0; first_seq := None; last_seq := None; continuity_ok := true; broken_at_seq := None; last_row_hash := None |}
  | Some first =>
      let ends := {| entries := length rows; first_seq := Some (au_seq first); last_seq := au_seq <$> last sorted;
                     continuity_ok := bool_decide (first_break = None); broken_at_seq := first_break;
                     last_row_hash := au_row_hash <$> last sorted |} in
      if (negb (au_seq first =? 1) || negb (String.eqb (au_prev_hash first) GENESIS_PREV_HASH))%bool
      then {| entries := entries ends; first_seq := first_seq ends; last_seq := last_seq ends; continuity_ok := false;
              broken_at_seq := Some (au_seq first); last_row_hash := last_row_hash ends |}
      else ends
  end.

Inductive DeletionRange := Hours24 | Days7 | Days30.
Definition range_hours (r : DeletionRange) : Z := match r with Hours24 => 24 | Days7 => 24 * 7 | Days30 => 24 * 30 end.
Definition window_for (r : DeletionRange) (now : Z) : Z * Z := (now - range_hours r * HOUR, now).

(** [get_evidence_deletions]; [audit_ok] is whether the ledger scan ends in time. *)
Definition get_evidence_deletions (d : DB) (org : Z) (range : DeletionRange) (now : Z) (audit_ok : bool) : option Evidence :=
  let '(start, stop) := window_for range now in
  let rows := job_rows d org start in
  let shown := take JOBS_LIMIT rows in
  let rs := match shown with [] => [] | _ => receipt_rows d org (jb_id <$> shown) end in
  if negb audit_ok then None
  else Some {| window := (start, stop); tombstones := tombstone_summary d org start; erasures := erasure_counts d org start;
               erasure_jobs := erasure_job rs <$> shown; jobs_truncated := (JOBS_LIMIT <? length rows)%nat;
               audit := audit_summary (List.filter (fun r => au_org r =? org) (ledger d)) |}.

(** ** What the audit check means *)

(** An entry is linked when it starts the ledger or continues the entry numbered one
    below it, whatever the order the rows are stored in. *)
Definition linked (rows : list AuditRow) (r : AuditRow) : Prop :=
  (au_seq r = 1 /\ au_prev_hash r = GENESIS_PREV_HASH) \/
  exists p, p ∈ rows /\ au_seq r = au_seq p + 1 /\ au_prev_hash r = au_row_hash p.

Lemma list_min_None l : list_min l = None <-> l = [].
Proof. by destruct l. Qed.

Lemma list_min_Some l m : list_min l = Some m -> m ∈ l /\ forall x, x ∈ l -> m <= x.
Proof.
  destruct l as [|y l]; [done|]. intros [= <-]. induction l as [|z l [IHin IHle]]; cbn.
  - split; [left|]. by intros x ->%list_elem_of_singleton.
  - split.
    + destruct (Z.min_spec z (foldr Z.min y l)) as [[_ ->]|[_ ->]]; [right; left|].
      apply elem_of_cons in IHin as [->|]; [left|by right; right].
    + intros x [->|[->|Hx]%elem_of_cons]%elem_of_cons; [specialize (IHle y ltac:(left)); lia|lia|].
      specialize (IHle x ltac:(by right)). lia.
Qed.

(** The edges of a list are its neighbours. *)
Lemma edges_elem l prior p r :
  (Some p, r) ∈ edges prior l <-> (prior = Some p /\ head l = Some r) \/ exists pre post, l = pre ++ p :: r :: post.
Proof.
  revert prior. induction l as [|x l IH]; intros prior; cbn.
  - split; [by intros ?%elem_of_nil|]. intros [[_ ?]|(pre & post & He)]; [done|by destruct pre].
  - rewrite elem_of_cons, IH. split.
    + intros [[= -> ->]|[[[= ->] Hh]|(pre & post & ->)]]; [by left| |right; by exists (x :: pre), post].
      right. destruct l as [|y l]; [done|]. injection Hh as ->. by exists [], l.
    + intros [[-> [= ->]]|(pre & post & He)]; [by left|]. right. destruct pre as [|y pre]; cbn in He; injection He as -> ->.
      * left. done.
      * right. by exists pre, post.
Qed.

Abbreviation ascending := (StronglySorted (fun a b => au_seq a < au_seq b)).

(** Neighbours decide whether an entry is linked. *)
Lemma linked_by_neighbour pre p r post :
  ascending (pre ++ p :: r :: post) -> 1 <= au_seq p ->
  broken_edge (Some p, r) = false <-> linked (pre ++ p :: r :: post) r.
Proof.
  intros (Hpre & _ & Hs)%StronglySorted_app Hp. apply StronglySorted_inv in Hs as [Hs Hall].
  apply Forall_cons in Hall as [Hlt _]. apply StronglySorted_inv in Hs as [_ Hpost]. unfold broken_edge. cbn.
  rewrite orb_false_iff, !negb_false_iff, Z.eqb_eq, String.eqb_eq. split.
  - intros [? ?]. right. exists p. split; [|done]. apply elem_of_app. right. left.
  - intros [[? _]|(q & Hq & Hs1 & Hs2)]; [lia|]. apply elem_of_app in Hq as [Hq|[->|[->|Hq]%elem_of_cons]%elem_of_cons].
    + specialize (Hpre q p Hq ltac:(left)). lia.
    + done.
    + lia.
    + rewrite Forall_forall in Hpost. specialize (Hpost q Hq). lia.
Qed.

Lemma ascending_by_seq rows : NoDup (au_seq <$> rows) -> ascending (by_seq rows).
Proof.
  intros Hn. unfold by_seq. set (ltb := fun a b => au_seq a <? au_seq b).
  assert (PyOrder ltb (fun _ => True)) by (split; unfold ltb; intros; bools; lia).
  assert (StronglySorted (leb_of ltb) (py_sorted ltb rows)) as Hs by (apply (py_sorted_sorted ltb (ok := fun _ => True)); by apply Forall_true).
  assert (NoDup (au_seq <$> py_sorted ltb rows)) as Hn' by (by rewrite py_sorted_perm).
  induction Hs as [|x l Hs IH Hx]; [constructor|]. apply NoDup_cons in Hn' as [Hnin Hn']. constructor; [by apply IH|].
  rewrite Forall_forall in Hx |- *. intros y Hy. specialize (Hx y Hy). unfold leb_of, ltb in Hx. apply Z.ltb_ge in Hx.
  assert (au_seq x <> au_seq y); [|lia]. intros He. apply Hnin. rewrite He. by apply list_elem_of_fmap_2.
Qed.

Lemma linked_perm l k r : l ≡ₚ k -> linked l r <-> linked k r.
Proof. intros Hp. unfold linked. by setoid_rewrite Hp. Qed.

(** The ledger in order, after its first entry. *)
Lemma break_spec first l :
  ascending (first :: l) -> 1 <= au_seq first ->
  let broken := (fun e : option AuditRow * AuditRow => au_seq e.2) <$> List.filter broken_edge (edges None (first :: l)) in
  match list_min broken with
  | None => forall r, r ∈ l -> linked (first :: l) r
  | Some q => exists r, r ∈ l /\ au_seq r = q /\ ~ linked (first :: l) r /\
                forall r', r' ∈ l -> au_seq r' < q -> linked (first :: l) r'
  end.
Proof.
  intros Hs Hf broken.
  assert (forall r, r ∈ l -> exists p, (Some p, r) ∈ edges None (first :: l) /\
            (broken_edge (Some p, r) = false <-> linked (first :: l) r)) as Hedge.
  { intros r (k1 & k2 & ->)%list_elem_of_split. destruct (decide (k1 = [])) as [->|Hne].
    - exists first. split; [apply edges_elem; right; by exists [], k2|]. by apply (linked_by_neighbour [] first r k2).
    - destruct (exists_last Hne) as (k0 & p & ->). exists p. rewrite <- app_assoc in Hs |- *. split.
      + apply edges_elem. right. by exists (first :: k0), k2.
      + apply (linked_by_neighbour (first :: k0) p r k2); [done|]. apply StronglySorted_inv in Hs as [_ Hall].
        rewrite Forall_forall in Hall. specialize (Hall p ltac:(apply elem_of_app; right; left)). lia. }
  assert (forall r, (exists p, (Some p, r) ∈ edges None (first :: l)) -> r ∈ l) as Hin.
  { intros r (p & [[? _]|(pre & post & He)]%edges_elem); [done|]. destruct pre as [|x pre]; injection He as -> ->; [left|].
    apply elem_of_app. right. right. left. }
  assert (forall r, r ∈ l -> au_seq r ∉ broken -> linked (first :: l) r) as Hok.
  { intros r Hr Hnb. destruct (Hedge r Hr) as (p & Hp & Hiff). apply Hiff. destruct (broken_edge (Some p, r)) eqn:Hb; [|done].
    exfalso. apply Hnb. apply list_elem_of_fmap. exists (Some p, r). split; [done|].
    apply list_elem_of_In, List.filter_In. by rewrite <- list_elem_of_In. }
  destruct (list_min broken) as [q|] eqn:Hm.
  - apply list_min_Some in Hm as [Hq Hle]. apply list_elem_of_fmap in Hq as ([[p|] r] & -> & Hq); apply list_elem_of_In, List.filter_In in Hq as [Hq Hb]; [|done].
    apply list_elem_of_In in Hq. assert (r ∈ l) as Hr by (apply Hin; by exists p). exists r. split; [done|]. split; [done|]. split.
    + destruct (edges_elem (first :: l) None p r) as [Hp _]. destruct (Hp Hq) as [[? _]|(pre & post & He)]; [done|].
      rewrite He in Hs |- *. intros Hl. apply linked_by_neighbour in Hl; [congruence|done|].
      destruct pre as [|x pre]; injection He as <- He; [done|]. apply StronglySorted_inv in Hs as [_ Hall].
      rewrite Forall_forall in Hall. specialize (Hall p ltac:(apply elem_of_app; right; left)). lia.
    + intros r' Hr' Hlt. apply Hok; [done|]. intros Hb'. specialize (Hle _ Hb'). cbn in *. lia.
  - intros r Hr. apply Hok; [done|]. apply list_min_None in Hm. rewrite Hm. apply not_elem_of_nil.
Qed.

(** C30: the audit check is right about the ledger: it reports continuity exactly when
    every entry is linked, from entry 1 and the genesis hash on, and otherwise names
    an entry that is not linked while every earlier one is, in whatever order the
    rows are stored. *)
Theorem audit_names_first_break rows :
  NoDup (au_seq <$> rows) ->
  let s := audit_summary rows in
  match broken_at_seq s with
  | None => continuity_ok s = true /\ forall r, r ∈ rows -> linked rows r
  | Some q => continuity_ok s = false /\ exists r, r ∈ rows /\ au_seq r = q /\ ~ linked rows r /\
                forall r', r' ∈ rows -> au_seq r' < q -> linked rows r'
  end.
Proof.
  intros Hn s. assert (by_seq rows ≡ₚ rows) as Hp by apply py_sorted_perm. pose proof (ascending_by_seq rows Hn) as Hs.
  unfold s, audit_summary. destruct (by_seq rows) as [|first l] eqn:Hb; cbn [head].
  { apply Permutation_nil in Hp as ->. cbn. split; [done|]. by intros r ?%elem_of_nil. }
  set (k := first :: l) in *. assert (forall r, r ∈ rows <-> r ∈ k) as Hmem by (intros r; by rewrite Hp).
  assert (forall r, linked rows r <-> linked k r) as Hlk by (intros r; symmetry; by apply linked_perm).
  assert (forall r, r ∈ l -> au_seq first < au_seq r) as Hfirst.
  { apply StronglySorted_inv in Hs as [_ Hall]. by rewrite Forall_forall in Hall. }
  destruct (_ || _)%bool eqn:Hc; cbn [broken_at_seq continuity_ok].
  - split; [done|]. exists first. split; [apply Hmem; left|]. split; [done|]. split.
    + intros [[H1 H2]|(p & [->|Hr]%elem_of_cons & H1 & _)]%Hlk; [|lia|specialize (Hfirst p Hr); lia].
      rewrite H1, H2, String.eqb_refl in Hc. done.
    + intros r' [->|Hr]%Hmem%elem_of_cons; [lia|]. specialize (Hfirst r' Hr). lia.
  - apply orb_false_iff in Hc as [H1 H2]. apply negb_false_iff, Z.eqb_eq in H1. apply negb_false_iff, String.eqb_eq in H2.
    assert (linked k first) as Hl by (by left).
    pose proof (break_spec first l Hs ltac:(lia)) as Hbr. cbn zeta in Hbr. fold k in Hbr. destruct (list_min _) as [q|]; cbn.
    + split; [done|]. destruct Hbr as (r & Hr & Hq & Hnl & Hle). exists r. split; [apply Hmem; by right|]. split; [done|].
      split; [by rewrite Hlk|]. intros r' [->|Hr']%Hmem%elem_of_cons Hlt; apply Hlk; [done|by apply Hle].
    + split; [done|]. intros r [->|Hr]%Hmem%elem_of_cons; apply Hlk; [done|by apply Hbr].
Qed.

(** ** Tenants *)

(** The tables without the rows of other organizations. *)
Definition restrict (org : Z) (d : DB) : DB :=
  {| outbox := List.filter (fun r => ob_org r =? org) (outbox d);
     memories := List.filter (fun m => me_org m =? org) (memories d);
     jobs := List.filter (fun j => jb_org j =? org) (jobs d);
     receipts := List.filter (fun r => existsb (fun j => (jb_id j =? rc_job r) && (jb_org j =? org))%bool (jobs d)) (receipts d);
     ledger := List.filter (fun r => au_org r =? org) (ledger d) |}.

Lemma filter_filter {A} (p q : A -> bool) l : (forall x, p x = true -> q x = true) -> List.filter p (List.filter q l) = List.filter p l.
Proof.
  intros Hpq. induction l as [|x l IH]; [done|]. cbn. destruct (q x) eqn:Hq; cbn; [by rewrite IH|].
  destruct (p x) eqn:Hp; [|done]. apply Hpq in Hp. congruence.
Qed.

(** Evidence shown to an organization depends on its own rows only. *)
Theorem evidence_within_tenant d org range now audit_ok :
  get_evidence_deletions d org range now audit_ok = get_evidence_deletions (restrict org d) org range now audit_ok.
Proof.
  assert (forall start, window_jobs (restrict org d) org start = window_jobs d org start) as Hw.
  { intros start. unfold window_jobs. cbn. apply filter_filter. by intros j [? _]%andb_prop. }
  assert (forall ids, receipt_rows (restrict org d) org ids = receipt_rows d org ids) as Hr.
  { intros ids. unfold receipt_rows. cbn. f_equal. rewrite filter_filter.
    - apply List.filter_ext. intros r. f_equal. induction (jobs d) as [|j js IH]; [done|]. cbn.
      destruct (jb_org j =? org) eqn:Ho; cbn; rewrite ?Ho, IH, ?andb_false_r; done.
    - intros r [_ Hx]%andb_prop. apply existsb_exists in Hx as (j & Hj & Hx). apply List.filter_In in Hj as [Hj _].
      apply existsb_exists. by exists j. }
  unfold get_evidence_deletions, job_rows, erasure_counts, tombstone_summary, tombstone_rows, backlog_rows, fence.
  cbn [window_for outbox memories ledger restrict]. rewrite Hw, Hr. destruct audit_ok; [|done]. cbn [negb]. f_equal. f_equal.
  all: rewrite ?filter_filter; try done; intros x Hx; by repeat (apply andb_prop in Hx as [Hx ?]).
Qed.

(** ** Samples *)

Module EvidenceSample.
Definition row (seq : Z) (prev hash : string) : AuditRow := {| au_org := 1; au_seq := seq; au_prev_hash := prev; au_row_hash := hash |}.

(** Entry 3 does not continue entry 2; the rows are stored in another order. *)
Definition tampered : list AuditRow := [row 3 "x" "c"; row 1 GENESIS_PREV_HASH "a"; row 4 "c" "d"; row 2 "a" "b"].

Lemma audit_names_first_break_witness :
  broken_at_seq (audit_summary tampered) = Some 3 /\ exists r, r ∈ tampered /\ au_seq r = 3 /\ ~ linked tampered r.
Proof.
  assert (NoDup (au_seq <$> tampered)) as Hn by (apply (bool_decide_unpack _); vm_compute; exact I).
  split; [vm_compute; reflexivity|]. pose proof (audit_names_first_break tampered Hn) as H. vm_compute broken_at_seq in H.
  destruct H as (_ & r & Hr & Hq & Hl & _). exists r. split; [exact Hr|]. split; [exact Hq|exact Hl].
Defined.
End EvidenceSample.
