(* ===== verification/OrgControls.v ===== *)
(** * Capture policies, legal holds and rate limits of an organization
    ([services/api/app/services/]: [capture_policies.py], [legal_holds.py],
    [rate_limits.py])

    Capture policies are the rows the redaction task of the worker reads
    ([Capture.resolve_capture_mode]); a patch reads its row and writes it later, so
    patches interleave.  Holds and limits change in single transactions. *)

From S2P Require Import Prelude MemoryStore Capture.

Inductive ApiError := NotFound | CapturePolicyConflict | HoldScopeConflict | ValidationError.

#[global] Instance ControlError_eq_dec : EqDecision ApiError.
Proof. solve_decision. Defined.

(** ** Capture policies *)

Module CapturePolicies.

Record State := {
  rows : gmap Z Policy;
  patches : gmap nat (Z * UUID * option Mode * option Z * Policy);     (* read, not yet written *)
}.

(** [UNIQUE NULLS NOT DISTINCT (org_id, agent_id)] *)
Definition taken (t : gmap Z Policy) (org : UUID) (agent : option UUID) : bool :=
  existsb (fun ip => bool_decide (po_org_id ip.2 = org) && bool_decide (po_agent_id ip.2 = agent))%bool (map_to_list t).

(** [create_policy]; the id is drawn by the database. *)
Definition create_policy (i : Z) (org : UUID) (agent : option UUID) (mode : Mode) (priority : Z) (st : State)
    : result ApiError State :=
  raise_if taken (rows st) org agent with CapturePolicyConflict ;;
  Ok {| rows := <[i := {| po_org_id := org; po_agent_id := agent; po_mode := mode; po_priority := priority |}]> (rows st);
        patches := patches st |}.

Definition get_policy (i : Z) (org : UUID) (st : State) : result ApiError Policy :=
  match rows st !! i with
  | Some p => if bool_decide (po_org_id p = org) then Ok p else Raise NotFound
  | None => Raise NotFound
  end.

(** The two statements of [patch_policy]. *)
Definition patch_read (x : nat) (i : Z) (org : UUID) (mode : option Mode) (priority : option Z) (st : State)
    : result ApiError State :=
  let* current := get_policy i org st in
  Ok {| rows := rows st; patches := <[x := (i, org, mode, priority, current)]> (patches st) |}.

Definition patch_write (x : nat) (st : State) : result ApiError State :=
  match patches st !! x with
  | None => Raise NotFound
  | Some (i, org, mode, priority, current) =>
      match get_policy i org st with
      | Raise e => Raise e
      | Ok p =>
          Ok {| rows := <[i := {| po_org_id := po_org_id p; po_agent_id := po_agent_id p;
                                  po_mode := default (po_mode current) mode;
                                  po_priority := default (po_priority current) priority |}]> (rows st);
                patches := delete x (patches st) |}
      end
  end.

Definition delete_policy (i : Z) (org : UUID) (st : State) : result ApiError State :=
  let* _ := get_policy i org st in
  Ok {| rows := delete i (rows st); patches := patches st |}.

Inductive Op :=
| Create (i : Z) (org : UUID) (agent : option UUID) (mode : Mode) (priority : Z)
| PatchRead (x : nat) (i : Z) (org : UUID) (mode : option Mode) (priority : option Z)
| PatchWrite (x : nat)
| Delete (i : Z) (org : UUID).

Definition exec (op : Op) (st : State) : State :=
  match (match op with
         | Create i org agent mode priority =>
             match rows st !! i with None => create_policy i org agent mode priority st | Some _ => Raise CapturePolicyConflict end
         | PatchRead x i org mode priority => patch_read x i org mode priority st
         | PatchWrite x => patch_write x st
         | Delete i org => delete_policy i org st
         end) with
  | Ok st => st
  | Raise _ => st
  end.

Definition run (ops : list Op) : State := foldl (fun st op => exec op st) {| rows := ∅; patches := ∅ |} ops.

(** [resolve_mode]: the condition of its statement. *)
Definition selected (org : UUID) (agent : option UUID) (p : Policy) : bool :=
  (bool_decide (po_org_id p = org)
   && ((bool_decide (agent = None) && bool_decide (po_agent_id p = None))
       || bool_decide (po_agent_id p = agent)
       || bool_decide (po_agent_id p = None)))%bool.

Definition resolve_mode (table : list Policy) (org : UUID) (agent : option UUID) : Mode :=
  match head (py_sorted policy_ltb (List.filter (selected org agent) table)) with
  | Some p => po_mode p
  | None => DEFAULT_MODE
  end.

(** What the rule is meant to be: an agent's own policy, else the organization's,
    else metadata only. *)
Definition mode_of (t : gmap Z Policy) (org : UUID) (agent : option UUID) : option Mode :=
  po_mode <$> List.find (fun p => bool_decide (po_org_id p = org) && bool_decide (po_agent_id p = agent))%bool (map_to_list t).*2.

Definition effective_mode (t : gmap Z Policy) (org : UUID) (agent : option UUID) : Mode :=
  match mode_of t org agent with
  | Some m => m
  | None => default metadata_only (mode_of t org None)
  end.

(** One row per organization and agent. *)
Definition unique (t : gmap Z Policy) : Prop :=
  forall i j p q, t !! i = Some p -> t !! j = Some q -> po_org_id p = po_org_id q -> po_agent_id p = po_agent_id q -> i = j.

Lemma taken_false t org agent i p :
  taken t org agent = false -> t !! i = Some p -> po_org_id p = org -> po_agent_id p = agent -> False.
Proof.
  intros Ht Hi Ho Ha. apply (eq_true_false_abs _) in Ht; [done|]. apply existsb_exists. exists (i, p).
  split; [by apply list_elem_of_In, elem_of_map_to_list|]. cbn. by rewrite Ho, Ha, !bool_decide_true.
Qed.

Lemma unique_exec op st : unique (rows st) -> unique (rows (exec op st)).
Proof.
  intros Hu. unfold exec. destruct op as [i org agent mode priority|x i org mode priority|x|i org].
  - destruct (rows st !! i) eqn:Hi; [done|]. unfold create_policy. destruct (taken (rows st) org agent) eqn:Ht; [done|].
    cbn. intros j k p q [[<- <-]|[? Hp]]%lookup_insert_Some [[<- <-]|[? Hq]]%lookup_insert_Some Ho Ha; cbn in *; try done.
    + exfalso. by eapply (taken_false _ org agent k q).
    + exfalso. by eapply (taken_false _ org agent j p).
    + by eapply Hu.
  - unfold patch_read. by destruct (get_policy i org st).
  - unfold patch_write. destruct (patches st !! x) as [[[[[i org] mode] priority] current]|]; [|done].
    unfold get_policy. destruct (rows st !! i) as [p|] eqn:Hi; [|done]. case_bool_decide; [|done]. cbn.
    intros j k q r [[<- <-]|[? Hq]]%lookup_insert_Some [[<- <-]|[? Hr]]%lookup_insert_Some Ho Ha; cbn in *; try done.
    + by eapply (Hu i k p r).
    + by eapply (Hu j i q p).
    + by eapply Hu.
  - unfold delete_policy. destruct (get_policy i org st); [|done]. cbn.
    intros j k p q [_ Hp]%lookup_delete_Some [_ Hq]%lookup_delete_Some. by eapply Hu.
Qed.

Lemma unique_run ops : unique (rows (run ops)).
Proof.
  unfold run. assert (forall st, unique (rows st) -> unique (rows (foldl (fun st op => exec op st) st ops))) as Hgen.
  { induction ops as [|op ops IH]; intros st Hu; [done|]. cbn. apply IH. by apply unique_exec. }
  apply Hgen. intros i j p q Hi. cbn in Hi. by rewrite lookup_empty in Hi.
Qed.

(** The rows as a statement sees them. *)
Definition table (st : State) : list Policy := (map_to_list (rows st)).*2.

Lemma table_elem st p : p ∈ table st <-> exists i, rows st !! i = Some p.
Proof.
  unfold table. rewrite list_elem_of_fmap. split.
  - intros ([i q] & -> & Hq). exists i. by apply elem_of_map_to_list.
  - intros (i & Hi). exists (i, p). split; [done|]. by apply elem_of_map_to_list.
Qed.

Lemma mode_of_Some st org agent m :
  mode_of (rows st) org agent = Some m -> exists p, p ∈ table st /\ po_org_id p = org /\ po_agent_id p = agent /\ po_mode p = m.
Proof.
  unfold mode_of. intros (p & Hf & ->)%fmap_Some. apply List.find_some in Hf as [Hp Hb]. apply andb_prop in Hb as [Ho Ha].
  apply bool_decide_eq_true in Ho, Ha. exists p. split; [by apply list_elem_of_In|done].
Qed.

Lemma mode_of_None st org agent p :
  mode_of (rows st) org agent = None -> p ∈ table st -> po_org_id p = org -> po_agent_id p = agent -> False.
Proof.
  unfold mode_of. intros Hf%fmap_None Hp Ho Ha. apply list_elem_of_In, (List.find_none _ _ Hf) in Hp.
  by rewrite !bool_decide_true in Hp.
Qed.

Lemma selected_applies org agent p : selected org agent p = policy_applies org agent p.
Proof.
  unfold selected, policy_applies. f_equal. destruct (po_agent_id p) as [a|]; [|by rewrite !orb_true_r].
  rewrite (bool_decide_false (Some a = None)), andb_false_r, orb_false_r by done. cbn.
  apply bool_decide_ext. naive_solver.
Qed.
End CapturePolicies.

Section Resolution.
Context {V : Type}.
Import CapturePolicies.

(** C31: the API and the worker resolve one capture mode: after any interleaving of
    policy requests, the statement of the API and the statement of the redaction
    task answer alike for every agent, with the agent's own policy if it has one,
    else the organization's, else metadata only.  Priorities decide nothing. *)
Theorem capture_mode_is_one_rule ops org agent (w : World (V := V)) :
  policies w = table (run ops) ->
  resolve_mode (policies w) org agent = resolve_capture_mode w org agent /\
  resolve_mode (policies w) org agent = effective_mode (rows (run ops)) org agent.
Proof.
  intros Hw. assert (resolve_mode (policies w) org agent = resolve_capture_mode w org agent) as He.
  { unfold resolve_mode, resolve_capture_mode.
    rewrite (List.filter_ext _ (policy_applies org agent)) by apply selected_applies. by destruct (py_sorted _ _). }
  split; [done|]. rewrite He. assert (policies_unique w) as Hu.
  { intros p q Hp Hq Ho Ha. rewrite Hw in Hp, Hq. apply table_elem in Hp as [i Hi], Hq as [j Hj].
    assert (i = j) as -> by (by eapply (unique_run ops i j p q)). congruence. }
  destruct (agent_policy_wins w org agent Hu) as (Hown & Horg & Hnone). unfold policy_for in *. rewrite Hw in *.
  unfold effective_mode. destruct (mode_of (rows (run ops)) org agent) as [m|] eqn:Hm.
  - apply mode_of_Some in Hm as (p & Hp & Ho & Ha & <-). destruct agent as [a|]; [by apply (Hown p)|].
    apply (Horg p); [by intros q [? ?]|done].
  - destruct (mode_of (rows (run ops)) org None) as [m|] eqn:Hm0; cbn.
    + apply mode_of_Some in Hm0 as (p & Hp & Ho & Ha & <-). apply (Horg p); [|done].
      intros q _ (Hq & Hoq & Haq). by eapply (mode_of_None (run ops) org agent q).
    + apply Hnone; intros q (Hq & Hoq & Haq); [by eapply (mode_of_None (run ops) org agent q)|by eapply (mode_of_None (run ops) org None q)].
Qed.
End Resolution.

(** ** Legal holds *)

Module Holds.

Record Hold := { h_org : UUID; h_reason : string; h_set_by : UUID; h_cleared_by : option UUID; h_cleared : bool }.

Definition active (h : Hold) (org : UUID) : bool := (bool_decide (h_org h = org) && negb (h_cleared h))%bool.

Definition list_active_holds (t : gmap Z Hold) (org : UUID) : list (Z * Hold) :=
  List.filter (fun ih => active ih.2 org) (map_to_list t).

(** [set_hold]: one active hold per organization, the only scope there is. *)
Definition set_hold (i : Z) (org : UUID) (reason : string) (by_ : UUID) (t : gmap Z Hold) : result ApiError (gmap Z Hold) :=
  raise_if negb (bool_decide (list_active_holds t org = [])) with HoldScopeConflict ;;
  Ok (<[i := {| h_org := org; h_reason := reason; h_set_by := by_; h_cleared_by := None; h_cleared := false |}]> t).

Definition clear_hold (i : Z) (org by_ : UUID) (t : gmap Z Hold) : result ApiError (gmap Z Hold) :=
  match t !! i with
  | Some h =>
      if active h org
      then Ok (<[i := {| h_org := h_org h; h_reason := h_reason h; h_set_by := h_set_by h; h_cleared_by := Some by_;
                         h_cleared := true |}]> t)
      else Raise NotFound
  | None => Raise NotFound
  end.

Inductive step : gmap Z Hold -> gmap Z Hold -> Prop :=
| step_set t t' i org reason by_ : t !! i = None -> set_hold i org reason by_ t = Ok t' -> step t t'
| step_clear t t' i org by_ : clear_hold i org by_ t = Ok t' -> step t t'.

(** The holds of an organization that stand. *)
Definition one_per_org (t : gmap Z Hold) : Prop :=
  forall i j h k org, t !! i = Some h -> t !! j = Some k -> active h org = true -> active k org = true -> i = j.

Lemma list_active_nil t org : list_active_holds t org = [] -> forall i h, t !! i = Some h -> active h org = false.
Proof.
  intros Hl i h Hi. destruct (active h org) eqn:Ha; [|done]. exfalso. assert ((i, h) ∈ list_active_holds t org) as Hin.
  { apply list_elem_of_In, List.filter_In. split; [by apply list_elem_of_In, elem_of_map_to_list|done]. }
  rewrite Hl in Hin. by apply elem_of_nil in Hin.
Qed.

Lemma one_per_org_step t t' : step t t' -> one_per_org t -> one_per_org t'.
Proof.
  intros Hs Hone. destruct Hs as [t t' i org reason by_ Hi Hs|t t' i org by_ Hs].
  - unfold set_hold in Hs. case_bool_decide as Hl; [|done]. injection Hs as <-.
    intros j k h h' o [[<- <-]|[? Hj]]%lookup_insert_Some [[<- <-]|[? Hk]]%lookup_insert_Some Ha Hb; [done| | |by eapply Hone].
    + exfalso. assert (o = org) as ->.
      { unfold active in Ha. apply andb_prop in Ha as [Ha _]. by apply bool_decide_eq_true in Ha. }
      pose proof (list_active_nil t org Hl k h' Hk). congruence.
    + exfalso. assert (o = org) as ->.
      { unfold active in Hb. apply andb_prop in Hb as [Hb _]. by apply bool_decide_eq_true in Hb. }
      pose proof (list_active_nil t org Hl j h Hj). congruence.
  - unfold clear_hold in Hs. destruct (t !! i) as [h0|] eqn:Hi; [|done]. destruct (active h0 org); [|done]. injection Hs as <-.
    intros j k h h' o [[<- <-]|[? Hj]]%lookup_insert_Some [[<- <-]|[? Hk]]%lookup_insert_Some Ha Hb; [done| | |by eapply Hone].
    + unfold active in Ha. cbn in Ha. by rewrite andb_false_r in Ha.
    + unfold active in Hb. cbn in Hb. by rewrite andb_false_r in Hb.
Qed.

(** An organization has at most one standing hold, and a hold stands until a request
    of its own organization clears it. *)
Theorem holds_stand_until_cleared t t' i h org :
  rtc step ∅ t -> t !! i = Some h -> active h org = true -> step t t' ->
  one_per_org t' /\ (t' !! i = Some h \/ exists by_, clear_hold i org by_ t = Ok t').
Proof.
  intros Hr Hi Ha Hs. split.
  { apply (one_per_org_step t t' Hs). clear -Hr. assert (one_per_org ∅) as H0 by (intros i j h k org Hi; by rewrite lookup_empty in Hi).
    revert H0. induction Hr; [done|]. intros H0. apply IHHr. by eapply one_per_org_step. }
  destruct Hs as [t t' j o reason by_ Hj Hs|t t' j o by_ Hs].
  - left. unfold set_hold in Hs. case_match; [done|]. injection Hs as <-. rewrite lookup_insert_ne; [done|]. intros ->. congruence.
  - destruct (decide (j = i)) as [->|Hne].
    + right. exists by_. assert (o = org) as ->; [|done]. unfold clear_hold in Hs. rewrite Hi in Hs.
      destruct (active h o) eqn:Ho; [|done]. unfold active in Ha, Ho. apply andb_prop in Ha as [Ha _], Ho as [Ho _].
      apply bool_decide_eq_true in Ha, Ho. congruence.
    + left. unfold clear_hold in Hs. destruct (t !! j); [|done]. destruct (active _ o); [|done]. injection Hs as <-.
      by rewrite lookup_insert_ne.
Qed.
End Holds.

(** ** Rate limits *)

Module RateLimits.

(** [rate_limit_overrides]: one row per organization, and per agent of it. *)
Abbreviation Table := (gmap (string * option string) Z).

Record PatchRequest := {
  pr_rpm : option Z;
  pr_clear : bool;
  pr_agents : list (string * option Z);
}.

Definition apply_org_patch (org : string) (b : PatchRequest) (t : Table) : result ApiError Table :=
  if (pr_clear b && bool_decide (is_Some (pr_rpm b)))%bool then Raise ValidationError
  else if pr_clear b then Ok (delete (org, None) t)
  else match pr_rpm b with Some rpm => Ok (<[(org, None) := rpm]> t) | None => Ok t end.

(** One round of [_apply_agent_patches]. *)
Definition apply_agent_patch (agents : list (string * string)) (org : string) (t : Table) (item : string * option Z) : result ApiError Table :=
  if bool_decide ((item.1, org) ∈ agents)
  then Ok match item.2 with Some rpm => <[(org, Some item.1) := rpm]> t | None => delete (org, Some item.1) t end
  else Raise NotFound.

(** [patch_rate_limits]: one transaction; [agents] are the live agents with their
    organizations. *)
Definition patch_rate_limits (agents : list (string * string)) (org : string) (b : PatchRequest) (t : Table) : result ApiError Table :=
  let* t := apply_org_patch org b t in
  rfold (apply_agent_patch agents org) t (pr_agents b).

(** [get_rate_limits]: the limit of the organization and the overrides of agents. *)
Definition org_limit (platform_default : Z) (org : string) (t : Table) : Z := default platform_default (t !! (org, None)).
Definition agent_override (org agent : string) (t : Table) : option Z := t !! (org, Some agent).

(** What a request says last about an agent. *)
Definition last_word (agent : string) (l : list (string * option Z)) : option (option Z) :=
  snd <$> last (List.filter (fun it => bool_decide (it.1 = agent)) l).

Lemma agent_patches_spec agents org l : forall t t',
  rfold (apply_agent_patch agents org) t l = Ok t' ->
  (forall k, k.1 <> org \/ k.2 = None -> t' !! k = t !! k) /\
  (forall a, t' !! (org, Some a) = match last_word a l with Some v => v | None => t !! (org, Some a) end).
Proof.
  induction l as [|[a v] l IH]; intros t t'; cbn [rfold]; [intros [= <-]; done|].
  unfold apply_agent_patch at 1. cbn [fst snd]. case_bool_decide; [|done]. cbn [rbind]. intros (H1 & H2)%IH. split.
  - intros k Hk. rewrite (H1 k Hk). assert ((org, Some a) <> k) by (intros <-; cbn in Hk; naive_solver).
    destruct v; [by rewrite lookup_insert_ne|by rewrite lookup_delete_ne].
  - intros b. rewrite H2. unfold last_word. cbn [List.filter fst]. case_bool_decide as Hab.
    + subst b. destruct (List.filter _ l) as [|x k] eqn:Hf; cbn [last fmap option_fmap option_map snd].
      * destruct v; [by rewrite lookup_insert_eq|by rewrite lookup_delete_eq].
      * destruct (last (x :: k)) eqn:Hl; [done|]. by apply last_None in Hl.
    + destruct (last _); cbn; [done|]. destruct v; [rewrite lookup_insert_ne by congruence|rewrite lookup_delete_ne by congruence]; done.
Qed.

(** A patch of the limits reads back: after it, the organization's limit is the
    one requested, the platform default if it was cleared and the old one otherwise;
    an agent has the override the request names last for it and keeps its own if it
    is not named; no other organization's limits change. *)
Theorem patched_limits_read_back agents org b t t' platform_default :
  patch_rate_limits agents org b t = Ok t' ->
  org_limit platform_default org t' =
    (if pr_clear b then platform_default else default (org_limit platform_default org t) (pr_rpm b)) /\
  (forall a, agent_override org a t' = match last_word a (pr_agents b) with Some v => v | None => agent_override org a t end) /\
  (forall k, k.1 <> org -> t' !! k = t !! k).
Proof.
  unfold patch_rate_limits. intros (t1 & Ho & (H1 & H2)%agent_patches_spec)%rbind_Ok. unfold apply_org_patch in Ho.
  assert ((forall k, k <> (org, None) -> t1 !! k = t !! k) /\
          t1 !! (org, None) = if pr_clear b then None else match pr_rpm b with Some r => Some r | None => t !! (org, None) end) as [Hk Hn].
  { destruct (pr_clear b && _)%bool; [done|]. destruct (pr_clear b); [|destruct (pr_rpm b) as [r|]]; injection Ho as <-.
    - split; [intros k Hk; by rewrite lookup_delete_ne|by rewrite lookup_delete_eq].
    - split; [intros k Hk; by rewrite lookup_insert_ne|by rewrite lookup_insert_eq].
    - done. }
  split; [|split].
  - unfold org_limit. rewrite H1 by (by right). rewrite Hn. destruct (pr_clear b); [done|]. by destruct (pr_rpm b).
  - intros a. unfold agent_override. rewrite H2. destruct (last_word a (pr_agents b)); [done|]. by apply Hk.
  - intros k Hne. rewrite H1 by (by left). apply Hk. intros ->. done.
Qed.
End RateLimits.

(** ** Samples *)

Module ControlsSample.
Import CapturePolicies.

Definition one_policy : list Op := [Create 1 "o" None full 100; Create 2 "o" (Some "a"%string) redacted 900].
Definition world : World (V := nat) := {| policies := table (run one_policy); events := ∅; blobs := ∅ |}.

Lemma capture_mode_is_one_rule_witness :
  resolve_mode (policies world) "o" (Some "a"%string) = redacted /\ resolve_capture_mode world "o" (Some "a"%string) = redacted.
Proof.
  destruct (capture_mode_is_one_rule one_policy "o" (Some "a"%string) world eq_refl) as [H1 H2].
  rewrite <- H1, H2. split; vm_compute; reflexivity.
Defined.

(** A patch writes back what it read: one that only changes the priority, read
    before and written after another request turned capture off, turns it on again. *)
Theorem stale_patch_restores_capture :
  let ops := [Create 1 "o" None full 100; PatchRead 1 1 "o" None (Some 5); PatchRead 2 1 "o" (Some none) None; PatchWrite 2] in
  effective_mode (rows (run ops)) "o" None = none /\
  effective_mode (rows (run (ops ++ [PatchWrite 1]))) "o" None = full.
Proof. vm_compute. done. Qed.

Definition limits : RateLimits.PatchRequest :=
  {| RateLimits.pr_rpm := Some 60; RateLimits.pr_clear := false;
     RateLimits.pr_agents := [("a"%string, Some 10); ("b"%string, Some 7); ("a"%string, None)] |}.

Lemma patched_limits_read_back_witness :
  exists t, RateLimits.patch_rate_limits [("a"%string, "o"%string); ("b"%string, "o"%string)] "o" limits {[("o"%string, Some "a"%string) := 9]} = Ok t /\
    RateLimits.org_limit 100 "o" t = 60 /\ RateLimits.agent_override "o" "a" t = None.
Proof.
  destruct (RateLimits.patch_rate_limits [("a"%string, "o"%string); ("b"%string, "o"%string)] "o" limits {[("o"%string, Some "a"%string) := 9]})
    as [t|e] eqn:Ht; [|vm_compute in Ht; discriminate].
  exists t. split; [reflexivity|]. destruct (RateLimits.patched_limits_read_back _ _ _ _ _ 100 Ht) as (H1 & H2 & _).
  rewrite H1, (H2 "a"%string). split; vm_compute; reflexivity.
Defined.
End ControlsSample.
