(* ===== verification/Fingerprint.v ===== *)
(** * The request fingerprint
    ([packages/ibex_idempotency/src/ibex_idempotency/fingerprint.py])

    The ledger binds a key to the SHA-256 of a canonical text of the request: a
    [json.dumps] with sorted keys, compact separators and no ASCII escaping.  The
    text identifies the request: two requests have the same text exactly when
    they are the same JSON value, the order of the keys of a dict aside.
    SHA-256 and [float.__repr__] are parameters. *)

From stdpp Require Import pretty.
From Stdlib Require Import SpecFloat.
From S2P Require Import Prelude PyText Num MemoryStore PiiGuard ReadRank MemoryRead ModelClients.

(** ** [json.dumps] *)

(** [float.__repr__], with [NaN] and [Infinity] as [json] writes them.  Its texts
    are numerals that no integer has, and reading one back gives the number. *)
Class FloatRepr := {
  float_repr : binary64 -> pystr;
  float_repr_chars : forall x, float_repr x <> [] /\ Forall (fun c => c ∈ lit "0123456789+-.eINafinty") (float_repr x);
  float_repr_not_int : forall x (z : Z), float_repr x <> lit (pretty z);
  float_repr_inj : forall x y, valid_binary 53 1024 x = true -> valid_binary 53 1024 y = true ->
    float_repr x = float_repr y -> x = y;
}.

Definition comma : Z := 44.
Definition colon : Z := 58.
Definition quote_mark : Z := 34.
Definition backslash : Z := 92.

(** [ESCAPE_DCT] and [\u00XX] below U+0020. *)
Definition escape_char (c : Z) : pystr :=
  if c =? quote_mark then [backslash; quote_mark]
  else if c =? backslash then [backslash; backslash]
  else if c =? 10 then backslash :: lit "n"
  else if c =? 13 then backslash :: lit "r"
  else if c =? 9 then backslash :: lit "t"
  else if c =? 12 then backslash :: lit "f"
  else if c =? 8 then backslash :: lit "b"
  else if c <? 32 then backslash :: lit "u00" ++ hexs 2 c
  else [c].

(** A string literal. *)
Definition dump_str (s : pystr) : pystr := quote_mark :: (s ≫= escape_char) ++ [quote_mark].

(** [",".join(parts)] *)
Definition more (parts : list pystr) : pystr := parts ≫= cons comma.
Definition join_comma (parts : list pystr) : pystr :=
  match parts with [] => [] | p :: parts => p ++ more parts end.

(** Comparison of strings by code point. *)
Fixpoint text_ltb (s t : pystr) : bool :=
  match s, t with
  | _, [] => false
  | [], _ :: _ => true
  | a :: s, b :: t => ((a <? b) || (a =? b) && text_ltb s t)%bool
  end.

(** A key with the text of its value, as [item_separator] and [key_separator] set it. *)
Definition dump_entry (kt : pystr * pystr) : pystr := dump_str kt.1 ++ colon :: kt.2.

Section Dumps.
Context `{FloatRepr}.

(** [json.dumps(.., sort_keys=True, separators=(",", ":"), ensure_ascii=False)] *)
Fixpoint dumps (j : Json) : pystr :=
  match j with
  | JNull => lit "null"
  | JBool b => lit (if b then "true" else "false")
  | JInt z => lit (pretty z)
  | JFloat x => float_repr x
  | JStr s => dump_str s
  | JList l => [91] ++ join_comma (map dumps l) ++ [93]
  | JObj fields =>
      [123] ++ join_comma (map dump_entry (py_sorted (key_ltb fst text_ltb) (map (fun kv => (kv.1, dumps kv.2)) fields))) ++ [125]
  end.
End Dumps.

(** ** The fingerprint *)

Definition IDEMPOTENCY_CONTRACT : pystr := lit "request-idempotency-core.v1".

(** [str.upper] of an HTTP method, which is ASCII. *)
Definition upper_char (c : Z) : Z := if ((97 <=? c) && (c <=? 122))%bool then c - 32 else c.
Definition upper (s : pystr) : pystr := upper_char <$> s.

Section Request.
Context `{FloatRepr} (sha256 : bytes -> string).

Definition request_object (contract method path : pystr) (payload : Json) : Json :=
  JObj [(lit "contract", JStr contract); (lit "method", JStr (upper method)); (lit "path", JStr path); (lit "payload", payload)].

(** [canonical_request_bytes]; [None] is the [UnicodeEncodeError] of a lone
    surrogate. *)
Definition canonical_request_bytes (contract method path : pystr) (payload : Json) : option bytes :=
  utf8_encode (dumps (request_object contract method path payload)).

(** [fingerprint_request] *)
Definition fingerprint_request (contract method path : pystr) (payload : Json) : option string :=
  sha256 <$> canonical_request_bytes contract method path payload.
End Request.

(** ** Values *)

Section JsonInd.
Context (P : Json -> Prop)
  (Hnull : P JNull) (Hbool : forall b, P (JBool b)) (Hint : forall z, P (JInt z))
  (Hfloat : forall f, P (JFloat f)) (Hstr : forall s, P (JStr s))
  (Hlist : forall l, Forall P l -> P (JList l))
  (Hobj : forall o, Forall (fun kv => P kv.2) o -> P (JObj o)).

(** Induction through lists and dicts. *)
Fixpoint Json_nested_ind (j : Json) : P j :=
  match j with
  | JNull => Hnull
  | JBool b => Hbool b
  | JInt z => Hint z
  | JFloat f => Hfloat f
  | JStr s => Hstr s
  | JList l => Hlist l
      ((fix go (l : list Json) : Forall P l :=
          match l with
          | [] => @List.Forall_nil _ _
          | x :: l => @List.Forall_cons _ _ x l (Json_nested_ind x) (go l)
          end) l)
  | JObj o => Hobj o
      ((fix go (o : list (pystr * Json)) : Forall (fun kv => P kv.2) o :=
          match o with
          | [] => @List.Forall_nil _ _
          | kv :: o => @List.Forall_cons _ _ kv o (Json_nested_ind kv.2) (go o)
          end) o)
  end.
End JsonInd.

(** The values of Python: a string is made of code points, a dict has no key twice,
    a float is a double. *)
Definition code_points (s : pystr) : bool := forallb (Z.leb 0) s.

Fixpoint well_formed (j : Json) : bool :=
  match j with
  | JFloat x => valid_binary 53 1024 x
  | JStr s => code_points s
  | JList l => forallb well_formed l
  | JObj fields => (bool_decide (NoDup (map fst fields)) && forallb (fun kv => code_points kv.1 && well_formed kv.2)%bool fields)%bool
  | _ => true
  end.

(** The same JSON value: the order of the keys of a dict does not matter. *)
Inductive same : Json -> Json -> Prop :=
| same_null : same JNull JNull
| same_bool b : same (JBool b) (JBool b)
| same_int z : same (JInt z) (JInt z)
| same_float x : same (JFloat x) (JFloat x)
| same_str s : same (JStr s) (JStr s)
| same_list l k : Forall2 same l k -> same (JList l) (JList k)
| same_obj fs hs gs : fs ≡ₚ hs -> Forall2 (fun a b => a.1 = b.1 /\ same a.2 b.2) hs gs -> same (JObj fs) (JObj gs).

(** Every string of the value has a UTF-8 encoding. *)
Fixpoint encodable (j : Json) : bool :=
  match j with
  | JStr s => forallb scalar s
  | JList l => forallb encodable l
  | JObj fields => forallb (fun kv => forallb scalar kv.1 && encodable kv.2)%bool fields
  | _ => true
  end.

(** ** Order of keys *)

Lemma text_ltb_antisym s : forall t, text_ltb s t = false -> text_ltb t s = false -> s = t.
Proof.
  induction s as [|a s IH]; intros [|b t]; try done. cbn. intros H1 H2.
  apply orb_false_iff in H1 as [L1%Z.ltb_ge E1]. apply orb_false_iff in H2 as [L2%Z.ltb_ge E2].
  assert (a = b) as -> by lia. rewrite Z.eqb_refl in E1, E2. f_equal. by apply IH.
Qed.

#[global] Instance text_ltb_order : PyOrder text_ltb (fun _ => True).
Proof.
  split.
  - intros s t _ _. revert t. induction s as [|a s IH]; intros [|b t]; try done. cbn.
    intros [H%Z.ltb_lt|[H%Z.eqb_eq H']%andb_prop]%orb_prop.
    + rewrite (proj2 (Z.ltb_ge _ _)), (proj2 (Z.eqb_neq _ _)) by lia. done.
    + subst. by rewrite Z.ltb_irrefl, Z.eqb_refl, IH.
  - intros s t u _ _ _. revert t u. induction s as [|a s IH]; intros [|b t] [|c u]; try done. cbn.
    intros [L1%Z.ltb_ge E1]%orb_false_iff [L2%Z.ltb_ge E2]%orb_false_iff. apply orb_false_iff. split; [apply Z.ltb_ge; lia|].
    destruct (c =? a) eqn:E; [|done]. apply Z.eqb_eq in E. assert (b = a) by lia. subst.
    rewrite Z.eqb_refl in E1, E2. by apply (IH t u).
Qed.

(** ** Prefixes *)

(** What can follow a value: the end, or a delimiter. *)
Definition ends (r : pystr) : Prop := match r with [] => True | c :: _ => c = comma \/ c = 93 \/ c = 125 end.

(** Characters a value with no delimiter of its own is made of. *)
Definition plain (c : Z) : Prop := ~ c ∈ [quote_mark; comma; 91; 93; 123; 125].

Lemma plain_split t1 : forall t2 r1 r2, Forall plain t1 -> Forall plain t2 -> ends r1 -> ends r2 ->
  t1 ++ r1 = t2 ++ r2 -> t1 = t2 /\ r1 = r2.
Proof.
  assert (forall c t r r', plain c -> ends r -> r = c :: t ++ r' -> False) as Habs.
  { intros c t r r' Hc Hr ->. apply Hc. cbn in Hr. unfold comma in *. destruct Hr as [-> | [-> | ->]]; set_solver. }
  induction t1 as [|c t1 IH]; intros [|d t2] r1 r2 H1 H2 Hr1 Hr2 E; cbn in E.
  - done.
  - exfalso. apply Forall_cons in H2 as [Hd _]. exact (Habs _ _ _ _ Hd Hr1 E).
  - exfalso. apply Forall_cons in H1 as [Hc _]. exact (Habs _ _ _ _ Hc Hr2 (eq_sym E)).
  - apply Forall_cons in H1 as [_ H1]. apply Forall_cons in H2 as [_ H2]. injection E as -> E.
    by destruct (IH t2 r1 r2) as [-> ->].
Qed.

Lemma hexs2_cons c r d r' : 0 <= c < 256 -> 0 <= d < 256 -> hexs 2 c ++ r = hexs 2 d ++ r' -> c = d /\ r = r'.
Proof.
  intros Hc Hd E. apply app_inj_1 in E as [E ->]; [|by rewrite !hexs_length]. split; [|done].
  cbn [hexs app] in E. injection E as E1 E2.
  assert (forall a b, 0 <= a < 16 -> 0 <= b < 16 -> hex_char a = hex_char b -> a = b) as Hinj.
  { intros a b Ha Hb Hab. apply hex_char_ok in Ha as [_ Ha], Hb as [_ Hb]. rewrite Hab in Ha. congruence. }
  apply Hinj in E1; [|apply Z.mod_pos_bound; lia..]. apply Hinj in E2; [|apply Z.mod_pos_bound; lia..].
  divmod c 16. divmod d 16. rewrite !(Z.mod_small (_ / 16)) in E1 by (split; [apply Z.div_pos|apply Z.div_lt_upper_bound]; lia). lia.
Qed.

(** The escapes are a prefix code. *)
Lemma escape_char_split c d r r' : 0 <= c -> 0 <= d -> escape_char c ++ r = escape_char d ++ r' -> c = d /\ r = r'.
Proof.
  unfold escape_char, quote_mark, backslash. intros Hc Hd.
  repeat (case_match; bools); cbn [app lit]; intros E; simplify_eq/=; try (split; [lia|done]); try done.
  apply (hexs2_cons c r' d r'); [lia..|]. cbn [hexs app]. congruence.
Qed.

Lemma escape_char_first c : exists d t, escape_char c = d :: t /\ d <> quote_mark.
Proof. unfold escape_char. repeat case_match; bools; eexists _, _; (split; [done|]); cbn; done || lia. Qed.

Lemma dump_str_split s : forall t r r', code_points s = true -> code_points t = true ->
  dump_str s ++ r = dump_str t ++ r' -> s = t /\ r = r'.
Proof.
  unfold dump_str. cbn [app]. setoid_rewrite <- app_assoc. cbn [app].
  induction s as [|c s IH]; intros [|d t] r r' Hs Ht [= E].
  - done.
  - destruct (escape_char_first d) as (x & y & Hd & Hx). cbn [mbind list_bind app] in E. rewrite Hd in E. cbn [app] in E. congruence.
  - destruct (escape_char_first c) as (x & y & Hd & Hx). cbn [mbind list_bind app] in E. rewrite Hd in E. cbn [app] in E. congruence.
  - cbn in Hs, Ht. bools. cbn [mbind list_bind] in E. rewrite <- !app_assoc in E.
    apply escape_char_split in E as [-> E]; [|done..].
    destruct (IH t r r') as [-> ->]; try done. f_equal. exact E.
Qed.

(** ** Sequences of items *)

(** Items whose texts can be told apart can be told apart in a sequence. *)
Lemma items_split {A B : Type} (f : A -> pystr) (g : B -> pystr) (R : A -> B -> Prop) (close : Z) l :
  close = 93 \/ close = 125 ->
  forall k r r',
  (forall x y r r', x ∈ l -> y ∈ k -> ends r -> ends r' -> f x ++ r = g y ++ r' -> R x y /\ r = r') ->
  more (map f l) ++ close :: r = more (map g k) ++ close :: r' -> Forall2 R l k /\ r = r'.
Proof.
  intros Hclose. induction l as [|x l IH]; intros [|y k] r r' Hone E.
  - injection E as ->. done.
  - exfalso. cbn in E. unfold comma in E. injection E as -> _. by destruct Hclose.
  - exfalso. cbn in E. unfold comma in E. injection E as <- _. by destruct Hclose.
  - cbn [map more mbind list_bind] in E. cbn [app] in E. injection E as E. rewrite <- !app_assoc in E.
    assert (forall ps s, ends (more ps ++ close :: s)) as Hends.
    { intros [|p ps] s; cbn; [|by left]. by destruct Hclose; right; [left|right]. }
    apply Hone in E as [Hxy E]; [|set_solver|set_solver|apply Hends|apply Hends].
    destruct (IH k r r') as [Hlk ->]; [|exact E|by split; [constructor|]].
    intros. apply Hone; [set_solver..|done|done|done].
Qed.

Lemma joined_split {A B : Type} (f : A -> pystr) (g : B -> pystr) (R : A -> B -> Prop) (close : Z) l k r r' :
  close = 93 \/ close = 125 ->
  (forall x, x ∈ l -> exists c t, f x = c :: t /\ c <> close) -> (forall y, y ∈ k -> exists c t, g y = c :: t /\ c <> close) ->
  (forall x y r r', x ∈ l -> y ∈ k -> ends r -> ends r' -> f x ++ r = g y ++ r' -> R x y /\ r = r') ->
  join_comma (map f l) ++ close :: r = join_comma (map g k) ++ close :: r' -> Forall2 R l k /\ r = r'.
Proof.
  intros Hclose Hf Hg Hone E. destruct l as [|x l], k as [|y k].
  - by injection E as ->.
  - exfalso. destruct (Hg y) as (c & t & Hy & Hc); [set_solver|]. cbn in E. rewrite Hy in E. cbn in E. congruence.
  - exfalso. destruct (Hf x) as (c & t & Hy & Hc); [set_solver|]. cbn in E. rewrite Hy in E. cbn in E. congruence.
  - apply (items_split f g R close (x :: l) Hclose (y :: k) r r'); [done|]. cbn [map more mbind list_bind]. cbn [app]. f_equal.
    exact E.
Qed.

(** ** Texts of values *)

Definition int_chars : pystr := lit "0123456789-".

Lemma pretty_N_char_digit x : Z.of_nat (nat_of_ascii (pretty_N_char x)) ∈ int_chars.
Proof. unfold pretty_N_char, int_chars. repeat case_match; vm_compute; set_solver. Qed.

Lemma pretty_N_go_digits x s : Forall (fun c => c ∈ int_chars) (lit s) -> Forall (fun c => c ∈ int_chars) (lit (pretty_N_go x s)).
Proof.
  revert s. induction (N.lt_wf_0 x) as [x _ IH]. intros s Hs.
  assert (x = 0 \/ 0 < x)%N as [->|Hx] by lia; [by rewrite pretty_N_go_0|].
  rewrite pretty_N_go_step by done. apply IH; [by apply N.div_lt|].
  unfold lit. cbn [list_ascii_of_string fmap list_fmap]. constructor; [apply pretty_N_char_digit|done].
Qed.

Lemma pretty_pos_digits (p : positive) : Forall (fun c => c ∈ int_chars) (lit (pretty p)).
Proof.
  unfold pretty, pretty_positive, pretty, pretty_N. case_decide; [done|]. apply pretty_N_go_digits. constructor.
Qed.

Lemma pretty_Z_digits (z : Z) : Forall (fun c => c ∈ int_chars) (lit (pretty z)).
Proof.
  unfold pretty, pretty_Z. destruct z as [|p|p].
  - repeat constructor.
  - apply pretty_pos_digits.
  - unfold lit. cbn [String.app list_ascii_of_string fmap list_fmap]. constructor; [vm_compute; set_solver|]. apply pretty_pos_digits.
Qed.

Lemma lit_inj s t : lit s = lit t -> s = t.
Proof.
  revert t. induction s as [|a s IH]; intros [|b t]; try done. unfold lit. cbn [list_ascii_of_string fmap list_fmap].
  intros [= Hab%Nat2Z.inj E]. f_equal; [|by apply IH]. apply (f_equal ascii_of_nat) in Hab. by rewrite !ascii_nat_embedding in Hab.
Qed.

Lemma pretty_nonempty (z : Z) : lit (pretty z) <> [].
Proof.
  intros E. apply (lit_inj (pretty z) EmptyString) in E. revert E.
  assert (forall x s, s <> EmptyString -> pretty_N_go x s <> EmptyString) as Hgo.
  { intros x. induction (N.lt_wf_0 x) as [x _ IH]. intros s Hs.
    assert (x = 0 \/ 0 < x)%N as [->|Hx] by lia; [by rewrite pretty_N_go_0|].
    rewrite pretty_N_go_step by done. apply IH; [by apply N.div_lt|done]. }
  assert (forall p : positive, pretty p <> EmptyString) as Hpos.
  { intros p. unfold pretty, pretty_positive, pretty, pretty_N. case_decide; [done|].
    rewrite pretty_N_go_step by lia. by apply Hgo. }
  unfold pretty, pretty_Z. by destruct z; [|apply Hpos|].
Qed.

Definition numeral_chars : pystr := lit "0123456789+-.eINafinty".
Definition numeral (t : pystr) : Prop := Forall (fun c => c ∈ numeral_chars) t.

Lemma chars_mono (cs ds t : pystr) : forallb (fun c => bool_decide (c ∈ ds)) cs = true ->
  Forall (fun c => c ∈ cs) t -> Forall (fun c => c ∈ ds) t.
Proof.
  rewrite !Forall_forall, forallb_forall. intros Hcs Ht c Hc. apply Ht, list_elem_of_In, Hcs in Hc. by apply bool_decide_eq_true in Hc.
Qed.

Section Injective.
Context `{FloatRepr}.

(** The values without strings, lists and dicts. *)
Definition word (j : Json) : bool := match j with JNull | JBool _ => true | _ => false end.
Definition number (j : Json) : bool := match j with JInt _ | JFloat _ => true | _ => false end.

Lemma number_numeral j : number j = true -> numeral (dumps j) /\ dumps j <> [].
Proof.
  destruct j as [| |z|x| | |]; try done; intros _; cbn [dumps].
  - split; [|intros E; apply pretty_nonempty in E; done].
    by eapply chars_mono; [|apply pretty_Z_digits].
  - split; apply float_repr_chars.
Qed.

Lemma numeral_plain t : numeral t -> Forall plain t.
Proof.
  intros Ht. eapply Forall_impl; [exact Ht|]. intros c Hc Hp. cbn in Hc.
  assert (bool_decide (c ∈ numeral_chars) = true) as Hb by (by apply bool_decide_eq_true).
  rewrite !elem_of_cons in Hp. destruct Hp as [->|[->|[->|[->|[->|[->|[]%elem_of_nil]]]]]]; by vm_compute in Hb.
Qed.

Lemma word_text j : word j = true -> Forall plain (dumps j) /\ exists c t, dumps j = c :: t /\ (c = 110 \/ c = 116 \/ c = 102) /\ (117 ∈ t \/ 115 ∈ t).
Proof.
  assert (forall t, forallb (fun c => bool_decide (plain c)) t = true -> Forall plain t) as Hp.
  { intros t Ht. apply Forall_forall. intros c Hc. apply list_elem_of_In in Hc.
    apply (proj1 (forallb_forall _ _) Ht) in Hc. by apply bool_decide_eq_true in Hc. }
  intros Hw. destruct j as [|[]| | | | |]; try done; (split; [by apply Hp|]); eexists _, _; (split; [done|]);
    (split; [auto|]); vm_compute; set_solver.
Qed.

Lemma atom_same j k : (word j || number j)%bool = true -> (word k || number k)%bool = true ->
  well_formed j = true -> well_formed k = true -> dumps j = dumps k -> same j k.
Proof.
  assert (forall j k, word j = true -> number k = true -> dumps j <> dumps k) as Habs.
  { intros j' k' Hj Hk E. destruct (word_text j' Hj) as (_ & c & t & Ht & _ & Hc).
    destruct (number_numeral k' Hk) as [Hn _]. rewrite <- E, Ht in Hn. apply Forall_cons in Hn as [_ Hn].
    rewrite Forall_forall in Hn. destruct Hc as [Hc|Hc]; apply Hn in Hc;
      apply (bool_decide_eq_true_2 _) in Hc; by vm_compute in Hc. }
  intros Hj Hk Wj Wk E. destruct (word j) eqn:Wdj, (word k) eqn:Wdk; cbn in Hj, Hk.
  - destruct j as [|[]| | | | |], k as [|[]| | | | |]; try done; constructor.
  - by apply Habs in E.
  - symmetry in E. by apply Habs in E.
  - destruct j as [| |z|x| | |], k as [| |z'|x'| | |]; try done; cbn [dumps] in E.
    + apply lit_inj in E. apply (inj pretty) in E as ->. constructor.
    + symmetry in E. by apply float_repr_not_int in E.
    + by apply float_repr_not_int in E.
    + apply float_repr_inj in E as ->; [constructor|done|done].
Qed.

(** The first character of a text tells what kind of value it is. *)
Lemma dumps_first j : exists c t, dumps j = c :: t /\
  match j with
  | JStr _ => c = quote_mark
  | JList _ => c = 91
  | JObj _ => c = 123
  | _ => plain c
  end.
Proof.
  destruct j as [|b|z|x|s|l|o]; try (by eexists _, _).
  1,2: match goal with |- context [dumps ?j] => destruct (word_text j eq_refl) as (Hp & c & t & Ht & _) end;
    rewrite Ht in Hp |- *; apply Forall_cons in Hp as [Hp _]; by eexists _, _.
  all: match goal with |- context [dumps ?j] => destruct (number_numeral j eq_refl) as [Hp%numeral_plain Hne] end;
    destruct (dumps _) as [|c t]; [done|]; apply Forall_cons in Hp as [Hp _]; by eexists _, _.
Qed.

Definition plain_value (j : Json) : bool := (word j || number j)%bool.

Lemma plain_value_text j : plain_value j = true -> Forall plain (dumps j).
Proof. unfold plain_value. intros [Hw|Hn]%orb_prop; [by apply word_text|by apply numeral_plain, number_numeral]. Qed.

Lemma kind_differs j k r r' : dumps j ++ r = dumps k ++ r' ->
  match j, k with
  | JStr _, JStr _ | JList _, JList _ | JObj _, JObj _ => True
  | JStr _, _ | JList _, _ | JObj _, _ | _, JStr _ | _, JList _ | _, JObj _ => False
  | _, _ => True
  end.
Proof.
  destruct (dumps_first j) as (c & t & -> & Hc), (dumps_first k) as (c' & t' & -> & Hc').
  cbn [app]. intros [= <- _].
  destruct j, k; try done; try (subst c; done); try (subst c; apply Hc'; vm_compute; set_solver);
    try (subst c; apply Hc; vm_compute; set_solver).
Qed.

Definition read_back (j : Json) : Prop := forall k r r', well_formed j = true -> well_formed k = true -> ends r -> ends r' ->
  dumps j ++ r = dumps k ++ r' -> same j k /\ r = r'.

Lemma plain_read_back j : plain_value j = true -> read_back j.
Proof.
  intros Hj k r r' Wj Wk Hr Hr' E.
  assert (plain_value k = true) as Hk by (apply kind_differs in E; by destruct j, k).
  apply plain_split in E as [E ->]; try done; try by apply plain_value_text.
  split; [|done]. by apply atom_same.
Qed.

Lemma list_read_back l : Forall read_back l -> read_back (JList l).
Proof.
  intros IH k r r' Wj Wk Hr Hr' E. pose proof (kind_differs _ _ _ _ E) as Hkind. destruct k as [| | | | |l'|]; try done.
  cbn [dumps app] in E. injection E as E. rewrite <- !app_assoc in E. cbn [app] in E.
  cbn [well_formed] in Wj, Wk. rewrite forallb_forall in Wj, Wk. setoid_rewrite <- list_elem_of_In in Wj. setoid_rewrite <- list_elem_of_In in Wk.
  rewrite Forall_forall in IH.
  assert (forall x : Json, exists c t, dumps x = c :: t /\ c <> 93) as Hfirst.
  { intros x. destruct (dumps_first x) as (c & t & -> & Hc). exists c, t. split; [done|]. intros ->.
    destruct x; try done; apply Hc; vm_compute; set_solver. }
  apply (joined_split dumps dumps same 93) in E as [Hs ->]; [|by left|auto|auto|].
  - split; [by constructor|done].
  - intros x y s s' Hx Hy. by apply IH; auto.
Qed.

Lemma obj_read_back o : Forall (fun kv => read_back kv.2) o -> read_back (JObj o).
Proof.
  intros IH k r r' Wj Wk Hr Hr' E. pose proof (kind_differs _ _ _ _ E) as Hkind. destruct k as [| | | | | |o']; try done.
  cbn [dumps app] in E. injection E as E. rewrite <- !app_assoc in E. cbn [app] in E.
  cbn [well_formed] in Wj, Wk. apply andb_prop in Wj as [_ Wj], Wk as [_ Wk].
  rewrite forallb_forall in Wj, Wk. setoid_rewrite <- list_elem_of_In in Wj. setoid_rewrite <- list_elem_of_In in Wk.
  rewrite Forall_forall in IH.
  set (g := fun kv : pystr * Json => (kv.1, dumps kv.2)) in E.
  assert (forall kt os, kt ∈ py_sorted (key_ltb fst text_ltb) (map g os) -> exists kv, kt = g kv /\ kv ∈ os) as Hin.
  { intros kt os Hk. rewrite py_sorted_perm in Hk. apply list_elem_of_fmap in Hk. naive_solver. }
  assert (forall kt, exists c t, dump_entry kt = c :: t /\ c <> 125) as Hfirst by (intros kt; by eexists _, _).
  apply (joined_split dump_entry dump_entry eq 125) in E as [Hs ->]; [|by right|auto|auto|].
  - split; [|done]. apply list_eq_Forall2 in Hs.
    assert (map g o ≡ₚ map g o') as Hp by (rewrite <- (py_sorted_perm (key_ltb fst text_ltb) (map g o)), Hs; apply py_sorted_perm).
    destruct (Permutation_map_inv _ _ (Permutation_sym Hp)) as (hs & Hhs & Hph).
    apply (same_obj o hs o'); [done|].
    apply Forall2_same_length_lookup. split; [by apply (f_equal length) in Hhs; rewrite !length_map in Hhs|].
    intros i a b Ha Hb. apply (f_equal (.!! i)) in Hhs. rewrite !list_lookup_fmap, Ha, Hb in Hhs. injection Hhs as E1 E2.
    split; [done|]. apply list_elem_of_lookup_2 in Ha, Hb. rewrite <- Hph in Ha.
    apply (IH a Ha b.2 [] []); [apply Wj in Ha; by bools|apply Wk in Hb; by bools|done|done|by rewrite E2].
  - intros kt kt' s s' Hk Hk' Hs Hs' E'. apply Hin in Hk as (kv & -> & Hkv), Hk' as (kv' & -> & Hkv').
    destruct (andb_prop _ _ (Wj _ Hkv)) as [Hc Hw], (andb_prop _ _ (Wk _ Hkv')) as [Hc' Hw'].
    unfold dump_entry in E'. rewrite <- !app_assoc in E'. apply dump_str_split in E' as [Ek E']; [|done..].
    cbn [app] in E'. injection E' as E'. cbn [fst snd g] in *.
    destruct (IH kv Hkv kv'.2 s s') as [_ <-]; try done.
    apply app_inv_tail in E'. unfold g. by rewrite Ek, E'.
Qed.

Lemma dumps_read_back j : read_back j.
Proof.
  induction j as [| | | |s|l IH|o IH] using Json_nested_ind; try (by apply plain_read_back).
  - intros k r r' Wj Wk Hr Hr' E. pose proof (kind_differs _ _ _ _ E) as Hkind. destruct k as [| | | |s'| |]; try done.
    apply dump_str_split in E as [-> ->]; [|done..]. split; [constructor|done].
  - by apply list_read_back.
  - by apply obj_read_back.
Qed.

(** The same value has one text. *)
Lemma same_dumps j : forall k, well_formed j = true -> same j k -> dumps j = dumps k.
Proof.
  induction j as [| | | |s|l IH|o IH] using Json_nested_ind; intros k Wj Hs; inversion Hs as [| | | | |? k' Hl|? hs gs Hp Hf]; subst; try done.
  - cbn [dumps]. do 3 f_equal. cbn [well_formed] in Wj. apply list_eq_same_length with (length l); [by rewrite length_map, (Forall2_length _ _ _ Hl)|by rewrite length_map|].
    intros i x y _ Hx Hy. apply list_lookup_fmap_Some in Hx as (a & -> & Ha), Hy as (b & -> & Hb).
    apply (Forall_lookup_1 _ _ _ _ IH Ha); [|by apply (Forall2_lookup_lr _ _ _ _ _ _ Hl Ha Hb)].
    apply list_elem_of_lookup_2, list_elem_of_In in Ha. by apply (proj1 (forallb_forall _ _) Wj) in Ha.
  - cbn [dumps]. do 4 f_equal. cbn [well_formed] in Wj. apply andb_prop in Wj as [Hnd%bool_decide_eq_true Wj].
    assert (map (fun kv => (kv.1, dumps kv.2)) hs = map (fun kv => (kv.1, dumps kv.2)) gs) as Hm.
    { apply list_eq_same_length with (length hs); [by rewrite length_map, (Forall2_length _ _ _ Hf)|by rewrite length_map|].
      intros i x y _ Hx Hy. apply list_lookup_fmap_Some in Hx as (a & -> & Ha), Hy as (b & -> & Hb).
      destruct (Forall2_lookup_lr _ _ _ _ _ _ Hf Ha Hb) as [-> Hab]. f_equal.
      apply list_elem_of_lookup_2 in Ha. rewrite <- Hp in Ha. rewrite Forall_forall in IH. apply IH; [done| |done].
      apply list_elem_of_In in Ha. apply (proj1 (forallb_forall _ _) Wj) in Ha. by bools. }
    apply py_sorted_canonical with (ok := fun _ => True); [exact (key_ltb_order fst text_ltb (fun _ => True))|by apply Forall_true|by rewrite <- Hm, Hp|].
    intros x y Hx Hy E1 E2. assert (x.1 = y.1) as Hk by (by apply text_ltb_antisym).
    apply list_elem_of_fmap in Hx as (a & -> & Ha), Hy as (b & -> & Hb). cbn in Hk.
    assert (a = b) as ->; [|done]. apply list_elem_of_lookup in Ha as [i Hi], Hb as [i' Hi'].
    assert (i = i') as <-; [|congruence].
    apply (NoDup_lookup _ i i' a.1) in Hnd; [done|by rewrite list_lookup_fmap, Hi|by rewrite list_lookup_fmap, Hi', Hk].
Qed.

Lemma dumps_inj j k : well_formed j = true -> well_formed k = true -> dumps j = dumps k <-> same j k.
Proof.
  intros Wj Wk. split; [|by apply same_dumps]. intros E. apply (dumps_read_back j k [] []); try done. by rewrite !app_nil_r.
Qed.

(** ** Encoding *)

Lemma scalars_bind {A} (f : A -> pystr) l : forallb scalar (l ≫= f) = forallb (fun x => forallb scalar (f x)) l.
Proof. induction l as [|x l IH]; [done|]. cbn [mbind list_bind]. by rewrite forallb_app, IH. Qed.

Lemma forallb_map {A B} (g : A -> B) (f : B -> bool) l : forallb f (map g l) = forallb (fun x => f (g x)) l.
Proof. induction l as [|x l IH]; [done|]. cbn. by rewrite IH. Qed.

Lemma dump_str_scalar s : code_points s = true -> forallb scalar (dump_str s) = forallb scalar s.
Proof.
  intros Hs. unfold dump_str. cbn [forallb]. rewrite forallb_app. cbn. rewrite andb_true_r, scalars_bind.
  induction s as [|c s IH]; [done|]. cbn in Hs |- *. bools. rewrite IH by done. f_equal.
  unfold escape_char, quote_mark, backslash. repeat (case_match; bools; [subst; done|]). case_match; [|cbn; by rewrite andb_true_r].
  bools. cbn [app lit fmap list_fmap list_ascii_of_string forallb].
  assert (forallb scalar (hexs 2 c) = true) as ->.
  { apply forallb_forall. intros d Hd%list_elem_of_In. pose proof (hexs_chars 2 c) as Hh. rewrite Forall_forall in Hh.
    apply Hh in Hd. unfold scalar. destruct Hd; rewrite !(proj2 (Z.leb_le _ _)), (proj2 (Z.ltb_lt _ _)) by lia;
    rewrite (proj2 (Z.leb_gt _ _)) by lia; done. }
  symmetry. unfold scalar. rewrite (proj2 (Z.leb_le _ _)), (proj2 (Z.ltb_lt _ _)), (proj2 (Z.leb_gt _ _)) by lia. done.
Qed.

Lemma join_comma_scalar ps : forallb scalar (join_comma ps) = forallb (forallb scalar) ps.
Proof.
  destruct ps as [|p ps]; [done|]. cbn [join_comma forallb]. rewrite forallb_app. f_equal. unfold more. rewrite scalars_bind. done.
Qed.

Lemma forallb_perm {A} (f : A -> bool) l k : l ≡ₚ k -> forallb f l = forallb f k.
Proof. induction 1; cbn; [done|by f_equal|by rewrite !andb_assoc, (andb_comm (f y))|congruence]. Qed.

Lemma numeral_scalar t : numeral t -> forallb scalar t = true.
Proof.
  intros Ht. apply forallb_forall. intros c Hc%list_elem_of_In. unfold numeral in Ht. rewrite Forall_forall in Ht. apply Ht in Hc.
  apply list_elem_of_In in Hc. by apply (proj1 (forallb_forall scalar numeral_chars) eq_refl) in Hc.
Qed.

Lemma forallb_eq_in {A} (f g : A -> bool) l : (forall x, x ∈ l -> f x = g x) -> forallb f l = forallb g l.
Proof. induction l as [|x l IH]; intros Hx; [done|]. cbn. rewrite Hx, IH by set_solver. done. Qed.

Lemma dumps_scalar j : well_formed j = true -> forallb scalar (dumps j) = encodable j.
Proof.
  induction j as [|b|z|x|s|l IH|o IH] using Json_nested_ind; intros Wj; cbn [encodable].
  - done.
  - by destruct b.
  - by apply numeral_scalar, (number_numeral (JInt z)).
  - by apply numeral_scalar, (number_numeral (JFloat x)).
  - by apply dump_str_scalar.
  - cbn [dumps app forallb]. rewrite forallb_app. cbn. rewrite andb_true_r, join_comma_scalar, forallb_map.
    cbn [well_formed] in Wj. apply forallb_eq_in. intros y Hy. rewrite Forall_forall in IH. apply IH; [done|].
    apply list_elem_of_In in Hy. by apply (proj1 (forallb_forall _ _) Wj).
  - cbn [dumps app forallb]. rewrite forallb_app. cbn. rewrite andb_true_r, join_comma_scalar, forallb_map.
    rewrite (forallb_perm _ _ _ (py_sorted_perm _ _)), forallb_map. cbn [well_formed] in Wj. apply andb_prop in Wj as [_ Wj].
    apply forallb_eq_in. intros kv Hkv. rewrite Forall_forall in IH.
    assert (code_points kv.1 = true /\ well_formed kv.2 = true) as [Hc Hw].
    { apply list_elem_of_In in Hkv. apply (proj1 (forallb_forall _ _) Wj) in Hkv. by bools. }
    unfold dump_entry. cbn [fst snd]. rewrite forallb_app. cbn [forallb]. rewrite dump_str_scalar, IH by done. done.
Qed.

Lemma canonical_request_bytes_defined c m p j : well_formed (request_object c m p j) = true ->
  is_Some (canonical_request_bytes c m p j) <-> encodable (request_object c m p j) = true.
Proof.
  intros W. rewrite <- dumps_scalar by done. unfold canonical_request_bytes, utf8_encode.
  destruct (forallb scalar _); [by split; [done|eexists]|split; [by intros [? [=]]|done]].
Qed.

Lemma utf8_text_unique s t b : utf8_encode s = Some b -> utf8_encode t = Some b -> s = t.
Proof. intros Hs%utf8_roundtrip Ht%utf8_roundtrip. congruence. Qed.

Lemma same_field fs gs k v w : same (JObj fs) (JObj gs) -> NoDup (map fst gs) -> (k, v) ∈ fs -> (k, w) ∈ gs -> same v w.
Proof.
  intros Hs Hnd Hv Hw. inversion Hs as [| | | | | |? hs ? Hp Hf]; subst. rewrite Hp in Hv.
  apply list_elem_of_lookup in Hv as [i Hi], Hw as [i' Hi'].
  destruct (Forall2_lookup_l _ _ _ _ _ Hf Hi) as ([k' w'] & Hg & Hk & Hsame). cbn in Hk, Hsame. subst k'.
  assert (i = i') as <-; [|congruence].
  apply (NoDup_lookup _ i i' k) in Hnd; [done|by rewrite list_lookup_fmap, Hg|by rewrite list_lookup_fmap, Hi'].
Qed.

Lemma same_request c m p j c' m' p' j' : same (request_object c m p j) (request_object c' m' p' j') <->
  c = c' /\ upper m = upper m' /\ p = p' /\ same j j'.
Proof.
  split.
  - intros Hs. assert (forall k v w, (k, v) ∈ [(lit "contract", JStr c); (lit "method", JStr (upper m)); (lit "path", JStr p); (lit "payload", j)] ->
      (k, w) ∈ [(lit "contract", JStr c'); (lit "method", JStr (upper m')); (lit "path", JStr p'); (lit "payload", j')] -> same v w) as Hfield.
    { intros k v w. apply same_field; [exact Hs|]. cbn [map fst]. by apply (bool_decide_unpack _); vm_compute. }
    assert (same (JStr c) (JStr c')) as Hc by (apply (Hfield (lit "contract")); set_solver).
    assert (same (JStr (upper m)) (JStr (upper m'))) as Hm by (apply (Hfield (lit "method")); set_solver).
    assert (same (JStr p) (JStr p')) as Hp by (apply (Hfield (lit "path")); set_solver).
    assert (same j j') as Hj by (apply (Hfield (lit "payload")); set_solver).
    inversion Hc. inversion Hm. inversion Hp. by subst.
  - intros (-> & Hm & -> & Hj). unfold request_object. rewrite Hm. eapply same_obj; [reflexivity|].
    repeat constructor; done.
Qed.
End Injective.

(** C22: The fingerprint's text identifies the request.  Two requests whose texts can
    be encoded have the same canonical bytes exactly when contract, upper-cased
    method and path agree and their payloads are the same JSON value, the order of
    the keys of each dict aside; and the bytes exist exactly when no string of the
    request, keys included, holds a lone surrogate. *)
Theorem canonical_bytes_identify_requests `{FloatRepr} (c m p c' m' p' : pystr) (j j' : Json) (b : bytes) :
  well_formed (request_object c m p j) = true -> well_formed (request_object c' m' p' j') = true ->
  canonical_request_bytes c m p j = Some b ->
  (canonical_request_bytes c' m' p' j' = Some b <-> c = c' /\ upper m = upper m' /\ p = p' /\ same j j')
  /\ (is_Some (canonical_request_bytes c' m' p' j') <-> encodable (request_object c' m' p' j') = true).
Proof.
  intros W W' Hb. split; [|by apply canonical_request_bytes_defined].
  rewrite <- same_request, <- dumps_inj by done. unfold canonical_request_bytes in *. split.
  - intros Hb'. by eapply utf8_text_unique.
  - intros <-. done.
Qed.

(** ** Examples *)

Module FingerprintSample.
(** A notation for doubles with the laws of [repr]: mantissa and exponent. *)
Definition text_of_float (x : binary64) : pystr :=
  match x with
  | S754_zero s => lit (if s then "-0.0" else "0.0")
  | S754_infinity s => lit (if s then "-Infinity" else "Infinity")
  | S754_nan => lit "NaN"
  | S754_finite s m e => (if s then [45] else []) ++ 46 :: lit (pretty m) ++ 101 :: lit (pretty e)
  end.

Lemma split_at_e t1 : forall t2 r1 r2, Forall (fun c => c ∈ int_chars) t1 -> Forall (fun c => c ∈ int_chars) t2 ->
  t1 ++ 101 :: r1 = t2 ++ 101 :: r2 -> t1 = t2 /\ r1 = r2.
Proof.
  assert (~ 101 ∈ int_chars) as He by (vm_compute; set_solver).
  induction t1 as [|c t1 IH]; intros [|d t2] r1 r2 H1 H2 E; cbn [app] in E.
  - by injection E.
  - injection E as <- _. by apply Forall_cons in H2 as [? _].
  - injection E as -> _. by apply Forall_cons in H1 as [? _].
  - apply Forall_cons in H1 as [_ H1]. apply Forall_cons in H2 as [_ H2]. injection E as -> E.
    by destruct (IH t2 r1 r2) as [-> ->].
Qed.

Lemma text_of_float_inj x y : text_of_float x = text_of_float y -> x = y.
Proof.
  assert (forall (m m' : positive) (e e' : Z), lit (pretty m) ++ 101 :: lit (pretty e) = lit (pretty m') ++ 101 :: lit (pretty e') ->
    m = m' /\ e = e') as Hme.
  { intros m m' e e' E. apply split_at_e in E as [E1%lit_inj E2%lit_inj]; [|apply pretty_pos_digits..].
    by apply (inj pretty) in E1, E2. }
  destruct x as [[]|[]| |[] m e], y as [[]|[]| |[] m' e']; cbn -[lit]; try done; intros E; try (by vm_compute in E).
  all: injection E as E; by apply Hme in E as [-> ->].
Qed.

#[local] Instance sample_repr : FloatRepr.
Proof.
  refine {| float_repr := text_of_float |}.
  - intros x. split; [by destruct x as [[]|[]| |[] ? ?]|].
    destruct x as [[]|[]| |s m e]; try (by apply (bool_decide_eq_true (Forall _ _)); vm_compute).
    assert (forall t, Forall (fun c => c ∈ int_chars) t -> numeral t) as Hi by (intros t; by apply chars_mono).
    unfold text_of_float. fold numeral_chars. fold (numeral ((if s then [45] else []) ++ 46 :: lit (pretty m) ++ 101 :: lit (pretty e))).
    assert (numeral [46] /\ numeral [101] /\ numeral (if s then [45] else [])) as (H1 & H2 & H3).
    { repeat split; try destruct s; by apply (bool_decide_unpack _); vm_compute. }
    apply Forall_app. split; [exact H3|]. change (numeral ([46] ++ lit (pretty m) ++ [101] ++ lit (pretty e))).
    repeat (apply Forall_app; split); try done; [by apply Hi, pretty_pos_digits|by apply Hi, pretty_Z_digits].
  - intros x z E. pose proof (pretty_Z_digits z) as Hz. rewrite <- E in Hz. rewrite Forall_forall in Hz.
    assert (exists c, c ∈ text_of_float x /\ bool_decide (c ∈ int_chars) = false) as (c & Hin & Hno).
    { destruct x as [[]|[]| |[] m e];
        [exists 46|exists 46|exists 73|exists 73|exists 78|exists 46|exists 46]; (split; [|by vm_compute]).
      1-5: by apply (bool_decide_unpack _); vm_compute.
      - right. left.
      - left. }
    apply bool_decide_eq_false in Hno. by apply Hno, Hz.
  - intros x y _ _. apply text_of_float_inj.
Defined.

Definition turn (i : Z) (content : string) : Json :=
  JObj [(lit "turn_index", JInt i); (lit "content", JStr (lit content))].
Definition turn_swapped (i : Z) (content : string) : Json :=
  JObj [(lit "content", JStr (lit content)); (lit "turn_index", JInt i)].

Definition bytes_of (j : Json) : option bytes := canonical_request_bytes IDEMPOTENCY_CONTRACT (lit "post") (lit "/v1") j.

Lemma canonical_bytes_identify_requests_witness : exists b,
  canonical_request_bytes IDEMPOTENCY_CONTRACT (lit "POST") (lit "/v1") (turn_swapped 7 "tea") = Some b
  /\ same (turn 7 "tea") (turn_swapped 7 "tea").
Proof.
  destruct (bytes_of (turn 7 "tea")) as [b|] eqn:Hb; [|by vm_compute in Hb]. exists b.
  assert (canonical_request_bytes IDEMPOTENCY_CONTRACT (lit "POST") (lit "/v1") (turn_swapped 7 "tea") = Some b) as Hb'.
  { rewrite <- Hb. by vm_compute. }
  split; [exact Hb'|].
  destruct (canonical_bytes_identify_requests IDEMPOTENCY_CONTRACT (lit "post") (lit "/v1") IDEMPOTENCY_CONTRACT (lit "POST") (lit "/v1")
    (turn 7 "tea") (turn_swapped 7 "tea") b) as [Hiff _]; [by vm_compute|by vm_compute|exact Hb|].
  by apply Hiff in Hb' as (_ & _ & _ & Hs).
Defined.

(** A different turn has a different text, and a lone surrogate has none. *)
Example other_turn_differs : bytes_of (turn 7 "tea") <> bytes_of (turn 7 "coffee") /\ bytes_of (JStr [0xD800]) = None.
Proof. by vm_compute. Qed.
End FingerprintSample.
