(* ===== verification/Enqueue.v ===== *)
(** * The extraction enqueue endpoint
    ([services/worker/app/enqueue_http.py], [idempotency_ledger.py])

    [POST /internal/extraction/enqueue] takes a completed session's turns, claims
    the caller's idempotency key in the shared ledger, publishes one Celery task
    and records the answer.  The handler of one request is cut where it awaits, so
    that any number of requests on any number of servers interleave over the one
    ledger and the one queue, with driver faults and lost commits; other users of
    the ledger take steps of their own.  [json.loads], pydantic's coercion of
    integers, SHA-256 and Celery's replies are parameters. *)

From stdpp Require Import pretty.
From Stdlib Require Import SpecFloat.
From S2P Require Import Prelude PyText Num Pricing BudgetLedger Extraction Idempotency MemoryStore PiiGuard ReadRank MemoryRead ModelClients Fingerprint.

(** ** Requests and answers *)

(** Header values are Latin-1 texts. *)
Record Request := {
  authorization : option string;
  content_length : option string;
  idempotency_key : option string;
  chunks : list bytes;                     (* [request.stream()] *)
}.

Record Settings := { enqueue_api_token : option pystr }.

Inductive ErrorText :=
| unauthorized
| invalid_json | payload_too_large | invalid_content_length | invalid_body
| idempotency_key_required | idempotency_key_too_long
| idempotency_unavailable | idempotency_conflict | idempotency_in_progress
| unavailable
| internal_error.                          (* an exception the handler does not catch *)

Inductive Response :=
| Answer (status : Z) (content : string)
| ErrorAnswer (status : Z) (error : ErrorText) (retry_after : option Z).

Definition error_answer (status : Z) (e : ErrorText) : Response := ErrorAnswer status e None.

(** The keyword arguments of the task. *)
Record Kwargs := { k_org_id : Z; k_agent_id : Z; k_session_id : Z; k_turns : list TurnPayload }.

(** What [json.loads] raises: a [ValueError], or [RecursionError]. *)
Inductive LoadError := NotJson | TooDeep.

Definition MAX_ENQUEUE_BODY_BYTES : Z := 600000.
Definition DISPATCH_CONCURRENCY : nat := 32.
Definition ENQUEUE_PATH : pystr := lit "/internal/extraction/enqueue".

(** [str.partition] at the first space. *)
Fixpoint partition_space (s : string) : string * string :=
  match s with
  | EmptyString => (EmptyString, EmptyString)
  | String c s => if Ascii.eqb c " " then (EmptyString, s) else let '(a, b) := partition_space s in (String c a, b)
  end.

(** [str.lower]; no other Latin-1 character has an ASCII lower case. *)
Definition lower_char (c : ascii) : ascii :=
  let n := nat_of_ascii c in if ((65 <=? n) && (n <=? 90))%nat%bool then ascii_of_nat (n + 32) else c.
Fixpoint str_lower (s : string) : string :=
  match s with EmptyString => EmptyString | String c s => String (lower_char c) (str_lower s) end.

(** [_bearer_matches]; [None] is the [UnicodeEncodeError] of a token with a lone
    surrogate. *)
Definition bearer_matches (provided : string) (expected : pystr) : option bool :=
  match expected with
  | [] => Some false
  | _ => b ← utf8_encode expected; a ← utf8_encode (lit provided); Some (bool_decide (a = b))
  end.

(** [_authorize]: the refusal, if any. *)
Definition authorize (s : Settings) (q : Request) : option Response :=
  let expected := default [] (enqueue_api_token s) in
  let '(scheme, token) := partition_space (default EmptyString (authorization q)) in
  if negb (String.eqb (str_lower scheme) "bearer") then Some (error_answer 401 unauthorized)
  else match bearer_matches (str_strip token) expected with
       | None => Some (error_answer 500 internal_error)
       | Some true => None
       | Some false => Some (error_answer 401 unauthorized)
       end.

(** [int(text)] of a Latin-1 text: [after] tells that a digit must follow. *)
Fixpoint int10_loop (after : bool) (acc : Z) (s : pystr) : option Z :=
  match s with
  | [] => if after then None else Some acc
  | c :: s =>
      if c =? 95 then if after then None else int10_loop true acc s
      else if ((48 <=? c) && (c <=? 57))%bool then int10_loop false (acc * 10 + (c - 48)) s else None
  end.
Definition int10 (raw : string) : option Z :=
  let s := lit (str_strip raw) in
  if MAX_STR_DIGITS <? Z.of_nat (length (List.filter (fun c => (48 <=? c) && (c <=? 57))%bool s)) then None
  else match s with
       | c :: r => if c =? 45 then Z.opp <$> int10_loop true 0 r else if c =? 43 then int10_loop true 0 r else int10_loop true 0 s
       | [] => None
       end.

(** [_check_content_length] *)
Definition check_content_length (q : Request) : result ErrorText unit :=
  match content_length q with
  | None => Ok tt
  | Some raw =>
      match int10 raw with
      | None => Raise invalid_content_length
      | Some n => if MAX_ENQUEUE_BODY_BYTES <? n then Raise payload_too_large else Ok tt
      end
  end.

Definition read_chunk (body : bytes) (chunk : bytes) : result ErrorText bytes :=
  raise_if MAX_ENQUEUE_BODY_BYTES <? Z.of_nat (length (body ++ chunk)) with payload_too_large ;;
  Ok (body ++ chunk).

(** A request: its server and its number. *)
Abbreviation CallId := (nat * nat)%type.

Section Endpoint.
Context `{UnicodeDB, FloatRepr}.
Context (json_loads : bytes -> result LoadError Json) (pydantic_int : Json -> option Z) (sha256 : bytes -> string).

(** [_read_json_limited] *)
Definition read_json_limited (q : Request) : result ErrorText Json :=
  let* _ := check_content_length q in
  let* body := rfold read_chunk [] (chunks q) in
  match body with
  | [] => Ok JNull
  | _ => match json_loads body with
         | Ok j => Ok j
         | Raise NotJson => Raise invalid_json
         | Raise TooDeep => Raise internal_error
         end
  end.

(** [_parse_uuid]: [UUID(str(raw))].  No text of a bool, float, list or dict is a UUID. *)
Definition parse_uuid (raw : Json) : result ErrorText Z :=
  match (match raw with JStr s => uuid_parse s | JInt z => uuid_parse (lit (pretty z)) | _ => None end) with
  | Some u => Ok u
  | None => Raise invalid_body
  end.

(** [TurnPayload.model_validate] *)
Definition validate_turn (item : Json) : result ErrorText TurnPayload :=
  match item with
  | JObj fields =>
      match pydantic_int (obj_get (lit "turn_index") fields), obj_get (lit "role") fields, obj_get (lit "content") fields with
      | Some i, JStr role, JStr content =>
          let t := {| tp_turn_index := i; tp_role := role; tp_content := content |} in
          if valid_payload t then Ok t else Raise invalid_body
      | _, _, _ => Raise invalid_body
      end
  | _ => Raise invalid_body
  end.

(** [parse_turns] of a JSON value. *)
Definition parse_turns_json (raw : Json) : result ErrorText (list TurnPayload) :=
  match raw with
  | JList items =>
      raise_if MAX_TURNS_PER_BATCH <? Z.of_nat (length items) with invalid_body ;;
      let* ts := rmap validate_turn items in
      match Extraction.parse_turns ts with Ok ts => Ok ts | Raise _ => Raise invalid_body end
  | _ => Raise invalid_body
  end.

(** [_parse_enqueue_body] *)
Definition parse_enqueue_body (payload : Json) : result ErrorText Kwargs :=
  match payload with
  | JObj fields =>
      let* org := parse_uuid (obj_get (lit "org_id") fields) in
      let* agent := parse_uuid (obj_get (lit "agent_id") fields) in
      let* session := parse_uuid (obj_get (lit "session_id") fields) in
      let* turns := parse_turns_json (obj_get (lit "turns") fields) in
      Ok {| k_org_id := org; k_agent_id := agent; k_session_id := session; k_turns := turns |}
  | _ => Raise invalid_json
  end.

(** [_bad_request] *)
Definition bad_request (e : ErrorText) : Response :=
  match e with internal_error => error_answer 500 internal_error | _ => error_answer 400 e end.

(** [_prepare_enqueue_request] *)
Definition prepare_enqueue_request (s : Settings) (has_ledger : bool) (q : Request) : result Response (Kwargs * string) :=
  match authorize s q with
  | Some denied => Raise denied
  | None =>
      match (let* payload := read_json_limited q in parse_enqueue_body payload) with
      | Raise e => Raise (bad_request e)
      | Ok kw =>
          let idem_key := str_strip (default EmptyString (idempotency_key q)) in
          raise_if (String.length idem_key =? 0)%nat with (error_answer 400 idempotency_key_required) ;;
          raise_if (256 <? String.length idem_key)%nat with (error_answer 400 idempotency_key_too_long) ;;
          raise_if negb has_ledger with (error_answer 503 idempotency_unavailable) ;;
          Ok (kw, idem_key)
      end
  end.

(** [_turns_kwargs] and the dict of [_parse_enqueue_body]. *)
Definition turn_json (t : TurnPayload) : Json :=
  JObj [(lit "turn_index", JInt (tp_turn_index t)); (lit "role", JStr (tp_role t)); (lit "content", JStr (tp_content t))].
Definition kwargs_json (kw : Kwargs) : Json :=
  JObj [(lit "org_id", JStr (uuid_str (k_org_id kw))); (lit "agent_id", JStr (uuid_str (k_agent_id kw)));
        (lit "session_id", JStr (uuid_str (k_session_id kw))); (lit "turns", JList (map turn_json (k_turns kw)))].

(** [fingerprint_enqueue] *)
Definition fingerprint_enqueue (kw : Kwargs) : option string :=
  fingerprint_request sha256 IDEMPOTENCY_CONTRACT (lit "POST") ENQUEUE_PATH (kwargs_json kw).

Definition ascii_text (s : pystr) : string := string_of_list_ascii ((fun c => ascii_of_nat (Z.to_nat c)) <$> s).

(** The arguments of [ledger.claim]. *)
Definition claim_arguments (kw : Kwargs) (key hash : string) : ClaimRequest :=
  {| rq_org := ascii_text (uuid_str (k_org_id kw)); rq_agent := ascii_text (uuid_str (k_agent_id kw));
     rq_key := key; rq_hash := hash |}.

(** [_claim_outcome_response] *)
Definition claim_outcome_response (o : ClaimOutcome) : result Response ClaimToken :=
  match o with
  | Owned c => Ok c
  | Replay _ status response =>
      Raise (Answer (if status =? 0 then 202 else status) (if String.eqb response EmptyString then "{}" else response))
  | Conflict _ => Raise (error_answer 409 idempotency_conflict)
  | InProgress _ n => Raise (ErrorAnswer 409 idempotency_in_progress (Some (if n =? 0 then 1 else n)))
  end.

(** [_claim_or_response], given what [ledger.claim] did. *)
Definition claim_or_response (o : result LedgerError ClaimOutcome) : result Response ClaimToken :=
  match o with
  | Raise _ => Raise (error_answer 503 idempotency_unavailable)
  | Ok o => claim_outcome_response o
  end.

(** [json.dumps({"task_id": task_id})] of an identifier: [ensure_ascii] escapes what is not printable. *)
Definition escape_ascii (c : Z) : pystr :=
  if ((32 <=? c) && (c <=? 126))%bool then escape_char c
  else if c <? 32 then escape_char c
  else if c <? 0x10000 then backslash :: lit "u" ++ hexs 4 c
  else backslash :: lit "u" ++ hexs 4 (0xD800 + (c - 0x10000) / 1024) ++ backslash :: lit "u" ++ hexs 4 (0xDC00 + (c - 0x10000) mod 1024).
Definition task_body (task_id : pystr) : string :=
  ascii_text ([123] ++ dump_str (lit "task_id") ++ [colon; quote_mark] ++ (task_id ≫= escape_ascii) ++ [quote_mark; 125]).

(** ** Readiness and start of the server *)

Definition enqueue_auth_ready (s : Settings) : bool :=
  match enqueue_api_token s with Some t => bool_decide (strip_space t <> []) | None => false end.

(** [_broker_url] *)
Definition broker_url (resolved redis_url : option pystr) : option pystr :=
  match resolved with
  | Some u => if bool_decide (strip_space u <> []) then Some u else u ← redis_url; if bool_decide (strip_space u <> []) then Some u else None
  | None => u ← redis_url; if bool_decide (strip_space u <> []) then Some u else None
  end.

Inductive BrokerReply := Pong | BrokerFailed | MalformedUrl.

(** [ready], its status: the ledger's ping, when there is a ledger, and the broker's
    answer. *)
Definition ready (s : Settings) (ledger_ping : option (result LedgerError unit)) (resolved redis_url : option pystr)
    (ping_broker : pystr -> BrokerReply) : Z :=
  if negb (enqueue_auth_ready s) then 503
  else match ledger_ping with
       | Some (Ok _) =>
           match broker_url resolved redis_url with
           | None => 503
           | Some u => match ping_broker u with Pong => 200 | BrokerFailed => 503 | MalformedUrl => 500 end
           end
       | _ => 503
       end.

(** [start_enqueue_server]: the flag after the call, and whether a thread was started. *)
Definition start_enqueue_server (started : bool) (s : Settings) : bool * bool :=
  if started then (true, false) else if enqueue_auth_ready s then (true, true) else (false, false).

(** ** Requests in flight *)

Inductive Phase :=
| Holding (kw : Kwargs) (c : ClaimToken)                       (* about to dispatch *)
| Dispatching (kw : Kwargs) (c : ClaimToken)                   (* a permit is held, the thread publishes *)
| Sent (kw : Kwargs) (c : ClaimToken) (task_id : pystr)        (* about to finalize *)
| Failed (c : ClaimToken)                                      (* about to release *)
| Answered (request : option Kwargs) (r : Response).

(** A task on the queue, with the request that published it. *)
Record Job := { j_call : CallId; j_kwargs : Kwargs; j_task_id : pystr }.

(** [apply_async] returned, or raised, maybe after the broker took the task. *)
Inductive DispatchResult := Returned (task_id : pystr) | Raised (published : option pystr).

Record Sys := {
  world : World;                    (* the ledger *)
  queue : list Job;
  busy : gmap nat nat;              (* permits taken, by server *)
  calls : gmap CallId Phase;
}.

Definition in_use (s : Sys) (server : nat) : nat := default 0%nat (busy s !! server).

Definition set_phase (n : CallId) (p : Phase) (s : Sys) : Sys :=
  {| world := world s; queue := queue s; busy := busy s; calls := <[n := p]> (calls s) |}.
Definition set_world (w : World) (s : Sys) : Sys :=
  {| world := w; queue := queue s; busy := busy s; calls := calls s |}.

(** The claim is answered. *)
Definition claimed (n : CallId) (kw : Kwargs) (o : result LedgerError ClaimOutcome) (s : Sys) : Sys :=
  set_phase n (match claim_or_response o with Ok c => Holding kw c | Raise r => Answered (Some kw) r end) s.

(** [_dispatch_extract_bounded] up to the thread: a permit, or [DispatchBusyError]. *)
Definition start_dispatch (n : CallId) (kw : Kwargs) (c : ClaimToken) (s : Sys) : Sys :=
  if (in_use s n.1 <? DISPATCH_CONCURRENCY)%nat
  then {| world := world s; queue := queue s; busy := <[n.1 := S (in_use s n.1)]> (busy s); calls := <[n := Dispatching kw c]> (calls s) |}
  else set_phase n (Failed c) s.

(** The thread ends: [_dispatch_extract], the permit is given back. *)
Definition finish_dispatch (n : CallId) (kw : Kwargs) (c : ClaimToken) (d : DispatchResult) (s : Sys) : Sys :=
  let job t := {| j_call := n; j_kwargs := kw; j_task_id := t |} in
  {| world := world s;
     queue := queue s ++ match d with Returned t | Raised (Some t) => [job t] | Raised None => [] end;
     busy := <[n.1 := pred (in_use s n.1)]> (busy s);
     calls := <[n := match d with Returned t => Sent kw c t | Raised _ => Failed c end]> (calls s) |}.

(** The answer after [ledger.finalize]. *)
Definition finalized_answer (o : result LedgerError unit) (task_id : pystr) : Response :=
  match o with Ok _ => Answer 202 (task_body task_id) | Raise _ => error_answer 503 idempotency_unavailable end.

Context (settings : Settings) (has_ledger : nat -> bool) (known : UUID -> UUID -> bool) (lease_us : Z).

Definition event_hash (e : Event) : string :=
  match e with EvClaim q _ => rq_hash q | EvFinalize c _ _ _ | EvRelease c _ => request_hash c end.

(** [enqueue_extraction], cut at its awaits. *)
Inductive step : Sys -> Sys -> Prop :=
| step_refused s n q r : calls s !! n = None -> prepare_enqueue_request settings (has_ledger n.1) q = Raise r ->
    step s (set_phase n (Answered None r) s)
| step_unhashable s n q kw key : calls s !! n = None -> prepare_enqueue_request settings (has_ledger n.1) q = Ok (kw, key) ->
    fingerprint_enqueue kw = None -> step s (set_phase n (Answered (Some kw) (error_answer 503 idempotency_unavailable)) s)
| step_claim s n q kw key h o w : calls s !! n = None -> prepare_enqueue_request settings (has_ledger n.1) q = Ok (kw, key) ->
    fingerprint_enqueue kw = Some h -> Idempotency.step known lease_us (world s) (EvClaim (claim_arguments kw key h) o) w ->
    step s (claimed n kw o (set_world w s))
| step_start s n kw c : calls s !! n = Some (Holding kw c) -> step s (start_dispatch n kw c s)
| step_finish s n kw c d : calls s !! n = Some (Dispatching kw c) -> step s (finish_dispatch n kw c d s)
| step_finalize s n kw c t o w : calls s !! n = Some (Sent kw c t) ->
    Idempotency.step known lease_us (world s) (EvFinalize c 202 (task_body t) o) w ->
    step s (set_phase n (Answered (Some kw) (finalized_answer o t)) (set_world w s))
| step_release s n c o w : calls s !! n = Some (Failed c) -> Idempotency.step known lease_us (world s) (EvRelease c o) w ->
    step s (set_phase n (Answered None (error_answer 503 unavailable)) (set_world w s))
(** Other users of the ledger have fingerprints of their own: the path is part of them. *)
| step_other s e w : Idempotency.step known lease_us (world s) e w -> (forall kw, fingerprint_enqueue kw <> Some (event_hash e)) ->
    step s (set_world w s).

Definition initial : Sys := {| world := empty_world; queue := []; busy := ∅; calls := ∅ |}.

Inductive reachable : Sys -> Prop :=
| reachable_initial : reachable initial
| reachable_step s s' : reachable s -> step s s' -> reachable s'.
End Endpoint.

(** ** Parsed requests *)

Section Parsing.
Context `{UnicodeDB, FloatRepr}.
Context (json_loads : bytes -> result LoadError Json) (pydantic_int : Json -> option Z) (sha256 : bytes -> string).

(** What [json.loads] builds are values of Python. *)
Context (json_values : forall b j, json_loads b = Ok j -> well_formed j = true).

(** The arguments of a task as the parser builds them. *)
Definition kwargs_ok (kw : Kwargs) : Prop :=
  (0 <= k_org_id kw < 2 ^ 128 /\ 0 <= k_agent_id kw < 2 ^ 128 /\ 0 <= k_session_id kw < 2 ^ 128)
  /\ Forall (fun t => code_points (tp_role t) = true /\ code_points (tp_content t) = true) (k_turns kw).

Lemma well_formed_get fields k : well_formed (JObj fields) = true -> well_formed (obj_get k fields) = true.
Proof.
  cbn [well_formed]. intros [_ Hf]%andb_prop. unfold obj_get.
  destruct (last _) as [kv|] eqn:Hl; [|done]. cbn. apply last_Some_elem_of, list_elem_of_In, filter_In in Hl as [Hin _].
  apply (proj1 (forallb_forall _ _) Hf) in Hin. by bools.
Qed.

Lemma validate_turn_ok item t : well_formed item = true -> validate_turn pydantic_int item = Ok t ->
  code_points (tp_role t) = true /\ code_points (tp_content t) = true.
Proof.
  unfold validate_turn. destruct item as [| | | | | |fields]; try done. intros Hw.
  pose proof (well_formed_get fields (lit "role") Hw) as Hr. pose proof (well_formed_get fields (lit "content") Hw) as Hc.
  destruct (pydantic_int _), (obj_get (lit "role") fields), (obj_get (lit "content") fields); try done. case_match; [|done].
  by intros [= <-].
Qed.

Lemma parse_turns_json_ok raw ts : well_formed raw = true -> parse_turns_json pydantic_int raw = Ok ts ->
  Forall (fun t => code_points (tp_role t) = true /\ code_points (tp_content t) = true) ts.
Proof.
  unfold parse_turns_json. destruct raw as [| | | | |items|]; try done. cbn [well_formed]. intros Hw. case_match; [done|].
  destruct (rmap _ _) as [us|] eqn:Hm; [|done]. cbn [rbind]. destruct (Extraction.parse_turns us) as [us'|] eqn:Hp; [|done]. intros [= <-].
  assert (us' = us) as -> by (unfold Extraction.parse_turns in Hp; by repeat (destruct (_ : bool) in Hp; [done|]); injection Hp).
  clear - Hw Hm. revert us Hm.
  induction items as [|i items IH]; cbn [rmap forallb] in *; intros us Hm; [by injection Hm as <-|].
  apply andb_prop in Hw as [Hi Hw]. destruct (validate_turn _ _) as [t|] eqn:Ht; [|done]. cbn [rbind] in Hm.
  destruct (rmap _ _) as [vs|]; [|done]. injection Hm as <-. constructor; [by eapply validate_turn_ok|by apply IH].
Qed.

Lemma parse_uuid_ok raw u : parse_uuid raw = Ok u -> 0 <= u < 2 ^ 128.
Proof. unfold parse_uuid. case_match eqn:E; [|done]. intros [= <-]. repeat case_match; try done; by eapply uuid_parse_range. Qed.

Lemma parse_enqueue_body_ok j kw : well_formed j = true -> parse_enqueue_body pydantic_int j = Ok kw -> kwargs_ok kw.
Proof.
  unfold parse_enqueue_body. destruct j as [| | | | | |fields]; try done. intros Hw Hp. inv_bind.
  split; [split_and!; by eapply parse_uuid_ok|]. eapply parse_turns_json_ok; [|done]. by apply well_formed_get.
Qed.

(** Only a request with the configured token, a body within the limit and a key
    passes; every refusal is an error. *)
Lemma prepare_spec s b q :
  match prepare_enqueue_request json_loads pydantic_int s b q with
  | Ok (kw, key) => authorize s q = None /\ kwargs_ok kw /\ (1 <= String.length key <= 256)%nat
  | Raise r => exists st e ra, r = ErrorAnswer st e ra
  end.
Proof.
  unfold prepare_enqueue_request. destruct (authorize s q) as [r|] eqn:Ha.
  { unfold authorize, error_answer in Ha. repeat case_match; simplify_eq; eauto. }
  destruct (rbind _ _) as [kw|e] eqn:Hp; [|destruct e; cbn; unfold error_answer; eauto].
  cbv zeta. destruct (_ =? 0)%nat eqn:H1; [unfold error_answer; eauto|]. destruct (256 <? _)%nat eqn:H2; [unfold error_answer; eauto|].
  destruct b; [|cbn; unfold error_answer; eauto]. cbn [negb]. apply Nat.eqb_neq in H1. apply Nat.ltb_ge in H2. split_and!; try done; try lia.
  destruct (read_json_limited _ _) as [j|] eqn:Hj; [|done]. cbn [rbind] in Hp. eapply parse_enqueue_body_ok; [|done].
  unfold read_json_limited in Hj. inv_bind. repeat case_match; simplify_eq; done || by eapply json_values.
Qed.
End Parsing.

(** ** What identifies a request *)

Section Identity.
Context `{FloatRepr}.

Lemma scalars_code_points s : forallb scalar s = true -> code_points s = true.
Proof.
  intros Hs. apply forallb_forall. intros c Hc. apply (proj1 (forallb_forall _ _) Hs) in Hc. apply scalar_range in Hc.
  apply Z.leb_le. lia.
Qed.

Lemma kwargs_well_formed kw : kwargs_ok kw -> well_formed (kwargs_json kw) = true.
Proof.
  intros [_ Ht]. unfold kwargs_json. cbn [well_formed]. apply andb_true_intro. split; [by vm_compute|].
  assert (forall u, code_points (uuid_str u) = true) as Hu by (intros u; apply scalars_code_points, uuid_str_scalar).
  cbn [forallb well_formed fst snd]. rewrite !Hu. cbn. rewrite !andb_true_r. apply forallb_forall. intros j (t & <- & Hin)%in_map_iff.
  apply list_elem_of_In in Hin. rewrite Forall_forall in Ht. destruct (Ht t Hin) as [Hr Hc]. unfold turn_json. cbn [well_formed].
  apply andb_true_intro. split; [by vm_compute|]. cbn [forallb well_formed fst snd]. by rewrite Hr, Hc.
Qed.

Lemma uuid_str_inj u v : 0 <= u < 2 ^ 128 -> 0 <= v < 2 ^ 128 -> uuid_str u = uuid_str v -> u = v.
Proof.
  intros Hu Hv E. apply (@uuid_roundtrip ascii_db) in Hu, Hv. rewrite E in Hu. congruence.
Qed.

Lemma same_str_inv a b : same (JStr a) (JStr b) -> a = b.
Proof. by inversion 1. Qed.

Lemma same_turn t u : same (turn_json t) (turn_json u) -> t = u.
Proof.
  intros Hs. unfold turn_json in Hs.
  match type of Hs with same (JObj ?a) (JObj ?b) => assert (forall k v w, (k, v) ∈ a -> (k, w) ∈ b -> same v w) as Hf end.
  { intros k v w. apply same_field; [exact Hs|]. cbn [map fst]. by apply (bool_decide_unpack _); vm_compute. }
  assert (same (JInt (tp_turn_index t)) (JInt (tp_turn_index u))) as Hi by (apply (Hf (lit "turn_index")); set_solver).
  assert (same (JStr (tp_role t)) (JStr (tp_role u))) as Hr by (apply (Hf (lit "role")); set_solver).
  assert (same (JStr (tp_content t)) (JStr (tp_content u))) as Hc by (apply (Hf (lit "content")); set_solver).
  inversion Hi; inversion Hr; inversion Hc. destruct t, u; cbn in *; congruence.
Qed.

Lemma same_kwargs kw kw' : kwargs_ok kw -> kwargs_ok kw' -> same (kwargs_json kw) (kwargs_json kw') -> kw = kw'.
Proof.
  intros [(Ho & Ha & Hs) _] [(Ho' & Ha' & Hs') _] E. unfold kwargs_json in E.
  match type of E with same (JObj ?a) (JObj ?b) => assert (forall k v w, (k, v) ∈ a -> (k, w) ∈ b -> same v w) as Hf end.
  { intros k v w. apply same_field; [exact E|]. cbn [map fst]. by apply (bool_decide_unpack _); vm_compute. }
  assert (same (JStr (uuid_str (k_org_id kw))) (JStr (uuid_str (k_org_id kw')))) as E1 by (apply (Hf (lit "org_id")); set_solver).
  assert (same (JStr (uuid_str (k_agent_id kw))) (JStr (uuid_str (k_agent_id kw')))) as E2 by (apply (Hf (lit "agent_id")); set_solver).
  assert (same (JStr (uuid_str (k_session_id kw))) (JStr (uuid_str (k_session_id kw')))) as E3 by (apply (Hf (lit "session_id")); set_solver).
  assert (same (JList (map turn_json (k_turns kw))) (JList (map turn_json (k_turns kw')))) as E4 by (apply (Hf (lit "turns")); set_solver).
  apply same_str_inv, uuid_str_inj in E1; [|done..]. apply same_str_inv, uuid_str_inj in E2; [|done..].
  apply same_str_inv, uuid_str_inj in E3; [|done..]. inversion E4 as [| | | | |? ? Ht|]; subst. destruct kw as [o a s ts], kw' as [o' a' s' ts']; cbn in *. subst. f_equal.
  apply list_eq_Forall2. change (Forall2 same (turn_json <$> ts) (turn_json <$> ts')) in Ht. rewrite Forall2_fmap in Ht.
  eapply Forall2_impl; [exact Ht|]. apply same_turn.
Qed.

(** SHA-256 tells the texts of these two requests apart. *)
Definition no_collision (sha256 : bytes -> string) (kw kw' : Kwargs) : Prop :=
  forall b b', canonical_request_bytes IDEMPOTENCY_CONTRACT (lit "POST") ENQUEUE_PATH (kwargs_json kw) = Some b ->
  canonical_request_bytes IDEMPOTENCY_CONTRACT (lit "POST") ENQUEUE_PATH (kwargs_json kw') = Some b' -> sha256 b = sha256 b' -> b = b'.

Lemma fingerprint_identifies sha256 kw kw' h : kwargs_ok kw -> kwargs_ok kw' -> no_collision sha256 kw kw' ->
  fingerprint_enqueue sha256 kw = Some h -> fingerprint_enqueue sha256 kw' = Some h -> kw = kw'.
Proof.
  intros Hk Hk' Hn (b & Hb & ->)%fmap_Some (b' & Hb' & E)%fmap_Some. apply Hn in E; [|done|done]. subst b'.
  apply same_kwargs; try done.
  assert (forall k, kwargs_ok k -> well_formed (request_object IDEMPOTENCY_CONTRACT (lit "POST") ENQUEUE_PATH (kwargs_json k)) = true) as Hw.
  { intros k Hok%kwargs_well_formed. unfold request_object. cbn [well_formed]. apply andb_true_intro. split; [by vm_compute|].
    cbn [forallb fst snd]. cbn [well_formed] in Hok. rewrite Hok. by vm_compute. }
  unfold canonical_request_bytes in Hb, Hb'. pose proof (utf8_text_unique _ _ _ Hb Hb') as E.
  apply dumps_inj in E; [|by apply Hw..]. by apply same_request in E as (_ & _ & _ & ?).
Qed.
End Identity.

(** ** What the ledger's steps do *)

Lemma finalized_row_origin known lease_us w e w' k r : Idempotency.step known lease_us w e w' ->
  table w' !! k = Some r -> row_state r = Finalized ->
  table w !! k = Some r \/
  exists c st resp o, e = EvFinalize c st resp o /\ row_hash r = request_hash c /\ status_code r = Some st /\ response_payload r = Some resp.
Proof.
  intros Hstep Hr Hf. destruct Hstep as [w q env f t0 o t' Ht0 _ Hc|w c st resp f o t' Hc|w c f o t' Hc]; cbn in Hr.
  - left. apply claim_spec in Hc as [[-> _]|(out & Heff & _)]; [done| |done].
    destruct Heff; subst; try done; apply lookup_insert_Some in Hr as [[_ <-]|[_ Hr]]; cbn in Hf; congruence || done.
  - apply ledger_finalize_spec in Hc as [[-> _]|(r0 & Hr0 & Hfence & -> & _)]; [by left|].
    apply lookup_insert_Some in Hr as [[_ <-]|[_ Hr]]; [|by left]. right. exists c, st, resp, o.
    apply token_fence_true in Hfence as (_ & Hh & _). done.
  - left. apply release_spec in Hc as [[-> _]|(r0 & _ & _ & -> & _)]; [done|]. by apply lookup_delete_Some in Hr as [_ Hr].
Qed.

Lemma owned_hash known lease_us w q c w' : Idempotency.step known lease_us w (EvClaim q (Ok (Owned c))) w' -> request_hash c = rq_hash q.
Proof.
  intros Hstep. inversion Hstep as [? ? env f t0 ? t' Ht0 _ Hc| |]; subst.
  apply claim_spec in Hc as [[_ [e [=]]]|(out & Heff & [[= <-]|[=]])]; [|done]. by inversion Heff; subst.
Qed.

Lemma replay_row known lease_us w q c st resp w' : Idempotency.step known lease_us w (EvClaim q (Ok (Replay c st resp))) w' ->
  exists r, table w !! rq_index q = Some r /\ row_state r = Finalized /\ row_hash r = rq_hash q
            /\ status_code r = Some st /\ response_payload r = Some resp.
Proof.
  intros Hstep. inversion Hstep as [? ? env f t0 ? t' Ht0 _ Hc| |]; subst.
  apply claim_spec in Hc as [[_ [e [=]]]|(out & Heff & [[= <-]|[=]])]; [|done]. inversion Heff; subst. eauto 10.
Qed.

Lemma task_body_text t : String.eqb (task_body t) EmptyString = false.
Proof. done. Qed.

(** ** The invariant *)

Section Invariant.
Context `{UnicodeDB, FloatRepr}.
Context (json_loads : bytes -> result LoadError Json) (pydantic_int : Json -> option Z) (sha256 : bytes -> string).
Context (settings : Settings) (has_ledger : nat -> bool) (known : UUID -> UUID -> bool) (lease_us : Z).
Context (json_values : forall b j, json_loads b = Ok j -> well_formed j = true).

Abbreviation step := (step json_loads pydantic_int sha256 settings has_ledger known lease_us).
Abbreviation reachable := (reachable json_loads pydantic_int sha256 settings has_ledger known lease_us).
Abbreviation fingerprint := (fingerprint_enqueue sha256).

(** A task of that fingerprint is on the queue, and this is the body that names it. *)
Definition queued (s : Sys) (h body : string) : Prop :=
  exists j, j ∈ queue s /\ fingerprint (j_kwargs j) = Some h /\ body = task_body (j_task_id j).

Definition phase_ok (s : Sys) (n : CallId) (p : Phase) : Prop :=
  match p with
  | Holding kw c | Dispatching kw c => kwargs_ok kw /\ fingerprint kw = Some (request_hash c)
  | Sent kw c t => kwargs_ok kw /\ fingerprint kw = Some (request_hash c) /\ {| j_call := n; j_kwargs := kw; j_task_id := t |} ∈ queue s
  | Answered (Some kw) (Answer st body) => kwargs_ok kw /\ st = 202 /\ exists h, fingerprint kw = Some h /\ queued s h body
  | Answered None (Answer _ _) => False
  | _ => True
  end.

Definition unpublished (p : Phase) : bool := match p with Holding _ _ | Dispatching _ _ => true | _ => false end.

Definition dispatching (v : nat) (np : CallId * Phase) : bool :=
  ((np.1.1 =? v)%nat && match np.2 with Dispatching _ _ => true | _ => false end)%bool.

(** The calls of a server that hold a permit. *)
Definition publishing (m : gmap CallId Phase) (v : nat) : nat := size (filter (fun np => dispatching v np = true) m).

Record sound (s : Sys) : Prop := {
  so_calls : forall n p, calls s !! n = Some p -> phase_ok s n p;
  so_rows : forall k r kw, table (world s) !! k = Some r -> row_state r = Finalized -> fingerprint kw = Some (row_hash r) ->
    status_code r = Some 202 /\ exists body, response_payload r = Some body /\ queued s (row_hash r) body;
  so_jobs : forall j, j ∈ queue s -> kwargs_ok (j_kwargs j) /\ exists p, calls s !! j_call j = Some p /\ unpublished p = false;
  so_once : NoDup (j_call <$> queue s);
  so_busy : forall v, in_use s v = publishing (calls s) v /\ (in_use s v <= DISPATCH_CONCURRENCY)%nat;
}.

Lemma queued_mono s s' h body : (forall j, j ∈ queue s -> j ∈ queue s') -> queued s h body -> queued s' h body.
Proof. intros Hq (j & Hj & ?). exists j. eauto. Qed.

Lemma phase_mono s s' n p : (forall j, j ∈ queue s -> j ∈ queue s') -> phase_ok s n p -> phase_ok s' n p.
Proof.
  intros Hq. destruct p as [kw c|kw c|kw c t|c|[kw|] [st body|st e ra]]; cbn; try done.
  - intros (? & ? & ?). auto.
  - intros (? & ? & h & ? & ?). split_and!; try done. exists h. split; [done|]. by eapply queued_mono.
Qed.

(** Replacing the phase of one call changes one summand. *)
Lemma publishing_set m n p v :
  (publishing (<[n := p]> m) v + match m !! n with Some q => if dispatching v (n, q) then 1 else 0 | None => 0 end
   = publishing m v + if dispatching v (n, p) then 1 else 0)%nat.
Proof.
  assert (forall m q, publishing (<[n := q]> m) v = (if dispatching v (n, q) then 1 else 0) + publishing (delete n m) v)%nat as Hset.
  { intros m' q. unfold publishing. rewrite map_filter_insert. case_decide as Hd.
    - rewrite Hd, <- insert_delete_eq, map_size_insert_None; [by rewrite map_filter_delete|apply lookup_delete_eq].
    - by destruct (dispatching v (n, q)). }
  rewrite Hset. destruct (m !! n) as [q|] eqn:Hq.
  - rewrite <- (insert_id m n q Hq) at 2. rewrite Hset. lia.
  - rewrite delete_id by done. lia.
Qed.

Definition is_dispatching (p : Phase) : bool := match p with Dispatching _ _ => true | _ => false end.

Lemma dispatching_is v n p : dispatching v (n, p) = ((n.1 =? v)%nat && is_dispatching p)%bool.
Proof. by destruct p. Qed.

Lemma sound_world s w : sound s ->
  (forall k r kw, table w !! k = Some r -> row_state r = Finalized -> fingerprint kw = Some (row_hash r) ->
    status_code r = Some 202 /\ exists body, response_payload r = Some body /\ queued s (row_hash r) body) ->
  sound (set_world w s).
Proof. intros [H1 H2 H3 H4 H5] Hw. by split. Qed.

(** A ledger step keeps the finalized rows of this endpoint true. *)
Lemma sound_ledger s e w : sound s -> Idempotency.step known lease_us (world s) e w ->
  (forall c st resp o kw, e = EvFinalize c st resp o -> fingerprint kw = Some (request_hash c) -> st = 202 /\ queued s (request_hash c) resp) ->
  sound (set_world w s).
Proof.
  intros Hs Hstep Hfin. apply sound_world; [done|]. intros k r kw Hr Hf Hkw.
  destruct (finalized_row_origin _ _ _ _ _ _ _ Hstep Hr Hf) as [Hold|(c & st & resp & o & He & Hh & Hst & Hresp)].
  - by eapply so_rows.
  - rewrite Hh in Hkw |- *. destruct (Hfin c st resp o kw He Hkw) as [-> Hq]. eauto.
Qed.

(** A call moves to a phase that holds no permit. *)
Lemma sound_set s n p : sound s -> is_dispatching p = false ->
  (forall q, calls s !! n = Some q -> is_dispatching q = false) -> (unpublished p = true -> calls s !! n = None) ->
  phase_ok s n p -> sound (set_phase n p s).
Proof.
  intros [H1 H2 H3 H4 H5] Hp Hq Hfresh Hok. split; cbn [calls world queue busy set_phase].
  - intros n' p' [[<- <-]|[_ Hp']]%lookup_insert_Some; [exact Hok|exact (H1 n' p' Hp')].
  - exact H2.
  - intros j Hj. destruct (H3 j Hj) as (Hk & q & Hjq & Hu). split; [done|].
    destruct (decide (n = j_call j)) as [->|Hne]; [|exists q; by rewrite lookup_insert_ne].
    exists p. rewrite lookup_insert_eq. split; [done|]. destruct (unpublished p) eqn:E; [|done]. rewrite Hfresh in Hjq by done. done.
  - exact H4.
  - intros v. destruct (H5 v) as [Hin Hle]. split; [|exact Hle]. change (in_use (set_phase n p s) v) with (in_use s v). rewrite Hin.
    pose proof (publishing_set (calls s) n p v) as Hc. rewrite dispatching_is, Hp, andb_false_r in Hc.
    destruct (calls s !! n) as [q|]; [rewrite dispatching_is, (Hq q eq_refl), andb_false_r in Hc|]; lia.
Qed.

Lemma sound_start s n kw c : sound s -> calls s !! n = Some (Holding kw c) -> sound (start_dispatch n kw c s).
Proof.
  intros Hs Hn. pose proof (so_calls s Hs n _ Hn) as Hok. unfold start_dispatch. destruct (_ <? _)%nat eqn:Hlt.
  2: { apply sound_set; try done. by rewrite Hn; intros q [= <-]. }
  apply Nat.ltb_lt in Hlt. destruct Hs as [H1 H2 H3 H4 H5]. split; cbn [calls world queue busy].
  - intros n' p' [[<- <-]|[_ Hp']]%lookup_insert_Some; [exact Hok|exact (H1 n' p' Hp')].
  - exact H2.
  - intros j Hj. destruct (H3 j Hj) as (Hk & q & Hjq & Hu). split; [done|]. exists q. split; [|done].
    rewrite lookup_insert_ne; [done|]. intros ->. rewrite Hn in Hjq. by injection Hjq as <-.
  - exact H4.
  - intros v. destruct (H5 v) as [Hin Hle]. pose proof (publishing_set (calls s) n (Dispatching kw c) v) as Hc.
    rewrite Hn, !dispatching_is in Hc. cbn [is_dispatching] in Hc. rewrite andb_false_r, andb_true_r in Hc.
    unfold in_use in *. cbn [busy]. destruct (Nat.eqb_spec n.1 v) as [<-|Hne].
    + rewrite lookup_insert_eq. cbn [from_option]; unfold Datatypes.id in *; lia.
    + rewrite lookup_insert_ne by done. lia.
Qed.

Lemma sound_finish s n kw c d : sound s -> calls s !! n = Some (Dispatching kw c) -> sound (finish_dispatch n kw c d s).
Proof.
  intros Hs Hn. pose proof (so_calls s Hs n _ Hn) as [Hok Hfp]. destruct Hs as [H1 H2 H3 H4 H5].
  set (s' := finish_dispatch n kw c d s).
  assert (forall j, j ∈ queue s -> j ∈ queue s') as Hmono by (intros j Hj; by apply elem_of_app; left).
  assert (forall j, j ∈ queue s' -> j ∈ queue s \/ (j_call j = n /\ j_kwargs j = kw)) as Hnew.
  { intros j [Hj|Hj]%elem_of_app; [by left|]. right. destruct d as [t|[t|]]; set_solver. }
  assert (unpublished (match d with Returned t => Sent kw c t | Raised _ => Failed c end) = false) as Hpub by (by destruct d).
  split.
  - intros n' p' Hp'. cbn [calls s' finish_dispatch] in Hp'. apply lookup_insert_Some in Hp' as [[<- <-]|[_ Hp']]; [|by apply (phase_mono s), H1].
    destruct d as [t|]; [|done]. split_and!; try done. apply elem_of_app. right. by left.
  - intros k r kw' Hr Hf Hkw'. destruct (H2 k r kw' Hr Hf Hkw') as (Hst & body & Hbody & Hq).
    split; [done|]. exists body. split; [done|]. by eapply queued_mono.
  - intros j [Hj|[Hc Hk]]%Hnew; cbn [calls s' finish_dispatch].
    + destruct (H3 j Hj) as (Hk & q & Hjq & Hu). split; [done|].
      destruct (decide (n = j_call j)) as [->|Hne]; [eexists; by rewrite lookup_insert_eq|exists q; by rewrite lookup_insert_ne].
    + rewrite Hc, Hk. split; [done|]. eexists. by rewrite lookup_insert_eq.
  - cbn [queue s' finish_dispatch]. rewrite fmap_app. apply NoDup_app. split_and!; [done| |destruct d as [t|[t|]]; repeat constructor; set_solver].
    intros x (j & -> & Hj)%list_elem_of_fmap Hx. destruct (H3 j Hj) as (_ & q & Hjq & Hu).
    assert (j_call j = n) as E by (destruct d as [t|[t|]]; set_solver). rewrite E, Hn in Hjq. by injection Hjq as <-.
  - intros v. destruct (H5 v) as [Hin Hle]. cbn [calls s' finish_dispatch].
    match goal with |- context [publishing (<[n := ?p]> _)] => pose proof (publishing_set (calls s) n p v) as Hc end.
    rewrite Hn, !dispatching_is in Hc.
    assert (is_dispatching (match d with Returned t => Sent kw c t | Raised _ => Failed c end) = false) as Hd by (by destruct d).
    rewrite Hd, andb_false_r in Hc. cbn [is_dispatching] in Hc. rewrite andb_true_r in Hc.
    unfold in_use in *. cbn [busy s' finish_dispatch]. destruct (Nat.eqb_spec n.1 v) as [<-|Hne].
    + rewrite lookup_insert_eq. cbn [from_option]; unfold in_use, Datatypes.id in *; lia.
    + rewrite lookup_insert_ne by done. lia.
Qed.

Lemma sound_claim s n q kw key h o w : sound s -> calls s !! n = None ->
  prepare_enqueue_request json_loads pydantic_int settings (has_ledger n.1) q = Ok (kw, key) -> fingerprint kw = Some h ->
  Idempotency.step known lease_us (world s) (EvClaim (claim_arguments kw key h) o) w -> sound (claimed n kw o (set_world w s)).
Proof.
  intros Hs Hn Hprep Hh Hstep. pose proof (prepare_spec json_loads pydantic_int json_values settings (has_ledger n.1) q) as Hspec.
  rewrite Hprep in Hspec. destruct Hspec as (_ & Hok & _).
  assert (sound (set_world w s)) as Hw by (by eapply sound_ledger).
  unfold claimed. apply sound_set; try done.
  - destruct o as [[]|]; cbn; done.
  - cbn. rewrite Hn. done.
  - destruct o as [[c|c st resp|c|c k]|e]; cbn; try done.
    + apply owned_hash in Hstep. rewrite Hstep. done.
    + apply replay_row in Hstep as (r & Hr & Hf & Hhash & Hst & Hresp). cbn [rq_hash claim_arguments] in Hhash.
      rewrite <- Hhash in Hh. destruct (so_rows s Hs _ r kw Hr Hf Hh) as (Hst' & body & Hbody & Hq).
      assert (st = 202) as -> by congruence. assert (resp = body) as -> by congruence. cbn.
      destruct Hq as (j & Hj & Hfp & ->). rewrite task_body_text. split_and!; [done..|]. exists (row_hash r). split; [done|]. by exists j.
Qed.

Lemma step_sound s s' : sound s -> step s s' -> sound s'.
Proof.
  intros Hs Hstep. destruct Hstep as [s n q r Hn Hp|s n q kw key Hn Hp Hfp|s n q kw key h o w Hn Hp Hfp Hl|s n kw c Hn|s n kw c d Hn|s n kw c t o w Hn Hl|s n c o w Hn Hl|s e w Hl Hno].
  - pose proof (prepare_spec json_loads pydantic_int json_values settings (has_ledger n.1) q) as Hspec. rewrite Hp in Hspec.
    destruct Hspec as (st & e & ra & ->). apply sound_set; try done. by rewrite Hn.
  - apply sound_set; try done. by rewrite Hn.
  - by eapply sound_claim.
  - by apply sound_start.
  - by apply sound_finish.
  - destruct (so_calls s Hs n _ Hn) as (Hok & Hfp & Hj).
    assert (queued s (request_hash c) (task_body t)) as Hq by (eexists; split_and!; [exact Hj|done|done]).
    apply sound_set; try done; [|by cbn; rewrite Hn; intros q [= <-]|].
    + eapply sound_ledger; [done|exact Hl|]. intros c' st resp o' kw' [= <- <- <- <-] _. done.
    + destruct o; cbn; [|done]. split_and!; [done..|]. eauto.
  - apply sound_set; try done; [|by cbn; rewrite Hn; intros q [= <-]]. eapply sound_ledger; [done|exact Hl|done].
  - eapply sound_ledger; [done|exact Hl|]. intros c st resp o kw -> Hkw. by apply Hno in Hkw.
Qed.

Lemma reachable_sound s : reachable s -> sound s.
Proof.
  induction 1 as [|s s' _ IH Hstep]; [|by eapply step_sound].
  split; cbn; try done; [by intros j Hj%elem_of_nil|apply NoDup_nil_2|]. intros v. unfold in_use, publishing. cbn. rewrite map_filter_empty, map_size_empty, lookup_empty.
  cbn. split; [done|]. unfold DISPATCH_CONCURRENCY. lia.
Qed.
End Invariant.

(** C20: A positive answer names a task that was really queued for the request it
    answers.  Whatever the interleaving of requests, servers, driver faults and
    other users of the ledger (whose hashes are those of no enqueue request: the path
    is hashed too), a request that was answered with a task, freshly or by
    a replay, was answered 202, and the queue holds a task with exactly its
    organization, agent, session and turns whose id is the one in the body, provided
    SHA-256 tells its canonical text from those of the queued tasks.  Each request
    publishes at most one task, and a server never publishes more than 32 at once. *)
Theorem accepted_answer_names_queued_task `{UnicodeDB, FloatRepr} (json_loads : bytes -> result LoadError Json)
    (pydantic_int : Json -> option Z) (sha256 : bytes -> string) (settings : Settings) (has_ledger : nat -> bool)
    (known : UUID -> UUID -> bool) (lease_us : Z) (s : Sys) (n : CallId) (kw : option Kwargs) (st : Z) (body : string) :
  (forall b j, json_loads b = Ok j -> well_formed j = true) ->
  reachable json_loads pydantic_int sha256 settings has_ledger known lease_us s ->
  calls s !! n = Some (Answered kw (Answer st body)) ->
  (forall j kw', j ∈ queue s -> kw = Some kw' -> no_collision sha256 kw' (j_kwargs j)) ->
  (st = 202 /\ exists j, j ∈ queue s /\ kw = Some (j_kwargs j) /\ body = task_body (j_task_id j))
  /\ NoDup (j_call <$> queue s)
  /\ (forall v, (publishing (calls s) v <= DISPATCH_CONCURRENCY)%nat).
Proof.
  intros Hjson Hr%reachable_sound Hn Hcol; [|done]. split; [|split].
  - pose proof (so_calls _ _ Hr n _ Hn) as Hok. destruct kw as [kw|]; [|done].
    destruct Hok as (Hkw & -> & h & Hh & j & Hj & Hfp & ->). split; [done|]. exists j. split_and!; try done. f_equal.
    destruct (so_jobs _ _ Hr j Hj) as [Hjk _]. by eapply fingerprint_identifies; [..|by apply Hcol| |].
  - by eapply so_once.
  - intros v. by destruct (so_busy _ _ Hr v) as [<- ?].
Qed.

(** ** Examples *)

Module EnqueueSample.
Import FingerprintSample.
#[local] Existing Instance ascii_db.
#[local] Existing Instance sample_repr.

Definition turn0 : TurnPayload := {| tp_turn_index := 0; tp_role := lit "user"; tp_content := lit "I like tea" |}.
Definition task : Kwargs := {| k_org_id := 1; k_agent_id := 2; k_session_id := 3; k_turns := [turn0] |}.

Definition loads (b : bytes) : result LoadError Json := Ok (kwargs_json task).
Definition as_int (j : Json) : option Z := match j with JInt z => Some z | _ => None end.
Definition sha (b : bytes) : string := "aaaaaaaaaaaaaaaaaaaaaaaaaaaaaaaaaaaaaaaaaaaaaaaaaaaaaaaaaaaaaaaa".
Definition conf : Settings := {| enqueue_api_token := Some (lit "s3cret") |}.
Definition with_ledgers (v : nat) : bool := true.
Definition all_known (o a : UUID) : bool := true.

Definition request (auth : string) : Request :=
  {| authorization := Some auth; content_length := Some "2"; idempotency_key := Some " close-7 "; chunks := [[123; 125]] |}.

Example token_is_checked :
  prepare_enqueue_request loads as_int conf true (request "bearer s3cret") = Ok (task, "close-7"%string)
  /\ prepare_enqueue_request loads as_int conf true (request "Bearer s3cre") = Raise (error_answer 401 unauthorized).
Proof. by vm_compute. Qed.

Definition q7 : ClaimRequest := claim_arguments task "close-7" (sha []).
Definition env_at (t : Z) (i : UUID) : Idempotency.Env := {| Idempotency.db_now := t; Idempotency.py_now := t; Idempotency.new_id := i |}.
Definition claim_at (t : Z) (i : UUID) (w : World) : result LedgerError ClaimOutcome * World :=
  let '(o, t') := Idempotency.claim all_known LEDGER_LEASE q7 (env_at t i) NoFault (table w) (table w) in
  (o, {| table := t'; used := used w ∪ {[Idempotency.new_id (env_at t i)]} |}).

Definition first_claim := claim_at 0 "row" empty_world.
Definition token : ClaimToken :=
  match first_claim.1 with Ok (Owned c) => c
  | _ => Idempotency.LedgerSample.c1 end.
Definition s1 : Sys := claimed (0, 0)%nat task first_claim.1 (set_world first_claim.2 initial).
Definition s2 : Sys := start_dispatch (0, 0)%nat task token s1.
Definition s3 : Sys := finish_dispatch (0, 0)%nat task token (Returned (lit "t-1")) s2.
Definition final := Idempotency.finalize token 202 (task_body (lit "t-1")) NoFault (table (world s3)).
Definition s4 : Sys := set_phase (0, 0)%nat (Answered (Some task) (finalized_answer final.1 (lit "t-1")))
  (set_world {| table := final.2; used := used (world s3) |} s3).
Definition second_claim := claim_at 5 "row2" (world s4).
(** A retry on another server replays the answer. *)
Definition s5 : Sys := claimed (1, 0)%nat task second_claim.1 (set_world second_claim.2 s4).

Abbreviation reached := (reachable loads as_int sha conf with_ledgers all_known LEDGER_LEASE).

Lemma claim_step t i w : i ∉ used w -> Idempotency.step all_known LEDGER_LEASE w (EvClaim q7 (claim_at t i w).1) (claim_at t i w).2.
Proof.
  intros Hi. unfold claim_at. destruct (claim _ _ _ _ _ _ _) as [o t'] eqn:E. cbn [fst snd].
  econstructor; [by left|exact Hi|exact E].
Qed.

Lemma s5_reached : reached s5.
Proof.
  assert (reached s1) as H1.
  { eapply reachable_step; [apply reachable_initial|]. eapply (step_claim _ _ _ _ _ _ _ _ _ (request "Bearer s3cret") _ "close-7" (sha []));
      [done|by vm_compute|by vm_compute|by apply claim_step]. }
  assert (reached s2) as H2 by (eapply reachable_step; [exact H1|]; by apply step_start).
  assert (reached s3) as H3 by (eapply reachable_step; [exact H2|]; by apply step_finish).
  assert (reached s4) as H4.
  { eapply reachable_step; [exact H3|]. eapply step_finalize; [by vm_compute|]. econstructor. apply surjective_pairing. }
  eapply reachable_step; [exact H4|]. eapply (step_claim _ _ _ _ _ _ _ _ _ (request "Bearer s3cret") _ "close-7" (sha []));
    [by vm_compute|by vm_compute|by vm_compute|]. apply claim_step. apply (bool_decide_unpack _). by vm_compute.
Qed.

Lemma accepted_answer_names_queued_task_witness :
  calls s5 !! (1, 0)%nat = Some (Answered (Some task) (Answer 202 (task_body (lit "t-1"))))
  /\ exists j, j ∈ queue s5 /\ Some task = Some (j_kwargs j) /\ task_body (lit "t-1") = task_body (j_task_id j).
Proof.
  assert (calls s5 !! (1, 0)%nat = Some (Answered (Some task) (Answer 202 (task_body (lit "t-1"))))) as Hc by (by vm_compute).
  split; [exact Hc|].
  destruct (accepted_answer_names_queued_task loads as_int sha conf with_ledgers all_known LEDGER_LEASE s5 (1, 0)%nat (Some task) 202
    (task_body (lit "t-1"))) as [[_ Hj] _]; [|exact s5_reached|exact Hc| |exact Hj].
  - intros b j [= <-]. by vm_compute.
  - intros j kw Hj [= <-]. assert (j_kwargs j = task) as ->.
    { change (queue s5) with [{| j_call := (0, 0)%nat; j_kwargs := task; j_task_id := lit "t-1" |}] in Hj.
      by apply list_elem_of_singleton in Hj as ->. }
    intros b b' Hb Hb' _. congruence.
Defined.
End EnqueueSample.
