(* ===== verification/McpTools.v ===== *)
(** * The memory MCP server: tools, memory client and agent verifier
    ([services/mcp-memory/app/]: [tools.py], [clients/memory.py], [agent_verifier.py],
    [server.py], [errors.py], [principal.py], [access_token.py])

    The four tools as functions of what the services they call answer.  Every call
    that leaves the process is recorded, in order: the questions to the auth service
    about an agent, and the requests to the memory service.  pydantic's coercions, the
    normal form NFC and SHA-256 are parameters. *)

From Stdlib Require Import SpecFloat.
From S2P Require Import Prelude PyText Num Wire AuthCodec Permissions RateLimit Idempotency MemoryStore PiiGuard ReadRank MemoryRead ModelClients Fingerprint.

(** ** Errors *)

(** [MCPServiceError] and its classes; [InternalError] is any other exception. *)
Inductive ToolError :=
| AuthFailedError
| AuthUnavailableError
| PermissionDeniedError
| SchemaError
| BackendUnavailableError
| BackendRejectedError (code : string)
| RateLimitedError
| RateLimitUnavailableError
| InternalError.

#[global] Instance ToolError_eq_dec : EqDecision ToolError.
Proof. solve_decision. Defined.

Definition error_code (e : ToolError) : string :=
  match e with
  | AuthFailedError => "unauthorized"
  | AuthUnavailableError => "auth_unavailable"
  | PermissionDeniedError => "permission_denied"
  | SchemaError => "invalid_params"
  | BackendUnavailableError => "backend_unavailable"
  | BackendRejectedError code => code
  | RateLimitedError => "rate_limited"
  | RateLimitUnavailableError => "rate_limit_unavailable"
  | InternalError => "internal_error"
  end.

(** ** Principals and outgoing calls *)

Record Principal := {
  p_org_id : Z;
  p_permissions : Z;
  p_agent_id : option Z;
  p_user_id : option pystr;
  p_token_id : option pystr;
}.

(** [_CallSpec], with the headers that depend on the call. *)
Record CallSpec := {
  cs_method : string;
  cs_path : pystr;
  cs_token : pystr;
  cs_body : option Json;
  cs_params : list (pystr * Json);
  cs_idempotency_key : option string;
}.

(** What the auth service answers about an agent. *)
Inductive VerifyReply :=
| RpcPermissionDenied
| RpcFailed                          (* any other status *)
| SocketError                        (* [OSError] *)
| NotBytes
| Payload (b : bytes).

Inductive Effect :=
| AskAgent (bearer : pystr) (org_id agent_id : Z)
| CallMemory (c : CallSpec).

(** What the tools are wired to; a missing client or verifier is [None]. *)
Record Wiring := {
  memory_client : option (CallSpec -> HttpOutcome);
  agent_verifier : option (pystr -> Z -> Z -> VerifyReply);
}.

(** Results with the calls made for them. *)
Abbreviation T A := (result ToolError A * list Effect)%type.
Definition pure {A} (r : result ToolError A) : T A := (r, []).
Definition tbind {A B} (m : T A) (k : A -> T B) : T B :=
  match m.1 with
  | Ok a => ((k a).1, m.2 ++ (k a).2)
  | Raise e => (Raise e, m.2)
  end.
Notation "'do*' x ':=' m 'in' k" := (tbind m (fun x => k)) (at level 200, x name, m at level 100, k at level 200, right associativity).

(** ** Validation *)

(** pydantic's conversions in lax mode. *)
Class Pydantic := {
  as_int : Json -> option Z;
  as_float : Json -> option binary64;
  as_uuid : Json -> option Z;
  as_bool : Json -> option bool;
  as_uuid_range : forall j u, as_uuid j = Some u -> 0 <= u < 2 ^ 128;
}.

Definition find_key (k : string) (fields : list (pystr * Json)) : option Json :=
  snd <$> last (List.filter (fun kv => bool_decide (kv.1 = lit k)) fields).

Definition only_keys (ks : list string) (fields : list (pystr * Json)) : bool :=
  forallb (fun kv => existsb (fun k => bool_decide (kv.1 = lit k)) ks) fields.

Definition as_str (j : Json) : option pystr := match j with JStr s => Some s | _ => None end.

(** [Field(ge=0.0, le=1.0)] *)
Definition unit_interval (x : binary64) : bool := (SFleb (S754_zero false) x && SFleb x (b64_of_Z 1))%bool.

Definition guard_opt {A} (p : A -> bool) (o : option A) : option A := x ← o; if p x then Some x else None.

(** A field with a default, and an optional field that may be null. *)
Definition with_default {A} (d : A) (f : Json -> option A) (j : option Json) : option A :=
  match j with None => Some d | Some j => f j end.
Definition nullable {A} (f : Json -> option A) (j : option Json) : option (option A) :=
  match j with None | Some JNull => Some None | Some j => Some <$> f j end.

Definition zlength {A} (l : list A) : Z := Z.of_nat (length l).

Definition CATEGORIES : list string := ["factual"; "preference"; "behavioral"; "episodic"; "procedural"].
Definition FEEDBACKS : list string := ["positive"; "negative"; "neutral"].

(** [Literal[...]] *)
Definition as_literal (ls : list string) (j : Json) : option pystr :=
  guard_opt (fun s => existsb (fun l => bool_decide (s = lit l)) ls) (as_str j).

Record SearchMemoryArgs := { sa_query : pystr; sa_limit : Z; sa_agent_id : option Z }.
Record WriteMemoryArgs := { wa_content : pystr; wa_category : pystr; wa_confidence : binary64; wa_agent_id : option Z }.
Record RecordFeedbackArgs := { fa_memory_id : Z; fa_feedback : pystr; fa_session_id : option Z; fa_trace_id : option Z; fa_notes : option pystr }.
Record GetMemoryLineageArgs := { la_memory_id : Z; la_max_depth : Z }.

(** [0.6] *)
Definition DEFAULT_CONFIDENCE : binary64 := b64_lit 5404319552844595 (-53).

Definition between (lo hi z : Z) : bool := ((lo <=? z) && (z <=? hi))%bool.

Section Tools.
Context `{UnicodeDB, Pydantic}.

Definition text_between (lo hi : Z) (j : Json) : option pystr := guard_opt (fun s => between lo hi (zlength s)) (as_str j).

Definition or_schema_error {A} (o : option A) : result ToolError A := match o with Some a => Ok a | None => Raise SchemaError end.

Definition parse_search_args (raw : list (pystr * Json)) : result ToolError SearchMemoryArgs :=
  or_schema_error
    (if only_keys ["query"; "limit"; "agent_id"] raw then
       query ← find_key "query" raw ≫= text_between 1 2000;
       limit ← with_default 5 (fun j => guard_opt (between 1 50) (as_int j)) (find_key "limit" raw);
       agent ← nullable as_uuid (find_key "agent_id" raw);
       Some {| sa_query := query; sa_limit := limit; sa_agent_id := agent |}
     else None).

Definition parse_write_args (raw : list (pystr * Json)) : result ToolError WriteMemoryArgs :=
  or_schema_error
    (if only_keys ["content"; "category"; "confidence"; "agent_id"] raw then
       content ← find_key "content" raw ≫= text_between 1 8000;
       category ← with_default (lit "factual") (as_literal CATEGORIES) (find_key "category" raw);
       confidence ← with_default DEFAULT_CONFIDENCE (fun j => guard_opt unit_interval (as_float j)) (find_key "confidence" raw);
       agent ← nullable as_uuid (find_key "agent_id" raw);
       Some {| wa_content := content; wa_category := category; wa_confidence := confidence; wa_agent_id := agent |}
     else None).

Definition parse_feedback_args (raw : list (pystr * Json)) : result ToolError RecordFeedbackArgs :=
  or_schema_error
    (if only_keys ["memory_id"; "feedback"; "session_id"; "trace_id"; "notes"] raw then
       memory ← find_key "memory_id" raw ≫= as_uuid;
       feedback ← find_key "feedback" raw ≫= as_literal FEEDBACKS;
       session ← nullable as_uuid (find_key "session_id" raw);
       trace ← nullable as_uuid (find_key "trace_id" raw);
       notes ← nullable (text_between 0 2000) (find_key "notes" raw);
       Some {| fa_memory_id := memory; fa_feedback := feedback; fa_session_id := session; fa_trace_id := trace; fa_notes := notes |}
     else None).

Definition parse_lineage_args (raw : list (pystr * Json)) : result ToolError GetMemoryLineageArgs :=
  or_schema_error
    (if only_keys ["memory_id"; "max_depth"] raw then
       memory ← find_key "memory_id" raw ≫= as_uuid;
       depth ← with_default 3 (fun j => guard_opt (between 1 5) (as_int j)) (find_key "max_depth" raw);
       Some {| la_memory_id := memory; la_max_depth := depth |}
     else None).

(** ** The memory client ([clients/memory.py]) *)

(** [MemoryHttpTimeout], or [MemoryHttpError] with its status. *)
Inductive MemoryHttpError := HttpTimeout | HttpError (status : option Z).

(** [_response_data]: the fields of the object under [data]. *)
Definition response_data (body : option Json) : result MemoryHttpError (list (pystr * Json)) :=
  match body with
  | Some (JObj fields) => match find_key "data" fields with Some (JObj data) => Ok data | _ => Raise (HttpError None) end
  | _ => Raise (HttpError None)
  end.

Definition or_invalid {A} (o : option A) : result MemoryHttpError A := match o with Some a => Ok a | None => Raise (HttpError None) end.

Record SearchHit := { sh_memory_id : Z; sh_content : pystr; sh_category : pystr; sh_similarity : binary64; sh_rank : Z; sh_source : pystr }.

Definition as_fields (j : Json) : option (list (pystr * Json)) := match j with JObj fields => Some fields | _ => None end.
Definition as_items (j : Json) : option (list Json) := match j with JList l => Some l | _ => None end.

(** [_SearchResultRow] *)
Definition search_row (j : Json) : option SearchHit :=
  row ← as_fields j;
  memory ← find_key "memory" row ≫= as_fields;
  mid ← find_key "id" memory ≫= as_uuid;
  content ← find_key "content" memory ≫= as_str;
  category ← find_key "category" memory ≫= as_str;
  similarity ← find_key "similarity" row ≫= as_float;
  rank ← find_key "rank" row ≫= (fun j => guard_opt (Z.leb 1) (as_int j));
  source ← find_key "source" row ≫= as_str;
  Some {| sh_memory_id := mid; sh_content := content; sh_category := category; sh_similarity := similarity; sh_rank := rank; sh_source := source |}.

Definition parse_search_hits (body : option Json) : result MemoryHttpError (list SearchHit) :=
  let* data := response_data body in
  or_invalid (items ← find_key "results" data ≫= as_items; mapM search_row items).

Record CreateMemoryResult := {
  cr_memory_id : Z; cr_org_id : Z; cr_agent_id : Z; cr_category : pystr; cr_confidence : binary64;
  cr_status : pystr; cr_source : pystr; cr_metadata : list (pystr * Json) }.

Definition parse_create_result (body : option Json) : result MemoryHttpError CreateMemoryResult :=
  let* data := response_data body in
  or_invalid
    (mid ← find_key "id" data ≫= as_uuid;
     org ← find_key "org_id" data ≫= as_uuid;
     agent ← find_key "agent_id" data ≫= as_uuid;
     category ← find_key "category" data ≫= as_str;
     confidence ← find_key "confidence" data ≫= (fun j => guard_opt unit_interval (as_float j));
     status ← find_key "status" data ≫= as_str;
     source ← find_key "source" data ≫= as_str;
     metadata ← with_default [] as_fields (find_key "metadata" data);
     Some {| cr_memory_id := mid; cr_org_id := org; cr_agent_id := agent; cr_category := category; cr_confidence := confidence;
             cr_status := status; cr_source := source; cr_metadata := metadata |}).

Record FeedbackResult := { fr_memory_id : Z; fr_feedback : pystr; fr_score : binary64; fr_positive : Z; fr_negative : Z }.

Definition parse_feedback_result (body : option Json) : result MemoryHttpError FeedbackResult :=
  let* data := response_data body in
  or_invalid
    (mid ← find_key "memory_id" data ≫= as_uuid;
     feedback ← find_key "feedback" data ≫= as_literal FEEDBACKS;
     score ← find_key "new_usefulness_score" data ≫= (fun j => guard_opt unit_interval (as_float j));
     positive ← find_key "total_positive_feedback" data ≫= (fun j => guard_opt (Z.leb 0) (as_int j));
     negative ← find_key "total_negative_feedback" data ≫= (fun j => guard_opt (Z.leb 0) (as_int j));
     Some {| fr_memory_id := mid; fr_feedback := feedback; fr_score := score; fr_positive := positive; fr_negative := negative |}).

Record LineageEdge := {
  le_source : Z; le_target : Z; le_type : pystr; le_confidence : binary64; le_depth : Z; le_from : Z;
  le_other : Z; le_other_status : pystr; le_other_tombstoned : bool }.
Record LineageResult := {
  lr_memory_id : Z; lr_status : pystr; lr_tombstoned : bool; lr_tip : option Z; lr_max_depth : Z; lr_truncated : bool; lr_edges : list LineageEdge }.

(** [_LineageEdgeBody] *)
Definition lineage_edge (j : Json) : option LineageEdge :=
  edge ← as_fields j;
  source ← find_key "source_memory_id" edge ≫= as_uuid;
  target ← find_key "target_memory_id" edge ≫= as_uuid;
  kind ← find_key "relationship_type" edge ≫= as_str;
  confidence ← find_key "confidence" edge ≫= (fun j => guard_opt unit_interval (as_float j));
  depth ← find_key "depth" edge ≫= (fun j => guard_opt (Z.leb 1) (as_int j));
  from ← find_key "from_memory_id" edge ≫= as_uuid;
  other ← find_key "other" edge ≫= as_fields;
  oid ← find_key "memory_id" other ≫= as_uuid;
  ostatus ← find_key "status" other ≫= as_str;
  otomb ← find_key "tombstoned" other ≫= as_bool;
  Some {| le_source := source; le_target := target; le_type := kind; le_confidence := confidence; le_depth := depth; le_from := from;
          le_other := oid; le_other_status := ostatus; le_other_tombstoned := otomb |}.

Definition parse_lineage_result (body : option Json) : result MemoryHttpError LineageResult :=
  let* data := response_data body in
  or_invalid
    (mid ← find_key "memory_id" data ≫= as_uuid;
     status ← find_key "status" data ≫= as_str;
     tomb ← find_key "tombstoned" data ≫= as_bool;
     tip ← find_key "supersession_tip" data ≫= (fun j => nullable as_uuid (Some j));
     depth ← find_key "max_depth" data ≫= (fun j => guard_opt (between 1 5) (as_int j));
     truncated ← find_key "truncated" data ≫= as_bool;
     items ← find_key "edges" data ≫= as_items;
     edges ← mapM lineage_edge items;
     Some {| lr_memory_id := mid; lr_status := status; lr_tombstoned := tomb; lr_tip := tip; lr_max_depth := depth;
             lr_truncated := truncated; lr_edges := edges |}).

(** [_send] and [_call]: one request, its errors, and the parser. *)
Definition client_call {A} (send : CallSpec -> HttpOutcome) (c : CallSpec) (parse : option Json -> result MemoryHttpError A)
    : result MemoryHttpError A * list Effect :=
  if bool_decide (strip_space (cs_token c) = []) then (Raise (HttpError None), [])
  else (match send c with
        | TimedOut => Raise HttpTimeout
        | TransportFailed => Raise (HttpError None)
        | Responded status _ body => if 400 <=? status then Raise (HttpError (Some status)) else parse body
        end, [CallMemory c]).

(** [_map_memory_http_error] and [_call_memory] *)
Definition map_memory_http_error (e : MemoryHttpError) : ToolError :=
  match e with
  | HttpTimeout => BackendUnavailableError
  | HttpError None => BackendUnavailableError
  | HttpError (Some st) =>
      if st =? 401 then AuthFailedError
      else if st =? 403 then PermissionDeniedError
      else if st =? 404 then BackendRejectedError "not_found"
      else if 500 <=? st then BackendUnavailableError
      else if 400 <=? st then BackendRejectedError "backend_rejected"
      else BackendUnavailableError
  end.

Definition call_memory {A} (m : result MemoryHttpError A * list Effect) : T A :=
  (match m.1 with Ok a => Ok a | Raise e => Raise (map_memory_http_error e) end, m.2).

(** ** The agent verifier ([agent_verifier.py]) *)

(** [_require_active_payload] *)
Definition require_active_payload (b : bytes) : result ToolError unit :=
  match decode_validate_agent_response b with
  | Ok w => if bool_decide (va_status w = lit "active") then Ok tt else Raise PermissionDeniedError
  | Raise (AuthCodecError _) => Raise AuthUnavailableError
  | Raise _ => Raise InternalError
  end.

(** [GRPCAgentVerifier.verify], given the reply; [_map_validate_agent_rpc]. *)
Definition verify_reply (r : VerifyReply) : result ToolError unit :=
  match r with
  | RpcPermissionDenied => Raise PermissionDeniedError
  | RpcFailed | SocketError | NotBytes => Raise AuthUnavailableError
  | Payload b => require_active_payload b
  end.

(** [_verify_agent_active] *)
Definition verify_agent_active (w : Wiring) (bearer : pystr) (org agent : Z) : T unit :=
  match agent_verifier w with
  | None => pure (Raise BackendUnavailableError)
  | Some ask => (verify_reply (ask bearer org agent), [AskAgent bearer org agent])
  end.

(** ** The tools ([tools.py]) *)

Definition require_permission (p : Principal) (bit : Z) : result ToolError unit :=
  if has_permission (p_permissions p) bit then Ok tt else Raise PermissionDeniedError.

(** [resolve_tool_agent_id] *)
Definition resolve_tool_agent_id (p : Principal) (requested : option Z) : result ToolError Z :=
  match p_agent_id p, requested with
  | Some a, Some r => if r =? a then Ok a else Raise PermissionDeniedError
  | Some a, None => Ok a
  | None, Some r => Ok r
  | None, None => Raise SchemaError
  end.

Definition require_client (w : Wiring) : result ToolError (CallSpec -> HttpOutcome) :=
  match memory_client w with Some c => Ok c | None => Raise BackendUnavailableError end.

(** [require_access_token] *)
Definition require_access_token (token : option pystr) : result ToolError pystr :=
  match token with
  | Some t => if bool_decide (strip_space t = []) then Raise AuthFailedError else Ok t
  | None => Raise AuthFailedError
  end.

Context (nfc : pystr -> pystr) (sha256 : bytes -> string).

Definition normalize_write_content (content : pystr) : pystr := strip_space (nfc content).

Definition key_material (org agent : Z) (content : pystr) : pystr :=
  uuid_str org ++ lit ":" ++ uuid_str agent ++ lit ":" ++ normalize_write_content content.

(** [write_idempotency_key]; a lone surrogate has no encoding. *)
Definition write_idempotency_key (org agent : Z) (content : pystr) : result ToolError string :=
  match utf8_encode (key_material org agent content) with Some b => Ok (sha256 b) | None => Raise InternalError end.

Definition MCP_SOURCE : pystr := lit "mcp_explicit".

Definition jid (u : Z) : Json := JStr (uuid_str u).
Definition field (k : string) (j : Json) : pystr * Json := (lit k, j).
Definition jopt {A} (f : A -> Json) (o : option A) : Json := match o with Some a => f a | None => JNull end.
Definition optional {A} (k : string) (f : A -> Json) (o : option A) : list (pystr * Json) :=
  match o with Some a => [field k (f a)] | None => [] end.

Definition search_call (token : pystr) (agent : Z) (a : SearchMemoryArgs) : CallSpec :=
  {| cs_method := "POST"; cs_path := lit "/v1/memories/search"; cs_token := token; cs_params := []; cs_idempotency_key := None;
     cs_body := Some (JObj [field "agent_id" (jid agent); field "query" (JStr (sa_query a)); field "limit" (JInt (sa_limit a))]) |}.

Definition hit_dict (h : SearchHit) : Json :=
  JObj [field "memory_id" (jid (sh_memory_id h)); field "content" (JStr (sh_content h)); field "score" (JFloat (sh_similarity h));
        field "category" (JStr (sh_category h)); field "rank" (JInt (sh_rank h)); field "source" (JStr (sh_source h))].

Definition search_memory (w : Wiring) (token : option pystr) (p : Principal) (a : SearchMemoryArgs) : T Json :=
  do* _ := pure (require_permission p MEMORY_READ) in
  do* agent := pure (resolve_tool_agent_id p (sa_agent_id a)) in
  do* mem := pure (require_client w) in
  do* tok := pure (require_access_token token) in
  do* _ := verify_agent_active w tok (p_org_id p) agent in
  do* hits := call_memory (client_call mem (search_call tok agent a) parse_search_hits) in
  pure (Ok (JObj [field "org_id" (jid (p_org_id p)); field "agent_id" (jid agent); field "query" (JStr (sa_query a));
                  field "limit" (JInt (sa_limit a)); field "results" (JList (map hit_dict hits))])).

Definition write_payload (agent : Z) (a : WriteMemoryArgs) : Json :=
  JObj [field "agent_id" (jid agent); field "content" (JStr (wa_content a)); field "category" (JStr (wa_category a));
        field "confidence" (JFloat (wa_confidence a)); field "metadata" (JObj [field "mcp_source" (JStr MCP_SOURCE)])].

Definition write_call (token : pystr) (agent : Z) (key : string) (a : WriteMemoryArgs) : CallSpec :=
  {| cs_method := "POST"; cs_path := lit "/v1/memories"; cs_token := token; cs_params := []; cs_idempotency_key := Some key;
     cs_body := Some (write_payload agent a) |}.

Definition write_memory (w : Wiring) (token : option pystr) (p : Principal) (a : WriteMemoryArgs) : T Json :=
  do* _ := pure (require_permission p MEMORY_WRITE) in
  do* agent := pure (resolve_tool_agent_id p (wa_agent_id a)) in
  do* mem := pure (require_client w) in
  do* tok := pure (require_access_token token) in
  do* _ := verify_agent_active w tok (p_org_id p) agent in
  do* key := pure (write_idempotency_key (p_org_id p) agent (wa_content a)) in
  do* made := call_memory (client_call mem (write_call tok agent key a) parse_create_result) in
  pure (Ok (JObj [field "org_id" (jid (p_org_id p)); field "memory_id" (jid (cr_memory_id made)); field "accepted" (JBool true);
                  field "category" (JStr (cr_category made)); field "confidence" (JFloat (cr_confidence made));
                  field "mcp_source" (JStr MCP_SOURCE); field "source" (JStr (cr_source made)); field "persisted" (JBool true);
                  field "status" (JStr (cr_status made)); field "metadata" (JObj (cr_metadata made))])).

(** [if principal.agent_id is not None: await _verify_agent_active(...)] *)
Definition verify_own_agent (w : Wiring) (tok : pystr) (p : Principal) : T unit :=
  match p_agent_id p with Some agent => verify_agent_active w tok (p_org_id p) agent | None => pure (Ok tt) end.

Definition feedback_call (token : pystr) (a : RecordFeedbackArgs) : CallSpec :=
  {| cs_method := "POST"; cs_path := lit "/v1/memories/" ++ uuid_str (fa_memory_id a) ++ lit "/feedback"; cs_token := token;
     cs_params := []; cs_idempotency_key := None;
     cs_body := Some (JObj ([field "feedback" (JStr (fa_feedback a))] ++ optional "session_id" jid (fa_session_id a)
                            ++ optional "trace_id" jid (fa_trace_id a) ++ optional "notes" JStr (fa_notes a))) |}.

Definition record_feedback (w : Wiring) (token : option pystr) (p : Principal) (a : RecordFeedbackArgs) : T Json :=
  do* _ := pure (require_permission p MEMORY_WRITE) in
  do* mem := pure (require_client w) in
  do* tok := pure (require_access_token token) in
  do* _ := verify_own_agent w tok p in
  do* r := call_memory (client_call mem (feedback_call tok a) parse_feedback_result) in
  pure (Ok (JObj [field "org_id" (jid (p_org_id p)); field "memory_id" (jid (fr_memory_id r)); field "feedback" (JStr (fr_feedback r));
                  field "new_usefulness_score" (JFloat (fr_score r)); field "total_positive_feedback" (JInt (fr_positive r));
                  field "total_negative_feedback" (JInt (fr_negative r))])).

Definition lineage_call (token : pystr) (a : GetMemoryLineageArgs) : CallSpec :=
  {| cs_method := "GET"; cs_path := lit "/v1/memories/" ++ uuid_str (la_memory_id a) ++ lit "/lineage"; cs_token := token;
     cs_params := [field "max_depth" (JInt (la_max_depth a))]; cs_idempotency_key := None; cs_body := None |}.

Definition edge_dict (e : LineageEdge) : Json :=
  JObj [field "source_memory_id" (jid (le_source e)); field "target_memory_id" (jid (le_target e)); field "relationship_type" (JStr (le_type e));
        field "confidence" (JFloat (le_confidence e)); field "depth" (JInt (le_depth e)); field "from_memory_id" (jid (le_from e));
        field "other" (JObj [field "memory_id" (jid (le_other e)); field "status" (JStr (le_other_status e)); field "tombstoned" (JBool (le_other_tombstoned e))])].

Definition get_memory_lineage (w : Wiring) (token : option pystr) (p : Principal) (a : GetMemoryLineageArgs) : T Json :=
  do* _ := pure (require_permission p MEMORY_READ) in
  do* mem := pure (require_client w) in
  do* tok := pure (require_access_token token) in
  do* _ := verify_own_agent w tok p in
  do* r := call_memory (client_call mem (lineage_call tok a) parse_lineage_result) in
  pure (Ok (JObj [field "org_id" (jid (p_org_id p)); field "memory_id" (jid (lr_memory_id r)); field "status" (JStr (lr_status r));
                  field "tombstoned" (JBool (lr_tombstoned r)); field "supersession_tip" (jopt jid (lr_tip r));
                  field "max_depth" (JInt (lr_max_depth r)); field "truncated" (JBool (lr_truncated r)); field "edges" (JList (map edge_dict (lr_edges r)))])).

(** ** Invocation ([server.py]) *)

Inductive Tool := SearchMemory | WriteMemory | RecordFeedback | GetMemoryLineage.

Definition tool_name (t : Tool) : string :=
  match t with
  | SearchMemory => "search_memory" | WriteMemory => "write_memory"
  | RecordFeedback => "record_feedback" | GetMemoryLineage => "get_memory_lineage"
  end.

(** The runner of each tool: [_run_verified_tool], [_run_feedback] and the lineage lambda. *)
Definition run_tool (w : Wiring) (token : option pystr) (p : Principal) (t : Tool) (raw : list (pystr * Json)) : T Json :=
  match t with
  | SearchMemory => do* a := pure (parse_search_args raw) in search_memory w token p a
  | WriteMemory => do* a := pure (parse_write_args raw) in write_memory w token p a
  | RecordFeedback => do* a := pure (parse_feedback_args raw) in record_feedback w token p a
  | GetMemoryLineage => do* a := pure (parse_lineage_args raw) in get_memory_lineage w token p a
  end.

Record ToolCallAuditEvent := {
  ae_org_id : Z; ae_agent_id : option Z; ae_tool_name : string; ae_success : bool; ae_error_code : string }.

(** [_invoke_tool]: the limiter, the runner, and the one audit event of the [finally]. *)
Definition invoke_tool (w : Wiring) (token : option pystr) (p : Principal) (decision : result RateLimitError RateLimitResult)
    (t : Tool) (raw : list (pystr * Json)) : T Json * ToolCallAuditEvent :=
  let r := match decision with
           | Raise _ => pure (Raise RateLimitUnavailableError)
           | Ok d => if RateLimit.allowed d then run_tool w token p t raw else pure (Raise RateLimitedError)
           end in
  (r, {| ae_org_id := p_org_id p; ae_agent_id := p_agent_id p; ae_tool_name := tool_name t;
         ae_success := is_ok r.1; ae_error_code := match r.1 with Ok _ => EmptyString | Raise e => error_code e end |}).
End Tools.

(** ** What leaves the process *)

Section Scope.
Context `{UnicodeDB, Pydantic} (nfc : pystr -> pystr) (sha256 : bytes -> string).
Context (w : Wiring) (token : option pystr) (p : Principal).

(** The auth service confirmed the agent. *)
Definition confirmed (tok : pystr) (agent : Z) : Prop :=
  exists ask, agent_verifier w = Some ask /\ verify_reply (ask tok (p_org_id p) agent) = Ok tt.

(** The memory service answered without an error. *)
Definition answered (c : CallSpec) : Prop :=
  exists send status header body, memory_client w = Some send /\ send c = Responded status header body /\ status < 400.

(** The agent a request acts for: the token's own, or the one its body names. *)
Definition acts_for (c : CallSpec) (agent : Z) : Prop :=
  p_agent_id p = Some agent \/ exists fields, cs_body c = Some (JObj fields) /\ find_key "agent_id" fields = Some (jid agent).

Definition in_scope (bit : Z) (pre : list Effect) (c : CallSpec) : Prop :=
  token = Some (cs_token c) /\ has_permission (p_permissions p) bit = true
  /\ (forall agent, 0 <= agent < 2 ^ 128 -> acts_for c agent -> pre = [AskAgent (cs_token c) (p_org_id p) agent] /\ confirmed (cs_token c) agent).

Definition scoped (bit : Z) (m : T Json) : Prop :=
  (forall c, CallMemory c ∈ m.2 -> exists pre, m.2 = pre ++ [CallMemory c] /\ in_scope bit pre c)
  /\ (forall j, m.1 = Ok j -> exists c, CallMemory c ∈ m.2 /\ answered c).

Lemma scoped_fail bit e : scoped bit (Raise e, []).
Proof. split; [|done]. by intros c Hc%elem_of_nil. Qed.

Lemma scoped_guard {A} bit (r : result ToolError A) k : (forall a, r = Ok a -> scoped bit (k a)) -> scoped bit (tbind (pure r) k).
Proof.
  intros Hk. destruct r as [a|e]; cbn; [|apply scoped_fail]. specialize (Hk a eq_refl). by destruct (k a).
Qed.

Lemma tbind_pure {A B} (a : A) (k : A -> T B) : tbind (pure (Ok a)) k = k a.
Proof. unfold tbind. cbn. by destruct (k a). Qed.

(** A request sent after [pre]. *)
Lemma scoped_call {A} bit pre send c (parse : option Json -> result MemoryHttpError A) (g : A -> Json) :
  memory_client w = Some send -> (forall c', CallMemory c' ∉ pre) -> in_scope bit pre c ->
  scoped bit (let m := tbind (call_memory (client_call send c parse)) (fun x => pure (Ok (g x))) in (m.1, pre ++ m.2)).
Proof.
  intros Hsend Hpre Hin. unfold client_call. case_bool_decide as Ht.
  { cbn. split; [|done]. rewrite app_nil_r. intros c' Hc'. by apply Hpre in Hc'. }
  assert (forall e (l := pre ++ [CallMemory c]), CallMemory e ∈ l -> exists pre', l = pre' ++ [CallMemory e] /\ in_scope bit pre' e) as Hone.
  { intros e l He. apply elem_of_app in He as [He|He]; [by apply Hpre in He|]. apply list_elem_of_singleton in He as [= ->]. by exists pre. }
  destruct (send c) as [| |status header body] eqn:Hs; cbn; [by split; [apply Hone|]..|].
  destruct (400 <=? status) eqn:Hst; cbn; [by split; [apply Hone|]|]. apply Z.leb_gt in Hst.
  destruct (parse body) as [x|e]; cbn; (split; [apply Hone|]); [|done].
  intros j _. exists c. split; [set_solver|]. by exists send, status, header, body.
Qed.

Lemma require_permission_ok bit u : require_permission p bit = Ok u -> has_permission (p_permissions p) bit = true.
Proof. unfold require_permission. by case_match. Qed.

Lemma require_client_ok send : require_client w = Ok send -> memory_client w = Some send.
Proof. unfold require_client. case_match; [|done]. by intros [= ->]. Qed.

Lemma require_access_token_ok t : require_access_token token = Ok t -> token = Some t.
Proof. unfold require_access_token. repeat case_match; try done. by intros [= ->]. Qed.

Context (own_agent : forall a, p_agent_id p = Some a -> 0 <= a < 2 ^ 128).

(** Verification, then the request. *)
Lemma scoped_verified {A} bit send c agent (parse : option Json -> result MemoryHttpError A) (g : A -> Json) (k : unit -> T Json) :
  memory_client w = Some send -> token = Some (cs_token c) -> has_permission (p_permissions p) bit = true ->
  (forall a, 0 <= a < 2 ^ 128 -> acts_for c a -> a = agent) ->
  (forall u, k u = tbind (call_memory (client_call send c parse)) (fun x => pure (Ok (g x)))) ->
  scoped bit (tbind (verify_agent_active w (cs_token c) (p_org_id p) agent) k).
Proof.
  intros Hsend Htok Hperm Hacts Hk. unfold verify_agent_active. destruct (agent_verifier w) as [ask|] eqn:Hask; [|apply scoped_fail].
  unfold tbind at 1. cbn [fst snd]. destruct (verify_reply _) as [[]|e] eqn:Hv.
  - rewrite Hk. eapply scoped_call; [done| |].
    + intros c' Hc'. by apply list_elem_of_singleton in Hc'.
    + split_and!; try done. intros a Ha Hc. apply Hacts in Hc; [|done]. subst a. split; [done|]. by exists ask.
  - split; [|done]. intros c' Hc'. by apply list_elem_of_singleton in Hc'.
Qed.

Lemma jid_inj u v : 0 <= u < 2 ^ 128 -> 0 <= v < 2 ^ 128 -> jid u = jid v -> u = v.
Proof.
  intros Hu Hv E. assert (uuid_str u = uuid_str v) as E'.
  { change (match jid u with JStr s => s | _ => [] end = uuid_str v). by rewrite E. }
  apply (@uuid_roundtrip ascii_db) in Hu, Hv. rewrite E' in Hu. congruence.
Qed.

Lemma own_or_named c agent fields : cs_body c = Some (JObj fields) -> find_key "agent_id" fields = Some (jid agent) ->
  0 <= agent < 2 ^ 128 -> (forall a, p_agent_id p = Some a -> a = agent) -> forall a, 0 <= a < 2 ^ 128 -> acts_for c a -> a = agent.
Proof.
  intros Hb Hf Hr Hown a Ha [Hp|(fields' & Hb' & Hf')]; [by apply Hown|]. rewrite Hb in Hb'. injection Hb' as <-. rewrite Hf in Hf'.
  apply (inj Some) in Hf'. symmetry. by apply jid_inj.
Qed.

(** Who a search or a write acts for. *)
Lemma resolve_agent_ok requested agent : (forall a, requested = Some a -> 0 <= a < 2 ^ 128) ->
  resolve_tool_agent_id p requested = Ok agent -> 0 <= agent < 2 ^ 128 /\ (forall a, p_agent_id p = Some a -> a = agent).
Proof.
  unfold resolve_tool_agent_id. intros Hreq. destruct (p_agent_id p) as [a|] eqn:Hp, requested as [r|]; try done.
  - destruct (r =? a); [|done]. intros [= <-]. split; [by apply own_agent|]. by intros ? [= ->].
  - intros [= <-]. split; [by apply own_agent|]. by intros ? [= ->].
  - intros [= <-]. split; [by apply Hreq|done].
Qed.

Lemma nullable_uuid j o : nullable as_uuid j = Some o -> forall a, o = Some a -> 0 <= a < 2 ^ 128.
Proof.
  unfold nullable. intros Hn a ->. destruct j as [j|]; [|done].
  assert (Some <$> as_uuid j = Some (Some a)) as Hj by (by destruct j).
  apply fmap_Some in Hj as (u & Hu & [= ->]). by eapply as_uuid_range.
Qed.

Lemma search_scoped a : (forall x, sa_agent_id a = Some x -> 0 <= x < 2 ^ 128) -> scoped MEMORY_READ (search_memory w token p a).
Proof.
  intros Hreq. unfold search_memory. apply scoped_guard. intros u Hu%require_permission_ok.
  apply scoped_guard. intros agent Ha%resolve_agent_ok; [|done]. destruct Ha as [Hr Hown].
  apply scoped_guard. intros send Hsend%require_client_ok. apply scoped_guard. intros tok Htok%require_access_token_ok.
  eapply (scoped_verified _ send (search_call tok agent a)); try done. by eapply own_or_named.
Qed.

Lemma write_scoped a : (forall x, wa_agent_id a = Some x -> 0 <= x < 2 ^ 128) -> scoped MEMORY_WRITE (write_memory nfc sha256 w token p a).
Proof.
  intros Hreq. unfold write_memory. apply scoped_guard. intros u Hu%require_permission_ok.
  apply scoped_guard. intros agent Ha%resolve_agent_ok; [|done]. destruct Ha as [Hr Hown].
  apply scoped_guard. intros send Hsend%require_client_ok. apply scoped_guard. intros tok Htok%require_access_token_ok.
  destruct (write_idempotency_key nfc sha256 (p_org_id p) agent (wa_content a)) as [key|e] eqn:Hk.
  - eapply (scoped_verified _ send (write_call tok agent key a)); try done; [by eapply own_or_named|].
    intros []. rewrite tbind_pure. reflexivity.
  - unfold verify_agent_active. destruct (agent_verifier w); [|apply scoped_fail]. unfold tbind at 1. cbn [fst snd].
    destruct (verify_reply _); cbn; (split; [|done]); intros c' Hc'; by apply list_elem_of_singleton in Hc'.
Qed.

(** The tools that do not name an agent. *)
Lemma scoped_own {A} bit send c (parse : option Json -> result MemoryHttpError A) (g : A -> Json) :
  memory_client w = Some send -> token = Some (cs_token c) -> has_permission (p_permissions p) bit = true ->
  (forall fields, cs_body c = Some (JObj fields) -> find_key "agent_id" fields = None) ->
  scoped bit (do* _ := verify_own_agent w (cs_token c) p in do* r := call_memory (client_call send c parse) in pure (Ok (g r))).
Proof.
  intros Hsend Htok Hperm Hbody.
  assert (forall a, acts_for c a -> p_agent_id p = Some a) as Hacts.
  { intros a [Ha|(fields & Hb & Hf)]; [done|]. by rewrite Hbody in Hf by done. }
  unfold verify_own_agent. destruct (p_agent_id p) as [agent|] eqn:Hp.
  - eapply scoped_verified; try done. intros a _ Ha. apply Hacts in Ha. congruence.
  - unfold tbind at 1. cbn [pure fst snd]. eapply scoped_call; [done|by intros c' Hc'%elem_of_nil|]. split_and!; try done.
    intros a _ Ha. by apply Hacts in Ha.
Qed.

Lemma feedback_scoped a : scoped MEMORY_WRITE (record_feedback w token p a).
Proof.
  unfold record_feedback. apply scoped_guard. intros u Hu%require_permission_ok.
  apply scoped_guard. intros send Hsend%require_client_ok. apply scoped_guard. intros tok Htok%require_access_token_ok.
  eapply (scoped_own _ send (feedback_call tok a)); try done. intros fields [= <-].
  by destruct (fa_session_id a), (fa_trace_id a), (fa_notes a).
Qed.

Lemma lineage_scoped a : scoped MEMORY_READ (get_memory_lineage w token p a).
Proof.
  unfold get_memory_lineage. apply scoped_guard. intros u Hu%require_permission_ok.
  apply scoped_guard. intros send Hsend%require_client_ok. apply scoped_guard. intros tok Htok%require_access_token_ok.
  by eapply (scoped_own _ send (lineage_call tok a)).
Qed.

(** The permission each tool needs. *)
Definition tool_permission (t : Tool) : Z :=
  match t with SearchMemory | GetMemoryLineage => MEMORY_READ | WriteMemory | RecordFeedback => MEMORY_WRITE end.

Lemma run_tool_scoped t raw : scoped (tool_permission t) (run_tool nfc sha256 w token p t raw).
Proof.
  destruct t; cbn [run_tool tool_permission]; apply scoped_guard; intros a Ha.
  - apply search_scoped. unfold parse_search_args in Ha. destruct (only_keys _ _); [|done].
    destruct (_ ≫= text_between _ _); [|done]. destruct (with_default _ _ _); [|done].
    destruct (nullable _ _) as [o|] eqn:Ho; [|done]. injection Ha as <-. by eapply nullable_uuid.
  - apply write_scoped. unfold parse_write_args in Ha. destruct (only_keys _ _); [|done].
    destruct (_ ≫= text_between _ _); [|done]. destruct (with_default (lit "factual") _ _); [|done].
    destruct (with_default DEFAULT_CONFIDENCE _ _); [|done].
    destruct (nullable _ _) as [o|] eqn:Ho; [|done]. injection Ha as <-. by eapply nullable_uuid.
  - apply feedback_scoped.
  - apply lineage_scoped.
Qed.
End Scope.


(** The key of a write identifies organization, agent and normalized content: the
    texts agree exactly when these do. *)
Theorem write_key_identifies_content (nfc : pystr -> pystr) `{UnicodeDB} (org agent org' agent' : Z) (c c' : pystr) :
  0 <= org < 2 ^ 128 -> 0 <= agent < 2 ^ 128 -> 0 <= org' < 2 ^ 128 -> 0 <= agent' < 2 ^ 128 ->
  key_material nfc org agent c = key_material nfc org' agent' c'
  <-> org = org' /\ agent = agent' /\ normalize_write_content nfc c = normalize_write_content nfc c'.
Proof.
  intros H1 H2 H3 H4. split; [|by intros (-> & -> & Hn); unfold key_material; rewrite Hn]. unfold key_material. intros E.
  assert (forall u v, 0 <= u < 2 ^ 128 -> 0 <= v < 2 ^ 128 -> uuid_str u = uuid_str v -> u = v) as Hinj.
  { intros u v Hu Hv Euv. apply jid_inj; try done. unfold jid. by rewrite Euv. }
  apply app_inj_1 in E as [E1 E]; [|by rewrite !uuid_str_length]. apply app_inj_1 in E as [_ E]; [|done].
  apply app_inj_1 in E as [E2 E]; [|by rewrite !uuid_str_length]. apply app_inj_1 in E as [_ E]; [|done].
  split_and!; auto.
Qed.

(** ** Examples *)

Module McpSample.
Import FingerprintSample.
#[local] Existing Instance ascii_db.
#[local] Existing Instance sample_repr.

#[local] Instance strict : Pydantic.
Proof.
  refine {| as_int := fun j => match j with JInt z => Some z | _ => None end;
            as_float := fun j => match j with JFloat x => Some x | _ => None end;
            as_uuid := fun j => match j with JStr s => uuid_parse s | _ => None end;
            as_bool := fun j => match j with JBool b => Some b | _ => None end |}.
  intros j u Hj. destruct j; try done. by eapply uuid_parse_range.
Defined.

Definition same_form (s : pystr) : pystr := s.
(** A stand-in for SHA-256 that tells texts of even and odd length apart. *)
Definition sha (b : bytes) : string :=
  if Nat.even (length b) then "aaaaaaaaaaaaaaaaaaaaaaaaaaaaaaaaaaaaaaaaaaaaaaaaaaaaaaaaaaaaaaaa"
  else "bbbbbbbbbbbbbbbbbbbbbbbbbbbbbbbbbbbbbbbbbbbbbbbbbbbbbbbbbbbbbbbb".

Definition agent_token : Principal :=
  {| p_org_id := 1; p_permissions := Permissions.AGENT_DEFAULT; p_agent_id := Some 2; p_user_id := None; p_token_id := None |}.
Definition active_reply : bytes :=
  enc_fields [text_field 1 (uuid_str 2); text_field 2 (uuid_str 1); text_field 3 (lit "active")].
Definition no_hits : Json := JObj [field "data" (JObj [field "results" (JList [])])].
Definition wired : Wiring :=
  {| memory_client := Some (fun _ => Responded 200 None (Some no_hits)); agent_verifier := Some (fun _ _ _ => Payload active_reply) |}.
Definition let_through : result RateLimitError RateLimitResult := Ok (noop_check 120 0).

Definition search (agent : Z) : T Json * ToolCallAuditEvent :=
  invoke_tool same_form sha wired (Some (lit "pat")) agent_token let_through SearchMemory
    [field "query" (JStr (lit "tea")); field "agent_id" (jid agent)].

(** The agent of the token may be named; another agent makes no call at all. *)
Example other_agent_is_refused : search 3 = ((Raise PermissionDeniedError, []),
  {| ae_org_id := 1; ae_agent_id := Some 2; ae_tool_name := "search_memory"; ae_success := false; ae_error_code := "permission_denied" |}).
Proof. by vm_compute. Qed.


Definition id_text (u : Z) : string := string_of_list_ascii ((fun c => ascii_of_nat (Z.to_nat c)) <$> uuid_str u).
Definition all_known (o a : Idempotency.UUID) : bool := true.

(** [CreateMemoryRequest.model_dump(mode="json")] of what [write_memory] posts. *)
Definition posted (content : string) : Json :=
  JObj [field "agent_id" (jid 2); field "content" (JStr (lit content)); field "category" (JStr (lit "factual"));
        field "confidence" (JFloat DEFAULT_CONFIDENCE); field "labels" JNull; field "session_id" JNull; field "visibility" (JStr (lit "agent"));
        field "tags" (JList []); field "metadata" (JObj [field "mcp_source" (JStr MCP_SOURCE)]); field "pinned" (JBool false);
        field "valid_from" JNull; field "valid_until" JNull; field "expires_at" JNull; field "expected_session_revision" JNull].

Definition claim_of (content : string) : ClaimRequest :=
  {| rq_org := id_text 1; rq_agent := id_text 2;
     rq_key := match write_idempotency_key same_form sha 1 2 (lit content) with Ok k => k | Raise _ => EmptyString end;
     rq_hash := default EmptyString (fingerprint_request sha IDEMPOTENCY_CONTRACT (lit "POST") (lit "/v1/memories") (posted content)) |}.

Definition at_time (t : Z) : Idempotency.Env := {| Idempotency.db_now := t; Idempotency.py_now := t; Idempotency.new_id := "row" |}.

(** The table after "likes tea" was written and its answer recorded. *)
Definition after_write : Idempotency.Table :=
  let '(o, t) := Idempotency.claim all_known LEDGER_LEASE (claim_of "likes tea") (at_time 0) NoFault ∅ ∅ in
  match o with Ok (Owned c) => (Idempotency.finalize c 201 "{}" NoFault t).2 | _ => ∅ end.

(** Writing the same content with a blank at the end has the same key, by the tool's
    normal form, but another fingerprint, because the content is posted as given: from
    then on the write is refused as a conflict, where the normal form promises that the
    two are one write. *)
Theorem padded_rewrite_conflicts :
  write_idempotency_key same_form sha 1 2 (lit "likes tea") = write_idempotency_key same_form sha 1 2 (lit "likes tea ")
  /\ (forall env, exists c, (Idempotency.claim all_known LEDGER_LEASE (claim_of "likes tea ") env NoFault after_write after_write).1 = Ok (Conflict c))
  /\ map_memory_http_error (HttpError (Some 409)) = BackendRejectedError "backend_rejected".
Proof.
  split; [by vm_compute|]. split; [|done]. intros env. unfold Idempotency.claim.
  assert (validate_claim (rq_key (claim_of "likes tea ")) (rq_hash (claim_of "likes tea ")) = Ok tt) as -> by (by vm_compute).
  unfold insert_or_load. assert (hash_ok (rq_hash (claim_of "likes tea ")) = true) as -> by (by vm_compute). cbn [negb].
  destruct (after_write !! rq_index (claim_of "likes tea ")) as [row|] eqn:Hrow; [|by vm_compute in Hrow].
  assert (negb (String.eqb (row_hash row) (rq_hash (claim_of "likes tea "))) = true) as Hh.
  { assert (row_hash <$> after_write !! rq_index (claim_of "likes tea ") = Some (rq_hash (claim_of "likes tea"))) as Hr by (by vm_compute).
    rewrite Hrow in Hr. apply (inj Some) in Hr. rewrite Hr. by vm_compute. }
  unfold resolve_row. rewrite Hh. cbn. eauto.
Qed.
End McpSample.
